(* ===== verification/_CoqProject ===== *)
-Q . S2P
Prelude.v
Fuel.v
Exceptions.v
EventQueue.v
TextStream.v
Geometry.v
Float32.v
Layout.v
Workspace.v
WorkspaceManager.v
WindowIndex.v
ManagerInv.v
Pools.v
ManagerOps.v
ManagerFocus.v
Hotplug.v
MonitorLayout.v
Events.v
Protocol.v
Ipc.v
Commands.v
Core.v
RestartState.v
ConfigValue.v
ConfigRuntime.v
RuntimeStore.v
Validate.v
Dispatch.v
Runtime.v
Adopt.v
Lifecycle.v
X11Server.v
X11Backend.v
X11Events.v
X11Loop.v
CoreSafe.v
CoreRun.v
CoreFrame.v
CoreFocus.v
CoreCommands.v
CoreSpecs.v
CoreProps.v
TopologyProps.v
LifecycleSafe.v
Keybindings.v
KeybindingsLists.v
BackendSafe.v
KeybindingsProps.v
DragProps.v
KeybindingsExamples.v
X11Safe.v
X11Coalesce.v
X11Keys.v
X11Unmap.v
LifecycleRun.v
LifecycleProps.v
AdoptProps.v
X11Props.v
WaylandBackend.v
DisplayServer.v
XWayland.v
WaylandSafe.v
DisplayMirror.v
DisplayEmit.v
DisplayRun.v
WaylandRun.v
WaylandProps.v
DisplayProps.v
XWaylandProps.v
TrayHost.v
TrayProps.v
BarSetup.v
BarModule.v
BarSafe.v
BarBuild.v
BarProps.v
BarExamples.v
ChildRegistry.v
ChildProps.v
ChildFaults.v
