(* ===== verification/Prelude.v ===== *)
(** * SirenWM: verification development

    SirenWM is a tiling window manager in C++.  A core decides (which window is
    on which workspace, which workspace on which monitor, who has the focus,
    where windows go); a runtime around it owns the event queue, the modules,
    the settings, start, reload and stop; a backend talks to a display server
    (X11, or the program's own Wayland server, a process at the other end of a
    socket); Lua configures it; modules add the rest, among them the key bindings and the
    bars with the system tray.
    This library models the core, the runtime, the settings, the X11 backend, the
    Wayland backend with the messages it exchanges with its server, the state and
    control channel of that server, its XWayland window manager, the key bindings,
    the bars and the system tray, and the registry of child processes, as
    executable definitions, and proves what makes them correct.  Paths are relative to [src/].

    ** How the parts interact

    The backend translates X events into commands, [Core::dispatch]; a command
    changes the core's state, appends effects (map, focus, raise, …) and pending
    geometry for the backend, and posts domain events.  The event loop of the
    runtime ticks: it lets the backend pump events, drains the event queue into
    modules and receivers, applies reloads, and lets the backend carry out the
    effects of the frame.  Modules and Lua call back into the core and the
    runtime at any of these points.

    ** Files

    Foundations
    - [Prelude]: record update, the error-and-state monad [M] ([None] is
      undefined behaviour, a thrown range error or a failed assertion of a debug
      build), its judgement [wp], [std::vector] access with C++'s bounds, integer
      widths, tactics.
    - [Fuel]: computations with fuel; [wpf] says some amount is enough.
    - [Exceptions]: C++ exceptions over [M]: throwing, catching, and loops over
      hash tables in the order of the table.
    - [TextStream]: decimal output and input of the standard streams.
    - [Float32]: IEEE binary32, for the master factor.

    Domain ([core/include/domain], [core/include/support])
    - [Geometry]: vectors, monitors with insets, windows with size hints.
    - [Layout]: [tile] and [monocle] of [layout.hpp].
    - [Workspace]: the vector of windows with a cursor; windows are shared
      objects on a heap.
    - [WorkspaceManager]: [core/src/core/workspace_manager.cpp], every mutator
      and query of the class.
    - [MonitorLayout]: [core/src/monitor_layout.cpp], composing monitors.

    Core ([core/src/core/core_dispatch.cpp], [core/include/domain/core.hpp])
    - [Events], [Commands], [Protocol]: the vocabulary: events, commands,
      message envelopes and the payloads that travel in them.
    - [Core]: state, effects, flushes, focus, fullscreen stacking, arranging.
    - [Dispatch]: one definition per overload of [dispatch], the visitors,
      settings, the reload snapshot.

    Configuration ([core/src/runtime/config_runtime.cpp], [runtime_config.cpp],
    [core/src/runtime_store.cpp])
    - [ConfigValue], [ConfigRuntime]: from Lua values to typed settings.
    - [RuntimeStore]: the transactional store.
    - [Validate]: [Runtime::validate_settings].

    Runtime ([core/src/runtime/runtime.cpp], [core/include/runtime])
    - [EventQueue]: the queue and the registries.
    - [Runtime]: state, modules, events, hooks, file descriptors, child reaping.
    - [RestartState]: the file written before an exec restart, and its reader.
    - [Adopt]: adoption of the windows that exist at start.
    - [Lifecycle]: configuration, start, tick, reload, stop, [run].

    X11 backend ([backends/x11], [libxcb])
    - [X11Server]: the server as an interface, and the library that decodes its
      replies.
    - [X11Backend]: state, [X11Window], EWMH, hooks, domain events, start.
    - [X11Events]: every event handler.  [X11Loop]: the pump, the frame, and
      the scan of existing windows.
    - [TrayHost]: the system tray, [x11/tray_host.cpp]: an object with the icons
      it embeds; a method takes the object and returns it.

    Wayland backend and display server ([backends/wayland], [libipc],
    [libwlserver])
    - [Ipc]: the messages, byte by byte: structs, headers, sending, receiving.
    - [WaylandBackend]: the backend ([display_server_backend.cpp]) and its ports;
      the channel is a list of packets that arrive, the runtime an interface.
    - [DisplayServer]: the server's surfaces, outputs and overlays, its control
      server, and one round of its main loop.
    - [XWayland]: the window manager of X applications under the server ([x11/xwm.cpp]),
      the serials that match windows and surfaces ([xwayland_shell.cpp]), and the entry
      points of [xwayland.cpp].

    Modules ([modules/keybindings], [modules/bar])
    - [Keybindings]: specifications of keys and buttons, [kb.binds] and [kb.mouse]
      read through the Lua stack, the handlers, dragging.
    - [BarSetup]: [bar.settings], from the Lua table to the configuration of every
      monitor's bars.
    - [BarModule]: the bars and the areas they reserve, their trays and the routing
      of icons to the monitor of their application, widgets, what is drawn, clicks
      and events.  The module's state and the X server are the world of [Runtime].

    Program ([src])
    - [ChildRegistry]: [process/child_process_registry.cpp] and
      [ensure_embedded_display_server] of [main.cpp].

    Proof files: [WindowIndex], [ManagerInv], [Pools], [ManagerOps],
    [ManagerFocus], [Hotplug] (the manager); [CoreSafe],
    [CoreRun], [CoreFrame], [CoreFocus], [CoreCommands],
    [CoreSpecs] (the core); [LifecycleSafe], [LifecycleRun] (the runtime);
    [BackendSafe] (what the two backends share: [xt], a judgement on code that
    calls the runtime), [X11Safe], [X11Coalesce], [X11Keys], [X11Unmap]
    (X11), [WaylandSafe] (Wayland), [DisplayMirror], [DisplayEmit],
    [DisplayRun], [WaylandRun] (what the backend knows of the server's surfaces:
    messages, operations, runs of the two processes), [KeybindingsLists] (the
    stack programs compute a reading of the tables as values), [TrayProps],
    [BarSafe], [BarBuild] (the order of a tray's icons, a judgement on
    what code does to the trays, the handlers, building bars and trays).
    Claims with their witnesses: [CoreProps], [TopologyProps], [LifecycleProps],
    [AdoptProps], [X11Props], [WaylandProps], [DisplayProps],
    [XWaylandProps]; [KeybindingsProps]
    and [DragProps], with the witnesses in [KeybindingsExamples]; [BarProps],
    with the witnesses in [BarExamples]; [ChildProps]
    and [ChildFaults], which has their witnesses; claims about a
    single component are in its file.

    ** What the theorems show

    - Safety and invariants: no sequence of calls makes the core fail or breaks
      its invariant; every command evolves the state without losing a window; no
      X event, frame or reaction makes the X11 backend fail, and it sends only
      requests xcb can encode; a window manager's own unmaps never withdraw a
      window; the Wayland backend survives whatever its server sends, strings being
      terminated; the key bindings module stays within the Lua stack as long as
      there is room for what it leaks, and asks for the pointer exactly while a
      window is dragged; the bar module keeps the icons of the trays in order, each
      in one tray, and no window is laid out under a bar that fits its monitor.
    - Progress: [run] ends in [Stopped] with the modules, their windows and the
      child pipe gone, in every environment that keeps to its part; the queue
      drains when no event causes itself; validation, the composer and the pump
      return.
    - Functional behaviour: focus, visibility, moving and switching, assignment
      of workspaces, hot-plug, reload, adoption, flushes, zoom, resizing within
      hints, tiling inside the monitor and without overlap, the surface under the
      pointer, intercepted keys, dragging, clicks on tray icons, the bars'
      settings.
    - Equivalence and refinement: the queue delivers generation by generation;
      the pump is a batch with coalescing, but for what a key release reads ahead;
      autorepeat among key events is invisible; the Wayland
      backend's tables mirror the display server's, whatever the interleaving; the
      surfaces of X applications mirror the X windows; the
      lists of bindings are what the tables say; the lines of a child are those of
      its whole output; the state file is the table of child processes, and a next
      program that gets the lock finds them all.
    - Round trips: settings, envelopes, packets, key specifications, the restart
      file, transactions, unplug and replug, reserve and release.
    - Errors: failed reloads, unknown windows, and the places where the code
      does not do what it means to (see the findings).

    ** Interfaces

    What is not code of the repository, or is the other side of an interface of
    it, is a class, and what the theorems rely on a class of laws:
    - [Runtime.Env]: the backend, the modules, the Lua VM and the kernel as
      operations on the runtime.  [LifecycleSafe.Tame] states their part: they
      keep the invariant and drop no window of a module, the patience of the
      environment runs out, so that the loop ends, and the kernel grants the loop
      its descriptor.
    - [EventQueue.QueueLens], [Receiver]: where the queue is kept, and that what
      a receiver posts it posts through the queue, in decreasing rank.
    - [AdoptProps.QuietHooks]: hooks that do not move windows during adoption.
    - [LifecycleProps.LuaWrites]: a configuration file writes settings only.
    - [X11Server.XServer]: a server of which nothing is known;
      [X11Safe.ServerOk]: an invariant of it that well-formed requests keep, a
      finite queue, and terminated class names (see the findings for what happens
      otherwise).  [X11Backend.XModules], [X11Safe.CallsOk]: the modules and hooks
      the backend calls.
    - [WaylandBackend.Peer]: the channel to the display server, and
      [WaylandSafe.PeerOk], [RulesOk]: its invariant, and the hooks.
      [DisplayServer.Host]: the compositor, sockets and descriptors around the
      server's state.  [DisplayMirror.ClientWire], [DisplayEmit.ServerWire]: what is
      received and sent on the connection, in order.  [Exceptions.HashOrder]: the
      order in which a hash table is walked, of which nothing is known.
    - [XWayland.XwlEnv]: the connection to XWayland, its Wayland objects and the
      compositor's names of surfaces; [XWaylandProps.TerminatedClasses]: class names
      are terminated.
    - [Keybindings.KbEnv]: the input port, the Lua functions and the names of
      keysyms; [KeybindingsProps.KbOk]: they keep the invariant, and leave the Lua
      stack as it was; [DragProps.RecordsPointer]: a record of what the module asked
      of the pointer last, which is not whether the server grants it.
    - [TrayHost.XScreen]: the screen and the owners of selections, with
      [TrayProps.ScreenOk]; [BarModule.BarEnv]: text sizes, painting, Lua widgets,
      with [BarSafe.BarOk]: widgets and the creation of windows keep the invariant
      and leave the bars alone.
    - [ChildRegistry.Kernel]: processes, pipes, files, the environment;
      [ChildProps.Delivers], [ChildProps.FileLaws] (what is written is read, as long
      as the file can be written), [ChildFaults.Signals] and [FlockLaws] (one holder
      of the lock at a time): what each claim needs of them.
    Each class has an instance with which the witnesses evaluate.

    ** Fuel

    [MonitorLayout.resolve] takes one unit per alias and one more, the depth-first
    search of [Validate] two per link list and one more, [from_lua] the 32
    levels the code allows, [load_tokens] the length of the text: each is proved
    enough, or the code's own bound.  The drains, ticks, [run],
    [handle_generic_event] and the pump take fuel whose existence is the theorem.
    [focused_toplevel] has the 8 steps of the code.

    ** Conventions

    [int] is [Z]: signed overflow, which is undefined in C++, is outside the model,
    so that a theorem that nothing is undefined is about everything else
    ([CoreProps.inc_master_overflows] is a command whose sum leaves the range); the
    theorems that need a bound state it, and the hit test of the display server,
    whose numbers come from packets, computes with checked 32-bit sums.
    Conversions to narrower or unsigned types are written out.  The Lua stack of the
    key bindings has the 20 slots that the manual of Lua guarantees, and a push
    beyond them is [None]; tables have no metatables.
    A [shared_ptr] is an address of the heap of windows, so aliasing is that of
    the code; reading a dead address is [None].  Assertions of a debug build
    ([WS_ASSERT_CONSISTENT], [assert]) are part of the definitions.  Logging is
    left out.

    ** Not modelled, and why

    - The Lua bindings of [config_loader.cpp] and the Lua host: each wraps calls
      of the C API of Lua; what they pass to the core are the core's commands.
    - Of the bar module the pipe and the timer that wake it, and how colours and
      fonts are given to cairo and Pango.  The audio, debug, keyboard and system
      information modules: libraries and files of the system behind a thin layer.
    - The ports of the X11 backend (input, keyboard, monitor, render, GL)
      and the retry loop of its constructor: calls of Xlib, Cairo and RandR whose
      results are arguments here.  Flushing the connection has no effect in the
      model, in which requests reach the server when they are made.
    - Of [libwlserver] the protocol objects over C callbacks of libwayland, the
      launch of XWayland (processes, sockets, lock files), drawing, and the shared memory of overlays; of
      [libipc] the sockets themselves.
*)

From Stdlib Require Export ZArith Lia.
From stdpp Require Export base gmap strings list fin_maps pretty.

(** ** Functional record update

    A struct of the code is a [Record]; [r <| f := v |>] is the assignment
    [r.f = v].  Each record lists its fields once, as an [Eta] instance, and
    the setters are derived from it. *)

Class Eta (R : Type) := eta : R → R.
Class Setter {R T : Type} (p : R → T) := mk_setter { upd : (T → T) → R → R }.
Arguments upd {R T} p {_} f r /.
Arguments mk_setter {R T} p _.

Ltac derive_setter :=
  match goal with
  | |- @Setter ?R ?T ?p =>
      let f := fresh "f" in
      let r := fresh "r" in
      refine (mk_setter p _); intros f r;
      let e := eval hnf in (@eta R _ r) in
      match eval pattern (p r) in e with
      | ?g (p r) => let e' := eval cbv beta in (g (f (p r))) in exact e'
      end
  end.

#[export] Hint Extern 1 (Setter _) => derive_setter : typeclass_instances.

Declare Scope wm_scope.
Delimit Scope wm_scope with wm.
#[global] Open Scope wm_scope.

Notation "r <| p := v |>" := (upd p (λ _, v) r)
  (at level 1, left associativity, format "r  <| p  :=  v |>") : wm_scope.
Notation "r <| p ::= f |>" := (upd p f r)
  (at level 1, left associativity, format "r  <| p  ::=  f |>") : wm_scope.

(** ** A state monad with undefined behaviour

    [M S A] is a computation over the state [S]: [None] stands for what the
    code must never do (an out-of-range subscript, a null dereference, a failed
    consistency check, which aborts). *)

Definition M (S A : Type) : Type := S → option (A * S).

Section Monad.
Context {S : Type}.

Definition ret {A} (a : A) : M S A := λ s, Some (a, s).
Definition bind {A B} (m : M S A) (k : A → M S B) : M S B := λ s,
  match m s with
  | Some (a, s') => k a s'
  | None => None
  end.
Definition gets {A} (f : S → A) : M S A := λ s, Some (f s, s).
Definition modify (f : S → S) : M S unit := λ s, Some (tt, f s).
(** A read that must be in range (a subscript, a dereference). *)
Definition checked {A} (o : S → option A) : M S A := λ s,
  match o s with Some a => Some (a, s) | None => None end.
(** A question to the environment, which may change it. *)
Definition ask {A} (q : S → A * S) : M S A := λ s, Some (q s).
(** An update whose target must exist. *)
Definition try_modify (f : S → option S) : M S unit := λ s,
  match f s with Some s' => Some (tt, s') | None => None end.
Definition check (b : S → bool) : M S unit := λ s,
  if b s then Some (tt, s) else None.

Fixpoint for_each {A} (l : list A) (body : A → M S unit) : M S unit :=
  match l with
  | [] => ret tt
  | a :: l' => bind (body a) (λ _, for_each l' body)
  end.
End Monad.

Notation "x <- m ;; k" := (bind m (λ x, k))
  (at level 100, m at next level, right associativity) : wm_scope.
Notation "m ;; k" := (bind m (λ _, k))
  (at level 100, right associativity) : wm_scope.

(** Run a computation on a part of the state. *)
Definition zoom {S T A : Type} (get : S → T) (put : T → S → S) (m : M T A) : M S A := λ s,
  match m (get s) with
  | Some (a, t) => Some (a, put t s)
  | None => None
  end.

(** ** Weakest preconditions

    [wp m Q s]: from [s], [m] runs without undefined behaviour and ends in a
    result and state that satisfy [Q]. *)

Definition wp {S A} (m : M S A) (Q : A → S → Prop) (s : S) : Prop :=
  match m s with
  | Some (a, s') => Q a s'
  | None => False
  end.

Create HintDb wp.

Section WpRules.
Context {S : Type}.
Implicit Types s : S.

Lemma wp_ret {A} (a : A) Q s : Q a s → wp (ret a) Q s.
Proof. done. Qed.

Lemma wp_bind {A B} (m : M S A) (k : A → M S B) Q s :
  wp m (λ a, wp (k a) Q) s → wp (bind m k) Q s.
Proof. unfold wp, bind. by destruct (m s) as [[a s']|]. Qed.

Lemma wp_mono {A} (m : M S A) (Q Q' : A → S → Prop) s :
  wp m Q s → (∀ a s', Q a s' → Q' a s') → wp m Q' s.
Proof. unfold wp. destruct (m s) as [[a s']|]; [auto|done]. Qed.

Lemma wp_and {A} (m : M S A) (Q Q' : A → S → Prop) s :
  wp m Q s → wp m Q' s → wp m (λ a s', Q a s' ∧ Q' a s') s.
Proof. unfold wp. destruct (m s) as [[a s']|]; [auto|done]. Qed.

Lemma wp_gets {A} (f : S → A) Q s : Q (f s) s → wp (gets f) Q s.
Proof. done. Qed.

Lemma wp_modify (f : S → S) (Q : unit → S → Prop) s :
  Q tt (f s) → wp (modify f) Q s.
Proof. done. Qed.

Lemma wp_checked {A} (o : S → option A) (Q : A → S → Prop) s a :
  o s = Some a → Q a s → wp (checked o) Q s.
Proof. unfold wp, checked. by intros ->. Qed.

Lemma wp_try_modify (f : S → option S) (Q : unit → S → Prop) s s' :
  f s = Some s' → Q tt s' → wp (try_modify f) Q s.
Proof. unfold wp, try_modify. by intros ->. Qed.

Lemma wp_check (b : S → bool) (Q : unit → S → Prop) s :
  b s = true → Q tt s → wp (check b) Q s.
Proof. unfold wp, check. by intros ->. Qed.

Lemma wp_if {A} (b : bool) (m1 m2 : M S A) Q s :
  (b = true → wp m1 Q s) → (b = false → wp m2 Q s) →
  wp (if b then m1 else m2) Q s.
Proof. destruct b; auto. Qed.

Lemma wp_some {A} (m : M S A) Q s :
  wp m Q s ↔ ∃ a s', m s = Some (a, s') ∧ Q a s'.
Proof.
  unfold wp. destruct (m s) as [[a s']|]; split; [eauto|..].
  - by intros (? & ? & [= -> ->] & ?).
  - done.
  - by intros (? & ? & ? & ?).
Qed.

(** A loop keeps an invariant that its body keeps. *)
Lemma wp_for_each {A} (l : list A) (body : A → M S unit) (I : S → Prop) s :
  (∀ a s, a ∈ l → I s → wp (body a) (λ _, I) s) →
  I s → wp (for_each l body) (λ _, I) s.
Proof.
  revert s. induction l as [|a l IH]; intros s Hbody HI; [done|].
  apply wp_bind. eapply wp_mono; [apply Hbody; [left|done]|].
  intros [] s1 HI1. apply IH; [|done].
  intros b s2 Hb. apply Hbody. by right.
Qed.

(** A loop whose invariant speaks of the elements already visited. *)
Lemma wp_for_each_prefix {A} (l : list A) (body : A → M S unit)
    (I : list A → S → Prop) s :
  (∀ pre a post s, l = pre ++ a :: post → I pre s →
     wp (body a) (λ _, I (pre ++ [a])) s) →
  I [] s → wp (for_each l body) (λ _, I l) s.
Proof.
  intros Hbody. cut (∀ pre post s, l = pre ++ post → I pre s →
    wp (for_each post body) (λ _, I l) s).
  { intros H. by apply H. }
  intros pre post. revert pre. induction post as [|a post IH]; intros pre s1 -> HI.
  { by rewrite app_nil_r. }
  apply wp_bind. eapply wp_mono; [by eapply Hbody|].
  intros [] s2 HI2. apply (IH (pre ++ [a])); [|done].
  by rewrite <- app_assoc.
Qed.
End WpRules.

Lemma wp_zoom {S T A} (get : S → T) (put : T → S → S) (m : M T A) (Q : A → S → Prop) s :
  wp m (λ a t, Q a (put t s)) (get s) → wp (zoom get put m) Q s.
Proof. unfold wp, zoom. by destruct (m (get s)) as [[a t]|]. Qed.

(** [preserves R m]: every run of [m] relates its initial and final state by
    the preorder [R]; nothing is said of termination in a result. *)
Definition preserves {S A} (R : S → S → Prop) (m : M S A) : Prop :=
  ∀ s a s', m s = Some (a, s') → R s s'.

Section Preserves.
Context {S : Type} (R : S → S → Prop) `{!PreOrder R}.

Lemma preserves_ret {A} (a : A) : preserves R (ret a).
Proof using All. by intros s b s' [= _ <-]. Qed.

Lemma preserves_gets {A} (f : S → A) : preserves R (gets f).
Proof using All. by intros s b s' [= _ <-]. Qed.

Lemma preserves_checked {A} (f : S → option A) : preserves R (checked f).
Proof using All. intros s b s'. unfold checked. destruct (f s); [|done]. by intros [= _ <-]. Qed.

Lemma preserves_bind {A B} (m : M S A) (k : A → M S B) :
  preserves R m → (∀ a, preserves R (k a)) → preserves R (bind m k).
Proof using All.
  intros Hm Hk s b s'. unfold bind. destruct (m s) as [[a s1]|] eqn:E; [|done].
  intros H. etrans; [by eapply Hm|by eapply Hk].
Qed.

Lemma preserves_if {A} (b : bool) (m1 m2 : M S A) :
  preserves R m1 → preserves R m2 → preserves R (if b then m1 else m2).
Proof using All. by destruct b. Qed.

Lemma preserves_for_each {A} (l : list A) (body : A → M S unit) :
  (∀ a, preserves R (body a)) → preserves R (for_each l body).
Proof using All.
  intros Hb. induction l as [|a l IH]; [apply preserves_ret|by apply preserves_bind].
Qed.

Lemma preserves_modify (f : S → S) : (∀ s, R s (f s)) → preserves R (modify f).
Proof using All. by intros Hf s a s' [= _ <-]. Qed.

Lemma preserves_try_modify (f : S → option S) :
  (∀ s s', f s = Some s' → R s s') → preserves R (try_modify f).
Proof using All.
  intros Hf s a s'. unfold try_modify. destruct (f s) as [s1|] eqn:E; [|done].
  intros [= _ <-]. by apply Hf.
Qed.

(** What a computation preserves, in a weakest precondition. *)
Lemma wp_preserves {A} (m : M S A) (Q : A → S → Prop) s :
  preserves R m → wp m Q s → wp m (λ a s', Q a s' ∧ R s s') s.
Proof using All.
  intros Hm. unfold wp. destruct (m s) as [[a s']|] eqn:E; [|done].
  intros HQ. split; [done|by eapply Hm].
Qed.
End Preserves.

#[export] Hint Resolve wp_ret wp_gets wp_modify : wp.

(** One symbolic-execution step of a goal [wp m Q s]. *)
Ltac wp_step :=
  match goal with
  | |- wp (bind _ _) _ _ => apply wp_bind
  | |- wp (ret _) _ _ => apply wp_ret
  | |- wp (gets _) _ _ => apply wp_gets
  | |- wp (modify _) _ _ => apply wp_modify
  | |- wp (zoom _ _ _) _ _ => apply wp_zoom
  | |- wp (if true then ?m else _) ?Q ?s => change (wp m Q s)
  | |- wp (if false then _ else ?m) ?Q ?s => change (wp m Q s)
  | |- wp (if ?b then _ else _) _ _ => destruct b eqn:?
  | |- wp (match ?o with Some _ => _ | None => _ end) _ _ => destruct o eqn:?
  end.
Ltac wp_steps := repeat wp_step.

(** ** Vectors indexed by a signed integer

    C++ indices are [int], with -1 as a sentinel: [vget] and [vset] are the
    subscript, [None] when it is out of range. *)

Section Vec.
Context {A : Type}.
Local Open Scope Z_scope.
Implicit Types l : list A.

Definition vsize (l : list A) : Z := Z.of_nat (length l).
Definition vget (l : list A) (i : Z) : option A :=
  if decide (0 ≤ i) then l !! Z.to_nat i else None.
Definition vset (l : list A) (i : Z) (x : A) : option (list A) :=
  if decide (0 ≤ i < vsize l) then Some (<[Z.to_nat i := x]> l) else None.

Lemma vget_Some_range l i x : vget l i = Some x → 0 ≤ i < vsize l.
Proof.
  unfold vget, vsize. case_decide; [|done].
  intros ?%lookup_lt_Some. lia.
Qed.

Lemma vget_is_Some l i : 0 ≤ i < vsize l → ∃ x, vget l i = Some x.
Proof.
  unfold vget, vsize. intros ?. case_decide; [|lia].
  apply lookup_lt_is_Some_2. lia.
Qed.

Lemma vget_None l i : vget l i = None ↔ ¬ (0 ≤ i < vsize l).
Proof.
  unfold vget, vsize. case_decide.
  - rewrite lookup_ge_None. lia.
  - split; [lia|done].
Qed.

Lemma vget_elem_of l i x : vget l i = Some x → x ∈ l.
Proof. unfold vget. case_decide; [|done]. apply list_elem_of_lookup_2. Qed.

Lemma elem_of_vget l x : x ∈ l → ∃ i, vget l i = Some x.
Proof.
  intros [i Hi]%list_elem_of_lookup. exists (Z.of_nat i).
  unfold vget. rewrite decide_True by lia. by rewrite Nat2Z.id.
Qed.

Lemma vget_of_nat l (i : nat) : vget l (Z.of_nat i) = l !! i.
Proof. unfold vget. rewrite decide_True by lia. by rewrite Nat2Z.id. Qed.

Lemma vset_is_Some l i x :
  0 ≤ i < vsize l → vset l i x = Some (<[Z.to_nat i := x]> l).
Proof. unfold vset. intros ?. by rewrite decide_True. Qed.

Lemma vsize_nonneg l : 0 ≤ vsize l.
Proof. unfold vsize. lia. Qed.

Lemma vsize_pos l : l ≠ [] → 0 < vsize l.
Proof. unfold vsize. destruct l; [done|]. simpl length. lia. Qed.
Lemma vsize_0 l : vsize l = 0 → l = [].
Proof. intros H. destruct l; [done|]. unfold vsize in H. simpl length in H. lia. Qed.

Lemma vsize_insert l i x : vsize (<[i := x]> l) = vsize l.
Proof. unfold vsize. by rewrite length_insert. Qed.

Lemma vget_insert_eq l i x :
  0 ≤ i < vsize l → vget (<[Z.to_nat i := x]> l) i = Some x.
Proof.
  unfold vget, vsize. intros ?. case_decide; [|lia].
  apply list_lookup_insert_eq. lia.
Qed.

Lemma vget_insert_ne l i j x :
  0 ≤ i → i ≠ j → vget (<[Z.to_nat i := x]> l) j = vget l j.
Proof.
  unfold vget. intros ??. case_decide; [|done].
  apply list_lookup_insert_ne. lia.
Qed.

Lemma vget_insert l i j x :
  0 ≤ i < vsize l →
  vget (<[Z.to_nat i := x]> l) j = if decide (i = j) then Some x else vget l j.
Proof.
  intros ?. case_decide; [subst; by apply vget_insert_eq|].
  apply vget_insert_ne; lia.
Qed.
End Vec.

Create Rewrite HintDb vec.
#[export] Hint Rewrite @vsize_insert : vec.

(** The indices [0 .. n-1] of a counted loop. *)
Definition range (n : Z) : list Z := Z.of_nat <$> seq 0 (Z.to_nat n).

Lemma elem_of_range n i : i ∈ range n ↔ (0 ≤ i < n)%Z.
Proof.
  unfold range. rewrite list_elem_of_fmap. split.
  - intros (k & -> & Hk). apply elem_of_seq in Hk. lia.
  - intros ?. exists (Z.to_nat i). rewrite elem_of_seq. lia.
Qed.

(** ** Machine integers *)

Definition to_u32 (z : Z) : Z := Z.land z 4294967295.
Definition to_i16 (z : Z) : Z :=
  (let w := Z.land z 65535 in if w <? 32768 then w else w - 65536)%Z.

Definition to_u16 (z : Z) : Z := Z.land z 65535.
Definition to_i32 (z : Z) : Z :=
  (let w := to_u32 z in if w <? 2147483648 then w else w - 4294967296)%Z.

Lemma to_u32_small z : (0 ≤ z < 4294967296)%Z → to_u32 z = z.
Proof.
  intros ?. unfold to_u32.
  change 4294967295%Z with (Z.ones 32). rewrite Z.land_ones by lia.
  by apply Z.mod_small.
Qed.

Lemma to_i32_small z : (0 ≤ z < 2147483648)%Z → to_i32 z = z.
Proof.
  intros ?. unfold to_i32. cbv zeta. rewrite to_u32_small by lia.
  destruct (Z.ltb_spec z 2147483648); lia.
Qed.

Lemma to_i16_small z : (-32768 ≤ z < 32768)%Z → to_i16 z = z.
Proof.
  intros ?. unfold to_i16. change 65535%Z with (Z.ones 16).
  rewrite Z.land_ones by lia. change (2 ^ 16)%Z with 65536%Z.
  destruct (decide (0 ≤ z)%Z).
  - rewrite Z.mod_small by lia. destruct (Z.ltb_spec z 32768); lia.
  - replace (z mod 65536)%Z with (z + 65536)%Z.
    + destruct (Z.ltb_spec (z + 65536) 32768); lia.
    + apply Z.mod_unique with (-1)%Z; lia.
Qed.

(** ** Lists *)

(** The position of the first element that satisfies [P], or -1. *)
Fixpoint index_where {A} (P : A → bool) (l : list A) : option nat :=
  match l with
  | [] => None
  | x :: l' => if P x then Some 0 else S <$> index_where P l'
  end.

Lemma index_where_Some {A} (P : A → bool) l i :
  index_where P l = Some i ↔
  (∃ x, l !! i = Some x ∧ P x = true) ∧
  ∀ j x, j < i → l !! j = Some x → P x = false.
Proof.
  revert i. induction l as [|a l IH]; intros i; simpl.
  { split; [done|]. intros [(x & ? & _) _]. done. }
  destruct (P a) eqn:Ha.
  - split.
    + intros [= <-]. split; [by exists a|]. intros j x ?. lia.
    + intros [(x & Hx & HP) Hj]. destruct i; [done|].
      specialize (Hj 0 a ltac:(lia) eq_refl). congruence.
  - rewrite fmap_Some. split.
    + intros (k & Hk & ->). apply IH in Hk as [(x & Hx & HP) Hj].
      split; [by exists x|]. intros [|j] y Hlt Hy; simpl in *; [congruence|].
      apply (Hj j); [lia|done].
    + intros [(x & Hx & HP) Hj]. destruct i as [|i]; simpl in *; [congruence|].
      exists i. split; [|done]. apply IH. split; [by exists x|].
      intros j y Hlt Hy. apply (Hj (S j) y); [lia|done].
Qed.

Lemma index_where_None {A} (P : A → bool) l :
  index_where P l = None ↔ ∀ x, x ∈ l → P x = false.
Proof.
  induction l as [|a l IH]; simpl.
  { split; [|done]. intros _ x Hx. by apply elem_of_nil in Hx. }
  destruct (P a) eqn:Ha.
  - split; [done|]. intros H. specialize (H a ltac:(left)). congruence.
  - rewrite fmap_None, IH. split.
    + intros H x [->|Hx]%elem_of_cons; auto.
    + intros H x Hx. apply H. by right.
Qed.
