(* ===== verification/Fuel.v ===== *)
(** * Computations with fuel

    A loop of the program whose number of iterations is not a function of its
    arguments takes fuel.  [mono] says that more fuel changes nothing, [wpf] that
    some amount is enough: a total-correctness judgement with the rules of [wp]. *)

From S2P Require Import Prelude.

Definition mono {S A} (m : nat → M S A) : Prop :=
  ∀ n n' s x, (n ≤ n')%nat → m n s = Some x → m n' s = Some x.

Definition wpf {S A} (m : nat → M S A) (Q : A → S → Prop) (s : S) : Prop :=
  ∃ n, wp (m n) Q s.

Create HintDb mono.

Section Rules.
Context {S : Type}.

Lemma mono_const {A} (m : M S A) : mono (λ _, m).
Proof. by intros n n' s x _ ?. Qed.

Lemma mono_bind {A B} (m : nat → M S A) (k : nat → A → M S B) :
  mono m → (∀ a, mono (λ n, k n a)) → mono (λ n, bind (m n) (k n)).
Proof.
  intros Hm Hk n n' s x Hn. unfold bind. destruct (m n s) as [[a s1]|] eqn:E; [|done].
  rewrite (Hm n n' s _ Hn E). by apply Hk.
Qed.

Lemma mono_if {A} (b : bool) (m1 m2 : nat → M S A) :
  mono m1 → mono m2 → mono (λ n, if b then m1 n else m2 n).
Proof. by destruct b. Qed.

Lemma wpf_mono {A} (m : nat → M S A) (Q Q' : A → S → Prop) s :
  wpf m Q s → (∀ a s', Q a s' → Q' a s') → wpf m Q' s.
Proof. intros [n Hn] H. exists n. by eapply wp_mono. Qed.

Lemma wpf_const {A} (m : M S A) Q s : wp m Q s → wpf (λ _, m) Q s.
Proof. by exists 0. Qed.

Lemma wpf_bind {A B} (m : nat → M S A) (k : nat → A → M S B) Q s :
  mono m → (∀ a, mono (λ n, k n a)) →
  wpf m (λ a s', wpf (λ n, k n a) Q s') s → wpf (λ n, bind (m n) (k n)) Q s.
Proof.
  intros Hm Hk [n1 H]. apply wp_some in H as (a & s1 & E1 & [n2 H2]).
  apply wp_some in H2 as (b & s2 & E2 & HQ).
  exists (n1 `max` n2)%nat. unfold wp, bind.
  rewrite (Hm n1 _ s _ (Nat.le_max_l n1 n2) E1), (Hk a n2 _ s1 _ (Nat.le_max_r n1 n2) E2). done.
Qed.

(** A first step without fuel. *)
Lemma wpf_step {A B} (m : M S A) (k : nat → A → M S B) Q s :
  (∀ a, mono (λ n, k n a)) →
  wp m (λ a s', wpf (λ n, k n a) Q s') s → wpf (λ n, bind m (k n)) Q s.
Proof. intros Hk H. apply wpf_bind; [apply mono_const|done|by apply wpf_const]. Qed.

Lemma wpf_ext {A} (m m' : nat → M S A) Q s :
  (∀ n, m n s = m' n s) → wpf m' Q s → wpf m Q s.
Proof. intros E [n H]. exists n. unfold wp in *. by rewrite E. Qed.

(** One run with enough fuel is the result. *)
Lemma wpf_result {A} (m : nat → M S A) Q s :
  wpf m Q s ↔ ∃ n a s', m n s = Some (a, s') ∧ Q a s'.
Proof. split; intros [n H]; exists n; [by apply wp_some|by apply wp_some in H]. Qed.
End Rules.

#[export] Hint Resolve mono_const mono_bind mono_if : mono.

(** A goal [mono (λ n, …)] by the structure of the computation. *)
Ltac mono_auto :=
  intros; repeat match goal with
  | |- mono (λ n, bind _ _) => apply mono_bind
  | |- mono (λ n, if _ then _ else _) => apply mono_if
  | |- mono (λ n, match ?o with Some _ => _ | None => _ end) => destruct o
  | |- ∀ _, _ => intros ?
  | |- mono (λ _, ?m) => apply mono_const
  | |- mono _ => solve [eauto with mono]
  end.
