(* ===== verification/Exceptions.v ===== *)
(** * Exceptions, and the order of hash tables

    A function that may throw returns a sum: the text of a [std::runtime_error],
    or its result.  What it has changed before it throws stays changed. *)

From S2P Require Import Prelude.

Section Exceptions.
Context {S : Type}.

Definition throw {A} (what : string) : M S (string + A) := ret (inl what).
Definition ok {A} (a : A) : M S (string + A) := ret (inr a).
(** A call that does not throw. *)
Definition lift {A} (m : M S A) : M S (string + A) := bind m ok.
Definition try_bind {A B} (m : M S (string + A)) (k : A → M S (string + B)) : M S (string + B) :=
  bind m (λ r, match r with inl e => throw e | inr a => k a end).
Fixpoint try_for_each {A} (l : list A) (body : A → M S (string + unit)) : M S (string + unit) :=
  match l with
  | [] => ok tt
  | a :: l' => try_bind (body a) (λ _, try_for_each l' body)
  end.

(** [m] completes and does not throw. *)
Definition no_throw {A} (m : M S (string + A)) (Q : A → S → Prop) (s : S) : Prop :=
  wp m (λ r s', match r with inl _ => False | inr a => Q a s' end) s.

Lemma no_throw_bind {A B} (m : M S (string + A)) (k : A → M S (string + B)) Q s :
  no_throw m (λ a s', no_throw (k a) Q s') s → no_throw (try_bind m k) Q s.
Proof.
  intros H. unfold no_throw, try_bind. apply wp_bind. eapply wp_mono; [exact H|].
  intros [e|a] s'; [done|]. by intros Hk.
Qed.

Context (R : S → S → Prop) `{!PreOrder R}.
Lemma preserves_try_bind {A B} (m : M S (string + A)) (k : A → M S (string + B)) :
  preserves R m → (∀ a, preserves R (k a)) → preserves R (try_bind m k).
Proof using All.
  intros Hm Hk. apply preserves_bind; [done|done|]. intros [e|a]; [by apply preserves_ret|done].
Qed.
Lemma preserves_try_for_each {A} (l : list A) (body : A → M S (string + unit)) :
  (∀ a, preserves R (body a)) → preserves R (try_for_each l body).
Proof using All.
  intros Hb. induction l as [|a l IH]; [by apply preserves_ret|by apply preserves_try_bind].
Qed.
End Exceptions.

Notation "x <-! m ;; k" := (try_bind m (λ x, k))
  (at level 100, m at next level, right associativity) : wm_scope.
Notation "m ;;! k" := (try_bind m (λ _, k))
  (at level 100, right associativity) : wm_scope.

(** One step by the structure of the computation, for a relation whose preorder
    is an instance. *)
Ltac preserves_step :=
  match goal with
  | |- preserves _ (bind _ _) => apply preserves_bind; [apply _| |intros ?]
  | |- preserves _ (try_bind _ _) => apply preserves_try_bind; [apply _| |intros ?]
  | |- preserves _ (ret _) => apply preserves_ret, _
  | |- preserves _ (ok _) => apply preserves_ret, _
  | |- preserves _ (throw _) => apply preserves_ret, _
  | |- preserves _ (lift _) => apply preserves_bind; [apply _| |intros ?]
  | |- preserves _ (gets _) => apply preserves_gets, _
  | |- preserves _ (checked _) => apply preserves_checked, _
  | |- preserves _ (if _ then _ else _) => apply preserves_if; [apply _|..]
  | |- preserves _ (for_each _ _) => apply preserves_for_each; [apply _|intros ?]
  | |- preserves _ (try_for_each _ _) => apply preserves_try_for_each; [apply _|intros ?]
  | |- preserves _ (match ?o with Some _ => _ | None => _ end) => destruct o
  | |- preserves _ (let '(_, _) := ?o in _) => destruct o
  end.

(** ** [std::unordered_map]

    A map with integer keys; the order in which a loop visits it is not
    specified. *)
Class HashOrder := {
  hash_order : ∀ {A}, gmap Z A → list Z;
  hash_order_perm {A} (m : gmap Z A) : hash_order m ≡ₚ (map_to_list m).*1 }.

(** The entries, in that order. *)
Definition hash_entries `{!HashOrder} {A} (m : gmap Z A) : list (Z * A) :=
  omap (λ k, (k,.) <$> m !! k) (hash_order m).

Lemma hash_entries_elem `{!HashOrder} {A} (m : gmap Z A) k a :
  (k, a) ∈ hash_entries m ↔ m !! k = Some a.
Proof.
  unfold hash_entries. rewrite list_elem_of_omap. setoid_rewrite fmap_Some. split.
  - intros (k' & _ & a' & E & [= -> ->]). done.
  - intros E. exists k. split; [|by exists a].
    rewrite (hash_order_perm m), list_elem_of_fmap. exists (k, a). split; [done|].
    by apply elem_of_map_to_list.
Qed.
