(* ===== verification/EventQueue.v ===== *)
(** * Event queue and registries

    [runtime/event_queue.hpp], [runtime/pointer_registry.hpp],
    [runtime/hook_registry.hpp] and [runtime/module_registry.hpp].  The queue is
    drained in FIFO order while the receivers push new events at its end; the
    refinement theorem says that draining is the same as processing the events
    generation by generation, each generation being what the previous one
    posted. *)

From S2P Require Import Prelude Fuel.

(** ** [PointerRegistry] *)

(** A registered object is known by its address; 0 is the null pointer. *)
Section PointerRegistry.
Local Open Scope Z_scope.
Implicit Types items : list Z.

Definition registry_add (item : Z) items : list Z :=
  if item =? 0 then items
  else if existsb (Z.eqb item) items then items
  else items ++ [item].
Definition registry_remove (item : Z) items : list Z := filter (λ i, i ≠ item) items.
Definition registry_clear items : list Z := [].

Lemma existsb_elem item items : existsb (Z.eqb item) items = true ↔ item ∈ items.
Proof.
  rewrite existsb_exists. split.
  - intros (x & Hx & ->%Z.eqb_eq). by apply list_elem_of_In.
  - intros Hin. exists item. split; [by apply list_elem_of_In|by apply Z.eqb_refl].
Qed.

Lemma registry_add_nodup item items : NoDup items → NoDup (registry_add item items).
Proof.
  intros Hn. unfold registry_add. destruct (item =? 0); [done|].
  destruct (existsb _ _) eqn:E; [done|]. apply NoDup_app. split_and!; [done| |by apply NoDup_singleton].
  intros x Hx ->%list_elem_of_singleton. apply existsb_elem in Hx. congruence.
Qed.

Lemma registry_add_elem item items x :
  x ∈ registry_add item items ↔ x ∈ items ∨ (x = item ∧ item ≠ 0).
Proof.
  unfold registry_add. destruct (Z.eqb_spec item 0) as [->|Hne]; [naive_solver|].
  destruct (existsb _ _) eqn:E.
  - apply existsb_elem in E. naive_solver.
  - rewrite elem_of_app, list_elem_of_singleton. naive_solver.
Qed.

Lemma registry_remove_elem item items x :
  x ∈ registry_remove item items ↔ x ∈ items ∧ x ≠ item.
Proof. unfold registry_remove. rewrite list_elem_of_filter. naive_solver. Qed.

Lemma registry_remove_nodup item items : NoDup items → NoDup (registry_remove item items).
Proof. apply NoDup_filter. Qed.
End PointerRegistry.

(** ** [ModuleRegistry] *)

(** The registry of module factories: a [std::unordered_map]. *)
Section ModuleRegistry.
Context {F : Type}.
Definition register_module (name : string) (factory : F) (r : gmap string F) : gmap string F :=
  <[name := factory]> r.
Definition registry_create (name : string) (r : gmap string F) : option F := r !! name.
Definition registry_has (name : string) (r : gmap string F) : bool :=
  bool_decide (is_Some (r !! name)).
Definition module_names (r : gmap string F) : list string := fst <$> map_to_list r.
End ModuleRegistry.

(** ** [EventQueue] *)

Record EventQueue (E : Type) := mkEventQueue { q_ : list E; draining_ : bool }.
Arguments mkEventQueue {E}.
Arguments q_ {E}.
Arguments draining_ {E}.
#[export] Instance eta_EventQueue E : Eta (EventQueue E) := λ q, mkEventQueue (q_ q) (draining_ q).

Definition empty_queue {E} : EventQueue E := mkEventQueue [] false.
Definition queue_empty {E} (q : EventQueue E) : bool := match q_ q with [] => true | _ => false end.
Definition push {E} (ev : E) (q : EventQueue E) : EventQueue E := q <| q_ ::= λ l, l ++ [ev] |>.

Section Drain.
Context {E S : Type} (queue : S → EventQueue E) (set_queue : EventQueue E → S → S).
Implicit Types s : S.

(** [clear]: the assertion that no delivery pass is active, then empty. *)
Definition queue_clear : M S unit :=
  check (λ s, negb (draining_ (queue s))) ;;
  modify (λ s, set_queue ((queue s) <| q_ := [] |>) s).

(** The while loop of [drain]. *)
Fixpoint drain_loop (fuel : nat) (broadcast : E → M S unit) : M S unit :=
  match fuel with
  | O => λ _, None
  | Datatypes.S n =>
      l <- gets (λ s, q_ (queue s)) ;;
      match l with
      | [] => ret tt
      | ev :: rest =>
          modify (λ s, set_queue ((queue s) <| q_ := rest |>) s) ;;
          broadcast ev ;;
          drain_loop n broadcast
      end
  end.

Definition drain (fuel : nat) (broadcast : E → M S unit) : M S unit :=
  check (λ s, negb (draining_ (queue s))) ;;
  modify (λ s, set_queue ((queue s) <| draining_ := true |>) s) ;;
  drain_loop fuel broadcast ;;
  modify (λ s, set_queue ((queue s) <| draining_ := false |>) s).

(** The abstract specification: take what is queued, deliver it event by event,
    then go on with what these deliveries posted. *)
Fixpoint generations (n : nat) (broadcast : E → M S unit) : M S unit :=
  match n with
  | O => λ _, None
  | Datatypes.S n =>
      l <- gets (λ s, q_ (queue s)) ;;
      match l with
      | [] => ret tt
      | _ =>
          modify (λ s, set_queue ((queue s) <| q_ := [] |>) s) ;;
          for_each l broadcast ;;
          generations n broadcast
      end
  end.

(** [s] with [l] in front of its queue. *)
Definition ahead (l : list E) (s : S) : S :=
  set_queue ((queue s) <| q_ ::= λ q, l ++ q |>) s.
End Drain.

(** ** What receivers promise *)

(** Access to the queue in the state: the laws of a lens. *)
Class QueueLens {E S} (queue : S → EventQueue E) (set_queue : EventQueue E → S → S) : Prop := {
  get_set q s : queue (set_queue q s) = q;
  set_set q q' s : set_queue q (set_queue q' s) = set_queue q s;
  set_get s : set_queue (queue s) s = s }.

(** A delivery only pushes: it does not depend on what is queued already, and
    events it posts have a lower rank (no event causes itself again). *)
Class Receiver {E S} (queue : S → EventQueue E) (set_queue : EventQueue E → S → S)
    (I : S → Prop) (rank : E → nat) (broadcast : E → M S unit) : Prop := {
  delivers ev s : I s → ∃ s' l, broadcast ev s = Some (tt, s') ∧ I s' ∧
    q_ (queue s') = q_ (queue s) ++ l ∧ draining_ (queue s') = draining_ (queue s) ∧
    Forall (λ e, (rank e < rank ev)%nat) l;
  only_pushes ev l s s' : I s →
    broadcast ev s = Some (tt, s') →
    broadcast ev (ahead queue set_queue l s) = Some (tt, ahead queue set_queue l s');
  ignores_queue q s : I s → I (set_queue q s) }.

Section Refinement.
Context {E S : Type} (queue : S → EventQueue E) (set_queue : EventQueue E → S → S).
Context `{!QueueLens queue set_queue} (I : S → Prop) (rank : E → nat) (broadcast : E → M S unit).
Context `{!Receiver queue set_queue I rank broadcast}.
Local Abbreviation ahead := (ahead queue set_queue).
Local Abbreviation drain_loop := (drain_loop queue set_queue).
Local Abbreviation generations := (generations queue set_queue).

Lemma ahead_queue l s : q_ (queue (ahead l s)) = l ++ q_ (queue s).
Proof using All. unfold EventQueue.ahead. by rewrite get_set. Qed.

Lemma ahead_pop ev l s :
  set_queue ((queue (ahead (ev :: l) s)) <| q_ := l ++ q_ (queue s) |>) (ahead (ev :: l) s) = ahead l s.
Proof using All. unfold EventQueue.ahead. rewrite get_set, set_set. by destruct (queue s). Qed.

Lemma ahead_nil s : ahead [] s = s.
Proof using All.
  unfold EventQueue.ahead. trans (set_queue (queue s) s); [|by apply set_get].
  f_equal. by destruct (queue s).
Qed.

Lemma ahead_empty s :
  ahead (q_ (queue s)) (set_queue ((queue s) <| q_ := [] |>) s) = s.
Proof using All.
  unfold EventQueue.ahead. rewrite get_set, set_set. trans (set_queue (queue s) s); [|by apply set_get].
  f_equal. destruct (queue s). cbn. by rewrite app_nil_r.
Qed.

Lemma drain_step k ev l s :
  drain_loop (Datatypes.S k) broadcast (ahead (ev :: l) s) =
  (broadcast ev ;; drain_loop k broadcast) (ahead l s).
Proof using All.
  cbn [EventQueue.drain_loop]. unfold bind at 1, gets. rewrite ahead_queue. cbn [app].
  unfold bind at 1, modify. by rewrite ahead_pop.
Qed.

(** A generation, event by event at the front of the queue. *)
Lemma delivered_in ev s s' : I s → broadcast ev s = Some (tt, s') → I s'.
Proof using All. intros Hs He. destruct (delivers ev s Hs) as (s1 & l & E1 & H1 & _). congruence. Qed.
Lemma drain_generation l k s s' : I s →
  for_each l broadcast s = Some (tt, s') →
  drain_loop (length l + k) broadcast (ahead l s) = drain_loop k broadcast s'.
Proof using All.
  revert s. induction l as [|ev l IH]; intros s Hs H; cbn in H.
  - injection H as <-. by rewrite ahead_nil.
  - unfold bind in H. destruct (broadcast ev s) as [[[] s1]|] eqn:E1; [|done].
    cbn [length Nat.add]. rewrite drain_step. unfold bind.
    rewrite (only_pushes ev l s s1 Hs E1). apply IH; [by eapply delivered_in|done].
Qed.

Lemma generation_in l s s' : I s → for_each l broadcast s = Some (tt, s') → I s'.
Proof using All.
  revert s. induction l as [|ev l IH]; intros s Hs; cbn; [by intros [= <-]|]. unfold bind.
  destruct (broadcast ev s) as [[[] s1]|] eqn:He; [|done]. apply IH. by eapply delivered_in.
Qed.
Lemma drain_by_generations n s s' : I s →
  generations n broadcast s = Some (tt, s') →
  ∃ k, drain_loop k broadcast s = Some (tt, s').
Proof using All.
  revert s. induction n as [|n IH]; intros s Hs H; [done|]. cbn in H. unfold bind at 1, gets in H.
  destruct (q_ (queue s)) as [|ev l] eqn:Eq.
  { exists 1%nat. cbn. unfold bind, gets. by rewrite Eq. }
  unfold bind, modify in H. destruct (for_each _ _ _) as [[[] s1]|] eqn:E1; [|done].
  assert (I (set_queue ((queue s) <| q_ := [] |>) s)) as Hs0 by by apply ignores_queue.
  destruct (IH s1 ltac:(by eapply generation_in) H) as [k Hk]. exists (length (ev :: l) + k)%nat.
  rewrite <- (ahead_empty s), Eq. by rewrite (drain_generation _ _ _ s1).
Qed.

Lemma generation_posts l s :
  I s → ∃ s' posted, for_each l broadcast s = Some (tt, s') ∧ I s' ∧
    q_ (queue s') = q_ (queue s) ++ posted ∧ draining_ (queue s') = draining_ (queue s) ∧
    ∀ r, Forall (λ e, (rank e <= r)%nat) l → Forall (λ e, (rank e < r)%nat) posted.
Proof using All.
  revert s. induction l as [|ev l IH]; intros s Hs.
  { exists s, []. rewrite app_nil_r. split_and!; [done..|]. by intros. }
  destruct (delivers ev s Hs) as (s1 & p1 & E1 & H1 & Q1 & D1 & R1).
  destruct (IH s1 H1) as (s2 & p2 & E2 & H2 & Q2 & D2 & R2).
  exists s2, (p1 ++ p2). split_and!; [|done| |congruence|].
  - cbn. unfold bind. by rewrite E1.
  - by rewrite Q2, Q1, app_assoc.
  - intros r [Hev Hl]%Forall_cons. apply Forall_app. split; [|by apply R2].
    eapply Forall_impl; [exact R1|]. cbn. lia.
Qed.

Lemma generations_end r s :
  I s → Forall (λ e, (rank e < r)%nat) (q_ (queue s)) →
  ∃ s', generations (Datatypes.S r) broadcast s = Some (tt, s') ∧ I s' ∧
    q_ (queue s') = [] ∧ draining_ (queue s') = draining_ (queue s).
Proof using All.
  revert s. induction r as [|r IH]; intros s Hs Hr; remember (q_ (queue s)) as l eqn:El;
    destruct l as [|ev l].
  - exists s. cbn. unfold bind, gets. by rewrite <- El.
  - apply Forall_cons in Hr as [? _]. lia.
  - exists s. cbn. unfold bind, gets. by rewrite <- El.
  - set (s0 := set_queue ((queue s) <| q_ := [] |>) s).
    destruct (generation_posts (ev :: l) s0 ltac:(by apply ignores_queue)) as (s1 & p & E1 & H1 & Q1 & D1 & R1).
    destruct (IH s1 H1) as (s2 & E2 & H2 & Q2 & D2).
    { rewrite Q1. unfold s0. rewrite get_set. cbn. apply R1. eapply Forall_impl; [exact Hr|]. cbn. lia. }
    exists s2. split_and!; [|done|done|].
    + cbn [EventQueue.generations]. unfold bind at 1, gets. rewrite <- El. unfold bind, modify. fold s0.
      by rewrite E1.
    + rewrite D2, D1. unfold s0. by rewrite get_set.
Qed.
End Refinement.

(** ** Termination *)

Section Termination.
Context {E S : Type} (queue : S → EventQueue E) (set_queue : EventQueue E → S → S).
Context `{!QueueLens queue set_queue} (I : S → Prop) (rank : E → nat) (broadcast : E → M S unit).
Local Abbreviation drain_loop := (drain_loop queue set_queue).
Local Abbreviation with_queue l s := (set_queue ((queue s) <| q_ := l |>) s).

Lemma mono_drain_loop : mono (λ n, drain_loop n broadcast).
Proof using Type.
  intros n. induction n as [|n IH]; intros n' s x Hn H; [done|].
  destruct n' as [|n']; [lia|]. cbn [EventQueue.drain_loop] in *. unfold bind, gets, modify in *.
  destruct (q_ (queue s)) as [|ev rest]; [done|].
  destruct (broadcast _ _) as [[[] s1]|]; [|done]. apply (IH n' s1 x); [lia|done].
Qed.

Lemma mono_drain : mono (λ n, drain queue set_queue n broadcast).
Proof using Type. unfold drain. pose proof mono_drain_loop. mono_auto. Qed.

(** What the termination needs: a delivery completes, and what it posts ranks
    below the event; [I] does not depend on what is queued. *)
Context (HI : ∀ s l, I s → I (with_queue l s)).
Context (Hdel : ∀ ev s, I s → wp (broadcast ev) (λ _ s', I s' ∧
  ∃ l, q_ (queue s') = q_ (queue s) ++ l ∧ Forall (λ e, (rank e < rank ev)%nat) l) s).

Lemma drain_loop_ends r : ∀ s, I s → Forall (λ e, (rank e < r)%nat) (q_ (queue s)) →
  wpf (λ n, drain_loop n broadcast) (λ _ s', I s' ∧ q_ (queue s') = []) s.
Proof using All.
  induction r as [|r IHr]; intros s Hs Hr.
  { exists 1%nat. cbn [EventQueue.drain_loop]. wp_step. wp_step. destruct (q_ (queue s)) eqn:Eq.
    - by apply wp_ret.
    - apply Forall_cons in Hr as [? _]. lia. }
  (** the generation of rank [r] is in front of what it has posted *)
  cut (∀ l p s, I s → q_ (queue s) = l ++ p → Forall (λ e, (rank e < Datatypes.S r)%nat) l →
    Forall (λ e, (rank e < r)%nat) p →
    wpf (λ n, drain_loop n broadcast) (λ _ s', I s' ∧ q_ (queue s') = []) s).
  { intros H. eapply (H _ []); [done|by rewrite app_nil_r|done|constructor]. }
  clear s Hs Hr. induction l as [|ev l IHl]; intros p s Hs Hq Hl Hp.
  { apply IHr; [done|]. by rewrite Hq. }
  apply Forall_cons in Hl as [Hev Hl].
  assert (H : wp (broadcast ev) (λ _ s', wpf (λ n, drain_loop n broadcast)
      (λ _ s', I s' ∧ q_ (queue s') = []) s') (with_queue (l ++ p) s)).
  { eapply wp_mono; [by apply Hdel, HI|]. cbv beta. intros [] s1 (H1 & l1 & Hq1 & Hr1).
    rewrite get_set in Hq1. cbn in Hq1. apply (IHl (p ++ l1)); [done| |done|].
    - by rewrite Hq1, app_assoc.
    - apply Forall_app. split; [done|]. eapply Forall_impl; [exact Hr1|]. cbn. lia. }
  apply wp_some in H as ([] & s1 & E1 & [n Hn]). exists (Datatypes.S n).
  cbn [EventQueue.drain_loop]. wp_step. wp_step. rewrite Hq. cbn [app]. wp_step. wp_step. wp_step.
  unfold wp at 1. by rewrite E1.
Qed.

Lemma events_ranked (l : list E) : ∃ r, Forall (λ e, (rank e < r)%nat) l.
Proof using Type.
  induction l as [|e l [r IH]]; [by exists 0%nat|]. exists (Datatypes.S (rank e) `max` r)%nat.
  constructor; [lia|]. eapply Forall_impl; [exact IH|]. cbn. lia.
Qed.
End Termination.
