(* ===== verification/TextStream.v ===== *)
(** * Text streams of the standard library

    What the program uses of [std::ostream] and [std::istream]: writing and
    reading decimal integers and words, and [std::getline].  A text is a list of
    characters.  The round trip lemmas say that a number or a word that is
    written with a separator after it is read back. *)

From S2P Require Import Prelude.
Local Open Scope Z_scope.

Abbreviation text := (list Ascii.ascii).
Definition txt (s : string) : text := String.list_ascii_of_string s.

Definition code (c : Ascii.ascii) : Z := Z.of_N (Ascii.N_of_ascii c).
(** [std::isspace] in the C locale. *)
Definition is_space (c : Ascii.ascii) : bool := (code c =? 32) || ((9 <=? code c) && (code c <=? 13)).
Definition is_digit (c : Ascii.ascii) : bool := (48 <=? code c) && (code c <=? 57).
Definition newline : Ascii.ascii := Ascii.ascii_of_N 10.
Definition digit (d : Z) : Ascii.ascii := Ascii.ascii_of_N (Z.to_N (48 + d)).

(** ** Writing *)

(** [out << n]: the decimal digits, by repeated division.  [log2] bounds the
    number of divisions. *)
Fixpoint digits (fuel : nat) (n : Z) : text :=
  match fuel with
  | O => []
  | S f => (if n <? 10 then [] else digits f (n / 10)) ++ [digit (n mod 10)]
  end.
Definition show_nat (n : Z) : text := digits (S (Z.to_nat (Z.log2 n))) n.
Definition show_int (n : Z) : text := if n <? 0 then txt "-" ++ show_nat (- n) else show_nat n.
Definition show_bool (b : bool) : text := txt (if b then "1" else "0").

(** ** Reading *)

Fixpoint skip_space (s : text) : text :=
  match s with
  | c :: s' => if is_space c then skip_space s' else s
  | [] => []
  end.

Fixpoint span (p : Ascii.ascii → bool) (s : text) : text * text :=
  match s with
  | c :: s' => if p c then let '(a, b) := span p s' in (c :: a, b) else ([], s)
  | [] => ([], [])
  end.

(** [in >> word]: [None] when the stream fails. *)
Definition read_word (s : text) : option (text * text) :=
  match span (λ c, negb (is_space c)) (skip_space s) with
  | ([], _) => None
  | r => Some r
  end.

Definition value_of (ds : text) : Z := foldl (λ v c, 10 * v + (code c - 48)) 0 ds.

(** The sign of a number, then its digits. *)
Definition read_sign (s : text) : bool * text :=
  match s with
  | c :: s' => if code c =? 45 then (true, s') else if code c =? 43 then (false, s') else (false, s)
  | [] => (false, [])
  end.

(** [in >> n] for an [int] ([lo], [hi] its range): the value stored, whether the
    stream is still good, and what is left.  Without digits the value is 0; out
    of range it is the nearest bound. *)
Definition read_int (lo hi : Z) (s : text) : Z * bool * text :=
  let '(neg, s1) := read_sign (skip_space s) in
  match span is_digit s1 with
  | ([], s2) => (0, false, s2)
  | (ds, s2) =>
      let v := if neg then - value_of ds else value_of ds in
      if v <? lo then (lo, false, s2) else if hi <? v then (hi, false, s2) else (v, true, s2)
  end.
Definition read_i32 : text → Z * bool * text := read_int (-2147483648) 2147483647.

(** [in >> n] for a [uint32_t]: a minus sign negates modulo [2^32]. *)
Definition read_u32 (s : text) : Z * bool * text :=
  let '(neg, s1) := read_sign (skip_space s) in
  match span is_digit s1 with
  | ([], s2) => (0, false, s2)
  | (ds, s2) =>
      let v := value_of ds in
      if 4294967295 <? v then (4294967295, false, s2)
      else ((if neg then to_u32 (- v) else v), true, s2)
  end.

(** [std::getline(in, line, sep)]: fails only when nothing is left. *)
Fixpoint break_at (sep : Ascii.ascii) (s : text) : text * text :=
  match s with
  | [] => ([], [])
  | c :: s' => if Ascii.eqb c sep then ([], s') else let '(a, b) := break_at sep s' in (c :: a, b)
  end.
Definition getline (sep : Ascii.ascii) (s : text) : option (text * text) :=
  match s with [] => None | _ => Some (break_at sep s) end.

(** The bytes of a string, and the string with these bytes. *)
Definition string_bytes (s : string) : list Z := code <$> txt s.
Definition string_of_bytes (b : list Z) : string :=
  String.string_of_list_ascii ((λ v, Ascii.ascii_of_N (Z.to_N v)) <$> b).

(** ** Hexadecimal *)

Definition hex_value (c : Ascii.ascii) : option Z :=
  let v := code c in
  if (48 <=? v) && (v <=? 57) then Some (v - 48)
  else if (65 <=? v) && (v <=? 70) then Some (v - 55)
  else if (97 <=? v) && (v <=? 102) then Some (v - 87)
  else None.

(** The digits at the front, with the value and what follows. *)
Fixpoint hex_digits (acc : Z) (s : text) : Z * text :=
  match s with
  | c :: s' => match hex_value c with Some d => hex_digits (16 * acc + d) s' | None => (acc, s) end
  | [] => (acc, s)
  end.

(** [strtoul(s, &end, 16)]: the value and the rest, [None] when there is no
    number (then [end] is the start of the string). *)
Definition strtoul16 (s : text) : option (Z * text) :=
  let '(neg, s) := read_sign (skip_space s) in
  let s := match s with
           | z :: c :: d :: s' =>
               if (code z =? 48) && ((code c =? 120) || (code c =? 88)) && bool_decide (is_Some (hex_value d))
               then d :: s' else s
           | _ => s
           end in
  match s with
  | c :: _ =>
      if bool_decide (is_Some (hex_value c)) then
        let '(v, rest) := hex_digits 0 s in
        Some ((if neg then (- v) mod 2 ^ 64 else v), rest)
      else None
  | [] => None
  end.

(** ** What is written is read *)

Lemma code_digit d : 0 ≤ d < 10 → code (digit d) = 48 + d.
Proof.
  intros Hd. unfold code, digit. rewrite Ascii.N_ascii_embedding; [lia|].
  apply N2Z.inj_lt. rewrite Z2N.id by lia. cbn. lia.
Qed.

Lemma digit_is_digit d : 0 ≤ d < 10 → is_digit (digit d) = true.
Proof. intros Hd. unfold is_digit. rewrite code_digit by done. lia. Qed.

Lemma digits_all fuel n : 0 ≤ n → Forall (λ c, is_digit c = true) (digits fuel n).
Proof.
  revert n. induction fuel as [|f IH]; intros n Hn; cbn; [constructor|].
  apply Forall_app. split.
  - destruct (n <? 10); [constructor|]. apply IH, Z.div_pos; lia.
  - constructor; [|constructor]. apply digit_is_digit. pose proof (Z.mod_pos_bound n 10). lia.
Qed.

Lemma digits_value fuel n : 0 ≤ n → (Z.to_nat (Z.log2 n) < fuel)%nat → value_of (digits fuel n) = n.
Proof.
  revert n. induction fuel as [|f IH]; intros n Hn Hf; [lia|]. cbn.
  unfold value_of. rewrite foldl_app. cbn. fold (value_of (if n <? 10 then [] else digits f (n / 10))).
  rewrite code_digit by (pose proof (Z.mod_pos_bound n 10); lia).
  pose proof (Z.div_mod n 10 ltac:(lia)). destruct (Z.ltb_spec n 10).
  - cbn. rewrite Z.mod_small by lia. lia.
  - rewrite IH; [lia|apply Z.div_pos; lia|].
    assert (H10 : 0 < n / 10) by (apply Z.div_str_pos; lia).
    pose proof (Z.mod_pos_bound n 10 ltac:(lia)). pose proof (Z.log2_nonneg (n / 10)).
    pose proof (Z.log2_double (n / 10) H10).
    pose proof (Z.log2_le_mono (2 * (n / 10)) n ltac:(lia)). lia.
Qed.

Lemma digits_nonempty fuel n : (0 < fuel)%nat → digits fuel n ≠ [].
Proof. destruct fuel; [lia|]. intros _ H. by apply app_eq_nil in H as [_ ?]. Qed.

Lemma span_app p a b :
  Forall (λ c, p c = true) a → (match b with c :: _ => p c = false | [] => True end) →
  span p (a ++ b) = (a, b).
Proof.
  intros Ha Hb. induction Ha as [|c a Hc _ IH]; cbn.
  - destruct b as [|c b]; [done|]. cbn. by rewrite Hb.
  - by rewrite Hc, IH.
Qed.

(** What follows a number or a word: the end, or white space. *)
Definition ends (s : text) : Prop := match s with c :: _ => is_space c = true | [] => True end.

Lemma space_not_digit c : is_space c = true → is_digit c = false.
Proof. unfold is_space, is_digit. lia. Qed.
Lemma digit_not_space c : is_digit c = true → is_space c = false.
Proof. unfold is_space, is_digit. lia. Qed.

Lemma ends_digits s : ends s → match s with c :: _ => is_digit c = false | [] => True end.
Proof. destruct s; [done|]. apply space_not_digit. Qed.

Lemma show_nat_spec n :
  0 ≤ n → Forall (λ c, is_digit c = true) (show_nat n) ∧ value_of (show_nat n) = n ∧
  ∃ c l, show_nat n = c :: l ∧ is_digit c = true.
Proof.
  intros Hn. unfold show_nat. pose proof (digits_all (S (Z.to_nat (Z.log2 n))) n Hn) as Hd.
  split_and!; [done|apply digits_value; lia|].
  destruct (digits _ _) as [|c l] eqn:E; [by apply digits_nonempty in E; [|lia]|].
  exists c, l. split; [done|]. by apply Forall_cons in Hd as [? _].
Qed.

Lemma skip_space_cons c s : is_space c = false → skip_space (c :: s) = c :: s.
Proof. intros H. cbn. by rewrite H. Qed.
Lemma skip_space_sp s : skip_space (txt " " ++ s) = skip_space s.
Proof. done. Qed.

Lemma read_sign_digit c s : is_digit c = true → read_sign (c :: s) = (false, c :: s).
Proof.
  unfold is_digit. intros H. cbn. destruct (Z.eqb_spec (code c) 45); [lia|].
  by destruct (Z.eqb_spec (code c) 43); [lia|].
Qed.

(** The digits of [n], read after the sign. *)
Lemma span_show n s :
  0 ≤ n → ends s → ∃ c l, show_nat n = c :: l ∧
    skip_space (show_nat n ++ s) = show_nat n ++ s ∧ read_sign (show_nat n ++ s) = (false, show_nat n ++ s) ∧
    span is_digit (show_nat n ++ s) = (show_nat n, s).
Proof.
  intros Hn Hs. destruct (show_nat_spec n Hn) as (Hd & _ & c & l & E & Hc). exists c, l.
  split_and!; [done|..].
  - rewrite E. by apply skip_space_cons, digit_not_space.
  - rewrite E. by apply read_sign_digit.
  - apply span_app; [done|by apply ends_digits].
Qed.

Lemma read_show_int lo hi n s :
  lo ≤ n ≤ hi → lo ≤ 0 → ends s → read_int lo hi (show_int n ++ s) = (n, true, s).
Proof.
  intros Hn Hlo Hs. unfold show_int, read_int. destruct (Z.ltb_spec n 0).
  - destruct (span_show (- n) s ltac:(lia) Hs) as (c & l & E & _ & _ & E2).
    destruct (show_nat_spec (- n) ltac:(lia)) as (_ & Ev & _).
    rewrite <- app_assoc. change (skip_space (txt "-" ++ show_nat (- n) ++ s)) with (txt "-" ++ show_nat (- n) ++ s).
    change (read_sign (txt "-" ++ show_nat (- n) ++ s)) with (true, show_nat (- n) ++ s).
    cbv iota beta. rewrite E2. rewrite E in Ev |- *. rewrite Ev, Z.opp_involutive.
    by rewrite (proj2 (Z.ltb_ge _ _)), (proj2 (Z.ltb_ge _ _)) by lia.
  - destruct (span_show n s ltac:(lia) Hs) as (c & l & E & E0 & E1 & E2).
    destruct (show_nat_spec n ltac:(lia)) as (_ & Ev & _). rewrite E0, E1, E2. rewrite E in Ev |- *. rewrite Ev.
    by rewrite (proj2 (Z.ltb_ge _ _)), (proj2 (Z.ltb_ge _ _)) by lia.
Qed.

Lemma read_show_u32 n s :
  0 ≤ n < 4294967296 → ends s → read_u32 (show_int n ++ s) = (n, true, s).
Proof.
  intros Hn Hs. unfold show_int, read_u32. rewrite (proj2 (Z.ltb_ge n 0)) by lia.
  destruct (span_show n s ltac:(lia) Hs) as (c & l & E & E0 & E1 & E2).
  destruct (show_nat_spec n ltac:(lia)) as (_ & Ev & _). rewrite E0, E1, E2. rewrite E in Ev |- *. rewrite Ev.
  by rewrite (proj2 (Z.ltb_ge _ _)) by lia.
Qed.

Lemma read_space_i32 s : read_i32 (txt " " ++ s) = read_i32 s.
Proof. done. Qed.
Lemma read_space_u32 s : read_u32 (txt " " ++ s) = read_u32 s.
Proof. done. Qed.

Lemma read_show_word w s :
  w ≠ [] → Forall (λ c, is_space c = false) w → ends s → read_word (w ++ s) = Some (w, s).
Proof.
  intros Hne Hw Hs. unfold read_word. destruct w as [|c w]; [done|].
  apply Forall_cons in Hw as [Hc Hw]. cbn [app]. rewrite skip_space_cons by done.
  change (c :: w ++ s) with ((c :: w) ++ s). rewrite span_app; [done| |].
  - constructor; [by rewrite Hc|]. eapply Forall_impl; [exact Hw|]. cbn. by intros x ->.
  - destruct s; [done|]. cbn in *. by rewrite Hs.
Qed.

Lemma break_at_app sep a b :
  Forall (λ c, c ≠ sep) a → break_at sep (a ++ sep :: b) = (a, b).
Proof.
  induction 1 as [|c a Hc _ IH]; cbn; [by rewrite Ascii.eqb_refl|].
  by rewrite (proj2 (Ascii.eqb_neq _ _) Hc), IH.
Qed.

Lemma getline_app sep a b :
  Forall (λ c, c ≠ sep) a → getline sep (a ++ sep :: b) = Some (a, b).
Proof. intros Ha. pose proof (break_at_app sep a b Ha) as E. unfold getline. by destruct a; cbn in *; rewrite E. Qed.

Lemma show_int_chars n : Forall (λ c, is_digit c = true ∨ code c = 45) (show_int n).
Proof.
  unfold show_int. destruct (Z.ltb_spec n 0).
  - constructor; [by right|]. eapply Forall_impl; [apply show_nat_spec; lia|]. by left.
  - eapply Forall_impl; [apply show_nat_spec; lia|]. by left.
Qed.

Lemma show_int_no c n : is_digit c = false → code c ≠ 45 → Forall (λ d, d ≠ c) (show_int n).
Proof.
  intros H1 H2. eapply Forall_impl; [apply show_int_chars|]. cbn. intros d [Hd|Hd] ->; congruence.
Qed.

Lemma txt_append a b : txt (a +:+ b) = txt a ++ txt b.
Proof. unfold txt. induction a as [|c a IH]; [done|]. cbn. by rewrite <- IH. Qed.
Lemma string_txt s : String.string_of_list_ascii (txt s) = s.
Proof. apply String.string_of_list_ascii_of_string. Qed.
Lemma txt_of_text s : txt (String.string_of_list_ascii s) = s.
Proof. apply String.list_ascii_of_string_of_list_ascii. Qed.

(** ** Lines

    The loop [while (std::getline(in, line, sep))], as a function: the lines that
    end with the separator, and what follows the last of them. *)

Section Lines.
Context (sep : Ascii.ascii).

Fixpoint complete_lines (s : text) : list text * text :=
  match s with
  | [] => ([], [])
  | c :: s' =>
      let '(ls, rest) := complete_lines s' in
      if Ascii.eqb c sep then ([] :: ls, rest)
      else match ls with [] => ([], c :: rest) | l :: ls => ((c :: l) :: ls, rest) end
  end.
Definition lines (s : text) : list text :=
  let '(ls, rest) := complete_lines s in match rest with [] => ls | _ => ls ++ [rest] end.

Lemma complete_break s : complete_lines s =
  if bool_decide (sep ∈ s) then
    let '(l, s') := break_at sep s in let '(ls, rest) := complete_lines s' in (l :: ls, rest)
  else ([], s).
Proof using Type.
  induction s as [|c s IH]; [done|]. cbn [complete_lines break_at].
  destruct (Ascii.eqb_spec c sep) as [->|Hc].
  - rewrite bool_decide_eq_true_2 by (by left). by destruct (complete_lines s).
  - rewrite IH. case_bool_decide as Hs.
    + rewrite bool_decide_eq_true_2 by (by right). destruct (break_at sep s) as [l s']. by destruct (complete_lines s').
    + rewrite bool_decide_eq_false_2; [done|]. intros [H|H]%elem_of_cons; [by subst|done].
Qed.
Lemma break_none s : sep ∉ s → break_at sep s = (s, []).
Proof using Type.
  induction s as [|c s IH]; [done|]. intros [Hc Hs]%not_elem_of_cons. cbn.
  rewrite (proj2 (Ascii.eqb_neq _ _)) by congruence. by rewrite IH.
Qed.
(** One turn of the loop. *)
Lemma lines_unfold s :
  lines s = match getline sep s with None => [] | Some (l, s') => l :: lines s' end.
Proof using Type.
  unfold lines, getline. destruct s as [|c s]; [done|]. rewrite complete_break. case_bool_decide as Hs.
  - destruct (break_at sep (c :: s)) as [l s']. destruct (complete_lines s') as [ls []]; done.
  - by rewrite break_none.
Qed.
(** The text may come in pieces. *)
Lemma complete_app a b : complete_lines (a ++ b) =
  let '(la, ra) := complete_lines a in let '(lb, rb) := complete_lines (ra ++ b) in (la ++ lb, rb).
Proof using Type.
  induction a as [|c a IH]; cbn [complete_lines app]; [by destruct (complete_lines b)|].
  rewrite IH. destruct (complete_lines a) as [[|l la] ra]; cbn [app].
  - destruct (Ascii.eqb c sep) eqn:Ec; cbn [app complete_lines]; rewrite ?Ec; by destruct (complete_lines (ra ++ b)) as [[] ?].
  - destruct (complete_lines (ra ++ b)) as [lb rb] eqn:E.
    destruct (Ascii.eqb c sep) eqn:Ec; cbn; by rewrite E.
Qed.
Lemma complete_line l s : sep ∉ l →
  complete_lines (l ++ sep :: s) = let '(ls, rest) := complete_lines s in (l :: ls, rest).
Proof using Type.
  intros Hl. rewrite complete_break, bool_decide_eq_true_2 by (rewrite elem_of_app, elem_of_cons; auto).
  assert (E : break_at sep (l ++ sep :: s) = (l, s)); [|by rewrite E].
  apply break_at_app, Forall_forall. by intros c Hc ->.
Qed.
Lemma lines_line l s : sep ∉ l → lines (l ++ sep :: s) = l :: lines s.
Proof using Type.
  intros Hl. unfold lines. rewrite complete_line by done. by destruct (complete_lines s) as [ls []].
Qed.
Lemma lines_concat ls : Forall (λ l, sep ∉ l) ls → lines (concat ((λ l, l ++ [sep]) <$> ls)) = ls.
Proof using Type.
  induction 1 as [|l ls Hl _ IH]; [done|]. cbn [fmap list_fmap concat]. rewrite <- app_assoc. cbn [app].
  rewrite lines_line by done. f_equal. apply IH.
Qed.
Lemma complete_no_sep s ls rest : complete_lines s = (ls, rest) → Forall (λ l, sep ∉ l) ls ∧ sep ∉ rest.
Proof using Type.
  revert ls rest. induction s as [|c s IH]; intros ls rest; [intros [= <- <-]; split; [done|by apply not_elem_of_nil]|].
  cbn. destruct (complete_lines s) as [ls' rest'] eqn:E. destruct (IH _ _ eq_refl) as [H1 H2].
  destruct (Ascii.eqb_spec c sep) as [->|Hc].
  - intros [= <- <-]. split; [|done]. constructor; [by apply not_elem_of_nil|done].
  - destruct ls' as [|l ls']; intros [= <- <-].
    + split; [done|]. apply not_elem_of_cons. by split.
    + apply Forall_cons in H1 as [Hl H1]. split; [|done]. constructor; [|done]. apply not_elem_of_cons. by split.
Qed.
Lemma lines_last l : sep ∉ l → l ≠ [] → lines l = [l].
Proof using Type. intros Hl Hn. unfold lines. rewrite complete_break, bool_decide_eq_false_2 by done. by destruct l. Qed.
End Lines.
