(* ===== verification/Geometry.v ===== *)
(** * Vectors, monitors and windows: the plain data of the domain

    [support/vec.hpp], [domain/monitor.hpp], [domain/window_state.hpp].
    Coordinates are C++ [int]s.  Signed overflow is undefined in C++, so they
    are modelled by [Z]; conversions to a narrower type are written out. *)

From S2P Require Import Prelude.
Local Open Scope Z_scope.

(** ** Identifiers ([backend/events.hpp]) *)

Definition NO_WINDOW : Z := 0.
Definition NO_WORKSPACE : Z := -1.
Definition NO_MONITOR : Z := -1.

(** ** [Vec2i] *)

Record Vec2 := mkVec2 { x : Z; y : Z }.
#[export] Instance eta_Vec2 : Eta Vec2 := λ v, mkVec2 (x v) (y v).
#[export] Instance Vec2_eq_dec : EqDecision Vec2.
Proof. solve_decision. Defined.

Definition vec_add (a b : Vec2) : Vec2 := mkVec2 (x a + x b) (y a + y b).
(** Integer division truncates towards zero. *)
Definition vec_div (a : Vec2) (s : Z) : Vec2 := mkVec2 (x a ÷ s) (y a ÷ s).
(** The converting constructor [Vec2i16(Vec2i)]. *)
Definition vec_to_i16 (a : Vec2) : Vec2 := mkVec2 (to_i16 (x a)) (to_i16 (y a)).

(** ** [Monitor] *)

Inductive MonitorEdge := Top | Bottom | Left | Right.

Record Monitor := mkMonitor {
  mon_id : Z;
  mon_name : string;
  mon_pos : Vec2;
  mon_size : Vec2;
  mon_active_ws : Z;
  top_inset : Z;
  bottom_inset : Z;
  left_inset : Z;
  right_inset : Z }.
#[export] Instance eta_Monitor : Eta Monitor := λ m,
  mkMonitor (mon_id m) (mon_name m) (mon_pos m) (mon_size m) (mon_active_ws m)
    (top_inset m) (bottom_inset m) (left_inset m) (right_inset m).

(** The constructor: no insets, no active workspace. *)
Definition new_monitor (id : Z) (name : string) (px py w h : Z) : Monitor :=
  mkMonitor id name (mkVec2 px py) (mkVec2 w h) NO_WORKSPACE 0 0 0 0.

Definition inset (m : Monitor) (e : MonitorEdge) : Z :=
  match e with
  | Top => top_inset m
  | Bottom => bottom_inset m
  | Left => left_inset m
  | Right => right_inset m
  end.

Definition mon_center (m : Monitor) : Vec2 :=
  vec_add (mon_pos m) (vec_div (mon_size m) 2).

Definition rect_contains (pos size p : Vec2) : bool :=
  (x pos <=? x p) && (x p <? x pos + x size) &&
  (y pos <=? y p) && (y p <? y pos + y size).

Definition mon_contains (m : Monitor) (p : Vec2) : bool :=
  rect_contains (mon_pos m) (mon_size m) p.

(** The full surface of the monitor, before the edge reservations. *)
Definition physical (m : Monitor) : Vec2 * Vec2 :=
  let top := Z.max 0 (top_inset m) in
  let bot := Z.max 0 (bottom_inset m) in
  let left := Z.max 0 (left_inset m) in
  let right := Z.max 0 (right_inset m) in
  (mkVec2 (x (mon_pos m) - left) (y (mon_pos m) - top),
   mkVec2 (Z.max 1 (x (mon_size m) + left + right))
          (Z.max 1 (y (mon_size m) + top + bot))).

Definition physical_contains (m : Monitor) (p : Vec2) : bool :=
  let '(pp, ps) := physical m in rect_contains pp ps p.

(** The body of [WorkspaceManager::adjust_monitor_inset], on the monitor. *)
Definition adjust_inset (m : Monitor) (edge : MonitorEdge) (delta : Z) : Monitor :=
  match edge with
  | Top => m <| mon_pos ::= λ p, p <| y ::= λ v, v + delta |> |>
             <| mon_size ::= λ s, s <| y ::= λ v, Z.max 0 (v - delta) |> |>
             <| top_inset ::= λ v, v + delta |>
  | Bottom => m <| mon_size ::= λ s, s <| y ::= λ v, Z.max 0 (v - delta) |> |>
                <| bottom_inset ::= λ v, v + delta |>
  | Left => m <| mon_pos ::= λ p, p <| x ::= λ v, v + delta |> |>
              <| mon_size ::= λ s, s <| x ::= λ v, Z.max 0 (v - delta) |> |>
              <| left_inset ::= λ v, v + delta |>
  | Right => m <| mon_size ::= λ s, s <| x ::= λ v, Z.max 0 (v - delta) |> |>
               <| right_inset ::= λ v, v + delta |>
  end.

(** ** [WindowState] / [swm::Window] *)

Inductive WindowType := Normal | Dialog | Utility | Splash | Modal | Dock | Desktop.
#[export] Instance WindowType_eq_dec : EqDecision WindowType.
Proof. solve_decision. Defined.

Record Window := mkWindow {
  id : Z;
  mapped : bool;
  hidden_by_workspace : bool;
  hidden_explicitly : bool;
  floating : bool;
  fullscreen : bool;
  borderless : bool;
  border_before_fullscreen : Z;
  pos_before_fullscreen : Vec2;
  size_before_fullscreen : Vec2;
  suppress_focus_once : bool;
  wm_instance : string;
  wm_class : string;
  title : string;
  pid : Z;
  type : WindowType;
  size_locked : bool;
  no_input_focus : bool;
  urgent : bool;
  preserve_position : bool;
  size_min : Vec2;
  size_max : Vec2;
  size_inc : Vec2;
  size_base : Vec2;
  self_managed : bool;
  promote_to_borderless : bool;
  pos : Vec2;
  size : Vec2;
  border_width : Z }.
#[export] Instance eta_Window : Eta Window := λ w,
  mkWindow (id w) (mapped w) (hidden_by_workspace w) (hidden_explicitly w)
    (floating w) (fullscreen w) (borderless w) (border_before_fullscreen w)
    (pos_before_fullscreen w) (size_before_fullscreen w) (suppress_focus_once w)
    (wm_instance w) (wm_class w) (title w) (pid w) (type w) (size_locked w)
    (no_input_focus w) (urgent w) (preserve_position w) (size_min w) (size_max w)
    (size_inc w) (size_base w) (self_managed w) (promote_to_borderless w)
    (pos w) (size w) (border_width w).
#[export] Instance Window_eq_dec : EqDecision Window.
Proof. solve_decision. Defined.

(** [Window()] with its default member initialisers, and [id] set. *)
Definition new_window (win : Z) : Window :=
  let v0 := mkVec2 0 0 in
  mkWindow win false false false false false false 0 v0 v0 false "" "" "" 0 Normal
    false false false false v0 v0 v0 v0 false false v0 v0 0.

Definition is_visible (w : Window) : bool :=
  mapped w && negb (hidden_by_workspace w) && negb (hidden_explicitly w).
Definition is_dialog (w : Window) : bool :=
  match type w with Dialog | Modal => true | _ => false end.
Definition is_self_managed (w : Window) : bool :=
  self_managed w || preserve_position w.

(** One axis of [apply_size_hints] ([core_dispatch.cpp]): clamp to the
    minimum and maximum, then snap down to [base + n * inc]. *)
Definition clamp_axis (mn mx req : Z) : Z :=
  let req := if 0 <? mn then Z.max req mn else req in
  if 0 <? mx then Z.min req mx else req.
Definition snap_axis (mn inc base req : Z) : Z :=
  if 1 <? inc then
    let b := if 0 <? base then base else if 0 <? mn then mn else 0 in
    let n := (req - b) ÷ inc in
    let req := b + n * inc in
    if 0 <? mn then Z.max req mn else req
  else req.

Definition apply_size_hints (w : Window) (req : Vec2) : Vec2 :=
  let rx := clamp_axis (x (size_min w)) (x (size_max w)) (x req) in
  let ry := clamp_axis (y (size_min w)) (y (size_max w)) (y req) in
  mkVec2 (snap_axis (x (size_min w)) (x (size_inc w)) (x (size_base w)) rx)
         (snap_axis (y (size_min w)) (y (size_inc w)) (y (size_base w)) ry).

(** ** Facts about the reserved areas *)

(** Reserving and releasing an edge leaves the physical rectangle alone, as
    long as the workspace area does not run out. *)
Definition fits (m : Monitor) (e : MonitorEdge) (delta : Z) : Prop :=
  match e with
  | Top | Bottom => delta ≤ y (mon_size m)
  | Left | Right => delta ≤ x (mon_size m)
  end.

Lemma physical_adjust_inset m e d :
  fits m e d → 0 ≤ inset m e → 0 ≤ inset m e + d →
  physical (adjust_inset m e d) = physical m.
Proof.
  intros Hfit H0 H1. unfold physical.
  destruct e; cbn in *; apply (f_equal2 pair); apply (f_equal2 mkVec2); lia.
Qed.

Lemma adjust_inset_inverse m e d :
  fits m e d → 0 ≤ x (mon_size m) → 0 ≤ y (mon_size m) →
  adjust_inset (adjust_inset m e d) e (- d) = m.
Proof.
  intros Hfit Hx Hy. destruct m as [i n [px py] [sx sy] a t b l r].
  destruct e; cbn in *; unfold upd; cbn; f_equal; try apply (f_equal2 mkVec2); lia.
Qed.

Lemma inset_adjust_inset m e d : inset (adjust_inset m e d) e = inset m e + d.
Proof. by destruct e. Qed.

Lemma adjust_inset_name m e d : mon_name (adjust_inset m e d) = mon_name m.
Proof. by destruct e. Qed.
Lemma adjust_inset_active_ws m e d :
  mon_active_ws (adjust_inset m e d) = mon_active_ws m.
Proof. by destruct e. Qed.

(** ** Facts about the size hints *)

Lemma clamp_axis_min mn mx req : 0 < mn → mx ≤ 0 ∨ mn ≤ mx → mn ≤ clamp_axis mn mx req.
Proof.
  intros ? ?. unfold clamp_axis.
  destruct (Z.ltb_spec 0 mn); destruct (Z.ltb_spec 0 mx); lia.
Qed.

Lemma clamp_axis_max mn mx req : 0 < mx → clamp_axis mn mx req ≤ mx.
Proof.
  intros ?. unfold clamp_axis. destruct (Z.ltb_spec 0 mx); lia.
Qed.

(** Snapping never goes below the minimum, and from a value that reaches the
    base it ends on the grid, within one increment below the request. *)
Lemma snap_axis_min mn inc base req : 0 < mn → mn ≤ req → mn ≤ snap_axis mn inc base req.
Proof.
  intros ??. unfold snap_axis. destruct (1 <? inc); [|done].
  destruct (Z.ltb_spec 0 mn); lia.
Qed.

Lemma snap_down b n d : 0 < d → b ≤ n → b + (n - b) ÷ d * d ≤ n < b + (n - b) ÷ d * d + d.
Proof.
  intros Hd Hb. rewrite Z.quot_div_nonneg by lia.
  pose proof (Z.div_mod (n - b) d ltac:(lia)).
  pose proof (Z.mod_pos_bound (n - b) d ltac:(lia)). nia.
Qed.

Lemma snap_axis_le mn inc base req :
  mn ≤ req → (if 0 <? base then base else Z.max 0 mn) ≤ req →
  snap_axis mn inc base req ≤ req.
Proof.
  intros Hmn Hb. unfold snap_axis. destruct (Z.ltb_spec 1 inc); [|lia].
  set (b := if 0 <? base then base else if 0 <? mn then mn else 0).
  assert (b ≤ req).
  { subst b. destruct (0 <? base); [done|]. destruct (Z.ltb_spec 0 mn); lia. }
  pose proof (snap_down b req inc ltac:(lia) ltac:(lia)) as [? ?].
  cbv zeta. destruct (Z.ltb_spec 0 mn); lia.
Qed.
