(* ===== verification/Float32.v ===== *)
(** * IEEE-754 binary32, for [layout::Config::master_factor]

    The one floating-point value the core computes with.  [float] is the
    Standard Library's executable [spec_float] at precision 24 and maximal
    exponent 128, with rounding to nearest even. *)

From Stdlib Require Import SpecFloat.
From S2P Require Import Prelude.
Local Open Scope Z_scope.

Definition f32_prec : Z := 24.
Definition f32_emax : Z := 128.
Abbreviation float := spec_float.

(** The literals of the source: [0.1f], [0.55f] and [0.9f]. *)
Definition f32_nan : float := S754_nan.
Definition f32_0_1 : float := S754_finite false 13421773 (-27).
Definition f32_0_55 : float := S754_finite false 9227469 (-24).
Definition f32_0_9 : float := S754_finite false 15099494 (-24).

Definition f32_of_int (z : Z) : float := binary_normalize f32_prec f32_emax z 0 false.
Definition f32_mul (a b : float) : float := SFmul f32_prec f32_emax a b.
Definition f32_add (a b : float) : float := SFadd f32_prec f32_emax a b.
Definition f32_ltb (a b : float) : bool := SFltb a b.
Definition is_finite (a : float) : bool :=
  match a with S754_zero _ | S754_finite _ _ _ => true | _ => false end.
Definition is_nan (a : float) : bool := match a with S754_nan => true | _ => false end.

(** [std::clamp(v, lo, hi)]: [v < lo ? lo : hi < v ? hi : v]. *)
Definition f32_clamp (v lo hi : float) : float :=
  if f32_ltb v lo then lo else if f32_ltb hi v then hi else v.

(** The conversion to [int] truncates towards zero.  It is undefined for a NaN
    and for an infinity. *)
Definition f32_to_int (a : float) : Z :=
  match a with
  | S754_zero _ | S754_infinity _ | S754_nan => 0
  | S754_finite s m e =>
      let v := if 0 <=? e then Zpos m * 2 ^ e else Zpos m / 2 ^ (- e) in
      if s then - v else v
  end.

(** Comparison of a non-NaN value with itself and with the clamp bounds. *)
Lemma f32_clamp_range v :
  is_nan v = false →
  f32_ltb (f32_clamp v f32_0_1 f32_0_9) f32_0_1 = false ∧
  f32_ltb f32_0_9 (f32_clamp v f32_0_1 f32_0_9) = false.
Proof.
  intros Hn. unfold f32_clamp.
  destruct (f32_ltb v f32_0_1) eqn:H1; [by vm_compute|].
  destruct (f32_ltb f32_0_9 v) eqn:H2; [by vm_compute|]. done.
Qed.

Lemma f32_clamp_not_nan v :
  is_nan v = false → is_nan (f32_clamp v f32_0_1 f32_0_9) = false.
Proof.
  intros Hn. unfold f32_clamp.
  destruct (f32_ltb v f32_0_1); [done|]. by destruct (f32_ltb f32_0_9 v).
Qed.

(** The clamp leaves no infinity, and adding to a finite value gives a NaN only
    for a NaN. *)
Lemma f32_clamp_finite v : is_nan v = false → is_finite (f32_clamp v f32_0_1 f32_0_9) = true.
Proof. by destruct v as [[]|[]| |[] m e]; intros; unfold f32_clamp; repeat case_match. Qed.

Lemma shr_nonneg mrs e n : 0 ≤ shr_m mrs → 0 ≤ shr_m (shr mrs e n).1.
Proof.
  intros H. unfold shr. destruct n as [|p|p]; [done| |done]. cbn [fst].
  revert mrs H. generalize p. clear p. intros p.
  assert (Hstep : ∀ r, 0 ≤ shr_m r → 0 ≤ shr_m (shr_1 r)).
  { intros [m r b]. destruct m as [|[]|[]]; cbn; lia. }
  induction p as [p IH|p IH|]; intros mrs H; cbn.
  - by apply IH, IH, Hstep.
  - by apply IH, IH.
  - by apply Hstep.
Qed.

Lemma normalize_not_nan m e s : is_nan (binary_normalize f32_prec f32_emax m e s) = false.
Proof.
  assert (Hr : ∀ sx m e, is_nan (binary_round_aux f32_prec f32_emax sx (Zpos m) e loc_Exact) = false).
  { clear m e s. intros sx m e. unfold binary_round_aux, shr_fexp.
    pose proof (shr_nonneg (shr_record_of_loc (Zpos m) loc_Exact) e
      (fexp f32_prec f32_emax (Zdigits2 (Zpos m) + e) - e) ltac:(done)) as H1.
    destruct (shr _ e _) as [r1 e1]. cbn [fst] in H1.
    set (m1 := round_nearest_even _ _).
    assert (H2 : 0 ≤ m1) by (subst m1; unfold round_nearest_even; repeat case_match; lia).
    pose proof (shr_nonneg (shr_record_of_loc m1 loc_Exact) e1
      (fexp f32_prec f32_emax (Zdigits2 m1 + e1) - e1) H2) as H3.
    destruct (shr _ e1 _) as [r2 e2]. cbn [fst] in H3.
    destruct (shr_m r2); [done| |lia]. by destruct (_ <=? _). }
  destruct m; [done|..]; cbn; unfold binary_round; destruct (shl_align _ _ _); apply Hr.
Qed.

Lemma f32_add_not_nan a b : is_finite a = true → is_nan b = false → is_nan (f32_add a b) = false.
Proof.
  unfold f32_add, SFadd. destruct a, b; intros; try done; try apply normalize_not_nan.
  all: by repeat case_match.
Qed.
