(* ===== verification/Layout.v ===== *)
(** * The tiling layouts ([domain/layout.hpp])

    A layout gets the windows to place, the monitor and the configuration, and
    calls the placement sink once per window.  The sink cannot influence a
    layout, so a layout is modelled as the list of the calls it makes. *)

From S2P Require Import Prelude Geometry Float32.
Local Open Scope Z_scope.

Record Config := mkConfig {
  master_factor : float;
  nmaster : Z;
  gap : Z;
  border : Z }.
#[export] Instance eta_Config : Eta Config := λ c,
  mkConfig (master_factor c) (nmaster c) (gap c) (border c).

Definition default_config : Config := mkConfig f32_0_55 1 4 0.

(** One call [place(win, pos, size, border)]. *)
Record Placement := mkPlacement {
  pl_win : Z; pl_pos : Vec2; pl_size : Vec2; pl_border : Z }.

(** The body of the placing loops of [tile]: the windows of one column, from
    top to bottom; the last one absorbs the rounding remainder. *)
Definition column (windows : list Z) (cx cy w h g b : Z) : list Placement :=
  let n := vsize windows in
  let unit := (h - g * (n - 1)) ÷ n in
  imap (λ i win,
    let i := Z.of_nat i in
    let wh := if i =? n - 1 then h - i * (unit + g) else unit in
    mkPlacement win (mkVec2 cx (cy + i * (unit + g)))
      (mkVec2 (Z.max 1 (w - b * 2)) (Z.max 1 (wh - b * 2)))
      (to_u32 (Z.max 0 b))) windows.

Definition tile (windows : list Z) (mon : Monitor) (cfg : Config) : list Placement :=
  let n := vsize windows in
  if n =? 0 then []
  else
    let b := border cfg in
    let g := gap cfg in
    let mx := x (mon_pos mon) + g in
    let my := y (mon_pos mon) + g in
    let mw := x (mon_size mon) - g * 2 in
    let mh := y (mon_size mon) - g * 2 in
    let nm := Z.min (nmaster cfg) n in
    if n <=? nm then column windows mx my mw mh g b
    else
      let master_w := f32_to_int (f32_mul (f32_of_int mw) (master_factor cfg)) - g ÷ 2 in
      let stack_x := mx + master_w + g in
      let stack_w := mw - master_w - g in
      column (take (Z.to_nat nm) windows) mx my master_w mh g b ++
      column (drop (Z.to_nat nm) windows) stack_x my stack_w mh g b.

(** The call of [tile]: with windows to stack and no master row the code divides
    by zero, and with a factor that is not a number the conversion of the master
    width to [int] is undefined. *)
Definition run_tile (windows : list Z) (mon : Monitor) (cfg : Config) : option (list Placement) :=
  if (0 <? vsize windows) && (nmaster cfg <? 1) then None
  else if (nmaster cfg <? vsize windows) && negb (is_finite (master_factor cfg)) then None
  else Some (tile windows mon cfg).

(** What a layout may rely on: a master row and a finite factor. *)
Definition cfg_ok (cfg : Config) : Prop := 1 ≤ nmaster cfg ∧ is_finite (master_factor cfg) = true.

Definition monocle (windows : list Z) (mon : Monitor) (cfg : Config) : list Placement :=
  let b := border cfg in
  (λ win, mkPlacement win
     (mkVec2 (x (mon_pos mon) + b) (y (mon_pos mon) + b))
     (mkVec2 (Z.max 1 (x (mon_size mon) - b * 2)) (Z.max 1 (y (mon_size mon) - b * 2)))
     (to_u32 (Z.max 0 b))) <$> windows.

(** ** Rectangles *)

(** The rectangle a placed window occupies, its border included. *)
Definition outer (p : Placement) : Vec2 * Vec2 :=
  (pl_pos p, mkVec2 (x (pl_size p) + 2 * pl_border p) (y (pl_size p) + 2 * pl_border p)).

Definition inside (r : Vec2 * Vec2) (rx ry rw rh : Z) : Prop :=
  rx ≤ x r.1 ∧ x r.1 + x r.2 ≤ rx + rw ∧ ry ≤ y r.1 ∧ y r.1 + y r.2 ≤ ry + rh.

Definition disjoint_rects (r1 r2 : Vec2 * Vec2) : Prop :=
  x r1.1 + x r1.2 ≤ x r2.1 ∨ x r2.1 + x r2.2 ≤ x r1.1 ∨
  y r1.1 + y r1.2 ≤ y r2.1 ∨ y r2.1 + y r2.2 ≤ y r1.1.

(** A column of [n] windows has room: each cell is higher and wider than the
    borders. *)
Definition column_room (n w h g b : Z) : Prop :=
  0 ≤ b < 2147483648 ∧ 0 ≤ g ∧ 2 * b < w ∧ n * (2 * b + 1) + g * (n - 1) ≤ h.

Section Column.
Context (windows : list Z) (cx cy w h g b : Z).
Let n := vsize windows.
Let unit := (h - g * (n - 1)) ÷ n.

Lemma column_windows : pl_win <$> column windows cx cy w h g b = windows.
Proof.
  apply list_eq. intros i. unfold column. rewrite list_lookup_fmap, list_lookup_imap.
  by destruct (windows !! i).
Qed.

Lemma column_lookup i p :
  column windows cx cy w h g b !! i = Some p →
  ∃ win, windows !! i = Some win ∧ Z.of_nat i < n ∧
    p = mkPlacement win (mkVec2 cx (cy + Z.of_nat i * (unit + g)))
      (mkVec2 (Z.max 1 (w - b * 2))
         (Z.max 1 ((if Z.of_nat i =? n - 1 then h - Z.of_nat i * (unit + g) else unit) - b * 2)))
      (to_u32 (Z.max 0 b)).
Proof.
  unfold column. rewrite list_lookup_imap. intros (win & Hw & ->)%fmap_Some.
  exists win. split; [done|]. split; [|done].
  apply lookup_lt_Some in Hw. unfold n, vsize. lia.
Qed.

Hypothesis room : column_room n w h g b.

Lemma unit_bounds : 0 < n → 2 * b < unit ∧ n * unit ≤ h - g * (n - 1).
Proof.
  intros Hn. destruct room as (Hb & Hg & Hw & Hh). unfold unit.
  rewrite Z.quot_div_nonneg by nia. split; [|apply Z.mul_div_le; lia].
  apply Z.lt_le_trans with (2 * b + 1); [lia|].
  apply Z.div_le_lower_bound; nia.
Qed.

(** Window [i] fills its cell: the outer rectangle in terms of the cell. *)
Lemma column_outer i p :
  column windows cx cy w h g b !! i = Some p →
  let i := Z.of_nat i in
  let wh := if i =? n - 1 then h - i * (unit + g) else unit in
  outer p = (mkVec2 cx (cy + i * (unit + g)), mkVec2 w wh) ∧
  0 ≤ i < n ∧ unit ≤ wh ∧ i * (unit + g) + wh ≤ h.
Proof.
  intros (win & _ & Hi & ->)%column_lookup. cbv zeta.
  destruct (unit_bounds ltac:(lia)) as [Hu Hnu].
  destruct room as (Hb & Hg & Hw & Hh).
  set (k := Z.of_nat i) in *. assert (0 ≤ k) by (unfold k; lia).
  unfold outer. cbn [pl_pos pl_size pl_border x y].
  rewrite to_u32_small by lia.
  destruct (Z.eqb_spec k (n - 1)) as [E|E].
  - assert (unit ≤ h - k * (unit + g)) by nia.
    split; [f_equal; apply (f_equal2 mkVec2); lia|]. lia.
  - split; [f_equal; apply (f_equal2 mkVec2); lia|].
    repeat split; [lia|lia|lia|nia].
Qed.

Lemma column_inside i p :
  column windows cx cy w h g b !! i = Some p → inside (outer p) cx cy w h.
Proof.
  intros H. destruct (column_outer _ _ H) as (-> & Hi & Hu & Hh).
  destruct (unit_bounds ltac:(lia)) as [Hu' _].
  destruct room as (Hb & Hg & _). unfold inside. cbn. nia.
Qed.

Lemma column_disjoint i j p q :
  column windows cx cy w h g b !! i = Some p →
  column windows cx cy w h g b !! j = Some q →
  (i < j)%nat → disjoint_rects (outer p) (outer q).
Proof.
  intros Hp Hq Hij.
  destruct (column_outer _ _ Hp) as (-> & Hi & _ & _).
  destruct (column_outer _ _ Hq) as (-> & Hj & _ & _).
  destruct room as (Hb & Hg & _). destruct (unit_bounds ltac:(lia)) as [Hu _].
  unfold disjoint_rects. cbn. right. right. left.
  destruct (Z.eqb_spec (Z.of_nat i) (n - 1)); [lia|]. nia.
Qed.
End Column.

(** ** [tile] *)

(** The monitor has room for the tiling: each column it uses has. *)
Definition tile_room (n : Z) (mon : Monitor) (cfg : Config) : Prop :=
  let g := gap cfg in let b := border cfg in
  let mw := x (mon_size mon) - g * 2 in
  let mh := y (mon_size mon) - g * 2 in
  let nm := Z.min (nmaster cfg) n in
  let master_w := f32_to_int (f32_mul (f32_of_int mw) (master_factor cfg)) - g ÷ 2 in
  if n <=? nm then column_room n mw mh g b
  else column_room nm master_w mh g b ∧ column_room (n - nm) (mw - master_w - g) mh g b.

Lemma tile_cases windows mon cfg :
  1 ≤ nmaster cfg → windows ≠ [] →
  let n := vsize windows in
  let b := border cfg in let g := gap cfg in
  let mx := x (mon_pos mon) + g in let my := y (mon_pos mon) + g in
  let mw := x (mon_size mon) - g * 2 in let mh := y (mon_size mon) - g * 2 in
  let nm := Z.min (nmaster cfg) n in
  let master_w := f32_to_int (f32_mul (f32_of_int mw) (master_factor cfg)) - g ÷ 2 in
  (n ≤ nm ∧ tile windows mon cfg = column windows mx my mw mh g b) ∨
  (nm < n ∧ tile windows mon cfg =
     column (take (Z.to_nat nm) windows) mx my master_w mh g b ++
     column (drop (Z.to_nat nm) windows) (mx + master_w + g) my (mw - master_w - g) mh g b).
Proof.
  intros Hm Hne. cbv zeta. unfold tile. cbv zeta.
  destruct (Z.eqb_spec (vsize windows) 0) as [E|E].
  { unfold vsize in E. destruct windows; [done|cbn in E; lia]. }
  destruct (Z.leb_spec (vsize windows) (Z.min (nmaster cfg) (vsize windows))); auto.
Qed.

Lemma vsize_take_drop {A} (l : list A) k :
  0 ≤ k ≤ vsize l →
  vsize (take (Z.to_nat k) l) = k ∧ vsize (drop (Z.to_nat k) l) = vsize l - k.
Proof. unfold vsize. intros ?. rewrite length_take, length_drop. lia. Qed.

Lemma column_length windows cx cy w h g b :
  length (column windows cx cy w h g b) = length windows.
Proof. apply length_imap. Qed.

(** The placements of a tiling with room, with the column each is in. *)
Lemma tile_columns windows mon cfg :
  1 ≤ nmaster cfg → windows ≠ [] → tile_room (vsize windows) mon cfg →
  let g := gap cfg in let b := border cfg in
  let mx := x (mon_pos mon) + g in let my := y (mon_pos mon) + g in
  let mw := x (mon_size mon) - g * 2 in let mh := y (mon_size mon) - g * 2 in
  (column_room (vsize windows) mw mh g b ∧
   tile windows mon cfg = column windows mx my mw mh g b) ∨
  ∃ l1 l2 w1, column_room (vsize l1) w1 mh g b ∧
    column_room (vsize l2) (mw - w1 - g) mh g b ∧
    tile windows mon cfg =
      column l1 mx my w1 mh g b ++ column l2 (mx + w1 + g) my (mw - w1 - g) mh g b.
Proof.
  intros Hm Hne Hroom. cbv zeta.
  assert (1 ≤ vsize windows) by (unfold vsize; destruct windows; cbn; [done|lia]).
  unfold tile_room in Hroom. cbv zeta in Hroom.
  destruct (tile_cases windows mon cfg Hm Hne) as [[Hn ->]|[Hn ->]].
  - left. split; [|done]. by rewrite (proj2 (Z.leb_le _ _)) in Hroom by lia.
  - right. rewrite (proj2 (Z.leb_gt _ _)) in Hroom by lia.
    destruct (vsize_take_drop windows (Z.min (nmaster cfg) (vsize windows)) ltac:(lia))
      as [E1 E2].
    do 3 eexists. rewrite E1, E2. split; [apply Hroom|]. split; [apply Hroom|done].
Qed.

(** ** The layout theorems *)

(** Each layout calls the sink exactly once per window, in the given order. *)
Theorem tile_places_each_once windows mon cfg :
  pl_win <$> tile windows mon cfg = windows ∧
  pl_win <$> monocle windows mon cfg = windows.
Proof.
  split.
  - unfold tile. cbv zeta. destruct (Z.eqb_spec (vsize windows) 0) as [E|E].
    { unfold vsize in E. destruct windows; [done|cbn in E; lia]. }
    destruct (Z.leb_spec (vsize windows) (Z.min (nmaster cfg) (vsize windows))).
    + apply column_windows.
    + rewrite fmap_app, !column_windows. apply take_drop.
  - unfold monocle. rewrite <- list_fmap_compose. apply list_fmap_id.
Qed.

(** C34: when the monitor has room, [tile] keeps every window, border included,
    inside the gap-inset monitor area, and no two of them overlap. *)
Theorem tile_inside_disjoint windows mon cfg :
  1 ≤ nmaster cfg → tile_room (vsize windows) mon cfg →
  (∀ p, p ∈ tile windows mon cfg →
     inside (outer p) (x (mon_pos mon) + gap cfg) (y (mon_pos mon) + gap cfg)
       (x (mon_size mon) - gap cfg * 2) (y (mon_size mon) - gap cfg * 2)) ∧
  (∀ i j p q, (i < j)%nat → tile windows mon cfg !! i = Some p →
     tile windows mon cfg !! j = Some q → disjoint_rects (outer p) (outer q)).
Proof.
  intros Hm Hroom. destruct (decide (windows = [])) as [->|Hne].
  { split; [intros p Hp; by apply elem_of_nil in Hp|intros ???? _ Hi; done]. }
  destruct (tile_columns windows mon cfg Hm Hne Hroom)
    as [[Hr ->]|(l1 & l2 & w1 & Hr1 & Hr2 & ->)].
  - split.
    + intros p [i Hp]%list_elem_of_lookup. by eapply column_inside.
    + intros i j p q Hij Hp Hq. by eapply (column_disjoint windows).
  - assert (Hw : 0 ≤ gap cfg ∧ 0 < w1 ∧ 0 < x (mon_size mon) - gap cfg * 2 - w1 - gap cfg).
    { destruct Hr1 as (?&?&?&?), Hr2 as (?&?&?&?). lia. }
    assert (Hin : ∀ A (c1 c2 : list A) i p, (c1 ++ c2) !! i = Some p →
      ((i < length c1)%nat ∧ c1 !! i = Some p) ∨
      ((length c1 ≤ i)%nat ∧ c2 !! (i - length c1)%nat = Some p)).
    { intros A c1 c2 i p H. apply lookup_app_Some in H as [H|[Hl H]]; [left|by right].
      split; [by eapply lookup_lt_Some|done]. }
    split.
    + intros p [i Hp]%list_elem_of_lookup.
      destruct (Hin _ _ _ _ _ Hp) as [[_ H]|[_ H]];
        apply column_inside in H; try done; unfold inside in *; lia.
    + intros i j p q Hij Hp Hq.
      destruct (Hin _ _ _ _ _ Hp) as [[Hk Hi]|[Hk Hi]];
      destruct (Hin _ _ _ _ _ Hq) as [[Hk' Hj]|[Hk' Hj]].
      * by eapply (column_disjoint l1).
      * apply column_inside in Hi; [|done]. apply column_inside in Hj; [|done].
        left. unfold inside in *. lia.
      * lia.
      * eapply (column_disjoint l2); [exact Hr2|exact Hi|exact Hj|lia].
Qed.

(** A full-HD monitor with three windows, two of them on the stack. *)
Definition ex_mon : Monitor := new_monitor 0 "eDP-1" 0 0 1920 1080.
Definition ex_cfg : Config := mkConfig f32_0_55 1 4 2.

Lemma tile_inside_disjoint_witness :
  (∀ p, p ∈ tile [11; 12; 13] ex_mon ex_cfg →
     inside (outer p) (x (mon_pos ex_mon) + gap ex_cfg) (y (mon_pos ex_mon) + gap ex_cfg)
       (x (mon_size ex_mon) - gap ex_cfg * 2) (y (mon_size ex_mon) - gap ex_cfg * 2)) ∧
  (∀ i j p q, (i < j)%nat → tile [11; 12; 13] ex_mon ex_cfg !! i = Some p →
     tile [11; 12; 13] ex_mon ex_cfg !! j = Some q → disjoint_rects (outer p) (outer q)).
Proof.
  apply tile_inside_disjoint.
  - by vm_compute.
  - vm_compute. repeat split; by intros [=].
Defined.
