(* ===== verification/Workspace.v ===== *)
(** * Workspaces ([domain/ws.hpp], [core/workspace_manager.cpp])

    A workspace is an ordered vector of shared windows and a cursor into it.
    Windows are shared objects: the vector, the manager's index and the
    callers hold pointers to the same [swm::Window].  They live in a [heap];
    a [shared_ptr] is an address, a null one an address the heap does not map. *)

From S2P Require Import Prelude Geometry.
Local Open Scope Z_scope.

Abbreviation addr := positive.
Abbreviation heap := (gmap positive Window).

Inductive WorkspaceMode := ModeNormal | ModeFullscreen.
#[export] Instance WorkspaceMode_eq_dec : EqDecision WorkspaceMode.
Proof. solve_decision. Defined.

Record Workspace := mkWorkspace {
  ws_id : Z;
  windows : list addr;
  current : Z;
  ws_name : string;
  monitor_alias : string;
  mode : WorkspaceMode }.
#[export] Instance eta_Workspace : Eta Workspace := λ w,
  mkWorkspace (ws_id w) (windows w) (current w) (ws_name w) (monitor_alias w) (mode w).
#[export] Instance Workspace_eq_dec : EqDecision Workspace.
Proof. solve_decision. Defined.

(** The constructor. *)
Definition new_workspace (id : Z) (name alias : string) : Workspace :=
  mkWorkspace id [] (-1) name alias ModeNormal.

(** [w && pred(w)] for a shared pointer: false on a null one. *)
Definition holds (h : heap) (pred : Window → bool) (p : addr) : bool :=
  match h !! p with Some w => pred w | None => false end.

Definition covering (w : Window) : bool := fullscreen w || borderless w.

Definition has_fullscreen_window (h : heap) (ws : Workspace) : bool :=
  existsb (holds h (λ w, is_visible w && covering w)) (windows ws).

Definition any_visible (h : heap) (ws : Workspace) : bool :=
  existsb (holds h is_visible) (windows ws).

Definition ws_add_window (ws : Workspace) (p : addr) : Workspace :=
  let ws := ws <| windows ::= λ l, l ++ [p] |> in
  if current ws =? -1 then ws <| current := 0 |> else ws.

(** Erases the first window with the id; the result says whether there was one. *)
Definition ws_remove_window (h : heap) (ws : Workspace) (win : Z) : Workspace * bool :=
  match index_where (holds h (λ w, id w =? win)) (windows ws) with
  | None => (ws, false)
  | Some i =>
      let ws := ws <| windows ::= delete i |> in
      let n := vsize (windows ws) in
      let i := Z.of_nat i in
      let cur := current ws in
      let cur' :=
        if n =? 0 then -1
        else if i <? cur then cur - 1
        else if cur =? i then Z.min i (n - 1)
        else if n <=? cur then n - 1
        else cur in
      (ws <| current := cur' |>, true)
  end.

(** The window that has the focus of the workspace: the cursor when it may be
    shown, otherwise the first window that may. *)
Definition ws_focused (h : heap) (ws : Workspace) : option addr :=
  let anyv := any_visible h ws in
  let eligible := holds h (λ w, negb anyv || is_visible w) in
  let fallback := find eligible (windows ws) in
  match vget (windows ws) (current ws) with
  | Some p => if eligible p then Some p else fallback
  | None => fallback
  end.

(** The two scans of [focus_next]/[focus_prev]: over the candidate positions
    [idxs], first the tiled windows, then any. *)
Definition scan_focus (h : heap) (ws : Workspace) (idxs : list Z) : option Z :=
  let anyv := any_visible h ws in
  let ok (tiled_only : bool) (idx : Z) :=
    match vget (windows ws) idx with
    | Some p => holds h (λ w, (negb anyv || is_visible w) && (negb tiled_only || negb (floating w))) p
    | None => false
    end in
  match find (ok true) idxs with
  | Some idx => Some idx
  | None => find (ok false) idxs
  end.

(** [i] from 1 to [n]. *)
Definition steps (n : Z) : list Z := Z.succ <$> range n.

Definition ws_focus_next (h : heap) (ws : Workspace) : Workspace :=
  let n := vsize (windows ws) in
  if n =? 0 then ws
  else
    match scan_focus h ws ((λ i, Z.rem (current ws + i) n) <$> steps n) with
    | Some idx => ws <| current := idx |>
    | None => ws
    end.

Definition ws_focus_prev (h : heap) (ws : Workspace) : Workspace :=
  let n := vsize (windows ws) in
  if n =? 0 then ws
  else
    let base := if (0 <=? current ws) && (current ws <? n) then current ws else 0 in
    match scan_focus h ws ((λ i, Z.rem (base - i + n) n) <$> steps n) with
    | Some idx => ws <| current := idx |>
    | None => ws
    end.

(** ** The cursor invariant *)

(** The cursor is -1 exactly when the workspace is empty, and otherwise a
    position of the vector. *)
Definition cursor_ok (ws : Workspace) : Prop :=
  (windows ws = [] ∧ current ws = -1) ∨ 0 ≤ current ws < vsize (windows ws).

Lemma cursor_ok_add ws p : cursor_ok ws → cursor_ok (ws_add_window ws p).
Proof.
  unfold cursor_ok, ws_add_window, vsize. intros Hok. right. cbn.
  destruct (Z.eqb_spec (current ws) (-1)); cbn; rewrite length_app; cbn; [lia|].
  destruct Hok as [[_ ?]|?]; lia.
Qed.

Lemma ws_remove_window_windows h ws win :
  (ws_remove_window h ws win).1 = ws ∧ (ws_remove_window h ws win).2 = false ∨
  ∃ i, index_where (holds h (λ w, id w =? win)) (windows ws) = Some i ∧
    windows (ws_remove_window h ws win).1 = delete i (windows ws) ∧
    (ws_remove_window h ws win).2 = true.
Proof.
  unfold ws_remove_window. destruct (index_where _ _) as [i|]; [right; by exists i|by left].
Qed.

Lemma ws_remove_window_fields h ws win :
  let ws' := (ws_remove_window h ws win).1 in
  ws_id ws' = ws_id ws ∧ ws_name ws' = ws_name ws ∧
  monitor_alias ws' = monitor_alias ws ∧ mode ws' = mode ws.
Proof. unfold ws_remove_window. by destruct (index_where _ _). Qed.

Lemma cursor_ok_remove h ws win : cursor_ok ws → cursor_ok (ws_remove_window h ws win).1.
Proof.
  intros Hok. unfold ws_remove_window.
  destruct (index_where _ _) as [i|] eqn:Hi; [|done].
  apply index_where_Some in Hi as [(p & Hp & _) _].
  pose proof (lookup_lt_Some _ _ _ Hp) as Hlt.
  assert (Hlen : length (windows ws) = S (length (delete i (windows ws)))).
  { rewrite length_delete by (by exists p). lia. }
  assert (Hcur : 0 ≤ current ws < vsize (windows ws)).
  { destruct Hok as [[E _]|?]; [|done]. rewrite E in Hlt. cbn in Hlt. lia. }
  unfold cursor_ok, vsize in *. cbn.
  destruct (Z.eqb_spec (Z.of_nat (length (delete i (windows ws)))) 0) as [E|E].
  { left. split; [|done]. apply nil_length_inv. lia. }
  right. destruct (Z.ltb_spec (Z.of_nat i) (current ws)); [lia|].
  destruct (Z.eqb_spec (current ws) (Z.of_nat i)); [lia|].
  destruct (Z.leb_spec (Z.of_nat (length (delete i (windows ws)))) (current ws)); lia.
Qed.

Lemma elem_of_steps n i : i ∈ steps n ↔ 1 ≤ i ≤ n.
Proof.
  unfold steps. rewrite list_elem_of_fmap. split.
  - intros (k & -> & Hk%elem_of_range). lia.
  - intros ?. exists (i - 1). rewrite elem_of_range. lia.
Qed.

Lemma find_elem_of {A} (f : A → bool) l a : find f l = Some a → a ∈ l ∧ f a = true.
Proof. intros [H1 H2]%find_some. by rewrite list_elem_of_In. Qed.

(** A position the scan returns is one of the candidates, and holds a window
    that may be shown. *)
Lemma scan_focus_Some h ws idxs idx :
  scan_focus h ws idxs = Some idx →
  idx ∈ idxs ∧ ∃ p w, vget (windows ws) idx = Some p ∧ h !! p = Some w ∧
    (any_visible h ws = true → is_visible w = true).
Proof.
  assert (Hgen : ∀ b idx, find (λ idx, match vget (windows ws) idx with
      | Some p => holds h (λ w, (negb (any_visible h ws) || is_visible w) &&
                                 (negb b || negb (floating w))) p
      | None => false end) idxs = Some idx →
    idx ∈ idxs ∧ ∃ p w, vget (windows ws) idx = Some p ∧ h !! p = Some w ∧
    (any_visible h ws = true → is_visible w = true)).
  { intros b i [Hin Hok]%find_elem_of. split; [done|].
    destruct (vget (windows ws) i) as [p|] eqn:Hp; [|done].
    unfold holds in Hok. destruct (h !! p) as [w|] eqn:Hw; [|done].
    exists p, w. split; [done|]. split; [done|]. intros Ha.
    rewrite Ha in Hok. cbn in Hok. by apply andb_true_iff in Hok as [? _]. }
  unfold scan_focus. cbv zeta. destruct (find _ idxs) as [i|] eqn:Hf.
  - intros [= <-]. by apply (Hgen true).
  - intros H. by apply (Hgen false).
Qed.

Lemma rem_range a n : 0 < n → 0 ≤ a → 0 ≤ Z.rem a n < n.
Proof. intros. apply Z.rem_bound_pos; lia. Qed.

Lemma ws_focus_next_fields h ws :
  ws_focus_next h ws = ws <| current := current (ws_focus_next h ws) |>.
Proof.
  unfold ws_focus_next. destruct (_ =? 0); [by destruct ws|].
  destruct (scan_focus _ _ _); by destruct ws.
Qed.

Lemma ws_focus_prev_fields h ws :
  ws_focus_prev h ws = ws <| current := current (ws_focus_prev h ws) |>.
Proof.
  unfold ws_focus_prev. destruct (_ =? 0); [by destruct ws|].
  destruct (scan_focus _ _ _); by destruct ws.
Qed.

Lemma cursor_ok_set ws idx p :
  vget (windows ws) idx = Some p → cursor_ok (ws <| current := idx |>).
Proof. intros H%vget_Some_range. by right. Qed.

Lemma cursor_ok_focus_next h ws : cursor_ok ws → cursor_ok (ws_focus_next h ws).
Proof.
  intros Hok. unfold ws_focus_next. destruct (_ =? 0); [done|].
  destruct (scan_focus _ _ _) as [i|] eqn:Hs; [|done].
  apply scan_focus_Some in Hs as (_ & p & _ & Hp & _). by eapply cursor_ok_set.
Qed.

Lemma cursor_ok_focus_prev h ws : cursor_ok ws → cursor_ok (ws_focus_prev h ws).
Proof.
  intros Hok. unfold ws_focus_prev. destruct (_ =? 0); [done|].
  destruct (scan_focus _ _ _) as [i|] eqn:Hs; [|done].
  apply scan_focus_Some in Hs as (_ & p & _ & Hp & _). by eapply cursor_ok_set.
Qed.

(** ** The focused window *)

Lemma any_visible_true h ws :
  any_visible h ws = true ↔ ∃ p w, p ∈ windows ws ∧ h !! p = Some w ∧ is_visible w = true.
Proof.
  unfold any_visible. rewrite existsb_exists. unfold holds. split.
  - intros (p & Hin & Hv). rewrite <- list_elem_of_In in Hin.
    destruct (h !! p) as [w|] eqn:Hw; [|done]. by exists p, w.
  - intros (p & w & Hin & Hw & Hv). exists p. rewrite <- list_elem_of_In, Hw. done.
Qed.

Lemma ws_focused_elem h ws p :
  ws_focused h ws = Some p → p ∈ windows ws ∧ is_Some (h !! p).
Proof.
  assert (Hh : ∀ f q, holds h f q = true → is_Some (h !! q)).
  { intros f q. unfold holds. destruct (h !! q); [by eexists|done]. }
  unfold ws_focused. cbv zeta. destruct (vget _ _) as [q|] eqn:Hq.
  - destruct (holds _ _ q) eqn:He.
    + intros [= ->]. split; [by eapply vget_elem_of|by eapply Hh].
    + intros [H1 H2]%find_elem_of. split; [done|by eapply Hh].
  - intros [H1 H2]%find_elem_of. split; [done|by eapply Hh].
Qed.

(** When some window is visible, the focused window is visible. *)
Lemma ws_focused_visible h ws p w :
  any_visible h ws = true → ws_focused h ws = Some p → h !! p = Some w →
  is_visible w = true.
Proof.
  intros Ha Hf Hw. unfold ws_focused in Hf. cbv zeta in Hf. rewrite Ha in Hf.
  assert (Hh : ∀ q, holds h (λ w0, negb true || is_visible w0) q = true →
    q = p → is_visible w = true).
  { intros q Hq ->. unfold holds in Hq. by rewrite Hw in Hq. }
  destruct (vget _ _) as [q|] eqn:Hq.
  - destruct (holds _ _ q) eqn:He.
    + injection Hf as ->. by eapply Hh.
    + apply find_elem_of in Hf as [_ H2]. by eapply Hh.
  - apply find_elem_of in Hf as [_ H2]. by eapply Hh.
Qed.

Lemma ws_focused_is_Some h ws :
  any_visible h ws = true → is_Some (ws_focused h ws).
Proof.
  intros Ha. pose proof Ha as (p & w & Hin & Hw & Hv)%any_visible_true.
  unfold ws_focused. cbv zeta. rewrite Ha.
  assert (is_Some (find (holds h (λ w0, negb true || is_visible w0)) (windows ws))) as Hs.
  { destruct (find _ _) as [q|] eqn:Hf; [by eexists|].
    apply list_elem_of_In in Hin.
    pose proof (find_none _ _ Hf p Hin) as Hn. unfold holds in Hn. rewrite Hw in Hn.
    cbn in Hn. congruence. }
  destruct (vget _ _) as [q|]; [|done]. destruct (holds _ _ q); [by eexists|done].
Qed.

(** A visible window under the cursor is the focused one. *)
Lemma ws_focused_cursor h ws p w :
  vget (windows ws) (current ws) = Some p → h !! p = Some w → is_visible w = true →
  ws_focused h ws = Some p.
Proof.
  intros Hg Hw Hv. unfold ws_focused. cbv zeta. rewrite Hg.
  unfold holds. rewrite Hw, Hv, orb_true_r. done.
Qed.
