(* ===== verification/WorkspaceManager.v ===== *)
(** * The workspace manager ([domain/ws.hpp], [core/workspace_manager.cpp])

    State: the workspaces and monitors, the ownership of workspaces by monitors
    (owner per workspace, ordered pool and active position per monitor), the
    pools parked for disconnected monitors, the window index and the focused
    monitor.  Public mutators are computations of [M wm]; [None] is an
    out-of-range subscript, a null dereference or a failed
    [WS_ASSERT_CONSISTENT] (which aborts in a debug build). *)

From S2P Require Import Prelude Geometry Workspace.
Local Open Scope Z_scope.

(** ** Configuration data ([config/config_types.hpp]) *)

Record MonitorAlias := mkMonitorAlias {
  alias : string;
  output : string;
  alias_width : Z;
  alias_height : Z;
  rate : Z;
  rotation : string;
  enabled : bool }.

Record MonitorComposeLink := mkMonitorComposeLink {
  link_monitor : string;
  relative_to : string;
  side : string;
  shift : Z }.

Record MonitorCompose := mkMonitorCompose {
  primary : string;
  layout : list MonitorComposeLink;
  defined : bool }.

Record WorkspaceDef := mkWorkspaceDef { def_name : string; def_monitor : string }.

(** ** State *)

Record wm := mkWm {
  (** the window objects, and the next address to allocate *)
  wins : heap;
  next_addr : addr;
  window_factory : option (Z → option Window);
  workspaces : list Workspace;
  monitors : list Monitor;
  ws_owner : list Z;
  monitor_pools : list (list Z);
  monitor_active_local : list Z;
  parked_pools : gmap string (list Z);
  parked_active_ws : gmap string Z;
  window_index : gmap Z addr;
  window_workspace : gmap Z Z;
  focused_monitor : Z }.
#[export] Instance eta_wm : Eta wm := λ s,
  mkWm (wins s) (next_addr s) (window_factory s) (workspaces s) (monitors s)
    (ws_owner s) (monitor_pools s) (monitor_active_local s) (parked_pools s)
    (parked_active_ws s) (window_index s) (window_workspace s) (focused_monitor s).

(** A default-constructed manager. *)
Definition empty_wm : wm :=
  mkWm ∅ 1%positive None [] [] [] [] [] ∅ ∅ ∅ ∅ 0.

(** ** Queries *)

Definition is_ws_valid (s : wm) (i : Z) : bool := (0 <=? i) && (i <? vsize (workspaces s)).
Definition is_mon_valid (s : wm) (i : Z) : bool := (0 <=? i) && (i <? vsize (monitors s)).

Definition find_index {A} (P : A → bool) (l : list A) : Z :=
  match index_where P l with Some i => Z.of_nat i | None => -1 end.

Definition monitor_index_by_name (s : wm) (name : string) : Z :=
  find_index (λ m, bool_decide (mon_name m = name)) (monitors s).

Definition index_of_ws_in_pool (pool : list Z) (ws : Z) : Z :=
  find_index (λ i, i =? ws) pool.

Definition monitor_of (s : wm) (ws : Z) : Z :=
  if negb (is_ws_valid s ws) || (vsize (ws_owner s) <=? ws) then NO_MONITOR
  else match vget (ws_owner s) ws with
       | Some o => if is_mon_valid s o then o else NO_MONITOR
       | None => NO_MONITOR
       end.

Definition local_index_of (s : wm) (mon ws : Z) : Z :=
  match vget (monitor_pools s) mon with
  | None => -1
  | Some pool => index_of_ws_in_pool pool ws
  end.

Definition active_ws_of_monitor (s : wm) (mon : Z) : Z :=
  match vget (monitor_pools s) mon with
  | None | Some [] => NO_WORKSPACE
  | Some ((w0 :: _) as pool) =>
      let idx := match vget (monitor_active_local s) mon with Some i => i | None => -1 end in
      match vget pool idx with
      | Some w => w
      | None => w0
      end
  end.

Definition resolve_alias_monitor (s : wm) (name : string) (aliases : list MonitorAlias) : Z :=
  match find (λ a, bool_decide (alias a = name)) aliases with
  | Some a => monitor_index_by_name s (output a)
  | None => monitor_index_by_name s name
  end.

Definition primary_monitor_index (s : wm) (aliases : list MonitorAlias)
    (compose : MonitorCompose) : Z :=
  let first := if vsize (monitors s) =? 0 then NO_MONITOR else 0 in
  if bool_decide (primary compose = "") then first
  else
    let mon := resolve_alias_monitor s (primary compose) aliases in
    if 0 <=? mon then mon else first.

Definition workspace_of_window (s : wm) (win : Z) : Z :=
  if win =? NO_WINDOW then NO_WORKSPACE
  else match window_workspace s !! win with
       | None => NO_WORKSPACE
       | Some ws => if is_ws_valid s ws then ws else NO_WORKSPACE
       end.

Definition find_window_in_all (s : wm) (win : Z) : option addr := window_index s !! win.

Definition find_window (s : wm) (win ws : Z) : option addr :=
  if win =? NO_WINDOW then None
  else if is_ws_valid s ws then
    match window_workspace s !! win with
    | None => None
    | Some ws' =>
        if negb (ws' =? ws) then None
        else match window_index s !! win with
             | Some p => Some p
             | None =>
                 match vget (workspaces s) ws with
                 | Some w => find (holds (wins s) (λ w, id w =? win)) (windows w)
                 | None => None
                 end
             end
    end
  else find_window_in_all s win.

Definition window_belongs_to_workspace (s : wm) (win ws : Z) : bool :=
  match window_workspace s !! win with Some w => w =? ws | None => false end.

Definition window_is_unique_across_workspaces (s : wm) (win : Z) : bool :=
  if win =? NO_WINDOW then true
  else vsize (filter (λ p, holds (wins s) (λ w, id w =? win) p = true)
          (concat (windows <$> workspaces s))) <=? 1.

Definition monitor_workspace_pools_have_no_duplicates (s : wm) : bool :=
  forallb (is_ws_valid s) (concat (monitor_pools s)) &&
  bool_decide (NoDup (concat (monitor_pools s))).

Definition indexes_consistent (s : wm) : bool :=
  (base.size (window_index s) =? base.size (window_workspace s))%nat &&
  forallb (λ '(win, p),
    holds (wins s) (λ w, id w =? win) p &&
    match window_workspace s !! win with
    | Some ws => is_ws_valid s ws
    | None => false
    end) (map_to_list (window_index s)).

(** The static fallback workspace: nothing ever adds a window to it. *)
Definition fallback_workspace : Workspace := new_workspace (-1) "[fallback]" "".

Definition workspace (s : wm) (i : Z) : Workspace :=
  default fallback_workspace (vget (workspaces s) i).

(** The workspace [current()] refers to; [None] is the fallback workspace. *)
Definition current_ws_index (s : wm) : option Z :=
  if vsize (workspaces s) =? 0 then None
  else
    let ws := active_ws_of_monitor s (focused_monitor s) in
    if is_ws_valid s ws then Some ws
    else
      match find (is_ws_valid s) (active_ws_of_monitor s <$> range (vsize (monitors s))) with
      | Some ws => Some ws
      | None => Some 0
      end.

Definition current_ws (s : wm) : Workspace :=
  match current_ws_index s with
  | Some i => workspace s i
  | None => fallback_workspace
  end.

Record FocusState := mkFocusState { fs_monitor : Z; fs_ws : Z; fs_window : Z }.

(** [w ? w->id : NO_WINDOW]. *)
Definition win_id (h : heap) (p : option addr) : Z :=
  match p with
  | Some a => match h !! a with Some w => id w | None => NO_WINDOW end
  | None => NO_WINDOW
  end.

Definition get_focus_state (s : wm) : FocusState :=
  let ws := active_ws_of_monitor s (focused_monitor s) in
  mkFocusState (focused_monitor s) ws
    (match vget (workspaces s) ws with
     | Some w => win_id (wins s) (ws_focused (wins s) w)
     | None => NO_WINDOW
     end).

Definition focused_window_id (s : wm) : Z := fs_window (get_focus_state s).

Definition workspace_for_local_index (s : wm) (mon idx : Z) : Z :=
  match vget (monitor_pools s) mon with
  | None => NO_WORKSPACE
  | Some pool => default NO_WORKSPACE (vget pool idx)
  end.

Definition monitor_at_point (s : wm) (p : Vec2) : Z :=
  find_index (λ m, mon_contains m p) (monitors s).
Definition monitor_at_physical_point (s : wm) (p : Vec2) : Z :=
  find_index (λ m, physical_contains m p) (monitors s).

(** ** Bookkeeping of pools and the focused monitor *)

Definition sync_monitors_active_ws (s : wm) : wm :=
  s <| monitors := imap (λ i m, m <| mon_active_ws := active_ws_of_monitor s (Z.of_nat i) |>)
                     (monitors s) |>.

Definition select_valid_focused_monitor (s : wm) : wm :=
  if vsize (monitors s) =? 0 then s <| focused_monitor := 0 |>
  else
    let s := if is_mon_valid s (focused_monitor s) then s else s <| focused_monitor := 0 |> in
    if 0 <=? active_ws_of_monitor s (focused_monitor s) then s
    else
      match find (λ i, 0 <=? active_ws_of_monitor s i) (range (vsize (monitors s))) with
      | Some i => s <| focused_monitor := i |>
      | None => s <| focused_monitor := 0 |>
      end.

Definition set_focused_monitor (s : wm) (mon : Z) : wm :=
  if is_mon_valid s mon then s <| focused_monitor := mon |> else s.

(** The lambda [append_if_owned]: the pools built so far and the workspaces
    already placed. *)
Definition append_if_owned (s : wm) (acc : list (list Z) * list bool) (mw : Z * Z)
    : list (list Z) * list bool :=
  let '(mon, ws) := mw in
  let '(pools, placed) := acc in
  if negb (is_mon_valid s mon) || negb (is_ws_valid s ws) then acc
  else match vget (ws_owner s) ws with
       | None => acc
       | Some o =>
           if negb (o =? mon) then acc
           else if default false (vget placed ws) then acc
           else (alter (λ pool, pool ++ [ws]) (Z.to_nat mon) pools,
                 <[Z.to_nat ws := true]> placed)
       end.

Definition rebuild_pools_from_owner (s : wm) (seed_pools : list (list Z))
    (preferred_active_ws : list Z) : wm :=
  let n := length (monitors s) in
  let seeded := concat (imap (λ mon pool, (λ ws, (Z.of_nat mon, ws)) <$> pool)
                             (take n seed_pools)) in
  let owned := (λ ws, (monitor_of s ws, ws)) <$> range (vsize (workspaces s)) in
  let '(pools, _) :=
    foldl (append_if_owned s) (replicate n [], replicate (length (workspaces s)) false)
      (seeded ++ owned) in
  let active := imap (λ mon pool,
    match pool with
    | [] => -1
    | _ =>
        let preferred := default (-1) (preferred_active_ws !! mon) in
        let li := index_of_ws_in_pool pool preferred in
        if 0 <=? li then li else 0
    end) pools in
  s <| monitor_pools := pools |> <| monitor_active_local := active |>.

(** The round-robin pass of [assign_workspaces] over the unowned workspaces. *)
Fixpoint round_robin (n rr : Z) (owners : list Z) : list Z :=
  match owners with
  | [] => []
  | o :: os =>
      if o =? -1 then rr :: round_robin n (Z.rem (rr + 1) n) os
      else o :: round_robin n rr os
  end.

Definition alias_owner (s : wm) (aliases : list MonitorAlias) (ws : Workspace) (o : Z) : Z :=
  if bool_decide (monitor_alias ws = "") then o
  else
    let target := resolve_alias_monitor s (monitor_alias ws) aliases in
    if 0 <=? target then target
    else if is_mon_valid s o then o else -1.

Definition assign_workspaces (aliases : list MonitorAlias) (compose : MonitorCompose)
    (s : wm) : wm :=
  let n := length (workspaces s) in
  let owner := if (length (ws_owner s) =? n)%nat then ws_owner s else replicate n (-1) in
  if vsize (monitors s) =? 0 then
    s <| ws_owner := replicate (length owner) (-1) |>
      <| monitor_pools := [] |> <| monitor_active_local := [] |>
  else
    let owner := (λ o, if is_mon_valid s o then o else -1) <$> owner in
    let owner := zip_with (alias_owner s aliases) (workspaces s) owner in
    let rr := primary_monitor_index s aliases compose in
    let rr := if rr <? 0 then 0 else rr in
    let s := s <| ws_owner := round_robin (vsize (monitors s)) rr owner |> in
    let preferred := active_ws_of_monitor s <$> range (vsize (monitors s)) in
    let s := rebuild_pools_from_owner s (monitor_pools s) preferred in
    sync_monitors_active_ws (select_valid_focused_monitor s).

(** Nine numbered workspaces when the configuration defines none. *)
Definition init_workspaces (defs : list WorkspaceDef) : list Workspace :=
  match defs with
  | [] => (λ i, new_workspace i ("[" +:+ pretty (i + 1) +:+ "]") "") <$> range 9
  | _ => imap (λ i d, new_workspace (Z.of_nat i) (def_name d) (def_monitor d)) defs
  end.

Definition init_from_defs (defs : list WorkspaceDef) (aliases : list MonitorAlias)
    (compose : MonitorCompose) (s : wm) : wm :=
  let wss := init_workspaces defs in
  assign_workspaces aliases compose
    (s <| workspaces := wss |> <| window_index := ∅ |> <| window_workspace := ∅ |>
       <| parked_pools := ∅ |> <| parked_active_ws := ∅ |>
       <| ws_owner := replicate (length wss) (-1) |>
       <| monitor_pools := replicate (length (monitors s)) [] |>
       <| monitor_active_local := replicate (length (monitors s)) (-1) |>).

(** ** Monitor hot-plug *)

(** The accumulators of the seeding loop of [set_monitors]. *)
Record seeding := mkSeeding {
  sd_owner : list Z;
  sd_pools : list (list Z);
  sd_active : list Z;
  sd_parked : gmap string (list Z);
  sd_parked_active : gmap string Z }.

(** One iteration of that loop, for monitor [i] called [name]. *)
Definition seed_monitor (nws : Z) (old_index : gmap string nat) (old_pools : list (list Z))
    (old_active : list Z) (acc : seeding) (im : nat * Monitor) : seeding :=
  let '(i, m) := im in
  let name := mon_name m in
  match old_index !! name with
  | Some oi =>
      mkSeeding (sd_owner acc)
        (sd_pools acc ++ [default [] (old_pools !! oi)])
        (sd_active acc ++ [default (-1) (old_active !! oi)])
        (sd_parked acc) (sd_parked_active acc)
  | None =>
      match sd_parked acc !! name with
      | Some pool =>
          mkSeeding
            (foldl (λ o ws, if (0 <=? ws) && (ws <? nws) then <[Z.to_nat ws := Z.of_nat i]> o else o)
               (sd_owner acc) pool)
            (sd_pools acc ++ [pool])
            (sd_active acc ++ [default (-1) (sd_parked_active acc !! name)])
            (delete name (sd_parked acc)) (delete name (sd_parked_active acc))
      | None =>
          mkSeeding (sd_owner acc) (sd_pools acc ++ [[]]) (sd_active acc ++ [-1])
            (sd_parked acc) (sd_parked_active acc)
      end
  end.

Definition enumerate {A} (l : list A) : list (nat * A) := imap pair l.

(** Who owns a workspace after the change: the monitor with the old owner's name. *)
Definition carry_owner (s : wm) (mons : list Monitor) (ws : nat) : Z :=
  match ws_owner s !! ws with
  | None => -1
  | Some old =>
      match vget (monitors s) old with
      | None => -1
      | Some om => find_index (λ m, bool_decide (mon_name m = mon_name om)) mons
      end
  end.

Definition set_monitors (mons : list Monitor) (s : wm) : wm :=
  let old := monitors s in
  let old_active := imap (λ i _,
    if (i <? length (monitor_pools s))%nat && (i <? length (monitor_active_local s))%nat
    then active_ws_of_monitor s (Z.of_nat i) else NO_WORKSPACE) old in
  let old_focused_name := match vget old (focused_monitor s) with
    | Some m => mon_name m | None => "" end in
  let old_index := foldl (λ idx '(i, m), <[mon_name m := i]> idx) ∅ (enumerate old) in
  let new_has name := existsb (λ m, bool_decide (mon_name m = name)) mons in
  let '(parked, parked_active) :=
    foldl (λ '(pp, pa) '(i, m),
      if new_has (mon_name m) then (pp, pa)
      else (<[mon_name m := default [] (monitor_pools s !! i)]> pp,
            <[mon_name m := default NO_WORKSPACE (old_active !! i)]> pa))
      (parked_pools s, parked_active_ws s) (enumerate old) in
  let owner := carry_owner s mons <$> seq 0 (length (workspaces s)) in
  let acc := foldl (seed_monitor (vsize (workspaces s)) old_index (monitor_pools s) old_active)
    (mkSeeding owner [] [] parked parked_active) (enumerate mons) in
  let s := s <| monitors := mons |> <| parked_pools := sd_parked acc |>
             <| parked_active_ws := sd_parked_active acc |> <| ws_owner := sd_owner acc |> in
  let s := rebuild_pools_from_owner s (sd_pools acc) (sd_active acc) in
  let by_name := monitor_index_by_name s old_focused_name in
  let s := if 0 <=? by_name then s <| focused_monitor := by_name |>
           else if vsize (monitors s) <=? focused_monitor s then s <| focused_monitor := 0 |>
           else s in
  sync_monitors_active_ws (select_valid_focused_monitor s).

Definition adjust_monitor_inset (mon : Z) (edge : MonitorEdge) (delta : Z) (s : wm) : wm :=
  match vget (monitors s) mon with
  | None => s
  | Some m =>
      if delta =? 0 then s
      else s <| monitors := <[Z.to_nat mon := adjust_inset m edge delta]> (monitors s) |>
  end.

Definition focus_monitor_at_point (p : Vec2) (s : wm) : bool * wm :=
  let mon := monitor_at_physical_point s p in
  if mon <? 0 then (false, s)
  else (negb (mon =? focused_monitor s), s <| focused_monitor := mon |>).

(** ** Windows *)

Definition at_ws (i : Z) : M wm Workspace := checked (λ s, vget (workspaces s) i).
Definition put_ws (i : Z) (ws : Workspace) : M wm unit :=
  try_modify (λ s, (λ l, s <| workspaces := l |>) <$> vset (workspaces s) i ws).
Definition put_active_local (mon li : Z) : M wm unit :=
  try_modify (λ s, (λ l, s <| monitor_active_local := l |>) <$>
                   vset (monitor_active_local s) mon li).
Definition modify_window (p : addr) (f : Window → Window) : M wm unit :=
  try_modify (λ s, (λ w, s <| wins := <[p := f w]> (wins s) |>) <$> wins s !! p).
Definition assert_consistent : M wm unit := check indexes_consistent.

(** [std::make_shared]: a fresh address. *)
Definition alloc (w : Window) : M wm addr := λ s,
  Some (next_addr s, s <| wins := <[next_addr s := w]> (wins s) |>
                       <| next_addr ::= Pos.succ |>).

Definition index_window (win : Z) (p : addr) (ws : Z) (s : wm) : wm :=
  if (win =? NO_WINDOW) || bool_decide (wins s !! p = None) || negb (is_ws_valid s ws) then s
  else s <| window_index := <[win := p]> (window_index s) |>
         <| window_workspace := <[win := ws]> (window_workspace s) |>.

Definition unindex_window (win : Z) (s : wm) : wm :=
  s <| window_index := delete win (window_index s) |>
    <| window_workspace := delete win (window_workspace s) |>.

(** [workspaces[i].remove_window(win)]. *)
Definition remove_from_ws (i win : Z) : M wm bool :=
  ws <- at_ws i ;;
  h <- gets wins ;;
  let '(ws', removed) := ws_remove_window h ws win in
  put_ws i ws' ;; ret removed.

(** [workspaces[i].add_window(w)]. *)
Definition add_to_ws (i : Z) (p : addr) : M wm unit :=
  ws <- at_ws i ;; put_ws i (ws_add_window ws p).

Definition remove_from_every_ws (win : Z) : M wm unit :=
  n <- gets (λ s, vsize (workspaces s)) ;;
  for_each (range n) (λ i, remove_from_ws i win ;; ret tt).

Definition add_window (p : addr) (ws : Z) : M wm unit :=
  s <- gets (λ s, s) ;;
  match wins s !! p with
  | None => ret tt
  | Some w =>
      if vsize (workspaces s) =? 0 then ret tt
      else
        let target := if is_ws_valid s ws then ws
                      else active_ws_of_monitor s (focused_monitor s) in
        let target := if is_ws_valid s target then target else 0 in
        let win := id w in
        let insert := (add_to_ws target p ;;
                       modify (index_window win p target) ;; assert_consistent) in
        match window_workspace s !! win with
        | None => insert
        | Some old =>
            if is_ws_valid s old then
              if old =? target then ret tt
              else (remove_from_ws old win ;; insert)
            else insert
        end
  end.

(** The result is the pointer, null when the factory gives none. *)
Definition create_window (win ws : Z) : M wm (option addr) :=
  fac <- gets window_factory ;;
  match match fac with Some f => f win | None => Some (new_window win) end with
  | None => ret None
  | Some w => p <- alloc w ;; add_window p ws ;; ret (Some p)
  end.

Definition remove_window (win ws : Z) : M wm unit :=
  s <- gets (λ s, s) ;;
  if is_ws_valid s ws then
    removed <- remove_from_ws ws win ;;
    (if removed then modify (unindex_window win) else ret tt) ;;
    assert_consistent
  else
    let active := active_ws_of_monitor s (focused_monitor s) in
    (if is_ws_valid s active then
       removed <- remove_from_ws active win ;;
       (if removed then modify (unindex_window win) else ret tt)
     else ret tt) ;;
    assert_consistent.

Definition remove_window_from_all (win : Z) : M wm unit :=
  s <- gets (λ s, s) ;;
  match window_workspace s !! win with
  | Some ws =>
      if is_ws_valid s ws then
        remove_from_ws ws win ;; modify (unindex_window win) ;; assert_consistent
      else remove_from_every_ws win ;; modify (unindex_window win) ;; assert_consistent
  | None => remove_from_every_ws win ;; modify (unindex_window win) ;; assert_consistent
  end.

Definition move_window_to (ws : Z) (p : addr) : M wm unit :=
  s <- gets (λ s, s) ;;
  match wins s !! p with
  | None => ret tt
  | Some w =>
      if negb (is_ws_valid s ws) then ret tt
      else
        let win := id w in
        let insert := (add_to_ws ws p ;; modify (index_window win p ws) ;; assert_consistent) in
        match window_workspace s !! win with
        | Some old =>
            if is_ws_valid s old then
              if old =? ws then ret tt else (remove_from_ws old win ;; insert)
            else (remove_from_every_ws win ;; insert)
        | None => remove_from_every_ws win ;; insert
        end
  end.

(** ** Focus, cursors and workspace switching *)

Definition focus_window (win : Z) : M wm bool :=
  s <- gets (λ s, s) ;;
  match window_workspace s !! win with
  | None => ret false
  | Some wsi =>
      if negb (is_ws_valid s wsi) then ret false
      else
        ws <- at_ws wsi ;;
        match index_where (holds (wins s) (λ w, id w =? win)) (windows ws) with
        | None => ret false
        | Some i =>
            put_ws wsi (ws <| current := Z.of_nat i |>) ;;
            p <- checked (λ _, windows ws !! i) ;;
            modify_window p (λ w, w <| urgent := false |>) ;;
            mon <- gets (λ s, monitor_of s (ws_id ws)) ;;
            (if 0 <=? mon then
               li <- gets (λ s, local_index_of s mon (ws_id ws)) ;;
               (if 0 <=? li then put_active_local mon li else ret tt) ;;
               modify (λ s, sync_monitors_active_ws (s <| focused_monitor := mon |>))
             else ret tt) ;;
            ret true
        end
  end.

(** [current().focus_next(); return current().focused()]; on the fallback
    workspace, which is empty, nothing moves. *)
Definition move_cursor (step : heap → Workspace → Workspace) : M wm (option addr) :=
  s <- gets (λ s, s) ;;
  (match current_ws_index s with
   | Some i => ws <- at_ws i ;; put_ws i (step (wins s) ws)
   | None => ret tt
   end) ;;
  gets (λ s, ws_focused (wins s) (current_ws s)).
Definition focus_next : M wm (option addr) := move_cursor ws_focus_next.
Definition focus_prev : M wm (option addr) := move_cursor ws_focus_prev.

Definition switch_local_index (mon idx : Z) : M wm bool :=
  s <- gets (λ s, s) ;;
  match vget (monitor_pools s) mon with
  | None => ret false
  | Some pool =>
      if (idx <? 0) || (vsize pool <=? idx) then ret false
      else put_active_local mon idx ;; modify sync_monitors_active_ws ;; ret true
  end.

(** The monitor [switch_to] puts an unowned workspace on. *)
Definition switch_target (s : wm) (ws : Workspace) (aliases : list MonitorAlias)
    (hint : Z) (compose : MonitorCompose) : Z :=
  if is_mon_valid s hint then hint
  else
    let t := if bool_decide (monitor_alias ws = "") then -1
             else resolve_alias_monitor s (monitor_alias ws) aliases in
    let t := if is_mon_valid s t then t else primary_monitor_index s aliases compose in
    if is_mon_valid s t then t
    else if is_mon_valid s (focused_monitor s) then focused_monitor s else 0.

Definition put_ws_owner (ws mon : Z) : M wm unit :=
  try_modify (λ s, (λ l, s <| ws_owner := l |>) <$> vset (ws_owner s) ws mon).
Definition put_pool (mon : Z) (pool : list Z) : M wm unit :=
  try_modify (λ s, (λ l, s <| monitor_pools := l |>) <$> vset (monitor_pools s) mon pool).

Definition switch_to (wsi : Z) (aliases : list MonitorAlias) (hint : Z)
    (compose : MonitorCompose) : M wm bool :=
  s <- gets (λ s, s) ;;
  if negb (is_ws_valid s wsi) || (vsize (monitors s) =? 0) then ret false
  else
    target <- (if monitor_of s wsi <? 0 then
                 ws <- at_ws wsi ;;
                 let t := switch_target s ws aliases hint compose in
                 put_ws_owner wsi t ;; ret t
               else ret (monitor_of s wsi)) ;;
    li <- gets (λ s, local_index_of s target wsi) ;;
    li <- (if li <? 0 then
             pool <- checked (λ s, vget (monitor_pools s) target) ;;
             put_pool target (pool ++ [wsi]) ;; ret (vsize pool)
           else ret li) ;;
    put_active_local target li ;;
    modify sync_monitors_active_ws ;;
    ret true.

(** The positions of the tiled windows, in order. *)
Definition tiled_positions (h : heap) (ws : Workspace) : list Z :=
  let tiled i := match vget (windows ws) i with
                 | Some p => holds h (λ w, negb (floating w)) p
                 | None => false
                 end in
  filter (λ i, tiled i = true) (range (vsize (windows ws))).

(** [std::swap] of two elements. *)
Definition swap_at (l : list addr) (i j : Z) : option (list addr) :=
  match vget l i, vget l j with
  | Some a, Some b => l' ← vset l i b; vset l' j a
  | _, _ => None
  end.

Definition zoom_focused : M wm bool :=
  s <- gets (λ s, s) ;;
  match current_ws_index s with
  | None => ret false
  | Some wsi =>
      ws <- at_ws wsi ;;
      match ws_focused (wins s) ws with
      | None => ret false
      | Some f =>
          if holds (wins s) floating f then ret false
          else
            let tiled := tiled_positions (wins s) ws in
            if vsize tiled <? 2 then ret false
            else
              let fpos := find_index (λ i, bool_decide (vget (windows ws) i = Some f)) tiled in
              if fpos <? 0 then ret false
              else
                first <- checked (λ _, vget tiled 0) ;;
                other <- checked (λ _, vget tiled (if fpos =? 0 then 1 else fpos)) ;;
                l <- checked (λ _, swap_at (windows ws) first other) ;;
                put_ws wsi (ws <| windows := l |>
                              <| current := (if fpos =? 0 then other else first) |>) ;;
                ret true
      end
  end.

(** ** Reload of the workspace definitions *)

Definition fallback_for (new_count : Z) (s : wm) (ws : Z) : Z :=
  let mon := default (-1) (vget (ws_owner s) ws) in
  match vget (monitor_pools s) mon with
  | None => 0
  | Some pool => default 0 (find (λ i, i <? new_count) pool)
  end.

(** Moves the windows of a workspace that goes away. *)
Definition displace_ws (new_count : Z) (wsi : Z) : M wm unit :=
  dst <- gets (λ s, fallback_for new_count s wsi) ;;
  ws <- at_ws wsi ;;
  for_each (windows ws) (λ p,
    h <- gets wins ;;
    match h !! p with
    | None => ret tt
    | Some w => add_to_ws dst p ;; modify (index_window (id w) p dst)
    end) ;;
  ws <- at_ws wsi ;;
  put_ws wsi (ws <| windows := [] |> <| current := -1 |>).

(** A monitor whose active workspace goes away switches to its fallback. *)
Definition reactivate (new_count : Z) (mon : Z) : M wm unit :=
  s <- gets (λ s, s) ;;
  let active := active_ws_of_monitor s mon in
  if new_count <=? active then
    let dst := fallback_for new_count s active in
    pool <- checked (λ s, vget (monitor_pools s) mon) ;;
    let li := index_of_ws_in_pool pool dst in
    if 0 <=? li then put_active_local mon li
    else if vsize pool =? 0 then ret tt
    else put_active_local mon 0
  else ret tt.

Definition prune (new_count : Z) (pool : list Z) : list Z :=
  filter (λ i, i < new_count) pool.

Definition shrink_workspaces (new_count old_count : Z) : M wm unit :=
  for_each ((λ i, new_count + i) <$> range (old_count - new_count)) (displace_ws new_count) ;;
  nmon <- gets (λ s, vsize (monitors s)) ;;
  for_each (range nmon) (reactivate new_count) ;;
  modify (λ s,
    s <| monitor_pools ::= fmap (prune new_count) |>
      <| parked_pools ::= fmap (prune new_count) |>
      <| parked_active_ws ::= fmap (λ a, if new_count <=? a then 0 else a) |>
      <| workspaces ::= take (Z.to_nat new_count) |>
      <| ws_owner ::= resize (Z.to_nat new_count) 0 |>).

Definition rename_ws (defs : list WorkspaceDef) (i : Z) : M wm unit :=
  ws <- at_ws i ;;
  d <- checked (λ _, vget defs i) ;;
  put_ws i (ws <| ws_name := def_name d |> <| monitor_alias := def_monitor d |>).

Definition append_ws (defs : list WorkspaceDef) (i : Z) : M wm unit :=
  d <- checked (λ _, vget defs i) ;;
  modify (λ s,
    s <| workspaces ::= λ l, l ++ [new_workspace i (def_name d) (def_monitor d)] |>
      <| ws_owner ::= λ l, l ++ [-1] |>).

Definition update_workspace_defs (defs : list WorkspaceDef) : M wm unit :=
  old_count <- gets (λ s, vsize (workspaces s)) ;;
  let new_count := if vsize defs =? 0 then old_count else vsize defs in
  for_each (range (Z.min new_count old_count)) (rename_ws defs) ;;
  for_each ((λ i, old_count + i) <$> range (new_count - old_count)) (append_ws defs) ;;
  if new_count <? old_count then shrink_workspaces new_count old_count else ret tt.
