(* ===== verification/WindowIndex.v ===== *)
(** * The window index of the manager

    The invariant that ties the window objects, the vectors of the workspaces
    and the two lookup tables together, and that the mutators of windows keep
    it.  In particular [WS_ASSERT_CONSISTENT] never fires. *)

From S2P Require Import Prelude Geometry Workspace WorkspaceManager.
Local Open Scope Z_scope.

(** Every window of a workspace is indexed with that workspace; every indexed
    window is in the workspace it is indexed with. *)
Record windows_ok (h : heap) (nx : addr) (wss : list Workspace)
    (ix : gmap Z addr) (wo : gmap Z Z) : Prop := {
  wok_ws : ∀ i ws, wss !! i = Some ws →
    ws_id ws = Z.of_nat i ∧ cursor_ok ws ∧ NoDup (windows ws);
  wok_win : ∀ i ws p, wss !! i = Some ws → p ∈ windows ws →
    ∃ w, h !! p = Some w ∧ id w ≠ NO_WINDOW ∧
      ix !! id w = Some p ∧ wo !! id w = Some (Z.of_nat i);
  wok_ix : ∀ win p, ix !! win = Some p →
    ∃ w i ws, h !! p = Some w ∧ id w = win ∧ wo !! win = Some (Z.of_nat i) ∧
      wss !! i = Some ws ∧ p ∈ windows ws;
  wok_wo : ∀ win i, wo !! win = Some i → is_Some (ix !! win);
  wok_fresh : ∀ p, is_Some (h !! p) → (p < nx)%positive }.

(** ** Lists without duplicates *)

Lemma elem_of_delete_NoDup {A} (l : list A) k p q :
  NoDup l → l !! k = Some p → q ∈ delete k l ↔ q ∈ l ∧ q ≠ p.
Proof.
  intros Hnd Hk. pose proof (delete_Permutation _ _ _ Hk) as Hp.
  rewrite Hp in Hnd. apply NoDup_cons in Hnd as [Hnin _].
  rewrite (elem_of_Permutation_proper q _ _ Hp), elem_of_cons. split.
  - intros Hq. split; [by right|]. by intros ->.
  - by intros [[->|Hq] Hne].
Qed.

Lemma NoDup_delete {A} (l : list A) k p : NoDup l → l !! k = Some p → NoDup (delete k l).
Proof.
  intros Hnd Hk. rewrite (delete_Permutation _ _ _ Hk) in Hnd.
  by apply NoDup_cons in Hnd as [_ ?].
Qed.

Lemma lookup_insert_Some_or {A} (l : list A) i j a b :
  <[i := a]> l !! j = Some b → (i = j ∧ a = b) ∨ (i ≠ j ∧ l !! j = Some b).
Proof. intros [(? & ? & _)|[? ?]]%list_lookup_insert_Some; auto. Qed.

(** ** The steps that change the index *)

Section WindowsOk.
Context (h : heap) (nx : addr) (wss : list Workspace) (ix : gmap Z addr) (wo : gmap Z Z).
Hypothesis Hok : windows_ok h nx wss ix wo.

(** Two windows with one id are one window. *)
Lemma windows_ok_inj i j ws ws' p q w w' :
  wss !! i = Some ws → p ∈ windows ws → h !! p = Some w →
  wss !! j = Some ws' → q ∈ windows ws' → h !! q = Some w' →
  id w = id w' → p = q ∧ i = j.
Proof.
  intros Hi Hp Hw Hj Hq Hw' E.
  destruct (wok_win _ _ _ _ _ Hok _ _ _ Hi Hp) as (v & Hv & _ & Hx & Ho).
  destruct (wok_win _ _ _ _ _ Hok _ _ _ Hj Hq) as (v' & Hv' & _ & Hx' & Ho').
  simplify_eq. rewrite E in *. simplify_eq. split; [done|]. lia.
Qed.

(** Removing the window [win] from its workspace and from the index. *)
Lemma windows_ok_remove win i ws :
  wo !! win = Some (Z.of_nat i) → wss !! i = Some ws →
  (ws_remove_window h ws win).2 = true ∧
  windows_ok h nx (<[i := (ws_remove_window h ws win).1]> wss)
    (delete win ix) (delete win wo).
Proof.
  intros Hwo Hi.
  destruct (wok_wo _ _ _ _ _ Hok _ _ Hwo) as [p Hix].
  destruct (wok_ix _ _ _ _ _ Hok _ _ Hix) as (w & i' & ws' & Hw & Hid & Hwo' & Hi' & Hp).
  assert (i' = i) as -> by (rewrite Hwo in Hwo'; injection Hwo'; lia).
  simplify_eq.
  assert (Hfound : ∀ q v, q ∈ windows ws → h !! q = Some v → id v = id w → q = p).
  { intros q v Hq Hv E. by eapply (windows_ok_inj i i). }
  destruct (ws_remove_window_windows h ws (id w)) as [[_ Hnone]|(k & Hk & Hwin & ->)].
  { exfalso. unfold ws_remove_window in Hnone. destruct (index_where _ _) eqn:E; [done|].
    eapply index_where_None in E; [|exact Hp]. unfold holds in E.
    rewrite Hw, Z.eqb_refl in E. done. }
  split; [done|].
  apply index_where_Some in Hk as [(q & Hkq & Hq) _].
  assert (q = p) as ->.
  { unfold holds in Hq. destruct (h !! q) as [v|] eqn:Hv; [|done].
    eapply Hfound; [by eapply list_elem_of_lookup_2|done|]. by apply Z.eqb_eq. }
  destruct (wok_ws _ _ _ _ _ Hok _ _ Hi) as (Hid & Hcur & Hnd).
  assert (Hel : ∀ q, q ∈ delete k (windows ws) ↔ q ∈ windows ws ∧ q ≠ p).
  { intros q. by apply elem_of_delete_NoDup. }
  constructor.
  - intros j ws' [[<- <-]|[_ Hj]]%lookup_insert_Some_or; [|by eapply wok_ws].
    destruct (ws_remove_window_fields h ws (id w)) as (-> & _).
    split; [done|]. split; [by apply cursor_ok_remove|].
    rewrite Hwin. by eapply NoDup_delete.
  - intros j ws' q [[<- <-]|[Hne Hj]]%lookup_insert_Some_or Hin.
    + rewrite Hwin, Hel in Hin. destruct Hin as [Hin Hne].
      destruct (wok_win _ _ _ _ _ Hok _ _ _ Hi Hin) as (v & Hv & ? & ? & ?).
      exists v. assert (id v ≠ id w) by (intros E; by apply Hne, (Hfound q v)).
      by rewrite !lookup_delete_ne by done.
    + destruct (wok_win _ _ _ _ _ Hok _ _ _ Hj Hin) as (v & Hv & ? & ? & ?).
      exists v. assert (id v ≠ id w).
      { intros E. apply Hne. symmetry. by eapply (windows_ok_inj j i). }
      by rewrite !lookup_delete_ne by done.
  - intros win' q [Hne Hx]%lookup_delete_Some.
    destruct (wok_ix _ _ _ _ _ Hok _ _ Hx) as (v & j & ws' & Hv & Hidv & Hwov & Hj & Hin).
    exists v, j. rewrite lookup_delete_ne by done.
    destruct (decide (i = j)) as [<-|Hij].
    + exists (ws_remove_window h ws (id w)).1. simplify_eq.
      rewrite list_lookup_insert_eq by (by eapply lookup_lt_Some).
      split_and!; try done. rewrite Hwin, Hel. split; [done|]. intros ->. congruence.
    + exists ws'. by rewrite list_lookup_insert_ne by done.
  - intros win' j [Hne Hx]%lookup_delete_Some. rewrite lookup_delete_ne by done.
    by eapply wok_wo.
  - by eapply wok_fresh.
Qed.

(** Adding an unindexed window to a workspace, and indexing it. *)
Lemma windows_ok_add i ws p w :
  wss !! i = Some ws → h !! p = Some w → id w ≠ NO_WINDOW →
  ix !! id w = None →
  windows_ok h nx (<[i := ws_add_window ws p]> wss)
    (<[id w := p]> ix) (<[id w := Z.of_nat i]> wo).
Proof.
  intros Hi Hw Hid0 Hnone.
  destruct (wok_ws _ _ _ _ _ Hok _ _ Hi) as (Hid & Hcur & Hnd).
  assert (Hwin : windows (ws_add_window ws p) = windows ws ++ [p]).
  { unfold ws_add_window. by case_match. }
  assert (Hwid : ws_id (ws_add_window ws p) = ws_id ws).
  { unfold ws_add_window. by case_match. }
  assert (Hother : ∀ j ws' q v, wss !! j = Some ws' → q ∈ windows ws' →
    h !! q = Some v → id v ≠ id w).
  { intros j ws' q v Hj Hq Hv E.
    destruct (wok_win _ _ _ _ _ Hok _ _ _ Hj Hq) as (? & ? & _ & ? & _). congruence. }
  constructor.
  - intros j ws' [[<- <-]|[_ Hj]]%lookup_insert_Some_or; [|by eapply wok_ws].
    rewrite Hwid, Hwin. split; [done|]. split; [by apply cursor_ok_add|].
    apply NoDup_app. split; [done|]. split; [|apply NoDup_singleton].
    intros q Hq ->%list_elem_of_singleton. by eapply Hother.
  - intros j ws' q [[<- <-]|[Hne Hj]]%lookup_insert_Some_or Hin.
    + rewrite Hwin in Hin.
      apply elem_of_app in Hin as [Hin| ->%list_elem_of_singleton].
      * destruct (wok_win _ _ _ _ _ Hok _ _ _ Hi Hin) as (v & Hv & ? & ? & ?).
        exists v. assert (id v ≠ id w) by (by eapply Hother).
        by rewrite !lookup_insert_ne by done.
      * exists w. by rewrite !lookup_insert_eq.
    + destruct (wok_win _ _ _ _ _ Hok _ _ _ Hj Hin) as (v & Hv & ? & ? & ?).
      exists v. assert (id v ≠ id w) by (by eapply Hother).
      by rewrite !lookup_insert_ne by done.
  - intros win' q [[<- <-]|[Hne Hx]]%lookup_insert_Some.
    + exists w, i, (ws_add_window ws p). rewrite lookup_insert_eq.
      rewrite list_lookup_insert_eq by (by eapply lookup_lt_Some).
      split_and!; try done. rewrite Hwin. set_solver.
    + destruct (wok_ix _ _ _ _ _ Hok _ _ Hx) as (v & j & ws' & Hv & Hidv & Hwov & Hj & Hin).
      rewrite lookup_insert_ne by done. exists v, j.
      destruct (decide (i = j)) as [<-|Hij].
      * exists (ws_add_window ws p). simplify_eq.
        rewrite list_lookup_insert_eq by (by eapply lookup_lt_Some).
        split_and!; try done. rewrite Hwin. set_solver.
      * exists ws'. by rewrite list_lookup_insert_ne by done.
  - intros win' j [[<- <-]|[Hne Hx]]%lookup_insert_Some.
    + by rewrite lookup_insert_eq.
    + rewrite lookup_insert_ne by done. by eapply wok_wo.
  - by eapply wok_fresh.
Qed.

(** Changing the attributes of a window, not its id. *)
Lemma windows_ok_modify p w w' :
  h !! p = Some w → id w' = id w → windows_ok (<[p := w']> h) nx wss ix wo.
Proof.
  intros Hw Hid. constructor.
  - by eapply wok_ws.
  - intros i ws q Hi Hin.
    destruct (wok_win _ _ _ _ _ Hok _ _ _ Hi Hin) as (v & Hv & ? & ? & ?).
    destruct (decide (p = q)) as [<-|Hne].
    + exists w'. simplify_eq. by rewrite lookup_insert_eq, Hid.
    + exists v. by rewrite lookup_insert_ne by done.
  - intros win q Hx.
    destruct (wok_ix _ _ _ _ _ Hok _ _ Hx) as (v & j & ws' & Hv & Hidv & Hwov & Hj & Hin).
    destruct (decide (p = q)) as [<-|Hne].
    + exists w', j, ws'. simplify_eq. by rewrite lookup_insert_eq, Hid.
    + exists v, j, ws'. by rewrite lookup_insert_ne by done.
  - by eapply wok_wo.
  - intros q [v Hq]. destruct (decide (p = q)) as [<-|Hne].
    + eapply wok_fresh; eauto.
    + rewrite lookup_insert_ne in Hq by done. eapply wok_fresh; eauto.
Qed.

(** Allocating an object. *)
Lemma windows_ok_alloc w : windows_ok (<[nx := w]> h) (Pos.succ nx) wss ix wo.
Proof.
  assert (Hne : ∀ q v, h !! q = Some v → nx ≠ q).
  { intros q v Hq ->. assert (q < q)%positive by (eapply wok_fresh; eauto). lia. }
  constructor.
  - by eapply wok_ws.
  - intros i ws q Hi Hin.
    destruct (wok_win _ _ _ _ _ Hok _ _ _ Hi Hin) as (v & Hv & ?).
    exists v. rewrite lookup_insert_ne by (by eapply Hne). done.
  - intros win q Hx.
    destruct (wok_ix _ _ _ _ _ Hok _ _ Hx) as (v & j & ws' & Hv & ?).
    exists v, j, ws'. rewrite lookup_insert_ne by (by eapply Hne). done.
  - by eapply wok_wo.
  - intros q [v [[<- _]|[_ Hq]]%lookup_insert_Some]; [lia|].
    assert (q < nx)%positive by (eapply wok_fresh; eauto). lia.
Qed.

(** Changing a workspace without touching its windows. *)
Lemma windows_ok_put i ws ws' :
  wss !! i = Some ws → ws_id ws' = ws_id ws → windows ws' ≡ₚ windows ws →
  cursor_ok ws' → windows_ok h nx (<[i := ws']> wss) ix wo.
Proof.
  intros Hi Hid Hperm Hcur. constructor.
  - intros j v [[<- <-]|[_ Hj]]%lookup_insert_Some_or; [|by eapply wok_ws].
    destruct (wok_ws _ _ _ _ _ Hok _ _ Hi) as (? & _ & ?). rewrite Hid, Hperm. done.
  - intros j v q [[<- <-]|[_ Hj]]%lookup_insert_Some_or Hin; [|by eapply wok_win].
    rewrite Hperm in Hin. by eapply wok_win.
  - intros win q Hx.
    destruct (wok_ix _ _ _ _ _ Hok _ _ Hx) as (v & j & v' & Hv & ? & ? & Hj & Hin).
    exists v, j. destruct (decide (i = j)) as [<-|Hij].
    + exists ws'. simplify_eq. rewrite list_lookup_insert_eq by (by eapply lookup_lt_Some).
      by rewrite Hperm.
    + exists v'. by rewrite list_lookup_insert_ne by done.
  - by eapply wok_wo.
  - by eapply wok_fresh.
Qed.

(** A window that is not indexed is in no workspace. *)
Lemma windows_ok_remove_noop win i ws :
  wo !! win = None → wss !! i = Some ws → ws_remove_window h ws win = (ws, false).
Proof.
  intros Hnone Hi. unfold ws_remove_window. destruct (index_where _ _) eqn:E; [|done].
  apply index_where_Some in E as [(q & Hq & Hh) _].
  apply list_elem_of_lookup_2 in Hq.
  destruct (wok_win _ _ _ _ _ Hok _ _ _ Hi Hq) as (v & Hv & _ & _ & Ho).
  unfold holds in Hh. rewrite Hv in Hh. apply Z.eqb_eq in Hh. congruence.
Qed.

(** The two tables have the same domain. *)
Lemma windows_ok_dom : dom ix = dom wo.
Proof.
  apply set_eq. intros win. rewrite !elem_of_dom. split.
  - intros [p Hp]. destruct (wok_ix _ _ _ _ _ Hok _ _ Hp) as (? & ? & ? & ? & ? & ? & _).
    by eexists.
  - intros [i Hi]. by eapply wok_wo.
Qed.

Lemma windows_ok_ix_None win : wo !! win = None → ix !! win = None.
Proof.
  rewrite <- !not_elem_of_dom, windows_ok_dom. done.
Qed.

Lemma windows_ok_wo_range win i : wo !! win = Some i → 0 ≤ i < vsize wss.
Proof.
  intros Hwo. destruct (wok_wo _ _ _ _ _ Hok _ _ Hwo) as [p Hp].
  destruct (wok_ix _ _ _ _ _ Hok _ _ Hp) as (w & j & ws & _ & _ & Hj & Hws & _).
  apply lookup_lt_Some in Hws. rewrite Hwo in Hj. injection Hj as ->. unfold vsize. lia.
Qed.
End WindowsOk.

Definition wm_windows_ok (s : wm) : Prop :=
  windows_ok (wins s) (next_addr s) (workspaces s) (window_index s) (window_workspace s).

(** The consistency check of the code holds under the invariant. *)
Lemma windows_ok_consistent s : wm_windows_ok s → indexes_consistent s = true.
Proof.
  intros Hok. unfold indexes_consistent. apply andb_true_iff. split.
  - apply Nat.eqb_eq. rewrite <- !size_dom.
    unfold wm_windows_ok in Hok. by rewrite (windows_ok_dom _ _ _ _ _ Hok).
  - apply forallb_forall. intros [win p] Hin%list_elem_of_In%elem_of_map_to_list.
    destruct (wok_ix _ _ _ _ _ Hok _ _ Hin) as (w & i & ws & Hw & Hid & Hwo & Hi & _).
    unfold holds. rewrite Hw, Hid, Z.eqb_refl, Hwo. cbn.
    apply lookup_lt_Some in Hi. unfold is_ws_valid, vsize. lia.
Qed.
