(* ===== verification/ManagerInv.v ===== *)
(** * The invariant of the workspace manager

    [wm_ok]: the window index ([WindowIndex]), the pools of workspaces
    ([pools_ok]) and the focused monitor are consistent.  Every mutator keeps
    it and runs without undefined behaviour. *)

From S2P Require Import Prelude Geometry Workspace WorkspaceManager WindowIndex.
Local Open Scope Z_scope.

(** ** Pools *)

(** Every workspace of a pool is owned by that pool's monitor, and an owned
    workspace is in its owner's pool, once. *)
Record pools_ok (nws nmon : nat) (owner : list Z) (pools : list (list Z))
    (active : list Z) : Prop := {
  po_owner_len : length owner = nws;
  po_pools_len : length pools = nmon;
  po_active_len : length active = nmon;
  po_pool : ∀ mon pool ws, pools !! mon = Some pool → ws ∈ pool →
    ∃ i, ws = Z.of_nat i ∧ owner !! i = Some (Z.of_nat mon);
  po_nodup : ∀ mon pool, pools !! mon = Some pool → NoDup pool;
  po_owner : ∀ i o, owner !! i = Some o → o = -1 ∨
    ∃ mon pool, o = Z.of_nat mon ∧ pools !! mon = Some pool ∧ Z.of_nat i ∈ pool }.

Definition wm_pools_ok (s : wm) : Prop :=
  pools_ok (length (workspaces s)) (length (monitors s)) (ws_owner s)
    (monitor_pools s) (monitor_active_local s).

Definition focus_ok (s : wm) : Prop :=
  (monitors s = [] ∧ focused_monitor s = 0) ∨ 0 ≤ focused_monitor s < vsize (monitors s).

(** What the window factory promises: a window with the id it is asked for. *)
Definition factory_ok (s : wm) : Prop :=
  ∀ f win w, window_factory s = Some f → f win = Some w → id w = win.

Record wm_ok (s : wm) : Prop := {
  ok_windows : wm_windows_ok s;
  ok_pools : wm_pools_ok s;
  ok_focus : focus_ok s;
  ok_factory : factory_ok s }.

(** The active workspace recorded in each monitor is the one of its pool. *)
Definition synced (s : wm) : Prop :=
  ∀ i m, monitors s !! i = Some m → mon_active_ws m = active_ws_of_monitor s (Z.of_nat i).

(** ** Changes that leave everything but windows alone *)

Record window_frame (s s' : wm) : Prop := {
  fr_monitors : monitors s' = monitors s;
  fr_owner : ws_owner s' = ws_owner s;
  fr_pools : monitor_pools s' = monitor_pools s;
  fr_active : monitor_active_local s' = monitor_active_local s;
  fr_parked : parked_pools s' = parked_pools s;
  fr_parked_active : parked_active_ws s' = parked_active_ws s;
  fr_focused : focused_monitor s' = focused_monitor s;
  fr_factory : window_factory s' = window_factory s;
  fr_len : length (workspaces s') = length (workspaces s) }.

#[export] Instance window_frame_refl : Reflexive window_frame.
Proof. by constructor. Qed.
#[export] Instance window_frame_trans : Transitive window_frame.
Proof. intros s1 s2 s3 [] []. constructor; congruence. Qed.

Lemma frame_active_ws s s' i :
  window_frame s s' → active_ws_of_monitor s' i = active_ws_of_monitor s i.
Proof.
  intros Hf. unfold active_ws_of_monitor. by rewrite (fr_pools _ _ Hf), (fr_active _ _ Hf).
Qed.

Lemma frame_synced s s' : window_frame s s' → synced s → synced s'.
Proof.
  intros Hf Hs i m Hm. rewrite (frame_active_ws _ _ _ Hf).
  apply Hs. by rewrite <- (fr_monitors _ _ Hf).
Qed.

Lemma frame_ok s s' : window_frame s s' → wm_windows_ok s' → wm_ok s → wm_ok s'.
Proof.
  intros Hf Hw [_ Hp Hfo Hfa]. constructor; [done|..].
  - unfold wm_pools_ok.
    by rewrite (fr_len _ _ Hf), (fr_monitors _ _ Hf), (fr_owner _ _ Hf), (fr_pools _ _ Hf),
      (fr_active _ _ Hf).
  - unfold focus_ok. by rewrite (fr_monitors _ _ Hf), (fr_focused _ _ Hf).
  - unfold factory_ok. by rewrite (fr_factory _ _ Hf).
Qed.

Lemma is_ws_valid_spec s i : is_ws_valid s i = true ↔ 0 ≤ i < vsize (workspaces s).
Proof. unfold is_ws_valid. lia. Qed.
Lemma is_mon_valid_spec s i : is_mon_valid s i = true ↔ 0 ≤ i < vsize (monitors s).
Proof. unfold is_mon_valid. lia. Qed.

Lemma vget_lookup {A} (l : list A) i a :
  vget l i = Some a → ∃ k, i = Z.of_nat k ∧ l !! k = Some a.
Proof.
  unfold vget. case_decide; [|done]. intros ?. exists (Z.to_nat i). split; [lia|done].
Qed.

Lemma valid_lookup s i :
  is_ws_valid s i = true → ∃ k ws, i = Z.of_nat k ∧ workspaces s !! k = Some ws.
Proof.
  intros Hv%is_ws_valid_spec. destruct (vget_is_Some (workspaces s) i Hv) as [ws Hws].
  apply vget_lookup in Hws as (k & -> & Hk). by exists k, ws.
Qed.

Lemma windows_ok_wo_valid s win i :
  wm_windows_ok s → window_workspace s !! win = Some i → is_ws_valid s i = true.
Proof.
  intros Hok Hwo. apply is_ws_valid_spec. by eapply windows_ok_wo_range.
Qed.

(** ** Specifications of the primitive steps *)

Lemma wp_at_ws s k ws (Q : Workspace → wm → Prop) :
  workspaces s !! k = Some ws → Q ws s → wp (at_ws (Z.of_nat k)) Q s.
Proof. intros Hk HQ. eapply wp_checked; [by rewrite vget_of_nat|done]. Qed.

Lemma vset_of_nat {A} (l : list A) k v :
  (k < length l)%nat → vset l (Z.of_nat k) v = Some (<[k := v]> l).
Proof. intros ?. rewrite vset_is_Some by (unfold vsize; lia). by rewrite Nat2Z.id. Qed.

Lemma wp_put_ws s k ws (Q : unit → wm → Prop) :
  (k < length (workspaces s))%nat →
  Q tt (s <| workspaces := <[k := ws]> (workspaces s) |>) → wp (put_ws (Z.of_nat k) ws) Q s.
Proof.
  intros Hk HQ. eapply wp_try_modify; [|exact HQ]. by rewrite vset_of_nat.
Qed.

Lemma wp_modify_window s p w f (Q : unit → wm → Prop) :
  wins s !! p = Some w →
  Q tt (s <| wins := <[p := f w]> (wins s) |>) → wp (modify_window p f) Q s.
Proof. intros Hw HQ. eapply wp_try_modify; [|exact HQ]. by rewrite Hw. Qed.

Lemma wp_put_active_local s mon li (Q : unit → wm → Prop) :
  0 ≤ mon < vsize (monitor_active_local s) →
  Q tt (s <| monitor_active_local := <[Z.to_nat mon := li]> (monitor_active_local s) |>) →
  wp (put_active_local mon li) Q s.
Proof. intros Hr HQ. eapply wp_try_modify; [|exact HQ]. by rewrite vset_is_Some. Qed.

Lemma wp_assert s (Q : unit → wm → Prop) :
  wm_windows_ok s → Q tt s → wp assert_consistent Q s.
Proof. intros Hok HQ. apply wp_check; [by apply windows_ok_consistent|done]. Qed.

Lemma wp_alloc s w (Q : addr → wm → Prop) :
  Q (next_addr s) (s <| wins := <[next_addr s := w]> (wins s) |> <| next_addr ::= Pos.succ |>) →
  wp (alloc w) Q s.
Proof. done. Qed.

(** ** Moving windows *)

(** [add_window] to a workspace, index it, check: on a window the index does
    not know. *)
Lemma wp_insert s k ws p w (Q : unit → wm → Prop) :
  windows_ok (wins s) (next_addr s) (workspaces s)
    (delete (id w) (window_index s)) (delete (id w) (window_workspace s)) →
  workspaces s !! k = Some ws → wins s !! p = Some w → id w ≠ NO_WINDOW →
  (∀ s', wm_windows_ok s' → window_frame s s' → wins s' = wins s →
     next_addr s' = next_addr s →
     workspaces s' = <[k := ws_add_window ws p]> (workspaces s) →
     window_index s' = <[id w := p]> (window_index s) →
     window_workspace s' = <[id w := Z.of_nat k]> (window_workspace s) → Q tt s') →
  wp (add_to_ws (Z.of_nat k) p ;;
      modify (index_window (id w) p (Z.of_nat k)) ;; assert_consistent) Q s.
Proof.
  intros Hok Hk Hw Hid HQ. unfold add_to_ws.
  pose proof (lookup_lt_Some _ _ _ Hk) as Hlt.
  do 2 wp_step. eapply wp_at_ws; [done|]. apply wp_put_ws; [done|].
  do 2 wp_step. unfold index_window. cbn.
  rewrite (proj2 (Z.eqb_neq _ _) Hid), bool_decide_false by congruence.
  cbn. unfold is_ws_valid. cbn. rewrite vsize_insert.
  rewrite (proj2 (andb_true_iff _ _)) by (unfold vsize; lia). cbn.
  assert (Hok' := windows_ok_add _ _ _ _ _ Hok k ws p w Hk Hw Hid (lookup_delete_eq _ _)).
  rewrite !insert_delete_eq in Hok'.
  apply wp_assert; [exact Hok'|]. apply HQ; try done.
  constructor; try done. cbn. by rewrite length_insert.
Qed.

(** Removing the window from the workspace it is indexed with. *)
Lemma wp_remove_indexed s win k (Q : bool → wm → Prop) :
  wm_windows_ok s → window_workspace s !! win = Some (Z.of_nat k) →
  (∀ s', windows_ok (wins s') (next_addr s') (workspaces s')
           (delete win (window_index s')) (delete win (window_workspace s')) →
     window_frame s s' → wins s' = wins s → next_addr s' = next_addr s →
     window_index s' = window_index s → window_workspace s' = window_workspace s →
     Q true s') →
  wp (remove_from_ws (Z.of_nat k) win) Q s.
Proof.
  intros Hok Hwo HQ. unfold remove_from_ws.
  pose proof (windows_ok_wo_range _ _ _ _ _ Hok _ _ Hwo) as Hr.
  assert (Hlt : (k < length (workspaces s))%nat) by (unfold vsize in Hr; lia).
  destruct (lookup_lt_is_Some_2 _ _ Hlt) as [ws Hk].
  wp_step. eapply wp_at_ws; [done|]. do 2 wp_step.
  destruct (windows_ok_remove _ _ _ _ _ Hok _ _ _ Hwo Hk) as [Htrue Hok'].
  destruct (ws_remove_window (wins s) ws win) as [ws' r]. cbn in Htrue, Hok'. subst r.
  wp_step. apply wp_put_ws; [done|]. wp_step. apply HQ; try done.
  constructor; try done. cbn. by rewrite length_insert.
Qed.

(** Scanning every workspace for a window the index does not know. *)
Lemma wp_remove_every_noop s win (Q : unit → wm → Prop) :
  wm_windows_ok s → window_workspace s !! win = None →
  Q tt s → wp (remove_from_every_ws win) Q s.
Proof.
  intros Hok Hwo HQ. unfold remove_from_every_ws. do 2 wp_step.
  eapply wp_mono; [apply wp_for_each with (I := λ s', s' = s)|].
  - intros i s' Hi%elem_of_range ->. unfold remove_from_ws.
    destruct (vget_is_Some (workspaces s) i Hi) as [ws Hws].
    apply vget_lookup in Hws as (k & -> & Hk). do 2 wp_step.
    eapply wp_at_ws; [done|]. do 2 wp_step.
    rewrite (windows_ok_remove_noop _ _ _ _ _ Hok _ _ _ Hwo Hk). wp_step.
    apply wp_put_ws; [by eapply lookup_lt_Some|]. do 2 wp_step.
    rewrite list_insert_id by done. by destruct s.
  - done.
  - by intros [] s' ->.
Qed.

(** [move_window_to], on an indexed window and an existing workspace. *)
Lemma move_window_to_spec s ws p w :
  wm_windows_ok s → wins s !! p = Some w → window_index s !! id w = Some p →
  is_ws_valid s ws = true →
  wp (move_window_to ws p) (λ _ s',
    wm_windows_ok s' ∧ window_frame s s' ∧ wins s' = wins s ∧
    window_index s' = window_index s ∧
    window_workspace s' = <[id w := ws]> (window_workspace s)) s.
Proof.
  intros Hok Hw Hix Hv. unfold move_window_to. do 2 wp_step. rewrite Hw, Hv. cbn.
  destruct (wok_ix _ _ _ _ _ Hok _ _ Hix) as (w' & k & wk & Hw' & _ & Hwo & Hk & Hp).
  simplify_eq. destruct (wok_win _ _ _ _ _ Hok _ _ _ Hk Hp) as (w' & Hw' & Hid0 & _ & _).
  simplify_eq.
  destruct (valid_lookup _ _ Hv) as (t & wt & -> & Ht).
  rewrite Hwo, (windows_ok_wo_valid _ _ _ Hok Hwo).
  destruct (Z.eqb_spec (Z.of_nat k) (Z.of_nat t)) as [E|E].
  { wp_step. split_and!; try done. by rewrite <- E, insert_id. }
  wp_step. eapply wp_remove_indexed; [done..|].
  intros s1 Hok1 Hf1 Hw1 Hn1 Hix1 Hwo1.
  destruct (lookup_lt_is_Some_2 (workspaces s1) t) as [wt1 Ht1].
  { rewrite (fr_len _ _ Hf1). by eapply lookup_lt_Some. }
  eapply wp_insert; [done|done|by rewrite Hw1|done|].
  intros s2 Hok2 Hf2 Hw2 Hn2 Hws2 Hix2 Hwo2. split_and!; try done.
  - by etrans.
  - congruence.
  - rewrite Hix2, Hix1. by apply insert_id.
  - by rewrite Hwo2, Hwo1.
Qed.

Lemma move_window_to_invalid s ws p :
  is_ws_valid s ws = false → move_window_to ws p s = Some (tt, s).
Proof.
  intros Hv. unfold move_window_to, bind, gets, ret. cbn.
  destruct (wins s !! p); [|done]. by rewrite Hv.
Qed.

(** [add_window] on a window object that is not in the index. *)
Lemma add_window_spec s ws p w :
  wm_windows_ok s → wins s !! p = Some w → id w ≠ NO_WINDOW → workspaces s ≠ [] →
  wp (add_window p ws) (λ _ s',
    wm_windows_ok s' ∧ window_frame s s' ∧ wins s' = wins s ∧
    ∃ t, is_ws_valid s t = true ∧ (is_ws_valid s ws = true → t = ws) ∧
      window_workspace s' = <[id w := t]> (window_workspace s) ∧
      (window_index s !! id w = None → window_index s' = <[id w := p]> (window_index s))) s.
Proof.
  intros Hok Hw Hid Hne. unfold add_window. do 2 wp_step. rewrite Hw.
  assert (Hn : (vsize (workspaces s) =? 0) = false).
  { apply Z.eqb_neq. pose proof (vsize_pos _ Hne). lia. }
  rewrite Hn. cbv zeta.
  set (t0 := if is_ws_valid s ws then ws else active_ws_of_monitor s (focused_monitor s)).
  set (t := if is_ws_valid s t0 then t0 else 0).
  assert (Ht : is_ws_valid s t = true).
  { subst t. destruct (is_ws_valid s t0) eqn:E; [done|]. apply is_ws_valid_spec.
    pose proof (vsize_nonneg (workspaces s)). lia. }
  assert (Hts : is_ws_valid s ws = true → t = ws).
  { intros E. subst t t0. by rewrite !E. }
  destruct (valid_lookup _ _ Ht) as (k & wt & Hk & Hkt). rewrite Hk in *. clearbody t. clear t0.
  destruct (window_workspace s !! id w) as [old|] eqn:Hwo.
  - rewrite (windows_ok_wo_valid _ _ _ Hok Hwo).
    destruct (Z.eqb_spec old (Z.of_nat k)) as [->|E].
    { wp_step. split_and!; try done. exists (Z.of_nat k). split_and!; try done.
      - by rewrite insert_id.
      - intros Hnone. destruct (wok_wo _ _ _ _ _ Hok _ _ Hwo). congruence. }
    assert (Hold := windows_ok_wo_range _ _ _ _ _ Hok _ _ Hwo).
    rewrite <- (Z2Nat.id old) in Hwo |- * by lia.
    wp_step. eapply wp_remove_indexed; [done..|].
    intros s1 Hok1 Hf1 Hw1 Hn1 Hix1 Hwo1.
    destruct (lookup_lt_is_Some_2 (workspaces s1) k) as [wt1 Ht1].
    { rewrite (fr_len _ _ Hf1). by eapply lookup_lt_Some. }
    eapply wp_insert; [done|done|by rewrite Hw1|done|].
    intros s2 Hok2 Hf2 Hw2 Hn2 Hws2 Hix2 Hwo2. split_and!; try done; [by etrans|congruence|].
    exists (Z.of_nat k). split_and!; try done; [by rewrite Hwo2, Hwo1|].
    intros _. by rewrite Hix2, Hix1.
  - eapply wp_insert; [|done|done|done|].
    + rewrite !delete_id; [done|done|by eapply windows_ok_ix_None].
    + intros s2 Hok2 Hf2 Hw2 Hn2 Hws2 Hix2 Hwo2. split_and!; try done.
      by exists (Z.of_nat k).
Qed.

(** [create_window]: a fresh object, indexed under the id asked for. *)
Lemma create_window_spec s win ws :
  wm_ok s → win ≠ NO_WINDOW → workspaces s ≠ [] →
  wp (create_window win ws) (λ r s',
    wm_ok s' ∧ window_frame s s' ∧
    (∀ p w, wins s !! p = Some w → wins s' !! p = Some w) ∧
    match r with
    | None => s' = s
    | Some p => ∃ t, is_ws_valid s t = true ∧ (is_ws_valid s ws = true → t = ws) ∧
        window_workspace s' = <[win := t]> (window_workspace s) ∧
        (window_index s !! win = None → window_index s' = <[win := p]> (window_index s))
    end) s.
Proof.
  intros Hok Hwin Hne. unfold create_window. do 2 wp_step.
  assert (Hfac : ∀ w, match window_factory s with
      Some f => f win | None => Some (new_window win) end = Some w → id w = win).
  { intros w. destruct (window_factory s) as [f|] eqn:Hf; [|by intros [= <-]].
    by apply (ok_factory _ Hok). }
  destruct (match window_factory s with Some f => _ | None => _ end) as [w|] eqn:Hm;
    [|wp_step; done].
  specialize (Hfac w eq_refl). wp_step. apply wp_alloc. cbv beta.
  set (s1 := s <| wins := _ |> <| next_addr ::= _ |>).
  assert (Hok1 : wm_windows_ok s1) by (apply windows_ok_alloc, Hok).
  wp_step. eapply wp_mono; [eapply (add_window_spec s1 ws (next_addr s) w Hok1)|].
  - cbn. by rewrite lookup_insert_eq.
  - by rewrite Hfac.
  - done.
  - intros [] s' (Hok' & Hf & Hw & t & Ht & Hts & Hwo & Hix). wp_step.
    assert (Hf' : window_frame s s') by (etrans; [|exact Hf]; by constructor).
    split; [by eapply frame_ok|]. split; [done|]. split.
    { intros q v Hq. rewrite Hw. cbn. rewrite lookup_insert_ne; [done|]. intros <-.
      assert (next_addr s < next_addr s)%positive; [|lia].
      eapply (wok_fresh _ _ _ _ _ (ok_windows _ Hok)). by exists v. }
    rewrite Hfac in *. by exists t.
Qed.

Lemma unindex_ok s win :
  windows_ok (wins s) (next_addr s) (workspaces s)
    (delete win (window_index s)) (delete win (window_workspace s)) →
  wm_windows_ok (unindex_window win s).
Proof. done. Qed.

(** [remove_window_from_all]: afterwards the window is nowhere. *)
Lemma remove_window_from_all_spec s win :
  wm_windows_ok s →
  wp (remove_window_from_all win) (λ _ s',
    wm_windows_ok s' ∧ window_frame s s' ∧ wins s' = wins s ∧
    window_index s' = delete win (window_index s) ∧
    window_workspace s' = delete win (window_workspace s)) s.
Proof.
  intros Hok. unfold remove_window_from_all. do 2 wp_step.
  destruct (window_workspace s !! win) as [i|] eqn:Hwo.
  - rewrite (windows_ok_wo_valid _ _ _ Hok Hwo).
    assert (Hr := windows_ok_wo_range _ _ _ _ _ Hok _ _ Hwo).
    rewrite <- (Z2Nat.id i) in Hwo |- * by lia.
    wp_step. eapply wp_remove_indexed; [done..|].
    intros s1 Hok1 Hf1 Hw1 Hn1 Hix1 Hwo1. do 2 wp_step.
    apply wp_assert; [by apply unindex_ok|].
    split_and!; [by apply unindex_ok| |done|cbn; congruence..].
    etrans; [exact Hf1|]. by constructor.
  - wp_step. apply wp_remove_every_noop; [done..|]. do 2 wp_step.
    assert (Hix := windows_ok_ix_None _ _ _ _ _ Hok _ Hwo).
    apply wp_assert.
    + apply unindex_ok. by rewrite !delete_id.
    + split_and!; try done.
      unfold unindex_window, wm_windows_ok. cbn. by rewrite !delete_id.
Qed.
