(* ===== verification/Pools.v ===== *)
(** * Pools of workspaces and monitor topology

    The operations that distribute the workspaces over the monitors keep the
    invariant of [ManagerInv]: [rebuild_pools_from_owner], [assign_workspaces],
    [set_monitors], [init_from_defs], [switch_to], [switch_local_index],
    [focus_window], [adjust_monitor_inset]. *)

From S2P Require Import Prelude Geometry Workspace WorkspaceManager WindowIndex ManagerInv.
Local Open Scope Z_scope.

(** ** [find_index] and friends *)

Lemma find_index_Some {A} (P : A → bool) l i :
  0 ≤ i → find_index P l = i → ∃ a, l !! Z.to_nat i = Some a ∧ P a = true.
Proof.
  unfold find_index. destruct (index_where P l) as [k|] eqn:E; intros ? <-; [|lia].
  apply index_where_Some in E as [Hx _]. by rewrite Nat2Z.id.
Qed.

Lemma find_index_range {A} (P : A → bool) l :
  find_index P l = -1 ∨ 0 ≤ find_index P l < vsize l.
Proof.
  unfold find_index. destruct (index_where P l) as [k|] eqn:E; [right|by left].
  apply index_where_Some in E as [(a & Ha & _) _]. apply lookup_lt_Some in Ha.
  unfold vsize. lia.
Qed.

Lemma find_index_elem {A} (P : A → bool) l a : a ∈ l → P a = true → 0 ≤ find_index P l.
Proof.
  intros Ha HP. unfold find_index. destruct (index_where P l) eqn:E; [lia|].
  eapply index_where_None in E; [|done]. congruence.
Qed.

Lemma index_of_ws_in_pool_elem pool ws :
  ws ∈ pool → vget pool (index_of_ws_in_pool pool ws) = Some ws.
Proof.
  intros Hin. unfold index_of_ws_in_pool.
  pose proof (find_index_elem (λ i, i =? ws) pool ws Hin (Z.eqb_refl ws)) as Hr.
  destruct (find_index_Some _ _ _ Hr eq_refl) as (a & Ha & ->%Z.eqb_eq).
  unfold vget. by rewrite decide_True by done.
Qed.

Lemma monitor_of_range s ws :
  monitor_of s ws = -1 ∨ 0 ≤ monitor_of s ws < vsize (monitors s).
Proof.
  unfold monitor_of. destruct (_ || _); [by left|].
  destruct (vget _ _) as [o|]; [|by left].
  destruct (is_mon_valid s o) eqn:E; [right|by left]. by apply is_mon_valid_spec.
Qed.

(** ** [rebuild_pools_from_owner] *)

Section Rebuild.
Context (s : wm).
Let nws := length (workspaces s).
Let nmon := length (monitors s).
Hypothesis owner_len : length (ws_owner s) = nws.

(** What holds of the accumulators at any point of the loops. *)
Record acc_ok (acc : list (list Z) * list bool) : Prop := {
  ac_pools : length acc.1 = nmon;
  ac_placed : length acc.2 = nws;
  ac_pool : ∀ mon pool ws, acc.1 !! mon = Some pool → ws ∈ pool →
    ∃ i, ws = Z.of_nat i ∧ ws_owner s !! i = Some (Z.of_nat mon) ∧ acc.2 !! i = Some true;
  ac_nodup : ∀ mon pool, acc.1 !! mon = Some pool → NoDup pool;
  ac_back : ∀ i, acc.2 !! i = Some true →
    ∃ mon pool, acc.1 !! mon = Some pool ∧ Z.of_nat i ∈ pool }.

Lemma acc_ok_init : acc_ok (replicate nmon [], replicate nws false).
Proof.
  constructor; cbn.
  - apply length_replicate.
  - apply length_replicate.
  - intros mon pool ws [-> _]%lookup_replicate Hin. by apply elem_of_nil in Hin.
  - intros mon pool [-> _]%lookup_replicate. apply NoDup_nil_2.
  - intros i [? _]%lookup_replicate. done.
Qed.

Lemma append_if_owned_step acc mon ws :
  acc_ok acc →
  acc_ok (append_if_owned s acc (mon, ws)) ∧
  (∀ i, acc.2 !! i = Some true → (append_if_owned s acc (mon, ws)).2 !! i = Some true) ∧
  (∀ k i, mon = Z.of_nat k → ws = Z.of_nat i → (k < nmon)%nat →
     ws_owner s !! i = Some mon → (append_if_owned s acc (mon, ws)).2 !! i = Some true).
Proof.
  intros Hok. destruct acc as [pools placed]. unfold append_if_owned.
  destruct (is_mon_valid s mon) eqn:Hm; cbn [negb orb]; cycle 1.
  { split_and!; [done..|]. intros k i Ek Ei Hk _. subst mon ws. exfalso.
    assert (is_mon_valid s (Z.of_nat k) = true); [|congruence].
    apply is_mon_valid_spec. unfold vsize, nmon in *. lia. }
  destruct (is_ws_valid s ws) eqn:Hw; cbn [negb]; cycle 1.
  { split_and!; [done..|]. intros k i Ek Ei Hk Ho. subst mon ws. exfalso.
    assert (is_ws_valid s (Z.of_nat i) = true); [|congruence].
    apply lookup_lt_Some in Ho. apply is_ws_valid_spec. unfold vsize, nws in *. lia. }
  apply is_mon_valid_spec in Hm. apply is_ws_valid_spec in Hw.
  destruct (vget (ws_owner s) ws) as [o|] eqn:Ho; cycle 1.
  { exfalso. apply vget_None in Ho. unfold vsize, nws in *. lia. }
  apply vget_lookup in Ho as (i & -> & Ho).
  destruct (Z.eqb_spec o mon) as [->|Hne]; cbn [negb]; cycle 1.
  { split_and!; [done..|]. intros k j -> E Hk Ho'. apply Nat2Z.inj in E as ->. congruence. }
  destruct Hok as [Hp1 Hp2 Hp3 Hp4 Hp5]. cbn [fst snd] in *.
  assert (Hi : (i < length placed)%nat).
  { rewrite Hp2. apply lookup_lt_Some in Ho. lia. }
  rewrite vget_of_nat. destruct (lookup_lt_is_Some_2 _ _ Hi) as [b Hb]. rewrite Hb. cbn.
  destruct b.
  { split_and!; [by constructor|done|]. intros k j -> E Hk Ho'. by apply Nat2Z.inj in E as <-. }
  rewrite Nat2Z.id.
  set (k := Z.to_nat mon). assert (Hk : mon = Z.of_nat k) by (unfold k; lia).
  clearbody k. subst mon.
  split_and!; cycle 1.
  { intros j Hj. cbn. rewrite list_lookup_insert_ne; [done|]. intros ->. congruence. }
  { intros k' j E1 E2 _ _. cbn. apply Nat2Z.inj in E2 as <-. by apply list_lookup_insert_eq. }
  constructor; cbn.
  - by rewrite length_alter.
  - by rewrite length_insert.
  - intros mon pool ws Hl Hin.
    assert (Hcase : (ws = Z.of_nat i ∧ mon = k) ∨
      ∃ pool0, pools !! mon = Some pool0 ∧ ws ∈ pool0).
    { destruct (decide (k = mon)) as [->|Hne].
      - rewrite list_lookup_alter_eq in Hl.
        apply fmap_Some in Hl as (pool0 & Hl & ->).
        apply elem_of_app in Hin as [Hin| ->%list_elem_of_singleton]; [right; eauto|by left].
      - rewrite list_lookup_alter_ne in Hl by done. right; eauto. }
    destruct Hcase as [[-> ->]|(pool0 & Hl0 & Hin0)].
    + exists i. split_and!; [done..|]. by apply list_lookup_insert_eq.
    + destruct (Hp3 _ _ _ Hl0 Hin0) as (j & -> & Hj & Hpl). exists j.
      split_and!; [done..|]. rewrite list_lookup_insert_ne; [done|]. intros ->. congruence.
  - intros mon pool Hl. destruct (decide (k = mon)) as [->|Hne].
    + rewrite list_lookup_alter_eq in Hl. apply fmap_Some in Hl as (pool0 & Hl & ->).
      apply NoDup_app. split; [by eapply Hp4|]. split; [|apply NoDup_singleton].
      intros z Hz ->%list_elem_of_singleton.
      destruct (Hp3 _ _ _ Hl Hz) as (j & E & _ & Hpl). apply Nat2Z.inj in E as <-. congruence.
    + rewrite list_lookup_alter_ne in Hl by done. by eapply Hp4.
  - intros j [[-> _]|[Hne Hj]]%list_lookup_insert_Some.
    + destruct (lookup_lt_is_Some_2 pools k) as [pool Hpool].
      { rewrite Hp1. unfold vsize, nmon in *. lia. }
      exists k, (pool ++ [Z.of_nat j]). rewrite list_lookup_alter_eq, Hpool.
      split; [done|]. set_solver +.
    + destruct (Hp5 j Hj) as (mon & pool & Hl & Hin).
      destruct (decide (k = mon)) as [->|Hk].
      * exists mon, (pool ++ [Z.of_nat i]). rewrite list_lookup_alter_eq, Hl.
        split; [done|]. set_solver +Hin.
      * exists mon, pool. by rewrite list_lookup_alter_ne.
Qed.

Lemma append_all l acc :
  acc_ok acc →
  acc_ok (foldl (append_if_owned s) acc l) ∧
  (∀ i, acc.2 !! i = Some true → (foldl (append_if_owned s) acc l).2 !! i = Some true) ∧
  (∀ k i, (Z.of_nat k, Z.of_nat i) ∈ l → (k < nmon)%nat →
     ws_owner s !! i = Some (Z.of_nat k) →
     (foldl (append_if_owned s) acc l).2 !! i = Some true).
Proof.
  revert acc. induction l as [|[mon ws] l IH]; intros acc Hok.
  { split_and!; [done..|]. intros k i Hin. by apply elem_of_nil in Hin. }
  cbn [foldl].
  destruct (append_if_owned_step acc mon ws Hok) as (Hok' & Hmono & Hplace).
  destruct (IH _ Hok') as (H1 & H2 & H3). split_and!; [done|auto|].
  intros k i [E|Hin]%elem_of_cons Hk Ho; [|by eapply H3].
  injection E as <- <-. by apply H2, (Hplace k).
Qed.

(** Rebuilding gives consistent pools, from any seed, when every owner is -1
    or a monitor. *)
Lemma rebuild_pools_ok seed pref :
  (∀ i o, ws_owner s !! i = Some o → o = -1 ∨ 0 ≤ o < vsize (monitors s)) →
  wm_pools_ok (rebuild_pools_from_owner s seed pref).
Proof.
  intros Hown. unfold rebuild_pools_from_owner.
  set (l := concat _ ++ _).
  destruct (append_all l _ acc_ok_init) as (Hok & _ & Hplace).
  fold nmon nws. destruct (foldl _ _ l) as [pools placed] eqn:E.
  destruct Hok as [Hp1 Hp2 Hp3 Hp4 Hp5]. cbn [fst snd] in *.
  constructor; cbn; try done.
  - by rewrite length_imap.
  - intros mon pool ws Hl Hin. destruct (Hp3 _ _ _ Hl Hin) as (i & -> & Ho & _). by exists i.
  - intros i o Ho. destruct (Hown i o Ho) as [->|Hr]; [by left|right].
    assert (Hpl : placed !! i = Some true).
    { apply (Hplace (Z.to_nat o) i).
      - subst l. apply elem_of_app. right. apply list_elem_of_fmap. exists (Z.of_nat i).
        split; [|apply elem_of_range; apply lookup_lt_Some in Ho; unfold vsize, nws in *; lia].
        f_equal. unfold monitor_of. rewrite (proj2 (is_ws_valid_spec _ _)), vget_of_nat, Ho.
        + apply lookup_lt_Some in Ho. rewrite (proj2 (Z.leb_gt _ _)) by (unfold vsize; lia).
          cbn. rewrite (proj2 (is_mon_valid_spec _ _)) by done. lia.
        + apply lookup_lt_Some in Ho. unfold vsize, nws in *. lia.
      - unfold vsize, nmon in *. lia.
      - rewrite Z2Nat.id by lia. done. }
    destruct (Hp5 i Hpl) as (mon & pool & Hl & Hin).
    destruct (Hp3 _ _ _ Hl Hin) as (j & Ej & Hoj & _). apply Nat2Z.inj in Ej as <-.
    exists mon, pool. split; [congruence|done].
Qed.
End Rebuild.

Lemma rebuild_frame s seed pref :
  let s' := rebuild_pools_from_owner s seed pref in
  wins s' = wins s ∧ next_addr s' = next_addr s ∧ workspaces s' = workspaces s ∧
  monitors s' = monitors s ∧ ws_owner s' = ws_owner s ∧
  window_index s' = window_index s ∧ window_workspace s' = window_workspace s ∧
  focused_monitor s' = focused_monitor s ∧ window_factory s' = window_factory s.
Proof. unfold rebuild_pools_from_owner. by destruct (foldl _ _ _). Qed.

(** ** The focused monitor and the recorded active workspaces *)

Lemma select_valid_fields s :
  select_valid_focused_monitor s =
  s <| focused_monitor := focused_monitor (select_valid_focused_monitor s) |>.
Proof.
  unfold select_valid_focused_monitor. destruct (_ =? 0); [by destruct s|].
  destruct (is_mon_valid s _); destruct (0 <=? _); try (by destruct s);
    destruct (find _ _); by destruct s.
Qed.

Lemma select_valid_focus_ok s : focus_ok (select_valid_focused_monitor s).
Proof.
  unfold select_valid_focused_monitor, focus_ok.
  destruct (Z.eqb_spec (vsize (monitors s)) 0) as [E|E].
  { left. split; [by apply vsize_0|done]. }
  pose proof (vsize_nonneg (monitors s)).
  assert (Hr : ∀ s1, monitors s1 = monitors s → 0 ≤ focused_monitor s1 < vsize (monitors s) →
    let s2 := if 0 <=? active_ws_of_monitor s1 (focused_monitor s1) then s1
      else match find (λ i, 0 <=? active_ws_of_monitor s1 i) (range (vsize (monitors s1))) with
           | Some i => s1 <| focused_monitor := i |>
           | None => s1 <| focused_monitor := 0 |>
           end in
    0 ≤ focused_monitor s2 < vsize (monitors s2)).
  { intros s1 Hm Hf. cbv zeta. destruct (0 <=? _); [by rewrite Hm|].
    destruct (find _ _) as [i|] eqn:Hfd; cbn; rewrite Hm; [|lia].
    apply find_elem_of in Hfd as [Hi%elem_of_range _]. by rewrite Hm in Hi. }
  right. destruct (is_mon_valid s (focused_monitor s)) eqn:Hv.
  - apply Hr; [done|]. by apply is_mon_valid_spec.
  - apply Hr; [done|]. cbn. lia.
Qed.

Lemma sync_synced s : synced (sync_monitors_active_ws s).
Proof.
  intros i m Hm. unfold sync_monitors_active_ws in Hm. cbn in Hm.
  rewrite list_lookup_imap in Hm. by apply fmap_Some in Hm as (m0 & _ & ->).
Qed.

Lemma sync_length s : length (monitors (sync_monitors_active_ws s)) = length (monitors s).
Proof. cbn. by rewrite length_imap. Qed.

Lemma sync_ok s : wm_ok s → wm_ok (sync_monitors_active_ws s).
Proof.
  intros [Hw Hp Hf Hfa]. constructor; [done| | |done].
  - unfold wm_pools_ok in *. rewrite sync_length. exact Hp.
  - unfold focus_ok, vsize in *. rewrite sync_length. cbn.
    destruct Hf as [[E ?]|?]; [left|by right]. by rewrite E.
Qed.

Lemma select_valid_ok s :
  wm_windows_ok s → wm_pools_ok s → factory_ok s →
  wm_ok (select_valid_focused_monitor s).
Proof.
  intros Hw Hp Hfa. pose proof (select_valid_focus_ok s) as Hf.
  rewrite select_valid_fields in Hf |- *. by constructor.
Qed.

(** The common end of [assign_workspaces] and [set_monitors]. *)
Lemma rebuild_tail_ok s seed pref s1 :
  wm_windows_ok s → factory_ok s → length (ws_owner s) = length (workspaces s) →
  (∀ i o, ws_owner s !! i = Some o → o = -1 ∨ 0 ≤ o < vsize (monitors s)) →
  (∃ f, s1 = (rebuild_pools_from_owner s seed pref) <| focused_monitor := f |>) →
  wm_ok (sync_monitors_active_ws (select_valid_focused_monitor s1)) ∧
  synced (sync_monitors_active_ws (select_valid_focused_monitor s1)).
Proof.
  intros Hw Hfa Hlen Hown [f ->]. split; [|apply sync_synced].
  apply sync_ok, select_valid_ok.
  - destruct (rebuild_frame s seed pref) as (E1 & E2 & E3 & _ & _ & E4 & E5 & _).
    unfold wm_windows_ok. cbn. by rewrite E1, E2, E3, E4, E5.
  - apply (rebuild_pools_ok s Hlen seed pref Hown).
  - destruct (rebuild_frame s seed pref) as (_ & _ & _ & _ & _ & _ & _ & _ & E).
    unfold factory_ok. cbn. by rewrite E.
Qed.

(** ** [assign_workspaces] *)

Lemma round_robin_spec n rr l :
  0 ≤ rr < n → (∀ o, o ∈ l → o = -1 ∨ 0 ≤ o < n) →
  length (round_robin n rr l) = length l ∧ ∀ o, o ∈ round_robin n rr l → 0 ≤ o < n.
Proof.
  revert rr. induction l as [|a l IH]; intros rr Hrr Hl; cbn.
  { split; [done|]. intros o Ho. by apply elem_of_nil in Ho. }
  assert (Hl' : ∀ o, o ∈ l → o = -1 ∨ 0 ≤ o < n) by (intros o Ho; apply Hl; by right).
  destruct (Z.eqb_spec a (-1)) as [->|Hne]; cbn.
  - destruct (IH (Z.rem (rr + 1) n) ltac:(apply rem_range; lia) Hl') as [-> H].
    split; [done|]. intros o [->|Ho]%elem_of_cons; [done|auto].
  - destruct (IH rr Hrr Hl') as [-> H]. split; [done|].
    intros o [->|Ho]%elem_of_cons; [|auto]. destruct (Hl a ltac:(left)); lia.
Qed.

Lemma resolve_alias_range s name aliases :
  resolve_alias_monitor s name aliases = -1 ∨
  0 ≤ resolve_alias_monitor s name aliases < vsize (monitors s).
Proof.
  unfold resolve_alias_monitor, monitor_index_by_name.
  destruct (find _ _); apply find_index_range.
Qed.

Lemma primary_range s aliases compose :
  monitors s ≠ [] → 0 ≤ primary_monitor_index s aliases compose < vsize (monitors s).
Proof.
  intros Hne. pose proof (vsize_pos _ Hne). unfold primary_monitor_index.
  rewrite (proj2 (Z.eqb_neq _ _)) by lia.
  destruct (bool_decide _); [lia|].
  destruct (resolve_alias_range s (primary compose) aliases) as [E|E];
    destruct (Z.leb_spec 0 (resolve_alias_monitor s (primary compose) aliases)); lia.
Qed.

Lemma alias_owner_range s aliases ws o :
  o = -1 ∨ 0 ≤ o < vsize (monitors s) →
  alias_owner s aliases ws o = -1 ∨ 0 ≤ alias_owner s aliases ws o < vsize (monitors s).
Proof.
  intros Ho. unfold alias_owner. destruct (bool_decide _); [done|]. cbv zeta.
  destruct (resolve_alias_range s (monitor_alias ws) aliases) as [E|E].
  - rewrite E. cbn. destruct (is_mon_valid s o); auto.
  - rewrite (proj2 (Z.leb_le _ _)) by lia. by right.
Qed.

(** The owners [assign_workspaces] computes: every workspace gets a monitor. *)
Lemma assign_owner_range s aliases compose owner :
  monitors s ≠ [] → length owner = length (workspaces s) →
  let o1 := (λ o, if is_mon_valid s o then o else -1) <$> owner in
  let o2 := zip_with (alias_owner s aliases) (workspaces s) o1 in
  let rr := if primary_monitor_index s aliases compose <? 0 then 0
            else primary_monitor_index s aliases compose in
  let o3 := round_robin (vsize (monitors s)) rr o2 in
  length o3 = length (workspaces s) ∧ ∀ o, o ∈ o3 → 0 ≤ o < vsize (monitors s).
Proof.
  intros Hne Hlen. cbv zeta.
  pose proof (primary_range s aliases compose Hne) as Hp.
  rewrite (proj2 (Z.ltb_ge _ _)) by lia.
  destruct (round_robin_spec (vsize (monitors s)) (primary_monitor_index s aliases compose)
    (zip_with (alias_owner s aliases) (workspaces s)
       ((λ o, if is_mon_valid s o then o else -1) <$> owner))) as [Hl Hr]; [done| |].
  - intros o (a & b & -> & _ & Hb)%elem_of_zip_with.
    apply alias_owner_range. apply list_elem_of_fmap in Hb as (c & -> & _).
    destruct (is_mon_valid s c) eqn:E; [right|by left]. by apply is_mon_valid_spec.
  - split; [|done]. rewrite Hl, length_zip_with, length_fmap. lia.
Qed.

Lemma lookup_elem_range (l : list Z) n :
  (∀ o, o ∈ l → 0 ≤ o < n) → ∀ i o, l !! i = Some o → o = -1 ∨ 0 ≤ o < n.
Proof. intros H i o Ho%list_elem_of_lookup_2. right. auto. Qed.

Lemma assign_workspaces_ok aliases compose s :
  wm_windows_ok s → factory_ok s → focus_ok s →
  wm_ok (assign_workspaces aliases compose s) ∧ synced (assign_workspaces aliases compose s).
Proof.
  intros Hw Hfa Hf. unfold assign_workspaces. cbv zeta.
  set (owner := if (length (ws_owner s) =? _)%nat then _ else _).
  assert (Hlen : length owner = length (workspaces s)).
  { subst owner. destruct (Nat.eqb_spec (length (ws_owner s)) (length (workspaces s))); [done|].
    apply length_replicate. }
  destruct (Z.eqb_spec (vsize (monitors s)) 0) as [E|E].
  - apply vsize_0 in E. split.
    + constructor; [done| | |done].
      * constructor; cbn; rewrite ?E; try done.
        { rewrite length_replicate. done. }
        { intros i o [-> _]%lookup_replicate. by left. }
      * left. destruct Hf as [[_ ?]|Hf]; [done|].
        unfold vsize in Hf. rewrite E in Hf. cbn in Hf. lia.
    + intros i m Hm. cbn in Hm. by rewrite E in Hm.
  - assert (Hne : monitors s ≠ []) by (intros H; rewrite H in E; done).
    destruct (assign_owner_range s aliases compose owner Hne Hlen) as [Hl Hr].
    set (s1 := s <| ws_owner := _ |>).
    eapply (rebuild_tail_ok s1 (monitor_pools s1) _);
      [exact Hw|exact Hfa|exact Hl|by apply lookup_elem_range|].
    exists (focused_monitor s). unfold rebuild_pools_from_owner. by destruct (foldl _ _ _).
Qed.
