(* ===== verification/ManagerOps.v ===== *)
(** * The remaining mutators of the workspace manager keep its invariant

    Hot-plug ([set_monitors]), initialisation, workspace switching, focus,
    cursors, [zoom_focused] and the reload of the workspace definitions. *)

From S2P Require Import Prelude Geometry Workspace WorkspaceManager WindowIndex ManagerInv Pools.
Local Open Scope Z_scope.

(** ** [set_monitors] *)

Lemma elem_of_enumerate {A} (l : list A) i a : (i, a) ∈ enumerate l ↔ l !! i = Some a.
Proof.
  unfold enumerate. rewrite elem_of_lookup_imap. split.
  - by intros (j & b & [= -> ->] & ?).
  - intros ?. by exists i, a.
Qed.

(** The owners a seeding step produces stay in range. *)
Lemma seed_monitor_owner nws oi op oa acc im n :
  (∀ o, o ∈ sd_owner acc → o = -1 ∨ 0 ≤ o < n) → (Z.of_nat im.1 < n) →
  length (sd_owner (seed_monitor nws oi op oa acc im)) = length (sd_owner acc) ∧
  ∀ o, o ∈ sd_owner (seed_monitor nws oi op oa acc im) → o = -1 ∨ 0 ≤ o < n.
Proof.
  destruct im as [i m]. cbn [fst]. intros Hr Hi. unfold seed_monitor.
  destruct (oi !! mon_name m); [done|].
  destruct (sd_parked acc !! mon_name m) as [pool|]; [|done]. cbn.
  revert Hr. generalize (sd_owner acc). induction pool as [|ws pool IH]; intros l Hr; [done|].
  cbn. destruct (_ && _); [|by apply IH].
  destruct (IH (<[Z.to_nat ws := Z.of_nat i]> l)) as [Hl H2].
  { intros o [j Hj]%list_elem_of_lookup.
    apply lookup_insert_Some_or in Hj as [[_ <-]|[_ Hj]]; [right; lia|].
    apply Hr. by eapply list_elem_of_lookup_2. }
  rewrite length_insert in Hl. done.
Qed.

Lemma seed_monitors_owner nws oi op oa l acc n :
  (∀ o, o ∈ sd_owner acc → o = -1 ∨ 0 ≤ o < n) →
  (∀ im, im ∈ l → Z.of_nat im.1 < n) →
  length (sd_owner (foldl (seed_monitor nws oi op oa) acc l)) = length (sd_owner acc) ∧
  ∀ o, o ∈ sd_owner (foldl (seed_monitor nws oi op oa) acc l) → o = -1 ∨ 0 ≤ o < n.
Proof.
  revert acc. induction l as [|im l IH]; intros acc Hr Hl; [done|]. cbn.
  destruct (seed_monitor_owner nws oi op oa acc im n Hr (Hl im ltac:(left))) as [H1 H2].
  destruct (IH _ H2) as [H3 H4]; [intros ??; apply Hl; by right|].
  split; [congruence|done].
Qed.

Lemma carry_owner_range s mons i :
  carry_owner s mons i = -1 ∨ 0 ≤ carry_owner s mons i < vsize mons.
Proof.
  unfold carry_owner. destruct (ws_owner s !! i) as [o|]; [|by left].
  destruct (vget _ _); [|by left]. apply find_index_range.
Qed.

Lemma set_monitors_ok mons s :
  wm_windows_ok s → factory_ok s →
  wm_ok (set_monitors mons s) ∧ synced (set_monitors mons s).
Proof.
  intros Hw Hfa. unfold set_monitors. cbv zeta.
  destruct (foldl _ (parked_pools s, parked_active_ws s) _) as [parked parked_active].
  set (acc := foldl (seed_monitor _ _ _ _) _ _).
  destruct (seed_monitors_owner (vsize (workspaces s))
    (foldl (λ idx '(i, m), <[mon_name m := i]> idx) ∅ (enumerate (monitors s)))
    (monitor_pools s)
    (imap (λ i _, if (i <? length (monitor_pools s))%nat &&
                     (i <? length (monitor_active_local s))%nat
       then active_ws_of_monitor s (Z.of_nat i) else NO_WORKSPACE) (monitors s))
    (enumerate mons)
    (mkSeeding (carry_owner s mons <$> seq 0 (length (workspaces s))) [] [] parked parked_active)
    (vsize mons)) as [Hl Hr].
  { cbn. intros o (i & -> & _)%list_elem_of_fmap. apply carry_owner_range. }
  { intros [i m] Hi%elem_of_enumerate. apply lookup_lt_Some in Hi. cbn. unfold vsize. lia. }
  fold acc in Hl, Hr. cbn in Hl. rewrite length_fmap, length_seq in Hl.
  set (s1 := s <| monitors := _ |> <| parked_pools := _ |> <| parked_active_ws := _ |>
               <| ws_owner := _ |>).
  eapply (rebuild_tail_ok s1 (sd_pools acc) (sd_active acc)); [exact Hw|exact Hfa|exact Hl| |].
  - intros i o Ho%list_elem_of_lookup_2. by apply Hr.
  - set (s2 := rebuild_pools_from_owner s1 _ _).
    destruct (0 <=? _); [by eexists|]. destruct (_ <=? _); [by eexists|].
    exists (focused_monitor s2). by destruct s2.
Qed.

(** ** [init_from_defs] *)

Lemma windows_ok_empty h nx wss :
  (∀ p, is_Some (h !! p) → (p < nx)%positive) →
  (∀ i ws, wss !! i = Some ws → ws_id ws = Z.of_nat i ∧ windows ws = [] ∧ current ws = -1) →
  windows_ok h nx wss ∅ ∅.
Proof.
  intros Hfr Hws. constructor; try done.
  - intros i ws Hi. destruct (Hws i ws Hi) as (? & E & ?). rewrite E.
    split_and!; [done|by left|apply NoDup_nil_2].
  - intros i ws p Hi Hin. destruct (Hws i ws Hi) as (_ & E & _). rewrite E in Hin.
    by apply elem_of_nil in Hin.
Qed.

Lemma range_lookup n i z : range n !! i = Some z → z = Z.of_nat i.
Proof.
  unfold range. rewrite list_lookup_fmap. intros (k & Hk & ->)%fmap_Some.
  apply lookup_seq in Hk as [-> _]. done.
Qed.

Lemma init_workspaces_lookup defs i ws :
  init_workspaces defs !! i = Some ws →
  ws_id ws = Z.of_nat i ∧ windows ws = [] ∧ current ws = -1.
Proof.
  unfold init_workspaces. generalize 9. intros n. destruct defs as [|d defs].
  - rewrite list_lookup_fmap. intros (z & ->%range_lookup & ->)%fmap_Some. done.
  - rewrite list_lookup_imap. by intros (d' & _ & ->)%fmap_Some.
Qed.

Lemma init_tail_ok wss aliases compose s :
  (∀ i ws, wss !! i = Some ws → ws_id ws = Z.of_nat i ∧ windows ws = [] ∧ current ws = -1) →
  wm_windows_ok s → factory_ok s → focus_ok s →
  let s1 := s <| workspaces := wss |> <| window_index := ∅ |> <| window_workspace := ∅ |>
       <| parked_pools := ∅ |> <| parked_active_ws := ∅ |>
       <| ws_owner := replicate (length wss) (-1) |>
       <| monitor_pools := replicate (length (monitors s)) [] |>
       <| monitor_active_local := replicate (length (monitors s)) (-1) |> in
  wm_ok (assign_workspaces aliases compose s1) ∧ synced (assign_workspaces aliases compose s1).
Proof.
  intros Hwss Hw Hfa Hf s1. apply assign_workspaces_ok; [|done|done].
  apply windows_ok_empty; [apply Hw|done].
Qed.

Lemma init_from_defs_ok defs aliases compose s :
  wm_windows_ok s → factory_ok s → focus_ok s →
  wm_ok (init_from_defs defs aliases compose s) ∧
  synced (init_from_defs defs aliases compose s).
Proof. apply init_tail_ok. apply init_workspaces_lookup. Qed.

(** ** Insets *)

Lemma adjust_monitor_inset_ok mon e d s :
  wm_ok s → wm_ok (adjust_monitor_inset mon e d s) ∧
  (synced s → synced (adjust_monitor_inset mon e d s)).
Proof.
  intros Hok. unfold adjust_monitor_inset.
  destruct (vget (monitors s) mon) as [m|] eqn:Hm; [|done].
  destruct (d =? 0); [done|]. apply vget_lookup in Hm as (k & -> & Hk). rewrite Nat2Z.id.
  destruct Hok as [Hw Hp Hf Hfa]. split.
  - constructor; [done| | |done].
    + unfold wm_pools_ok in *. cbn. by rewrite length_insert.
    + unfold focus_ok in *. cbn. rewrite vsize_insert.
      destruct Hf as [[E ?]|?]; [left|by right]. rewrite E. by rewrite E in Hk.
  - intros Hs i m' [[<- <-]|[_ Hi]]%lookup_insert_Some_or.
    + rewrite adjust_inset_active_ws. by apply Hs.
    + by apply Hs.
Qed.

(** ** Switching workspaces *)

Lemma active_local_ok s mon li :
  wm_ok s → wm_ok (s <| monitor_active_local := <[mon := li]> (monitor_active_local s) |>).
Proof.
  intros [Hw Hp Hf Hfa]. constructor; [done| |done|done].
  destruct Hp. constructor; cbn; try done. by rewrite length_insert.
Qed.

Lemma switch_local_index_ok s mon idx :
  wm_ok s →
  wp (switch_local_index mon idx) (λ r s', wm_ok s' ∧ (synced s → synced s') ∧
    wins s' = wins s ∧ workspaces s' = workspaces s ∧ focused_monitor s' = focused_monitor s ∧
    (r = false → s' = s) ∧
    (r = true → vget (monitor_pools s) mon ≫= (λ pool, vget pool idx) =
                Some (active_ws_of_monitor s' mon))) s.
Proof.
  intros Hok. unfold switch_local_index. do 2 wp_step.
  destruct (vget (monitor_pools s) mon) as [pool|] eqn:Hpool; [|by wp_step].
  destruct (_ || _) eqn:Hr; [by wp_step|].
  apply orb_false_iff in Hr as [Hr1%Z.ltb_ge Hr2%Z.leb_gt].
  pose proof (vget_Some_range _ _ _ Hpool) as Hm.
  destruct Hok as [Hw Hp Hf Hfa] eqn:Eok. clear Eok.
  assert (Hlen : vsize (monitor_active_local s) = vsize (monitor_pools s)).
  { unfold vsize. by rewrite (po_active_len _ _ _ _ _ Hp), (po_pools_len _ _ _ _ _ Hp). }
  wp_step. apply wp_put_active_local; [lia|]. do 3 wp_step.
  split; [by apply sync_ok, active_local_ok|]. split; [intros _; apply sync_synced|].
  split_and!; try done. intros _.
  cbn. unfold active_ws_of_monitor. cbn. rewrite Hpool, vget_insert_eq by lia.
  destruct (vget_is_Some pool idx ltac:(lia)) as [w Hwi]. rewrite Hwi.
  destruct pool; [|done]. apply vget_Some_range in Hwi. unfold vsize in Hwi; cbn in Hwi; lia.
Qed.

Lemma switch_target_range s ws aliases hint compose :
  monitors s ≠ [] → 0 ≤ switch_target s ws aliases hint compose < vsize (monitors s).
Proof.
  intros Hne. pose proof (primary_range s aliases compose Hne) as Hp. unfold switch_target.
  destruct (is_mon_valid s hint) eqn:E1; [by apply is_mon_valid_spec|]. cbv zeta.
  set (a := if bool_decide _ then -1 else _).
  assert (Ht : is_mon_valid s (if is_mon_valid s a then a
                 else primary_monitor_index s aliases compose) = true).
  { destruct (is_mon_valid s a) eqn:E; [exact E|]. by apply is_mon_valid_spec. }
  rewrite Ht. by apply is_mon_valid_spec.
Qed.

Lemma monitor_of_lookup s i o :
  wm_pools_ok s → ws_owner s !! i = Some o →
  monitor_of s (Z.of_nat i) = o ∧ (o = -1 ∨ 0 ≤ o < vsize (monitors s)).
Proof.
  intros Hp Ho. pose proof (lookup_lt_Some _ _ _ Ho) as Hlt.
  pose proof Hlt as Hlt'. rewrite (po_owner_len _ _ _ _ _ Hp) in Hlt'.
  unfold monitor_of. rewrite (proj2 (is_ws_valid_spec _ _)) by (unfold vsize; lia).
  rewrite (proj2 (Z.leb_gt _ _)) by (unfold vsize; lia). cbn. rewrite vget_of_nat, Ho.
  destruct (po_owner _ _ _ _ _ Hp i o Ho) as [->|(mon & pool & -> & Hl & _)].
  - split; [done|by left].
  - apply lookup_lt_Some in Hl. rewrite (po_pools_len _ _ _ _ _ Hp) in Hl.
    rewrite (proj2 (is_mon_valid_spec _ _)) by (unfold vsize; lia).
    split; [done|right]. unfold vsize; lia.
Qed.

(** A workspace no pool holds is given to a monitor: owner and pool together. *)
Lemma pools_ok_adopt nws nmon owner pools active i t pool :
  pools_ok nws nmon owner pools active → owner !! i = Some (-1) →
  pools !! t = Some pool →
  pools_ok nws nmon (<[i := Z.of_nat t]> owner) (<[t := pool ++ [Z.of_nat i]]> pools) active.
Proof.
  intros [H1 H2 H3 H4 H5 H6] Ho Ht.
  assert (Hno : ∀ mon pool, pools !! mon = Some pool → Z.of_nat i ∉ pool).
  { intros mon pl Hl Hin. destruct (H4 _ _ _ Hl Hin) as (j & E & Hj).
    apply Nat2Z.inj in E as <-. rewrite Ho in Hj. injection Hj. lia. }
  constructor.
  - by rewrite length_insert.
  - by rewrite length_insert.
  - done.
  - intros mon pl ws [[<- <-]|[Hne Hl]]%lookup_insert_Some_or Hin.
    + apply elem_of_app in Hin as [Hin| ->%list_elem_of_singleton].
      * destruct (H4 _ _ _ Ht Hin) as (j & -> & Hj). exists j. split; [done|].
        rewrite list_lookup_insert_ne; [done|]. intros <-. rewrite Ho in Hj. injection Hj. lia.
      * exists i. split; [done|]. apply list_lookup_insert_eq. by eapply lookup_lt_Some.
    + destruct (H4 _ _ _ Hl Hin) as (j & -> & Hj). exists j. split; [done|].
      rewrite list_lookup_insert_ne; [done|]. intros <-. rewrite Ho in Hj. injection Hj. lia.
  - intros mon pl [[<- <-]|[Hne Hl]]%lookup_insert_Some_or; [|by eapply H5].
    apply NoDup_app. split; [by eapply H5|]. split; [|apply NoDup_singleton].
    intros z Hz ->%list_elem_of_singleton. by eapply Hno.
  - intros j o [[<- <-]|[Hne Hj]]%lookup_insert_Some_or.
    + right. exists t, (pool ++ [Z.of_nat i]).
      rewrite list_lookup_insert_eq by (by eapply lookup_lt_Some).
      split_and!; [done|done|set_solver +].
    + destruct (H6 j o Hj) as [->|(mon & pl & -> & Hl & Hin)]; [by left|right].
      destruct (decide (t = mon)) as [->|Hne'].
      * exists mon, (pool ++ [Z.of_nat i]). simplify_eq.
        rewrite list_lookup_insert_eq by (by eapply lookup_lt_Some).
        split_and!; [done|done|set_solver +Hin].
      * exists mon, pl. by rewrite list_lookup_insert_ne.
Qed.

Lemma pools_ok_len_owner s : wm_pools_ok s → vsize (ws_owner s) = vsize (workspaces s).
Proof. intros Hp. unfold vsize. by rewrite (po_owner_len _ _ _ _ _ Hp). Qed.
Lemma pools_ok_len_pools s : wm_pools_ok s → vsize (monitor_pools s) = vsize (monitors s).
Proof. intros Hp. unfold vsize. by rewrite (po_pools_len _ _ _ _ _ Hp). Qed.
Lemma pools_ok_len_active s :
  wm_pools_ok s → vsize (monitor_active_local s) = vsize (monitors s).
Proof. intros Hp. unfold vsize. by rewrite (po_active_len _ _ _ _ _ Hp). Qed.

(** Writing the active position of a monitor that has the workspace there. *)
Lemma activate_active s mon li pool ws :
  wm_pools_ok s → vget (monitor_pools s) mon = Some pool → vget pool li = Some ws →
  active_ws_of_monitor
    (s <| monitor_active_local := <[Z.to_nat mon := li]> (monitor_active_local s) |>) mon = ws.
Proof.
  intros Hp Hpool Hws. pose proof (vget_Some_range _ _ _ Hpool) as Hr.
  rewrite pools_ok_len_pools in Hr by done.
  unfold active_ws_of_monitor. cbn. rewrite Hpool.
  rewrite vget_insert_eq by (by rewrite pools_ok_len_active). rewrite Hws.
  destruct pool; [|done]. apply vget_Some_range in Hws. unfold vsize in Hws. cbn in Hws. lia.
Qed.

(** [switch_to] of an existing workspace: it becomes the active workspace of
    its monitor; ownership, the windows and the focused monitor stay. *)
Lemma switch_to_spec s wsi aliases hint compose :
  wm_ok s → is_ws_valid s wsi = true → monitors s ≠ [] →
  wp (switch_to wsi aliases hint compose) (λ r s',
    r = true ∧ wm_ok s' ∧ synced s' ∧ focused_monitor s' = focused_monitor s ∧
    wins s' = wins s ∧ workspaces s' = workspaces s ∧
    window_index s' = window_index s ∧ window_workspace s' = window_workspace s ∧
    length (monitors s') = length (monitors s) ∧
    0 ≤ monitor_of s' wsi ∧ active_ws_of_monitor s' (monitor_of s' wsi) = wsi ∧
    (0 ≤ monitor_of s wsi → monitor_of s' wsi = monitor_of s wsi)) s.
Proof.
  intros Hok Hv Hne. unfold switch_to. do 2 wp_step. rewrite Hv. cbn [negb orb].
  rewrite (proj2 (Z.eqb_neq _ _)) by (pose proof (vsize_pos _ Hne); lia).
  pose proof (ok_pools _ Hok) as Hp.
  destruct (valid_lookup _ _ Hv) as (i & ws & -> & Hi).
  destruct (lookup_lt_is_Some_2 (ws_owner s) i) as [o Ho].
  { rewrite (po_owner_len _ _ _ _ _ Hp). by eapply lookup_lt_Some. }
  destruct (monitor_of_lookup _ _ _ Hp Ho) as [Hmo Hor]. rewrite Hmo.
  (* the state in which the workspace is in the pool of its monitor *)
  assert (Hfin : ∀ s1 t li pool,
    wm_ok s1 → ws_owner s1 !! i = Some t → vget (monitor_pools s1) t = Some pool →
    vget pool li = Some (Z.of_nat i) → workspaces s1 = workspaces s → wins s1 = wins s →
    window_index s1 = window_index s → window_workspace s1 = window_workspace s →
    monitors s1 = monitors s → focused_monitor s1 = focused_monitor s →
    (0 ≤ o → t = o) →
    wp (put_active_local t li ;; modify sync_monitors_active_ws ;; ret true) (λ r s',
      r = true ∧ wm_ok s' ∧ synced s' ∧ focused_monitor s' = focused_monitor s ∧
      wins s' = wins s ∧ workspaces s' = workspaces s ∧
      window_index s' = window_index s ∧ window_workspace s' = window_workspace s ∧
      length (monitors s') = length (monitors s) ∧
      0 ≤ monitor_of s' (Z.of_nat i) ∧
      active_ws_of_monitor s' (monitor_of s' (Z.of_nat i)) = Z.of_nat i ∧
      (0 ≤ o → monitor_of s' (Z.of_nat i) = o)) s1).
  { intros s1 t li pool Hok1 Ho1 Hpool Hli E1 E2 E3 E4 E5 E6 Hto.
    pose proof (ok_pools _ Hok1) as Hp1.
    pose proof (vget_Some_range _ _ _ Hpool) as Hr. rewrite pools_ok_len_pools in Hr by done.
    wp_step. apply wp_put_active_local; [by rewrite pools_ok_len_active|].
    do 3 wp_step. set (s2 := s1 <| monitor_active_local := _ |>).
    assert (Hok2 : wm_ok s2) by (by apply active_local_ok).
    assert (Hok3 : wm_ok (sync_monitors_active_ws s2)) by (by apply sync_ok).
    destruct (monitor_of_lookup (sync_monitors_active_ws s2) i t (ok_pools _ Hok3) Ho1)
      as [-> _].
    split_and!; try done; [apply sync_synced|rewrite sync_length; cbn; by rewrite E5|lia|].
    by eapply (activate_active s1). }
  destruct Hor as [->|Hor].
  - (* unowned: adopt it *)
    cbn [Z.ltb Z.compare]. wp_step. wp_step. eapply wp_at_ws; [done|]. cbv zeta.
    pose proof (switch_target_range s ws aliases hint compose Hne) as Ht.
    set (t := switch_target s ws aliases hint compose) in *.
    wp_step. eapply wp_try_modify.
    { rewrite vset_of_nat; [done|]. by eapply lookup_lt_Some. }
    wp_step. do 2 wp_step.
    destruct (vget_is_Some (monitor_pools s) t) as [pool Hpool].
    { by rewrite pools_ok_len_pools. }
    pose proof Hpool as (k & Ek & Hk)%vget_lookup.
    assert (Hnin : Z.of_nat i ∉ pool).
    { intros Hin. destruct (po_pool _ _ _ _ _ Hp _ _ _ Hk Hin) as (j & Ej & Hj).
      apply Nat2Z.inj in Ej as <-. rewrite Ho in Hj. injection Hj. lia. }
    assert (Hli : local_index_of (s <| ws_owner := <[i := t]> (ws_owner s) |>) t (Z.of_nat i) = -1).
    { unfold local_index_of. cbn. rewrite Hpool. unfold index_of_ws_in_pool.
      unfold find_index. destruct (index_where _ _) eqn:E; [|done].
      apply index_where_Some in E as [(z & Hz & ->%Z.eqb_eq) _].
      by apply list_elem_of_lookup_2 in Hz. }
    rewrite Hli. cbn [Z.ltb Z.compare]. wp_step. wp_step.
    eapply wp_checked; [exact Hpool|]. wp_step. eapply wp_try_modify.
    { rewrite vset_is_Some; [done|]. cbn. by rewrite pools_ok_len_pools. }
    wp_step. eapply (Hfin _ t (vsize pool) (pool ++ [Z.of_nat i])); try done.
    + constructor; [apply Hok| |apply Hok|apply Hok].
      rewrite Ek, Nat2Z.id. cbn. by apply pools_ok_adopt.
    + cbn. apply list_lookup_insert_eq. by eapply lookup_lt_Some.
    + cbn. apply vget_insert_eq. by rewrite pools_ok_len_pools.
    + unfold vsize. rewrite vget_of_nat. by apply list_lookup_middle.
  - rewrite (proj2 (Z.ltb_ge _ _)) by lia. do 4 wp_step.
    destruct (po_owner _ _ _ _ _ Hp i o Ho) as [->|(mon & pool & -> & Hl & Hin)]; [lia|].
    assert (Hpool : vget (monitor_pools s) (Z.of_nat mon) = Some pool) by (by rewrite vget_of_nat).
    pose proof (index_of_ws_in_pool_elem _ _ Hin) as Hidx.
    unfold local_index_of. rewrite Hpool.
    rewrite (proj2 (Z.ltb_ge _ _)) by (apply vget_Some_range in Hidx; lia).
    do 2 wp_step. by eapply Hfin.
Qed.

Lemma switch_to_false s wsi aliases hint compose :
  is_ws_valid s wsi = false ∨ monitors s = [] →
  switch_to wsi aliases hint compose s = Some (false, s).
Proof.
  intros H. unfold switch_to, bind, gets, ret. destruct H as [->| ->]; [done|].
  cbn. by rewrite orb_true_r.
Qed.
