(* ===== verification/ManagerFocus.v ===== *)
(** * Focus, cursors and [zoom_focused] of the workspace manager

    The invariant through these mutators, and what each does to the cursor of
    a workspace and to the focused monitor. *)

From S2P Require Import Prelude Geometry Workspace WorkspaceManager WindowIndex ManagerInv Pools ManagerOps.
Local Open Scope Z_scope.

(** Storing a workspace that holds the same windows. *)
Lemma put_ws_ok s k ws ws' :
  wm_ok s → workspaces s !! k = Some ws → ws_id ws' = ws_id ws →
  windows ws' ≡ₚ windows ws → cursor_ok ws' →
  wm_ok (s <| workspaces := <[k := ws']> (workspaces s) |>) ∧
  window_frame s (s <| workspaces := <[k := ws']> (workspaces s) |>).
Proof.
  intros Hok Hk Hid Hperm Hcur.
  assert (Hf : window_frame s (s <| workspaces := <[k := ws']> (workspaces s) |>)).
  { constructor; try done. cbn. by rewrite length_insert. }
  split; [|done]. eapply frame_ok; [exact Hf| |done].
  by eapply windows_ok_put; [apply Hok|..].
Qed.

(** Changing the attributes of a window. *)
Lemma modify_window_ok s p w w' :
  wm_ok s → wins s !! p = Some w → id w' = id w →
  wm_ok (s <| wins := <[p := w']> (wins s) |>) ∧
  window_frame s (s <| wins := <[p := w']> (wins s) |>).
Proof.
  intros Hok Hw Hid.
  assert (Hf : window_frame s (s <| wins := <[p := w']> (wins s) |>)) by by constructor.
  split; [|done]. eapply frame_ok; [exact Hf| |done].
  by eapply windows_ok_modify; [apply Hok|..].
Qed.

(** Making a valid monitor the focused one. *)
Lemma focused_monitor_ok s mon :
  wm_ok s → is_mon_valid s mon = true → wm_ok (s <| focused_monitor := mon |>).
Proof.
  intros [Hw Hp Hf Hfa] Hv%is_mon_valid_spec. constructor; try done. by right.
Qed.

Lemma set_focused_monitor_ok s mon :
  wm_ok s → wm_ok (set_focused_monitor s mon) ∧
  (synced s → synced (set_focused_monitor s mon)).
Proof.
  intros Hok. unfold set_focused_monitor. destruct (is_mon_valid s mon) eqn:E; [|done].
  split; [by apply focused_monitor_ok|done].
Qed.

Lemma focus_monitor_at_point_ok s p :
  wm_ok s → wm_ok (focus_monitor_at_point p s).2 ∧
  (synced s → synced (focus_monitor_at_point p s).2).
Proof.
  intros Hok. unfold focus_monitor_at_point.
  destruct (Z.ltb_spec (monitor_at_physical_point s p) 0); [done|]. cbn.
  split; [|done]. apply focused_monitor_ok; [done|]. apply is_mon_valid_spec.
  destruct (find_index_range (λ m, physical_contains m p) (monitors s)) as [E|E];
    unfold monitor_at_physical_point in *; lia.
Qed.

(** Where a window of the index is. *)
Lemma indexed_window s win i :
  wm_windows_ok s → window_workspace s !! win = Some i →
  ∃ k ws j p w, i = Z.of_nat k ∧ workspaces s !! k = Some ws ∧ ws_id ws = Z.of_nat k ∧
    index_where (holds (wins s) (λ w, id w =? win)) (windows ws) = Some j ∧
    windows ws !! j = Some p ∧ wins s !! p = Some w ∧ id w = win ∧
    win ≠ NO_WINDOW ∧ window_index s !! win = Some p.
Proof.
  intros Hok Hwo. destruct (wok_wo _ _ _ _ _ Hok _ _ Hwo) as [p Hix].
  destruct (wok_ix _ _ _ _ _ Hok _ _ Hix) as (w & k & ws & Hw & Hid & Hwo' & Hk & Hp).
  destruct (wok_ws _ _ _ _ _ Hok _ _ Hk) as (Hwid & _ & _).
  destruct (wok_win _ _ _ _ _ Hok _ _ _ Hk Hp) as (v & Hv & Hne & _ & _).
  destruct (index_where (holds (wins s) (λ w, id w =? win)) (windows ws)) as [j|] eqn:Hj.
  - pose proof Hj as [(q & Hq & Hh) _]%index_where_Some.
    unfold holds in Hh. destruct (wins s !! q) as [u|] eqn:Hu; [|done].
    apply Z.eqb_eq in Hh.
    destruct (windows_ok_inj _ _ _ _ _ Hok k k ws ws q p u w) as [-> _]; try done.
    { by eapply list_elem_of_lookup_2. }
    { congruence. }
    exists k, ws, j, p, w. split_and!; congruence.
  - exfalso. eapply index_where_None in Hj; [|exact Hp].
    unfold holds in Hj. rewrite Hw, Hid, Z.eqb_refl in Hj. done.
Qed.

(** ** [focus_window] *)

(** What [focus_window] leaves alone. *)
Record focus_frame (s s' : wm) : Prop := {
  ff_ix : window_index s' = window_index s;
  ff_wo : window_workspace s' = window_workspace s;
  ff_owner : ws_owner s' = ws_owner s;
  ff_pools : monitor_pools s' = monitor_pools s;
  ff_len : length (workspaces s') = length (workspaces s);
  ff_mons : length (monitors s') = length (monitors s) }.

#[export] Instance focus_frame_refl : Reflexive focus_frame.
Proof. by constructor. Qed.

Lemma monitor_of_frame s s' ws :
  ws_owner s' = ws_owner s → length (workspaces s') = length (workspaces s) →
  length (monitors s') = length (monitors s) → monitor_of s' ws = monitor_of s ws.
Proof.
  intros E1 E2 E3. unfold monitor_of, is_ws_valid, is_mon_valid, vsize.
  by rewrite E1, E2, E3.
Qed.

(** The last step of [focus_window]: the owning monitor shows the workspace. *)
Lemma focus_owner_spec s k mon :
  wm_ok s → (k < length (workspaces s))%nat → monitor_of s (Z.of_nat k) = mon →
  wp (if 0 <=? mon then
        (li <- gets (λ s, local_index_of s mon (Z.of_nat k)) ;;
         (if 0 <=? li then put_active_local mon li else ret tt) ;;
         modify (λ s, sync_monitors_active_ws (s <| focused_monitor := mon |>)))
      else ret tt) (λ _ s',
    wm_ok s' ∧ (synced s → synced s') ∧ focus_frame s s' ∧
    wins s' = wins s ∧ workspaces s' = workspaces s ∧
    (0 ≤ mon → focused_monitor s' = mon ∧ active_ws_of_monitor s' mon = Z.of_nat k ∧
       ∀ m, m ≠ mon → active_ws_of_monitor s' m = active_ws_of_monitor s m)) s.
Proof.
  intros Hok Hk Hmon. pose proof (ok_pools _ Hok) as Hp. wp_step.
  2: { wp_step. split_and!; try done. intros ?. apply Z.leb_gt in Heqb. lia. }
  apply Z.leb_le in Heqb.
  destruct (lookup_lt_is_Some_2 (ws_owner s) k) as [o Ho].
  { by rewrite (po_owner_len _ _ _ _ _ Hp). }
  destruct (monitor_of_lookup _ _ _ Hp Ho) as [E _]. rewrite E in Hmon. subst o.
  destruct (po_owner _ _ _ _ _ Hp k mon Ho) as [->|(m & pool & -> & Hl & Hin)]; [lia|].
  assert (Hpool : vget (monitor_pools s) (Z.of_nat m) = Some pool) by (by rewrite vget_of_nat).
  pose proof (index_of_ws_in_pool_elem _ _ Hin) as Hidx.
  do 2 wp_step. unfold local_index_of. rewrite Hpool.
  rewrite (proj2 (Z.leb_le _ _)) by (apply vget_Some_range in Hidx; lia).
  pose proof (vget_Some_range _ _ _ Hpool) as Hr. rewrite pools_ok_len_pools in Hr by done.
  wp_step. apply wp_put_active_local; [by rewrite pools_ok_len_active|].
  wp_step. set (s2 := _ <| monitor_active_local := _ |>).
  assert (Hok2 : wm_ok (s2 <| focused_monitor := Z.of_nat m |>)).
  { apply focused_monitor_ok; [by apply active_local_ok|]. by apply is_mon_valid_spec. }
  split_and!; try done.
  - by apply sync_ok.
  - intros _. apply sync_synced.
  - constructor; try done. exact (sync_length (s2 <| focused_monitor := Z.of_nat m |>)).
  - intros _. split_and!; [done|by eapply (activate_active s)|].
    intros m' Hm'. unfold active_ws_of_monitor. cbn. rewrite vget_insert_ne by lia. done.
Qed.

(** [focus_window] moves the cursor of the window's workspace to it, clears
    its urgency and makes its monitor show the workspace, and the focused one. *)
Lemma focus_window_spec s win :
  wm_ok s →
  wp (focus_window win) (λ r s',
    wm_ok s' ∧ (synced s → synced s') ∧ focus_frame s s' ∧
    r = bool_decide (is_Some (window_workspace s !! win)) ∧
    (r = false → s' = s) ∧
    (∀ i, window_workspace s !! win = Some i →
      ∃ k ws j p w, i = Z.of_nat k ∧ workspaces s !! k = Some ws ∧
        windows ws !! j = Some p ∧ wins s !! p = Some w ∧ id w = win ∧
        wins s' = <[p := w <| urgent := false |>]> (wins s) ∧
        workspaces s' = <[k := ws <| current := Z.of_nat j |>]> (workspaces s) ∧
        (0 ≤ monitor_of s i → focused_monitor s' = monitor_of s i ∧
           active_ws_of_monitor s' (monitor_of s i) = i ∧
           ∀ m, m ≠ monitor_of s i → active_ws_of_monitor s' m = active_ws_of_monitor s m))) s.
Proof.
  intros Hok. unfold focus_window. do 2 wp_step.
  destruct (window_workspace s !! win) as [i|] eqn:Hwo.
  2: { wp_step. by split_and!. }
  rewrite (windows_ok_wo_valid _ _ _ (ok_windows _ Hok) Hwo). cbn [negb].
  destruct (indexed_window _ _ _ (ok_windows _ Hok) Hwo)
    as (k & ws & j & p & w & -> & Hk & Hid & Hj & Hp & Hw & Hwin & _ & _).
  pose proof (lookup_lt_Some _ _ _ Hk) as Hlt.
  wp_step. eapply wp_at_ws; [done|]. rewrite Hj.
  wp_step. apply wp_put_ws; [done|].
  destruct (put_ws_ok s k ws (ws <| current := Z.of_nat j |>) Hok Hk) as [Hok1 Hf1]; [done..| |].
  { right. cbn. apply lookup_lt_Some in Hp. unfold vsize. lia. }
  wp_step. eapply wp_checked; [done|]. wp_step. eapply wp_modify_window; [done|].
  set (s1 := s <| workspaces := _ |>) in *.
  destruct (modify_window_ok s1 p w (w <| urgent := false |>) Hok1 Hw ltac:(done)) as [Hok2 Hf2].
  set (s2 := s1 <| wins := _ |>) in *. rewrite Hid.
  assert (Hf : window_frame s s2) by (by etrans).
  assert (Hmon : monitor_of s2 (Z.of_nat k) = monitor_of s (Z.of_nat k)).
  { apply monitor_of_frame; [apply Hf|apply Hf|by rewrite (fr_monitors _ _ Hf)]. }
  do 2 wp_step. change (monitor_of _ (Z.of_nat k)) with (monitor_of s2 (Z.of_nat k)).
  rewrite Hmon. wp_step.
  assert (Hlt2 : (k < length (workspaces s2))%nat) by (by rewrite (fr_len _ _ Hf)).
  eapply wp_mono; [exact (focus_owner_spec s2 k _ Hok2 Hlt2 Hmon)|].
  cbv beta. intros [] s3 (Hok3 & Hsy & [] & Hw3 & Hws3 & Hact). wp_step.
  split_and!; try done.
  - constructor; try done. etrans; [eassumption|]. by apply Hf.
  - intros i [= <-]. exists k, ws, j, p, w. done.
Qed.

(** ** Cursors *)

Lemma current_ws_index_valid s i : current_ws_index s = Some i → is_ws_valid s i = true.
Proof.
  unfold current_ws_index. destruct (Z.eqb_spec (vsize (workspaces s)) 0); [done|].
  destruct (is_ws_valid s (active_ws_of_monitor s (focused_monitor s))) eqn:E;
    [by intros [= <-]|].
  destruct (find _ _) eqn:Hfi; intros [= <-]; [by apply find_elem_of in Hfi as [_ ?]|].
  apply is_ws_valid_spec. pose proof (vsize_nonneg (workspaces s)). lia.
Qed.

Lemma move_cursor_spec s step :
  wm_ok s →
  (∀ h ws, cursor_ok ws → cursor_ok (step h ws)) →
  (∀ h ws, step h ws = ws <| current := current (step h ws) |>) →
  wp (move_cursor step) (λ r s',
    wm_ok s' ∧ window_frame s s' ∧ wins s' = wins s ∧
    window_index s' = window_index s ∧ window_workspace s' = window_workspace s ∧
    r = ws_focused (wins s') (current_ws s')) s.
Proof.
  intros Hok Hcur Hfields. unfold move_cursor. do 3 wp_step.
  destruct (current_ws_index s) as [i|] eqn:Hi.
  2: { do 2 wp_step. done. }
  pose proof (current_ws_index_valid _ _ Hi) as Hv.
  destruct (valid_lookup _ _ Hv) as (k & ws & -> & Hk).
  wp_step. eapply wp_at_ws; [done|]. apply wp_put_ws; [by eapply lookup_lt_Some|]. wp_step.
  destruct (wok_ws _ _ _ _ _ (ok_windows _ Hok) _ _ Hk) as (_ & Hc & _).
  destruct (put_ws_ok s k ws (step (wins s) ws) Hok Hk) as [Hok1 Hf1]; [..|done].
  - by rewrite Hfields.
  - by rewrite Hfields.
  - by apply Hcur.
Qed.

(** ** [zoom_focused] *)

Lemma swap_at_spec l i j a b :
  vget l i = Some a → vget l j = Some b →
  ∃ l', swap_at l i j = Some l' ∧ l' ≡ₚ l ∧ vget l' i = Some b ∧ vget l' j = Some a.
Proof.
  intros Ha Hb. unfold swap_at. rewrite Ha, Hb.
  pose proof (vget_Some_range _ _ _ Ha) as Hi. pose proof (vget_Some_range _ _ _ Hb) as Hj.
  rewrite (vset_is_Some l i b Hi). cbn. rewrite vset_is_Some by (by rewrite vsize_insert).
  eexists. split; [done|]. apply vget_lookup in Ha as (ki & -> & Ha).
  apply vget_lookup in Hb as (kj & -> & Hb). rewrite !Nat2Z.id in *.
  split; [by apply Permutation_insert_swap|]. split.
  - rewrite vget_of_nat. destruct (decide (kj = ki)) as [->|Hne].
    + rewrite list_lookup_insert_eq; [congruence|].
      rewrite length_insert. by eapply lookup_lt_Some.
    + rewrite list_lookup_insert_ne by done. apply list_lookup_insert_eq.
      by eapply lookup_lt_Some.
  - rewrite vget_of_nat. apply list_lookup_insert_eq. rewrite length_insert.
    by eapply lookup_lt_Some.
Qed.

Lemma tiled_positions_range h ws i :
  i ∈ tiled_positions h ws → ∃ p, vget (windows ws) i = Some p.
Proof.
  unfold tiled_positions. intros [Hi _]%list_elem_of_filter.
  destruct (vget (windows ws) i); [by eexists|done].
Qed.

Lemma vget_inj {A} (l : list A) i j a :
  NoDup l → vget l i = Some a → vget l j = Some a → i = j.
Proof.
  intros Hnd (k & -> & Hi)%vget_lookup (k' & -> & Hj)%vget_lookup. f_equal.
  by eapply NoDup_lookup.
Qed.

Lemma tiled_positions_inj h ws i j a b :
  vget (tiled_positions h ws) i = Some a → vget (tiled_positions h ws) j = Some b →
  i ≠ j → a ≠ b.
Proof.
  intros Hi Hj Hne ->. apply Hne. eapply vget_inj; [|done..].
  apply NoDup_filter, NoDup_fmap_2; [|apply NoDup_seq]. intros ??. lia.
Qed.

(** [zoom_focused] exchanges two windows of the current workspace, and the
    cursor follows the window that was focused. *)
Lemma zoom_focused_spec s :
  wm_ok s →
  wp zoom_focused (λ r s',
    wm_ok s' ∧ window_frame s s' ∧ wins s' = wins s ∧
    window_index s' = window_index s ∧ window_workspace s' = window_workspace s ∧
    (r = false → s' = s) ∧
    (r = true → ∃ k ws ws' f, current_ws_index s = Some (Z.of_nat k) ∧
       workspaces s !! k = Some ws ∧ workspaces s' = <[k := ws']> (workspaces s) ∧
       windows ws' ≡ₚ windows ws ∧ ws_focused (wins s) ws = Some f ∧
       vget (windows ws') (current ws') = Some f ∧ windows ws' ≠ windows ws)) s.
Proof.
  intros Hok. unfold zoom_focused. do 2 wp_step.
  destruct (current_ws_index s) as [i|] eqn:Hi; [|by wp_step].
  destruct (valid_lookup _ _ (current_ws_index_valid _ _ Hi)) as (k & ws & -> & Hk).
  wp_step. eapply wp_at_ws; [done|].
  destruct (ws_focused (wins s) ws) as [f|] eqn:Hf; [|by wp_step].
  destruct (holds (wins s) floating f); [by wp_step|]. cbv zeta.
  set (tiled := tiled_positions (wins s) ws).
  destruct (Z.ltb_spec (vsize tiled) 2) as [Hs|Hs]; [by wp_step|].
  set (fpos := find_index _ tiled).
  destruct (Z.ltb_spec fpos 0) as [Hf0|Hf0]; [by wp_step|].
  destruct (find_index_Some _ tiled fpos Hf0 eq_refl) as (ip & Hip & Hpf%bool_decide_eq_true).
  destruct (vget_is_Some tiled 0 ltac:(lia)) as [a Ha].
  set (o := if fpos =? 0 then 1 else fpos).
  assert (Hip' : vget tiled fpos = Some ip) by (unfold vget; by rewrite decide_True).
  pose proof (vget_Some_range _ _ _ Hip') as Hfr.
  assert (Ho : 0 < o < vsize tiled) by (subst o; destruct (Z.eqb_spec fpos 0); lia).
  destruct (vget_is_Some tiled o ltac:(lia)) as [b Hb].
  assert (Hab : a ≠ b) by (by eapply (tiled_positions_inj _ _ 0 o); [..|lia]).
  destruct (tiled_positions_range (wins s) ws a) as [pa Hpa]; [by eapply vget_elem_of|].
  destruct (tiled_positions_range (wins s) ws b) as [pb Hpb]; [by eapply vget_elem_of|].
  wp_step. eapply wp_checked; [done|]. wp_step. eapply wp_checked; [done|].
  destruct (swap_at_spec _ _ _ _ _ Hpa Hpb) as (l & Hl & Hperm & Hla & Hlb).
  wp_step. eapply wp_checked; [done|]. wp_step. apply wp_put_ws; [by eapply lookup_lt_Some|].
  wp_step. set (ws' := ws <| windows := l |> <| current := _ |>).
  assert (Hcur : vget (windows ws') (current ws') = Some f).
  { cbn. subst o. destruct (Z.eqb_spec fpos 0) as [E|E]; rewrite ?E in *; congruence. }
  destruct (put_ws_ok s k ws ws' Hok Hk) as [Hok1 Hf1]; [done|done| |].
  { by apply vget_Some_range in Hcur; right. }
  split_and!; try done. intros _. exists k, ws, ws', f. split_and!; try done.
  cbn. intros El. rewrite El in Hla. destruct (wok_ws _ _ _ _ _ (ok_windows _ Hok) _ _ Hk)
    as (_ & _ & Hnd).
  apply Hab. by eapply (vget_inj (windows ws)).
Qed.

(** ** Reload of the workspace definitions ([update_workspace_defs])

    With a non-empty list of definitions the reload runs without undefined
    behaviour, keeps the invariant of the manager, leaves exactly as many
    workspaces as definitions, and loses no window: the windows of a workspace
    that goes away move to a workspace that stays. *)

(** ** The window index *)

(** Dropping workspaces that hold no window. *)
Lemma windows_ok_take h nx wss ix wo n :
  windows_ok h nx wss ix wo →
  (∀ i ws, (n ≤ i)%nat → wss !! i = Some ws → windows ws = []) →
  windows_ok h nx (take n wss) ix wo.
Proof.
  intros Hok Hempty. constructor.
  - intros i ws [Hi _]%lookup_take_Some. by eapply wok_ws.
  - intros i ws p [Hi _]%lookup_take_Some. by eapply wok_win.
  - intros win p Hx.
    destruct (wok_ix _ _ _ _ _ Hok _ _ Hx) as (w & i & ws & Hw & Hid & Hwo & Hi & Hp).
    exists w, i, ws. split_and!; try done. apply lookup_take_Some. split; [done|].
    destruct (decide (n ≤ i)%nat) as [Hn|Hn]; [|lia].
    rewrite (Hempty i ws Hn Hi) in Hp. by apply elem_of_nil in Hp.
  - by eapply wok_wo.
  - by eapply wok_fresh.
Qed.

(** Appending an empty workspace. *)
Lemma windows_ok_append h nx wss ix wo ws :
  windows_ok h nx wss ix wo →
  ws_id ws = Z.of_nat (length wss) → windows ws = [] → current ws = -1 →
  windows_ok h nx (wss ++ [ws]) ix wo.
Proof.
  intros Hok Hid Hwin Hcur. constructor.
  - intros i v [Hi|[Hi E]]%lookup_app_Some; [by eapply wok_ws|].
    apply list_lookup_singleton_Some in E as [E <-]. split_and!.
    + rewrite Hid. f_equal. lia.
    + by left.
    + rewrite Hwin. apply NoDup_nil_2.
  - intros i v p [Hi|[Hi E]]%lookup_app_Some Hin; [by eapply wok_win|].
    apply list_lookup_singleton_Some in E as [E <-]. rewrite Hwin in Hin.
    by apply elem_of_nil in Hin.
  - intros win p Hx.
    destruct (wok_ix _ _ _ _ _ Hok _ _ Hx) as (w & i & v & Hw & ? & ? & Hi & Hp).
    exists w, i, v. split_and!; try done. by apply lookup_app_l_Some.
  - by eapply wok_wo.
  - by eapply wok_fresh.
Qed.

(** The state while the windows of workspace [src] are moved to [dst]: the
    windows not yet moved, [rest], would make the index consistent if they were
    the content of [src]. *)
Definition moving (s : wm) (src : nat) (rest : list addr) : Prop :=
  ∃ v, windows v = rest ∧
    windows_ok (wins s) (next_addr s) (<[src := v]> (workspaces s))
      (window_index s) (window_workspace s).

Lemma moving_step s src dst p rest wd w :
  moving s src (p :: rest) → src ≠ dst → (src < length (workspaces s))%nat →
  workspaces s !! dst = Some wd → wins s !! p = Some w →
  id w ≠ NO_WINDOW ∧ window_index s !! id w = Some p ∧
  window_workspace s !! id w = Some (Z.of_nat src) ∧
  moving (s <| workspaces := <[dst := ws_add_window wd p]> (workspaces s) |>
            <| window_index := <[id w := p]> (window_index s) |>
            <| window_workspace := <[id w := Z.of_nat dst]> (window_workspace s) |>) src rest.
Proof.
  intros (v & Hv & Hok) Hne Hlt Hd Hw.
  assert (Hsrc : <[src := v]> (workspaces s) !! src = Some v)
    by (by apply list_lookup_insert_eq).
  destruct (wok_win _ _ _ _ _ Hok src v p Hsrc) as (w' & Hw' & Hid & Hix & Hwo).
  { rewrite Hv. left. }
  assert (Hww : w' = w) by congruence. subst w'. split_and!; try done.
  destruct (windows_ok_remove _ _ _ _ _ Hok _ _ _ Hwo Hsrc) as [_ Hok'].
  destruct (ws_remove_window (wins s) v (id w)) as [v' b] eqn:Hr. cbn in Hok'.
  assert (Hv' : windows v' = rest).
  { unfold ws_remove_window in Hr. rewrite Hv in Hr. cbn in Hr.
    unfold holds in Hr. rewrite Hw, Z.eqb_refl in Hr. simplify_eq/=. by rewrite Hv. }
  rewrite list_insert_insert_eq in Hok'. exists v'. split; [done|]. cbn.
  rewrite list_insert_insert_ne by done.
  rewrite <- (insert_delete_eq (window_index s)), <- (insert_delete_eq (window_workspace s)).
  eapply windows_ok_add; [exact Hok'|..]; try done.
  - by rewrite list_lookup_insert_ne.
  - apply lookup_delete_eq.
Qed.

(** ** The workspaces that go away *)

Lemma fallback_range s n ws :
  wm_pools_ok s → 0 < n → 0 ≤ fallback_for n s ws < n.
Proof.
  intros Hp Hn. unfold fallback_for. set (mon := default (-1) _).
  destruct (vget (monitor_pools s) mon) as [pool|] eqn:Hpool; [|lia].
  destruct (find _ pool) as [i|] eqn:Hf; cbn; [|lia].
  apply find_elem_of in Hf as [Hin Hlt%Z.ltb_lt].
  apply vget_lookup in Hpool as (k & _ & Hk).
  destruct (po_pool _ _ _ _ _ Hp _ _ _ Hk Hin) as (j & -> & _). lia.
Qed.

(** The definition a workspace was made from. *)
Definition ws_def (ws : Workspace) : WorkspaceDef :=
  mkWorkspaceDef (ws_name ws) (monitor_alias ws).

Lemma ws_def_insert (l : list Workspace) (k : nat) ws ws' :
  l !! k = Some ws → ws_def ws' = ws_def ws → ws_def <$> <[k := ws']> l = ws_def <$> l.
Proof.
  intros Hk E. rewrite list_fmap_insert, E. apply list_insert_id.
  by rewrite list_lookup_fmap, Hk.
Qed.

(** What moving windows between workspaces leaves alone: the objects, the set
    of windows, and the workspace of every window not in [src]. *)
Record displaced (s s' : wm) (src : nat → Prop) (n : Z) : Prop := {
  dp_frame : window_frame s s';
  dp_wins : wins s' = wins s;
  dp_next : next_addr s' = next_addr s;
  dp_ix : window_index s' = window_index s;
  dp_wo : ∀ win i, window_workspace s !! win = Some (Z.of_nat i) → ¬ src i →
    window_workspace s' !! win = Some (Z.of_nat i);
  dp_ws : ∀ i, n ≤ Z.of_nat i → ¬ src i → workspaces s' !! i = workspaces s !! i;
  dp_names : ws_def <$> workspaces s' = ws_def <$> workspaces s }.

Lemma displace_window_step s s1 src n dst p rest :
  moving s1 src (p :: rest) → displaced s s1 (λ i, i = src) n →
  n ≤ Z.of_nat src → (src < length (workspaces s1))%nat → Z.of_nat dst < n →
  (dst < length (workspaces s1))%nat →
  wp (h <- gets wins ;;
      match h !! p with
      | None => ret tt
      | Some w => add_to_ws (Z.of_nat dst) p ;; modify (index_window (id w) p (Z.of_nat dst))
      end) (λ _ s2, moving s2 src rest ∧ displaced s s2 (λ i, i = src) n ∧
        workspaces s2 !! src = workspaces s1 !! src) s1.
Proof.
  intros Hmv Hdp Hn Hsrc Hdn Hdst. do 2 wp_step.
  destruct (lookup_lt_is_Some_2 _ _ Hdst) as [wd Hd].
  assert (Hw : is_Some (wins s1 !! p)).
  { destruct Hmv as (v & Hv & Hok). destruct (wok_win _ _ _ _ _ Hok src v p) as (w & Hw & _).
    - by apply list_lookup_insert_eq.
    - rewrite Hv. left.
    - by eexists. }
  destruct Hw as [w Hw]. rewrite Hw.
  destruct (moving_step s1 src dst p rest wd w Hmv ltac:(lia) Hsrc Hd Hw)
    as (Hid & Hix & Hwo & Hmv').
  unfold add_to_ws. do 2 wp_step. eapply wp_at_ws; [done|]. apply wp_put_ws; [done|].
  wp_step. unfold index_window. cbn.
  rewrite (proj2 (Z.eqb_neq _ _) Hid), bool_decide_false by congruence.
  unfold is_ws_valid. cbn. rewrite vsize_insert.
  rewrite (proj2 (andb_true_iff _ _)) by (unfold vsize; lia). cbn.
  split; [exact Hmv'|]. split; [|by rewrite list_lookup_insert_ne by lia].
  destruct Hdp as [[] E1 E2 E3 E4 E5 E6]. constructor; cbn; try done.
  - constructor; cbn; try done. by rewrite length_insert.
  - rewrite <- E3. by apply insert_id.
  - intros win i Hi Hne. rewrite lookup_insert_ne; [by apply E4|].
    intros <-. rewrite (E4 _ _ Hi Hne) in Hwo. apply Hne. injection Hwo. lia.
  - intros i Hi Hne. rewrite list_lookup_insert_ne by lia. by apply E5.
  - erewrite ws_def_insert; [exact E6|done|]. unfold ws_add_window. by case_match.
Qed.

Lemma displace_ws_spec s n src ws :
  wm_ok s → 0 < n → n ≤ Z.of_nat src → workspaces s !! src = Some ws →
  wp (displace_ws n (Z.of_nat src)) (λ _ s', wm_ok s' ∧ displaced s s' (λ i, i = src) n ∧
    ∃ ws', workspaces s' !! src = Some ws' ∧ windows ws' = []) s.
Proof.
  intros Hok Hn Hsrc Hws. pose proof (lookup_lt_Some _ _ _ Hws) as Hlt.
  unfold displace_ws. do 2 wp_step.
  pose proof (fallback_range s n (Z.of_nat src) (ok_pools _ Hok) Hn) as Hr.
  rewrite <- (Z2Nat.id (fallback_for n s (Z.of_nat src))) by lia.
  set (dst := Z.to_nat (fallback_for n s (Z.of_nat src))).
  assert (Hdst : Z.of_nat dst < n) by lia. clearbody dst. clear Hr.
  wp_step. eapply wp_at_ws; [done|]. wp_step.
  eapply wp_mono; [apply wp_for_each_prefix with (I := λ pre s1,
    moving s1 src (drop (length pre) (windows ws)) ∧ displaced s s1 (λ i, i = src) n ∧
    workspaces s1 !! src = Some ws)|].
  - intros pre p post s1 E (Hmv & Hdp & Hs1). rewrite E, drop_app_length in Hmv.
    pose proof (fr_len _ _ (dp_frame _ _ _ _ Hdp)) as Hl.
    eapply wp_mono; [apply (displace_window_step s s1 src n dst p post); try done; lia|].
    cbv beta. intros [] s2 (Hmv2 & Hdp2 & Hs2). rewrite E. split_and!; [|done|congruence].
    by rewrite length_app, <- drop_drop, drop_app_length.
  - split_and!; [|by constructor|done].
    exists ws. split; [done|]. rewrite list_insert_id by done. apply Hok.
  - cbv beta. intros [] s1 ((v & Hv & Hok1) & Hdp & Hs1). rewrite drop_all in Hv.
    wp_step. eapply wp_at_ws; [done|]. apply wp_put_ws; [by eapply lookup_lt_Some|].
    set (ws' := ws <| windows := [] |> <| current := -1 |>).
    assert (Hlt1 : (src < length (workspaces s1))%nat) by (by eapply lookup_lt_Some).
    destruct Hdp as [Hf E1 E2 E3 E4 E5 E6].
    assert (Hf' : window_frame s (s1 <| workspaces := <[src := ws']> (workspaces s1) |>)).
    { etrans; [exact Hf|]. constructor; cbn; try done. by rewrite length_insert. }
    split_and!.
    + eapply frame_ok; [exact Hf'| |exact Hok]. unfold wm_windows_ok. cbn.
      rewrite <- (list_insert_insert_eq _ _ ws' v).
      destruct (wok_ws _ _ _ _ _ Hok1 src v) as (Hid & _); [by apply list_lookup_insert_eq|].
      destruct (wok_ws _ _ _ _ _ (ok_windows _ Hok) src ws Hws) as (Hid' & _).
      eapply windows_ok_put; [exact Hok1|by apply list_lookup_insert_eq|cbn; congruence| |].
      * by rewrite Hv.
      * by left.
    + constructor; cbn; try done.
      * intros i Hi Hne. rewrite list_lookup_insert_ne by done. by apply E5.
      * by erewrite ws_def_insert.
    + exists ws'. split; [|done]. by apply list_lookup_insert_eq.
Qed.

Lemma displaced_trans s1 s2 s3 P Q n :
  displaced s1 s2 P n → displaced s2 s3 Q n → displaced s1 s3 (λ i, P i ∨ Q i) n.
Proof.
  intros [] []. constructor; try congruence.
  - by etrans.
  - intros win i Hi HPQ. apply dp_wo1; [apply dp_wo0|]; naive_solver.
  - intros i Hi HPQ. rewrite dp_ws1, dp_ws0; naive_solver.
Qed.

Lemma displaced_weaken s s' (P Q : nat → Prop) n :
  (∀ i, P i → Q i) → displaced s s' P n → displaced s s' Q n.
Proof. intros HPQ []. constructor; eauto. Qed.

Lemma displace_all_spec s n m :
  wm_ok s → 0 < n → n + m ≤ vsize (workspaces s) →
  wp (for_each ((λ i, n + i) <$> range m) (displace_ws n)) (λ _ s',
    wm_ok s' ∧ displaced s s' (λ i, n ≤ Z.of_nat i < n + m) n ∧
    ∀ i ws, n ≤ Z.of_nat i < n + m → workspaces s' !! i = Some ws → windows ws = []) s.
Proof.
  intros Hok Hn Hm. set (l := (λ i, n + i) <$> range m).
  assert (Hl : ∀ z, z ∈ l ↔ n ≤ z < n + m).
  { intros z. unfold l. rewrite list_elem_of_fmap. split.
    - intros (i & -> & Hi%elem_of_range). lia.
    - intros ?. exists (z - n). rewrite elem_of_range. lia. }
  eapply wp_mono; [apply wp_for_each_prefix with (I := λ pre s1,
    wm_ok s1 ∧ displaced s s1 (λ i, Z.of_nat i ∈ pre) n ∧
    ∀ i ws, Z.of_nat i ∈ pre → workspaces s1 !! i = Some ws → windows ws = [])|].
  - intros pre z post s1 E (Hok1 & Hdp & Hem).
    assert (Hz : n ≤ z < n + m) by (apply Hl; rewrite E; set_solver +).
    pose proof (fr_len _ _ (dp_frame _ _ _ _ Hdp)) as Hlen.
    destruct (lookup_lt_is_Some_2 (workspaces s1) (Z.to_nat z)) as [ws Hws].
    { unfold vsize in *. lia. }
    rewrite <- (Z2Nat.id z) by lia. set (k := Z.to_nat z) in *.
    eapply wp_mono; [by apply (displace_ws_spec s1 n k ws Hok1 Hn); [lia|]|].
    cbv beta. intros [] s2 (Hok2 & Hdp2 & ws2 & Hws2 & Hem2). split_and!; [done| |].
    + eapply displaced_weaken; [|by eapply displaced_trans].
      intros i [Hi| ->]; apply elem_of_app; [by left|right; by left].
    + intros i ws' Hi Hws'. destruct (decide (i = k)) as [->|Hne]; [congruence|].
      assert (Hi' : Z.of_nat i ∈ pre).
      { apply elem_of_app in Hi as [?|E'%list_elem_of_singleton]; [done|lia]. }
      apply (Hem i ws' Hi'). rewrite <- Hws'. symmetry. apply (dp_ws _ _ _ _ Hdp2); [|done].
      apply (Hl (Z.of_nat i)). rewrite E. set_solver +Hi'.
  - split_and!; [done| |]; [by constructor|]. intros i ws Hi. by apply elem_of_nil in Hi.
  - cbv beta. intros [] s1 (Hok1 & Hdp & Hem). split_and!; [done| |].
    + eapply displaced_weaken; [|done]. intros i. apply Hl.
    + intros i ws Hi. by apply Hem, Hl.
Qed.

(** ** Monitors and pools *)

Lemma reactivate_spec s n mon :
  wm_ok s → 0 ≤ mon < vsize (monitors s) →
  wp (reactivate n mon) (λ _ s', wm_ok s' ∧
    ∃ l, s' = s <| monitor_active_local := l |>) s.
Proof.
  intros Hok Hmon. pose proof (ok_pools _ Hok) as Hp.
  assert (Hskip : wm_ok s ∧ ∃ l, s = s <| monitor_active_local := l |>).
  { split; [done|]. exists (monitor_active_local s). by destruct s. }
  assert (Hput : ∀ li, wp (put_active_local mon li)
    (λ _ s', wm_ok s' ∧ ∃ l, s' = s <| monitor_active_local := l |>) s).
  { intros li. apply wp_put_active_local; [by rewrite pools_ok_len_active|].
    split; [by apply active_local_ok|]. by eexists. }
  unfold reactivate. do 2 wp_step. cbv zeta. wp_step; [|by wp_step].
  destruct (vget_is_Some (monitor_pools s) mon) as [pool Hpool];
    [by rewrite pools_ok_len_pools|].
  wp_step. eapply wp_checked; [done|]. wp_step; [apply Hput|]. wp_step; [by wp_step|apply Hput].
Qed.

Lemma reactivate_all_spec s n :
  wm_ok s →
  wp (for_each (range (vsize (monitors s))) (reactivate n)) (λ _ s', wm_ok s' ∧
    ∃ l, s' = s <| monitor_active_local := l |>) s.
Proof.
  intros Hok. apply wp_for_each.
  - intros mon s1 Hmon%elem_of_range (Hok1 & l & E).
    assert (Hm : monitors s1 = monitors s) by (by rewrite E).
    eapply wp_mono; [apply reactivate_spec; [done|by rewrite Hm]|].
    cbv beta. intros [] s2 (Hok2 & l2 & ->). split; [done|]. exists l2. by rewrite E.
  - split; [done|]. exists (monitor_active_local s). by destruct s.
Qed.

Lemma pools_ok_prune nws nmon owner pools active n :
  pools_ok nws nmon owner pools active → (Z.to_nat n ≤ nws)%nat →
  pools_ok (Z.to_nat n) nmon (resize (Z.to_nat n) 0 owner) (prune n <$> pools) active.
Proof.
  intros [H1 H2 H3 H4 H5 H6] Hn.
  assert (Hres : resize (Z.to_nat n) 0 owner = take (Z.to_nat n) owner)
    by (apply resize_le; lia).
  rewrite Hres. constructor.
  - rewrite length_take. lia.
  - by rewrite length_fmap.
  - done.
  - intros mon pool ws. rewrite list_lookup_fmap. intros (pl & Hl & ->)%fmap_Some.
    intros [Hlt Hin]%list_elem_of_filter. destruct (H4 _ _ _ Hl Hin) as (i & -> & Hi).
    exists i. split; [done|]. apply lookup_take_Some. split; [done|lia].
  - intros mon pool. rewrite list_lookup_fmap. intros (pl & Hl & ->)%fmap_Some.
    by eapply NoDup_filter, H5.
  - intros i o [Ho Hi]%lookup_take_Some. destruct (H6 i o Ho) as [->|(mon & pl & -> & Hl & Hin)];
      [by left|right].
    exists mon, (prune n pl). rewrite list_lookup_fmap, Hl. split_and!; [done|done|].
    apply list_elem_of_filter. split; [lia|done].
Qed.

Lemma shrink_workspaces_spec s n :
  wm_ok s → 0 < n ≤ vsize (workspaces s) →
  wp (shrink_workspaces n (vsize (workspaces s))) (λ _ s',
    wm_ok s' ∧ vsize (workspaces s') = n ∧ monitors s' = monitors s ∧
    wins s' = wins s ∧ window_index s' = window_index s ∧
    ws_def <$> workspaces s' = take (Z.to_nat n) (ws_def <$> workspaces s) ∧
    ∀ win i, window_workspace s !! win = Some i → i < n → window_workspace s' !! win = Some i) s.
Proof.
  intros Hok Hn. unfold shrink_workspaces. wp_step.
  eapply wp_mono; [apply (displace_all_spec s n); [done|lia|lia]|].
  cbv beta. intros [] s1 (Hok1 & Hdp & Hem). do 3 wp_step.
  eapply wp_mono; [by apply reactivate_all_spec|].
  cbv beta. intros [] s2 (Hok2 & l & E). wp_step.
  destruct Hdp as [[] D1 D2 D3 D4 D5 D6].
  assert (Hws2 : workspaces s2 = workspaces s1) by (by rewrite E).
  assert (Hlen : vsize (workspaces s2) = vsize (workspaces s))
    by (unfold vsize; by rewrite Hws2, fr_len).
  assert (Hn2 : (Z.to_nat n ≤ length (workspaces s2))%nat) by (unfold vsize in *; lia).
  destruct Hok2 as [Hw Hp Hf Hfa]. split_and!.
  - constructor; [|unfold wm_pools_ok; cbn|exact Hf|exact Hfa].
    + apply windows_ok_take; [exact Hw|]. intros i ws Hi Hws. cbn in Hws. rewrite Hws2 in Hws.
      apply (Hem i ws); [|done]. apply lookup_lt_Some in Hws. rewrite <- Hws2 in Hws.
      unfold vsize in *. lia.
    + rewrite length_take_le by done. by eapply pools_ok_prune; [exact Hp|].
  - unfold vsize. cbn. rewrite length_take_le by done. lia.
  - cbn. by rewrite E.
  - cbn. by rewrite E.
  - cbn. by rewrite E.
  - cbn. by rewrite fmap_take, Hws2, D6.
  - intros win i Hwi Hi. cbn. rewrite E. cbn.
    pose proof (windows_ok_wo_range _ _ _ _ _ (ok_windows _ Hok) _ _ Hwi) as Hr.
    rewrite <- (Z2Nat.id i) in Hwi |- * by lia. apply D4; [done|lia].
Qed.

(** ** Names and new workspaces *)

Lemma rename_ws_spec s defs k d :
  wm_ok s → (k < length (workspaces s))%nat → defs !! k = Some d →
  wp (rename_ws defs (Z.of_nat k)) (λ _ s', wm_ok s' ∧
    monitors s' = monitors s ∧ wins s' = wins s ∧ window_index s' = window_index s ∧
    window_workspace s' = window_workspace s ∧
    ws_def <$> workspaces s' = <[k := d]> (ws_def <$> workspaces s)) s.
Proof.
  intros Hok Hk Hd. destruct (lookup_lt_is_Some_2 _ _ Hk) as [ws Hws]. unfold rename_ws.
  wp_step. eapply wp_at_ws; [done|]. wp_step. eapply wp_checked; [by rewrite vget_of_nat|].
  apply wp_put_ws; [done|].
  set (ws' := ws <| ws_name := _ |> <| monitor_alias := _ |>).
  destruct (put_ws_ok s k ws ws' Hok Hws) as [Hok' Hf]; [done..| |].
  { by apply (wok_ws _ _ _ _ _ (ok_windows _ Hok) _ _ Hws). }
  split_and!; try done. cbn. rewrite list_fmap_insert. by destruct d.
Qed.

Lemma append_ws_spec s defs d :
  wm_ok s → defs !! length (workspaces s) = Some d →
  wp (append_ws defs (vsize (workspaces s))) (λ _ s', wm_ok s' ∧
    monitors s' = monitors s ∧ wins s' = wins s ∧ window_index s' = window_index s ∧
    window_workspace s' = window_workspace s ∧
    ws_def <$> workspaces s' = (ws_def <$> workspaces s) ++ [d]) s.
Proof.
  intros Hok Hd. unfold append_ws.
  wp_step. eapply wp_checked; [by unfold vsize; rewrite vget_of_nat|]. wp_step.
  split_and!; try done; [|cbn; rewrite fmap_app; by destruct d].
  destruct Hok as [Hw [H1 H2 H3 H4 H5 H6] Hf Hfa]. constructor; [|constructor|done|done]; cbn.
  - by apply windows_ok_append.
  - rewrite !length_app, H1. done.
  - done.
  - done.
  - intros mon pool ws Hl Hin. destruct (H4 _ _ _ Hl Hin) as (i & -> & Hi).
    exists i. split; [done|]. by apply lookup_app_l_Some.
  - done.
  - intros i o [Hi|[Hi E]]%lookup_app_Some; [by apply H6|left].
    by apply list_lookup_singleton_Some in E as [_ <-].
Qed.

Definition reload_frame (s s' : wm) : Prop :=
  monitors s' = monitors s ∧ wins s' = wins s ∧ window_index s' = window_index s ∧
  window_workspace s' = window_workspace s.

Lemma reload_frame_trans s1 s2 s3 :
  reload_frame s1 s2 → reload_frame s2 s3 → reload_frame s1 s3.
Proof. intros (?&?&?&?) (?&?&?&?). unfold reload_frame. split_and!; congruence. Qed.

Lemma insert_take_drop_step {A} (l defs : list A) k d x :
  defs !! k = Some d → l !! k = Some x →
  <[k := d]> (take k defs ++ drop k l) = take (S k) defs ++ drop (S k) l.
Proof.
  intros Hd Hx. pose proof (lookup_lt_Some _ _ _ Hd).
  rewrite insert_app_r_alt by (rewrite length_take; lia).
  rewrite length_take_le, Nat.sub_diag by lia.
  by rewrite (drop_S _ _ _ Hx), (take_S_r _ _ _ Hd), <- app_assoc.
Qed.

Lemma rename_all_spec s defs m :
  wm_ok s → 0 ≤ m ≤ vsize (workspaces s) → m ≤ vsize defs →
  wp (for_each (range m) (rename_ws defs)) (λ _ s', wm_ok s' ∧ reload_frame s s' ∧
    ws_def <$> workspaces s' =
      take (Z.to_nat m) defs ++ drop (Z.to_nat m) (ws_def <$> workspaces s)) s.
Proof.
  intros Hok Hm Hd. assert (Hlen : length (range m) = Z.to_nat m).
  { unfold range. by rewrite length_fmap, length_seq. }
  rewrite <- Hlen.
  apply (wp_for_each_prefix _ _ (λ pre s', wm_ok s' ∧ reload_frame s s' ∧
    ws_def <$> workspaces s' =
      take (length pre) defs ++ drop (length pre) (ws_def <$> workspaces s))); [|done].
  intros pre z post s1 E (Hok1 & Hf & Hdef).
  assert (Hz : range m !! length pre = Some z) by (rewrite E; by apply list_lookup_middle).
  pose proof (lookup_lt_Some _ _ _ Hz) as Hlt. rewrite Hlen in Hlt.
  apply range_lookup in Hz as ->. set (k := length pre) in *.
  assert (Hkd : (k < length defs)%nat) by (unfold vsize in *; lia).
  assert (Hks : (k < length (workspaces s))%nat) by (unfold vsize in *; lia).
  destruct (lookup_lt_is_Some_2 _ _ Hkd) as [d Hdk].
  destruct (lookup_lt_is_Some_2 _ _ Hks) as [ws Hws].
  assert (Hks1 : length (workspaces s1) = length (workspaces s)).
  { rewrite <- (length_fmap ws_def), Hdef, length_app, length_take, length_drop, length_fmap. lia. }
  eapply wp_mono; [by apply (rename_ws_spec s1 defs k d); [|lia|]|].
  cbv beta. intros [] s2 (Hok2 & F1 & F2 & F3 & F4 & Hdef2). split_and!; [done| |].
  - by eapply reload_frame_trans.
  - rewrite Hdef2, Hdef, length_app, Nat.add_comm.
    apply insert_take_drop_step with (ws_def ws); [done|].
    fold k. by rewrite list_lookup_fmap, Hws.
Qed.

Lemma append_all_spec s defs m :
  wm_ok s → 0 ≤ m → vsize (workspaces s) + m ≤ vsize defs →
  wp (for_each ((λ i, vsize (workspaces s) + i) <$> range m) (append_ws defs)) (λ _ s',
    wm_ok s' ∧ reload_frame s s' ∧
    ws_def <$> workspaces s' = (ws_def <$> workspaces s) ++
      take (Z.to_nat m) (drop (length (workspaces s)) defs)) s.
Proof.
  intros Hok Hm Hd. set (l := (λ i, _) <$> range m).
  assert (Hlen : length l = Z.to_nat m).
  { unfold l, range. by rewrite !length_fmap, length_seq. }
  rewrite <- Hlen.
  apply (wp_for_each_prefix _ _ (λ pre s', wm_ok s' ∧ reload_frame s s' ∧
    ws_def <$> workspaces s' = (ws_def <$> workspaces s) ++
      take (length pre) (drop (length (workspaces s)) defs)));
    [|by rewrite take_0, app_nil_r].
  intros pre z post s1 E (Hok1 & Hf & Hdef).
  assert (Hz : l !! length pre = Some z) by (rewrite E; by apply list_lookup_middle).
  pose proof (lookup_lt_Some _ _ _ Hz) as Hlt. rewrite Hlen in Hlt.
  unfold l in Hz. rewrite list_lookup_fmap in Hz. apply fmap_Some in Hz as (i & Hi & ->).
  apply range_lookup in Hi as ->. set (k := length pre) in *.
  assert (Hks1 : length (workspaces s1) = (length (workspaces s) + k)%nat).
  { rewrite <- (length_fmap ws_def), Hdef, length_app, length_take, length_drop, length_fmap.
    unfold vsize in *. lia. }
  assert (Hkd : (length (workspaces s) + k < length defs)%nat) by (unfold vsize in *; lia).
  destruct (lookup_lt_is_Some_2 _ _ Hkd) as [d Hdk].
  replace (vsize (workspaces s) + Z.of_nat k) with (vsize (workspaces s1))
    by (unfold vsize; lia).
  eapply wp_mono; [apply (append_ws_spec s1 defs d); [done|by rewrite Hks1]|].
  cbv beta. intros [] s2 (Hok2 & F1 & F2 & F3 & F4 & Hdef2). split_and!; [done| |].
  - by eapply reload_frame_trans.
  - rewrite Hdef2, Hdef, length_app, Nat.add_comm, <- app_assoc. f_equal.
    symmetry. apply take_S_r. by rewrite lookup_drop.
Qed.

(** The whole reload. *)
Lemma update_workspace_defs_spec s defs :
  wm_ok s → defs ≠ [] →
  wp (update_workspace_defs defs) (λ _ s',
    wm_ok s' ∧ ws_def <$> workspaces s' = defs ∧ monitors s' = monitors s ∧
    wins s' = wins s ∧ window_index s' = window_index s ∧
    ∀ win i, window_workspace s !! win = Some i → i < vsize defs →
      window_workspace s' !! win = Some i) s.
Proof.
  intros Hok Hne. pose proof (vsize_pos _ Hne) as Hpos. unfold update_workspace_defs.
  do 2 wp_step. rewrite (proj2 (Z.eqb_neq _ 0)) by lia. cbv zeta.
  pose proof (vsize_nonneg (workspaces s)) as Hnn.
  set (old := vsize (workspaces s)) in *. set (new := vsize defs) in *.
  wp_step. eapply wp_mono; [apply (rename_all_spec s defs (Z.min new old)); [done|lia|lia]|].
  cbv beta. intros [] s1 (Hok1 & (F1 & F2 & F3 & F4) & Hdef1). wp_step.
  assert (Hlen1 : vsize (workspaces s1) = old).
  { unfold vsize. rewrite <- (length_fmap ws_def), Hdef1, length_app, length_take, length_drop,
      length_fmap. unfold old, new, vsize in *. lia. }
  destruct (Z.ltb_spec new old) as [Hlt|Hge].
  - replace (range (new - old)) with (@nil Z).
    2: { unfold range. by replace (Z.to_nat (new - old)) with 0%nat by lia. }
    cbn [fmap list_fmap for_each]. wp_step. rewrite <- Hlen1.
    eapply wp_mono; [apply shrink_workspaces_spec; [done|lia]|].
    cbv beta. intros [] s2 (Hok2 & Hlen2 & G1 & G2 & G3 & G4 & G5).
    split_and!; [done| |congruence..|].
    + rewrite G4, Hdef1. rewrite take_app_le, take_take.
      * apply take_ge. unfold new, vsize in *. lia.
      * rewrite length_take. unfold new, vsize in *. lia.
    + intros win i Hwi Hi. apply G5; [congruence|done].
  - rewrite <- Hlen1.
    eapply wp_mono; [apply (append_all_spec s1 defs (new - vsize (workspaces s1))); [done|lia|lia]|].
    cbv beta. intros [] s2 (Hok2 & (G1 & G2 & G3 & G4) & Hdef2). wp_step.
    split_and!; [done| |congruence..|].
    + rewrite Hdef2, Hdef1. rewrite drop_ge, app_nil_r by (rewrite length_fmap; unfold old, vsize in *; lia).
      replace (length (workspaces s1)) with (Z.to_nat (Z.min new old)) by (unfold vsize in *; lia).
      rewrite (take_ge (drop _ _)) by (rewrite length_drop; unfold new, vsize in *; lia).
      apply take_drop.
    + intros win i Hwi Hi. congruence.
Qed.
