(* ===== verification/Hotplug.v ===== *)
(** * Assignment of workspaces and monitor hot-plug

    What [assign_workspaces] and [set_monitors] ([core/workspace_manager.cpp])
    do to the workspaces: each ends up with exactly one monitor; a monitor that
    stays connected keeps its workspaces and the one it shows; a monitor that
    comes back takes its parked workspaces back. *)

From S2P Require Import Prelude Geometry Workspace WorkspaceManager WindowIndex ManagerInv Pools ManagerOps.
From S2P Require Import ManagerFocus.
Local Open Scope Z_scope.

(** ** Rebuilding *)

Lemma rebuild_active_local s seed pref :
  monitor_active_local (rebuild_pools_from_owner s seed pref) = imap (λ mon pool,
    match pool with
    | [] => -1
    | _ => let li := index_of_ws_in_pool pool (default (-1) (pref !! mon)) in
           if 0 <=? li then li else 0
    end) (monitor_pools (rebuild_pools_from_owner s seed pref)).
Proof. unfold rebuild_pools_from_owner. by destruct (foldl _ _ _). Qed.

Section Rebuilt.
Context (s : wm) (seed : list (list Z)) (pref : list Z).
Context (Hlen : length (ws_owner s) = length (workspaces s)).
Context (Hown : ∀ i o, ws_owner s !! i = Some o → o = -1 ∨ 0 ≤ o < vsize (monitors s)).
Let r := rebuild_pools_from_owner s seed pref.

(** An owned workspace that its monitor prefers is the one it shows. *)
Lemma rebuild_active i j :
  ws_owner s !! i = Some (Z.of_nat j) → pref !! j = Some (Z.of_nat i) →
  active_ws_of_monitor r (Z.of_nat j) = Z.of_nat i.
Proof using All.
  intros Ho Hp. pose proof (rebuild_pools_ok s Hlen seed pref Hown) as Hpo.
  destruct (rebuild_frame s seed pref) as (_ & _ & _ & _ & Eo & _). fold r in Hpo, Eo.
  rewrite <- Eo in Ho. destruct (po_owner _ _ _ _ _ Hpo i _ Ho) as [?|(m & pool & Em & Hpool & Hin)]; [lia|].
  apply Nat2Z.inj in Em as <-. pose proof (index_of_ws_in_pool_elem _ _ Hin) as Hidx.
  pose proof (vget_Some_range _ _ _ Hidx) as Hr.
  unfold active_ws_of_monitor. rewrite vget_of_nat, Hpool.
  destruct pool as [|w0 pool]; [by apply elem_of_nil in Hin|]. cbv zeta.
  unfold r at 1. rewrite rebuild_active_local, vget_of_nat, list_lookup_imap. fold r. rewrite Hpool.
  cbn [fmap option_fmap option_map]. rewrite Hp. cbn [default from_option id].
  change (Datatypes.id (Z.of_nat i)) with (Z.of_nat i).
  rewrite (proj2 (Z.leb_le 0 (index_of_ws_in_pool (w0 :: pool) (Z.of_nat i)))) by lia.
  by rewrite Hidx.
Qed.
End Rebuilt.

(** The end of both operations changes neither pools nor owners. *)
Lemma tail_fields r f :
  let s' := sync_monitors_active_ws (select_valid_focused_monitor (r <| focused_monitor := f |>)) in
  monitor_pools s' = monitor_pools r ∧ monitor_active_local s' = monitor_active_local r ∧
  ws_owner s' = ws_owner r ∧ workspaces s' = workspaces r ∧
  length (monitors s') = length (monitors r).
Proof. cbv zeta. rewrite select_valid_fields. unfold sync_monitors_active_ws. cbn. by rewrite length_imap. Qed.

Lemma active_ws_fields s s' m :
  monitor_pools s' = monitor_pools s → monitor_active_local s' = monitor_active_local s →
  active_ws_of_monitor s' m = active_ws_of_monitor s m.
Proof. intros E1 E2. unfold active_ws_of_monitor. by rewrite E1, E2. Qed.

(** ** [assign_workspaces] *)

Lemma round_robin_lookup n rr l i o :
  l !! i = Some o → o ≠ -1 → round_robin n rr l !! i = Some o.
Proof.
  revert rr i. induction l as [|a l IH]; intros rr i Hi Ho; [done|]. cbn.
  destruct i as [|i]; cbn in Hi.
  - injection Hi as ->. by rewrite (proj2 (Z.eqb_neq _ _) Ho).
  - destruct (a =? -1); by apply IH.
Qed.

Lemma assign_owner al cp s :
  monitors s ≠ [] →
  ws_owner (assign_workspaces al cp s) =
  round_robin (vsize (monitors s))
    (if primary_monitor_index s al cp <? 0 then 0 else primary_monitor_index s al cp)
    (zip_with (alias_owner s al) (workspaces s)
       ((λ o, if is_mon_valid s o then o else -1) <$>
          (if (length (ws_owner s) =? length (workspaces s))%nat then ws_owner s
           else replicate (length (workspaces s)) (-1)))).
Proof.
  intros Hne. unfold assign_workspaces. cbv zeta.
  rewrite (proj2 (Z.eqb_neq _ _)) by (pose proof (vsize_pos _ Hne); lia).
  unfold sync_monitors_active_ws. rewrite select_valid_fields.
  unfold rebuild_pools_from_owner. by destruct (foldl _ _ _).
Qed.

(** Where a workspace goes: to the monitor its alias names, if there is one,
    else it stays where it was, else to some monitor. *)
Definition assigned (al : list MonitorAlias) (s : wm) (k : nat) (ws : Workspace) (m : Z) : Prop :=
  (monitor_alias ws ≠ "" → 0 ≤ resolve_alias_monitor s (monitor_alias ws) al →
     m = resolve_alias_monitor s (monitor_alias ws) al) ∧
  ((monitor_alias ws = "" ∨ resolve_alias_monitor s (monitor_alias ws) al < 0) →
     0 ≤ monitor_of s (Z.of_nat k) → m = monitor_of s (Z.of_nat k)).

Lemma assign_length al cp s :
  length (monitors (assign_workspaces al cp s)) = length (monitors s) ∧
  workspaces (assign_workspaces al cp s) = workspaces s.
Proof.
  unfold assign_workspaces. cbv zeta. destruct (_ =? 0); [done|].
  unfold sync_monitors_active_ws. rewrite select_valid_fields.
  unfold rebuild_pools_from_owner. destruct (foldl _ _ _). cbn. by rewrite length_imap.
Qed.

Lemma assign_spec al cp s k ws :
  wm_ok s → monitors s ≠ [] → workspaces s !! k = Some ws →
  ∃ m, ws_owner (assign_workspaces al cp s) !! k = Some (Z.of_nat m) ∧
    (m < length (monitors s))%nat ∧ assigned al s k ws (Z.of_nat m).
Proof.
  intros Hok Hne Hk. rewrite (assign_owner al cp s Hne).
  pose proof (po_owner_len _ _ _ _ _ (ok_pools _ Hok)) as Hlen.
  rewrite Hlen, Nat.eqb_refl.
  destruct (assign_owner_range s al cp (ws_owner s) Hne Hlen) as [Hl Hr].
  set (o3 := round_robin _ _ _) in *.
  destruct (lookup_lt_is_Some_2 o3 k) as [o Ho].
  { rewrite Hl. by eapply lookup_lt_Some. }
  pose proof (Hr o (list_elem_of_lookup_2 _ _ _ Ho)) as Hor.
  exists (Z.to_nat o). rewrite Z2Nat.id by lia. split_and!; [done|unfold vsize in *; lia|].
  destruct (lookup_lt_is_Some_2 (ws_owner s) k) as [q Hq].
  { rewrite Hlen. by eapply lookup_lt_Some. }
  destruct (monitor_of_lookup _ _ _ (ok_pools _ Hok) Hq) as [Hmo Hqr]. unfold assigned. rewrite Hmo.
  assert (Hzip : zip_with (alias_owner s al) (workspaces s)
    ((λ o, if is_mon_valid s o then o else -1) <$> ws_owner s) !! k =
    Some (alias_owner s al ws (if is_mon_valid s q then q else -1))).
  { by rewrite lookup_zip_with, Hk, list_lookup_fmap, Hq. }
  assert (Hkeep : ∀ z, alias_owner s al ws (if is_mon_valid s q then q else -1) = z → z ≠ -1 → o = z).
  { intros z Hz Hne1. rewrite Hz in Hzip.
    pose proof (round_robin_lookup (vsize (monitors s)) (if primary_monitor_index s al cp <? 0 then 0
      else primary_monitor_index s al cp) _ _ _ Hzip Hne1) as E. fold o3 in E. congruence. }
  unfold alias_owner in Hkeep. split.
  - intros Ha Hres. apply Hkeep; [|lia]. rewrite bool_decide_false by done. cbv zeta.
    by rewrite (proj2 (Z.leb_le _ _) Hres).
  - intros Ha Hq0. assert (Hv : is_mon_valid s q = true) by (apply is_mon_valid_spec; lia).
    apply Hkeep; [|lia]. rewrite Hv. case_bool_decide as Hal; [done|]. cbv zeta.
    destruct Ha as [?|Ha]; [done|]. rewrite (proj2 (Z.leb_gt _ _) Ha). by rewrite Hv.
Qed.

(** ** [set_monitors] *)

(** The monitors have different names. *)
Definition distinct (mons : list Monitor) : Prop := NoDup (mon_name <$> mons).

Lemma distinct_inj mons i j mi mj :
  distinct mons → mons !! i = Some mi → mons !! j = Some mj → mon_name mi = mon_name mj → i = j.
Proof.
  intros Hd Hi Hj E. eapply NoDup_lookup; [exact Hd|..].
  - rewrite list_lookup_fmap, Hi. reflexivity.
  - by rewrite list_lookup_fmap, Hj, E.
Qed.

(** The index of names built from the old monitors. *)
Lemma old_index_lookup mons name :
  distinct mons →
  let ix := foldl (λ (idx : gmap string nat) '(i, m), <[mon_name m := i]> idx) ∅ (enumerate mons) in
  (∀ i m, mons !! i = Some m → mon_name m = name → ix !! name = Some i) ∧
  ((∀ i m, mons !! i = Some m → mon_name m ≠ name) → ix !! name = None).
Proof.
  intros Hd. cbv zeta. unfold enumerate.
  assert (H : ∀ l k (idx : gmap string nat), NoDup (mon_name <$> l) →
    let ix := foldl (λ (idx : gmap string nat) '(i, m), <[mon_name m := i]> idx) idx
                (imap (λ i m, (k + i, m)%nat) l) in
    (∀ i m, l !! i = Some m → mon_name m = name → ix !! name = Some (k + i)%nat) ∧
    ((∀ i m, l !! i = Some m → mon_name m ≠ name) → ix !! name = idx !! name)).
  { induction l as [|a l IH]; intros k idx Hnd; cbv zeta; [done|]. cbn.
    apply NoDup_cons in Hnd as [Ha Hnd]. rewrite Nat.add_0_r.
    assert (E : ∀ idx', foldl (λ (idx : gmap string nat) '(i, m), <[mon_name m := i]> idx) idx'
        (imap ((λ i m, ((k + i)%nat, m)) ∘ S) l) =
      foldl (λ (idx : gmap string nat) '(i, m), <[mon_name m := i]> idx) idx'
        (imap (λ i m, ((S k + i)%nat, m)) l)).
    { intros idx'. f_equal. apply imap_ext. intros i m _. cbn. f_equal. lia. }
    rewrite E. destruct (IH (S k) (<[mon_name a := k]> idx) Hnd) as [H1 H2]. split.
    - intros [|i] m Hm Hn; cbn in Hm.
      + injection Hm as ->. rewrite H2; [by rewrite Hn, lookup_insert_eq, Nat.add_0_r|].
        intros i m' Hm' E'. apply Ha. rewrite Hn, <- E'. apply list_elem_of_fmap.
        exists m'. split; [done|]. by eapply list_elem_of_lookup_2.
      + rewrite (H1 i m Hm Hn). f_equal. lia.
    - intros Hno. rewrite H2; [|intros i m Hm; by apply (Hno (S i))].
      apply lookup_insert_ne. by apply (Hno 0%nat a). }
  destruct (H mons 0%nat ∅ Hd) as [H1 H2]. split; [exact H1|].
  intros Hno. change (foldl _ ∅ _) with (foldl (λ (idx : gmap string nat) '(i, m),
    <[mon_name m := i]> idx) ∅ (imap (λ i m, ((0 + i)%nat, m)) mons)).
  by rewrite (H2 Hno), lookup_empty.
Qed.

(** The active workspaces, the name index and the parked pools the loop starts from. *)
Definition old_active (s : wm) : list Z :=
  imap (λ i _, if (i <? length (monitor_pools s))%nat && (i <? length (monitor_active_local s))%nat
               then active_ws_of_monitor s (Z.of_nat i) else NO_WORKSPACE) (monitors s).
Definition old_index (s : wm) : gmap string nat :=
  foldl (λ (idx : gmap string nat) '(i, m), <[mon_name m := i]> idx) ∅ (enumerate (monitors s)).
Definition park (mons : list Monitor) (s : wm) : gmap string (list Z) * gmap string Z :=
  foldl (λ '(pp, pa) '(i, m),
      if existsb (λ m0, bool_decide (mon_name m0 = mon_name m)) mons then (pp, pa)
      else (<[mon_name m := default [] (monitor_pools s !! i)]> pp,
            <[mon_name m := default NO_WORKSPACE (old_active s !! i)]> pa))
      (parked_pools s, parked_active_ws s) (enumerate (monitors s)).
Definition seeds (mons : list Monitor) (s : wm) : seeding :=
  foldl (seed_monitor (vsize (workspaces s)) (old_index s) (monitor_pools s) (old_active s))
    (mkSeeding (carry_owner s mons <$> seq 0 (length (workspaces s))) [] []
       (park mons s).1 (park mons s).2) (enumerate mons).

(** The state the pools are rebuilt in. *)
Definition reseeded (mons : list Monitor) (s : wm) : wm :=
  s <| monitors := mons |> <| parked_pools := sd_parked (seeds mons s) |>
    <| parked_active_ws := sd_parked_active (seeds mons s) |> <| ws_owner := sd_owner (seeds mons s) |>.

Lemma set_monitors_eq mons s :
  ∃ f, set_monitors mons s = sync_monitors_active_ws (select_valid_focused_monitor
    ((rebuild_pools_from_owner (reseeded mons s) (sd_pools (seeds mons s)) (sd_active (seeds mons s)))
       <| focused_monitor := f |>)).
Proof.
  unfold set_monitors, reseeded, seeds. cbv zeta. fold (old_active s) (old_index s).
  change (foldl _ (parked_pools s, parked_active_ws s) _) with (park mons s).
  destruct (park mons s) as [pp pa]. cbn [fst snd].
  set (r := rebuild_pools_from_owner _ _ _).
  destruct (0 <=? _); [by eexists|]. destruct (_ <=? _); [by eexists|].
  exists (focused_monitor r). by destruct r.
Qed.

(** Parking leaves the entries of the connected names alone. *)
Lemma park_connected mons s m :
  m ∈ mons → (park mons s).1 !! mon_name m = parked_pools s !! mon_name m ∧
             (park mons s).2 !! mon_name m = parked_active_ws s !! mon_name m.
Proof.
  intros Hm. unfold park. generalize (parked_pools s) as pp, (parked_active_ws s) as pa.
  induction (enumerate (monitors s)) as [|[i om] l IH]; intros pp pa; [done|]. cbn.
  destruct (existsb _ mons) eqn:E; [apply IH|].
  destruct (IH (<[mon_name om := default [] (monitor_pools s !! i)]> pp)
    (<[mon_name om := default NO_WORKSPACE (old_active s !! i)]> pa)) as [-> ->].
  assert (Hne : mon_name om ≠ mon_name m).
  { intros En. assert (Ht : existsb (λ m0, bool_decide (mon_name m0 = mon_name om)) mons = true).
    { apply existsb_exists. exists m. split; [by apply list_elem_of_In|].
      by apply bool_decide_eq_true. }
    congruence. }
  by rewrite !lookup_insert_ne by done.
Qed.

(** *** The seeding loop *)

Section Seeding.
Context (nws : Z) (oi : gmap string nat) (op : list (list Z)) (oa : list Z).
Local Abbreviation step := (seed_monitor nws oi op oa).

Lemma claim_pool (pool : list Z) (j : Z) (o : list Z) i :
  let o' := foldl (λ o ws, if (0 <=? ws) && (ws <? nws) then <[Z.to_nat ws := j]> o else o) o pool in
  (Z.of_nat i ∉ pool → o' !! i = o !! i) ∧
  (Z.of_nat i ∈ pool → Z.of_nat i < nws → (i < length o)%nat → o' !! i = Some j).
Proof.
  cbv zeta. revert o. induction pool as [|w pool IH]; intros o; cbn.
  { split; [done|]. intros H. by apply elem_of_nil in H. }
  set (o1 := if _ && _ then _ else _). destruct (IH o1) as [H1 H2].
  assert (Hl : length o1 = length o) by (subst o1; destruct (_ && _); rewrite ?length_insert; done).
  split.
  - intros [Hw Hp]%not_elem_of_cons. rewrite H1 by done. subst o1.
    destruct (_ && _) eqn:E; [|done]. apply andb_true_iff in E as [?%Z.leb_le _].
    apply list_lookup_insert_ne. lia.
  - intros Hin Hn Hi. destruct (decide (Z.of_nat i ∈ pool)) as [Hp|Hp]; [by apply H2; [..|lia]|].
    apply elem_of_cons in Hin as [<-|?]; [|done]. rewrite H1 by done. subst o1.
    rewrite (proj2 (Z.leb_le _ _)), (proj2 (Z.ltb_lt _ _)) by lia. cbn.
    rewrite Nat2Z.id. by apply list_lookup_insert_eq.
Qed.

Lemma step_parked acc im name :
  (name ≠ mon_name im.2 → sd_parked (step acc im) !! name = sd_parked acc !! name ∧
     sd_parked_active (step acc im) !! name = sd_parked_active acc !! name) ∧
  (∀ pool, sd_parked (step acc im) !! name = Some pool → sd_parked acc !! name = Some pool).
Proof.
  destruct im as [i m]. cbn. destruct (oi !! mon_name m); [done|].
  destruct (sd_parked acc !! mon_name m) as [pool|] eqn:E; [|done]. cbn. split.
  - intros Hne. by rewrite !lookup_delete_ne by done.
  - intros p Hp. by apply lookup_delete_Some in Hp as [_ ?].
Qed.

Lemma step_active acc im :
  sd_active (step acc im) = sd_active acc ++
    [match oi !! mon_name im.2 with
     | Some k => default (-1) (oa !! k)
     | None => match sd_parked acc !! mon_name im.2 with
               | Some _ => default (-1) (sd_parked_active acc !! mon_name im.2)
               | None => -1 end
     end].
Proof.
  destruct im as [i m]. cbn. destruct (oi !! mon_name m); [done|].
  by destruct (sd_parked acc !! mon_name m).
Qed.

Lemma steps_active_prefix l acc : sd_active acc `prefix_of` sd_active (foldl step acc l).
Proof.
  revert acc. induction l as [|im l IH]; intros acc; cbn; [done|].
  etrans; [|apply IH]. rewrite step_active. by eexists.
Qed.

(** No later monitor claims [i]: it keeps its owner. *)
Lemma steps_owner_keep l acc i :
  (∀ im pool, im ∈ l → oi !! mon_name im.2 = None → sd_parked acc !! mon_name im.2 = Some pool →
     Z.of_nat i ∉ pool) →
  sd_owner (foldl step acc l) !! i = sd_owner acc !! i.
Proof.
  revert acc. induction l as [|im l IH]; intros acc Hno; cbn; [done|]. rewrite IH.
  - destruct im as [k m]. cbn. destruct (oi !! mon_name m) eqn:Eo; [done|].
    destruct (sd_parked acc !! mon_name m) as [pool|] eqn:E; [|done]. cbn.
    apply claim_pool. apply (Hno (k, m)); [left|done|done].
  - intros im' pool Hin Ho Hp. apply (Hno im'); [by right|done|].
    by apply (step_parked acc im).
Qed.

Lemma steps_length l acc : length (sd_active (foldl step acc l)) = (length (sd_active acc) + length l)%nat.
Proof.
  revert acc. induction l as [|im l IH]; intros acc; cbn; [lia|].
  rewrite IH, step_active, length_app. cbn. lia.
Qed.
End Seeding.

Lemma steps_parked_sub nws oi op oa l acc name pool :
  sd_parked (foldl (seed_monitor nws oi op oa) acc l) !! name = Some pool →
  sd_parked acc !! name = Some pool.
Proof.
  revert acc. induction l as [|im l IH]; intros acc; cbn; [done|]. intros H%IH.
  by eapply step_parked.
Qed.

Lemma steps_parked_keep nws oi op oa l acc name :
  (∀ im, im ∈ l → name ≠ mon_name im.2) →
  sd_parked (foldl (seed_monitor nws oi op oa) acc l) !! name = sd_parked acc !! name ∧
  sd_parked_active (foldl (seed_monitor nws oi op oa) acc l) !! name = sd_parked_active acc !! name.
Proof.
  revert acc. induction l as [|im l IH]; intros acc Hl; cbn; [done|].
  destruct (IH (seed_monitor nws oi op oa acc im)) as [-> ->]; [intros ??; apply Hl; by right|].
  apply (step_parked nws oi op oa acc im name), Hl. by left.
Qed.

Lemma enumerate_split {A} (l : list A) j a :
  l !! j = Some a → ∃ l1 l2, enumerate l = l1 ++ (j, a) :: l2 ∧ length l1 = j ∧
    (∀ im, im ∈ l1 → l !! im.1 = Some im.2 ∧ (im.1 < j)%nat) ∧
    (∀ im, im ∈ l2 → l !! im.1 = Some im.2 ∧ (j < im.1)%nat).
Proof.
  intros Hj. assert (He : enumerate l !! j = Some (j, a)).
  { unfold enumerate. by rewrite list_lookup_imap, Hj. }
  exists (take j (enumerate l)), (drop (S j) (enumerate l)).
  assert (Hl : (j < length (enumerate l))%nat) by (by eapply lookup_lt_Some).
  assert (Hel : ∀ k im, enumerate l !! k = Some im → l !! im.1 = Some im.2 ∧ im.1 = k).
  { intros k im. unfold enumerate. rewrite list_lookup_imap.
    destruct (l !! k) eqn:E; [|done]. intros [= <-]. done. }
  split_and!.
  - symmetry. by apply take_drop_middle.
  - rewrite length_take. lia.
  - intros im [k Hk]%list_elem_of_lookup. apply lookup_take_Some in Hk as [Hk ?].
    apply Hel in Hk as [? <-]. done.
  - intros im [k Hk]%list_elem_of_lookup. rewrite lookup_drop in Hk. apply Hel in Hk as [? ?].
    split; [done|lia].
Qed.

(** *** The claims about [set_monitors] *)

Lemma old_active_lookup s m :
  wm_ok s → (m < length (monitors s))%nat →
  old_active s !! m = Some (active_ws_of_monitor s (Z.of_nat m)).
Proof.
  intros Hok Hm. unfold old_active. rewrite list_lookup_imap.
  destruct (lookup_lt_is_Some_2 _ _ Hm) as [om ->]. cbn [fmap option_fmap option_map].
  pose proof (ok_pools _ Hok) as Hp.
  rewrite (po_pools_len _ _ _ _ _ Hp), (po_active_len _ _ _ _ _ Hp).
  by rewrite (proj2 (Nat.ltb_lt _ _) Hm).
Qed.

Lemma seeds_owner_ok mons s :
  length (sd_owner (seeds mons s)) = length (workspaces s) ∧
  ∀ i o, sd_owner (seeds mons s) !! i = Some o → o = -1 ∨ 0 ≤ o < vsize mons.
Proof.
  destruct (seed_monitors_owner (vsize (workspaces s)) (old_index s) (monitor_pools s) (old_active s)
    (enumerate mons) (mkSeeding (carry_owner s mons <$> seq 0 (length (workspaces s))) [] []
      (park mons s).1 (park mons s).2) (vsize mons)) as [Hl Hr].
  { cbn. intros o (i & -> & _)%list_elem_of_fmap. apply carry_owner_range. }
  { intros [i m] Hi%elem_of_enumerate. apply lookup_lt_Some in Hi. cbn. unfold vsize. lia. }
  cbn in Hl. rewrite length_fmap, length_seq in Hl.
  split; [done|]. intros i o Ho%list_elem_of_lookup_2. by apply Hr.
Qed.

Lemma set_monitors_view mons s i j :
  wm_windows_ok s → factory_ok s → sd_owner (seeds mons s) !! i = Some (Z.of_nat j) →
  monitor_of (set_monitors mons s) (Z.of_nat i) = Z.of_nat j ∧
  (sd_active (seeds mons s) !! j = Some (Z.of_nat i) →
   active_ws_of_monitor (set_monitors mons s) (Z.of_nat j) = Z.of_nat i).
Proof.
  intros Hw Hfa Ho. destruct (set_monitors_ok mons s Hw Hfa) as [Hok' _].
  destruct (set_monitors_eq mons s) as [f E]. destruct (seeds_owner_ok mons s) as [Hl Hr].
  set (r := rebuild_pools_from_owner _ _ _) in E.
  destruct (tail_fields r f) as (E1 & E2 & E3 & _). rewrite <- E in E1, E2, E3.
  destruct (rebuild_frame (reseeded mons s) (sd_pools (seeds mons s)) (sd_active (seeds mons s)))
    as (_ & _ & _ & _ & Eo & _). fold r in Eo. split.
  - apply monitor_of_lookup; [apply Hok'|]. by rewrite E3, Eo.
  - intros Ha. rewrite (active_ws_fields r) by done. by apply rebuild_active.
Qed.

Definition unparked (s : wm) (i : nat) : Prop :=
  ∀ name pool, parked_pools s !! name = Some pool → Z.of_nat i ∉ pool.

Lemma set_monitors_keeps mons s m j om nm i :
  wm_ok s → distinct (monitors s) → distinct mons → monitors s !! m = Some om →
  mons !! j = Some nm → mon_name nm = mon_name om → ws_owner s !! i = Some (Z.of_nat m) →
  unparked s i →
  monitor_of (set_monitors mons s) (Z.of_nat i) = Z.of_nat j ∧
  (active_ws_of_monitor s (Z.of_nat m) = Z.of_nat i →
   active_ws_of_monitor (set_monitors mons s) (Z.of_nat j) = Z.of_nat i).
Proof.
  intros Hok Hd Hd' Hm Hj En Ho Hun.
  assert (Hown : sd_owner (seeds mons s) !! i = Some (Z.of_nat j)).
  { unfold seeds. rewrite steps_owner_keep.
    - cbn. rewrite list_lookup_fmap, lookup_seq_lt.
      2: { rewrite <- (po_owner_len _ _ _ _ _ (ok_pools _ Hok)). by eapply lookup_lt_Some. }
      cbn. f_equal. unfold carry_owner. rewrite Ho, vget_of_nat, Hm. unfold find_index.
      rewrite (proj2 (index_where_Some _ _ j)); [done|]. split.
      + exists nm. by rewrite bool_decide_true.
      + intros j' x Hlt Hx. apply bool_decide_false. intros E.
        pose proof (distinct_inj _ _ _ _ _ Hd' Hx Hj ltac:(congruence)). lia.
    - intros [k im] pool Hin%elem_of_enumerate _ Hp. cbn in Hp.
      rewrite (proj1 (park_connected mons s im ltac:(by eapply list_elem_of_lookup_2))) in Hp.
      by eapply Hun. }
  destruct (set_monitors_view mons s i j (ok_windows _ Hok) (ok_factory _ Hok) Hown) as [H1 H2].
  split; [done|]. intros Ha. apply H2.
  destruct (enumerate_split mons j nm Hj) as (l1 & l2 & El & Hlen & _ & _).
  unfold seeds. rewrite El, foldl_app. cbn [foldl].
  eapply prefix_lookup_Some; [|apply steps_active_prefix].
  rewrite step_active, lookup_app_r; rewrite steps_length, Hlen; cbn; [|lia]. rewrite Nat.sub_diag. cbn.
  destruct (old_index_lookup (monitors s) (mon_name nm) Hd) as [Hix _]. fold (old_index s) in Hix.
  rewrite (Hix m om Hm) by done. rewrite old_active_lookup by (done || by eapply lookup_lt_Some).
  cbn. by rewrite Ha.
Qed.

Lemma set_monitors_restores mons s j nm pool i :
  wm_ok s → distinct (monitors s) → distinct mons → mons !! j = Some nm →
  (∀ k om, monitors s !! k = Some om → mon_name om ≠ mon_name nm) →
  parked_pools s !! mon_name nm = Some pool → Z.of_nat i ∈ pool → (i < length (workspaces s))%nat →
  (∀ name p, name ≠ mon_name nm → parked_pools s !! name = Some p → Z.of_nat i ∉ p) →
  monitor_of (set_monitors mons s) (Z.of_nat i) = Z.of_nat j ∧
  (parked_active_ws s !! mon_name nm = Some (Z.of_nat i) →
   active_ws_of_monitor (set_monitors mons s) (Z.of_nat j) = Z.of_nat i).
Proof.
  intros Hok Hd Hd' Hj Hnew Hpk Hin Hi Hoth.
  destruct (enumerate_split mons j nm Hj) as (l1 & l2 & El & Hlen & Hl1 & Hl2).
  destruct (old_index_lookup (monitors s) (mon_name nm) Hd) as [_ Hix]. fold (old_index s) in Hix.
  specialize (Hix Hnew). set (a0 := mkSeeding (carry_owner s mons <$> seq 0 (length (workspaces s))) [] []
    (park mons s).1 (park mons s).2).
  set (st := seed_monitor (vsize (workspaces s)) (old_index s) (monitor_pools s) (old_active s)).
  set (a1 := foldl st a0 l1).
  destruct (park_connected mons s nm ltac:(by eapply list_elem_of_lookup_2)) as [Hp1 Hp2].
  destruct (steps_parked_keep (vsize (workspaces s)) (old_index s) (monitor_pools s) (old_active s)
    l1 a0 (mon_name nm)) as [Hq1 Hq2].
  { intros im [Him ?]%Hl1 E. pose proof (distinct_inj _ _ _ _ _ Hd' Him Hj ltac:(done)). lia. }
  fold st a1 in Hq1, Hq2. cbn [sd_parked sd_parked_active a0] in Hq1, Hq2.
  rewrite Hp1 in Hq1. rewrite Hp2 in Hq2. rewrite Hpk in Hq1.
  assert (Hseeds : seeds mons s = foldl st (st a1 (j, nm)) l2).
  { unfold seeds. fold a0 st. by rewrite El, foldl_app. }
  assert (Hown : sd_owner (seeds mons s) !! i = Some (Z.of_nat j)).
  { rewrite Hseeds. unfold st at 1. rewrite steps_owner_keep.
    - unfold st, seed_monitor at 1. rewrite Hix, Hq1. cbn [sd_owner].
      apply claim_pool; [done|unfold vsize; lia|].
      destruct (seed_monitors_owner (vsize (workspaces s)) (old_index s) (monitor_pools s) (old_active s)
        l1 a0 (vsize mons)) as [Hl _].
      + cbn. intros o (k & -> & _)%list_elem_of_fmap. apply carry_owner_range.
      + intros im [Him _]%Hl1. apply lookup_lt_Some in Him. unfold vsize. lia.
      + fold st a1 in Hl. rewrite Hl. cbn. by rewrite length_fmap, length_seq.
    - intros im p [Him ?]%Hl2 _ Hp. apply (Hoth (mon_name im.2)).
      + intros E. pose proof (distinct_inj _ _ _ _ _ Hd' Him Hj E). lia.
      + apply (step_parked _ _ _ _ a1 (j, nm)) in Hp. apply steps_parked_sub in Hp. cbn in Hp.
        by rewrite (proj1 (park_connected mons s im.2 ltac:(by eapply list_elem_of_lookup_2))) in Hp. }
  destruct (set_monitors_view mons s i j (ok_windows _ Hok) (ok_factory _ Hok) Hown) as [H1 H2].
  split; [done|]. intros Ha. apply H2. rewrite Hseeds.
  eapply prefix_lookup_Some; [|apply steps_active_prefix]. unfold st. rewrite step_active. fold st.
  rewrite lookup_app_r; unfold a1, st; rewrite steps_length, Hlen; cbn; [|lia]. rewrite Nat.sub_diag. cbn.
  fold st a1. by rewrite Hix, Hq1, Hq2, Ha.
Qed.

(** *** Unplugging a monitor and plugging it in again *)

Lemma monitor_of_owner s i j :
  monitor_of s (Z.of_nat i) = Z.of_nat j → ws_owner s !! i = Some (Z.of_nat j).
Proof.
  unfold monitor_of, NO_MONITOR. destruct (_ || _); [lia|]. rewrite vget_of_nat.
  destruct (ws_owner s !! i) as [o|]; [|lia]. destruct (is_mon_valid s o); [by intros ->|lia].
Qed.

Lemma imap_names (l : list Monitor) (f : nat → Z) :
  mon_name <$> imap (λ i m, m <| mon_active_ws := f i |>) l = mon_name <$> l.
Proof.
  apply list_eq. intros i. rewrite !list_lookup_fmap, list_lookup_imap. by destruct (l !! i).
Qed.

Lemma set_monitors_struct mons s :
  mon_name <$> monitors (set_monitors mons s) = mon_name <$> mons ∧
  workspaces (set_monitors mons s) = workspaces s ∧
  parked_pools (set_monitors mons s) = sd_parked (seeds mons s) ∧
  parked_active_ws (set_monitors mons s) = sd_parked_active (seeds mons s).
Proof.
  destruct (set_monitors_eq mons s) as [f ->]. rewrite select_valid_fields.
  unfold sync_monitors_active_ws, rebuild_pools_from_owner. destruct (foldl _ _ _). cbn.
  split_and!; [apply imap_names|done..].
Qed.

(** Who is parked, on the two sides of the connected names. *)
Lemma existsb_named mons name :
  existsb (λ m0, bool_decide (mon_name m0 = name)) mons = true ↔
  ∃ m, m ∈ mons ∧ mon_name m = name.
Proof.
  rewrite existsb_exists. split; intros (m & H1 & H2); exists m;
    rewrite bool_decide_eq_true in *; by rewrite list_elem_of_In in *.
Qed.

Lemma park_other mons s name :
  (∀ om, om ∈ monitors s → mon_name om = name → ∃ m, m ∈ mons ∧ mon_name m = name) →
  (park mons s).1 !! name = parked_pools s !! name.
Proof.
  intros Hno. unfold park. generalize (parked_pools s) as pp, (parked_active_ws s) as pa.
  assert (H : ∀ im, im ∈ enumerate (monitors s) → im.2 ∈ monitors s).
  { intros [k om] Hk%elem_of_enumerate. by eapply list_elem_of_lookup_2. }
  revert H. induction (enumerate (monitors s)) as [|[i om] l IH]; intros H pp pa; [done|]. cbn.
  destruct (existsb _ mons) eqn:E; rewrite IH by (intros ??; apply H; by right); [done|].
  apply lookup_insert_ne. intros En.
  rewrite (proj2 (existsb_named mons (mon_name om))) in E; [done|]. rewrite En.
  apply (Hno om); [|done]. apply (H (i, om)). by left.
Qed.

Lemma park_gone mons s m om :
  distinct (monitors s) → monitors s !! m = Some om → (∀ nm, nm ∈ mons → mon_name nm ≠ mon_name om) →
  (park mons s).1 !! mon_name om = Some (default [] (monitor_pools s !! m)) ∧
  (park mons s).2 !! mon_name om = Some (default NO_WORKSPACE (old_active s !! m)).
Proof.
  intros Hd Hm Hno. destruct (enumerate_split _ _ _ Hm) as (l1 & l2 & El & _ & _ & H2).
  unfold park. rewrite El, foldl_app. destruct (foldl _ _ l1) as [pp pa]. cbn [foldl].
  destruct (existsb _ mons) eqn:E.
  { apply existsb_named in E as (nm & Hin & En). by edestruct Hno. }
  set (f := λ '(pp, pa) '(i, m), if existsb _ mons then (pp, pa) else _).
  assert (Hl : ∀ l a, (∀ im, im ∈ l → mon_name im.2 ≠ mon_name om) →
    (foldl f a l).1 !! mon_name om = a.1 !! mon_name om ∧
    (foldl f a l).2 !! mon_name om = a.2 !! mon_name om).
  { induction l as [|[i x] l IH]; intros [qp qa] Hl; [done|]. cbn [foldl].
    destruct (IH (f (qp, qa) (i, x))) as [-> ->]; [intros ??; apply Hl; by right|].
    unfold f. case_match; [done|]. cbn.
    rewrite !lookup_insert_ne by (apply (Hl (i, x)); by left). done. }
  destruct (Hl l2 (<[mon_name om := default [] (monitor_pools s !! m)]> pp,
    <[mon_name om := default NO_WORKSPACE (old_active s !! m)]> pa)) as [-> ->].
  - intros im [Hx ?]%H2 En. pose proof (distinct_inj _ _ _ _ _ Hd Hx Hm En). lia.
  - cbn. by rewrite !lookup_insert_eq.
Qed.

Section Replug.
Context (s : wm) (mons1 mons2 : list Monitor) (m : nat) (om : Monitor).
Context (Hok : wm_ok s) (Hd : distinct (monitors s)) (Hd1 : distinct mons1) (Hd2 : distinct mons2).
Context (Hempty : parked_pools s = ∅) (Hm : monitors s !! m = Some om).
Context (Hgone : ∀ nm, nm ∈ mons1 → mon_name nm ≠ mon_name om).
Context (Hstay : ∀ x, x ∈ monitors s → mon_name x ≠ mon_name om →
  ∃ nm, nm ∈ mons1 ∧ mon_name nm = mon_name x).
Let s1 := set_monitors mons1 s.

Lemma unplugged_ok : wm_ok s1.
Proof using Hok. apply set_monitors_ok; apply Hok. Qed.

Lemma unplugged_names : mon_name <$> monitors s1 = mon_name <$> mons1.
Proof using. apply (set_monitors_struct mons1 s). Qed.

Lemma unplugged_distinct : distinct (monitors s1).
Proof using Hd1. unfold distinct. by rewrite unplugged_names. Qed.

(** The monitor that left is the only one parked, with the pool and the
    workspace it had. *)
Lemma unplugged_parked name pool :
  parked_pools s1 !! name = Some pool →
  name = mon_name om ∧ monitor_pools s !! m = Some pool.
Proof using All.
  destruct (set_monitors_struct mons1 s) as (_ & _ & E & _). unfold s1. rewrite E. intros Hp.
  destruct (decide (name = mon_name om)) as [->|Hne].
  - split; [done|]. unfold seeds in Hp. apply steps_parked_sub in Hp. cbn in Hp.
    rewrite (proj1 (park_gone mons1 s m om Hd Hm Hgone)) in Hp.
    assert (Hl : (m < length (monitor_pools s))%nat).
    { rewrite (po_pools_len _ _ _ _ _ (ok_pools _ Hok)). by eapply lookup_lt_Some. }
    destruct (lookup_lt_is_Some_2 _ _ Hl) as [p Ep]. rewrite Ep in *. cbn in Hp. congruence.
  - unfold seeds in Hp. apply steps_parked_sub in Hp. cbn in Hp. rewrite park_other in Hp.
    + by rewrite Hempty, lookup_empty in Hp.
    + intros x Hx <-. by apply Hstay.
Qed.

Lemma unplugged_parked_own pool :
  monitor_pools s !! m = Some pool →
  parked_pools s1 !! mon_name om = Some pool ∧
  parked_active_ws s1 !! mon_name om = Some (active_ws_of_monitor s (Z.of_nat m)).
Proof using All.
  intros Hp. destruct (set_monitors_struct mons1 s) as (_ & _ & E1 & E2). unfold s1. rewrite E1, E2.
  destruct (park_gone mons1 s m om Hd Hm Hgone) as [P1 P2]. rewrite Hp in P1.
  rewrite old_active_lookup in P2 by (done || by eapply lookup_lt_Some).
  unfold seeds. edestruct steps_parked_keep as [-> ->]; [|cbn; by rewrite P1, P2].
  intros [i x] Hx%elem_of_enumerate E. eapply Hgone; [by eapply list_elem_of_lookup_2|done].
Qed.

Lemma replug k x i j nm :
  monitors s !! k = Some x → ws_owner s !! i = Some (Z.of_nat k) →
  mons2 !! j = Some nm → mon_name nm = mon_name x →
  monitor_of (set_monitors mons2 s1) (Z.of_nat i) = Z.of_nat j ∧
  (active_ws_of_monitor s (Z.of_nat k) = Z.of_nat i →
   active_ws_of_monitor (set_monitors mons2 s1) (Z.of_nat j) = Z.of_nat i).
Proof using All.
  intros Hk Hi Hj En. pose proof unplugged_ok as Hok1. pose proof unplugged_distinct as Hd'.
  assert (Hlen : (i < length (workspaces s))%nat).
  { rewrite <- (po_owner_len _ _ _ _ _ (ok_pools _ Hok)). by eapply lookup_lt_Some. }
  destruct (po_owner _ _ _ _ _ (ok_pools _ Hok) i _ Hi) as [?|(k' & pool & Ek & Hpool & Hin)]; [lia|].
  apply Nat2Z.inj in Ek as <-. destruct (decide (k = m)) as [->|Hkm].
  - rewrite Hm in Hk. injection Hk as <-.
    destruct (unplugged_parked_own pool Hpool) as [P1 P2]. rewrite <- En in P1, P2.
    destruct (set_monitors_restores mons2 s1 j nm pool i Hok1 Hd' Hd2 Hj) as [H1 H2]; [|done|done|..].
    + intros q oq Hq E. assert (Hn : mon_name oq ∈ mon_name <$> monitors s1).
      { apply list_elem_of_fmap. exists oq. split; [done|]. by eapply list_elem_of_lookup_2. }
      rewrite unplugged_names in Hn. apply list_elem_of_fmap in Hn as (y & Ey & Hy).
      apply (Hgone y Hy). congruence.
    + destruct (set_monitors_struct mons1 s) as (_ & E & _). unfold s1. by rewrite E.
    + intros name p Hne Hp. apply unplugged_parked in Hp as [-> _]. congruence.
    + split; [done|]. intros Ha. apply H2. congruence.
  - assert (Hne : mon_name x ≠ mon_name om).
    { intros E. apply Hkm. exact (distinct_inj _ _ _ _ _ Hd Hk Hm E). }
    destruct (Hstay x) as (n1 & Hn1 & E1); [by eapply list_elem_of_lookup_2|done|].
    apply list_elem_of_lookup in Hn1 as [k1 Hk1].
    destruct (set_monitors_keeps mons1 s k k1 x n1 i) as [Ho Ha]; [done..| |].
    { intros name p. by rewrite Hempty, lookup_empty. }
    fold s1 in Ho, Ha. assert (Hx1 : (mon_name <$> monitors s1) !! k1 = Some (mon_name n1)).
    { by rewrite unplugged_names, list_lookup_fmap, Hk1. }
    rewrite list_lookup_fmap in Hx1. apply fmap_Some in Hx1 as (x1 & Hx1 & Ex1).
    destruct (set_monitors_keeps mons2 s1 k1 j x1 nm i) as [H1 H2];
      [done|done|done|done|done|congruence|by apply monitor_of_owner| |].
    + intros name p Hp Hip. apply unplugged_parked in Hp as [_ Hp].
      destruct (po_pool _ _ _ _ _ (ok_pools _ Hok) _ _ _ Hp Hip) as (i' & E & Hi').
      apply Nat2Z.inj in E as <-. rewrite Hi in Hi'. injection Hi' as E. lia.
    + split; [done|]. intros E. by apply H2, Ha.
Qed.
End Replug.
