(* ===== verification/MonitorLayout.v ===== *)
(** * Monitor composition ([core/src/monitor_layout.cpp])

    The compose graph names, for every monitor but the primary, a neighbour and
    a side.  [ComposeResolver] turns it into absolute positions by a depth-first
    walk with visiting marks; [build] normalises the positions and fills one
    layout entry per alias.

    The recursion of [resolve] follows names of a configuration that may be
    cyclic, so it takes fuel; [resolve_runs] shows that one unit per alias is
    enough, whatever the configuration. *)

From S2P Require Import Prelude Geometry Workspace WorkspaceManager.
Local Open Scope Z_scope.

(** ** Visiting marks: 0 unknown, 1 visiting, 2 done *)

Definition mark (st : gmap string Z) (n : string) : Z := default 0 (st !! n).

(** The names of [D] not yet seen: what bounds the depth of a walk. *)
Definition unmarked (D : gset string) (st : gmap string Z) : gset string :=
  filter (λ n, mark st n = 0) D.

Lemma mark_insert st n v m : mark (<[n := v]> st) m = if decide (n = m) then v else mark st m.
Proof. unfold mark. rewrite lookup_insert. by case_decide. Qed.

Lemma elem_of_unmarked D st n : n ∈ unmarked D st ↔ mark st n = 0 ∧ n ∈ D.
Proof. unfold unmarked. by rewrite elem_of_filter. Qed.

Lemma unmarked_shrinks D st n v :
  n ∈ D → mark st n = 0 → v ≠ 0 →
  (base.size (unmarked D (<[n := v]> st)) < base.size (unmarked D st))%nat.
Proof.
  intros Hn H0 Hv. apply subset_size. split.
  - intros m [Hm Hd]%elem_of_unmarked. rewrite mark_insert in Hm. apply elem_of_unmarked.
    by case_decide.
  - intros H. assert (Hx : n ∈ unmarked D (<[n := v]> st)) by (by apply H, elem_of_unmarked).
    apply elem_of_unmarked in Hx as [Hx _]. rewrite mark_insert, decide_True in Hx; done.
Qed.

(** ** The resolver *)

Definition is_rotated (rotation : string) : bool :=
  String.eqb rotation "left" || String.eqb rotation "right".

Definition rotated_size (a : MonitorAlias) : Vec2 :=
  if is_rotated (rotation a) then mkVec2 (alias_height a) (alias_width a)
  else mkVec2 (alias_width a) (alias_height a).

Record resolver := mkResolver {
  rpos : gmap string Vec2;
  rstate : gmap string Z }.
#[export] Instance eta_resolver : Eta resolver := λ r, mkResolver (rpos r) (rstate r).

Definition set_mark (n : string) (v : Z) : M resolver unit :=
  modify (λ r, r <| rstate ::= <[n := v]> |>).
Definition set_pos (n : string) (p : Vec2) : M resolver unit :=
  modify (λ r, r <| rpos ::= <[n := p]> |>).

(** Where [self] goes next to [rel], which is at [rp]; [None]: invalid side. *)
Definition beside (link : MonitorComposeLink) (self rel : MonitorAlias) (rp : Vec2)
    : option Vec2 :=
  let s := rotated_size self in
  let r := rotated_size rel in
  if String.eqb (side link) "left" then Some (mkVec2 (x rp - x s) (y rp + shift link))
  else if String.eqb (side link) "right" then Some (mkVec2 (x rp + x r) (y rp + shift link))
  else if String.eqb (side link) "top" then Some (mkVec2 (x rp + shift link) (y rp - y s))
  else if String.eqb (side link) "bottom" then Some (mkVec2 (x rp + shift link) (y rp + y r))
  else None.

Section Compose.
Context (aliases : list MonitorAlias) (compose : MonitorCompose).

(** [by_alias[a.alias] = &a]: of two entries with a name, the later one. *)
Definition by_alias : gmap string MonitorAlias :=
  foldl (λ m a, <[alias a := a]> m) ∅ aliases.
Definition by_monitor : gmap string MonitorComposeLink :=
  foldl (λ m l, <[link_monitor l := l]> m) ∅ (layout compose).

Fixpoint resolve (fuel : nat) (name : string) : M resolver bool :=
  match fuel with
  | O => checked (λ _, None)
  | S fuel =>
      st <- gets (λ r, mark (rstate r) name) ;;
      if st =? 2 then ret true
      else if st =? 1 then ret false
      else
        match by_alias !! name with
        | None => ret false
        | Some ai =>
            let it := by_monitor !! name in
            let implicit_primary :=
              String.eqb name (primary compose) && bool_decide (it = None) in
            if bool_decide (it = None) && negb implicit_primary then ret false
            else
              set_mark name 1 ;;
              if implicit_primary || String.eqb name (primary compose) then
                set_pos name (mkVec2 0 0) ;; set_mark name 2 ;; ret true
              else
                link <- checked (λ _, it) ;;
                if String.eqb (relative_to link) "" then set_mark name 2 ;; ret false
                else
                  ok <- resolve fuel (relative_to link) ;;
                  if negb ok then set_mark name 2 ;; ret false
                  else
                    match by_alias !! relative_to link with
                    | None => set_mark name 2 ;; ret false
                    | Some ri =>
                        rp <- gets (λ r, rpos r !! relative_to link) ;;
                        match rp ≫= beside link ai ri with
                        | None => set_mark name 2 ;; ret false
                        | Some p => set_pos name p ;; set_mark name 2 ;; ret true
                        end
                    end
        end
  end.

(** One unit of fuel per alias, and one for the first call. *)
Definition resolve_fuel : nat := S (base.size by_alias).

Definition enabled_names : list string := alias <$> filter (λ a, enabled a) aliases.

(** The calls of [resolve] in [compose_positions]. *)
Definition resolve_all : M resolver unit :=
  (if negb (String.eqb (primary compose) "")
   then resolve resolve_fuel (primary compose) ;; ret tt else ret tt) ;;
  for_each enabled_names (λ n, resolve resolve_fuel n ;; ret tt).

Definition INT_MAX : Z := 2147483647.

(** The least coordinates of the enabled monitors that have a position. *)
Definition min_corner (pos : gmap string Vec2) : Vec2 :=
  foldl (λ m n, match pos !! n with
                | Some p => mkVec2 (Z.min (x m) (x p)) (Z.min (y m) (y p))
                | None => m
                end) (mkVec2 INT_MAX INT_MAX) enabled_names.

Definition normalise (pos : gmap string Vec2) : gmap string Vec2 :=
  let m := min_corner pos in
  if (x m =? INT_MAX) || (y m =? INT_MAX) then pos
  else
    let sh := mkVec2 (if x m <? 0 then - x m else 0) (if y m <? 0 then - y m else 0) in
    if negb (x sh =? 0) || negb (y sh =? 0) then (λ p, vec_add p sh) <$> pos else pos.

Definition compose_positions : option (gmap string Vec2) :=
  match resolve_all (mkResolver ∅ ∅) with
  | Some (_, r) => Some (normalise (rpos r))
  | None => None
  end.

End Compose.

(** [backend::MonitorLayout]. *)
Record OutputLayout := mkOutputLayout {
  ol_output : string;
  ol_alias : string;
  ol_enabled : bool;
  ol_pos : Vec2;
  ol_size : Vec2;
  ol_refresh_rate : Z;
  ol_rotation : string;
  ol_primary : bool }.

Definition output_layout (compose : MonitorCompose) (pos : gmap string Vec2) (a : MonitorAlias)
    : OutputLayout :=
  mkOutputLayout (output a) (alias a) (enabled a) (default (mkVec2 0 0) (pos !! alias a))
    (mkVec2 (alias_width a) (alias_height a)) (rate a) (rotation a)
    (String.eqb (alias a) (primary compose)).

Definition build (aliases : list MonitorAlias) (compose : MonitorCompose)
    : option (list OutputLayout) :=
  if bool_decide (aliases = []) then Some []
  else
    match compose_positions aliases compose with
    | Some pos => Some (output_layout compose pos <$> aliases)
    | None => None
    end.

(** ** The walk *)

Definition valid_side (s : string) : bool :=
  String.eqb s "left" || String.eqb s "right" || String.eqb s "top" || String.eqb s "bottom".

Lemma beside_valid link self rel q :
  valid_side (side link) = true → is_Some (beside link self rel q).
Proof. unfold valid_side, beside. repeat case_match; cbn; try done; by eexists. Qed.
Lemma beside_valid_inv link self rel q p :
  beside link self rel q = Some p → valid_side (side link) = true.
Proof. unfold valid_side, beside. by repeat case_match. Qed.

Section Walk.
Context (aliases : list MonitorAlias) (compose : MonitorCompose).

(** [n] is at [p] for a reason: it is the primary, at the origin, or its link
    puts it there, next to a monitor that has a position. *)
Inductive placed (pos : gmap string Vec2) (n : string) : Vec2 → Prop :=
| placed_primary :
    n = primary compose → is_Some (by_alias aliases !! n) → placed pos n (mkVec2 0 0)
| placed_beside link self rel q p :
    n ≠ primary compose → by_monitor compose !! n = Some link → by_alias aliases !! n = Some self →
    by_alias aliases !! relative_to link = Some rel → pos !! relative_to link = Some q →
    beside link self rel q = Some p → placed pos n p.

(** The links of [n] lead to the primary in [d] steps. *)
Inductive placeable : nat → string → Prop :=
| pl_primary : is_Some (by_alias aliases !! primary compose) → placeable 0 (primary compose)
| pl_link n link d :
    n ≠ primary compose → is_Some (by_alias aliases !! n) → by_monitor compose !! n = Some link →
    relative_to link ≠ "" → valid_side (side link) = true →
    placeable d (relative_to link) → placeable (S d) n.

Lemma placeable_unique d d' n : placeable d n → placeable d' n → d = d'.
Proof.
  intros H. revert d'. induction H as [Ha|n link d Hn Ha Hl Hr Hs Hd IH];
    intros d' H'; inversion H'; subst; try done. f_equal. apply IH. congruence.
Qed.
Lemma placeable_alias d n : placeable d n → is_Some (by_alias aliases !! n).
Proof. by inversion 1. Qed.

Lemma placed_mono pos pos' n p : pos ⊆ pos' → placed pos n p → placed pos' n p.
Proof. intros Hs [? ?|]; [by constructor|]. econstructor; eauto. by eapply lookup_weaken. Qed.

Record walk (r : resolver) : Prop := {
  wk_range : ∀ n, 0 ≤ mark (rstate r) n ≤ 2;
  wk_done : ∀ n p, rpos r !! n = Some p → mark (rstate r) n = 2;
  wk_placed : ∀ n p, rpos r !! n = Some p → placed (rpos r) n p;
  wk_complete : ∀ n d, placeable d n → mark (rstate r) n = 2 → is_Some (rpos r !! n) }.

Record grows (r r' : resolver) : Prop := {
  gr_marks : ∀ m, mark (rstate r) m ≠ 0 → mark (rstate r') m = mark (rstate r) m;
  gr_one : ∀ m, mark (rstate r') m = 1 → mark (rstate r) m = 1;
  gr_pos : rpos r ⊆ rpos r' }.

Lemma grows_refl r : grows r r.
Proof. by split. Qed.
Lemma grows_trans r1 r2 r3 : grows r1 r2 → grows r2 r3 → grows r1 r3.
Proof.
  intros [M1 O1 P1] [M2 O2 P2]. split; [|by auto|by etrans].
  intros m Hm. rewrite M2 by (by rewrite M1). by apply M1.
Qed.

(** Every visiting monitor that leads to the primary does so through [n]. *)
Definition on_path (r : resolver) (n : string) : Prop :=
  ∀ m d, mark (rstate r) m = 1 → placeable d m → ∃ d', placeable d' n ∧ (d' < d)%nat.

Lemma walk_init : walk (mkResolver ∅ ∅).
Proof. by split. Qed.

Lemma range_insert st n v :
  (∀ m, 0 ≤ mark st m ≤ 2) → 0 ≤ v ≤ 2 → ∀ m, 0 ≤ mark (<[n := v]> st) m ≤ 2.
Proof. intros H Hv m. rewrite mark_insert. by case_decide. Qed.

Definition visiting (n : string) (r : resolver) : resolver := r <| rstate ::= <[n := 1]> |>.
Definition finished (n : string) (r : resolver) : resolver := r <| rstate ::= <[n := 2]> |>.

Lemma walk_visiting r n : walk r → mark (rstate r) n = 0 → walk (visiting n r).
Proof.
  intros [W0 W1 W2 W3] H0. split; cbn; [by apply range_insert| |done|].
  - intros m p Hm. rewrite mark_insert. case_decide; [subst m|by eapply W1].
    apply W1 in Hm. congruence.
  - intros m d Hm. rewrite mark_insert. case_decide; [done|]. by apply (W3 m d).
Qed.

Lemma on_path_visiting r n link :
  on_path r n → n ≠ primary compose → by_monitor compose !! n = Some link →
  on_path (visiting n r) (relative_to link).
Proof.
  intros Hv Hn Hl m d. cbn. rewrite mark_insert. case_decide as E; [subst m|].
  - intros _ H. inversion H; subst; [done|].
    assert (link0 = link) as -> by congruence. eexists; split; [done|lia].
  - intros H1 Hd. destruct (Hv m d H1 Hd) as (d' & Hd' & Hlt).
    inversion Hd'; subst; [done|].
    assert (link0 = link) as -> by congruence. eexists; split; [done|lia].
Qed.

Lemma grows_finished r r1 n r2 :
  mark (rstate r) n = 0 → grows (visiting n r) r1 →
  rstate r2 = <[n := 2]> (rstate r1) → rpos r1 ⊆ rpos r2 → grows r r2.
Proof.
  intros H0 [M O P] Hs Hp. split.
  - intros m Hm. rewrite Hs, mark_insert. case_decide; [by subst|].
    rewrite M; cbn; rewrite mark_insert, decide_False; done.
  - intros m. rewrite Hs, mark_insert. case_decide; [done|]. intros HO%O. cbn in HO.
    by rewrite mark_insert, decide_False in HO.
  - etrans; [|done]. exact P.
Qed.

Lemma walk_failed r n : walk r → (∀ d, ¬ placeable d n) → walk (finished n r).
Proof.
  intros [W0 W1 W2 W3] Hn. split; cbn; [by apply range_insert| |done|].
  - intros m p Hm. rewrite mark_insert. case_decide; [done|by eapply W1].
  - intros m d Hm. rewrite mark_insert. case_decide; [subst m; by destruct (Hn d)|]. by eapply W3.
Qed.

Lemma walk_placed r n p :
  walk r → mark (rstate r) n ≠ 2 → placed (rpos r) n p →
  let r' := r <| rpos ::= <[n := p]> |> in walk (finished n r') ∧ rpos r ⊆ rpos r'.
Proof.
  intros [W0 W1 W2 W3] H1 Hp r'.
  assert (Hsub : rpos r ⊆ rpos r').
  { apply insert_subseteq. destruct (rpos r !! n) eqn:E; [|done]. by apply W1 in E. }
  split; [split; cbn; [by apply range_insert|..]|done].
  - intros m q. rewrite mark_insert, lookup_insert. case_decide; [done|]. by apply W1.
  - intros m q. rewrite lookup_insert. case_decide as E; [subst m; intros [= <-]|intros Hq];
      (eapply placed_mono; [exact Hsub|]); [done|by apply W2].
  - intros m d Hm. rewrite mark_insert, lookup_insert. case_decide; [by eexists|]. by apply (W3 _ d).
Qed.
Definition resolve_post (r : resolver) (n : string) (b : bool) (r' : resolver) : Prop :=
  walk r' ∧ grows r r' ∧ (b = true → mark (rstate r') n = 2) ∧
  (∀ d, placeable d n → b = true).

(** The ways a call that has marked [n] as visiting ends. *)
Lemma finish_failed r r1 n :
  mark (rstate r) n = 0 → walk r1 → grows (visiting n r) r1 → (∀ d, ¬ placeable d n) →
  wp (set_mark n 2 ;; ret false) (resolve_post r n) r1.
Proof.
  intros H0 Hw Hg Hn. unfold set_mark. wp_steps. split_and!; [by apply walk_failed| |done|].
  - by eapply grows_finished.
  - intros d Hd. by destruct (Hn d).
Qed.

Lemma finish_placed r r1 n p :
  mark (rstate r) n = 0 → walk r1 → grows (visiting n r) r1 → placed (rpos r1) n p →
  wp (set_pos n p ;; set_mark n 2 ;; ret true) (resolve_post r n) r1.
Proof.
  intros H0 Hw Hg Hp. unfold set_pos, set_mark. wp_steps.
  assert (Hm : mark (rstate r1) n = 1)
    by (rewrite (gr_marks _ _ Hg); cbn; rewrite mark_insert, decide_True; done).
  destruct (walk_placed r1 n p Hw ltac:(by rewrite Hm) Hp) as [Hw' Hs].
  split_and!; [done|by eapply grows_finished| |done].
  intros _. cbn. by rewrite mark_insert, decide_True.
Qed.

Lemma resolve_spec fuel n r :
  walk r → on_path r n →
  (base.size (unmarked (dom (by_alias aliases)) (rstate r)) < fuel)%nat →
  wp (resolve aliases compose fuel n) (resolve_post r n) r.
Proof.
  revert n r. induction fuel as [|fuel IH]; intros n r Hw Hv Hfuel; [lia|].
  cbn [resolve]. do 2 wp_step. destruct (Z.eqb_spec (mark (rstate r) n) 2) as [H2|H2].
  { wp_step. split_and!; [done|apply grows_refl|done|done]. }
  destruct (Z.eqb_spec (mark (rstate r) n) 1) as [H1|H1].
  { wp_step. split_and!; [done|apply grows_refl|done|]. intros d Hd.
    destruct (Hv n d H1 Hd) as (d' & Hd' & Hlt). rewrite (placeable_unique _ _ _ Hd Hd') in Hlt. lia. }
  assert (H0 : mark (rstate r) n = 0) by (pose proof (wk_range _ Hw n); lia). clear H1 H2.
  destruct (by_alias aliases !! n) as [ai|] eqn:Hai; cycle 1.
  { wp_step. split_and!; [done|apply grows_refl|done|]. intros d [a Ha]%placeable_alias. congruence. }
  cbv zeta. pose proof (walk_visiting r n Hw H0) as Hwv. unfold set_mark at 1.
  destruct (String.eqb_spec n (primary compose)) as [Hp|Hp].
  { rewrite orb_true_r. cbn [andb]. rewrite andb_negb_r. do 2 wp_step.
    apply finish_placed; [done|done|apply grows_refl|]. by apply placed_primary; [|eexists]. }
  cbn [andb orb negb]. rewrite andb_true_r.
  destruct (by_monitor compose !! n) as [link|] eqn:Hl; rewrite ?bool_decide_true by done; cycle 1.
  { wp_step. split_and!; [done|apply grows_refl|done|]. intros d Hd. inversion Hd; congruence. }
  rewrite bool_decide_false by done. do 3 wp_step. apply (wp_checked _ _ _ link); [done|].
  destruct (String.eqb_spec (relative_to link) "") as [Hr|Hr].
  { apply finish_failed; [done|done|apply grows_refl|].
    intros d Hd. inversion Hd; subst; congruence. }
  wp_step. eapply wp_mono; [apply IH; [done|by apply on_path_visiting|]|].
  { eapply Nat.lt_le_trans; [apply unmarked_shrinks; [|done|done]|lia]. by apply elem_of_dom. }
  cbv beta. intros b r1 (Hw1 & Hg1 & Hb & Hpl). fold (visiting n r) in *.
  assert (Hrel : ∀ d, placeable d n → ∃ d', placeable d' (relative_to link)).
  { intros d Hd. inversion Hd; subst; [congruence|]. eexists. replace link with link0 by congruence. done. }
  destruct b; cbn [negb]; cycle 1.
  { apply finish_failed; [done..|]. intros d (d' & Hd')%Hrel. by apply Hpl in Hd'. }
  destruct (by_alias aliases !! relative_to link) as [ri|] eqn:Hri; cycle 1.
  { apply finish_failed; [done..|]. intros d (d' & Hd')%Hrel. apply placeable_alias in Hd' as [??]. congruence. }
  do 2 wp_step. destruct (rpos r1 !! relative_to link) as [q|] eqn:Hq; cbn; cycle 1.
  { apply finish_failed; [done..|]. intros d (d' & Hd')%Hrel.
    apply (wk_complete _ Hw1) in Hd' as [? ?]; [congruence|auto]. }
  destruct (beside link ai ri q) as [p|] eqn:Hbe.
  - apply finish_placed; [done..|]. by eapply placed_beside.
  - apply finish_failed; [done..|]. intros d Hd. inversion Hd; subst; [congruence|].
    replace link0 with link in * by congruence.
    destruct (beside_valid link ai ri q) as [? ?]; [done|congruence].
Qed.
Definition settled (r : resolver) : Prop := ∀ n, mark (rstate r) n ≠ 1.

Lemma settled_on_path r n : settled r → on_path r n.
Proof. intros Hs m d Hm. by destruct (Hs m). Qed.

Lemma unmarked_size st : (base.size (unmarked (dom (by_alias aliases)) st) < resolve_fuel aliases)%nat.
Proof.
  unfold resolve_fuel. rewrite <- size_dom.
  apply Nat.lt_succ_r, subseteq_size. intros n Hn. by apply elem_of_unmarked in Hn as [_ ?].
Qed.

(** A call from outside of any walk. *)
Lemma resolve_top r n :
  walk r → settled r →
  wp (resolve aliases compose (resolve_fuel aliases) n)
     (λ _ r', walk r' ∧ settled r' ∧ rpos r ⊆ rpos r' ∧
              (∀ d, placeable d n → is_Some (rpos r' !! n))) r.
Proof.
  intros Hw Hs. eapply wp_mono; [apply resolve_spec; [done|by apply settled_on_path|apply unmarked_size]|].
  cbv beta. intros b r' (Hw' & [HM HO HP] & Hb & Hpl). split_and!; [done| |done|].
  - intros m Hm. by apply (Hs m), HO.
  - intros d Hd. eapply wk_complete; [done..|]. by apply Hb, (Hpl d).
Qed.

Lemma resolve_all_spec :
  wp (resolve_all aliases compose) (λ _ r, walk r ∧
    ∀ n d, n ∈ enabled_names aliases → placeable d n → is_Some (rpos r !! n)) (mkResolver ∅ ∅).
Proof.
  unfold resolve_all. wp_step.
  apply (wp_mono _ (λ _ r, walk r ∧ settled r)).
  { wp_step; [|wp_step; split; [apply walk_init|done]]. wp_step.
    eapply wp_mono; [by apply resolve_top; [apply walk_init|]|]. by intros ? r (? & ? & _). }
  intros [] r [Hw Hs].
  eapply wp_mono; [apply (wp_for_each_prefix _ _ (λ pre r, walk r ∧ settled r ∧
    ∀ n d, n ∈ pre → placeable d n → is_Some (rpos r !! n)))|].
  - intros pre n post r1 _ (Hw1 & Hs1 & Hpre). wp_step.
    eapply wp_mono; [by apply resolve_top|]. cbv beta. intros b r2 (Hw2 & Hs2 & Hsub & Hn).
    wp_step. split_and!; [done..|]. intros m d [Hm| ->%list_elem_of_singleton]%elem_of_app Hd; [|by eapply Hn].
    destruct (Hpre m d Hm Hd) as [p Hp]. exists p. by eapply lookup_weaken.
  - split_and!; [done..|]. intros n d Hn. by apply elem_of_nil in Hn.
  - by intros [] r' (? & _ & ?).
Qed.

Definition rects_disjoint (p s q r : Vec2) : Prop :=
  x p + x s ≤ x q ∨ x q + x r ≤ x p ∨ y p + y s ≤ y q ∨ y q + y r ≤ y p.

Lemma beside_disjoint link self rel q p :
  beside link self rel q = Some p → rects_disjoint p (rotated_size self) q (rotated_size rel).
Proof.
  unfold beside, rects_disjoint. repeat case_match; intros Hp; simplify_eq; cbn; lia.
Qed.

(** Why [n] is where it is, when the primary is at [o]. *)
Definition composed (pos : gmap string Vec2) (o : Vec2) (n : string) (p : Vec2) : Prop :=
  n = primary compose ∧ p = o ∨ ∃ link self rel q,
    n ≠ primary compose ∧ by_monitor compose !! n = Some link ∧ by_alias aliases !! n = Some self ∧
    by_alias aliases !! relative_to link = Some rel ∧ pos !! relative_to link = Some q ∧
    beside link self rel q = Some p ∧
    rects_disjoint p (rotated_size self) q (rotated_size rel).

Lemma beside_translate link self rel q sh :
  beside link self rel (vec_add q sh) = (λ p, vec_add p sh) <$> beside link self rel q.
Proof.
  unfold beside, vec_add. cbn. repeat case_match; cbn; try done; do 2 f_equal; lia.
Qed.

Lemma composed_translate pos n p sh :
  placed pos n p → composed ((λ p, vec_add p sh) <$> pos) sh n (vec_add p sh).
Proof.
  intros [Hn _|link self rel q p' Hn Hl Ha Hr Hq Hb]; [left; split; [done|by destruct sh]|right].
  exists link, self, rel, (vec_add q sh). split_and!; [done..| | |].
  - by rewrite lookup_fmap, Hq.
  - by rewrite beside_translate, Hb.
  - eapply beside_disjoint. by rewrite beside_translate, Hb.
Qed.

Lemma min_corner_le pos n p :
  n ∈ enabled_names aliases → pos !! n = Some p →
  x (min_corner aliases pos) ≤ x p ∧ y (min_corner aliases pos) ≤ y p.
Proof.
  unfold min_corner. generalize (mkVec2 INT_MAX INT_MAX) as m0. intros m0 Hn Hp. revert m0.
  assert (Hle : ∀ l m0, let m := foldl (λ m n, match pos !! n with
     | Some p => mkVec2 (Z.min (x m) (x p)) (Z.min (y m) (y p)) | None => m end) m0 l in
     x m ≤ x m0 ∧ y m ≤ y m0).
  { induction l as [|a l IH]; intros m0; cbn; [done|].
    destruct (pos !! a) as [q|]; [|by apply IH].
    destruct (IH (mkVec2 (Z.min (x m0) (x q)) (Z.min (y m0) (y q)))) as [Hx Hy]. cbn in Hx, Hy. lia. }
  induction Hn as [b l|b a l Hn IH]; intros m0; cbn; [|by apply IH].
  rewrite Hp. specialize (Hle l (mkVec2 (Z.min (x m0) (x p)) (Z.min (y m0) (y p)))).
  cbn in Hle. lia.
Qed.

Lemma min_corner_attained pos :
  let m := min_corner aliases pos in
  let at_ (f : Vec2 → Z) := f m = INT_MAX ∨ ∃ n p, n ∈ enabled_names aliases ∧ pos !! n = Some p ∧ f p = f m in
  at_ x ∧ at_ y.
Proof.
  cbv zeta. unfold min_corner. generalize (enabled_names aliases) as l. intros l.
  assert (∀ m0, let m := foldl (λ m n, match pos !! n with
     | Some p => mkVec2 (Z.min (x m) (x p)) (Z.min (y m) (y p)) | None => m end) m0 l in
     (x m = x m0 ∨ ∃ n p, n ∈ l ∧ pos !! n = Some p ∧ x p = x m) ∧
     (y m = y m0 ∨ ∃ n p, n ∈ l ∧ pos !! n = Some p ∧ y p = y m)) as H; [|apply H].
  induction l as [|a l IH]; intros m0; cbn; [by split; left|].
  assert (∀ (f : Vec2 → Z) v, (∃ n p, n ∈ l ∧ pos !! n = Some p ∧ f p = v) →
    ∃ n p, n ∈ a :: l ∧ pos !! n = Some p ∧ f p = v) as Hcons.
  { intros f v (n & p & Hn & ?). exists n, p. split; [by right|done]. }
  destruct (pos !! a) as [q|] eqn:Hq; cycle 1.
  { destruct (IH m0) as [Hx Hy]. split; [destruct Hx as [?|?]|destruct Hy as [?|?]];
      first [by left|right; by apply (Hcons x)|right; by apply (Hcons y)]. }
  destruct (IH (mkVec2 (Z.min (x m0) (x q)) (Z.min (y m0) (y q)))) as [Hx Hy]. cbn in Hx, Hy. split.
  - destruct Hx as [->|Hx]; [|by right; apply (Hcons x)].
    destruct (Z.min_spec (x m0) (x q)) as [[_ ->]|[_ ->]]; [by left|right]. exists a, q. split; [by left|done].
  - destruct Hy as [->|Hy]; [|by right; apply (Hcons y)].
    destruct (Z.min_spec (y m0) (y q)) as [[_ ->]|[_ ->]]; [by left|right]. exists a, q. split; [by left|done].
Qed.

(** The place [o] of the primary is the least one, in each direction, at which
    no enabled monitor is at a negative coordinate. *)
Record cornered (pos : gmap string Vec2) (o : Vec2) : Prop := {
  co_origin : 0 ≤ x o ∧ 0 ≤ y o;
  co_x : x o = 0 ∨ ∃ n p, n ∈ enabled_names aliases ∧ pos !! n = Some p ∧ x p = 0;
  co_y : y o = 0 ∨ ∃ n p, n ∈ enabled_names aliases ∧ pos !! n = Some p ∧ y p = 0;
  co_positive : primary compose ∈ enabled_names aliases → ∀ n p,
    n ∈ enabled_names aliases → pos !! n = Some p → 0 ≤ x p ∧ 0 ≤ y p }.

Lemma normalise_spec pos :
  (primary compose ∈ enabled_names aliases → pos !! primary compose = Some (mkVec2 0 0)) →
  ∃ sh, normalise aliases pos = (λ p, vec_add p sh) <$> pos ∧ cornered (normalise aliases pos) sh.
Proof.
  intros Hprim.
  assert (Hid : pos = (λ p, vec_add p (mkVec2 0 0)) <$> pos).
  { rewrite <- map_fmap_id at 1. apply map_fmap_ext. intros n p _. unfold vec_add. destruct p. cbn.
    f_equal; lia. }
  destruct (min_corner_attained pos) as [Hmx Hmy]. pose proof (min_corner_le pos) as Hle.
  unfold normalise. set (m := min_corner aliases pos) in *. cbv zeta.
  assert (∀ b, b = true → (b = true → x m = INT_MAX ∨ y m = INT_MAX) → cornered pos (mkVec2 0 0)) as Hmax.
  { intros b Hb HM. split; [done|by left|by left|]. intros Hp n p Hn Hnp.
    specialize (Hle _ _ Hp (Hprim Hp)) as [? ?]. cbn in *. destruct (HM Hb); unfold INT_MAX in *; lia. }
  destruct ((x m =? INT_MAX) || (y m =? INT_MAX)) eqn:EM.
  { exists (mkVec2 0 0). split; [done|]. apply (Hmax _ EM). rewrite orb_true_iff, !Z.eqb_eq. done. }
  apply orb_false_iff in EM as [Ex%Z.eqb_neq Ey%Z.eqb_neq]. clear Hmax.
  set (sh := mkVec2 _ _). exists sh.
  assert (Hn : (if negb (x sh =? 0) || negb (y sh =? 0) then (λ p, vec_add p sh) <$> pos else pos) =
    (λ p, vec_add p sh) <$> pos).
  { destruct (Z.eqb_spec (x sh) 0) as [E1|E1], (Z.eqb_spec (y sh) 0) as [E2|E2]; try done.
    cbn [negb orb]. rewrite Hid at 1. apply map_fmap_ext. intros n p _. unfold vec_add.
    rewrite E1, E2. done. }
  rewrite Hn. split; [done|].
  assert (Hsx : x sh = Z.max 0 (- x m)) by (subst sh; cbn; destruct (Z.ltb_spec (x m) 0); lia).
  assert (Hsy : y sh = Z.max 0 (- y m)) by (subst sh; cbn; destruct (Z.ltb_spec (y m) 0); lia).
  clearbody sh. split; [lia| | |].
  - destruct Hmx as [?|(n & p & He & Hp & Hv)]; [done|]. destruct (Z.eq_dec (x sh) 0) as [?|?]; [by left|right].
    exists n, (vec_add p sh). split; [done|]. rewrite lookup_fmap, Hp. split; [done|]. cbn. lia.
  - destruct Hmy as [?|(n & p & He & Hp & Hv)]; [done|]. destruct (Z.eq_dec (y sh) 0) as [?|?]; [by left|right].
    exists n, (vec_add p sh). split; [done|]. rewrite lookup_fmap, Hp. split; [done|]. cbn. lia.
  - intros _ n p He (q & <- & Hq)%lookup_fmap_Some. destruct (Hle _ _ He Hq). cbn. lia.
Qed.

(** ** The layout of the outputs *)

Lemma alias_known a : a ∈ aliases → is_Some (by_alias aliases !! alias a).
Proof.
  unfold by_alias. generalize (∅ : gmap string MonitorAlias) as m0. intros m0 Ha. revert m0.
  assert (Hkeep : ∀ l m0 k, is_Some (m0 !! k) →
    is_Some (foldl (λ (m : gmap string MonitorAlias) b, <[alias b := b]> m) m0 l !! k)).
  { induction l as [|b l IH]; intros m0 k Hk; cbn; [done|]. apply IH.
    rewrite lookup_insert. by case_decide. }
  induction Ha as [b l|c b l Ha IH]; intros m0; cbn; [|by apply IH].
  apply Hkeep. rewrite lookup_insert_eq. by eexists.
Qed.

Lemma enabled_alias n : n ∈ enabled_names aliases → is_Some (by_alias aliases !! n).
Proof.
  unfold enabled_names. intros (a & -> & [_ Ha]%list_elem_of_filter)%list_elem_of_fmap.
  by apply alias_known.
Qed.

(** What [build] promises of the positions it fills in. *)
Record layout_ok (pos : gmap string Vec2) (o : Vec2) : Prop := {
  lo_composed : ∀ n p, pos !! n = Some p → composed pos o n p;
  lo_complete : ∀ n d, n ∈ enabled_names aliases → placeable d n → is_Some (pos !! n);
  lo_corner : cornered pos o }.

Lemma compose_positions_spec :
  ∃ pos o, compose_positions aliases compose = Some pos ∧ layout_ok pos o.
Proof.
  pose proof resolve_all_spec as H. apply wp_some in H as ([] & r & E & Hw & Hc).
  unfold compose_positions. rewrite E.
  destruct (normalise_spec (rpos r)) as (sh & Hn & Hcorner).
  { intros He. destruct (Hc _ 0%nat He) as [q Hq]; [by apply pl_primary, enabled_alias|]. rewrite Hq.
    pose proof (wk_placed _ Hw _ _ Hq) as Hp. by inversion Hp. }
  eexists _, sh. split; [done|]. split; [| |done].
  - rewrite Hn. intros n p (q & <- & Hq)%lookup_fmap_Some. apply composed_translate.
    by apply (wk_placed _ Hw).
  - intros n d He Hd. rewrite Hn, lookup_fmap. destruct (Hc n d He Hd) as [q ->]. by eexists.
Qed.
End Walk.

(** [monitor_layout::build] terminates on every configuration, cyclic ones
    included, and yields one entry per alias, in order; every position it fills
    in follows from the compose link (and so does not overlap the neighbour it
    is relative to); every enabled monitor whose links lead to the primary gets
    one; with the primary enabled no enabled monitor is at a negative
    coordinate. *)
Theorem build_places aliases compose :
  ∃ pos o, build aliases compose = Some (output_layout compose pos <$> aliases) ∧
    layout_ok aliases compose pos o.
Proof.
  destruct (compose_positions_spec aliases compose) as (pos & o & E & Hok).
  exists pos, o. split; [|done]. unfold build. case_bool_decide as Ha; [by subst|]. by rewrite E.
Qed.
