(* ===== verification/Events.v ===== *)
(** * Domain events and the message envelope ([backend/events.hpp],
    [support/message.hpp])

    One constructor per struct of the namespace [event].  Keys, masks, times
    and atoms are unsigned integers of the width the code gives them. *)

From S2P Require Import Prelude Geometry.
Local Open Scope Z_scope.

(** ** [fnv1a] *)

(** The hash of a string: 32-bit, wrapping multiplication. *)
Fixpoint fnv1a (s : list Z) (h : Z) : Z :=
  match s with
  | [] => h
  | c :: s' => fnv1a s' (to_u32 (Z.lxor h c * 16777619))
  end.

(** The hash of a literal, with the default seed. *)
Definition fnv1a_tag (s : string) : Z :=
  fnv1a ((λ a, Z.of_N (Ascii.N_of_ascii a)) <$> String.list_ascii_of_string s) 2166136261.

(** ** [MessageEnvelope] *)

(** The concept [Message]: a tag and a flat representation of at most 32
    bytes.  [memcpy] in and out are [to_bytes] and [of_bytes]. *)
Class Message (T : Type) := {
  kTag : Z;
  to_bytes : T → list Z;
  of_bytes : list Z → T;
  message_fits (t : T) : (length (to_bytes t) ≤ 32)%nat;
  of_to_bytes (t : T) rest : of_bytes (to_bytes t ++ rest) = t }.
Arguments kTag T {_}.

Record MessageEnvelope := mkEnvelope { tag_ : Z; storage_ : list Z }.

Definition empty_envelope : MessageEnvelope := mkEnvelope 0 (replicate 32 0).
Definition envelope_empty (e : MessageEnvelope) : bool := tag_ e =? 0.

(** [memcpy(e.storage_, &payload, sizeof(T))] into the zeroed buffer. *)
Definition pack {T} `{Message T} (payload : T) : MessageEnvelope :=
  let bytes := to_bytes payload in
  mkEnvelope (kTag T) (bytes ++ replicate (32 - length bytes) 0).

Definition unpack (T : Type) `{Message T} (e : MessageEnvelope) : option T :=
  if negb (tag_ e =? kTag T) then None else Some (of_bytes (storage_ e)).

(** ** Events *)

Inductive Event :=
| WindowMapped (window : Z)
| WindowUnmapped (window : Z) (withdrawn : bool)
| FocusChanged (window : Z)
| WorkspaceSwitched (workspace_id : Z)
| ExposeWindow (window : Z)
| RaiseDocks
| DisplayTopologyChanged
| RuntimeStarted
| WindowAdopted (window : Z) (currently_visible : bool)
| KeyPressEv (mods keycode keysym : Z)
| ButtonEv (window root : Z) (root_pos event_pos : Vec2) (time button state : Z) (release : bool)
| MotionEv (window : Z) (root_pos : Vec2) (state : Z)
| ClientMessageEv (window type format : Z) (data : list Z)
| DestroyNotify (window : Z)
| ConfigureNotify (window : Z) (pos size : Vec2)
| PropertyNotify (window atom : Z)
| WindowAssignedToWorkspace (window workspace_id : Z)
| RuntimeStopping (exec_restart : bool)
| ConfigReloaded
| ChildExited (pid exit_code : Z)
| CustomEvent (msg : MessageEnvelope).

(** ** The envelope round trip *)

Lemma pack_size {T} `{Message T} (t : T) : length (storage_ (pack t)) = 32%nat.
Proof.
  unfold pack. cbn. rewrite length_app, length_replicate.
  pose proof (message_fits t). lia.
Qed.
