(* ===== verification/Protocol.v ===== *)
(** * Protocol messages ([core/include/protocol/], [support/message.hpp])

    The two payloads that travel in envelopes, as instances of [Message]: the
    bytes memcpy reads and writes (a 32-bit id, least significant byte first; an
    array of 24 characters), and the round trip through [pack] and [unpack]. *)

From S2P Require Import Prelude Geometry Events.
Local Open Scope Z_scope.

(** ** [system_tray::IconDocked] *)

Definition in_u32 (z : Z) : bool := (0 <=? z) && (z <? 4294967296).

Record IconDocked := mkIconDocked { icon : Z; icon_u32 : in_u32 icon = true }.

Definition u32_to_bytes (z : Z) : list Z :=
  [Z.land z 255; Z.land (Z.shiftr z 8) 255; Z.land (Z.shiftr z 16) 255; Z.land (Z.shiftr z 24) 255].
Definition bytes_to_u32 (b : list Z) : Z :=
  to_u32 (default 0 (b !! 0%nat) + 256 * default 0 (b !! 1%nat) +
          65536 * default 0 (b !! 2%nat) + 16777216 * default 0 (b !! 3%nat)).

Lemma bytes_to_u32_range b : in_u32 (bytes_to_u32 b) = true.
Proof.
  unfold bytes_to_u32, to_u32, in_u32. generalize (default 0 (b !! 0%nat) + 256 * default 0 (b !! 1%nat) +
    65536 * default 0 (b !! 2%nat) + 16777216 * default 0 (b !! 3%nat)). intros v.
  change 4294967295 with (Z.ones 32). rewrite Z.land_ones by lia.
  pose proof (Z.mod_pos_bound v (2 ^ 32) ltac:(lia)). change (2 ^ 32) with 4294967296 in *.
  apply andb_true_iff. rewrite Z.leb_le, Z.ltb_lt. lia.
Qed.

Lemma bytes_roundtrip z rest : in_u32 z = true → bytes_to_u32 (u32_to_bytes z ++ rest) = z.
Proof.
  unfold in_u32. intros [Hlo%Z.leb_le Hhi%Z.ltb_lt]%andb_true_iff.
  unfold bytes_to_u32, u32_to_bytes. cbn [app lookup list_lookup].
  unfold default, from_option, Datatypes.id.
  change 255 with (Z.ones 8). rewrite !Z.land_ones, !Z.shiftr_div_pow2 by lia.
  change (2 ^ 8) with 256. change (2 ^ 16) with 65536. change (2 ^ 24) with 16777216.
  pose proof (Z.div_mod z 256 ltac:(lia)). pose proof (Z.div_mod (z / 256) 256 ltac:(lia)).
  pose proof (Z.div_mod (z / 65536) 256 ltac:(lia)).
  assert (E1 : z / 65536 = z / 256 / 256) by (rewrite Z.div_div by lia; done).
  assert (E2 : z / 16777216 = z / 65536 / 256) by (rewrite Z.div_div by lia; done).
  assert (E3 : (z / 16777216) mod 256 = z / 16777216).
  { apply Z.mod_small. split; [apply Z.div_pos; lia|apply Z.div_lt_upper_bound; lia]. }
  rewrite E3, to_u32_small; lia.
Qed.

#[export] Program Instance message_IconDocked : Message IconDocked := {
  kTag := fnv1a_tag "system_tray:icon_docked";
  to_bytes m := u32_to_bytes (icon m);
  of_bytes b := mkIconDocked (bytes_to_u32 b) (bytes_to_u32_range b) }.
Next Obligation. intros t. cbn. lia. Qed.
Next Obligation.
  intros [i Hi] rest. cbn [icon]. pose proof (bytes_roundtrip i rest Hi) as E.
  generalize (bytes_to_u32_range (u32_to_bytes i ++ rest)). rewrite E. intros H.
  f_equal. apply proof_irrel.
Qed.

(** ** [keyboard::LayoutChanged] *)

Definition kLayoutNameMax : nat := 24.

Record LayoutChanged := mkLayoutChanged {
  lc_name : list Z;
  lc_size : bool_decide (length lc_name = kLayoutNameMax) = true }.

Definition fit (n : nat) (l : list Z) : list Z := take n l ++ replicate (n - length l) 0.
Lemma fit_size l : bool_decide (length (fit kLayoutNameMax l) = kLayoutNameMax) = true.
Proof.
  apply bool_decide_eq_true. unfold fit. rewrite length_app, length_take, length_replicate. lia.
Qed.

(** [LayoutChanged::from]: at most 23 characters, then zeros. *)
Definition from (sv : list Z) : LayoutChanged :=
  mkLayoutChanged (fit kLayoutNameMax (take (kLayoutNameMax - 1) sv)) (fit_size _).

(** The name a reader of the zero-terminated array sees. *)
Fixpoint c_str (l : list Z) : list Z :=
  match l with
  | [] => []
  | c :: l' => if c =? 0 then [] else c :: c_str l'
  end.

(** [std::string(data)] and what follows the terminator; without a terminator
    it reads past the array. *)
Fixpoint read_c_string (b : list Z) : option (list Z * list Z) :=
  match b with
  | [] => None
  | c :: b' => if c =? 0 then Some ([], b')
               else match read_c_string b' with
                    | Some (s, rest) => Some (c :: s, rest)
                    | None => None
                    end
  end.

#[export] Program Instance message_LayoutChanged : Message LayoutChanged := {
  kTag := fnv1a_tag "keyboard:layout_changed";
  to_bytes m := lc_name m;
  of_bytes b := mkLayoutChanged (fit kLayoutNameMax b) (fit_size b) }.
Next Obligation. intros [l Hl]. cbn. apply bool_decide_eq_true in Hl. rewrite Hl. unfold kLayoutNameMax. lia. Qed.
Next Obligation.
  intros [l Hl] rest. cbn [lc_name]. pose proof (proj1 (bool_decide_eq_true _) Hl) as E.
  assert (Ef : fit kLayoutNameMax (l ++ rest) = l).
  { unfold fit. rewrite take_app_le, take_ge, length_app by lia.
    replace (kLayoutNameMax - (length l + length rest))%nat with 0%nat by lia. apply app_nil_r. }
  generalize (fit_size (l ++ rest)). rewrite Ef. intros H. f_equal. apply proof_irrel.
Qed.

(** ** Round trips *)

Lemma unpack_pack {T} `{Message T} (t : T) : unpack T (pack t) = Some t.
Proof. unfold unpack, pack. cbn [tag_ storage_]. by rewrite Z.eqb_refl, of_to_bytes. Qed.

Lemma unpack_other T U `{Message T, Message U} (t : T) :
  kTag U ≠ kTag T → unpack U (pack t) = None.
Proof.
  intros Hne. unfold unpack, pack. cbn [tag_]. by rewrite (proj2 (Z.eqb_neq _ _)) by congruence.
Qed.

Lemma c_str_fit l n : Forall (λ c, c ≠ 0) l → (length l < n)%nat → c_str (fit n l) = l.
Proof.
  intros Hl Hn. unfold fit. rewrite take_ge by lia.
  destruct (n - length l)%nat as [|k] eqn:E; [lia|]. cbn [replicate]. clear E Hn.
  induction Hl as [|c l Hc _ IH]; [done|]. cbn. by rewrite (proj2 (Z.eqb_neq _ _) Hc), IH.
Qed.

(** A payload packed into an envelope is unpacked unchanged under its own
    type and not at all under the other type; a layout name sent through
    [LayoutChanged::from] is read back as its first 23 characters. *)
Theorem envelope_roundtrip (i : IconDocked) (sv : list Z) :
  Forall (λ c, c ≠ 0) sv →
  unpack IconDocked (pack i) = Some i ∧ unpack LayoutChanged (pack i) = None ∧
  unpack IconDocked (pack (from sv)) = None ∧
  c_str ∘ lc_name <$> unpack LayoutChanged (pack (from sv)) = Some (take 23 sv).
Proof.
  intros Hsv. split_and!.
  - apply unpack_pack.
  - apply unpack_other. by vm_compute.
  - apply unpack_other. by vm_compute.
  - rewrite unpack_pack. cbn. f_equal. apply c_str_fit; [by apply Forall_take|].
    rewrite length_take. unfold kLayoutNameMax. lia.
Qed.

Lemma envelope_roundtrip_witness :
  let i := mkIconDocked 4194310 eq_refl in let sv := [114; 117] in
  unpack IconDocked (pack i) = Some i ∧ unpack LayoutChanged (pack i) = None ∧
  unpack IconDocked (pack (from sv)) = None ∧
  c_str ∘ lc_name <$> unpack LayoutChanged (pack (from sv)) = Some (take 23 sv).
Proof. apply envelope_roundtrip. by repeat constructor. Defined.
