(* ===== verification/Ipc.v ===== *)
(** * The protocol between the window manager and its display server

    [libipc/include/swm/ipc/backend_protocol.hpp], [channel.hpp] and
    [message_dispatch.hpp].  A message is a header and one payload struct, sent
    as one packet of a SOCK_SEQPACKET socket.  Every field of a payload is a
    32-bit integer, an array of characters or an array of pairs, and sits on a
    multiple of four bytes: the structs have no padding. *)

From S2P Require Import Prelude Geometry Events Protocol.
Local Open Scope Z_scope.

Definition kBackendProtocolMagic : Z := 1397313603.
Definition kBackendProtocolVersion : Z := 1.
Definition kMaxOutputNameBytes : nat := 64.
Definition kMaxSurfaceAppIdBytes : nat := 96.
Definition kMaxSurfaceTitleBytes : nat := 160.
Definition kMaxKeyIntercepts : nat := 64.

(** ** [FixedString<N>]: an array of [N] characters *)

Definition FixedString : Type := list Z.
Definition empty_string (n : nat) : FixedString := replicate n 0.

(** [assign(value)], for a C string of the characters [value]. *)
Definition assign (value : list Z) (bytes : FixedString) : FixedString :=
  let len := Nat.min (length value) (length bytes - 1) in
  if (length bytes =? 0)%nat then bytes
  else take len value ++ [0] ++ drop (S len) bytes.

(** ** Messages *)

Inductive BackendMessageType :=
| MsgHello | MsgSnapshotRequest | MsgSnapshotBegin | MsgSnapshotEnd
| MsgOutputAdded | MsgOutputRemoved
| MsgSurfaceCreated | MsgSurfaceMapped | MsgSurfaceUnmapped | MsgSurfaceDestroyed
| MsgSurfaceCommitted | MsgSurfaceTitleChanged | MsgSurfaceAppIdChanged
| MsgKey | MsgButton | MsgPointerMotion | MsgPointerEnter
| MsgConfigureSurface | MsgSetSurfaceVisible | MsgSetSurfaceBorder | MsgSetSurfaceActivated
| MsgSetSurfaceStacking | MsgCloseSurface | MsgWarpPointer | MsgSetKeyboardIntercepts
| MsgGrabPointer | MsgUngrabPointer
| MsgCreateOverlay | MsgUpdateOverlay | MsgDestroyOverlay
| MsgOverlayExpose | MsgOverlayButton | MsgOverlayReleased.
#[export] Instance BackendMessageType_eq_dec : EqDecision BackendMessageType.
Proof. solve_decision. Defined.

(** The enumerators, from 1 on. *)
Definition message_types : list BackendMessageType :=
  [MsgHello; MsgSnapshotRequest; MsgSnapshotBegin; MsgSnapshotEnd; MsgOutputAdded; MsgOutputRemoved;
   MsgSurfaceCreated; MsgSurfaceMapped; MsgSurfaceUnmapped; MsgSurfaceDestroyed; MsgSurfaceCommitted;
   MsgSurfaceTitleChanged; MsgSurfaceAppIdChanged; MsgKey; MsgButton; MsgPointerMotion; MsgPointerEnter;
   MsgConfigureSurface; MsgSetSurfaceVisible; MsgSetSurfaceBorder; MsgSetSurfaceActivated;
   MsgSetSurfaceStacking; MsgCloseSurface; MsgWarpPointer; MsgSetKeyboardIntercepts; MsgGrabPointer;
   MsgUngrabPointer; MsgCreateOverlay; MsgUpdateOverlay; MsgDestroyOverlay; MsgOverlayExpose;
   MsgOverlayButton; MsgOverlayReleased].
Definition type_code (t : BackendMessageType) : Z :=
  1 + Z.of_nat (default 0%nat (index_where (λ u, bool_decide (u = t)) message_types)).
Definition type_of_code (z : Z) : option BackendMessageType :=
  if z <? 1 then None else message_types !! Z.to_nat (z - 1).

Inductive Payload :=
| Hello (peer_role flags : Z)
| SnapshotRequest (reserved : Z)
| SnapshotBegin (generation : Z)
| SnapshotEnd (generation : Z)
| OutputAdded (oid : Z) (name : FixedString) (px py width height refresh : Z)
| OutputRemoved (oid : Z)
| SurfaceCreated (sid : Z) (app_id title : FixedString) (pid : Z)
| SurfaceMapped (sid : Z)
| SurfaceUnmapped (sid : Z)
| SurfaceDestroyed (sid : Z)
| SurfaceCommitted (sid width height : Z)
| SurfaceTitleChanged (sid : Z) (title : FixedString)
| SurfaceAppIdChanged (sid : Z) (app_id : FixedString)
| Key (keycode keysym mods pressed : Z)
| Button (surface_id px py button mods released : Z)
| PointerMotion (surface_id px py mods : Z)
| PointerEnter (surface_id : Z)
| ConfigureSurface (surface_id px py width height : Z)
| SetSurfaceVisible (surface_id visible : Z)
| SetSurfaceBorder (surface_id width color : Z)
| SetSurfaceActivated (surface_id activated : Z)
| SetSurfaceStacking (surface_id raised : Z)
| CloseSurface (surface_id : Z)
| WarpPointer (px py : Z)
| SetKeyboardIntercepts (count : Z) (intercepts : list (Z * Z))
| GrabPointer (reserved : Z)
| UngrabPointer (reserved : Z)
| CreateOverlay (overlay_id px py width height : Z)
| UpdateOverlay (overlay_id bytes : Z)
| DestroyOverlay (overlay_id : Z)
| OverlayExpose (overlay_id : Z)
| OverlayButton (overlay_id px py button released : Z)
| OverlayReleased (overlay_id serial : Z).

(** [MessageTraits<Payload>::type]. *)
Definition message_type (p : Payload) : BackendMessageType :=
  match p with
  | Hello _ _ => MsgHello
  | SnapshotRequest _ => MsgSnapshotRequest
  | SnapshotBegin _ => MsgSnapshotBegin
  | SnapshotEnd _ => MsgSnapshotEnd
  | OutputAdded _ _ _ _ _ _ _ => MsgOutputAdded
  | OutputRemoved _ => MsgOutputRemoved
  | SurfaceCreated _ _ _ _ => MsgSurfaceCreated
  | SurfaceMapped _ => MsgSurfaceMapped
  | SurfaceUnmapped _ => MsgSurfaceUnmapped
  | SurfaceDestroyed _ => MsgSurfaceDestroyed
  | SurfaceCommitted _ _ _ => MsgSurfaceCommitted
  | SurfaceTitleChanged _ _ => MsgSurfaceTitleChanged
  | SurfaceAppIdChanged _ _ => MsgSurfaceAppIdChanged
  | Key _ _ _ _ => MsgKey
  | Button _ _ _ _ _ _ => MsgButton
  | PointerMotion _ _ _ _ => MsgPointerMotion
  | PointerEnter _ => MsgPointerEnter
  | ConfigureSurface _ _ _ _ _ => MsgConfigureSurface
  | SetSurfaceVisible _ _ => MsgSetSurfaceVisible
  | SetSurfaceBorder _ _ _ => MsgSetSurfaceBorder
  | SetSurfaceActivated _ _ => MsgSetSurfaceActivated
  | SetSurfaceStacking _ _ => MsgSetSurfaceStacking
  | CloseSurface _ => MsgCloseSurface
  | WarpPointer _ _ => MsgWarpPointer
  | SetKeyboardIntercepts _ _ => MsgSetKeyboardIntercepts
  | GrabPointer _ => MsgGrabPointer
  | UngrabPointer _ => MsgUngrabPointer
  | CreateOverlay _ _ _ _ _ => MsgCreateOverlay
  | UpdateOverlay _ _ => MsgUpdateOverlay
  | DestroyOverlay _ => MsgDestroyOverlay
  | OverlayExpose _ => MsgOverlayExpose
  | OverlayButton _ _ _ _ _ => MsgOverlayButton
  | OverlayReleased _ _ => MsgOverlayReleased
  end.

(** ** The bytes of the structs *)

Inductive FieldKind := KU32 | KI32 | KStr (n : nat) | KPairs (n : nat).
Inductive Field := FU32 (v : Z) | FI32 (v : Z) | FStr (b : FixedString) | FPairs (l : list (Z * Z)).

(** The members, in their order. *)
Definition struct_fields (t : BackendMessageType) : list FieldKind :=
  match t with
  | MsgHello | MsgUpdateOverlay | MsgOverlayReleased | MsgSetSurfaceVisible
  | MsgSetSurfaceActivated | MsgSetSurfaceStacking => [KU32; KU32]
  | MsgSnapshotRequest | MsgSnapshotBegin | MsgSnapshotEnd | MsgOutputRemoved | MsgSurfaceMapped
  | MsgSurfaceUnmapped | MsgSurfaceDestroyed | MsgPointerEnter | MsgCloseSurface | MsgGrabPointer
  | MsgUngrabPointer | MsgDestroyOverlay | MsgOverlayExpose => [KU32]
  | MsgOutputAdded => [KU32; KStr kMaxOutputNameBytes; KI32; KI32; KI32; KI32; KI32]
  | MsgSurfaceCreated => [KU32; KStr kMaxSurfaceAppIdBytes; KStr kMaxSurfaceTitleBytes; KU32]
  | MsgSurfaceCommitted => [KU32; KI32; KI32]
  | MsgSurfaceTitleChanged => [KU32; KStr kMaxSurfaceTitleBytes]
  | MsgSurfaceAppIdChanged => [KU32; KStr kMaxSurfaceAppIdBytes]
  | MsgKey => [KU32; KU32; KU32; KU32]
  | MsgButton => [KU32; KI32; KI32; KU32; KU32; KU32]
  | MsgPointerMotion => [KU32; KI32; KI32; KU32]
  | MsgConfigureSurface | MsgCreateOverlay => [KU32; KI32; KI32; KI32; KI32]
  | MsgSetSurfaceBorder => [KU32; KU32; KU32]
  | MsgWarpPointer => [KI32; KI32]
  | MsgSetKeyboardIntercepts => [KU32; KPairs kMaxKeyIntercepts]
  | MsgOverlayButton => [KU32; KI32; KI32; KU32; KU32]
  end.

Definition fields (p : Payload) : list Field :=
  match p with
  | Hello a b | UpdateOverlay a b | OverlayReleased a b | SetSurfaceVisible a b
  | SetSurfaceActivated a b | SetSurfaceStacking a b => [FU32 a; FU32 b]
  | SnapshotRequest a | SnapshotBegin a | SnapshotEnd a | OutputRemoved a | SurfaceMapped a
  | SurfaceUnmapped a | SurfaceDestroyed a | PointerEnter a | CloseSurface a | GrabPointer a
  | UngrabPointer a | DestroyOverlay a | OverlayExpose a => [FU32 a]
  | OutputAdded i n x y w h r => [FU32 i; FStr n; FI32 x; FI32 y; FI32 w; FI32 h; FI32 r]
  | SurfaceCreated i a t p => [FU32 i; FStr a; FStr t; FU32 p]
  | SurfaceCommitted i w h => [FU32 i; FI32 w; FI32 h]
  | SurfaceTitleChanged i s | SurfaceAppIdChanged i s => [FU32 i; FStr s]
  | Key a b c d => [FU32 a; FU32 b; FU32 c; FU32 d]
  | Button i x y b m r => [FU32 i; FI32 x; FI32 y; FU32 b; FU32 m; FU32 r]
  | PointerMotion i x y m => [FU32 i; FI32 x; FI32 y; FU32 m]
  | ConfigureSurface i x y w h | CreateOverlay i x y w h => [FU32 i; FI32 x; FI32 y; FI32 w; FI32 h]
  | SetSurfaceBorder i w c => [FU32 i; FU32 w; FU32 c]
  | WarpPointer x y => [FI32 x; FI32 y]
  | SetKeyboardIntercepts n l => [FU32 n; FPairs l]
  | OverlayButton i x y b r => [FU32 i; FI32 x; FI32 y; FU32 b; FU32 r]
  end.

(** The struct with these members. *)
Definition payload_of (t : BackendMessageType) (l : list Field) : option Payload :=
  match t, l with
  | MsgHello, [FU32 a; FU32 b] => Some (Hello a b)
  | MsgSnapshotRequest, [FU32 a] => Some (SnapshotRequest a)
  | MsgSnapshotBegin, [FU32 a] => Some (SnapshotBegin a)
  | MsgSnapshotEnd, [FU32 a] => Some (SnapshotEnd a)
  | MsgOutputAdded, [FU32 i; FStr n; FI32 x; FI32 y; FI32 w; FI32 h; FI32 r] =>
      Some (OutputAdded i n x y w h r)
  | MsgOutputRemoved, [FU32 a] => Some (OutputRemoved a)
  | MsgSurfaceCreated, [FU32 i; FStr a; FStr t; FU32 p] => Some (SurfaceCreated i a t p)
  | MsgSurfaceMapped, [FU32 a] => Some (SurfaceMapped a)
  | MsgSurfaceUnmapped, [FU32 a] => Some (SurfaceUnmapped a)
  | MsgSurfaceDestroyed, [FU32 a] => Some (SurfaceDestroyed a)
  | MsgSurfaceCommitted, [FU32 i; FI32 w; FI32 h] => Some (SurfaceCommitted i w h)
  | MsgSurfaceTitleChanged, [FU32 i; FStr s] => Some (SurfaceTitleChanged i s)
  | MsgSurfaceAppIdChanged, [FU32 i; FStr s] => Some (SurfaceAppIdChanged i s)
  | MsgKey, [FU32 a; FU32 b; FU32 c; FU32 d] => Some (Key a b c d)
  | MsgButton, [FU32 i; FI32 x; FI32 y; FU32 b; FU32 m; FU32 r] => Some (Button i x y b m r)
  | MsgPointerMotion, [FU32 i; FI32 x; FI32 y; FU32 m] => Some (PointerMotion i x y m)
  | MsgPointerEnter, [FU32 a] => Some (PointerEnter a)
  | MsgConfigureSurface, [FU32 i; FI32 x; FI32 y; FI32 w; FI32 h] => Some (ConfigureSurface i x y w h)
  | MsgSetSurfaceVisible, [FU32 a; FU32 b] => Some (SetSurfaceVisible a b)
  | MsgSetSurfaceBorder, [FU32 i; FU32 w; FU32 c] => Some (SetSurfaceBorder i w c)
  | MsgSetSurfaceActivated, [FU32 a; FU32 b] => Some (SetSurfaceActivated a b)
  | MsgSetSurfaceStacking, [FU32 a; FU32 b] => Some (SetSurfaceStacking a b)
  | MsgCloseSurface, [FU32 a] => Some (CloseSurface a)
  | MsgWarpPointer, [FI32 x; FI32 y] => Some (WarpPointer x y)
  | MsgSetKeyboardIntercepts, [FU32 n; FPairs l] => Some (SetKeyboardIntercepts n l)
  | MsgGrabPointer, [FU32 a] => Some (GrabPointer a)
  | MsgUngrabPointer, [FU32 a] => Some (UngrabPointer a)
  | MsgCreateOverlay, [FU32 i; FI32 x; FI32 y; FI32 w; FI32 h] => Some (CreateOverlay i x y w h)
  | MsgUpdateOverlay, [FU32 a; FU32 b] => Some (UpdateOverlay a b)
  | MsgDestroyOverlay, [FU32 a] => Some (DestroyOverlay a)
  | MsgOverlayExpose, [FU32 a] => Some (OverlayExpose a)
  | MsgOverlayButton, [FU32 i; FI32 x; FI32 y; FU32 b; FU32 r] => Some (OverlayButton i x y b r)
  | MsgOverlayReleased, [FU32 a; FU32 b] => Some (OverlayReleased a b)
  | _, _ => None
  end.

Definition kind_size (k : FieldKind) : nat :=
  match k with KU32 | KI32 => 4 | KStr n => n | KPairs n => 8 * n end.
(** [sizeof(Payload)]. *)
Definition sizeof (t : BackendMessageType) : nat := list_sum (kind_size <$> struct_fields t).

Definition pair_bytes (p : Z * Z) : list Z := u32_to_bytes p.1 ++ u32_to_bytes p.2.
Definition field_bytes (f : Field) : list Z :=
  match f with
  | FU32 v => u32_to_bytes v
  | FI32 v => u32_to_bytes (to_u32 v)
  | FStr b => b
  | FPairs l => flat_map pair_bytes l
  end.

Fixpoint read_pairs (n : nat) (b : list Z) : list (Z * Z) :=
  match n with
  | O => []
  | S n => (bytes_to_u32 b, bytes_to_u32 (drop 4 b)) :: read_pairs n (drop 8 b)
  end.
Definition read_field (k : FieldKind) (b : list Z) : Field :=
  match k with
  | KU32 => FU32 (bytes_to_u32 b)
  | KI32 => FI32 (to_i32 (bytes_to_u32 b))
  | KStr n => FStr (take n b)
  | KPairs n => FPairs (read_pairs n b)
  end.
Fixpoint read_fields (ks : list FieldKind) (b : list Z) : list Field :=
  match ks with
  | [] => []
  | k :: ks => read_field k b :: read_fields ks (drop (kind_size k) b)
  end.

(** memcpy from a payload and into one. *)
Definition encode (p : Payload) : list Z := flat_map field_bytes (fields p).
Definition decode (t : BackendMessageType) (b : list Z) : option Payload :=
  payload_of t (read_fields (struct_fields t) b).

(** ** Header and packets *)

Record MessageHeader := mkHeader { h_magic : Z; h_version : Z; h_type : Z; h_size : Z }.
Definition header_size : nat := 12.

Definition u16_to_bytes (z : Z) : list Z := [Z.land z 255; Z.land (Z.shiftr z 8) 255].
Definition bytes_to_u16 (b : list Z) : Z := to_u16 (default 0 (b !! 0%nat) + 256 * default 0 (b !! 1%nat)).

Definition header_bytes (h : MessageHeader) : list Z :=
  u32_to_bytes (h_magic h) ++ u16_to_bytes (h_version h) ++ u16_to_bytes (h_type h) ++ u32_to_bytes (h_size h).
Definition read_header (b : list Z) : MessageHeader :=
  mkHeader (bytes_to_u32 b) (bytes_to_u16 (drop 4 b)) (bytes_to_u16 (drop 6 b)) (bytes_to_u32 (drop 8 b)).

(** [make_message]: the header of an envelope. *)
Definition make_header (t : BackendMessageType) : MessageHeader :=
  mkHeader kBackendProtocolMagic kBackendProtocolVersion (type_code t) (Z.of_nat (sizeof t)).
Definition wire_size (t : BackendMessageType) : nat := header_size + sizeof t.

(** [Channel::send_message]: the packet. *)
Definition send_message (p : Payload) : list Z := header_bytes (make_header (message_type p)) ++ encode p.

(** [recvmsg] on the socket: what does not fit is cut off. *)
Definition receive_bytes (capacity : nat) (packet : list Z) : list Z := take capacity packet.

(** [Channel::receive_message<Payload>]. *)
Definition receive_message (t : BackendMessageType) (packet : list Z) : option Payload :=
  let b := receive_bytes (wire_size t) packet in
  if negb (length b =? wire_size t)%nat then None
  else
    let h := read_header b in
    if (h_magic h =? kBackendProtocolMagic) && (h_version h =? kBackendProtocolVersion) &&
       (h_type h =? type_code t) && (h_size h =? Z.of_nat (sizeof t))
    then decode t (drop header_size b) else None.

(** [read_message_payload]. *)
Definition read_message_payload (t : BackendMessageType) (h : MessageHeader) (b : list Z) : option Payload :=
  if negb (h_type h =? type_code t) || negb (h_size h =? Z.of_nat (sizeof t)) then None else decode t b.

(** [dispatch_backend_message] up to the call of the handler. *)
Definition read_backend_message (h : MessageHeader) (b : list Z) : option Payload :=
  t ← type_of_code (h_type h); read_message_payload t h b.

(** What both ends do with a packet in their buffer of 2048 bytes: too short or
    not of this protocol, rejected by the dispatcher, or a message. *)
Inductive Packet := PacketTooShort | PacketInvalid | PacketUnknown (type : Z) | PacketMessage (p : Payload).
Definition read_packet (packet : list Z) : Packet :=
  let b := receive_bytes 2048 packet in
  if (length b <? header_size)%nat then PacketTooShort
  else
    let h := read_header b in
    if negb (h_magic h =? kBackendProtocolMagic) || negb (h_version h =? kBackendProtocolVersion) ||
       negb (Z.of_nat (length b) =? Z.of_nat header_size + h_size h)
    then PacketInvalid
    else match read_backend_message h (drop header_size b) with
         | Some p => PacketMessage p
         | None => PacketUnknown (h_type h)
         end.

(** ** Well-formed payloads: every member in the range of its type *)

Definition byte (z : Z) : Prop := 0 ≤ z < 256.
Definition u32 (z : Z) : Prop := 0 ≤ z < 4294967296.
Definition i32 (z : Z) : Prop := -2147483648 ≤ z < 2147483648.
Definition wf_field (k : FieldKind) (f : Field) : Prop :=
  match k, f with
  | KU32, FU32 v => u32 v
  | KI32, FI32 v => i32 v
  | KStr n, FStr b => length b = n ∧ Forall byte b
  | KPairs n, FPairs l => length l = n ∧ Forall (λ p, u32 p.1 ∧ u32 p.2) l
  | _, _ => False
  end.
Definition wf_payload (p : Payload) : Prop := Forall2 wf_field (struct_fields (message_type p)) (fields p).

(** ** Integers *)

Lemma to_u32_mod z : to_u32 z = z mod 4294967296.
Proof. unfold to_u32. change 4294967295 with (Z.ones 32). by rewrite Z.land_ones by lia. Qed.
Lemma to_u32_u32 z : u32 (to_u32 z).
Proof. rewrite to_u32_mod. apply Z.mod_pos_bound. lia. Qed.
Lemma to_i32_i32 z : i32 (to_i32 z).
Proof.
  pose proof (to_u32_u32 z) as H. unfold u32 in H. unfold i32, to_i32. cbv zeta.
  destruct (Z.ltb_spec (to_u32 z) 2147483648); lia.
Qed.
Lemma to_i32_to_u32 z : i32 z → to_i32 (to_u32 z) = z.
Proof.
  intros H. pose proof (to_u32_u32 z) as Hu. unfold i32, u32 in *.
  unfold to_i32. cbv zeta. rewrite (to_u32_small (to_u32 z)) by done. rewrite to_u32_mod.
  destruct (Z.leb_spec 0 z).
  - rewrite Z.mod_small by lia. rewrite (proj2 (Z.ltb_lt _ _)); lia.
  - rewrite <- (Z.mod_unique z 4294967296 (-1) (z + 4294967296)) by lia.
    rewrite (proj2 (Z.ltb_ge _ _)); lia.
Qed.
Lemma to_u32_to_i32 z : u32 z → to_u32 (to_i32 z) = z.
Proof.
  unfold u32. intros H. unfold to_i32. cbv zeta. rewrite (to_u32_small z) by lia.
  destruct (Z.ltb_spec z 2147483648); [by apply to_u32_small|].
  rewrite to_u32_mod. symmetry. apply (Z.mod_unique _ _ (-1)); lia.
Qed.

Lemma u32_bytes z : Forall byte (u32_to_bytes z).
Proof.
  unfold u32_to_bytes. change 255 with (Z.ones 8). rewrite !Z.land_ones by lia.
  repeat constructor; apply Z.mod_pos_bound; lia.
Qed.
Lemma u32_bytes_length z : length (u32_to_bytes z) = 4%nat.
Proof. done. Qed.
Lemma u32_roundtrip z rest : u32 z → bytes_to_u32 (u32_to_bytes z ++ rest) = z.
Proof.
  intros H. apply bytes_roundtrip. unfold in_u32. unfold u32 in H. apply andb_true_iff.
  rewrite Z.leb_le, Z.ltb_lt. lia.
Qed.
Lemma bytes_u32 b : u32 (bytes_to_u32 b).
Proof. apply to_u32_u32. Qed.

(** Four bytes are the bytes of the word they make. *)
Lemma word_bytes a b c d : byte a → byte b → byte c → byte d → ∀ rest,
  u32_to_bytes (bytes_to_u32 (a :: b :: c :: d :: rest)) = [a; b; c; d].
Proof.
  unfold byte. intros Ha Hb Hc Hd rest. unfold bytes_to_u32. cbn [lookup list_lookup].
  unfold default, from_option, Datatypes.id. rewrite to_u32_small by lia.
  unfold u32_to_bytes. change 255 with (Z.ones 8). rewrite !Z.land_ones, !Z.shiftr_div_pow2 by lia.
  change (2 ^ 8) with 256. change (2 ^ 16) with 65536. change (2 ^ 24) with 16777216.
  set (w := a + 256 * b + 65536 * c + 16777216 * d).
  assert (E0 : w mod 256 = a) by (symmetry; apply (Z.mod_unique _ _ (b + 256 * c + 65536 * d)); lia).
  assert (D1 : w / 256 = b + 256 * c + 65536 * d) by (symmetry; apply (Z.div_unique _ _ _ a); lia).
  assert (D2 : w / 65536 = c + 256 * d) by (symmetry; apply (Z.div_unique _ _ _ (a + 256 * b)); lia).
  assert (D3 : w / 16777216 = d)
    by (symmetry; apply (Z.div_unique _ _ _ (a + 256 * b + 65536 * c)); lia).
  rewrite E0, D1, D2, D3. repeat f_equal.
  - symmetry. apply (Z.mod_unique _ _ (c + 256 * d)); lia.
  - symmetry. apply (Z.mod_unique _ _ d); lia.
  - apply Z.mod_small. lia.
Qed.
Lemma read_word_bytes b : Forall byte b → (4 ≤ length b)%nat → u32_to_bytes (bytes_to_u32 b) = take 4 b.
Proof.
  intros H Hl. destruct b as [|a0 [|a1 [|a2 [|a3 b]]]]; try (cbn in Hl; lia).
  repeat match goal with H : Forall byte (_ :: _) |- _ => apply Forall_cons in H as [? ?] end.
  by apply word_bytes.
Qed.

(** ** Members and structs *)

Lemma field_length k f : wf_field k f → length (field_bytes f) = kind_size k.
Proof.
  destruct k, f; cbn [wf_field field_bytes kind_size]; try done; [by intros []|].
  intros [<- _]. induction l as [|p l IH]; [done|]. cbn [flat_map length]. rewrite length_app, IH.
  unfold pair_bytes. rewrite length_app, !u32_bytes_length. lia.
Qed.

Lemma read_pairs_bytes l rest :
  Forall (λ p, u32 p.1 ∧ u32 p.2) l → read_pairs (length l) (flat_map pair_bytes l ++ rest) = l.
Proof.
  induction 1 as [|[a b] l [Ha Hb] _ IH]; [done|]. cbn [length read_pairs flat_map].
  unfold pair_bytes. cbn [fst snd] in *. fold pair_bytes. rewrite <- !app_assoc, u32_roundtrip by done.
  change (drop 8 ?l) with (drop 4 (drop 4 l)).
  rewrite !(drop_app_length' (u32_to_bytes _) _ 4%nat) by done. by rewrite u32_roundtrip, IH by done.
Qed.
Lemma read_field_bytes k f rest : wf_field k f → read_field k (field_bytes f ++ rest) = f.
Proof.
  destruct k, f; cbn [wf_field]; try done; cbn [read_field field_bytes].
  - intros H. by rewrite u32_roundtrip.
  - intros H. by rewrite u32_roundtrip, to_i32_to_u32 by auto using to_u32_u32.
  - intros [<- _]. by rewrite take_app_length.
  - intros [<- H]. by rewrite read_pairs_bytes.
Qed.
Lemma read_fields_bytes ks fs rest :
  Forall2 wf_field ks fs → read_fields ks (flat_map field_bytes fs ++ rest) = fs.
Proof.
  induction 1 as [|k f ks fs Hf _ IH]; [done|]. cbn [read_fields flat_map]. rewrite <- app_assoc.
  rewrite read_field_bytes, (drop_app_length' _ _ (kind_size k)), IH by (done || by symmetry; apply field_length).
  done.
Qed.
Lemma fields_length ks fs :
  Forall2 wf_field ks fs → length (flat_map field_bytes fs) = list_sum (kind_size <$> ks).
Proof.
  induction 1 as [|k f ks fs Hf _ IH]; [done|]. cbn. by rewrite length_app, IH, (field_length k).
Qed.

Lemma payload_of_fields p : payload_of (message_type p) (fields p) = Some p.
Proof. by destruct p. Qed.

Lemma decode_encode p rest : wf_payload p → decode (message_type p) (encode p ++ rest) = Some p.
Proof. intros H. unfold decode, encode. rewrite read_fields_bytes by done. apply payload_of_fields. Qed.
Lemma encode_length p : wf_payload p → length (encode p) = sizeof (message_type p).
Proof. apply fields_length. Qed.

(** Conversely, the bytes of a struct make a payload with these bytes. *)
Lemma read_pairs_wf n b : Forall byte b → (8 * n ≤ length b)%nat →
  length (read_pairs n b) = n ∧ Forall (λ p, u32 p.1 ∧ u32 p.2) (read_pairs n b) ∧
  flat_map pair_bytes (read_pairs n b) = take (8 * n) b.
Proof.
  revert b. induction n as [|n IH]; intros b Hb Hl; [done|].
  destruct (IH (drop 8 b)) as (L & F & E); [by apply Forall_drop|rewrite length_drop; lia|].
  cbn [read_pairs length flat_map]. split_and!.
  - by rewrite L.
  - constructor; [split; apply bytes_u32|done].
  - rewrite E. unfold pair_bytes. cbn [fst snd].
    rewrite !read_word_bytes by (rewrite ?length_drop; auto using Forall_drop; lia).
    rewrite <- !app_assoc. replace (8 * S n)%nat with (4 + (4 + 8 * n))%nat by lia.
    rewrite <- !take_take_drop, drop_drop. done.
Qed.
Lemma read_field_wf k b : Forall byte b → (kind_size k ≤ length b)%nat →
  wf_field k (read_field k b) ∧ field_bytes (read_field k b) = take (kind_size k) b.
Proof.
  intros Hb Hl. destruct k; cbn [read_field wf_field field_bytes kind_size] in *.
  - split; [apply bytes_u32|by apply read_word_bytes].
  - split; [apply to_i32_i32|]. rewrite to_u32_to_i32 by apply bytes_u32. by apply read_word_bytes.
  - split; [|done]. split; [rewrite length_take; lia|by apply Forall_take].
  - destruct (read_pairs_wf n b) as (L & F & E); done.
Qed.
Lemma read_fields_wf ks b : Forall byte b → (list_sum (kind_size <$> ks) ≤ length b)%nat →
  Forall2 wf_field ks (read_fields ks b) ∧
  flat_map field_bytes (read_fields ks b) = take (list_sum (kind_size <$> ks)) b.
Proof.
  revert b. induction ks as [|k ks IH]; intros b Hb Hl; [done|].
  change (kind_size k + list_sum (kind_size <$> ks) ≤ length b)%nat in Hl.
  destruct (read_field_wf k b) as [W E]; [done|lia|].
  destruct (IH (drop (kind_size k) b)) as [W' E']; [by apply Forall_drop|rewrite length_drop; lia|].
  cbn [read_fields flat_map]. split; [by constructor|]. rewrite E, E'.
  change (list_sum (kind_size <$> k :: ks)) with (kind_size k + list_sum (kind_size <$> ks))%nat.
  by rewrite <- take_take_drop.
Qed.

Lemma read_fields_length ks b : length (read_fields ks b) = length ks.
Proof. revert b. by induction ks as [|k ks IH]; intros b; cbn; [|rewrite IH]. Qed.

(** Members of the right kinds make a struct of the type. *)
Lemma payload_of_wf t fs : Forall2 wf_field (struct_fields t) fs →
  ∃ p, payload_of t fs = Some p ∧ message_type p = t ∧ fields p = fs.
Proof.
  intros H. destruct t; cbn [struct_fields] in H;
    repeat (match goal with
            | H : Forall2 _ (_ :: _) ?l |- _ =>
                let f := fresh "f" in let l' := fresh "l" in let Hf := fresh "Hf" in let H' := fresh "H" in
                inversion H as [|? f ? l' Hf H']; clear H; subst; destruct f; try done
            | H : Forall2 _ [] ?l |- _ => inversion H; clear H; subst
            end);
    eexists; repeat split.
Qed.

Lemma decode_wf t b : Forall byte b → length b = sizeof t →
  ∃ p, decode t b = Some p ∧ message_type p = t ∧ wf_payload p ∧ encode p = b.
Proof.
  intros Hb Hl. destruct (read_fields_wf (struct_fields t) b Hb) as [W E]; [rewrite Hl; apply le_n|].
  destruct (payload_of_wf t _ W) as (p & Ep & <- & Ef). exists p. split_and!; [done|done| |].
  - unfold wf_payload. by rewrite Ef.
  - unfold encode. rewrite Ef, E. apply take_ge. by rewrite Hl.
Qed.

(** ** Packets *)

Lemma type_code_inv t : type_of_code (type_code t) = Some t.
Proof. by destruct t. Qed.
Lemma type_of_code_inv z t : type_of_code z = Some t → type_code t = z.
Proof.
  unfold type_of_code. destruct (Z.ltb_spec z 1); [done|]. intros E.
  assert (Hn : (Z.to_nat (z - 1) < 33)%nat) by (by apply lookup_lt_Some in E).
  assert (Hz : z = Z.of_nat (Z.to_nat (z - 1)) + 1) by lia. revert E Hz Hn.
  generalize (Z.to_nat (z - 1)). intros n E -> Hn.
  do 33 (destruct n as [|n]; [cbn in E; by injection E as <-|]). lia.
Qed.
Lemma type_code_range t : 1 ≤ type_code t ≤ 33.
Proof. destruct t; vm_compute; split; discriminate. Qed.
Lemma sizeof_range t : (4 ≤ sizeof t ≤ 516)%nat.
Proof. destruct t; vm_compute; lia. Qed.

Lemma u16_roundtrip z rest : 0 ≤ z < 65536 → bytes_to_u16 (u16_to_bytes z ++ rest) = z.
Proof.
  intros H. unfold bytes_to_u16, u16_to_bytes. cbn [app lookup list_lookup].
  unfold default, from_option, Datatypes.id, to_u16. change 65535 with (Z.ones 16). change 255 with (Z.ones 8).
  rewrite !Z.land_ones, Z.shiftr_div_pow2 by lia. change (2 ^ 8) with 256. change (2 ^ 16) with 65536.
  pose proof (Z.div_mod z 256 ltac:(lia)).
  rewrite (Z.mod_small (z / 256)) by (split; [apply Z.div_pos; lia|apply Z.div_lt_upper_bound; lia]).
  rewrite Z.mod_small; lia.
Qed.

Lemma half_bytes a b rest : byte a → byte b → u16_to_bytes (bytes_to_u16 (a :: b :: rest)) = [a; b].
Proof.
  unfold byte. intros Ha Hb. unfold bytes_to_u16, u16_to_bytes, to_u16. cbn [lookup list_lookup].
  unfold default, from_option, Datatypes.id. change 65535 with (Z.ones 16). change 255 with (Z.ones 8).
  rewrite !Z.land_ones, !Z.shiftr_div_pow2 by lia. change (2 ^ 8) with 256. change (2 ^ 16) with 65536.
  rewrite (Z.mod_small (a + 256 * b)) by lia. f_equal; [|f_equal].
  - symmetry. apply (Z.mod_unique _ _ b); lia.
  - rewrite <- (Z.div_unique (a + 256 * b) 256 b a) by lia. apply Z.mod_small. lia.
Qed.

(** Headers whose members are in range. *)
Definition wf_header (h : MessageHeader) : Prop :=
  u32 (h_magic h) ∧ 0 ≤ h_version h < 65536 ∧ 0 ≤ h_type h < 65536 ∧ u32 (h_size h).

Lemma read_header_bytes h rest : wf_header h → read_header (header_bytes h ++ rest) = h.
Proof.
  intros (Hm & Hv & Ht & Hs). unfold read_header, header_bytes. rewrite <- !app_assoc.
  rewrite u32_roundtrip by done.
  change (drop 8 ?l) with (drop 2 (drop 2 (drop 4 l))). change (drop 6 ?l) with (drop 2 (drop 4 l)).
  rewrite !(drop_app_length' (u32_to_bytes (h_magic h)) _ 4%nat) by done.
  rewrite !(drop_app_length' (u16_to_bytes (h_version h)) _ 2%nat) by done.
  rewrite (drop_app_length' (u16_to_bytes (h_type h)) _ 2%nat) by done.
  rewrite u32_roundtrip, !u16_roundtrip by done. by destruct h.
Qed.
Lemma make_header_wf t : wf_header (make_header t).
Proof.
  pose proof (type_code_range t). pose proof (sizeof_range t).
  unfold wf_header, make_header, u32. cbn [h_magic h_version h_type h_size].
  unfold kBackendProtocolMagic, kBackendProtocolVersion. lia.
Qed.

Lemma send_length p : wf_payload p → length (send_message p) = wire_size (message_type p).
Proof. intros H. unfold send_message. by rewrite length_app, encode_length. Qed.

(** A packet begins with the header it is read as. *)
Lemma read_header_inv b : Forall byte b → (header_size ≤ length b)%nat →
  take header_size b = header_bytes (read_header b).
Proof.
  intros Hb Hl. unfold header_size in *. destruct b as [|b0 [|b1 [|b2 [|b3 [|b4 [|b5 [|b6 [|b7 b]]]]]]]];
    try (cbn in Hl; lia).
  repeat match goal with H : Forall byte (_ :: _) |- _ => apply Forall_cons in H as [? ?] end.
  unfold header_bytes, read_header. cbn [h_magic h_version h_type h_size].
  assert (4 ≤ length b)%nat by (cbn [length] in Hl; lia).
  cbn [drop]. rewrite word_bytes, !half_bytes, drop_0, (read_word_bytes b) by done.
  cbn. by destruct b as [|? [|? [|? [|? b]]]].
Qed.

Lemma send_header p : read_header (send_message p) = make_header (message_type p).
Proof. apply read_header_bytes, make_header_wf. Qed.
Lemma send_payload p : drop header_size (send_message p) = encode p.
Proof. by apply drop_app_length'. Qed.
Lemma send_decode p : wf_payload p → decode (message_type p) (drop header_size (send_message p)) = Some p.
Proof. intros H. rewrite send_payload, <- (app_nil_r (encode p)). by apply decode_encode. Qed.

(** What is sent is read as what it is. *)
Lemma read_packet_send p : wf_payload p → read_packet (send_message p) = PacketMessage p.
Proof.
  intros H. pose proof (sizeof_range (message_type p)). pose proof (send_length p H) as Hl.
  unfold wire_size, header_size in Hl. unfold read_packet, receive_bytes. rewrite take_ge by lia. cbv zeta.
  rewrite Hl, send_header. unfold header_size at 1. rewrite (proj2 (Nat.ltb_ge _ _)) by lia.
  cbn [make_header h_magic h_version h_type h_size]. rewrite !Z.eqb_refl. cbn [negb orb].
  rewrite (proj2 (Z.eqb_eq _ _)) by (unfold header_size; lia). cbn [negb].
  unfold read_backend_message. cbn [make_header h_type]. rewrite type_code_inv. cbn [mbind option_bind].
  unfold read_message_payload. cbn [make_header h_type h_size]. rewrite !Z.eqb_refl. cbn [negb orb].
  by rewrite send_decode.
Qed.

(** What is read as a message is that message's packet. *)
Lemma read_packet_inv packet p : Forall byte packet → (length packet ≤ 2048)%nat →
  read_packet packet = PacketMessage p → wf_payload p ∧ packet = send_message p.
Proof.
  intros Hb Hl. unfold read_packet, receive_bytes. rewrite take_ge by done.
  destruct (Nat.ltb_spec (length packet) header_size) as [|Hh]; [done|].
  pose proof (read_header_inv packet Hb Hh) as E. set (h := read_header packet) in *.
  destruct (Z.eqb_spec (h_magic h) kBackendProtocolMagic) as [Hm|]; [|done].
  destruct (Z.eqb_spec (h_version h) kBackendProtocolVersion) as [Hv|]; [|done].
  destruct (Z.eqb_spec (Z.of_nat (length packet)) (Z.of_nat header_size + h_size h)) as [Hs|]; [|done].
  cbn [negb orb]. unfold read_backend_message.
  destruct (type_of_code (h_type h)) as [t|] eqn:Et; [|done]. apply type_of_code_inv in Et.
  cbn [mbind option_bind]. unfold read_message_payload. rewrite <- Et, Z.eqb_refl. cbn [negb orb].
  destruct (Z.eqb_spec (h_size h) (Z.of_nat (sizeof t))) as [Hz|]; [|done]. cbn [negb].
  destruct (decode_wf t (drop header_size packet)) as (q & Eq & Hq & Wq & Bq);
    [by apply Forall_drop|rewrite length_drop; lia|].
  rewrite Eq. intros [= <-]. split; [done|]. rewrite <- (take_drop header_size packet), E.
  unfold send_message. rewrite Bq, Hq. f_equal. f_equal. unfold make_header.
  rewrite <- Hm, <- Hv, Et, <- Hz. by destruct h.
Qed.

(** The same for a receiver that knows what it waits for. *)
Lemma receive_message_send t p : wf_payload p →
  receive_message t (send_message p) = if bool_decide (t = message_type p) then Some p else None.
Proof.
  intros H. pose proof (send_length p H) as Hl. unfold receive_message, receive_bytes. cbv zeta.
  case_bool_decide as Ht.
  - subst t. rewrite take_ge by lia. rewrite Hl, Nat.eqb_refl, send_header. cbn [negb].
    cbn [make_header h_magic h_version h_type h_size]. rewrite !Z.eqb_refl. cbn [andb].
    by rewrite send_decode.
  - destruct (Nat.eqb_spec (length (take (wire_size t) (send_message p))) (wire_size t)) as [E|]; [|done].
    cbn [negb]. unfold send_message. rewrite take_app_ge by (unfold wire_size, header_size; cbn; lia).
    rewrite read_header_bytes by apply make_header_wf. cbn [make_header h_magic h_version h_type h_size].
    rewrite (proj2 (Z.eqb_neq (type_code (message_type p)) (type_code t))); [by rewrite andb_false_r|].
    intros E'. apply Ht. apply (f_equal type_of_code) in E'. rewrite !type_code_inv in E'. by injection E' as ->.
Qed.

Lemma field_bytes_byte k f : wf_field k f → Forall byte (field_bytes f).
Proof.
  destruct k, f; cbn [wf_field field_bytes]; try done; try (intros; apply u32_bytes); [by intros []|].
  intros [_ H]. induction H as [|p l _ _ IH]; [constructor|]. cbn [flat_map]. apply Forall_app_2; [|done].
  apply Forall_app_2; apply u32_bytes.
Qed.
Lemma encode_bytes p : wf_payload p → Forall byte (encode p).
Proof.
  unfold wf_payload, encode. induction 1 as [|k f ks fs Hf _ IH]; [constructor|].
  apply Forall_app_2; [by apply field_bytes_byte in Hf|done].
Qed.
Lemma u16_bytes z : Forall byte (u16_to_bytes z).
Proof.
  unfold u16_to_bytes. change 255 with (Z.ones 8). rewrite !Z.land_ones by lia.
  repeat constructor; apply Z.mod_pos_bound; lia.
Qed.
Lemma send_bytes p : wf_payload p → Forall byte (send_message p).
Proof.
  intros H. unfold send_message, header_bytes.
  repeat apply Forall_app_2; auto using u32_bytes, u16_bytes, encode_bytes.
Qed.

(** C33: packets and messages correspond one to one: a packet of at most 2048
    bytes is accepted as a message exactly when it is the packet that is sent for
    this message; every message fits the buffer, and a receiver that waits for
    one type takes exactly the messages of that type. *)
Theorem packets_are_messages packet p t : Forall byte packet → (length packet ≤ 2048)%nat →
  (read_packet packet = PacketMessage p ↔ wf_payload p ∧ packet = send_message p) ∧
  (wf_payload p →
    Forall byte (send_message p) ∧ (length (send_message p) ≤ 2048)%nat ∧
    receive_message t (send_message p) = if bool_decide (t = message_type p) then Some p else None).
Proof.
  intros Hb Hl. split; [split|].
  - by apply read_packet_inv.
  - intros [H ->]. by apply read_packet_send.
  - intros H. split_and!; [by apply send_bytes| |by apply receive_message_send].
    rewrite send_length by done. pose proof (sizeof_range (message_type p)).
    unfold wire_size, header_size. lia.
Qed.

(** A layout of an output, and a packet of its message. *)
Definition ex_output : Payload :=
  OutputAdded 7 (assign [72; 68; 77; 73] (empty_string kMaxOutputNameBytes)) (-10) 20 1920 1080 60000.
Lemma packets_are_messages_witness :
  read_packet (send_message ex_output) = PacketMessage ex_output ∧
  receive_message MsgHello (send_message ex_output) = None.
Proof.
  assert (W : wf_payload ex_output).
  { unfold wf_payload. cbn [message_type ex_output struct_fields fields].
    repeat constructor; cbn; try (unfold u32, i32; lia).
    all: unfold byte; lia. }
  destruct (packets_are_messages (send_message ex_output) ex_output MsgHello) as [[_ H1] H2].
  - by apply send_bytes.
  - rewrite send_length by done. vm_compute. lia.
  - split; [by apply H1|]. destruct (H2 W) as (_ & _ & E). rewrite E. by vm_compute.
Defined.

(** ** Strings of fixed size *)

Lemma fixed_length v b : length (assign v b) = length b.
Proof.
  unfold assign. destruct (Nat.eqb_spec (length b) 0); [done|].
  rewrite !length_app, length_take, length_drop. cbn. lia.
Qed.
Lemma assign_bytes v b : Forall byte v → Forall byte b → Forall byte (assign v b).
Proof.
  intros Hv Hb. unfold assign. destruct (_ =? _)%nat; [done|]. apply Forall_app_2; [by apply Forall_take|].
  apply Forall_app_2; [|by apply Forall_drop]. repeat constructor; unfold byte; lia.
Qed.

Lemma read_c_string_app s rest : Forall (λ c, c ≠ 0) s → read_c_string (s ++ 0 :: rest) = Some (s, rest).
Proof.
  induction 1 as [|c s Hc _ IH]; [done|]. cbn. by rewrite (proj2 (Z.eqb_neq _ _) Hc), IH.
Qed.
(** The reader sees the string, cut to what fits before the terminator. *)
Lemma assign_read v b : Forall (λ c, c ≠ 0) v → b ≠ [] →
  fst <$> read_c_string (assign v b) = Some (take (length b - 1) v).
Proof.
  intros Hv Hb. unfold assign. destruct (Nat.eqb_spec (length b) 0) as [E|E]; [by destruct b|].
  change ([0] ++ ?l) with (0 :: l). rewrite read_c_string_app by by apply Forall_take. cbn. f_equal.
  destruct (Nat.le_gt_cases (length v) (length b - 1)).
  - rewrite !take_ge; lia || done.
  - by rewrite Nat.min_r by lia.
Qed.
