(* ===== verification/Commands.v ===== *)
(** * The command surface ([backend/commands.hpp])

    Two variants, [CommandAtom] and [CommandComposite], with one constructor
    per struct. *)

From S2P Require Import Prelude Geometry Float32.
Local Open Scope Z_scope.

Record WindowHints := mkWindowHints {
  no_decorations : bool;
  fixed_size : bool;
  never_focus : bool;
  hint_urgent : bool;
  static_gravity : bool;
  covers_monitor : bool;
  pre_fullscreen : bool;
  is_xembed : bool;
  hint_size_min : Vec2;
  hint_size_max : Vec2;
  hint_size_inc : Vec2;
  hint_size_base : Vec2 }.

#[export] Instance eta_WindowHints : Eta WindowHints := λ h,
  mkWindowHints (no_decorations h) (fixed_size h) (never_focus h) (hint_urgent h)
    (static_gravity h) (covers_monitor h) (pre_fullscreen h) (is_xembed h)
    (hint_size_min h) (hint_size_max h) (hint_size_inc h) (hint_size_base h).

(** The payload of [atom::SetWindowMetadata]. *)
Record WindowMetadata := mkWindowMetadata {
  md_window : Z;
  md_wm_instance : string;
  md_wm_class : string;
  md_title : string;
  md_pid : Z;
  md_type : WindowType;
  md_hints : WindowHints;
  md_transient_for : Z }.
#[export] Instance eta_WindowMetadata : Eta WindowMetadata := λ m,
  mkWindowMetadata (md_window m) (md_wm_instance m) (md_wm_class m) (md_title m) (md_pid m)
    (md_type m) (md_hints m) (md_transient_for m).

Inductive CommandAtom :=
| FocusWindow (window : Z)
| SwitchWorkspace (workspace_id : Z) (monitor_index : option Z)
| MoveWindowToWorkspace (window workspace_id : Z)
| MapWindow (window : Z)
| UnmapWindow (window : Z)
| SetWindowFullscreen (window : Z) (enabled preserve_geometry : bool)
| EnsureWindow (window workspace_id : Z)
| AssignWindowWorkspace (window workspace_id : Z)
| SetWindowMetadata (md : WindowMetadata)
| SetWindowMapped (window : Z) (mapped : bool)
| SetWindowHiddenByWorkspace (window : Z) (hidden : bool)
| SetWindowSuppressFocusOnce (window : Z) (suppress : bool)
| SetWindowFloating (window : Z) (floating : bool)
| SetWindowBorderless (window : Z) (borderless : bool)
| HideWindow (window : Z)
| ApplyMonitorTopology (monitors : list Monitor)
| ReserveMonitorArea (monitor_idx : Z) (edge : MonitorEdge) (px : Z)
| SetLayout (name : string)
| SetMasterFactor (value : float)
| FocusMonitor (monitor_index : Z)
| MoveWindowToMonitor (window monitor_index : Z)
| ReconcileNow
| RemoveWindowFromAllWorkspaces (window : Z)
| SetWindowGeometry (window : Z) (pos size : Vec2)
| SetWindowPosition (window : Z) (pos : Vec2)
| SetWindowSize (window : Z) (size : Vec2)
| SetWindowBorderWidth (window border_width : Z)
| SyncWindowFromConfigureNotify (window : Z) (pos size : Vec2) (border_width : Z)
| CloseWindow (window : Z).

Inductive CommandComposite :=
| ToggleWindowFloating (window : Z)
| MoveFocusedWindowToWorkspace (workspace_id : Z)
| FocusNextWindow
| FocusPrevWindow
| ToggleFocusedWindowFloating
| SwitchWorkspaceLocalIndex (local_index : Z)
| AdjustMasterFactor (delta : float)
| IncMaster (delta : Z)
| Zoom.
