(* ===== verification/Core.v ===== *)
(** * The core ([domain/core.hpp], [core/core_dispatch.cpp])

    State: the workspace manager, the layouts, the settings, and what the core
    has produced for the backend (effects, pending window flushes) and for the
    event queue.  Each overload of [Core::dispatch] is one definition.

    Code that is not C++ of this repository enters as data: a Lua layout is the
    list of the placements its callback makes. *)

From S2P Require Import Prelude Geometry Float32 Layout Workspace WorkspaceManager Events Commands.
Local Open Scope Z_scope.

(** ** Effects and flushes *)

Inductive BackendEffectKind :=
| EffMapWindow | EffUnmapWindow | EffFocusWindow | EffFocusRoot | EffUpdateWindow
| EffWarpPointer | EffRaiseWindow | EffLowerWindow | EffCloseWindow.
#[export] Instance BackendEffectKind_eq_dec : EqDecision BackendEffectKind.
Proof. solve_decision. Defined.

Record BackendEffect := mkEffect { eff_kind : BackendEffectKind; eff_window : Z; eff_pos : Vec2 }.

(** [WindowFlush::dirty]: a set of bits in an 8-bit mask. *)
Definition FlushX : Z := 1.
Definition FlushY : Z := 2.
Definition FlushWidth : Z := 4.
Definition FlushHeight : Z := 8.
Definition FlushBorderWidth : Z := 16.
Definition FlushPosition : Z := Z.lor FlushX FlushY.
Definition FlushSize : Z := Z.lor FlushWidth FlushHeight.
Definition FlushGeometry : Z := Z.lor FlushPosition FlushSize.
Definition FlushAll : Z := Z.lor FlushGeometry FlushBorderWidth.

Record WindowFlush := mkFlush { fl_window : Z; fl_dirty : Z }.
Definition has_config_changes (f : WindowFlush) : bool := negb (fl_dirty f =? 0).

(** ** Settings *)

Record ThemeConfig := mkTheme {
  dpi : Z;
  cursor_size : Z;
  cursor_theme : string;
  font : string;
  bg : string;
  fg : string;
  alt_bg : string;
  alt_fg : string;
  accent : string;
  border_thickness : Z;
  border_focused : string;
  border_unfocused : string;
  theme_gap : Z }.

Definition default_theme : ThemeConfig :=
  mkTheme 0 0 "" "" "" "" "" "" "" 1 "" "" 4.

Record CoreSettings := mkSettings {
  monitor_aliases : list MonitorAlias;
  monitor_compose : MonitorCompose;
  workspace_defs : list WorkspaceDef;
  theme : ThemeConfig }.

Definition default_settings : CoreSettings :=
  mkSettings [] (mkMonitorCompose "" [] false) [] default_theme.

(** A key binding; the handler is a reference to a closure. *)
Record Keybinding := mkKeybinding { kb_mods : Z; kb_keysym : Z; kb_handler : Z }.

(** A layout as a function from its arguments to the calls of the sink; [None]
    is undefined behaviour. *)
Definition LayoutFn : Type := list Z → Monitor → Config → option (list Placement).

Record CoreReloadState := mkReloadState {
  rs_settings : CoreSettings;
  rs_keybindings : list Keybinding;
  rs_layout_cfg : Config;
  rs_active_layout : string }.

Record FullscreenLikeDecision := mkDecision {
  fd_promote : bool; fd_pos : Vec2; fd_size : Vec2 }.

(** ** State *)

Record core := mkCore {
  wsman : wm;
  layouts : gmap string LayoutFn;
  lua_layouts : gmap string LayoutFn;
  keybindings : list Keybinding;
  active_layout : string;
  layout_cfg : Config;
  pending_backend_effects : list BackendEffect;
  pending_window_flushes : gmap Z WindowFlush;
  (** the sink: [None] is the null sink, which drops what is posted *)
  event_sink : option (list Event);
  settings : CoreSettings;
  config_path : string;
  lua_bound : bool;
  runtime_started : bool }.
#[export] Instance eta_core : Eta core := λ c,
  mkCore (wsman c) (layouts c) (lua_layouts c) (keybindings c) (active_layout c)
    (layout_cfg c) (pending_backend_effects c) (pending_window_flushes c) (event_sink c)
    (settings c) (config_path c) (lua_bound c) (runtime_started c).

Definition new_core : core :=
  mkCore empty_wm ∅ ∅ [] "tile" default_config [] ∅ None default_settings "" false false.

(** A call of the workspace manager. *)
Definition on_wsman {A} (m : M wm A) : M core A :=
  zoom wsman (λ t c, c <| wsman := t |>) m.

(** [*w] and [w->field = …] for a pointer to a window. *)
Definition deref (p : addr) : M core Window := checked (λ c, wins (wsman c) !! p).
Definition set_window (p : addr) (f : Window → Window) : M core unit :=
  on_wsman (modify_window p f).
Definition find_win (win : Z) : M core (option addr) :=
  gets (λ c, find_window_in_all (wsman c) win).

(** ** Emitting *)

Definition emit_effect (e : BackendEffect) : M core unit :=
  modify (λ c, c <| pending_backend_effects ::= λ l, l ++ [e] |>).
Definition emit_backend_effect (kind : BackendEffectKind) (window : Z) : M core unit :=
  emit_effect (mkEffect kind window (mkVec2 0 0)).
Definition emit_warp_pointer (p : Vec2) : M core unit :=
  emit_effect (mkEffect EffWarpPointer NO_WINDOW p).

Definition post (ev : Event) : M core unit :=
  modify (λ c, c <| event_sink ::= fmap (λ q, q ++ [ev]) |>).

Definition ensure_window_flush (win : Z) (c : core) : WindowFlush :=
  match pending_window_flushes c !! win with
  | Some f => mkFlush win (fl_dirty f)
  | None => mkFlush win 0
  end.

Definition mark_window_dirty (win bits : Z) : M core unit :=
  modify (λ c,
    let f := ensure_window_flush win c in
    c <| pending_window_flushes ::= <[win := mkFlush win (Z.lor (fl_dirty f) bits)]> |>) ;;
  emit_backend_effect EffUpdateWindow win.

Definition take_window_flush (win : Z) : M core (option WindowFlush) :=
  o <- gets (λ c, pending_window_flushes c !! win) ;;
  match o with
  | None => ret None
  | Some out =>
      modify (λ c, c <| pending_window_flushes ::= delete win |>) ;;
      ret (if has_config_changes out then Some out else None)
  end.

Definition take_backend_effects : M core (list BackendEffect) :=
  out <- gets pending_backend_effects ;;
  modify (λ c, c <| pending_backend_effects := [] |>) ;;
  ret out.

(** ** Queries *)

Definition workspace_count (c : core) : Z := vsize (workspaces (wsman c)).
Definition monitor_state (c : core) (mon : Z) : option Monitor := vget (monitors (wsman c)) mon.
Definition is_workspace_visible (c : core) (ws : Z) : bool :=
  existsb (λ m, mon_active_ws m =? ws) (monitors (wsman c)).
Definition monitor_inset (c : core) (edge : MonitorEdge) (mon : Z) : Z :=
  match vget (monitors (wsman c)) mon with
  | Some m => inset m edge
  | None => foldl (λ acc m, Z.max acc (inset m edge)) 0 (monitors (wsman c))
  end.
Definition active_workspace_at_point (c : core) (p : Vec2) : Z :=
  let mon := monitor_at_physical_point (wsman c) p in
  if 0 <=? mon then active_ws_of_monitor (wsman c) mon else NO_WORKSPACE.
Definition monitor_has_visible_covering_window (c : core) (mon : Z) : bool :=
  match monitor_state c mon with
  | None => false
  | Some m =>
      match vget (workspaces (wsman c)) (mon_active_ws m) with
      | None => false
      | Some ws => has_fullscreen_window (wins (wsman c)) ws
      end
  end.

(** The ids of the windows of all workspaces, and of the visible ones. *)
Definition window_ids (P : Window → bool) (c : core) : list Z :=
  flat_map (λ ws, flat_map (λ p, match wins (wsman c) !! p with
    | Some w => if P w then [id w] else []
    | None => []
    end) (windows ws)) (workspaces (wsman c)).
Definition all_window_ids : core → list Z := window_ids (λ _, true).
Definition visible_window_ids : core → list Z := window_ids is_visible.

Definition focused_window_state (c : core) : option addr :=
  let w := focused_window_id (wsman c) in
  if w =? NO_WINDOW then None else find_window_in_all (wsman c) w.

(** ** Workspace visibility *)

(** The vector [visible]: is the workspace the active one of a monitor? *)
Definition visible_workspaces (c : core) : list bool :=
  let n := workspace_count c in
  foldl (λ v m, if (0 <=? mon_active_ws m) && (mon_active_ws m <? n)
                then <[Z.to_nat (mon_active_ws m) := true]> v else v)
    (replicate (Z.to_nat n) false) (monitors (wsman c)).

(** The body of the loop over the windows of a workspace. *)
Definition sync_window_visibility (v : bool) (p : addr) : M core unit :=
  o <- gets (λ c, wins (wsman c) !! p) ;;
  match o with
  | None => ret tt
  | Some w =>
      if negb v then
        let was_visible := negb (hidden_by_workspace w) && negb (hidden_explicitly w) && mapped w in
        set_window p (λ w, w <| hidden_by_workspace := true |>) ;;
        if was_visible then emit_backend_effect EffUnmapWindow (id w) else ret tt
      else if hidden_by_workspace w then
        set_window p (λ w, w <| hidden_by_workspace := false |>) ;;
        if negb (hidden_explicitly w) then
          set_window p (λ w, w <| mapped := true |>) ;;
          emit_backend_effect EffMapWindow (id w)
        else ret tt
      else ret tt
  end.

Definition sync_workspace_visibility : M core unit :=
  n <- gets workspace_count ;;
  if n <=? 0 then ret tt
  else
    visible <- gets visible_workspaces ;;
    for_each (range n) (λ i,
      ws <- gets (λ c, workspace (wsman c) i) ;;
      v <- checked (λ _, vget visible i) ;;
      for_each (windows ws) (sync_window_visibility v)).

(** ** Fullscreen stacking *)

Definition pin_fullscreen_to_monitor (p : addr) (ws_id : Z) : M core unit :=
  mon_idx <- gets (λ c, monitor_of (wsman c) ws_id) ;;
  if mon_idx <? 0 then ret tt
  else
    mons <- gets (λ c, monitors (wsman c)) ;;
    if vsize mons <=? mon_idx then ret tt
    else
      mon <- checked (λ _, vget mons mon_idx) ;;
      let '(phy_pos, phy_size) := physical mon in
      w <- deref p ;;
      if negb (is_self_managed w) then
        set_window p (λ w, w <| pos := phy_pos |> <| size := phy_size |>) ;;
        mark_window_dirty (id w) FlushGeometry
      else ret tt.

(** [ws.mode = m], on the workspace [ws_id]. *)
Definition set_workspace_mode (ws_id : Z) (m : WorkspaceMode) : M core unit :=
  on_wsman (ws <- at_ws ws_id ;; put_ws ws_id (ws <| mode := m |>)).

Definition lower_covering (focused : Z) (p : addr) : M core unit :=
  o <- gets (λ c, wins (wsman c) !! p) ;;
  match o with
  | None => ret tt
  | Some w =>
      if is_visible w && covering w && negb (id w =? focused)
      then emit_backend_effect EffLowerWindow (id w) else ret tt
  end.

Definition evaluate_workspace_fullscreen (ws_id : Z) : M core unit :=
  n <- gets workspace_count ;;
  if (ws_id <? 0) || (n <=? ws_id) then ret tt
  else
    has_fs <- gets (λ c, has_fullscreen_window (wins (wsman c)) (workspace (wsman c) ws_id)) ;;
    m <- gets (λ c, mode (workspace (wsman c) ws_id)) ;;
    (if has_fs && negb (bool_decide (m = ModeFullscreen)) then
       set_workspace_mode ws_id ModeFullscreen ;; post RaiseDocks
     else if negb has_fs && bool_decide (m = ModeFullscreen) then
       set_workspace_mode ws_id ModeNormal ;; post RaiseDocks
     else ret tt) ;;
    ws <- gets (λ c, workspace (wsman c) ws_id) ;;
    if negb (bool_decide (mode ws = ModeFullscreen)) then ret tt
    else
      focused <- gets (λ c, ws_focused (wins (wsman c)) (workspace (wsman c) ws_id)) ;;
      match focused with
      | None => ret tt
      | Some f =>
          w <- deref f ;;
          if negb (is_visible w) then ret tt
          else if covering w then
            pin_fullscreen_to_monitor f ws_id ;;
            emit_backend_effect EffRaiseWindow (id w)
          else
            emit_backend_effect EffRaiseWindow (id w) ;;
            for_each (windows ws) (lower_covering (id w))
      end.

(** ** Focus *)

Definition emit_focus_changed (window : Z) : M core unit :=
  post (FocusChanged window) ;;
  if negb (window =? NO_WINDOW) then
    ws_id <- gets (λ c, workspace_of_window (wsman c) window) ;;
    if 0 <=? ws_id then evaluate_workspace_fullscreen ws_id else ret tt
  else ret tt.

(** The best candidate of the current workspace, for [focus(NO_WINDOW)]. *)
Definition focus_candidate (s : wm) : Z :=
  match ws_focused (wins s) (current_ws s) with
  | Some p => if holds (wins s) is_visible p then win_id (wins s) (Some p) else NO_WINDOW
  | None => NO_WINDOW
  end.

(** [w && w->is_visible()] for [w = find_window(window)]. *)
Definition focusable (s : wm) (window : Z) : bool :=
  match find_window s window NO_WORKSPACE with
  | Some p => holds (wins s) is_visible p
  | None => false
  end.

Definition focus (window : Z) : M core unit :=
  window <- gets (λ c, if window =? NO_WINDOW then focus_candidate (wsman c) else window) ;;
  window <- gets (λ c, if negb (window =? NO_WINDOW) && negb (focusable (wsman c) window)
                       then NO_WINDOW else window) ;;
  window <- (if negb (window =? NO_WINDOW) then
               ok <- on_wsman (focus_window window) ;;
               ret (if ok then window else NO_WINDOW)
             else ret window) ;;
  if negb (window =? NO_WINDOW) then
    emit_backend_effect EffFocusWindow window ;;
    emit_focus_changed window
  else
    emit_backend_effect EffFocusRoot NO_WINDOW ;;
    emit_focus_changed NO_WINDOW.

Definition core_focus_monitor_at_point (p : Vec2) : M core bool :=
  ok <- on_wsman (λ s, Some (focus_monitor_at_point p s)) ;;
  if negb ok then ret false
  else focus NO_WINDOW ;; ret true.

(** ** Geometry commands *)

Definition dispatch_SetWindowGeometry (window : Z) (npos nsize : Vec2) : M core bool :=
  o <- find_win window ;;
  match o with
  | None => ret false
  | Some p =>
      set_window p (λ w, w <| pos := npos |>
        <| size := (if floating w then apply_size_hints w nsize else nsize) |>) ;;
      mark_window_dirty window FlushGeometry ;;
      ret true
  end.

Definition dispatch_SetWindowPosition (window : Z) (npos : Vec2) : M core bool :=
  o <- find_win window ;;
  match o with
  | None => ret false
  | Some p =>
      set_window p (λ w, w <| pos := npos |>) ;;
      mark_window_dirty window FlushPosition ;;
      ret true
  end.

Definition dispatch_SetWindowSize (window : Z) (nsize : Vec2) : M core bool :=
  o <- find_win window ;;
  match o with
  | None => ret false
  | Some p =>
      set_window p (λ w, w <| size :=
        (if floating w || borderless w then apply_size_hints w nsize else nsize) |>) ;;
      mark_window_dirty window FlushSize ;;
      ret true
  end.

Definition dispatch_SetWindowBorderWidth (window bw : Z) : M core bool :=
  o <- find_win window ;;
  match o with
  | None => ret false
  | Some p =>
      set_window p (λ w, w <| border_width := bw |>) ;;
      mark_window_dirty window FlushBorderWidth ;;
      ret true
  end.

(** The fields a [ConfigureNotify] may overwrite: those with no change pending. *)
Definition sync_fields (clean : Z → bool) (npos nsize : Vec2) (bw : Z) (w : Window) : Window :=
  w <| pos := mkVec2 (if clean FlushX then x npos else x (pos w))
                     (if clean FlushY then y npos else y (pos w)) |>
    <| size := mkVec2 (if clean FlushWidth then x nsize else x (size w))
                      (if clean FlushHeight then y nsize else y (size w)) |>
    <| border_width := (if clean FlushBorderWidth then bw else border_width w) |>.

(** [!pending || !(pending->dirty & bit)]. *)
Definition flush_clean (pending : option WindowFlush) (bit : Z) : bool :=
  match pending with
  | None => true
  | Some f => Z.land (fl_dirty f) bit =? 0
  end.

Definition dispatch_SyncWindowFromConfigureNotify (window : Z) (npos nsize : Vec2) (bw : Z)
    : M core bool :=
  o <- find_win window ;;
  match o with
  | None => ret false
  | Some p =>
      pending <- gets (λ c, pending_window_flushes c !! window) ;;
      set_window p (sync_fields (flush_clean pending) npos nsize bw) ;;
      ret true
  end.

(** ** Arranging *)

(** The lambda [place] of [arrange]. *)
Definition place_window (pl : Placement) : M core unit :=
  let win := pl_win pl in
  o <- find_win win ;;
  nsize <- match o with
           | None => ret (pl_size pl)
           | Some p =>
               w <- deref p ;;
               ret (if size_locked w && (0 <? x (size w)) && (0 <? y (size w))
                    then size w else pl_size pl)
           end ;;
  dispatch_SetWindowGeometry win (pl_pos pl) nsize ;;
  dispatch_SetWindowBorderWidth win (pl_border pl) ;;
  emit_backend_effect EffUpdateWindow win.

Definition is_tiled (w : Window) : bool :=
  is_visible w && negb (floating w) && negb (fullscreen w) && negb (borderless w) &&
  negb (is_self_managed w).

(** The ids of the windows of [ws] that the layout places. *)
Definition tiled_ids (h : heap) (ws : Workspace) : list Z :=
  flat_map (λ p, match h !! p with
    | Some w => if is_tiled w then [id w] else []
    | None => []
    end) (windows ws).

(** The body of the last loop of [arrange]: the theme's border on floating windows. *)
Definition arrange_floating_border (p : addr) : M core unit :=
  o <- gets (λ c, wins (wsman c) !! p) ;;
  t <- gets (λ c, to_u32 (border_thickness (theme (settings c)))) ;;
  match o with
  | None => ret tt
  | Some w =>
      if negb (is_visible w) || negb (floating w) || fullscreen w || borderless w then ret tt
      else if border_width w =? t then ret tt
      else
        dispatch_SetWindowBorderWidth (id w) t ;;
        emit_backend_effect EffUpdateWindow (id w)
  end.

(** The layout function [arrange] uses; a Lua layout needs a Lua host. *)
Inductive selected_layout := NoLayout | CppLayout (f : LayoutFn) | LuaLayout (f : LayoutFn).

Definition select_layout (c : core) : selected_layout :=
  match layouts c !! active_layout c with
  | Some f => CppLayout f
  | None =>
      match lua_layouts c !! active_layout c with
      | Some f => LuaLayout f
      | None => NoLayout
      end
  end.

Definition arrange_monitor (mon : Monitor) : M core unit :=
  if mon_active_ws mon <? 0 then ret tt
  else
    ws <- gets (λ c, workspace (wsman c) (mon_active_ws mon)) ;;
    tiled <- gets (λ c, tiled_ids (wins (wsman c)) ws) ;;
    cfg <- gets (λ c, (layout_cfg c) <| border := border_thickness (theme (settings c)) |>
                                  <| gap := theme_gap (theme (settings c)) |>) ;;
    sel <- gets select_layout ;;
    bound <- gets lua_bound ;;
    let floating_borders := for_each (windows ws) arrange_floating_border in
    match sel with
    | NoLayout => ret tt
    | CppLayout f =>
        pls <- checked (λ _, f tiled mon cfg) ;;
        for_each pls place_window ;; floating_borders
    | LuaLayout f =>
        if negb bound then ret tt
        else
          pls <- checked (λ _, f tiled mon cfg) ;;
          for_each pls place_window ;; floating_borders
    end.

Definition arrange : M core unit :=
  sel <- gets select_layout ;;
  match sel with
  | NoLayout => ret tt
  | _ => mons <- gets (λ c, monitors (wsman c)) ;; for_each mons arrange_monitor
  end.

Definition reconcile : M core unit :=
  sync_workspace_visibility ;; arrange ;; focus NO_WINDOW.

(** [Core::init]: the built-in layouts, the monitors and the workspaces. *)
Definition core_init (initial_monitors : list Monitor) : M core unit :=
  modify (λ c, c <| layouts ::= λ l,
    <["unmanaged" := λ _ _ _, Some []]>
      (<["monocle" := λ ws m cfg, Some (monocle ws m cfg)]> (<["tile" := run_tile]> l)) |>) ;;
  (if bool_decide (initial_monitors = []) then ret tt
   else on_wsman (modify (set_monitors initial_monitors))) ;;
  st <- gets settings ;;
  on_wsman (modify (init_from_defs (workspace_defs st) (monitor_aliases st) (monitor_compose st))).
