(* ===== verification/RestartState.v ===== *)
(** * The restart state file

    [Runtime::save_restart_state] ([runtime/runtime.cpp]) writes the active
    workspace of every monitor and the state of every managed window;
    [load_restart_state] ([backends/x11/src/backend/adopt.cpp]) reads it after
    the process has replaced itself.  The round trip theorem is about the two
    together. *)

From S2P Require Import Prelude TextStream Geometry Workspace WorkspaceManager Core.
Local Open Scope Z_scope.

(** ** Saving *)

Definition save_monitor (i : nat) (m : Monitor) : text :=
  txt "MON " ++ show_int (Z.of_nat i) ++ txt " " ++ show_int (mon_active_ws m) ++ [newline].

Record RestartWinState := mkRestartWin {
  rw_ws_id : Z; rw_floating : bool; rw_fullscreen : bool;
  rw_hidden_explicitly : bool; rw_borderless : bool }.

Definition save_window (e : Z * RestartWinState) : text :=
  let '(id, w) := e in
  txt "WINDOW " ++ show_int id ++ txt " " ++ show_int (rw_ws_id w) ++
  txt " " ++ show_bool (rw_floating w) ++ txt " " ++ show_bool (rw_fullscreen w) ++
  txt " " ++ show_bool (rw_hidden_explicitly w) ++ txt " " ++ show_bool (rw_borderless w) ++ [newline].

(** The state of a window id, or [None] when the loop skips it. *)
Definition saved_state (c : core) (win : Z) : option RestartWinState :=
  let ws_id := workspace_of_window (wsman c) win in
  if ws_id <? 0 then None
  else
    let w := find_window_in_all (wsman c) win ≫= λ p, wins (wsman c) !! p in
    let flag (f : Window → bool) := match w with Some w => f w | None => false end in
    if flag borderless && flag self_managed then None
    else Some (mkRestartWin ws_id (flag floating) (flag fullscreen)
                 (flag hidden_explicitly) (flag borderless)).

(** The loop over [all_window_ids], with the set of ids seen. *)
Fixpoint save_entries (c : core) (seen : gset Z) (ids : list Z) : list (Z * RestartWinState) :=
  match ids with
  | [] => []
  | win :: ids' =>
      if decide (win ∈ seen) then save_entries c seen ids'
      else
        let rest := save_entries c ({[win]} ∪ seen) ids' in
        match saved_state c win with Some w => (win, w) :: rest | None => rest end
  end.

Definition saved_windows (c : core) : list (Z * RestartWinState) :=
  save_entries c ∅ (all_window_ids c).

(** The text [save_restart_state] leaves in the file. *)
Definition save_restart_state (c : core) : text :=
  concat (imap save_monitor (monitors (wsman c))) ++ concat (save_window <$> saved_windows c).

(** ** Loading *)

Record RestartState := mkRestartState {
  rs_windows : gmap Z RestartWinState;
  rs_monitor_active_ws : gmap Z Z;
  rs_had_file : bool }.
#[export] Instance eta_RestartState : Eta RestartState := λ r,
  mkRestartState (rs_windows r) (rs_monitor_active_ws r) (rs_had_file r).

(** [ss >> fs; ss >> he; ss >> bl]: once the stream fails the rest keeps 0. *)
Definition read_flags (s : text) : bool * bool * bool :=
  let '(fs, ok1, s1) := read_i32 s in
  let '(he, ok2, s2) := if ok1 then read_i32 s1 else (0, false, s1) in
  let '(bl, _, _) := if ok2 then read_i32 s2 else (0, false, s2) in
  (negb (fs =? 0), negb (he =? 0), negb (bl =? 0)).

(** The fields of a WINDOW line. *)
Definition read_window (line : text) : option (Z * RestartWinState) :=
  let '(win, ok1, s1) := read_u32 line in
  if negb ok1 then None else
  let '(ws, ok2, s2) := read_i32 s1 in
  if negb ok2 then None else
  let '(fl, ok3, s3) := read_i32 s2 in
  if negb ok3 then None else
  let '(fs, he, bl) := read_flags s3 in
  Some (win, mkRestartWin ws (negb (fl =? 0)) fs he bl).

(** The loop [while (in >> token)]; a failed stream ends it. *)
Fixpoint load_tokens (fuel : nat) (s : text) (out : RestartState) : RestartState :=
  match fuel with
  | O => out
  | S n =>
      match read_word s with
      | None => out
      | Some (token, s1) =>
          if bool_decide (token = txt "MON") then
            let '(mon, ok1, s2) := read_i32 s1 in
            if negb ok1 then out else
            let '(ws, ok2, s3) := read_i32 s2 in
            if negb ok2 then out
            else load_tokens n s3 (out <| rs_monitor_active_ws ::= <[mon := ws]> |>)
          else if bool_decide (token = txt "WINDOW") then
            match getline newline s1 with
            | None => out
            | Some (line, s2) =>
                load_tokens n s2 (match read_window line with
                  | Some (win, w) => out <| rs_windows ::= <[win := w]> |>
                  | None => out end)
            end
          else load_tokens n s1 out
      end
  end.

(** [load_restart_state], given the contents of the file, if there is one.  Every
    iteration reads a word, so the length of the text bounds their number. *)
Definition load_restart_state (file : option text) : RestartState :=
  match file with
  | None => mkRestartState ∅ ∅ false
  | Some s => load_tokens (S (length s)) s (mkRestartState ∅ ∅ true)
  end.

(** ** The round trip *)

Definition in_i32 (z : Z) : Prop := -2147483648 ≤ z ≤ 2147483647.
Definition in_u32_range (z : Z) : Prop := 0 ≤ z < 4294967296.

Lemma ends_space s : ends (txt " " ++ s).
Proof. done. Qed.
Lemma ends_newline s : ends (newline :: s).
Proof. done. Qed.

Lemma read_i32_show n s : in_i32 n → ends s → read_i32 (txt " " ++ show_int n ++ s) = (n, true, s).
Proof. intros Hn Hs. rewrite read_space_i32. by apply read_show_int. Qed.

Lemma read_i32_bool b s : ends s → read_i32 (txt " " ++ show_bool b ++ s) = ((if b then 1 else 0), true, s).
Proof.
  intros Hs. rewrite read_space_i32.
  by destruct b; [apply (read_show_int _ _ 1)|apply (read_show_int _ _ 0)].
Qed.

Lemma flag_of_bool (b : bool) : negb ((if b then 1 else 0) =? 0) = b.
Proof. by destruct b. Qed.

Lemma read_save_window win w :
  in_u32_range win → in_i32 (rw_ws_id w) →
  read_window (txt " " ++ show_int win ++ txt " " ++ show_int (rw_ws_id w) ++
    txt " " ++ show_bool (rw_floating w) ++ txt " " ++ show_bool (rw_fullscreen w) ++
    txt " " ++ show_bool (rw_hidden_explicitly w) ++ txt " " ++ show_bool (rw_borderless w) ++ []) =
  Some (win, w).
Proof.
  intros Hid Hws. unfold read_window. rewrite read_space_u32, read_show_u32 by done. cbn [negb].
  rewrite read_i32_show by done. cbn [negb]. rewrite read_i32_bool by done. cbn [negb].
  unfold read_flags. rewrite read_i32_bool by done. cbv iota. rewrite read_i32_bool by done. cbv iota.
  rewrite read_i32_bool by done. rewrite !flag_of_bool. by destruct w.
Qed.

Lemma load_newline n s out : load_tokens n (newline :: s) out = load_tokens n s out.
Proof. by destruct n. Qed.

Lemma load_monitor n i m s out :
  in_i32 (Z.of_nat i) → in_i32 (mon_active_ws m) →
  load_tokens (S n) (save_monitor i m ++ s) out =
  load_tokens n s (out <| rs_monitor_active_ws ::= <[Z.of_nat i := mon_active_ws m]> |>).
Proof.
  intros Hi Hm. unfold save_monitor. rewrite <- !app_assoc.
  cbn [load_tokens]. change (txt "MON ") with (txt "MON" ++ txt " "). rewrite <- app_assoc.
  rewrite read_show_word; [|done|by repeat constructor|done]. rewrite bool_decide_true by done.
  rewrite read_i32_show by done. cbn [negb]. rewrite read_i32_show by done. cbn [negb].
  cbn [app]. by rewrite load_newline.
Qed.

Lemma newline_not_in (l : text) : Forall (λ c, is_digit c = true ∨ code c = 45 ∨ code c = 32) l →
  Forall (λ c, c ≠ newline) l.
Proof. intros H. eapply Forall_impl; [exact H|]. cbn. by intros c [?|[?|?]] ->. Qed.

Lemma load_window n win w s out :
  in_u32_range win → in_i32 (rw_ws_id w) →
  load_tokens (S n) (save_window (win, w) ++ s) out =
  load_tokens n s (out <| rs_windows ::= <[win := w]> |>).
Proof.
  intros Hid Hws. unfold save_window. rewrite <- !app_assoc. cbn [load_tokens].
  change (txt "WINDOW ") with (txt "WINDOW" ++ txt " "). rewrite <- app_assoc.
  rewrite read_show_word; [|done|by repeat constructor|done].
  rewrite bool_decide_false by done. rewrite bool_decide_true by done.
  set (line := txt " " ++ show_int win ++ txt " " ++ show_int (rw_ws_id w) ++
    txt " " ++ show_bool (rw_floating w) ++ txt " " ++ show_bool (rw_fullscreen w) ++
    txt " " ++ show_bool (rw_hidden_explicitly w) ++ txt " " ++ show_bool (rw_borderless w) ++ []).
  match goal with |- context [getline newline ?x] => replace x with (line ++ newline :: s) end.
  2: { unfold line. rewrite <- !app_assoc. done. }
  rewrite getline_app.
  - unfold line. by rewrite read_save_window.
  - apply newline_not_in. unfold line.
    assert (Hn : ∀ n, Forall (λ c, is_digit c = true ∨ code c = 45 ∨ code c = 32) (show_int n)).
    { intros k. eapply Forall_impl; [apply show_int_chars|]. cbn. naive_solver. }
    assert (Hsp : Forall (λ c, is_digit c = true ∨ code c = 45 ∨ code c = 32) (txt " ")).
    { constructor; [|constructor]. by right; right. }
    assert (Hb : ∀ b, Forall (λ c, is_digit c = true ∨ code c = 45 ∨ code c = 32) (show_bool b)).
    { intros []; constructor; [by left|constructor|by left|constructor]. }
    rewrite !Forall_app. by split_and!; auto.
Qed.

Lemma load_monitors mons k n s out :
  (∀ i m, mons !! i = Some m → in_i32 (Z.of_nat (k + i)) ∧ in_i32 (mon_active_ws m)) →
  load_tokens (length mons + n) (concat (imap (λ i, save_monitor (k + i)) mons) ++ s) out =
  load_tokens n s (out <| rs_monitor_active_ws ::= λ r,
    foldl (λ r '(i, a), <[i := a]> r) r (imap (λ i m, (Z.of_nat (k + i), mon_active_ws m)) mons) |>).
Proof.
  revert k out. induction mons as [|m mons IH]; intros k out H; [by destruct out|].
  cbn [imap concat length Nat.add]. rewrite <- app_assoc.
  destruct (H 0%nat m eq_refl) as [H1 H2]. rewrite load_monitor by done.
  rewrite (imap_ext _ (λ i, save_monitor (S k + i)) mons) by (intros; cbn; by rewrite Nat.add_succ_r).
  rewrite IH.
  - f_equal. cbn. rewrite Nat.add_0_r. destruct out. unfold upd. cbn. f_equal. f_equal.
    apply imap_ext. intros i x _. cbn. by rewrite Nat.add_succ_r.
  - intros i x Hx. specialize (H (S i) x Hx). by rewrite Nat.add_succ_r in H.
Qed.

Lemma load_windows es n s out :
  Forall (λ e, in_u32_range e.1 ∧ in_i32 (rw_ws_id e.2)) es →
  load_tokens (length es + n) (concat (save_window <$> es) ++ s) out =
  load_tokens n s (out <| rs_windows ::= λ r, foldl (λ r '(i, w), <[i := w]> r) r es |>).
Proof.
  intros H. revert out. induction H as [|[win w] es [H1 H2] _ IH]; intros out; [by destruct out|].
  cbn [fmap list_fmap concat length Nat.add]. rewrite <- app_assoc, load_window by done.
  rewrite IH. by destruct out.
Qed.

Lemma save_entries_spec c ids seen (r : gmap Z RestartWinState) win :
  foldl (λ r '(i, w), <[i := w]> r) r (save_entries c seen ids) !! win =
  if decide (win ∈ ids ∧ win ∉ seen)
  then match saved_state c win with Some w => Some w | None => r !! win end
  else r !! win.
Proof.
  revert seen r. induction ids as [|i ids IH]; intros seen r; cbn [save_entries].
  { rewrite decide_False; [done|]. intros [H _]. by apply elem_of_nil in H. }
  destruct (decide (i ∈ seen)) as [Hs|Hs].
  - rewrite IH. apply decide_ext. rewrite elem_of_cons. naive_solver.
  - destruct (decide (win = i)) as [->|Hne].
    + rewrite (decide_True (P := i ∈ i :: ids ∧ i ∉ seen)) by (split; [left|done]).
      destruct (saved_state c i) as [w|]; cbn [foldl]; rewrite IH;
        rewrite decide_False by set_solver; [apply lookup_insert_eq|done].
    + assert (E : ∀ r' : gmap Z RestartWinState, foldl (λ r '(i, w), <[i := w]> r) r' (save_entries c ({[i]} ∪ seen) ids) !! win =
        if decide (win ∈ i :: ids ∧ win ∉ seen)
        then match saved_state c win with Some w => Some w | None => r' !! win end else r' !! win).
      { intros r'. rewrite IH. apply decide_ext. rewrite elem_of_cons. set_solver. }
      destruct (saved_state c i); cbn [foldl]; rewrite E; [|done].
      by rewrite lookup_insert_ne.
Qed.

Lemma foldl_imap_lookup {A} (f : A → Z) (l : list A) k (r : gmap Z Z) j :
  foldl (λ r '(i, a), <[i := a]> r) r (imap (λ i m, (Z.of_nat (k + i), f m)) l) !! j =
  match (if decide (Z.of_nat k ≤ j) then l !! (Z.to_nat j - k)%nat else None) with
  | Some m => Some (f m) | None => r !! j end.
Proof.
  revert k r. induction l as [|m l IH]; intros k r; cbn [imap foldl]; [by case_decide|].
  rewrite (imap_ext _ (λ i m, (Z.of_nat (S k + i), f m)) l) by (intros; cbn; by rewrite Nat.add_succ_r).
  rewrite Nat.add_0_r, IH. destruct (decide (j = Z.of_nat k)) as [->|Hne].
  - rewrite decide_False, decide_True, Nat2Z.id, Nat.sub_diag by lia. apply lookup_insert_eq.
  - rewrite lookup_insert_ne by done. destruct (decide (Z.of_nat k ≤ j)) as [H|H].
    + rewrite decide_True by lia. replace (Z.to_nat j - k)%nat with (S (Z.to_nat j - S k)) by lia. done.
    + by rewrite decide_False by lia.
Qed.

Lemma concat_length_le {A B} (f : A → list B) l :
  (∀ a, f a ≠ []) → (length l ≤ length (concat (f <$> l)))%nat.
Proof.
  intros Hf. induction l as [|a l IH]; [done|]. cbn. rewrite length_app.
  specialize (Hf a). destruct (f a); [done|]. cbn. lia.
Qed.

Lemma save_entries_elem c ids seen win w :
  (win, w) ∈ save_entries c seen ids → win ∈ ids ∧ saved_state c win = Some w.
Proof.
  revert seen. induction ids as [|i ids IH]; intros seen; cbn; [by intros ?%elem_of_nil|].
  case_decide; [intros [? ?]%IH; split; [by right|done]|].
  destruct (saved_state c i) as [w'|] eqn:E.
  - intros [[= -> ->]|[? ?]%IH]%elem_of_cons; [split; [by left|done]|split; [by right|done]].
  - intros [? ?]%IH. split; [by right|done].
Qed.

(** What fits the number formats of the file. *)
Definition file_ok (c : core) : Prop :=
  (∀ win, win ∈ all_window_ids c → in_u32_range win) ∧
  (∀ i m, monitors (wsman c) !! i = Some m → in_i32 (Z.of_nat i) ∧ in_i32 (mon_active_ws m)) ∧
  (∀ win, in_i32 (workspace_of_window (wsman c) win)).

Lemma restart_read_back c :
  file_ok c →
  let r := load_restart_state (Some (save_restart_state c)) in
  rs_had_file r = true ∧
  (∀ i, rs_monitor_active_ws r !! i = mon_active_ws <$> vget (monitors (wsman c)) i) ∧
  ∀ win, rs_windows r !! win =
    if decide (win ∈ all_window_ids c) then saved_state c win else None.
Proof.
  intros (Hids & Hmons & Hws) r.
  assert (Hes : Forall (λ e, in_u32_range e.1 ∧ in_i32 (rw_ws_id e.2)) (saved_windows c)).
  { apply Forall_forall. intros [win w] Hin%save_entries_elem. destruct Hin as [Hin Hst].
    split; [by apply Hids|]. cbn. unfold saved_state in Hst. destruct (_ <? 0); [done|].
    destruct (_ && _); [done|]. injection Hst as <-. apply Hws. }
  assert (E : ∃ n, S (length (save_restart_state c)) =
    (length (monitors (wsman c)) + (length (saved_windows c) + n))%nat).
  { assert (length (monitors (wsman c)) + length (saved_windows c) ≤ length (save_restart_state c))%nat; [|].
    - unfold save_restart_state. rewrite length_app. apply Nat.add_le_mono.
      + rewrite <- (length_imap pair (monitors (wsman c))).
        replace (imap save_monitor (monitors (wsman c))) with
          ((λ '(i, m), save_monitor i m) <$> imap pair (monitors (wsman c))) by (by rewrite fmap_imap).
        by apply concat_length_le; intros [].
      + by apply concat_length_le; intros [].
    - exists (S (length (save_restart_state c)) - length (monitors (wsman c)) - length (saved_windows c))%nat. lia. }
  destruct E as [n E]. unfold r, load_restart_state. rewrite E. unfold save_restart_state.
  rewrite (load_monitors _ 0) by done.
  rewrite <- (app_nil_r (concat (save_window <$> saved_windows c))), load_windows by done.
  assert (Hend : ∀ out, load_tokens n [] out = out) by (by destruct n).
  rewrite Hend. cbn. split_and!; [done|..].
  - intros i. rewrite (foldl_imap_lookup mon_active_ws _ 0). unfold vget. rewrite Nat.sub_0_r.
    rewrite lookup_empty. change (Z.of_nat 0) with 0. case_decide; [|done]. by destruct (_ !! _).
  - intros win. unfold saved_windows. rewrite save_entries_spec, lookup_empty.
    rewrite (decide_ext _ (win ∈ all_window_ids c)) by set_solver.
    case_decide; [|done]. by destruct (saved_state c win).
Qed.
