(* ===== verification/ConfigValue.v ===== *)
(** * Configuration values
    ([config/runtime_config.hpp], [core/src/runtime/runtime_config.cpp],
    [support/string_utils.hpp])

    The tree a Lua value is converted into.  Lua itself is not code of this
    repository: its values are data here, and which strings Lua reads as numbers
    (lua_isnumber holds of them) is a parameter. *)

From Stdlib Require Import SpecFloat Ascii.
From S2P Require Import Prelude.
Local Open Scope Z_scope.

(** ** [RuntimeValue] *)

(** [double]: an IEEE-754 value. *)
Abbreviation double := spec_float.

Inductive RuntimeValue :=
| VNull
| VBool (b : bool)
| VInt (z : Z)
| VNum (f : double)
| VString (s : string)
| VArray (l : list RuntimeValue)
| VObject (o : gmap string RuntimeValue).

Definition as_bool (v : RuntimeValue) : option bool :=
  match v with VBool b => Some b | _ => None end.
Definition as_int (v : RuntimeValue) : option Z :=
  match v with VInt z => Some z | _ => None end.
Definition as_num (v : RuntimeValue) : option double :=
  match v with VNum f => Some f | _ => None end.
Definition as_string (v : RuntimeValue) : option string :=
  match v with VString s => Some s | _ => None end.
Definition as_array (v : RuntimeValue) : option (list RuntimeValue) :=
  match v with VArray l => Some l | _ => None end.
Definition as_object (v : RuntimeValue) : option (gmap string RuntimeValue) :=
  match v with VObject o => Some o | _ => None end.

Inductive RuntimeValueType :=
| TNull | TBool | TInt | TNumber | TString | TArray | TObject.
#[export] Instance RuntimeValueType_eq_dec : EqDecision RuntimeValueType.
Proof. solve_decision. Defined.

Definition runtime_value_type (v : RuntimeValue) : RuntimeValueType :=
  match v with
  | VNull => TNull | VBool _ => TBool | VInt _ => TInt | VNum _ => TNumber
  | VString _ => TString | VArray _ => TArray | VObject _ => TObject
  end.

(** ** Strings ([support/string_utils.hpp]) *)

Definition lower_char (c : ascii) : ascii :=
  let n := Ascii.nat_of_ascii c in
  if (65 <=? n)%nat && (n <=? 90)%nat then Ascii.ascii_of_nat (n - 65 + 97) else c.
Fixpoint lower_ascii (s : string) : string :=
  match s with
  | EmptyString => EmptyString
  | String c s' => String (lower_char c) (lower_ascii s')
  end.

Definition is_valid_rotation (rot : string) : bool :=
  let r := lower_ascii rot in
  String.eqb r "normal" || String.eqb r "left" || String.eqb r "right" || String.eqb r "inverted".

(** ** Integer conversions *)

(** [static_cast<int>] of an [int64_t]: the low 32 bits, signed. *)
Definition int_of_int64 (z : Z) : Z :=
  let w := Z.land z 4294967295 in if w <? 2147483648 then w else w - 4294967296.
Definition in_int (z : Z) : bool := (-2147483648 <=? z) && (z <=? 2147483647).

(** [static_cast<int>] of a [double]: truncation, undefined out of range. *)
Definition int_of_double (f : double) : option Z :=
  let t := match f with
           | S754_zero _ => Some 0
           | S754_finite s m e =>
               let a := if 0 <=? e then Z.pos m * 2 ^ e else Z.pos m / 2 ^ (- e) in
               Some (if s then - a else a)
           | _ => None
           end in
  t ≫= λ z, if in_int z then Some z else None.

(** ** Values of Lua *)

(** A table: what lua_rawlen returns of it, and its entries in the order
    lua_next visits them. *)
Inductive LuaValue :=
| LNil
| LBool (b : bool)
| LInt (z : Z)
| LNum (f : double)
| LStr (s : string)
| LTable (len : Z) (entries : list (LuaValue * LuaValue))
| LFunction (f : Z)
| LOther.

(** lua_rawgeti. *)
Definition raw_geti (entries : list (LuaValue * LuaValue)) (i : Z) : LuaValue :=
  match find (λ e, match e.1 with LInt k => k =? i | _ => false end) entries with
  | Some e => e.2
  | None => LNil
  end.

Section FromLua.
(** The number Lua reads in a string, if any, and the string it makes of a number. *)
Context (str_to_number : string → option double) (num_to_str : LuaValue → string).

Definition is_number (v : LuaValue) : bool :=
  match v with
  | LInt _ | LNum _ => true
  | LStr s => bool_decide (is_Some (str_to_number s))
  | _ => false
  end.
Definition is_integer (v : LuaValue) : bool := match v with LInt _ => true | _ => false end.
Definition is_string (v : LuaValue) : bool :=
  match v with LInt _ | LNum _ | LStr _ => true | _ => false end.
Definition to_string (v : LuaValue) : string :=
  match v with LStr s => s | _ => num_to_str v end.
Definition to_number (v : LuaValue) : double :=
  match v with
  | LNum f => f
  | LStr s => default (S754_zero false) (str_to_number s)
  | _ => S754_zero false
  end.

(** Every key is an integer of [1 .. n]. *)
Definition array_like (n : Z) (entries : list (LuaValue * LuaValue)) : bool :=
  forallb (λ e, match e.1 with LInt k => (1 <=? k) && (k <=? n) | _ => false end) entries.

Definition kMaxRuntimeDepth : nat := 32.

(** [runtime_value_from_lua_impl] with [levels] = kMaxRuntimeDepth + 1 - depth. *)
Fixpoint from_lua (levels : nat) (v : LuaValue) : option RuntimeValue :=
  match levels with
  | O => None
  | S levels =>
      match v with
      | LNil => Some VNull
      | LBool b => Some (VBool b)
      | LTable n entries =>
          if array_like n entries
          then VArray <$> mapM (λ i, from_lua levels (raw_geti entries i)) (Z.succ <$> range n)
          else
            VObject <$> foldl (λ acc e,
              obj ← acc;
              if is_string e.1 then
                v ← from_lua levels e.2;
                let k := to_string e.1 in
                Some (match obj !! k with None => <[k := v]> obj | Some _ => obj end)
              else None) (Some ∅) entries
      | _ =>
          if is_number v then
            Some (match v with LInt z => VInt z | _ => VNum (to_number v) end)
          else if is_string v then Some (VString (to_string v))
          else None
      end
  end.

Definition runtime_value_from_lua (v : LuaValue) : option RuntimeValue :=
  from_lua (S kMaxRuntimeDepth) v.
End FromLua.

Arguments runtime_value_from_lua : simpl never.
Arguments kMaxRuntimeDepth : simpl never.
