(* ===== verification/ConfigRuntime.v ===== *)
(** * Parsers of the core settings ([core/src/runtime/config_runtime.cpp])

    One parser per declarative setting.  A parser returns the value, or the
    error text the code reports, or, for a number out of the range of [int],
    undefined behaviour. *)

From Stdlib Require Import SpecFloat.
From S2P Require Import Prelude Geometry Workspace WorkspaceManager Core ConfigValue.
Local Open Scope Z_scope.
Local Open Scope string_scope.

(** ** Results *)

Inductive result (A : Type) :=
| Ok (a : A)
| Err (e : string)
| Undefined.
Arguments Ok {A} a.
Arguments Err {A} e.
Arguments Undefined {A}.

Definition rbind {A B} (m : result A) (k : A → result B) : result B :=
  match m with
  | Ok a => k a
  | Err e => Err e
  | Undefined => Undefined
  end.
Notation "x <~ m ;; k" := (rbind m (λ x, k))
  (at level 100, m at next level, right associativity) : wm_scope.
Notation "m ~;; k" := (rbind m (λ _, k))
  (at level 100, right associativity) : wm_scope.

Definition require {A} (o : option A) (e : string) : result A :=
  match o with Some a => Ok a | None => Err e end.
Definition ensure (b : bool) (e : string) : result unit := if b then Ok tt else Err e.

(** The loop over the entries of an array: the first error ends it. *)
Fixpoint parse_entries {A} (f : Z → RuntimeValue → result A) (i : Z) (l : list RuntimeValue)
    : result (list A) :=
  match l with
  | [] => Ok []
  | v :: l' => a <~ f i v ;; as_ <~ parse_entries f (i + 1) l' ;; Ok (a :: as_)
  end.

(** ** Fields *)

Abbreviation Object := (gmap string RuntimeValue).

Definition to_int32_checked (v : RuntimeValue) : option Z :=
  as_int v ≫= λ z, if in_int z then Some z else None.

(** The unordered map is visited in an order the code does not fix. *)
Definition check_known_fields (obj : Object) (allowed : list string) (origin : string)
    : result unit :=
  match find (λ e, negb (bool_decide (e.1 ∈ allowed))) (map_to_list obj) with
  | Some e => Err (origin ++ ": unknown field '" ++ e.1 ++ "'")
  | None => Ok tt
  end.

Definition read_required {A} (get : RuntimeValue → option A) (what : string) (obj : Object)
    (origin key : string) : result A :=
  v <~ require (obj !! key) (origin ++ ": '" ++ key ++ "' is required") ;;
  require (get v) (origin ++ ": '" ++ key ++ "' must be " ++ what).

(** A field that keeps its value [old] when the key is absent. *)
Definition read_optional {A} (get : RuntimeValue → option A) (what : string) (obj : Object)
    (origin key : string) (old : A) : result A :=
  match obj !! key with
  | None => Ok old
  | Some v => require (get v) (origin ++ ": '" ++ key ++ "' must be " ++ what)
  end.

Definition read_string_required := read_required as_string "a string".
Definition read_int_required := read_required to_int32_checked "an integer".
Definition read_bool_required := read_required as_bool "a boolean".

Definition entry_origin (what : string) (i : Z) : string := what ++ "[" ++ pretty (i + 1) ++ "]".

(** ** Monitors *)

Definition parse_monitor (i : Z) (v : RuntimeValue) : result MonitorAlias :=
  let origin := entry_origin "monitors" i in
  obj <~ require (as_object v) (origin ++ ": entry must be an object") ;;
  check_known_fields obj ["name"; "output"; "width"; "height"; "refresh"; "rate"; "rotation";
                          "enabled"] origin ~;;
  name <~ read_string_required obj origin "name" ;;
  out <~ read_string_required obj origin "output" ;;
  w <~ read_int_required obj origin "width" ;;
  h <~ read_int_required obj origin "height" ;;
  rot <~ read_string_required obj origin "rotation" ;;
  en <~ read_bool_required obj origin "enabled" ;;
  r <~ read_optional to_int32_checked "an integer" obj origin "refresh" 0%Z ;;
  r <~ read_optional to_int32_checked "an integer" obj origin "rate" r ;;
  ensure ((0 <? w)%Z && (0 <? h)%Z) (origin ++ ": invalid size " ++ pretty w ++ "x" ++ pretty h) ~;;
  ensure (is_valid_rotation rot) (origin ++ ": invalid rotation '" ++ rot ++ "'") ~;;
  Ok (mkMonitorAlias name out w h r rot en).

Definition parse_monitors_runtime (v : RuntimeValue) : result (list MonitorAlias) :=
  arr <~ require (as_array v) "must be an array" ;;
  parse_entries parse_monitor 0 arr.

(** ** Compose *)

Definition parse_link (i : Z) (v : RuntimeValue) : result MonitorComposeLink :=
  let origin := entry_origin "compose_monitors.layout" i in
  obj <~ require (as_object v) (origin ++ ": entry must be an object") ;;
  check_known_fields obj ["monitor"; "relative_to"; "anchor"; "side"; "shift"] origin ~;;
  mon <~ read_string_required obj origin "monitor" ;;
  rel <~ read_optional as_string "a string" obj origin "relative_to" "" ;;
  rel <~ read_optional as_string "a string" obj origin "anchor" rel ;;
  sd <~ read_optional (λ v, lower_ascii <$> as_string v) "a string" obj origin "side" "" ;;
  sh <~ read_optional to_int32_checked "an integer" obj origin "shift" 0%Z ;;
  Ok (mkMonitorComposeLink mon rel sd sh).

Definition parse_compose_runtime (v : RuntimeValue) : result MonitorCompose :=
  obj <~ require (as_object v) "must be an object" ;;
  check_known_fields obj ["primary"; "layout"] "compose_monitors" ~;;
  prim <~ read_string_required obj "compose_monitors" "primary" ;;
  arr <~ read_required as_array "an array" obj "compose_monitors" "layout" ;;
  links <~ parse_entries parse_link 0 arr ;;
  Ok (mkMonitorCompose prim links true).

(** ** Workspaces *)

Definition parse_workspace (i : Z) (v : RuntimeValue) : result WorkspaceDef :=
  let origin := entry_origin "workspaces" i in
  obj <~ require (as_object v) (origin ++ ": entry must be an object") ;;
  check_known_fields obj ["name"; "monitor"] origin ~;;
  nv <~ require (obj !! "name") (origin ++ ": 'name' is required") ;;
  name <~ require (as_string nv ≫= λ s, if String.eqb s "" then None else Some s)
            (origin ++ ": 'name' must be a non-empty string") ;;
  mon <~ read_optional as_string "a string" obj origin "monitor" "" ;;
  Ok (mkWorkspaceDef name mon).

Definition parse_workspaces_runtime (v : RuntimeValue) : result (list WorkspaceDef) :=
  arr <~ require (as_array v) "must be an array" ;;
  parse_entries parse_workspace 0 arr.

(** ** Theme: a field of another type is ignored *)

Definition read_int (obj : Object) (key : string) (old : Z) : result Z :=
  match obj !! key with
  | Some (VInt z) => Ok (int_of_int64 z)
  | Some (VNum f) => match int_of_double f with Some z => Ok z | None => Undefined end
  | _ => Ok old
  end.
Definition read_str (obj : Object) (key : string) (old : string) : string :=
  match obj !! key with
  | Some (VString s) => s
  | _ => old
  end.

Definition parse_theme_runtime (v : RuntimeValue) : result ThemeConfig :=
  let t := default_theme in
  obj <~ require (as_object v) "must be an object" ;;
  d <~ read_int obj "dpi" (dpi t) ;;
  cs <~ read_int obj "cursor_size" (cursor_size t) ;;
  g <~ read_int obj "gap" (theme_gap t) ;;
  let bobj := default ∅ (obj !! "border" ≫= as_object) in
  bt <~ read_int bobj "thickness" (border_thickness t) ;;
  Ok (mkTheme d cs (read_str obj "cursor_theme" (cursor_theme t)) (read_str obj "font" (font t))
        (read_str obj "bg" (bg t)) (read_str obj "fg" (fg t)) (read_str obj "alt_bg" (alt_bg t))
        (read_str obj "alt_fg" (alt_fg t)) (read_str obj "accent" (accent t)) bt
        (read_str bobj "focused" (border_focused t))
        (read_str bobj "unfocused" (border_unfocused t)) g).

(** ** What the parsers accept *)

Lemma rbind_Ok {A B} (m : result A) (k : A → result B) b :
  rbind m k = Ok b ↔ ∃ a, m = Ok a ∧ k a = Ok b.
Proof.
  destruct m; cbn; (split; [|intros (? & ? & ?)]); try done; [by eexists|congruence].
Qed.
Lemma require_Ok {A} (o : option A) e a : require o e = Ok a ↔ o = Some a.
Proof. destruct o; cbn; split; congruence. Qed.
Lemma ensure_Ok b e u : ensure b e = Ok u ↔ b = true.
Proof. destruct u, b; cbn; split; congruence. Qed.

Lemma check_known_Ok obj allowed origin u :
  check_known_fields obj allowed origin = Ok u ↔ ∀ k, is_Some (obj !! k) → k ∈ allowed.
Proof.
  unfold check_known_fields. destruct (find _ _) as [[k v]|] eqn:E; split.
  - done.
  - intros H. apply find_some in E as [Hin Hb]. cbn in Hb. apply negb_true_iff, bool_decide_eq_false in Hb.
    destruct Hb. apply H. exists v. by apply elem_of_map_to_list, list_elem_of_In.
  - intros _ k [v Hv]. apply elem_of_map_to_list, list_elem_of_In in Hv.
    pose proof (find_none _ _ E _ Hv) as Hb. cbn in Hb. by apply negb_false_iff, bool_decide_eq_true in Hb.
  - by destruct u.
Qed.

Lemma parse_entries_Ok {A} (f : Z → RuntimeValue → result A) i l as_ :
  parse_entries f i l = Ok as_ → Forall2 (λ v a, ∃ j, f j v = Ok a) l as_.
Proof.
  revert i as_. induction l as [|v l IH]; intros i as_; cbn.
  { intros [= <-]. constructor. }
  intros (a & Ha & (bs & Hb & [= <-])%rbind_Ok)%rbind_Ok. constructor; [by exists i|]. by eapply IH.
Qed.

Lemma parse_entries_fmap {A} (f : Z → RuntimeValue → result A) (g : A → RuntimeValue) i l :
  (∀ j a, a ∈ l → f j (g a) = Ok a) → parse_entries f i (g <$> l) = Ok l.
Proof.
  revert i. induction l as [|a l IH]; intros i H; cbn; [done|].
  rewrite H by (by left). cbn. rewrite IH; [done|]. intros j b Hb. apply H. by right.
Qed.

Record monitor_wf (m : MonitorAlias) : Prop := {
  mw_width : (0 < alias_width m ≤ 2147483647)%Z;
  mw_height : (0 < alias_height m ≤ 2147483647)%Z;
  mw_rate : in_int (rate m) = true;
  mw_rotation : is_valid_rotation (rotation m) = true }.

Lemma in_int_spec z : in_int z = true ↔ (-2147483648 ≤ z ≤ 2147483647)%Z.
Proof. unfold in_int. rewrite andb_true_iff, !Z.leb_le. done. Qed.
Lemma to_int32_range v z : to_int32_checked v = Some z → in_int z = true.
Proof.
  unfold to_int32_checked. destruct (as_int v); cbn; [|done]. by case_match; intros [= <-].
Qed.
Lemma read_required_Ok {A} (get : RuntimeValue → option A) what obj origin key a :
  read_required get what obj origin key = Ok a ↔ (obj !! key ≫= get) = Some a.
Proof.
  unfold read_required. rewrite rbind_Ok. destruct (obj !! key); cbn.
  - setoid_rewrite require_Ok. split; [by intros (? & [= <-] & ?)|eauto].
  - by split; [intros (? & ? & ?)|].
Qed.
Lemma read_optional_Ok {A} (get : RuntimeValue → option A) what obj origin key old a :
  read_optional get what obj origin key old = Ok a →
  match obj !! key with None => a = old | Some v => get v = Some a end.
Proof. unfold read_optional. destruct (obj !! key); [by rewrite require_Ok|]. by intros [= <-]. Qed.

Lemma read_int_optional obj origin key old a :
  read_optional to_int32_checked "an integer" obj origin key old = Ok a →
  in_int old = true → in_int a = true.
Proof. intros H%read_optional_Ok Ho. destruct (obj !! key); [by eapply to_int32_range|by subst]. Qed.

Lemma parse_monitor_wf i v m : parse_monitor i v = Ok m → monitor_wf m.
Proof.
  unfold parse_monitor. intros (obj & _ & H)%rbind_Ok. apply rbind_Ok in H as (_ & _ & H).
  apply rbind_Ok in H as (nm & _ & H). apply rbind_Ok in H as (o & _ & H).
  apply rbind_Ok in H as (w & Hw & H). apply rbind_Ok in H as (h & Hh & H).
  apply rbind_Ok in H as (rot & _ & H). apply rbind_Ok in H as (en & _ & H).
  apply rbind_Ok in H as (r1 & Hr1 & H). apply rbind_Ok in H as (r & Hr & H).
  apply rbind_Ok in H as (u1 & Hs & H). apply rbind_Ok in H as (u2 & Hrot & [= <-]).
  apply read_required_Ok, bind_Some in Hw as (vw & _ & Hiw). apply to_int32_range, in_int_spec in Hiw.
  apply read_required_Ok, bind_Some in Hh as (vh & _ & Hih). apply to_int32_range, in_int_spec in Hih.
  apply ensure_Ok, andb_true_iff in Hs as [?%Z.ltb_lt ?%Z.ltb_lt].
  apply ensure_Ok in Hrot. apply read_int_optional in Hr1; [|done].
  apply read_int_optional in Hr; [|done]. split; cbn; [lia..|done|done].
Qed.

(** ** Round trips: the value a setting is written as *)

Definition obj_of (l : list (string * RuntimeValue)) : Object := list_to_map l.

Definition monitor_value (m : MonitorAlias) : RuntimeValue :=
  VObject (obj_of [("name", VString (alias m)); ("output", VString (output m));
    ("width", VInt (alias_width m)); ("height", VInt (alias_height m)); ("rate", VInt (rate m));
    ("rotation", VString (rotation m)); ("enabled", VBool (enabled m))]).

Definition link_value (l : MonitorComposeLink) : RuntimeValue :=
  VObject (obj_of [("monitor", VString (link_monitor l)); ("relative_to", VString (relative_to l));
    ("side", VString (side l)); ("shift", VInt (shift l))]).

Definition compose_value (c : MonitorCompose) : RuntimeValue :=
  VObject (obj_of [("primary", VString (primary c)); ("layout", VArray (link_value <$> layout c))]).

Definition workspace_value (d : WorkspaceDef) : RuntimeValue :=
  VObject (obj_of [("name", VString (def_name d)); ("monitor", VString (def_monitor d))]).

Definition link_wf (l : MonitorComposeLink) : Prop :=
  lower_ascii (side l) = side l ∧ in_int (shift l) = true.
Definition workspace_wf (d : WorkspaceDef) : Prop := def_name d ≠ "".

Lemma check_known_obj l allowed origin :
  Forall (λ e, e.1 ∈ allowed) l → check_known_fields (obj_of l) allowed origin = Ok tt.
Proof.
  intros Hl. apply check_known_Ok. intros k [v Hv]. apply elem_of_list_to_map_2 in Hv.
  rewrite Forall_forall in Hl. by apply (Hl (k, v)).
Qed.

Fixpoint assoc (k : string) (l : list (string * RuntimeValue)) : option RuntimeValue :=
  match l with
  | [] => None
  | (k', v) :: l' => if String.eqb k k' then Some v else assoc k l'
  end.
Lemma obj_lookup k l : obj_of l !! k = assoc k l.
Proof.
  unfold obj_of. induction l as [|[k' v] l IH]; cbn; [done|].
  rewrite lookup_insert. case_decide; destruct (String.eqb_spec k k'); congruence.
Qed.

Ltac read_fields :=
  unfold read_string_required, read_int_required, read_bool_required, read_required, read_optional,
    to_int32_checked; rewrite !obj_lookup; cbn -[in_int is_valid_rotation lower_ascii].

Ltac known_fields :=
  rewrite check_known_obj; [|repeat (apply Forall_cons; split; [set_solver|]); apply Forall_nil; done].

Lemma parse_monitor_value i m : monitor_wf m → parse_monitor i (monitor_value m) = Ok m.
Proof.
  intros [Hw Hh Hr Hrot]. unfold parse_monitor, monitor_value. cbn [as_object require rbind].
  known_fields. read_fields.
  rewrite (proj2 (in_int_spec (alias_width m))), (proj2 (in_int_spec (alias_height m))), Hr by lia.
  cbn -[is_valid_rotation].
  rewrite (proj2 (Z.ltb_lt 0 (alias_width m))), (proj2 (Z.ltb_lt 0 (alias_height m))), Hrot by lia.
  by destruct m.
Qed.

Lemma parse_link_value i l : link_wf l → parse_link i (link_value l) = Ok l.
Proof.
  intros [Hs Hi]. unfold parse_link, link_value. cbn [as_object require rbind].
  known_fields. read_fields. rewrite Hi, Hs. by destruct l.
Qed.

Lemma parse_workspace_value i d : workspace_wf d → parse_workspace i (workspace_value d) = Ok d.
Proof.
  intros Hn. unfold parse_workspace, workspace_value. cbn [as_object require rbind].
  known_fields. read_fields. rewrite (proj2 (String.eqb_neq _ _) Hn). by destruct d.
Qed.

(** What the parsers of monitors, compose and workspaces are given is what
    they return: writing a setting as a configuration value and parsing it gives
    the setting back. *)
Theorem settings_roundtrip mons comp defs :
  Forall monitor_wf mons → Forall link_wf (layout comp) → defined comp = true →
  Forall workspace_wf defs →
  parse_monitors_runtime (VArray (monitor_value <$> mons)) = Ok mons ∧
  parse_compose_runtime (compose_value comp) = Ok comp ∧
  parse_workspaces_runtime (VArray (workspace_value <$> defs)) = Ok defs.
Proof.
  rewrite !Forall_forall. intros Hm Hl Hd Hw. split_and!.
  - apply parse_entries_fmap. intros j m Hin. by apply parse_monitor_value, Hm.
  - unfold parse_compose_runtime, compose_value. cbn [as_object require rbind].
    known_fields. read_fields. rewrite parse_entries_fmap; [|intros j l Hin; by apply parse_link_value, Hl].
    cbn. rewrite <- Hd. by destruct comp.
  - apply parse_entries_fmap. intros j d Hin. by apply parse_workspace_value, Hw.
Qed.

Lemma settings_roundtrip_witness :
  let m := mkMonitorAlias "main" "eDP-1" 1920 1080 60 "normal" true in
  let c := mkMonitorCompose "main" [mkMonitorComposeLink "hdmi" "main" "right" (-40)] true in
  parse_monitors_runtime (VArray (monitor_value <$> [m])) = Ok [m] ∧
  parse_compose_runtime (compose_value c) = Ok c ∧
  parse_workspaces_runtime (VArray (workspace_value <$> [mkWorkspaceDef "web" "main"])) =
    Ok [mkWorkspaceDef "web" "main"].
Proof.
  apply settings_roundtrip; [|by repeat constructor|done|by repeat constructor].
  constructor; [|constructor]. by constructor.
Defined.

(** ** From Lua *)

Section Lua.
Context (str_to_number : string → option double) (num_to_str : LuaValue → string).

Definition lua_record (fields : list (string * LuaValue)) : LuaValue :=
  LTable 0 ((λ e, (LStr e.1, e.2)) <$> fields).

Lemma from_lua_numeric n s f :
  str_to_number s = Some f → from_lua str_to_number num_to_str (S n) (LStr s) = Some (VNum f).
Proof.
  intros Hs. cbn [from_lua is_number to_number]. rewrite Hs, bool_decide_true by by eexists.
  reflexivity.
Qed.

Lemma from_lua_record1 n k v rv :
  from_lua str_to_number num_to_str n v = Some rv →
  from_lua str_to_number num_to_str (S n) (lua_record [(k, v)]) = Some (VObject {[k := rv]}).
Proof.
  intros Hv. unfold lua_record. cbn [fmap list_fmap from_lua array_like forallb andb fst snd].
  cbn [foldl mbind option_bind is_string fst snd]. rewrite Hv.
  cbn [to_string mbind option_bind]. rewrite lookup_empty. cbn [fmap option_fmap option_map].
  by rewrite insert_empty.
Qed.

Lemma from_lua_array1 n v rv :
  from_lua str_to_number num_to_str n v = Some rv →
  from_lua str_to_number num_to_str (S n) (LTable 1 [(LInt 1, v)]) = Some (VArray [rv]).
Proof.
  intros Hv. cbn [from_lua]. change (array_like 1 _) with true. cbv iota.
  change (Z.succ <$> range 1) with [1%Z]. cbn [mapM mbind option_bind].
  unfold raw_geti. cbn [find fst snd Z.eqb Pos.eqb]. by rewrite Hv.
Qed.

(** A workspace whose name is a string that Lua can read as a number, such
    as ["1"], is rejected: the conversion asks lua_isnumber before lua_isstring,
    turns the string into a number, and the parser then wants a string. *)
Theorem numeric_name_rejected s f :
  str_to_number s = Some f →
  ∃ v, runtime_value_from_lua str_to_number num_to_str
         (LTable 1 [(LInt 1, lua_record [("name", LStr s)])]) = Some v ∧
    parse_workspaces_runtime v = Err "workspaces[1]: 'name' must be a non-empty string".
Proof.
  intros Hs. exists (VArray [VObject {["name" := VNum f]}]). split; [|reflexivity].
  apply (from_lua_array1 32), (from_lua_record1 31), (from_lua_numeric 30), Hs.
Qed.
End Lua.

(** The decimal digits, read as numbers. *)
Definition digit_to_number (s : string) : option double :=
  if String.eqb s "1" then Some (S754_finite false 1 0) else None.

Lemma numeric_name_rejected_witness :
  digit_to_number "1" = Some (S754_finite false 1 0) ∧
  ∃ v, runtime_value_from_lua digit_to_number (λ _, "")
         (LTable 1 [(LInt 1, lua_record [("name", LStr "1")])]) = Some v ∧
    parse_workspaces_runtime v = Err "workspaces[1]: 'name' must be a non-empty string".
Proof. split; [reflexivity|]. by apply (numeric_name_rejected _ _ _ (S754_finite false 1 0)). Defined.
