(* ===== verification/RuntimeStore.v ===== *)
(** * Settings and the transactional store
    ([runtime/runtime_store.hpp], [core/src/runtime_store.cpp], [config/bar_config.hpp])

    A [TypedSetting<T>] holds a value, its default, the snapshot of a running
    transaction and its parser and validator.  The value types the program
    instantiates it at are the constructors of [SettingValue].  The store is a
    [std::map]: a list sorted by key.  Every setting object is registered under
    one key, so the map holds the object itself. *)

From Stdlib Require Import SpecFloat.
From S2P Require Import Prelude Geometry Workspace WorkspaceManager Core ConfigValue ConfigRuntime.
Local Open Scope Z_scope.

(** ** Bar settings ([config/bar_config.hpp]) *)

Inductive BarPosition := BarTop | BarBottom.
Record BarColors := mkBarColors {
  normal_bg : string; normal_fg : string; focused_bg : string; focused_fg : string;
  bar_bg : string; status_fg : string }.
Inductive BarSlotKind := SlotTags | SlotTitle | SlotTray | SlotLua.
(** [widget] is a reference into the Lua registry. *)
Record BarSlot := mkBarSlot {
  slot_kind : BarSlotKind; slot_widget : Z; slot_interval : Z; slot_has_update : bool;
  slot_cached_text : string; slot_ticks : Z }.
Record BarConfig := mkBarConfig {
  bar_font : string; bar_height : Z; bar_colors : BarColors; bar_position : BarPosition;
  bar_left : list BarSlot; bar_center : list BarSlot; bar_right : list BarSlot }.
Definition default_bar : BarConfig :=
  mkBarConfig "" 0 (mkBarColors "" "" "" "" "" "") BarTop [] [] [].
Inductive BarSideState := SideRemove | SideInherit | SideCustom.
Record BarSide := mkBarSide { side_state : BarSideState; side_cfg : BarConfig }.
Definition no_bar : BarSide := mkBarSide SideRemove default_bar.
Record MonitorBarConfig := mkMonitorBar { bar_top : BarSide; bar_bottom : BarSide }.
Record BarSetConfig := mkBarSet {
  bar_default : MonitorBarConfig;
  per_monitor : gmap string MonitorBarConfig }.

Definition resolve_side (override_side default_side : BarSide) : BarSide :=
  match side_state override_side with
  | SideRemove => no_bar
  | SideInherit => default_side
  | SideCustom => override_side
  end.

Definition bar_resolve (b : BarSetConfig) (al : string) : MonitorBarConfig :=
  match per_monitor b !! al with
  | None => bar_default b
  | Some ov => mkMonitorBar (resolve_side (bar_top ov) (bar_top (bar_default b)))
                            (resolve_side (bar_bottom ov) (bar_bottom (bar_default b)))
  end.

(** [MouseBinding] of the key bindings module; callbacks are Lua references. *)
Inductive MouseAction := ActNone | ActMove | ActResize | ActFloat.
Record MouseBinding := mkMouseBinding {
  mb_mods : Z; mb_button : Z; mb_builtin : MouseAction; mb_press : Z; mb_release : Z }.

(** ** [TypedSetting] *)

Inductive SettingValue :=
| SvMonitors (l : list MonitorAlias)
| SvCompose (c : MonitorCompose)
| SvWorkspaces (l : list WorkspaceDef)
| SvTheme (t : ThemeConfig)
| SvBarSet (b : BarSetConfig)
| SvModifier (mask : Z)
| SvMouse (l : list MouseBinding).

Definition ParseFn : Type := RuntimeValue → result SettingValue.
Definition ValidateFn : Type := SettingValue → list string.

Record Setting := mkSetting {
  value : SettingValue;
  default_ : SettingValue;
  snapshot_ : option SettingValue;
  parse_ : option ParseFn;
  validate_ : option ValidateFn;
  type_ : RuntimeValueType }.
#[export] Instance eta_Setting : Eta Setting := λ s,
  mkSetting (value s) (default_ s) (snapshot_ s) (parse_ s) (validate_ s) (type_ s).

Definition new_setting (v : SettingValue) : Setting := mkSetting v v None None None TNull.

Definition set_value (v : SettingValue) (s : Setting) : Setting := s <| value := v |>.
Definition snapshot (s : Setting) : Setting := s <| snapshot_ := Some (value s) |>.
Definition rollback (s : Setting) : Setting :=
  match snapshot_ s with
  | Some v => s <| value := v |> <| snapshot_ := None |>
  | None => s <| snapshot_ := None |>
  end.
Definition commit (s : Setting) : Setting := s <| snapshot_ := None |>.
Definition clear (s : Setting) : Setting := s <| value := default_ s |>.
Definition set_parse (fn : ParseFn) (ty : RuntimeValueType) (s : Setting) : Setting :=
  s <| parse_ := Some fn |> <| type_ := ty |>.
Definition set_validate (fn : ValidateFn) (s : Setting) : Setting := s <| validate_ := Some fn |>.

Definition apply_runtime_value (rv : RuntimeValue) (s : Setting) : result Setting :=
  match parse_ s with
  | None => Err "setting does not support runtime value assignment"
  | Some parse => v <~ parse rv ;; Ok (s <| value := v |>)
  end.
Definition validate (s : Setting) : list string :=
  match validate_ s with None => [] | Some f => f (value s) end.

(** ** The store *)

Definition store : Type := list (string * Setting).

Fixpoint register_setting (key : string) (s : Setting) (st : store) : store :=
  match st with
  | [] => [(key, s)]
  | (k, s') :: st' =>
      match String.compare key k with
      | Lt => (key, s) :: st
      | Eq => (key, s) :: st'
      | Gt => (k, s') :: register_setting key s st'
      end
  end.
Definition find (key : string) (st : store) : option Setting :=
  snd <$> List.find (λ e, String.eqb e.1 key) st.
Definition keys (st : store) : list string := fst <$> st.
Definition on_settings (f : Setting → Setting) (st : store) : store :=
  (λ e, (e.1, f e.2)) <$> st.

Definition snapshot_all : store → store := on_settings snapshot.
Definition rollback_all : store → store := on_settings rollback.
Definition commit_all : store → store := on_settings commit.
Definition clear_all : store → store := on_settings clear.
Definition validate_all (st : store) : list string := flat_map (λ e, validate e.2) st.

(** [TypedSetting<T>::set] of the setting registered under [key]. *)
Definition set_key (key : string) (v : SettingValue) (st : store) : store :=
  (λ e, if String.eqb e.1 key then (e.1, set_value v e.2) else e) <$> st.

Section ApplyLua.
Context (str_to_number : string → option double) (num_to_str : LuaValue → string).

(** The body of the loop; the flag is false when an error was logged. *)
Definition apply_setting (siren : string → LuaValue) (e : string * Setting)
    : option (bool * Setting) :=
  let '(key, s) := e in
  if bool_decide (type_ s = TNull) then Some (true, s)
  else match siren key with
  | LNil | LFunction _ => Some (true, s)
  | v =>
      match runtime_value_from_lua str_to_number num_to_str v with
      | None => Some (false, s)
      | Some rv =>
          match apply_runtime_value rv s with
          | Ok s' => Some (true, s')
          | Err _ => Some (false, s)
          | Undefined => None
          end
      end
  end.

Fixpoint apply_from_lua (siren : string → LuaValue) (st : store) : option (bool * store) :=
  match st with
  | [] => Some (true, [])
  | e :: st' =>
      '(ok, s) ← apply_setting siren e;
      '(oks, st'') ← apply_from_lua siren st';
      Some (ok && oks, (e.1, s) :: st'')
  end.
End ApplyLua.

(** ** The core's settings ([config_runtime::register_core_config]) *)

Definition rmap {A B} (f : A → B) (m : result A) : result B := a <~ m ;; Ok (f a).

Definition core_setting (v : SettingValue) (p : ParseFn) (ty : RuntimeValueType) : Setting :=
  set_parse p ty (new_setting v).

Definition register_core_config (st : store) : store :=
  let st := register_setting "monitors"
    (core_setting (SvMonitors []) (λ v, rmap SvMonitors (parse_monitors_runtime v)) TArray) st in
  let st := register_setting "compose_monitors"
    (core_setting (SvCompose (mkMonitorCompose "" [] false))
       (λ v, rmap SvCompose (parse_compose_runtime v)) TObject) st in
  let st := register_setting "workspaces"
    (core_setting (SvWorkspaces []) (λ v, rmap SvWorkspaces (parse_workspaces_runtime v)) TArray) st in
  register_setting "theme"
    (core_setting (SvTheme default_theme) (λ v, rmap SvTheme (parse_theme_runtime v)) TObject) st.

(** [core_config_.monitors.get()] and the like. *)
Definition get_monitors (st : store) : list MonitorAlias :=
  match value <$> find "monitors" st with Some (SvMonitors l) => l | _ => [] end.
Definition get_compose (st : store) : MonitorCompose :=
  match value <$> find "compose_monitors" st with
  | Some (SvCompose c) => c | _ => mkMonitorCompose "" [] false end.
Definition get_workspaces (st : store) : list WorkspaceDef :=
  match value <$> find "workspaces" st with Some (SvWorkspaces l) => l | _ => [] end.
Definition get_theme (st : store) : ThemeConfig :=
  match value <$> find "theme" st with Some (SvTheme t) => t | _ => default_theme end.
(** [store_.find_typed<BarSetConfig>("bar_set")]. *)
Definition get_bar_set (st : store) : option BarSetConfig :=
  match value <$> find "bar_set" st with Some (SvBarSet b) => Some b | _ => None end.

Definition build_core_settings (st : store) : CoreSettings :=
  mkSettings (get_monitors st) (get_compose st) (get_workspaces st) (get_theme st).

(** ** The map *)

Lemma find_register key s st k :
  find k (register_setting key s st) =
  if String.eqb key k then Some s else find k st.
Proof.
  unfold find. induction st as [|[k' s'] st IH]; cbn.
  { by destruct (String.eqb_spec key k). }
  destruct (String.compare key k') eqn:E; cbn.
  - apply String.compare_eq_iff in E as ->. by destruct (String.eqb_spec k' k).
  - by destruct (String.eqb_spec key k).
  - destruct (String.eqb_spec k' k) as [->|Hk]; [|done].
    destruct (String.eqb_spec key k) as [->|?]; [|done].
    pose proof (String.compare_antisym k k) as Ha. by rewrite E in Ha.
Qed.

Lemma find_on_settings f st k : find k (on_settings f st) = f <$> find k st.
Proof.
  unfold find, on_settings. induction st as [|[k' s'] st IH]; [done|]. cbn.
  by destruct (String.eqb k' k).
Qed.

(** Committing changes no value. *)
Lemma build_commit st : build_core_settings (commit_all st) = build_core_settings st.
Proof.
  assert (H : ∀ k, value <$> find k (commit_all st) = value <$> find k st).
  { intros k. unfold commit_all. rewrite find_on_settings. by destruct (find k st). }
  unfold build_core_settings, get_monitors, get_compose, get_workspaces, get_theme. by rewrite !H.
Qed.

(** ** A transaction *)

(** What a transaction may do to a setting: change its value. *)
Definition value_only (s s' : Setting) : Prop := s' = set_value (value s') s.
Definition written (st st' : store) : Prop :=
  Forall2 (λ e e', e'.1 = e.1 ∧ value_only e.2 e'.2) st st'.

#[export] Instance value_only_preorder : PreOrder value_only.
Proof.
  split; [by intros []|]. unfold value_only, set_value. intros s1 s2 s3 -> E. rewrite E. done.
Qed.
#[export] Instance written_preorder : PreOrder written.
Proof.
  split.
  - intros st. unfold written. induction st; constructor; [|done]. split; [done|]. by destruct a as [k []].
  - intros s1 s2 s3 H. revert s3. unfold written. induction H as [|e e' st st' [Hk Hv] _ IH]; intros s3 H3.
    + inversion H3. constructor.
    + inversion H3 as [|? e'' ? ? [Hk' Hv'] H3']; subst. constructor; [|by apply IH].
      split; [congruence|by etrans].
Qed.

Lemma written_clear st : written st (clear_all st).
Proof. unfold written, clear_all, on_settings. induction st; constructor; done. Qed.
Lemma written_set key v st : written st (set_key key v st).
Proof.
  unfold written, set_key. induction st as [|e st IH]; constructor; [|done].
  destruct (String.eqb e.1 key); [done|]. split; [done|]. by destruct e as [k []].
Qed.
Lemma apply_setting_value sn ns siren k s b s' :
  apply_setting sn ns siren (k, s) = Some (b, s') → value_only s s'.
Proof.
  assert (Hlua : ∀ v, match runtime_value_from_lua sn ns v with
      | None => Some (false, s)
      | Some rv => match apply_runtime_value rv s with
          | Ok s' => Some (true, s') | Err _ => Some (false, s) | Undefined => None end
      end = Some (b, s') → value_only s s').
  { intros v. destruct (runtime_value_from_lua sn ns v) as [rv|]; [|intros [= _ <-]; reflexivity].
    unfold apply_runtime_value. destruct (parse_ s) as [p|]; [|intros [= _ <-]; reflexivity].
    destruct (p rv); cbn; [|intros [= _ <-]; reflexivity|done]. intros [= _ <-]. done. }
  unfold apply_setting. case_bool_decide; [intros [= _ <-]; reflexivity|].
  destruct (siren k); try apply Hlua; intros [= _ <-]; reflexivity.
Qed.
Lemma written_apply sn ns siren st ok st' : apply_from_lua sn ns siren st = Some (ok, st') → written st st'.
Proof.
  revert ok st'. induction st as [|e st IH]; intros ok st'; cbn.
  { intros [= _ <-]. constructor. }
  destruct (apply_setting sn ns siren e) as [[b s]|] eqn:E; cbn; [|done].
  destruct (apply_from_lua sn ns siren st) as [[bs st1]|]; cbn; [|done].
  intros [= _ <-]. constructor; [|by eapply IH]. split; [done|]. cbn.
  destruct e as [k s0]. cbn in *. by eapply apply_setting_value.
Qed.

Lemma rollback_written s s' :
  value_only (snapshot s) s' → rollback s' = commit s.
Proof. intros ->. reflexivity. Qed.

(** What a store keeps out of a transaction: no snapshots. *)
Definition idle (st : store) : Prop := Forall (λ e, snapshot_ e.2 = None) st.

Lemma commit_idle st : idle st → commit_all st = st.
Proof.
  unfold idle, commit_all, on_settings. induction 1 as [|[k s] st Hs _ IH]; [done|].
  cbn in *. rewrite IH. destruct s. cbn in *. by rewrite Hs.
Qed.

Lemma rollback_all_written st st' :
  written (snapshot_all st) st' → rollback_all st' = commit_all st.
Proof.
  intros H. remember (snapshot_all st) as st0 eqn:E. revert st E.
  induction H as [|e e' st1 st1' [Hk Hv] _ IH]; intros [|[k s] st] E; try done.
  injection E as -> ->. cbn in Hk, Hv. cbn. f_equal; [|by apply IH]. rewrite Hk. f_equal.
  by apply rollback_written.
Qed.

(** Whatever a transaction writes after [snapshot_all] (clearing, setting
    values, applying the Lua table), [rollback_all] restores every setting to
    what it was, and [commit_all] keeps what was written. *)
Theorem store_rollback_restores st st' :
  idle st → written (snapshot_all st) st' →
  rollback_all st' = st ∧ idle (commit_all st') ∧
  (λ e, (e.1, value e.2)) <$> commit_all st' = (λ e, (e.1, value e.2)) <$> st'.
Proof.
  intros Hi Hw. split; [by rewrite (rollback_all_written st), commit_idle|]. split.
  - unfold idle, commit_all, on_settings. by apply Forall_fmap, Forall_true.
  - unfold commit_all, on_settings. by rewrite <- list_fmap_compose.
Qed.

Lemma store_rollback_restores_witness :
  let st := register_core_config [] in
  let st' := set_key "workspaces" (SvWorkspaces [mkWorkspaceDef "web" ""]) (clear_all (snapshot_all st)) in
  rollback_all st' = st ∧ idle (commit_all st') ∧
  (λ e, (e.1, value e.2)) <$> commit_all st' = (λ e, (e.1, value e.2)) <$> st'.
Proof.
  intros st st'. apply store_rollback_restores.
  - repeat constructor.
  - etrans; [apply written_clear|apply written_set].
Defined.
