(* ===== verification/Validate.v ===== *)
(** * Validation of the settings ([Runtime::validate_settings], [core/src/runtime/runtime.cpp])

    The cross-checks of a configuration before it is applied: the list of error
    messages, empty when the configuration is accepted.  The check of the
    compose graph is a depth-first walk; like [resolve] it takes fuel, and one
    unit per compose link is enough. *)

From S2P Require Import Prelude Geometry Workspace WorkspaceManager MonitorLayout Core.
From S2P Require Import ConfigValue ConfigRuntime RuntimeStore.
Local Open Scope Z_scope.

(** [if (b) errs.push_back(e)]. *)
Definition err (b : bool) (e : string) : list string := if b then [e] else [].
Arguments err b e%_string_scope.
Definition is_empty (s : string) : bool := String.eqb s "".
Definition mem (k : string) (m : gmap string MonitorComposeLink) : bool :=
  bool_decide (is_Some (m !! k)).

Section Checks.
Context (mons : list MonitorAlias) (comp : MonitorCompose).

Definition has_alias (a : string) : bool := existsb (λ m, String.eqb (alias m) a) mons.

(** ** Monitors *)

Definition check_monitor (acc : list string * gset string * gset string) (m : MonitorAlias)
    : list string * gset string * gset string :=
  let '(errs, aliases_seen, outputs_seen) := acc in
  let errs := errs
    ++ err (is_empty (alias m)) "monitor: 'name' must be non-empty"
    ++ err (is_empty (output m)) ("monitor '" ++ alias m ++ "': 'output' must be non-empty")
    ++ err ((alias_width m <=? 0)%Z || (alias_height m <=? 0)%Z)
         ("monitor '" ++ alias m ++ "': width/height must be > 0")
    ++ err (negb (is_valid_rotation (rotation m)))
         ("monitor '" ++ alias m ++ "': rotation must be one of normal/left/right/inverted")
    ++ err (bool_decide (alias m ∈ aliases_seen)) ("duplicate monitor alias '" ++ alias m ++ "'")
    ++ err (bool_decide (output m ∈ outputs_seen)) ("duplicate output mapping '" ++ output m ++ "'") in
  (errs, {[alias m]} ∪ aliases_seen, {[output m]} ∪ outputs_seen).

Definition check_monitors : list string :=
  match mons with
  | [] => ["no monitors defined — set siren.monitors = {...}"%string]
  | _ => (foldl check_monitor ([], ∅, ∅) mons).1.1
  end.

(** ** The compose graph *)

Definition check_link (acc : list string * gmap string MonitorComposeLink) (l : MonitorComposeLink)
    : list string * gmap string MonitorComposeLink :=
  let '(errs, by_monitor) := acc in
  let m := link_monitor l in
  let dup := mem m by_monitor in
  (errs
   ++ err (is_empty m) "compose_monitors.layout: 'monitor' must be non-empty"
   ++ err (negb (has_alias m)) ("compose_monitors.layout: unknown monitor alias '" ++ m ++ "'")
   ++ err dup ("compose_monitors.layout: duplicate entry for '" ++ m ++ "'")
   ++ err (negb (is_empty (side l)) && negb (valid_side (side l)))
        ("compose_monitors.layout: monitor '" ++ m ++ "' has invalid side '" ++ side l ++ "'"),
   if dup then by_monitor else <[m := l]> by_monitor).

Definition check_links : list string * gmap string MonitorComposeLink :=
  foldl check_link ([], ∅) (layout comp).

(** The state of the walk: the errors and the marks. *)
Record walker := mkWalker { w_errs : list string; w_state : gmap string Z }.
#[export] Instance eta_walker : Eta walker := λ w, mkWalker (w_errs w) (w_state w).

Definition report (b : bool) (e : string) : M walker unit :=
  modify (λ w, w <| w_errs ::= λ l, l ++ err b e |>).
Arguments report b e%_string_scope.
Definition put_mark (n : string) (v : Z) : M walker unit :=
  modify (λ w, w <| w_state ::= <[n := v]> |>).

Context (by_mon : gmap string MonitorComposeLink).

Fixpoint dfs (fuel : nat) (name : string) : M walker unit :=
  match fuel with
  | O => checked (λ _, None)
  | S fuel =>
      st <- gets (λ w, mark (w_state w) name) ;;
      if st =? 2 then ret tt
      else if st =? 1 then report true ("compose_monitors: cycle detected at '" ++ name ++ "'")
      else
        put_mark name 1 ;;
        match by_mon !! name with
        | None =>
            report (negb (String.eqb name (primary comp)))
              ("compose_monitors: missing layout entry for '" ++ name ++ "'") ;;
            put_mark name 2
        | Some link =>
            let rel := relative_to link in
            (if String.eqb name (primary comp) then
               report (negb (is_empty rel))
                 ("compose_monitors: primary monitor '" ++ name ++ "' must not have relative_to") ;;
               report (negb (is_empty (side link)))
                 ("compose_monitors: primary monitor '" ++ name ++ "' must not have side")
             else
               report (is_empty rel)
                 ("compose_monitors: monitor '" ++ name ++ "' must set relative_to") ;;
               report (is_empty (side link))
                 ("compose_monitors: monitor '" ++ name ++ "' must set side")) ;;
            (if negb (is_empty rel) then
               if negb (has_alias rel) then
                 report true ("compose_monitors: monitor '" ++ name ++
                              "' references unknown relative_to '" ++ rel ++ "'")
               else if String.eqb rel name then
                 report true ("compose_monitors: monitor '" ++ name ++ "' cannot reference itself")
               else dfs fuel rel
             else ret tt) ;;
            put_mark name 2
        end
  end.

Definition dfs_all : M walker unit :=
  for_each (enabled_names mons) (dfs (S (S (base.size by_mon)))).

End Checks.

Definition check_compose (mons : list MonitorAlias) (comp : MonitorCompose) : option (list string) :=
  if negb (defined comp)
  then Some ["monitor composition not defined — set siren.compose_monitors = {...}"%string]
  else
    let '(link_errs, by_mon) := check_links mons comp in
    match dfs_all mons comp by_mon (mkWalker [] ∅) with
    | None => None
    | Some (_, w) => Some
        (err (is_empty (primary comp)) "compose_monitors: 'primary' must be set"
         ++ link_errs
         ++ err (negb (is_empty (primary comp)) && negb (has_alias mons (primary comp)))
              ("compose_monitors: primary alias '" ++ primary comp ++ "' not found in siren.monitors")
         ++ flat_map (λ m, err (enabled m && negb (String.eqb (alias m) (primary comp)) &&
                                negb (mem (alias m) by_mon))
              ("compose_monitors.layout: missing entry for enabled monitor '" ++ alias m ++ "'")) mons
         ++ w_errs w)
    end.

(** ** Workspaces and bars *)

Definition check_workspace_refs (mons : list MonitorAlias) (defs : list WorkspaceDef) : list string :=
  flat_map (λ d, err (negb (is_empty (def_monitor d)) && negb (has_alias mons (def_monitor d)))
    ("workspace '" ++ def_name d ++ "': unknown monitor alias '" ++ def_monitor d ++ "'")) defs.

Definition is_nil {A} (l : list A) : bool := match l with [] => true | _ => false end.
Definition has_content (c : BarConfig) : bool :=
  negb (is_nil (bar_left c)) || negb (is_nil (bar_center c)) || negb (is_nil (bar_right c)).

Definition check_side (t : ThemeConfig) (acc : bool * bool) (s : BarSide) : bool * bool :=
  match side_state s with
  | SideCustom =>
      if negb (has_content (side_cfg s)) then acc
      else (true, acc.2 || (is_empty (bar_font (side_cfg s)) && is_empty (font t)))
  | _ => acc
  end.

Definition check_bars (mons : list MonitorAlias) (t : ThemeConfig) (b : BarSetConfig) : list string :=
  let '(any_bar, missing_font) := foldl (λ acc m,
    let c := bar_resolve b (alias m) in check_side t (check_side t acc (bar_top c)) (bar_bottom c))
    (false, false) mons in
  err missing_font "bar: 'font' is required (set in bar.settings.*.font or theme.font)"
  ++ err (any_bar && is_empty (bg t)) "theme: 'bg' is required when bar is configured"
  ++ err (any_bar && is_empty (fg t)) "theme: 'fg' is required when bar is configured"
  ++ err (any_bar && is_empty (alt_bg t)) "theme: 'alt_bg' is required when bar is configured"
  ++ err (any_bar && is_empty (alt_fg t)) "theme: 'alt_fg' is required when bar is configured"
  ++ err (any_bar && is_empty (accent t)) "theme: 'accent' is required when bar is configured".

Definition validate_settings (st : store) : option (list string) :=
  let mons := get_monitors st in
  let defs := get_workspaces st in
  compose_errs ← check_compose mons (get_compose st);
  Some (validate_all st
    ++ err (is_nil defs) "no workspaces defined — set siren.workspaces = {...}"
    ++ check_monitors mons
    ++ compose_errs
    ++ check_workspace_refs mons defs
    ++ match get_bar_set st with Some b => check_bars mons (get_theme st) b | None => [] end).

(** ** What an accepted configuration guarantees *)

Lemma err_nil b e : err b e = [] ↔ b = false.
Proof. by destruct b. Qed.
Lemma app_eq_nil' {A} (l k : list A) : l ++ k = [] ↔ l = [] ∧ k = [].
Proof. split; [apply app_eq_nil|]. by intros [-> ->]. Qed.

Lemma has_alias_known mons a : has_alias mons a = true → is_Some (by_alias mons !! a).
Proof.
  unfold has_alias. intros (m & Hm%list_elem_of_In & <-%String.eqb_eq)%existsb_exists.
  by apply alias_known.
Qed.

Section Links.
Context (mons : list MonitorAlias) (comp : MonitorCompose).

Definition link_checked (l : MonitorComposeLink) : Prop :=
  is_empty (side l) = true ∨ valid_side (side l) = true.

Lemma check_link_fold l e m :
  (foldl (check_link mons) (e, m) l).1 = [] →
  e = [] ∧ (foldl (check_link mons) (e, m) l).2 = foldl (λ m l, <[link_monitor l := l]> m) m l ∧
  Forall link_checked l.
Proof.
  revert e m. induction l as [|a l IH]; intros e m; cbn; [done|].
  intros H. destruct (IH _ _ H) as (He & Hm & Hl).
  rewrite !app_eq_nil', !err_nil in He. destruct He as (-> & _ & _ & Hdup & Hs).
  split; [done|]. rewrite Hdup in Hm |- *. split; [done|]. constructor; [|done].
  unfold link_checked. destruct (is_empty (side a)); [by left|right]. by apply negb_false_iff.
Qed.

Lemma check_links_ok bm :
  check_links mons comp = ([], bm) → bm = by_monitor comp ∧ Forall link_checked (layout comp).
Proof.
  unfold check_links. intros H. destruct (check_link_fold (layout comp) [] ∅) as (_ & Hm & Hl).
  { by rewrite H. }
  rewrite H in Hm. by split.
Qed.

Lemma by_monitor_elem n link : by_monitor comp !! n = Some link → link ∈ layout comp.
Proof.
  unfold by_monitor. assert (H : ∀ l (m : gmap string MonitorComposeLink),
    foldl (λ m l, <[link_monitor l := l]> m) m l !! n = Some link →
    m !! n = Some link ∨ link ∈ l).
  { induction l as [|a l IH]; intros m; cbn; [by left|].
    intros [Hm|Hl]%IH; [|right; by right]. rewrite lookup_insert in Hm. case_decide; [|by left].
    right. simplify_eq. by left. }
  intros [Hm|Hl]%H; [by rewrite lookup_empty in Hm|done].
Qed.
End Links.

(** ** The walk over the links *)

Section Dfs.
Context (mons : list MonitorAlias) (comp : MonitorCompose).
Context (bm : gmap string MonitorComposeLink).

(** What the checks before the walk have established. *)
Record links_good : Prop := {
  lg_map : bm = by_monitor comp;
  lg_links : Forall link_checked (layout comp);
  lg_prim : has_alias mons (primary comp) = true }.

Definition walked (w : walker) : Prop :=
  ∀ m, mark (w_state w) m = 2 → ∃ d, placeable mons comp d m.
Definition marked (w : walker) : Prop := ∀ m, 0 ≤ mark (w_state w) m ≤ 2.

(** The errors only grow; without new ones, the walk ends with [n] done and
    everything done leading to the primary. *)
Record dfs_post (w : walker) (n : string) (w' : walker) : Prop := {
  dp_errs : w_errs w `prefix_of` w_errs w';
  dp_marked : marked w';
  dp_done : ∀ m, mark (w_state w) m = 2 → mark (w_state w') m = 2;
  dp_walked : links_good → w_errs w' = [] → walked w → walked w' ∧ mark (w_state w') n = 2 }.

Lemma prefix_nil' {A} (l k : list A) : l `prefix_of` k → k = [] → l = [].
Proof. intros [k' ->] [? _]%app_eq_nil'. done. Qed.

(** [put_mark n 2] at the end of a visit of [n]. *)
Lemma dfs_finish w w1 n :
  mark (w_state w) n = 0 → w_errs w `prefix_of` w_errs w1 → marked w1 →
  (∀ m, m ≠ n → mark (w_state w) m = 2 → mark (w_state w1) m = 2) →
  (links_good → w_errs w1 = [] → walked w → walked w1 ∧ ∃ d, placeable mons comp d n) →
  wp (put_mark n 2) (λ _, dfs_post w n) w1.
Proof.
  intros H0 He Hm Hd Hw. unfold put_mark. wp_step. split; cbn; [done| |..].
  - intros m. cbn. rewrite mark_insert. case_decide; [lia|apply Hm].
  - intros m H2. rewrite mark_insert. case_decide; [done|]. apply Hd; [congruence|done].
  - intros Hg He1 Hw0. destruct (Hw Hg He1 Hw0) as [Hw1 Hn]. split.
    + intros m. cbn. rewrite mark_insert. case_decide as E; [by subst m|apply Hw1].
    + by rewrite mark_insert, decide_True.
Qed.

Lemma marked_insert w n v : marked w → 0 ≤ v ≤ 2 → marked (w <| w_state ::= <[n := v]> |>).
Proof. intros Hm Hv m. cbn. rewrite mark_insert. case_decide; [done|apply Hm]. Qed.

Lemma walked_visit w n :
  mark (w_state w) n = 0 → walked w → walked (w <| w_state ::= <[n := 1]> |>).
Proof. intros H0 Hw m. cbn. rewrite mark_insert. case_decide; [done|apply Hw]. Qed.

Lemma link_placeable n link d :
  links_good → has_alias mons n = true → n ≠ primary comp → bm !! n = Some link →
  is_empty (relative_to link) = false → is_empty (side link) = false →
  placeable mons comp d (relative_to link) → placeable mons comp (S d) n.
Proof.
  intros [-> Hlinks _] Ha Hn Hl Hr Hs Hd. econstructor; [done|by apply has_alias_known|done| | |done].
  - by apply String.eqb_neq.
  - rewrite Forall_forall in Hlinks. destruct (Hlinks link) as [E|E]; [by eapply by_monitor_elem| |done].
    congruence.
Qed.

Lemma report_link_spec n link w :
  wp (if String.eqb n (primary comp) then
        report (negb (is_empty (relative_to link)))
          ("compose_monitors: primary monitor '" ++ n ++ "' must not have relative_to") ;;
        report (negb (is_empty (side link)))
          ("compose_monitors: primary monitor '" ++ n ++ "' must not have side")
      else
        report (is_empty (relative_to link))
          ("compose_monitors: monitor '" ++ n ++ "' must set relative_to") ;;
        report (is_empty (side link))
          ("compose_monitors: monitor '" ++ n ++ "' must set side"))
     (λ _ w', w_state w' = w_state w ∧ w_errs w `prefix_of` w_errs w' ∧
       (w_errs w' = [] → n = primary comp ∧ is_empty (relative_to link) = true ∨
          n ≠ primary comp ∧ is_empty (relative_to link) = false ∧ is_empty (side link) = false)) w.
Proof.
  destruct (String.eqb_spec n (primary comp)); unfold report; wp_steps; cbn; rewrite <- app_assoc;
    (split_and!; [done|by eexists|]); rewrite !app_eq_nil', !err_nil, ?negb_false_iff.
  - intros (_ & ? & _). by left.
  - intros (_ & ? & ?). by right.
Qed.

Lemma dfs_spec fuel n w :
  marked w → has_alias mons n = true →
  (base.size (unmarked (dom bm) (w_state w)) < fuel)%nat →
  wp (dfs mons comp bm fuel n) (λ _, dfs_post w n) w.
Proof.
  revert n w. induction fuel as [|fuel IH]; intros n w Hm Ha Hfuel; [lia|].
  cbn [dfs]. do 2 wp_step. destruct (Z.eqb_spec (mark (w_state w) n) 2) as [H2|H2].
  { wp_step. by split. }
  destruct (Z.eqb_spec (mark (w_state w) n) 1) as [H1|H1].
  { unfold report. wp_step. split; cbn; [by eexists|done|done|]. intros _ [_ ?]%app_eq_nil'. done. }
  assert (H0 : mark (w_state w) n = 0) by (specialize (Hm n); lia). clear H1 H2.
  unfold put_mark at 1. do 2 wp_step. set (w1 := w <| w_state ::= <[n := 1]> |>).
  assert (Hm1 : marked w1) by (by apply marked_insert).
  assert (Hd1 : ∀ m, m ≠ n → mark (w_state w) m = 2 → mark (w_state w1) m = 2).
  { intros m Hne ?. cbn. by rewrite mark_insert, decide_False by congruence. }
  assert (Hw1 : walked w → walked w1) by (by apply walked_visit).
  destruct (bm !! n) as [link|] eqn:Hl; cycle 1.
  { unfold report. do 2 wp_step. apply dfs_finish; [done|by eexists|done|done|]. cbn.
    intros [_ _ Hprim] [_ Hp%err_nil%negb_false_iff%String.eqb_eq]%app_eq_nil' Hw.
    split; [by apply Hw1|]. exists 0%nat. rewrite Hp. by apply pl_primary, has_alias_known. }
  wp_step. eapply wp_mono; [apply report_link_spec|]. cbv beta. intros [] w2 (Hs2 & He2 & Hr2).
  assert (Hend : (links_good → w_errs w2 = [] → walked w → ∃ d, placeable mons comp d n) →
    wp (put_mark n 2) (λ _, dfs_post w n) w2).
  { intros Hpl. apply dfs_finish; rewrite ?Hs2; [done|done| |done|].
    - intros m. rewrite ?Hs2. apply Hm1.
    - intros Hg E Hw. split; [|by apply Hpl]. intros m. rewrite Hs2. by apply Hw1. }
  assert (Hbad : ∀ e, wp (report true e ;; put_mark n 2) (λ _, dfs_post w n) w2).
  { intros e. unfold report. do 2 wp_step. apply dfs_finish; cbn; rewrite ?Hs2; [done| | |done|].
    - etrans; [exact He2|by eexists].
    - intros m. cbn. rewrite ?Hs2. apply Hm1.
    - intros _ [_ ?]%app_eq_nil'. done. }
  destruct (is_empty (relative_to link)) eqn:Hrel; cbn [negb].
  { do 2 wp_step. apply Hend. intros [_ _ Hprim] E _. destruct (Hr2 E) as [[-> _]|(_ & ? & _)]; [|done].
    exists 0%nat. by apply pl_primary, has_alias_known. }
  destruct (has_alias mons (relative_to link)) eqn:Hra; cbn [negb]; [|wp_step; apply Hbad].
  destruct (String.eqb (relative_to link) n) eqn:Hself; [wp_step; apply Hbad|].
  wp_step. eapply wp_mono; [apply IH; [intros m; rewrite Hs2; apply Hm1|done|]|].
  { rewrite Hs2. eapply Nat.lt_le_trans; [apply unmarked_shrinks; [by apply elem_of_dom|done|done]|lia]. }
  cbv beta. intros [] w3 [He3 Hm3 Hd3 Hw3]. rewrite Hs2 in Hd3.
  apply dfs_finish; [done|by etrans|done| |].
  - intros m Hne H2. apply Hd3, Hd1; done.
  - intros Hg E Hw. pose proof (prefix_nil' _ _ He3 E) as E2.
    assert (Hw2 : walked w2) by (intros m; rewrite Hs2; by apply Hw1).
    destruct (Hw3 Hg E Hw2) as [Hw3' Hmr]. split; [done|].
    destruct (Hr2 E2) as [[_ ?]|(Hnp & _ & Hside)]; [congruence|].
    destruct (Hw3' _ Hmr) as [d Hd]. exists (S d). by eapply link_placeable.
Qed.

Lemma dfs_all_spec :
  wp (dfs_all mons comp bm) (λ _ w, links_good → w_errs w = [] →
    ∀ n, n ∈ enabled_names mons → ∃ d, placeable mons comp d n) (mkWalker [] ∅).
Proof.
  unfold dfs_all. eapply wp_mono; [apply (wp_for_each_prefix _ _ (λ pre w, marked w ∧
    (links_good → w_errs w = [] → walked w ∧ ∀ n, n ∈ pre → mark (w_state w) n = 2)))|].
  - intros pre n post w Heq [Hm Hpre]. eapply wp_mono; [apply dfs_spec; [done| |]|].
    + assert (Hn : n ∈ enabled_names mons) by (rewrite Heq; apply elem_of_app; right; left).
      unfold enabled_names in Hn. apply list_elem_of_fmap in Hn as (a & -> & [_ Hin]%list_elem_of_filter).
      unfold has_alias. apply existsb_exists. exists a. split; [by apply list_elem_of_In|].
      by apply String.eqb_eq.
    + apply Nat.lt_succ_r. rewrite <- size_dom.
      etrans; [apply subseteq_size|apply Nat.le_succ_diag_r].
      intros m Hm'. by apply elem_of_unmarked in Hm' as [_ ?].
    + cbv beta. intros [] w' [He Hm' Hd Hw]. split; [done|]. intros Hg E.
      destruct (Hpre Hg (prefix_nil' _ _ He E)) as [Hw0 Hp]. destruct (Hw Hg E Hw0) as [Hw' Hn]. split; [done|].
      intros m [?| ->%list_elem_of_singleton]%elem_of_app; [by apply Hd, Hp|done].
  - split; [done|]. intros _ _. split; [done|]. intros n Hn. by apply elem_of_nil in Hn.
  - cbv beta. intros [] w [_ H] Hg E n Hn. destruct (H Hg E) as [Hw Hp]. by apply Hw, Hp.
Qed.
End Dfs.

Lemma check_compose_total mons comp : is_Some (check_compose mons comp).
Proof.
  unfold check_compose. destruct (negb (defined comp)); [by eexists|].
  destruct (check_links mons comp) as [le bm].
  pose proof (dfs_all_spec mons comp bm) as H. apply wp_some in H as ([] & w & -> & _). by eexists.
Qed.

Lemma check_compose_ok mons comp n :
  check_compose mons comp = Some [] → n ∈ enabled_names mons → ∃ d, placeable mons comp d n.
Proof.
  unfold check_compose. destruct (negb (defined comp)); [done|].
  destruct (check_links mons comp) as [le bm] eqn:El.
  pose proof (dfs_all_spec mons comp bm) as H. apply wp_some in H as ([] & w & -> & Hw).
  intros [= Herrs]. rewrite !app_eq_nil', !err_nil in Herrs.
  destruct Herrs as (Hp & -> & Ha & _ & He). rewrite Hp in Ha. cbn in Ha.
  apply check_links_ok in El as [-> Hl]. apply Hw; [|done]. constructor; [done|done|].
  by apply negb_false_iff.
Qed.

(** ** The claims *)

Lemma validate_nil st :
  validate_settings st = Some [] →
  get_workspaces st ≠ [] ∧ get_monitors st ≠ [] ∧
  check_compose (get_monitors st) (get_compose st) = Some [].
Proof.
  unfold validate_settings.
  destruct (check_compose (get_monitors st) (get_compose st)) as [ce|] eqn:E; [|done]. cbn.
  intros [= H]. rewrite !app_eq_nil', err_nil in H. destruct H as (_ & Hd & Hm & -> & _).
  split_and!; [by destruct (get_workspaces st)|by destruct (get_monitors st)|done].
Qed.


Definition ex_store : store :=
  set_key "monitors" (SvMonitors [mkMonitorAlias "main" "eDP-1" 1920 1080 60 "normal" true;
                                  mkMonitorAlias "side" "HDMI-1" 1080 1920 60 "left" true])
  (set_key "compose_monitors"
     (SvCompose (mkMonitorCompose "main" [mkMonitorComposeLink "side" "main" "left" (-100)] true))
  (set_key "workspaces" (SvWorkspaces [mkWorkspaceDef "web" "main"]) (register_core_config []))).


Lemma validate_total st : ∃ errs, validate_settings st = Some errs.
Proof.
  unfold validate_settings.
  destruct (check_compose_total (get_monitors st) (get_compose st)) as [ce ->]. by eexists.
Qed.

(** C32: [validate_settings] terminates on every configuration, cyclic compose
    graphs included. *)
Theorem validate_terminates st : ∃ errs, validate_settings st = Some errs.
Proof. apply validate_total. Qed.

Definition case_store : store :=
  set_key "monitors" (SvMonitors [mkMonitorAlias "main" "eDP-1" 1920 1080 60 "Left" true;
                                  mkMonitorAlias "side" "HDMI-1" 1280 1024 60 "normal" true])
  (set_key "compose_monitors"
     (SvCompose (mkMonitorCompose "main" [mkMonitorComposeLink "side" "main" "right" 0] true))
  (set_key "workspaces" (SvWorkspaces [mkWorkspaceDef "web" "main"]) (register_core_config []))).

(** The case of a rotation is not significant when it is validated but it is
    when monitors are composed: with ["Left"] a configuration is accepted, and
    its neighbour is placed as if the monitor were not rotated (at 1920, the
    width of the mode, where ["left"] gives 1080). *)
Theorem rotation_case_ignored :
  validate_settings case_store = Some [] ∧
  map ol_pos <$> build (get_monitors case_store) (get_compose case_store) =
    Some [mkVec2 0 0; mkVec2 1920 0].
Proof. split; by vm_compute. Qed.
