(* ===== verification/Dispatch.v ===== *)
(** * The reducer: [Core::dispatch] ([core/core_dispatch.cpp])

    One definition per command, and the two visitors [dispatch_atom] and
    [dispatch_composite]. *)

From S2P Require Import Prelude Geometry Float32 Layout Workspace WorkspaceManager Events Commands.
From S2P Require Import Core.
Local Open Scope Z_scope.

(** [auto w = wsman.find_window_in_all(win); if (!w) return false; …]. *)
Definition with_window (win : Z) (k : addr → M core bool) : M core bool :=
  o <- find_win win ;;
  match o with
  | None => ret false
  | Some p => k p
  end.

(** A command that only assigns to fields of the window. *)
Definition assign_window (win : Z) (f : Window → Window) : M core bool :=
  with_window win (λ p, set_window p f ;; ret true).

(** [wsman.current().focused()]. *)
Definition current_focused : M core (option addr) :=
  gets (λ c, ws_focused (wins (wsman c)) (current_ws (wsman c))).

(** ** Focus and workspaces *)

Definition dispatch_FocusWindow (window : Z) : M core bool :=
  o <- find_win window ;;
  match o with
  | None => ret false
  | Some _ => focus window ;; ret true
  end.

Definition dispatch_SwitchWorkspace (workspace_id : Z) (monitor_index : option Z) : M core bool :=
  target <- gets (λ c, match monitor_index with
                       | Some m => m
                       | None => monitor_of (wsman c) workspace_id end) ;;
  target <- gets (λ c, if target <? 0 then focused_monitor (wsman c) else target) ;;
  st <- gets settings ;;
  switched <- on_wsman (switch_to workspace_id (monitor_aliases st)
                          (default NO_MONITOR monitor_index) (monitor_compose st)) ;;
  if negb switched then ret false
  else
    sync_workspace_visibility ;;
    arrange ;;
    fm <- gets (λ c, focused_monitor (wsman c)) ;;
    (if target =? fm then focus NO_WINDOW else ret tt) ;;
    evaluate_workspace_fullscreen workspace_id ;;
    post (WorkspaceSwitched workspace_id) ;;
    ret true.

Definition dispatch_MoveWindowToWorkspace (window workspace_id : Z) : M core bool :=
  n <- gets workspace_count ;;
  if (workspace_id <? 0) || (n <=? workspace_id) then ret false
  else with_window window (λ p,
    src_ws_id <- gets (λ c, workspace_of_window (wsman c) window) ;;
    w <- deref p ;;
    let is_fs := covering w in
    on_wsman (move_window_to workspace_id p) ;;
    post (WindowAssignedToWorkspace window workspace_id) ;;
    sync_workspace_visibility ;;
    arrange ;;
    (if is_fs then
       pin_fullscreen_to_monitor p workspace_id ;;
       evaluate_workspace_fullscreen src_ws_id ;;
       evaluate_workspace_fullscreen workspace_id
     else ret tt) ;;
    moved_ws_visible <- gets (λ c, is_workspace_visible c workspace_id) ;;
    w <- deref p ;;
    focus (if moved_ws_visible && is_visible w && negb (suppress_focus_once w)
           then id w else NO_WINDOW) ;;
    ret true).

Definition dispatch_MoveFocusedWindowToWorkspace (workspace_id : Z) : M core bool :=
  o <- current_focused ;;
  match o with
  | None => ret false
  | Some p => w <- deref p ;; dispatch_MoveWindowToWorkspace (id w) workspace_id
  end.

(** ** Mapping *)

Definition dispatch_MapWindow (window : Z) : M core bool :=
  with_window window (λ p,
    w <- deref p ;;
    (if negb (mapped w) then
       set_window p (λ w, w <| mapped := true |>) ;;
       w <- deref p ;;
       if is_visible w then emit_backend_effect EffMapWindow (id w) else ret tt
     else ret tt) ;;
    ret true).

Definition dispatch_UnmapWindow (window : Z) : M core bool :=
  with_window window (λ p,
    w <- deref p ;;
    (if mapped w then
       set_window p (λ w, w <| mapped := false |>) ;;
       emit_backend_effect EffUnmapWindow (id w)
     else ret tt) ;;
    ret true).

Definition dispatch_HideWindow (window : Z) : M core bool :=
  with_window window (λ p,
    w <- deref p ;;
    set_window p (λ w, w <| hidden_explicitly := true |>) ;;
    (if is_visible w then emit_backend_effect EffUnmapWindow (id w) else ret tt) ;;
    ret true).

(** ** Fullscreen *)

(** The monitor a fullscreen window is pinned to: the one that shows its
    workspace, else the workspace's owner, else the first. *)
Definition fullscreen_monitor (s : wm) (ws_id : Z) : option Monitor :=
  match find (λ m, mon_active_ws m =? ws_id) (monitors s) with
  | Some m => Some m
  | None =>
      let owner := monitor_of s ws_id in
      if (0 <=? owner) && (owner <? vsize (monitors s)) then vget (monitors s) owner
      else head (monitors s)
  end.

Definition enable_fullscreen (window : Z) (preserve_geometry : bool) (p : addr)
    (ws_id : Z) (mon : option Monitor) : M core bool :=
  set_window p (λ w,
    if negb (fullscreen w) then
      w <| border_before_fullscreen := border_width w |>
        <| pos_before_fullscreen := pos w |>
        <| size_before_fullscreen := size w |>
    else w) ;;
  set_window p (λ w, w <| fullscreen := true |> <| border_width := 0 |>) ;;
  mark_window_dirty window FlushBorderWidth ;;
  (match mon with
   | Some m =>
       if negb preserve_geometry then
         let '(phy_pos, phy_size) := physical m in
         set_window p (λ w, w <| pos := phy_pos |> <| size := phy_size |>) ;;
         mark_window_dirty window FlushGeometry
       else ret tt
   | None => ret tt
   end) ;;
  arrange ;;
  post RaiseDocks ;;
  vis <- gets (λ c, is_workspace_visible c ws_id) ;;
  w <- deref p ;;
  (if (0 <=? ws_id) && vis && is_visible w then focus window
   else if 0 <=? ws_id then evaluate_workspace_fullscreen ws_id
   else ret tt) ;;
  ret true.

Definition disable_fullscreen (window : Z) (p : addr) (ws_id : Z) : M core bool :=
  w <- deref p ;;
  if negb (fullscreen w) then ret true
  else
    set_window p (λ w, w <| fullscreen := false |>
                         <| border_width := border_before_fullscreen w |>) ;;
    mark_window_dirty window FlushBorderWidth ;;
    (if floating w then
       set_window p (λ w, w <| pos := pos_before_fullscreen w |>
                            <| size := size_before_fullscreen w |>) ;;
       mark_window_dirty window FlushGeometry
     else ret tt) ;;
    arrange ;;
    (if 0 <=? ws_id then evaluate_workspace_fullscreen ws_id else ret tt) ;;
    post RaiseDocks ;;
    ret true.

Definition dispatch_SetWindowFullscreen (window : Z) (enabled preserve_geometry : bool)
    : M core bool :=
  with_window window (λ p,
    ws_id <- gets (λ c, workspace_of_window (wsman c) window) ;;
    mon <- gets (λ c, fullscreen_monitor (wsman c) ws_id) ;;
    if enabled then enable_fullscreen window preserve_geometry p ws_id mon
    else disable_fullscreen window p ws_id).

Definition dispatch_SetWindowBorderless (window : Z) (b : bool) : M core bool :=
  with_window window (λ p,
    set_window p (λ w, w <| borderless := b |> <| promote_to_borderless := false |>) ;;
    w <- deref p ;;
    (if b && negb (border_width w =? 0) && negb (is_self_managed w) then
       set_window p (λ w, w <| border_width := 0 |>) ;;
       emit_backend_effect EffUpdateWindow (id w)
     else ret tt) ;;
    ws_id <- gets (λ c, workspace_of_window (wsman c) window) ;;
    (if 0 <=? ws_id then evaluate_workspace_fullscreen ws_id else ret tt) ;;
    ret true).

Definition evaluate_fullscreen_like_request (c : core) (win : Z) (requested : Vec2)
    (has_size : bool) : FullscreenLikeDecision :=
  let out := mkDecision false (mkVec2 0 0) (mkVec2 0 0) in
  if negb has_size then out
  else match find_window_in_all (wsman c) win ≫= λ p, wins (wsman c) !! p with
  | None => out
  | Some w =>
      if floating w || borderless w || preserve_position w then out
      else if negb (size_locked w) then out
      else
        let mon_idx := monitor_of (wsman c) (workspace_of_window (wsman c) win) in
        match vget (monitors (wsman c)) mon_idx with
        | None => out
        | Some mon =>
            let usable_h := y (mon_size mon) - Z.max 0 (top_inset mon)
                            - Z.max 0 (bottom_inset mon) in
            if (x (mon_size mon) <=? x requested) && (usable_h <=? y requested)
            then mkDecision true (mon_pos mon) (mon_size mon)
            else out
        end
  end.

(** ** Windows *)

Definition dispatch_EnsureWindow (window workspace_id : Z) : M core bool :=
  if window =? NO_WINDOW then ret false
  else
    o <- find_win window ;;
    match o with
    | None => on_wsman (create_window window workspace_id) ;; ret true
    | Some p =>
        n <- gets workspace_count ;;
        (if (0 <=? workspace_id) && (workspace_id <? n)
         then on_wsman (move_window_to workspace_id p) else ret tt) ;;
        ret true
    end.

Definition dispatch_AssignWindowWorkspace (window workspace_id : Z) : M core bool :=
  with_window window (λ p,
    on_wsman (move_window_to workspace_id p) ;;
    post (WindowAssignedToWorkspace window workspace_id) ;;
    ret true).

Definition dispatch_SetWindowMapped (window : Z) (b : bool) : M core bool :=
  assign_window window (λ w, w <| mapped := b |>).
Definition dispatch_SetWindowHiddenByWorkspace (window : Z) (b : bool) : M core bool :=
  assign_window window (λ w, w <| hidden_by_workspace := b |>).
Definition dispatch_SetWindowSuppressFocusOnce (window : Z) (b : bool) : M core bool :=
  assign_window window (λ w, w <| suppress_focus_once := b |>).
Definition dispatch_SetWindowFloating (window : Z) (b : bool) : M core bool :=
  assign_window window (λ w, w <| floating := b |>).
Definition dispatch_ToggleWindowFloating (window : Z) : M core bool :=
  assign_window window (λ w, w <| floating ::= negb |>).

(** The classification from the geometry hints. *)
Definition md_self_managed (h : WindowHints) : bool :=
  pre_fullscreen h && negb (is_xembed h) && covers_monitor h.
Definition md_wm_borderless (h : WindowHints) : bool :=
  negb (md_self_managed h) && covers_monitor h && fixed_size h.
Definition md_borderless (h : WindowHints) : bool := md_self_managed h || md_wm_borderless h.

Definition apply_metadata (md : WindowMetadata) (w : Window) : Window :=
  let h := md_hints md in
  w <| wm_instance := md_wm_instance md |> <| wm_class := md_wm_class md |>
    <| title := md_title md |> <| pid := md_pid md |> <| type := md_type md |>
    <| size_locked := fixed_size h |> <| no_input_focus := never_focus h |>
    <| urgent := hint_urgent h |> <| preserve_position := static_gravity h |>
    <| size_min := hint_size_min h |> <| size_max := hint_size_max h |>
    <| size_inc := hint_size_inc h |> <| size_base := hint_size_base h |>
    <| self_managed := md_self_managed h |> <| promote_to_borderless := md_borderless h |>.

Definition dispatch_SetWindowMetadata (md : WindowMetadata) : M core bool :=
  with_window (md_window md) (λ p,
    set_window p (apply_metadata md) ;;
    let transient := negb (md_transient_for md =? NO_WINDOW) in
    (if transient then
       parent_ws <- gets (λ c, workspace_of_window (wsman c) (md_transient_for md)) ;;
       (if 0 <=? parent_ws then
          dispatch_SetWindowSuppressFocusOnce (md_window md) true ;;
          dispatch_AssignWindowWorkspace (md_window md) parent_ws ;; ret tt
        else ret tt) ;;
       w <- deref p ;;
       (if negb (floating w) then dispatch_SetWindowFloating (md_window md) true ;; ret tt
        else ret tt)
     else ret tt) ;;
    w <- deref p ;;
    (if negb (floating w) &&
        (is_dialog w || bool_decide (type w = Utility) || bool_decide (type w = Splash) || transient)
     then dispatch_SetWindowFloating (md_window md) true ;; ret tt else ret tt) ;;
    w <- deref p ;;
    (if negb (floating w) && negb (borderless w) && size_locked w &&
        negb (md_borderless (md_hints md))
     then dispatch_SetWindowFloating (md_window md) true ;; ret tt else ret tt) ;;
    ret true).

Definition dispatch_RemoveWindowFromAllWorkspaces (window : Z) : M core bool :=
  ws_id <- gets (λ c, workspace_of_window (wsman c) window) ;;
  on_wsman (remove_window_from_all window) ;;
  modify (λ c, c <| pending_window_flushes ::= delete window |>) ;;
  (if 0 <=? ws_id then evaluate_workspace_fullscreen ws_id else ret tt) ;;
  ret true.

Definition dispatch_CloseWindow (window : Z) : M core bool :=
  with_window window (λ _, emit_backend_effect EffCloseWindow window ;; ret true).

Definition consume_window_suppress_focus_once (win : Z) : M core bool :=
  with_window win (λ p,
    w <- deref p ;;
    set_window p (λ w, w <| suppress_focus_once := false |>) ;;
    ret (suppress_focus_once w)).

Definition update_window (win : Z) : M core unit :=
  o <- find_win win ;;
  match o with
  | None => ret tt
  | Some p => w <- deref p ;; emit_backend_effect EffUpdateWindow (id w)
  end.

(** ** Cursor and monitors *)

Definition focus_stepped (step : M wm (option addr)) : M core bool :=
  o <- on_wsman step ;;
  target <- gets (λ c, match o with
    | Some p => if holds (wins (wsman c)) is_visible p then win_id (wins (wsman c)) (Some p)
                else NO_WINDOW
    | None => NO_WINDOW
    end) ;;
  focus target ;;
  ret true.
Definition dispatch_FocusNextWindow : M core bool := focus_stepped focus_next.
Definition dispatch_FocusPrevWindow : M core bool := focus_stepped focus_prev.

Definition dispatch_FocusMonitor (n : Z) : M core bool :=
  o <- gets (λ c, monitor_state c n) ;;
  match o with
  | None => ret false
  | Some mon =>
      if mon_active_ws mon <? 0 then ret false
      else
        fm <- gets (λ c, focused_monitor (wsman c)) ;;
        (if negb (n =? fm) then
           on_wsman (modify (λ s, set_focused_monitor s n)) ;;
           focus NO_WINDOW
         else ret tt) ;;
        (* the focus change leaves the rectangle of the monitor alone *)
        emit_warp_pointer (vec_to_i16 (mon_center mon)) ;;
        ret true
  end.

Definition dispatch_MoveWindowToMonitor (window n : Z) : M core bool :=
  o <- gets (λ c, monitor_state c n) ;;
  match o with
  | None => ret false
  | Some mon =>
      if mon_active_ws mon <? 0 then ret false
      else if window =? NO_WINDOW then
        o <- current_focused ;;
        match o with
        | None => ret false
        | Some p => w <- deref p ;; dispatch_MoveWindowToWorkspace (id w) (mon_active_ws mon)
        end
      else dispatch_MoveWindowToWorkspace window (mon_active_ws mon)
  end.

Definition dispatch_ToggleFocusedWindowFloating : M core bool :=
  o <- current_focused ;;
  match o with
  | None => ret false
  | Some p => w <- deref p ;; dispatch_ToggleWindowFloating (id w) ;; arrange ;; ret true
  end.

Definition dispatch_SwitchWorkspaceLocalIndex (local_index : Z) : M core bool :=
  mon <- gets (λ c, focused_monitor (wsman c)) ;;
  ok <- on_wsman (switch_local_index mon local_index) ;;
  if negb ok then ret false
  else
    ws_id <- gets (λ c, active_ws_of_monitor (wsman c) mon) ;;
    reconcile ;;
    (if 0 <=? ws_id then post (WorkspaceSwitched ws_id) else ret tt) ;;
    ret true.

Definition dispatch_ApplyMonitorTopology (mons : list Monitor) : M core bool :=
  on_wsman (modify (set_monitors mons)) ;;
  st <- gets settings ;;
  on_wsman (modify (assign_workspaces (monitor_aliases st) (monitor_compose st))) ;;
  reconcile ;;
  ret true.

(** The lambda [apply_to] of [ReserveMonitorArea]. *)
Definition reserve_on (edge : MonitorEdge) (px : Z) (i : Z) : M core unit :=
  m <- checked (λ c, vget (monitors (wsman c)) i) ;;
  let delta := px - inset m edge in
  if negb (delta =? 0) then on_wsman (modify (adjust_monitor_inset i edge delta)) else ret tt.

Definition dispatch_ReserveMonitorArea (mon : Z) (edge : MonitorEdge) (px : Z) : M core bool :=
  n <- gets (λ c, vsize (monitors (wsman c))) ;;
  (if mon <? 0 then for_each (range n) (reserve_on edge px)
   else if mon <? n then reserve_on edge px mon
   else ret tt) ;;
  ret true.

(** ** Layout *)

Definition dispatch_SetLayout (name : string) : M core bool :=
  known <- gets (λ c, bool_decide (is_Some (layouts c !! name))) ;;
  if negb known then ret false
  else modify (λ c, c <| active_layout := name |>) ;; arrange ;; ret true.

Definition set_master_factor (f : float → float) : M core bool :=
  modify (λ c, c <| layout_cfg ::= λ l,
    l <| master_factor ::= λ v, f32_clamp (f v) f32_0_1 f32_0_9 |> |>) ;;
  arrange ;; ret true.
Definition dispatch_SetMasterFactor (value : float) : M core bool :=
  set_master_factor (λ _, value).
Definition dispatch_AdjustMasterFactor (delta : float) : M core bool :=
  set_master_factor (λ v, f32_add v delta).

Definition dispatch_IncMaster (delta : Z) : M core bool :=
  modify (λ c, c <| layout_cfg ::= λ l, l <| nmaster ::= λ n, Z.max 1 (n + delta) |> |>) ;;
  arrange ;; ret true.

Definition dispatch_Zoom : M core bool :=
  ok <- on_wsman zoom_focused ;;
  if negb ok then ret false else arrange ;; ret true.

Definition dispatch_ReconcileNow : M core bool := arrange ;; ret true.

(** ** The visitors *)

Definition dispatch_atom (cmd : CommandAtom) : M core bool :=
  match cmd with
  | FocusWindow w => dispatch_FocusWindow w
  | SwitchWorkspace ws mon => dispatch_SwitchWorkspace ws mon
  | MoveWindowToWorkspace w ws => dispatch_MoveWindowToWorkspace w ws
  | MapWindow w => dispatch_MapWindow w
  | UnmapWindow w => dispatch_UnmapWindow w
  | SetWindowFullscreen w e g => dispatch_SetWindowFullscreen w e g
  | EnsureWindow w ws => dispatch_EnsureWindow w ws
  | AssignWindowWorkspace w ws => dispatch_AssignWindowWorkspace w ws
  | SetWindowMetadata md => dispatch_SetWindowMetadata md
  | SetWindowMapped w b => dispatch_SetWindowMapped w b
  | SetWindowHiddenByWorkspace w b => dispatch_SetWindowHiddenByWorkspace w b
  | SetWindowSuppressFocusOnce w b => dispatch_SetWindowSuppressFocusOnce w b
  | SetWindowFloating w b => dispatch_SetWindowFloating w b
  | SetWindowBorderless w b => dispatch_SetWindowBorderless w b
  | HideWindow w => dispatch_HideWindow w
  | ApplyMonitorTopology mons => dispatch_ApplyMonitorTopology mons
  | ReserveMonitorArea mon e px => dispatch_ReserveMonitorArea mon e px
  | SetLayout name => dispatch_SetLayout name
  | SetMasterFactor v => dispatch_SetMasterFactor v
  | FocusMonitor n => dispatch_FocusMonitor n
  | MoveWindowToMonitor w n => dispatch_MoveWindowToMonitor w n
  | ReconcileNow => dispatch_ReconcileNow
  | RemoveWindowFromAllWorkspaces w => dispatch_RemoveWindowFromAllWorkspaces w
  | SetWindowGeometry w p s => dispatch_SetWindowGeometry w p s
  | SetWindowPosition w p => dispatch_SetWindowPosition w p
  | SetWindowSize w s => dispatch_SetWindowSize w s
  | SetWindowBorderWidth w b => dispatch_SetWindowBorderWidth w b
  | SyncWindowFromConfigureNotify w p s b => dispatch_SyncWindowFromConfigureNotify w p s b
  | CloseWindow w => dispatch_CloseWindow w
  end.

Definition dispatch_composite (cmd : CommandComposite) : M core bool :=
  match cmd with
  | ToggleWindowFloating w => dispatch_ToggleWindowFloating w
  | MoveFocusedWindowToWorkspace ws => dispatch_MoveFocusedWindowToWorkspace ws
  | FocusNextWindow => dispatch_FocusNextWindow
  | FocusPrevWindow => dispatch_FocusPrevWindow
  | ToggleFocusedWindowFloating => dispatch_ToggleFocusedWindowFloating
  | SwitchWorkspaceLocalIndex i => dispatch_SwitchWorkspaceLocalIndex i
  | AdjustMasterFactor d => dispatch_AdjustMasterFactor d
  | IncMaster d => dispatch_IncMaster d
  | Zoom => dispatch_Zoom
  end.

(** ** Settings, reload and wiring *)

Definition apply_settings (next : CoreSettings) : M core unit :=
  modify (λ c, c <| settings := next |>) ;;
  on_wsman (update_workspace_defs (workspace_defs next)) ;;
  started <- gets runtime_started ;;
  if started
  then on_wsman (modify (assign_workspaces (monitor_aliases next) (monitor_compose next)))
  else ret tt.

Definition snapshot_reload_state (c : core) : CoreReloadState :=
  mkReloadState (settings c) (keybindings c) (layout_cfg c) (active_layout c).

Definition restore_reload_state (s : CoreReloadState) (c : core) : core :=
  c <| settings := rs_settings s |> <| keybindings := rs_keybindings s |>
    <| layout_cfg := rs_layout_cfg s |> <| active_layout := rs_active_layout s |>.

Definition clear_reloadable_runtime_state (c : core) : core :=
  c <| keybindings := [] |> <| lua_layouts := ∅ |>.

Definition register_layout (name : string) (fn : LayoutFn) (c : core) : core :=
  c <| layouts ::= <[name := fn]> |>.
Definition register_lua_layout (name : string) (fn : LayoutFn) (c : core) : core :=
  c <| lua_layouts ::= <[name := fn]> |>.
Definition register_keybinding (mods keysym handler : Z) (c : core) : core :=
  c <| keybindings ::= λ l, l ++ [mkKeybinding mods keysym handler] |>.
Definition set_window_factory (f : option (Z → option Window)) (c : core) : core :=
  c <| wsman ::= λ s, s <| window_factory := f |> |>.
Definition bind_lua_host (c : core) : core := c <| lua_bound := true |>.
Definition mark_runtime_started (b : bool) (c : core) : core := c <| runtime_started := b |>.
Definition set_event_sink (sink : option (list Event)) (c : core) : core :=
  c <| event_sink := sink |>.
