(* ===== verification/Runtime.v ===== *)
(** * The runtime: data, modules, events, hooks

    [runtime/runtime.hpp], [runtime/runtime_state.hpp], [runtime/event_loop.hpp]
    and the parts of [runtime/runtime.cpp] other components call.  What is not
    the runtime itself (the backend, the modules, the Lua VM, the kernel) is the
    interface [Env]: operations on the runtime, because every one of them gets a
    reference to it. *)

From S2P Require Import Prelude Geometry Workspace WorkspaceManager MonitorLayout Events Commands Core.
From S2P Require Import ConfigValue ConfigRuntime RuntimeStore Dispatch EventQueue.
Local Open Scope Z_scope.

(** ** Lifecycle states *)

Inductive RuntimeState := Idle | Configured | Starting | Running | Stopping | Stopped.
#[export] Instance RuntimeState_eq_dec : EqDecision RuntimeState.
Proof. solve_decision. Defined.

Definition runtime_state_index (s : RuntimeState) : nat :=
  match s with
  | Idle => 0 | Configured => 1 | Starting => 2 | Running => 3 | Stopping => 4 | Stopped => 5
  end.
Definition runtime_transition_table : list (list bool) :=
  [[false; true; false; false; false; false];
   [false; false; true; false; false; false];
   [false; false; false; true; false; false];
   [false; false; false; false; true; false];
   [false; false; false; false; false; true];
   [false; false; false; false; false; false]].
Definition runtime_transition_allowed (from to : RuntimeState) : bool :=
  default false (runtime_transition_table !! runtime_state_index from ≫= λ row, row !! runtime_state_index to).

(** ** Startup snapshot of the backend ([backend/backend.hpp]) *)

Record ExistingWindowSnapshot := mkExisting {
  sn_window : Z;
  sn_currently_viewable : bool;
  sn_default_manage : bool;
  sn_from_restart : bool;
  sn_restart_workspace_id : Z;
  sn_restart_floating : bool;
  sn_restart_fullscreen : bool;
  sn_restart_hidden_explicitly : bool;
  sn_restart_borderless : bool;
  sn_geometry : option (Vec2 * Vec2);
  sn_wm_instance : string;
  sn_wm_class : string;
  sn_title : string;
  sn_type : WindowType;
  sn_no_decorations : bool;
  sn_fixed_size : bool }.
Record StartupSnapshot := mkStartup {
  su_windows : list ExistingWindowSnapshot;
  su_monitor_active_ws : gmap Z Z;
  su_focused_window : Z }.

(** ** The runtime object *)

Record Module_ := mkModule { mod_name : string; lua_inited_ : bool }.
#[export] Instance eta_Module : Eta Module_ := λ m, mkModule (mod_name m) (lua_inited_ m).

(** What a watched descriptor runs: nothing, the reaping of children, or a
    callback of a module. *)
Inductive fd_callback := CbNothing | CbReap | CbModule (k : Z).

Record Runtime (W : Type) := mkRuntime {
  module_registry_ : gset string;
  core_ : core;
  store_ : store;
  (** the watched descriptors, and whether the epoll descriptor is open *)
  loop_entries : list (Z * fd_callback);
  loop_running : bool;
  state_ : RuntimeState;
  reload_pending : bool;
  soft_restart_pending : bool;
  exec_restart_pending : bool;
  stop_requested : bool;
  modules : list Module_;
  module_windows_by_id_ : gmap Z Z;
  event_queue_ : EventQueue Event;
  extra_receivers_ : list Z;
  hook_registry_ : list Z;
  sigchld_pipe : option (Z * Z);
  world : W }.
Arguments mkRuntime {W}.
Arguments module_registry_ {W}. Arguments core_ {W}. Arguments store_ {W}.
Arguments loop_entries {W}. Arguments loop_running {W}. Arguments state_ {W}.
Arguments reload_pending {W}. Arguments soft_restart_pending {W}.
Arguments exec_restart_pending {W}. Arguments stop_requested {W}. Arguments modules {W}.
Arguments module_windows_by_id_ {W}. Arguments event_queue_ {W}. Arguments extra_receivers_ {W}.
Arguments hook_registry_ {W}. Arguments sigchld_pipe {W}. Arguments world {W}.
#[export] Instance eta_Runtime W : Eta (Runtime W) := λ r,
  mkRuntime (module_registry_ r) (core_ r) (store_ r) (loop_entries r) (loop_running r) (state_ r)
    (reload_pending r) (soft_restart_pending r) (exec_restart_pending r) (stop_requested r)
    (modules r) (module_windows_by_id_ r) (event_queue_ r) (extra_receivers_ r)
    (hook_registry_ r) (sigchld_pipe r) (world r).

(** The addresses the runtime registers itself: the Lua host and the backend. *)
Definition lua_ptr : Z := 1.
Definition backend_ptr : Z := 2.

(** ** What the runtime calls *)

Class Env (W : Type) := {
  (** the backend *)
  be_get_monitors : M (Runtime W) (list Monitor);
  be_apply_monitor_layout : list OutputLayout → M (Runtime W) unit;
  be_select_change_events : M (Runtime W) unit;
  be_pump_events : Z → M (Runtime W) unit;
  be_render_frame : M (Runtime W) unit;
  be_on_reload_applied : M (Runtime W) unit;
  be_on_start : M (Runtime W) unit;
  be_shutdown : M (Runtime W) unit;
  be_scan_existing_windows : M (Runtime W) StartupSnapshot;
  be_create_window : Z → option Window;
  be_event_fd : Z;
  be_new_render_window : M (Runtime W) (option (Z * Z));
  (** the modules, by name, and the receivers, by address *)
  mod_on_init : string → M (Runtime W) unit;
  mod_on_lua_init : string → M (Runtime W) unit;
  mod_on_start : string → M (Runtime W) unit;
  mod_on_stop : string → bool → M (Runtime W) unit;
  mod_on_reload : string → M (Runtime W) unit;
  mod_destroy : string → M (Runtime W) unit;
  deliver_module : string → Event → M (Runtime W) unit;
  deliver_receiver : Z → Event → M (Runtime W) unit;
  hook_should_manage : Z → Z → bool → M (Runtime W) bool;
  hook_window_rules : Z → Z → bool → M (Runtime W) unit;
  (** the Lua VM: set up or reset, and the run of a configuration file, which
      yields the table [siren] unless it fails *)
  lua_init : M (Runtime W) unit;
  lua_reset_root_table : M (Runtime W) unit;
  lua_initialized : W → bool;
  lua_prepare : M (Runtime W) unit;
  lua_exec_file : string → M (Runtime W) (option (string → LuaValue));
  lua_check_syntax : string → M (Runtime W) bool;
  lua_str_to_number : string → option double;
  lua_num_to_str : LuaValue → string;
  (** the kernel *)
  sys_pipe : M (Runtime W) (option (Z * Z));
  sys_epoll_create : M (Runtime W) bool;
  sys_epoll_wait : M (Runtime W) (list Z);
  sys_waitpid : M (Runtime W) (list (Z * Z));
  sys_write_restart_file : list Ascii.ascii → M (Runtime W) unit;
  fd_module_callback : Z → M (Runtime W) unit }.

Section Runtime.
Context {W : Type} `{!Env W}.
Local Abbreviation R := (Runtime W).

(** ** Events *)

Definition post_event (ev : Event) : M R unit := modify (λ r, r <| event_queue_ ::= push ev |>).

(** The events the core has posted to its sink, the runtime, end up in the
    queue: a call of the core, followed by what it posted. *)
Definition flush_sink (r : R) : R :=
  match event_sink (core_ r) with
  | Some l => r <| event_queue_ ::= λ q, foldl (λ q e, push e q) q l |>
                <| core_ ::= set_event_sink (Some []) |>
  | None => r
  end.
Definition on_core {A} (m : M core A) : M R A :=
  a <- zoom core_ (λ c r, r <| core_ := c |>) m ;;
  modify flush_sink ;;
  ret a.

(** ** What a backend reads of the core *)

Definition cget {A} (f : core → A) : M R A := gets (λ r : R, f (core_ r)).

(** [core.window_state(win)]. *)
Definition window_state (win : Z) : M R (option addr) :=
  cget (λ c, find_window (wsman c) win NO_WORKSPACE).
(** [core.window_state_any(win)], and a field of the window it points to, read
    when it is used. *)
Definition window_state_any (win : Z) : M R (option addr) := cget (λ c, find_window_in_all (wsman c) win).
Definition fld {A} (p : addr) (f : Window → A) : M R A :=
  checked (λ r : R, f <$> wins (wsman (core_ r)) !! p).

(** ** Receivers *)

Definition add_receiver (p : Z) : M R unit := modify (λ r, r <| extra_receivers_ ::= registry_add p |>).
Definition remove_receiver (p : Z) : M R unit :=
  modify (λ r, r <| extra_receivers_ ::= registry_remove p |>).
Definition add_hook_receiver (p : Z) : M R unit := modify (λ r, r <| hook_registry_ ::= registry_add p |>).
Definition remove_hook_receiver (p : Z) : M R unit :=
  modify (λ r, r <| hook_registry_ ::= registry_remove p |>).

(** A range [for] over a vector of pointers: if the body changes the vector, the
    iterators of the loop are no longer valid. *)
Definition for_range {A} `{!EqDecision A} (v : R → list A) (body : A → M R unit) : M R unit :=
  l <- gets v ;; for_each l (λ a, body a ;; check (λ r, bool_decide (v r = l))).

(** One event to all receivers: the modules, the Lua host, the registered ones. *)
Definition broadcast (ev : Event) : M R unit :=
  for_range (λ r, mod_name <$> modules r) (λ name, deliver_module name ev) ;;
  deliver_receiver lua_ptr ev ;;
  for_range extra_receivers_ (λ p, deliver_receiver p ev).

Definition drain_events (fuel : nat) : M R unit :=
  drain event_queue_ (λ q r, r <| event_queue_ := q |>) fuel broadcast.

(** [invoke_hook]: every subscriber gets the hook as the previous one left it. *)
Fixpoint invoke_should_manage (subscribers : list Z) (window : Z) (manage : bool) : M R bool :=
  match subscribers with
  | [] => ret manage
  | p :: ps => manage <- hook_should_manage p window manage ;; invoke_should_manage ps window manage
  end.
Definition should_manage (window : Z) : M R bool :=
  ps <- gets hook_registry_ ;; invoke_should_manage ps window true.
Definition window_rules (window : Z) (from_restart : bool) : M R unit :=
  ps <- gets hook_registry_ ;; for_each ps (λ p, hook_window_rules p window from_restart).

(** ** Lifecycle transitions *)

(** [transition]: aborts unless the table has the edge and the state is its start. *)
Definition transition (from to : RuntimeState) : M R unit :=
  check (λ _, runtime_transition_allowed from to) ;;
  check (λ r, bool_decide (state_ r = from)) ;;
  modify (λ r, r <| state_ := to |>).

(** ** Modules *)

Definition started (s : RuntimeState) : bool := (2 <=? runtime_state_index s)%nat.

Definition use (name : string) : M R unit :=
  r <- gets (λ r : R, r) ;;
  if started (state_ r) then ret tt
  else if existsb (λ m, bool_decide (mod_name m = name)) (modules r) then ret tt
  else if bool_decide (name ∈ module_registry_ r) then
    (mod_on_init name) ;;
    modify (λ r, r <| modules ::= λ l, l ++ [mkModule name false] |>)
  else ret tt.

Definition get_module_by_name (r : R) (name : string) : option Module_ :=
  List.find (λ m, bool_decide (mod_name m = name)) (modules r).

(** [m->lua_init_once()] on the module at index [i]. *)
Definition lua_init_once (i : nat) : M R unit :=
  m <- checked (λ r, modules r !! i) ;;
  if lua_inited_ m then ret tt
  else
    modify (λ r, r <| modules ::= alter (λ m, m <| lua_inited_ := true |>) i |>) ;;
    mod_on_lua_init (mod_name m).
Definition emit_lua_init : M R unit :=
  n <- gets (λ r, length (modules r)) ;; for_each (seq 0 n) lua_init_once.
Definition reset_lua_init : M R unit :=
  modify (λ r, r <| modules ::= fmap (λ m, m <| lua_inited_ := false |>) |>).

(** ** Monitors *)

Definition dispatch_ (cmd : CommandAtom) : M R unit := on_core (dispatch_atom cmd) ;; ret tt.

Definition apply_and_refresh_monitors : M R unit :=
  layout <- checked (λ r, MonitorLayout.build (get_monitors (store_ r)) (get_compose (store_ r))) ;;
  be_apply_monitor_layout layout ;;
  mons <- be_get_monitors ;;
  dispatch_ (ApplyMonitorTopology mons).

Definition dispatch_display_change : M R unit :=
  apply_and_refresh_monitors ;; post_event DisplayTopologyChanged.

(** ** Descriptors and children *)

Definition watch (fd : Z) (cb : fd_callback) : M R unit :=
  modify (λ r, r <| loop_entries ::= λ l, l ++ [(fd, cb)] |>).
Definition unwatch (fd : Z) : M R unit :=
  modify (λ r, r <| loop_entries ::= filter (λ e, e.1 ≠ fd) |>).

Definition reap_children : M R unit :=
  dead <- sys_waitpid ;; for_each dead (λ '(pid, code), post_event (ChildExited pid code)).

Definition run_callback (cb : fd_callback) : M R unit :=
  match cb with
  | CbNothing => ret tt
  | CbReap => reap_children
  | CbModule k => fd_module_callback k
  end.

Definition poll : M R unit :=
  running <- gets loop_running ;;
  if negb running then ret tt
  else
    ready <- sys_epoll_wait ;;
    for_each ready (λ fd,
      entries <- gets loop_entries ;;
      match List.find (λ e : Z * fd_callback, e.1 =? fd) entries with
      | Some e => run_callback e.2
      | None => ret tt
      end).

Definition setup_sigchld_pipe : M R unit :=
  fds <- sys_pipe ;;
  match fds with
  | None => ret tt
  | Some (rd, wr) =>
      modify (λ r, r <| sigchld_pipe := Some (rd, wr) |>) ;; watch rd CbReap
  end.
Definition teardown_sigchld_pipe : M R unit := modify (λ r, r <| sigchld_pipe := None |>).

(** ** Render windows of modules *)

(** [create_render_window]: a window of the backend, registered under its id. *)
Definition create_render_window : M R (option (Z * Z)) :=
  o <- be_new_render_window ;;
  match o with
  | None => ret None
  | Some (win, p) =>
      ids <- gets module_windows_by_id_ ;;
      if bool_decide (is_Some (ids !! win)) then ret None
      else
        modify (λ r, r <| module_windows_by_id_ ::= <[win := p]> |>) ;;
        ret (Some (win, p))
  end.

(** The deleter of its handle. *)
Definition unregister_module_window (win p : Z) : M R unit :=
  ids <- gets module_windows_by_id_ ;;
  match ids !! win with
  | Some q => if q =? p then modify (λ r, r <| module_windows_by_id_ ::= delete win |>) else ret tt
  | None => ret tt
  end.
End Runtime.

(** An environment that does nothing but make windows, for examples. *)
Definition windows_env {W : Type} (new_window : M (Runtime W) (option (Z * Z))) : Env W := {|
  be_get_monitors := ret [];
  be_apply_monitor_layout _ := ret tt;
  be_select_change_events := ret tt;
  be_pump_events _ := ret tt;
  be_render_frame := ret tt;
  be_on_reload_applied := ret tt;
  be_on_start := ret tt;
  be_shutdown := ret tt;
  be_scan_existing_windows := ret (mkStartup [] ∅ NO_WINDOW);
  be_create_window _ := None;
  be_event_fd := 5;
  be_new_render_window := new_window;
  mod_on_init _ := ret tt;
  mod_on_lua_init _ := ret tt;
  mod_on_start _ := ret tt;
  mod_on_stop _ _ := ret tt;
  mod_on_reload _ := ret tt;
  mod_destroy _ := ret tt;
  deliver_module _ _ := ret tt;
  deliver_receiver _ _ := ret tt;
  hook_should_manage _ _ b := ret b;
  hook_window_rules _ _ _ := ret tt;
  lua_init := ret tt;
  lua_reset_root_table := ret tt;
  lua_initialized _ := true;
  lua_prepare := ret tt;
  lua_exec_file _ := ret None;
  lua_check_syntax _ := ret true;
  lua_str_to_number _ := None;
  lua_num_to_str _ := "";
  sys_pipe := ret None;
  sys_epoll_create := ret true;
  sys_epoll_wait := ret [];
  sys_waitpid := ret [];
  sys_write_restart_file _ := ret tt;
  fd_module_callback _ := ret tt |}.
Definition idle_env {W : Type} : Env W := windows_env (ret None).
