(* ===== verification/Adopt.v ===== *)
(** * Adoption of the windows that exist when the program starts

    [adopt_existing_windows] of [runtime/runtime.cpp]: every window of the
    backend's snapshot that a hook does not refuse is brought under management,
    with the state the restart file has for it, and the workspaces of the
    monitors are restored. *)

From S2P Require Import Prelude Geometry Workspace WorkspaceManager Events Commands Core.
From S2P Require Import Dispatch Runtime.
Local Open Scope Z_scope.

Section Adopt.
Context {W : Type} `{!Env W}.
Local Abbreviation R := (Runtime W).

(** Whether the loop goes past the first guards with a window of the snapshot. *)
Definition adoptable (snap : ExistingWindowSnapshot) : bool :=
  negb (sn_window snap =? NO_WINDOW) && (sn_from_restart snap || sn_default_manage snap).

Definition snap_metadata (snap : ExistingWindowSnapshot) : WindowMetadata :=
  mkWindowMetadata (sn_window snap) (sn_wm_instance snap) (sn_wm_class snap) (sn_title snap) 0
    (sn_type snap)
    (mkWindowHints (sn_no_decorations snap) (sn_fixed_size snap) false false false false false false
       (mkVec2 0 0) (mkVec2 0 0) (mkVec2 0 0) (mkVec2 0 0)) NO_WINDOW.

(** The commands for a window of the restart file. *)
Definition restore_commands (n_ws : Z) (snap : ExistingWindowSnapshot) : list CommandAtom :=
  let win := sn_window snap in
  let ws := sn_restart_workspace_id snap in
  (if (0 <=? ws) && (ws <? n_ws) then [AssignWindowWorkspace win ws] else []) ++
  [SetWindowFloating win (sn_restart_floating snap)] ++
  (if sn_restart_fullscreen snap then [SetWindowFullscreen win true false] else []) ++
  (if sn_restart_borderless snap then [SetWindowBorderless win true; FocusWindow win] else []) ++
  (if sn_restart_hidden_explicitly snap then [HideWindow win] else []).

(** The commands for every window of the snapshot. *)
Definition adopt_commands (snap : ExistingWindowSnapshot) : list CommandAtom :=
  let win := sn_window snap in
  [EnsureWindow win (if sn_from_restart snap then sn_restart_workspace_id snap else NO_WORKSPACE);
   SetWindowMetadata (snap_metadata snap);
   SetWindowMapped win (sn_currently_viewable snap);
   SetWindowHiddenByWorkspace win true].
Definition geometry_commands (snap : ExistingWindowSnapshot) : list CommandAtom :=
  match sn_geometry snap with
  | Some (pos, size) => [SetWindowGeometry (sn_window snap) pos size]
  | None => []
  end.

(** The body of the loop; the result says whether the window was adopted. *)
Definition adopt_window (snap : ExistingWindowSnapshot) : M R bool :=
  if negb (adoptable snap) then ret false
  else
    manage <- should_manage (sn_window snap) ;;
    if negb manage then ret false
    else
      for_each (adopt_commands snap) dispatch_ ;;
      n <- gets (λ r : R, workspace_count (core_ r)) ;;
      for_each (if sn_from_restart snap then restore_commands n snap else []) dispatch_ ;;
      for_each (geometry_commands snap) dispatch_ ;;
      window_rules (sn_window snap) (sn_from_restart snap) ;;
      post_event (WindowMapped (sn_window snap)) ;;
      post_event (WindowAdopted (sn_window snap) (sn_currently_viewable snap)) ;;
      ret true.

Fixpoint adopt_windows (snaps : list ExistingWindowSnapshot) (any_restart : bool) (adopted : Z)
    : M R (bool * Z) :=
  match snaps with
  | [] => ret (any_restart, adopted)
  | snap :: rest =>
      b <- adopt_window snap ;;
      if (b : bool) then adopt_windows rest (any_restart || sn_from_restart snap) (adopted + 1)
      else adopt_windows rest any_restart adopted
  end.

(** The workspace monitor [i] shows after adoption. *)
Definition restored_workspace (saved : gmap Z Z) (c : core) (i : Z) : option Z :=
  match saved !! i with
  | Some ws => if (0 <=? ws) && (ws <? workspace_count c) then Some ws
               else mon_active_ws <$> vget (monitors (wsman c)) i
  | None => mon_active_ws <$> vget (monitors (wsman c)) i
  end.

(** The loop over the monitors, its bound read at every iteration. *)
Fixpoint switch_monitors (saved : gmap Z Z) (idxs : list Z) (any_switched : bool) : M R bool :=
  match idxs with
  | [] => ret any_switched
  | i :: rest =>
      n <- gets (λ r : R, vsize (monitors (wsman (core_ r)))) ;;
      if n <=? i then ret any_switched
      else
        ws <- checked (λ r : R, restored_workspace saved (core_ r) i) ;;
        if 0 <=? ws then
          dispatch_ (SwitchWorkspace ws (Some i)) ;; switch_monitors saved rest true
        else switch_monitors saved rest any_switched
  end.

Definition switch_focused_monitor : M R bool :=
  ws <- checked (λ r : R,
    let s := wsman (core_ r) in
    let fmon := focused_monitor s in
    if (0 <=? fmon) && (fmon <? vsize (monitors s)) then mon_active_ws <$> vget (monitors s) fmon
    else Some NO_WORKSPACE) ;;
  if 0 <=? ws then dispatch_ (SwitchWorkspace ws None) ;; ret true
  else ret false.

Definition adopt_existing_windows : M R unit :=
  startup <- be_scan_existing_windows ;;
  if bool_decide (su_windows startup = []) then ret tt
  else
    res <- adopt_windows (su_windows startup) false 0 ;;
    let '(any_restart, adopted) := res in
    if adopted <=? 0 then ret tt
    else
      switched <- (if (any_restart : bool) then
                     n <- gets (λ r : R, vsize (monitors (wsman (core_ r)))) ;;
                     switch_monitors (su_monitor_active_ws startup) (range n) false
                   else switch_focused_monitor) ;;
      if (switched : bool) then ret tt else dispatch_ ReconcileNow.
End Adopt.
