(* ===== verification/Lifecycle.v ===== *)
(** * The lifecycle: configuration, start, ticks, reload, stop

    The rest of [runtime/runtime.cpp], and [config_loader::load] of
    [config_loader.cpp].  [run] drives the states of the table in [Runtime];
    [fuel] bounds the event loop and the drains, whose termination is a theorem
    about the environment they run in. *)

From S2P Require Import Prelude TextStream Geometry Workspace WorkspaceManager MonitorLayout Events Commands.
From S2P Require Import Core RestartState ConfigValue RuntimeStore Validate Dispatch EventQueue Runtime.
From S2P Require Import Adopt.
Local Open Scope Z_scope.

Section Lifecycle.
Context {W : Type} `{!Env W} (fuel : nat).
Local Abbreviation R := (Runtime W).

Definition set_core (f : core → core) : M R unit := modify (λ r, r <| core_ ::= f |>).
Definition set_store (f : store → store) : M R unit := modify (λ r, r <| store_ ::= f |>).

(** ** Configuration *)

Definition load (path : string) (reset_lua_vm : bool) : M R bool :=
  set_core (λ c, bind_lua_host (c <| config_path := path |>)) ;;
  initialized <- gets (λ r : R, lua_initialized (world r)) ;;
  (if reset_lua_vm || negb initialized then lua_init else lua_reset_root_table) ;;
  reset_lua_init ;;
  emit_lua_init ;;
  lua_prepare ;;
  o <- lua_exec_file path ;;
  match o with
  | None => ret false
  | Some siren =>
      res <- checked (λ r : R, apply_from_lua lua_str_to_number lua_num_to_str siren (store_ r)) ;;
      modify (λ r : R, r <| store_ := res.2 |>) ;;
      ret res.1
  end.

Definition load_config (path : string) : M R bool :=
  ok <- load path true ;;
  if negb (ok : bool) then ret false
  else
    errs <- checked (λ r : R, validate_settings (store_ r)) ;;
    if bool_decide (errs ≠ []) then ret false
    else
      st <- gets (λ r : R, store_ r) ;;
      on_core (apply_settings (build_core_settings st)) ;;
      ret true.

(** ** Start and stop *)

Definition start : M R unit :=
  set_core (set_event_sink (Some [])) ;;
  add_receiver backend_ptr ;;
  add_hook_receiver lua_ptr ;;
  add_hook_receiver backend_ptr ;;
  initial_monitors <- be_get_monitors ;;
  on_core (core_init initial_monitors) ;;
  set_core (set_window_factory (Some be_create_window)) ;;
  set_core (mark_runtime_started true) ;;
  setup_sigchld_pipe ;;
  apply_and_refresh_monitors ;;
  be_select_change_events ;;
  mods <- gets (λ r : R, modules r) ;;
  for_each mods (λ m, mod_on_start (mod_name m)) ;;
  drain_events fuel ;;
  be_on_start ;;
  adopt_existing_windows ;;
  drain_events fuel ;;
  post_event RuntimeStarted ;;
  drain_events fuel.

(** Debug builds abort when a window of a module outlives the modules. *)
Definition report_live_module_windows : M R unit :=
  check (λ r : R, bool_decide (module_windows_by_id_ r = ∅)).

Definition stop (is_exec_restart : bool) : M R unit :=
  post_event (RuntimeStopping is_exec_restart) ;;
  drain_events fuel ;;
  remove_receiver backend_ptr ;;
  set_core (set_event_sink None) ;;
  mods <- gets (λ r : R, modules r) ;;
  for_each (rev mods) (λ m, mod_on_stop (mod_name m) is_exec_restart) ;;
  queue_clear event_queue_ (λ q r, r <| event_queue_ := q |>) ;;
  for_each mods (λ m, mod_destroy (mod_name m)) ;;
  modify (λ r : R, r <| modules := [] |>) ;;
  report_live_module_windows ;;
  modify (λ r : R, r <| module_windows_by_id_ := ∅ |>) ;;
  modify (λ r : R, r <| hook_registry_ ::= registry_clear |>) ;;
  modify (λ r : R, r <| extra_receivers_ ::= registry_clear |>) ;;
  be_shutdown ;;
  teardown_sigchld_pipe ;;
  set_core (mark_runtime_started false).

(** ** Reload *)

Definition reload : M R unit :=
  mods <- gets (λ r : R, modules r) ;;
  for_each mods (λ m, mod_on_reload (mod_name m)).

Definition restore_snapshot (backup : CoreReloadState) : M R unit :=
  set_store rollback_all ;; set_core (restore_reload_state backup).

Definition reload_runtime_config : M R bool :=
  path <- gets (λ r : R, config_path (core_ r)) ;;
  if String.eqb path "" then ret false
  else
    syntax <- lua_check_syntax path ;;
    if negb (syntax : bool) then ret false
    else
      set_store snapshot_all ;;
      backup <- gets (λ r : R, snapshot_reload_state (core_ r)) ;;
      set_store clear_all ;;
      set_core clear_reloadable_runtime_state ;;
      ok <- load path false ;;
      if negb (ok : bool) then restore_snapshot backup ;; ret false
      else
        errs <- checked (λ r : R, validate_settings (store_ r)) ;;
        if bool_decide (errs ≠ []) then restore_snapshot backup ;; ret false
        else
          set_store commit_all ;;
          st <- gets (λ r : R, store_ r) ;;
          on_core (apply_settings (build_core_settings st)) ;;
          reload ;;
          ret true.

Inductive ReloadRequest := ReqNone | ReqReloadConfig | ReqSoftRestart.

Definition request_reload : M R unit := modify (λ r : R, r <| reload_pending := true |>).
Definition request_soft_restart : M R unit :=
  modify (λ r : R, r <| reload_pending := false |> <| soft_restart_pending := true |>).
Definition request_stop : M R unit := modify (λ r : R, r <| stop_requested := true |>).

(** [exchange(false)] on an atomic flag, the soft restart first. *)
Definition consume_reload_request : M R ReloadRequest :=
  soft <- gets (λ r : R, soft_restart_pending r) ;;
  modify (λ r : R, r <| soft_restart_pending := false |>) ;;
  if (soft : bool) then ret ReqSoftRestart
  else
    pending <- gets (λ r : R, reload_pending r) ;;
    modify (λ r : R, r <| reload_pending := false |>) ;;
    if (pending : bool) then ret ReqReloadConfig else ret ReqNone.

(** The loop that restores the workspaces: [saved_ws] by monitor index. *)
Fixpoint restore_active (saved_ws : list (Z * Z)) (any : bool) : M R bool :=
  match saved_ws with
  | [] => ret any
  | (i, ws) :: rest =>
      r <- gets (λ r : R, r) ;;
      if negb (i <? vsize (monitors (wsman (core_ r)))) then ret any
      else if (0 <=? ws) && (ws <? workspace_count (core_ r)) then
        dispatch_ (SwitchWorkspace ws (Some i)) ;; restore_active rest true
      else restore_active rest any
  end.

Definition process_pending_reload : M R bool :=
  req <- consume_reload_request ;;
  match req with
  | ReqNone => ret false
  | _ =>
      reload_ok <- reload_runtime_config ;;
      if (reload_ok : bool) then
        saved_ws <- gets (λ r : R, imap (λ i m, (Z.of_nat i, mon_active_ws m)) (monitors (wsman (core_ r)))) ;;
        dispatch_display_change ;;
        any <- restore_active saved_ws false ;;
        (if (any : bool) then ret tt else dispatch_ ReconcileNow) ;;
        post_event ConfigReloaded ;;
        ret true
      else ret true
  end.

(** ** The event loop *)

Definition kMaxBackendEventsPerTick : Z := 2048.

Definition tick : M R unit :=
  poll ;;
  be_pump_events kMaxBackendEventsPerTick ;;
  reloaded <- process_pending_reload ;;
  (if (reloaded : bool) then be_on_reload_applied ;; post_event RaiseDocks else ret tt) ;;
  drain_events fuel ;;
  be_render_frame.

Fixpoint ticks (n : nat) : M R unit :=
  match n with
  | O => λ _, None
  | S n =>
      stopped <- gets (λ r : R, stop_requested r) ;;
      if (stopped : bool) then ret tt else tick ;; ticks n
  end.

(** [EventLoop::start]: it aborts when the kernel gives no descriptor. *)
Definition loop_start : M R unit :=
  running <- gets loop_running ;;
  if (running : bool) then ret tt
  else
    created <- sys_epoll_create ;;
    check (λ _, created) ;;
    modify (λ r : R, r <| loop_running := true |>).
Definition run_loop : M R unit :=
  watch be_event_fd CbNothing ;;
  loop_start ;;
  ticks fuel ;;
  modify (λ r : R, r <| loop_running := false |>) ;;
  unwatch be_event_fd.

(** ** [Runtime::run] *)

Definition run_idle (config_path fallback : string) : M R unit :=
  ok <- load_config config_path ;;
  if (ok : bool) then transition Idle Configured
  else if negb (String.eqb fallback "") then
    ok <- load_config fallback ;;
    if (ok : bool) then transition Idle Configured
    else modify (λ r : R, r <| state_ := Stopped |>)
  else modify (λ r : R, r <| state_ := Stopped |>).

Definition run_configured : M R unit :=
  transition Configured Starting ;; start ;; transition Starting Running.

Definition run_running : M R unit :=
  modify (λ r : R, r <| stop_requested := false |>) ;;
  run_loop ;;
  transition Running Stopping ;;
  is_exec_restart <- gets (λ r : R, exec_restart_pending r) ;;
  stop is_exec_restart ;;
  transition Stopping Stopped.

(** The switch of the loop; [None] is the call of [std::abort]. *)
Definition run_state (config_path fallback : string) (s : RuntimeState) : M R unit :=
  match s with
  | Idle => run_idle config_path fallback
  | Configured => run_configured
  | Running => run_running
  | Stopped => ret tt
  | Starting | Stopping => λ _, None
  end.

Fixpoint run_states (n : nat) (config_path fallback : string) : M R unit :=
  s <- gets (λ r : R, state_ r) ;;
  match s, n with
  | Stopped, _ => ret tt
  | _, O => λ _, None
  | s, S n => run_state config_path fallback s ;; run_states n config_path fallback
  end.

(** A run goes through three states before it is stopped. *)
Definition run : string → string → M R unit := run_states 3.

(** ** Exec restart *)

Definition request_exec_restart : M R unit :=
  path <- gets (λ r : R, config_path (core_ r)) ;;
  syntax <- (if String.eqb path "" then ret true else lua_check_syntax path) ;;
  if negb (syntax : bool) then ret tt
  else
    state <- gets (λ r : R, save_restart_state (core_ r)) ;;
    sys_write_restart_file state ;;
    modify (λ r : R, r <| exec_restart_pending := true |>) ;;
    request_stop.

Definition consume_exec_restart_request : M R bool :=
  pending <- gets (λ r : R, exec_restart_pending r) ;;
  modify (λ r : R, r <| exec_restart_pending := false |>) ;;
  ret pending.
End Lifecycle.
