(* ===== verification/X11Server.v ===== *)
(** * The X server, as the X11 backend sees it

    The server itself is not code of the repository: it is the interface
    [XServer] over a state [Srv] of which nothing is known, requests that
    change it, queries that return what it answers (and during which it, and
    its other clients, may do anything), and the queue of events.  The
    definitions are the library between the backend and xcb:
    [libxcb/src/connection.cpp], [libxcb/include/xcb/property.hpp],
    [libxcb/include/xcb/xconnection.hpp], [xcb/event_dispatch.hpp]. *)

From S2P Require Import Prelude Geometry TextStream Protocol.
Local Open Scope Z_scope.

(** ** Requests *)

(** What [xcb_send_event] carries. *)
Inductive XSent :=
| SentConfigureNotify (window px py width height border_width : Z)
| SentClientMessage (window type data0 data1 : Z)
| SentExpose (window width height : Z)
| SentMessage (window type : Z) (data : list Z)
| SentButton (release : bool) (window detail time root : Z) (root_pos pos : Vec2) (state : Z).

Inductive XRequest :=
| XMapWindow (win : Z)
| XUnmapWindow (win : Z)
| XSetInputFocus (win time : Z)
| XKillClient (win : Z)
| XConfigureWindow (win mask : Z) (values : list Z)
| XChangeAttributes (win mask : Z) (values : list Z)
| XChangeProperty (win prop type format : Z) (items : list Z)
| XCreateWindow (win parent : Z)
| XSendEvent (win mask : Z) (ev : XSent)
| XUngrabPointer
| XWarpPointer (dst : Z) (p : Vec2)
| XCreateBarrier (barrier x1 y1 x2 y2 directions : Z)
| XDestroyBarrier (barrier : Z)
| XCreateWindowAt (win parent : Z) (p sz : Vec2) (mask : Z) (values : list Z)
| XDestroyWindow (win : Z)
| XReparentWindow (win parent : Z) (p : Vec2)
| XChangeSaveSet (insert : bool) (win : Z)
| XSetSelectionOwner (win selection : Z)
| XGrabKey (win code modifiers : Z)
| XUngrabKey (code win modifiers : Z)
| XGrabButton (win event_mask button modifiers : Z)
| XUngrabButton (button win modifiers : Z)
| XGrabPointer (confine_to event_mask : Z)
| XWarpPointerTo (dst : Z) (p : Vec2)
| XRedirectSubwindows (win update : Z).

(** Protocol constants ([xcb/xproto.h]). *)
Definition XCB_NONE : Z := 0.
Definition XCB_CURRENT_TIME : Z := 0.
Definition XCB_ATOM_ANY : Z := 0.
Definition XCB_ATOM_ATOM : Z := 4.
Definition XCB_ATOM_CARDINAL : Z := 6.
Definition XCB_ATOM_RESOURCE_MANAGER : Z := 23.
Definition XCB_ATOM_STRING : Z := 31.
Definition XCB_ATOM_WINDOW : Z := 33.
Definition XCB_ATOM_WM_HINTS : Z := 35.
Definition XCB_ATOM_WM_NAME : Z := 39.
Definition XCB_ATOM_WM_NORMAL_HINTS : Z := 40.
Definition XCB_ATOM_WM_CLASS : Z := 67.
Definition XCB_ATOM_WM_TRANSIENT_FOR : Z := 68.

Definition XCB_CONFIG_WINDOW_X : Z := 1.
Definition XCB_CONFIG_WINDOW_Y : Z := 2.
Definition XCB_CONFIG_WINDOW_WIDTH : Z := 4.
Definition XCB_CONFIG_WINDOW_HEIGHT : Z := 8.
Definition XCB_CONFIG_WINDOW_BORDER_WIDTH : Z := 16.
Definition XCB_CONFIG_WINDOW_SIBLING : Z := 32.
Definition XCB_CONFIG_WINDOW_STACK_MODE : Z := 64.
Definition XCB_STACK_MODE_ABOVE : Z := 0.
Definition XCB_STACK_MODE_BELOW : Z := 1.

Definition XCB_CW_BORDER_PIXEL : Z := 8.
Definition XCB_CW_EVENT_MASK : Z := 2048.
Definition XCB_EVENT_MASK_NO_EVENT : Z := 0.
Definition XCB_EVENT_MASK_ENTER_WINDOW : Z := 16.
Definition XCB_EVENT_MASK_EXPOSURE : Z := 32768.
Definition XCB_EVENT_MASK_STRUCTURE_NOTIFY : Z := 131072.
Definition XCB_EVENT_MASK_FOCUS_CHANGE : Z := 2097152.
Definition XCB_EVENT_MASK_PROPERTY_CHANGE : Z := 4194304.
(** The mask the backend selects on every managed window. *)
Definition managed_event_mask : Z :=
  Z.lor (Z.lor (Z.lor XCB_EVENT_MASK_STRUCTURE_NOTIFY XCB_EVENT_MASK_ENTER_WINDOW)
    XCB_EVENT_MASK_FOCUS_CHANGE) XCB_EVENT_MASK_PROPERTY_CHANGE.

(** ** Replies *)

(** The items of a property are unsigned integers of [pr_format] bits. *)
Record XProperty := mkProperty { pr_format : Z; pr_items : list Z }.
Definition value_len (p : XProperty) : Z := vsize (pr_items p).

Record XGeometry := mkXGeometry {
  g_x : Z; g_y : Z; g_width : Z; g_height : Z; g_border_width : Z }.
Record XAttributes := mkXAttributes {
  override_redirect : bool; map_state : Z; win_class : Z }.
Definition XCB_MAP_STATE_VIEWABLE : Z := 2.
Definition XCB_WINDOW_CLASS_INPUT_OUTPUT : Z := 1.

(** ** Events *)

Record ConfigureRequest := mkConfigureRequest {
  cr_window : Z;
  cr_mask : Z;
  cr_x : Z; cr_y : Z;
  cr_width : Z; cr_height : Z;
  cr_border_width : Z;
  cr_sibling : Z;
  cr_stack_mode : Z }.
#[export] Instance eta_ConfigureRequest : Eta ConfigureRequest := λ c,
  mkConfigureRequest (cr_window c) (cr_mask c) (cr_x c) (cr_y c) (cr_width c) (cr_height c)
    (cr_border_width c) (cr_sibling c) (cr_stack_mode c).

Record KeyEvent := mkKeyEvent {
  ke_release : bool; ke_detail : Z; ke_time : Z; ke_state : Z; ke_root : Vec2 }.
Record ButtonEvent := mkButtonEvent {
  be_release : bool; be_event : Z; be_root_win : Z; be_root : Vec2; be_pos : Vec2;
  be_time : Z; be_detail : Z; be_state : Z }.
Record EnterEvent := mkEnterEvent {
  en_leave : bool; en_event : Z; en_mode : Z; en_detail : Z; en_time : Z; en_root : Vec2 }.

(** One constructor per event struct; [response_type] tells press from release,
    in from out, enter from leave. *)
Inductive XEvent :=
| XError (code : Z)
| XKey (e : KeyEvent)
| XButton (e : ButtonEvent)
| XMotionNotify (event : Z) (root : Vec2) (state : Z)
| XEnter (e : EnterEvent)
| XFocus (out : bool) (event : Z)
| XExpose (window : Z)
| XGraphicsExposure | XNoExposure | XVisibilityNotify
| XCreateNotify (window : Z) (override_redirect : bool) (p sz : Vec2)
| XDestroyNotify (window : Z)
| XUnmapNotify (window : Z)
| XMapNotify (window : Z) (override_redirect : bool)
| XMapRequest (window : Z)
| XReparentNotify (window parent : Z)
| XConfigureNotify (window : Z) (p sz : Vec2) (bw : Z) (override_redirect : bool)
| XConfigureRequest (c : ConfigureRequest)
| XPropertyNotify (window atom : Z)
| XClientMessage (window type format : Z) (data : list Z)
| XGeGeneric
| XExtension (type : Z).

(** [ev->response_type & 0x7f]: [EventTraits<T>::opcode] and the paired opcodes. *)
Definition opcode (e : XEvent) : Z :=
  match e with
  | XError _ => 0
  | XKey k => if ke_release k then 3 else 2
  | XButton b => if be_release b then 5 else 4
  | XMotionNotify _ _ _ => 6
  | XEnter n => if en_leave n then 8 else 7
  | XFocus out _ => if out then 10 else 9
  | XExpose _ => 12
  | XGraphicsExposure => 13
  | XNoExposure => 14
  | XVisibilityNotify => 15
  | XCreateNotify _ _ _ _ => 16
  | XDestroyNotify _ => 17
  | XUnmapNotify _ => 18
  | XMapNotify _ _ => 19
  | XMapRequest _ => 20
  | XReparentNotify _ _ => 21
  | XConfigureNotify _ _ _ _ _ => 22
  | XConfigureRequest _ => 23
  | XPropertyNotify _ _ => 28
  | XClientMessage _ _ _ _ => 33
  | XGeGeneric => 35
  | XExtension t => t
  end.

(** ** The server *)

Class XServer (Srv : Type) := {
  x_request : XRequest → Srv → Srv;
  x_poll : Srv → option XEvent * Srv;
  x_get_property : Z → Z → Z → Z → Srv → option XProperty * Srv;
  x_get_geometry : Z → Srv → option XGeometry * Srv;
  x_get_attributes : Z → Srv → option XAttributes * Srv;
  x_query_children : Z → Srv → list Z * Srv;
  (** the parent and the root of [xcb_query_tree] *)
  x_query_tree : Z → Srv → option (Z * Z) * Srv;
  x_get_input_focus : Srv → Z * Srv;
  x_query_pointer : Srv → option Vec2 * Srv;
  (** the atoms, which never change once interned *)
  x_intern_atom : string → Z;
  x_generate_id : Srv → Z * Srv;
  (** the key symbol of a key code, and the name of the active layout *)
  x_keysym : Z → Srv → Z;
  x_current_layout : Srv → list Z;
  x_xkb_event_type : Z }.

Section Connection.
Context {Srv : Type} `{!XServer Srv}.

(** ** Properties ([xcb/property.hpp]) *)

(** The bytes of a property, and the same bytes read as 32-bit words. *)
Definition item_bytes (format v : Z) : list Z :=
  if format =? 8 then [v]
  else if format =? 16 then [Z.land v 255; Z.shiftr v 8]
  else u32_to_bytes v.
Definition prop_bytes (p : XProperty) : list Z := flat_map (item_bytes (pr_format p)) (pr_items p).
Fixpoint words (b : list Z) : list Z :=
  match b with
  | b0 :: b1 :: b2 :: b3 :: r => bytes_to_u32 [b0; b1; b2; b3] :: words r
  | _ => []
  end.

Definition get_atom_list_property (win prop : Z) : M Srv (list Z) :=
  r <- ask (x_get_property win prop XCB_ATOM_ATOM 256) ;;
  ret (match r with Some p => words (prop_bytes p) | None => [] end).

(** [has_atom] ([x11/x11_atoms.hpp]). *)
Definition has_atom (atoms : list Z) (needle : Z) : bool :=
  if needle =? XCB_NONE then false else existsb (Z.eqb needle) atoms.

Definition get_wm_class (win : Z) : M Srv (string * string) :=
  r <- ask (x_get_property win XCB_ATOM_WM_CLASS XCB_ATOM_STRING 256) ;;
  match r with
  | None => ret (EmptyString, EmptyString)
  | Some p =>
      match prop_bytes p with
      | [] => ret (EmptyString, EmptyString)
      | b =>
          r1 <- checked (λ _, read_c_string b) ;;
          let '(instance, rest) := r1 in
          match rest with
          | [] => ret (string_of_bytes instance, EmptyString)
          | _ =>
              r2 <- checked (λ _, read_c_string rest) ;;
              ret (string_of_bytes instance, string_of_bytes r2.1)
          end
      end
  end.

(** The text goes up to the terminator or the end of the property. *)
Definition get_text_property (win prop type : Z) : M Srv string :=
  r <- ask (x_get_property win prop type 1024) ;;
  ret (match r with Some p => string_of_bytes (c_str (prop_bytes p)) | None => EmptyString end).

(** The value is a native word of whatever format the property has. *)
Definition get_cardinal_property (win prop : Z) : M Srv Z :=
  r <- ask (x_get_property win prop XCB_ATOM_CARDINAL 1) ;;
  ret (match r with Some p => default 0 (head (words (prop_bytes p))) | None => 0 end).

(** ** Hints ([libxcb/src/connection.cpp]) *)

(** [data[i]]: every use is guarded by [value_len]. *)
Definition item (p : XProperty) (i : nat) : Z := default 0 (pr_items p !! i).
Definition is_32 (p : XProperty) (n : Z) : bool := (pr_format p =? 32) && (n <=? value_len p).

Definition get_transient_for (win : Z) : M Srv (option Z) :=
  r <- ask (x_get_property win XCB_ATOM_WM_TRANSIENT_FOR XCB_ATOM_WINDOW 1) ;;
  ret (match r with
       | Some p => if is_32 p 1 then Some (item p 0) else None
       | None => None
       end).

Definition get_wm_state_value (win wm_state_atom : Z) : M Srv Z :=
  if wm_state_atom =? XCB_NONE then ret (-1)
  else
    r <- ask (x_get_property win wm_state_atom XCB_ATOM_ANY 2) ;;
    ret (match r with
         | Some p => if is_32 p 1 then to_i32 (item p 0) else -1
         | None => -1
         end).

Record SizeHints := mkSizeHints {
  sh_fixed : bool;
  sh_min : Vec2;
  sh_max : Vec2;
  sh_inc : Vec2;
  sh_base : Vec2 }.
Definition no_size_hints : SizeHints :=
  let z := mkVec2 0 0 in mkSizeHints false z z z z.

(** Two consecutive signed items, when the flag is set and they are there. *)
Definition hint_pair (p : XProperty) (flag need : Z) (i : nat) : bool * Vec2 :=
  if negb (Z.land (item p 0) flag =? 0) && (need <=? value_len p)
  then (true, mkVec2 (to_i32 (item p i)) (to_i32 (item p (S i))))
  else (false, mkVec2 0 0).

Definition decode_size_hints (p : XProperty) : SizeHints :=
  if is_32 p 9 then
    let '(has_min, mn) := hint_pair p 16 0 5 in
    let '(has_max, mx) := hint_pair p 32 0 7 in
    let '(_, inc) := hint_pair p 64 11 9 in
    let '(_, base) := hint_pair p 256 17 15 in
    mkSizeHints (has_min && has_max && (0 <? x mn) && (0 <? y mn) && (x mn =? x mx) && (y mn =? y mx))
      mn mx inc base
  else no_size_hints.
Definition get_size_hints (win : Z) : M Srv SizeHints :=
  r <- ask (x_get_property win XCB_ATOM_WM_NORMAL_HINTS XCB_ATOM_ANY 18) ;;
  ret (match r with Some p => decode_size_hints p | None => no_size_hints end).

(** [no_input] and [urgent]. *)
Definition get_wm_hints (win : Z) : M Srv (bool * bool) :=
  r <- ask (x_get_property win XCB_ATOM_WM_HINTS XCB_ATOM_ANY 9) ;;
  ret (match r with
       | Some p =>
           if is_32 p 2 then
             (negb (Z.land (item p 0) 1 =? 0) && (item p 1 =? 0), negb (Z.land (item p 0) 256 =? 0))
           else (false, false)
       | None => (false, false)
       end).

Definition has_property_32 (win prop min_items : Z) : M Srv bool :=
  if prop =? XCB_NONE then ret false
  else
    r <- ask (x_get_property win prop XCB_ATOM_ANY min_items) ;;
    ret (match r with Some p => is_32 p min_items | None => false end).

Definition motif_no_decorations (win : Z) : M Srv bool :=
  let motif_atom := x_intern_atom "_MOTIF_WM_HINTS" in
  if motif_atom =? XCB_NONE then ret false
  else
    r <- ask (x_get_property win motif_atom XCB_ATOM_ANY 5) ;;
    ret (match r with
         | Some p => is_32 p 3 && negb (Z.land (item p 0) 2 =? 0) && (item p 2 =? 0)
         | None => false
         end).

(** The code reads the gravity from item 9; [get_size_hints] reads item 9 as the
    width increment. *)
Definition decode_static_gravity (p : XProperty) : bool :=
  is_32 p 10 && negb (Z.land (item p 0) 512 =? 0) && (item p 9 =? 10).
Definition has_static_gravity (win : Z) : M Srv bool :=
  r <- ask (x_get_property win XCB_ATOM_WM_NORMAL_HINTS XCB_ATOM_ANY 18) ;;
  ret (match r with Some p => decode_static_gravity p | None => false end).

Definition get_property_u32 (win prop max_items : Z) : M Srv (list Z) :=
  r <- ask (x_get_property win prop XCB_ATOM_ANY max_items) ;;
  ret (match r with
       | Some p => if (pr_format p =? 32) && negb (value_len p =? 0) then pr_items p else []
       | None => []
       end).

(** The parent of a window below the top level. *)
Definition query_parent (win : Z) : M Srv (option Z) :=
  r <- ask (x_query_tree win) ;;
  ret (match r with
       | Some (parent, root) => if (parent =? XCB_NONE) || (parent =? root) then None else Some parent
       | None => None
       end).

(** ** [parse_color_hex] *)

Definition parse_color_hex (s : string) : Z :=
  match txt s with
  | c :: cs =>
      if (length cs =? 6)%nat && (code c =? 35) then
        match strtoul16 cs with
        | Some (v, []) => to_u32 v
        | _ => 0
        end
      else 0
  | [] => 0
  end.
End Connection.
