(* ===== verification/X11Backend.v ===== *)
(** * The X11 backend: state, windows, EWMH

    [backends/x11/include/x11_backend.hpp], [x11/x11_window.hpp],
    [x11/ewmh_atoms.hpp], [src/backend/x11_backend.cpp] and
    [src/backend/ewmh.cpp].  The backend is the world of a [Runtime]; the X
    server is the rest of that world. *)

From S2P Require Import Prelude Geometry Workspace WorkspaceManager Events Commands Core.
From S2P Require Import Dispatch TextStream Runtime X11Server.
Local Open Scope Z_scope.

(** ** State *)

Record XBackend := mkXBackend {
  root_window : Z;
  (** the key codes whose entry of [key_down] is set *)
  key_down : gset Z;
  ewmh_wm_window : Z;
  border_focused_pixel : Z;
  border_unfocused_pixel : Z;
  border_painted_focused_ : Z;
  last_event_time_ : Z;
  last_pointer_ : Vec2;
  first_configure_pos_ : gmap Z Vec2;
  barriers_ : list Z;
  barrier_window_ : Z;
  barrier_mon_idx_ : Z;
  (** the field of [X11Window], by the address of the object *)
  pending_wm_unmaps : gmap addr Z;
  (** [Runtime::backend_extension_event_base], which the monitor port sets *)
  randr_base : Z }.
#[export] Instance eta_XBackend : Eta XBackend := λ b,
  mkXBackend (root_window b) (key_down b) (ewmh_wm_window b) (border_focused_pixel b)
    (border_unfocused_pixel b) (border_painted_focused_ b) (last_event_time_ b) (last_pointer_ b)
    (first_configure_pos_ b) (barriers_ b) (barrier_window_ b) (barrier_mon_idx_ b)
    (pending_wm_unmaps b) (randr_base b).

Definition new_backend (root : Z) : XBackend :=
  mkXBackend root ∅ XCB_NONE 0 0 NO_WINDOW XCB_CURRENT_TIME (mkVec2 0 0) ∅ [0; 0; 0; 0]
    NO_WINDOW NO_MONITOR ∅ (-1).

Record XWorld (Srv : Type) := mkXWorld { xb : XBackend; srv : Srv }.
Arguments mkXWorld {Srv}. Arguments xb {Srv}. Arguments srv {Srv}.
#[export] Instance eta_XWorld Srv : Eta (XWorld Srv) := λ w, mkXWorld (xb w) (srv w).

(** What the backend calls besides the runtime and the server: the handlers of
    modules that consume a client message, and the subscribers of the hook
    [CloseWindow]. *)
Class XModules (W : Type) := {
  module_handles : string → Event → M (Runtime W) bool;
  hook_close_window : Z → Z → M (Runtime W) unit }.

(** ** Atoms ([x11/ewmh_atoms.hpp]) *)

Inductive EwmhAtom :=
| NetSupported | NetWmName | NetWmState | NetWmStateFullscreen | NetWmStateHidden
| NetWmStateFocused | NetFrameExtents | NetActiveWindow | NetClientList | NetClientListStacking
| NetSupportingWmCheck | NetWmWindowType | NetWmWindowTypeDock | NetWmWindowTypeDialog
| NetWmWindowTypeDesktop | NetWmWindowTypeNotification | NetWmWindowTypeTooltip
| NetWmWindowTypeDnd | NetWmWindowTypeDropdownMenu | NetWmWindowTypePopupMenu
| NetWmWindowTypeMenu | NetCloseWindow | NetNumberOfDesktops | NetCurrentDesktop
| NetDesktopNames | NetDesktopGeometry | NetDesktopViewport | NetWorkarea | NetWmDesktop
| Utf8String | WmProtocols | WmDeleteWindow | WmTakeFocus | WmState | XembedInfo.

Definition ewmh_name (a : EwmhAtom) : string :=
  match a with
  | NetSupported => "_NET_SUPPORTED"
  | NetWmName => "_NET_WM_NAME"
  | NetWmState => "_NET_WM_STATE"
  | NetWmStateFullscreen => "_NET_WM_STATE_FULLSCREEN"
  | NetWmStateHidden => "_NET_WM_STATE_HIDDEN"
  | NetWmStateFocused => "_NET_WM_STATE_FOCUSED"
  | NetFrameExtents => "_NET_FRAME_EXTENTS"
  | NetActiveWindow => "_NET_ACTIVE_WINDOW"
  | NetClientList => "_NET_CLIENT_LIST"
  | NetClientListStacking => "_NET_CLIENT_LIST_STACKING"
  | NetSupportingWmCheck => "_NET_SUPPORTING_WM_CHECK"
  | NetWmWindowType => "_NET_WM_WINDOW_TYPE"
  | NetWmWindowTypeDock => "_NET_WM_WINDOW_TYPE_DOCK"
  | NetWmWindowTypeDialog => "_NET_WM_WINDOW_TYPE_DIALOG"
  | NetWmWindowTypeDesktop => "_NET_WM_WINDOW_TYPE_DESKTOP"
  | NetWmWindowTypeNotification => "_NET_WM_WINDOW_TYPE_NOTIFICATION"
  | NetWmWindowTypeTooltip => "_NET_WM_WINDOW_TYPE_TOOLTIP"
  | NetWmWindowTypeDnd => "_NET_WM_WINDOW_TYPE_DND"
  | NetWmWindowTypeDropdownMenu => "_NET_WM_WINDOW_TYPE_DROPDOWN_MENU"
  | NetWmWindowTypePopupMenu => "_NET_WM_WINDOW_TYPE_POPUP_MENU"
  | NetWmWindowTypeMenu => "_NET_WM_WINDOW_TYPE_MENU"
  | NetCloseWindow => "_NET_CLOSE_WINDOW"
  | NetNumberOfDesktops => "_NET_NUMBER_OF_DESKTOPS"
  | NetCurrentDesktop => "_NET_CURRENT_DESKTOP"
  | NetDesktopNames => "_NET_DESKTOP_NAMES"
  | NetDesktopGeometry => "_NET_DESKTOP_GEOMETRY"
  | NetDesktopViewport => "_NET_DESKTOP_VIEWPORT"
  | NetWorkarea => "_NET_WORKAREA"
  | NetWmDesktop => "_NET_WM_DESKTOP"
  | Utf8String => "UTF8_STRING"
  | WmProtocols => "WM_PROTOCOLS"
  | WmDeleteWindow => "WM_DELETE_WINDOW"
  | WmTakeFocus => "WM_TAKE_FOCUS"
  | WmState => "WM_STATE"
  | XembedInfo => "_XEMBED_INFO"
  end.

Section X11.
Context {Srv : Type} `{!XServer Srv}.
Local Abbreviation W := (XWorld Srv).
Local Abbreviation R := (Runtime (XWorld Srv)).

(** [ewmh_atoms_[a]], resolved once when the backend starts. *)
Definition ewmh_atom (a : EwmhAtom) : Z := x_intern_atom (ewmh_name a).

(** ** Access to the state *)

Definition xget {A} (f : XBackend → A) : M R A := gets (λ r : R, f (xb (world r))).
Definition xset (f : XBackend → XBackend) : M R unit :=
  modify (λ r : R, r <| world ::= λ w, w <| xb ::= f |> |>).
Definition on_srv {A} (m : M Srv A) : M R A :=
  zoom (λ r : R, srv (world r)) (λ s r, r <| world ::= λ w, w <| srv := s |> |>) m.
Definition request (q : XRequest) : M R unit := on_srv (modify (x_request q)).
Definition query {A} (q : Srv → A * Srv) : M R A := on_srv (ask q).

Definition set_property (win prop type : Z) (items : list Z) : M R unit :=
  request (XChangeProperty win prop type 32 items).
Definition set_property_text (win prop type : Z) (bytes : list Z) : M R unit :=
  request (XChangeProperty win prop type 8 bytes).

(** ** [X11Window] *)

Definition x11_window (win : Z) : M R (option addr) :=
  if win =? NO_WINDOW then ret None else window_state_any win.
(** [if (auto* xw = x11_window(win)) …] *)
Definition with_x11_window (win : Z) (body : addr → M R unit) : M R unit :=
  o <- x11_window win ;;
  match o with Some p => body p | None => ret tt end.

Definition xw_configure (p : addr) (mask : Z) (values : list Z) : M R unit :=
  win <- fld p id ;; request (XConfigureWindow win mask values).
Definition xw_set_border_color (p : addr) (pixel : Z) : M R unit :=
  win <- fld p id ;; request (XChangeAttributes win XCB_CW_BORDER_PIXEL [pixel]).
Definition xw_set_wm_state (p : addr) (state : Z) : M R unit :=
  if ewmh_atom WmState =? XCB_NONE then ret tt
  else
    win <- fld p id ;;
    set_property win (ewmh_atom WmState) (ewmh_atom WmState) [state; XCB_NONE].
Definition xw_set_wm_state_normal (p : addr) : M R unit := xw_set_wm_state p 1.

Definition xw_states (p : addr) : M R (list Z) :=
  win <- fld p id ;; on_srv (get_atom_list_property win (ewmh_atom NetWmState)).
Definition xw_set_wm_state_atom (p : addr) (atom : Z) (enabled : bool) : M R unit :=
  states <- xw_states p ;;
  let states := List.filter (λ a, negb (a =? atom)) states in
  win <- fld p id ;;
  set_property win (ewmh_atom NetWmState) XCB_ATOM_ATOM
    (if enabled then states ++ [atom] else states).
Definition xw_set_fullscreen_state (p : addr) (enabled : bool) : M R unit :=
  xw_set_wm_state_atom p (ewmh_atom NetWmStateFullscreen) enabled.
Definition xw_has_fullscreen_state (p : addr) : M R bool :=
  states <- xw_states p ;; ret (existsb (Z.eqb (ewmh_atom NetWmStateFullscreen)) states).

Definition xw_set_frame_extents (p : addr) (bw : Z) : M R unit :=
  if ewmh_atom NetFrameExtents =? XCB_NONE then ret tt
  else
    win <- fld p id ;;
    set_property win (ewmh_atom NetFrameExtents) XCB_ATOM_CARDINAL [bw; bw; bw; bw].
Definition xw_set_desktop (p : addr) (ws : Z) : M R unit :=
  if ewmh_atom NetWmDesktop =? XCB_NONE then ret tt
  else win <- fld p id ;; set_property win (ewmh_atom NetWmDesktop) XCB_ATOM_CARDINAL [to_u32 ws].

Definition xw_protocols (p : addr) : M R (list Z) :=
  win <- fld p id ;; on_srv (get_atom_list_property win (ewmh_atom WmProtocols)).
Definition xw_supports_delete (p : addr) : M R bool :=
  l <- xw_protocols p ;; ret (existsb (Z.eqb (ewmh_atom WmDeleteWindow)) l).
Definition xw_send_message (p : addr) (data0 data1 : Z) : M R unit :=
  win <- fld p id ;;
  request (XSendEvent win XCB_EVENT_MASK_NO_EVENT
    (SentClientMessage win (ewmh_atom WmProtocols) data0 data1)).
Definition xw_send_delete_message (p : addr) : M R unit :=
  xw_send_message p (ewmh_atom WmDeleteWindow) XCB_CURRENT_TIME.
Definition xw_send_take_focus (p : addr) (timestamp : Z) : M R unit :=
  if ewmh_atom WmTakeFocus =? XCB_NONE then ret tt
  else
    l <- xw_protocols p ;;
    if existsb (Z.eqb (ewmh_atom WmTakeFocus)) l
    then xw_send_message p (ewmh_atom WmTakeFocus) timestamp else ret tt.
Definition xw_focus (p : addr) (timestamp : Z) : M R unit :=
  no_input <- fld p no_input_focus ;;
  win <- fld p id ;;
  (if negb no_input then request (XSetInputFocus win timestamp) else ret tt) ;;
  xw_send_take_focus p timestamp.

(** The server reports an unmap twice, to the window and to the root. *)
Definition xw_pending (b : XBackend) (p : addr) : Z := default 0 (pending_wm_unmaps b !! p).
Definition xw_note_wm_unmap (p : addr) : M R unit :=
  xset (λ b, b <| pending_wm_unmaps ::= <[p := xw_pending b p + 2]> |>).
Definition xw_consume_wm_unmap (p : addr) : M R bool :=
  n <- xget (λ b, xw_pending b p) ;;
  if n <=? 0 then ret false
  else xset (λ b, b <| pending_wm_unmaps ::= <[p := n - 1]> |>) ;; ret true.

Definition xw_map (p : addr) : M R unit := win <- fld p id ;; request (XMapWindow win).
Definition xw_unmap (p : addr) : M R unit := win <- fld p id ;; request (XUnmapWindow win).
Definition xw_raise (p : addr) : M R unit :=
  xw_configure p XCB_CONFIG_WINDOW_STACK_MODE [XCB_STACK_MODE_ABOVE].
Definition xw_lower (p : addr) : M R unit :=
  xw_configure p XCB_CONFIG_WINDOW_STACK_MODE [XCB_STACK_MODE_BELOW].
Definition xw_kill (p : addr) : M R unit := win <- fld p id ;; request (XKillClient win).
Definition xw_send_expose (p : addr) : M R unit :=
  win <- fld p id ;;
  geom <- query (x_get_geometry win) ;;
  let '(w, h) := match geom with Some g => (g_width g, g_height g) | None => (1, 1) end in
  request (XSendEvent win XCB_EVENT_MASK_EXPOSURE (SentExpose win w h)).
Definition xw_send_configure_notify (p : addr) (px py w h bw : Z) : M R unit :=
  win <- fld p id ;;
  request (XSendEvent win XCB_EVENT_MASK_STRUCTURE_NOTIFY
    (SentConfigureNotify win (to_i16 px) (to_i16 py) (to_u16 w) (to_u16 h) (to_u16 bw))).

(** ** EWMH ([src/backend/ewmh.cpp]) *)

Section Ewmh.
Context `{!Env (XWorld Srv)} `{!XModules (XWorld Srv)}.

Definition reload_border_colors : M R unit :=
  t <- cget (λ c, theme (settings c)) ;;
  let or_else a b := if bool_decide (a = EmptyString) then b else a in
  let focused := or_else (border_focused t) (accent t) in
  let unfocused := or_else (border_unfocused t) (or_else (alt_bg t) (bg t)) in
  xset (λ b, b <| border_focused_pixel := parse_color_hex focused |>
               <| border_unfocused_pixel := parse_color_hex unfocused |>).

Definition set_border_color (win pixel : Z) : M R unit :=
  with_x11_window win (λ p, xw_set_border_color p pixel).

Definition x_focus_window (win : Z) : M R unit :=
  with_x11_window win (λ p,
    t <- xget last_event_time_ ;;
    xw_focus p t ;;
    no_input <- fld p no_input_focus ;;
    root <- xget root_window ;;
    if negb no_input then set_property root (ewmh_atom NetActiveWindow) XCB_ATOM_WINDOW [win]
    else ret tt).

Definition ewmh_update_client_list : M R unit :=
  ids <- cget all_window_ids ;;
  root <- xget root_window ;;
  set_property root (ewmh_atom NetClientList) XCB_ATOM_WINDOW ids ;;
  set_property root (ewmh_atom NetClientListStacking) XCB_ATOM_WINDOW ids.

Definition ewmh_has_fullscreen_state (win : Z) : M R bool :=
  o <- x11_window win ;;
  match o with Some p => xw_has_fullscreen_state p | None => ret false end.
Definition ewmh_set_wm_state_atom (win atom : Z) (enabled : bool) : M R unit :=
  with_x11_window win (λ p, xw_set_wm_state_atom p atom enabled).
Definition ewmh_set_fullscreen_state_property (win : Z) (enabled : bool) : M R unit :=
  with_x11_window win (λ p, xw_set_fullscreen_state p enabled).
Definition ewmh_set_frame_extents (win bw : Z) : M R unit :=
  with_x11_window win (λ p, xw_set_frame_extents p bw).

Definition ewmh_apply_fullscreen (win : Z) (enabled : bool) : M R unit :=
  dispatch_ (SetWindowFullscreen win enabled false) ;;
  ewmh_set_fullscreen_state_property win enabled.

Definition should_apply_fullscreen_now (c : core) (win : Z) : bool :=
  match find_window_in_all (wsman c) win ≫= λ p, wins (wsman c) !! p with
  | None => false
  | Some w =>
      let ws_id := workspace_of_window (wsman c) win in
      negb (hidden_by_workspace w) && negb ((0 <=? ws_id) && negb (is_workspace_visible c ws_id))
  end.

(** One word list per workspace, for [n] workspaces. *)
Definition per_desktop (n : Z) (ws : list Z) : list Z := concat (replicate (Z.to_nat n) ws).

Definition ewmh_update_desktop_props : M R unit :=
  n_ws <- cget workspace_count ;;
  if n_ws =? 0 then ret tt
  else
    root <- xget root_window ;;
    set_property root (ewmh_atom NetNumberOfDesktops) XCB_ATOM_CARDINAL [n_ws] ;;
    names <- cget (λ c, flat_map (λ ws, string_bytes (ws_name ws) ++ [0]) (workspaces (wsman c))) ;;
    set_property_text root (ewmh_atom NetDesktopNames) (ewmh_atom Utf8String) names ;;
    geo <- query (x_get_geometry root) ;;
    let '(sw, sh) := match geo with Some g => (g_width g, g_height g) | None => (1280, 720) end in
    set_property root (ewmh_atom NetDesktopGeometry) XCB_ATOM_CARDINAL [sw; sh] ;;
    set_property root (ewmh_atom NetDesktopViewport) XCB_ATOM_CARDINAL (per_desktop n_ws [0; 0]) ;;
    set_property root (ewmh_atom NetWorkarea) XCB_ATOM_CARDINAL (per_desktop n_ws [0; 0; sw; sh]).

Definition supported_atoms : list EwmhAtom :=
  [NetSupported; NetWmName; NetActiveWindow; NetClientList; NetClientListStacking;
   NetSupportingWmCheck; NetWmState; NetWmStateFullscreen; NetWmStateHidden; NetWmStateFocused;
   NetFrameExtents; NetWmWindowType; NetWmWindowTypeDock; NetWmWindowTypeDialog; NetCloseWindow;
   NetNumberOfDesktops; NetCurrentDesktop; NetDesktopNames; NetDesktopGeometry;
   NetDesktopViewport; NetWorkarea; NetWmDesktop].

Definition ewmh_init : M R unit :=
  wm_window <- query x_generate_id ;;
  xset (λ b, b <| ewmh_wm_window := wm_window |>) ;;
  root <- xget root_window ;;
  request (XCreateWindow wm_window root) ;;
  set_property wm_window (ewmh_atom NetSupportingWmCheck) XCB_ATOM_WINDOW [wm_window] ;;
  set_property_text wm_window (ewmh_atom NetWmName) (ewmh_atom Utf8String) (string_bytes "SirenWM") ;;
  set_property root (ewmh_atom NetSupportingWmCheck) XCB_ATOM_WINDOW [wm_window] ;;
  set_property root (ewmh_atom NetSupported) XCB_ATOM_ATOM (ewmh_atom <$> supported_atoms) ;;
  set_property root (ewmh_atom NetCurrentDesktop) XCB_ATOM_CARDINAL [0] ;;
  ewmh_update_desktop_props ;;
  ewmh_update_client_list ;;
  set_property root (ewmh_atom NetActiveWindow) XCB_ATOM_WINDOW [XCB_NONE].

(** *** Hooks *)

Definition unmanaged_types : list EwmhAtom :=
  [NetWmWindowTypeDock; NetWmWindowTypeDesktop; NetWmWindowTypeNotification;
   NetWmWindowTypeTooltip; NetWmWindowTypeDnd; NetWmWindowTypeDropdownMenu;
   NetWmWindowTypePopupMenu; NetWmWindowTypeMenu].

(** [on_hook(ShouldManageWindow)]: the new value of [h.manage]. *)
Definition x_should_manage (win : Z) (manage : bool) : M R bool :=
  if ewmh_atom NetWmWindowType =? XCB_NONE then ret manage
  else
    types <- on_srv (get_atom_list_property win (ewmh_atom NetWmWindowType)) ;;
    if existsb (λ a, has_atom types (ewmh_atom a)) unmanaged_types then ret false
    else
      xembed <- on_srv (has_property_32 win (ewmh_atom XembedInfo) 2) ;;
      if negb xembed then ret manage
      else
        names <- on_srv (get_wm_class win) ;;
        title <- on_srv (get_text_property win (ewmh_atom NetWmName) (ewmh_atom Utf8String)) ;;
        geo <- query (x_get_geometry win) ;;
        let '(w, h) := match geo with Some g => (g_width g, g_height g) | None => (0, 0) end in
        let identifiable := negb (bool_decide (names.1 = EmptyString)) ||
                            negb (bool_decide (names.2 = EmptyString)) ||
                            negb (bool_decide (title = EmptyString)) in
        let tray_like_size := (0 <? w) && (0 <? h) && (w <=? 128) && (h <=? 128) in
        ret (if negb identifiable || tray_like_size then false else manage).

Definition x_close_window (win : Z) : M R unit :=
  with_x11_window win (λ p,
    d <- xw_supports_delete p ;;
    if (d : bool) then xw_send_delete_message p else xw_kill p).

(** *** Reactions *)

Definition ewmh_on_window_mapped (win : Z) : M R unit :=
  with_x11_window win (λ p,
    painted <- xget border_painted_focused_ ;;
    pixel <- xget border_unfocused_pixel ;;
    (if win =? painted then ret tt else xw_set_border_color p pixel) ;;
    hidden <- fld p hidden_by_workspace ;;
    (if negb hidden then xw_set_wm_state_normal p else ret tt) ;;
    ws <- cget (λ c, workspace_of_window (wsman c) win) ;;
    (if 0 <=? ws then xw_set_desktop p ws else ret tt) ;;
    ewmh_update_client_list ;;
    (if ewmh_atom NetWmStateHidden =? XCB_NONE then ret tt
     else ewmh_set_wm_state_atom win (ewmh_atom NetWmStateHidden) false) ;;
    skip_fullscreen <- fld p (λ w, borderless w && negb (self_managed w)) ;;
    own_geometry <- fld p is_self_managed ;;
    fs <- (if (skip_fullscreen : bool) then ret false else ewmh_has_fullscreen_state win) ;;
    now <- cget (λ c, should_apply_fullscreen_now c win) ;;
    (if (fs : bool) && now then
       if (own_geometry : bool) then dispatch_ (SetWindowFullscreen win true true)
       else ewmh_apply_fullscreen win true
     else ret tt) ;;
    ewmh_set_frame_extents win 0).

Definition ewmh_on_window_unmapped (win : Z) (withdrawn : bool) : M R unit :=
  with_x11_window win (λ p,
    xw_set_wm_state p (if withdrawn then 0 else 3) ;;
    if withdrawn then xw_set_wm_state_atom p (ewmh_atom NetWmStateHidden) false else ret tt) ;;
  ewmh_update_client_list.

(** *** Pointer barriers *)

Definition clear_pointer_barriers : M R unit :=
  win <- xget barrier_window_ ;;
  if win =? NO_WINDOW then ret tt
  else
    bs <- xget barriers_ ;;
    for_each bs (λ b, if b =? 0 then ret tt else request (XDestroyBarrier b)) ;;
    xset (λ b, b <| barriers_ := [0; 0; 0; 0] |> <| barrier_window_ := NO_WINDOW |>
                 <| barrier_mon_idx_ := NO_MONITOR |>).

(** [XFixesCreatePointerBarrier]; the directions let the pointer back in. *)
Definition create_barrier (x1 y1 x2 y2 directions : Z) : M R Z :=
  b <- query x_generate_id ;; request (XCreateBarrier b x1 y1 x2 y2 directions) ;; ret b.
Definition BarrierPositiveX : Z := 1.
Definition BarrierPositiveY : Z := 2.
Definition BarrierNegativeX : Z := 4.
Definition BarrierNegativeY : Z := 8.

Definition set_pointer_barriers (win mon_idx : Z) : M R unit :=
  cur <- xget (λ b, (barrier_window_ b, barrier_mon_idx_ b)) ;;
  if (cur.1 =? win) && (cur.2 =? mon_idx) then ret tt
  else
    clear_pointer_barriers ;;
    o <- cget (λ c, monitor_state c mon_idx) ;;
    match o with
    | None => ret tt
    | Some m =>
        let '(pp, ps) := physical m in
        let '(x1, y1) := (x pp, y pp) in
        let '(x2, y2) := (x pp + x ps, y pp + y ps) in
        b0 <- create_barrier x1 y1 x1 y2 BarrierPositiveX ;;
        b1 <- create_barrier x2 y1 x2 y2 BarrierNegativeX ;;
        b2 <- create_barrier x1 y1 x2 y1 BarrierPositiveY ;;
        b3 <- create_barrier x1 y2 x2 y2 BarrierNegativeY ;;
        xset (λ b, b <| barriers_ := [b0; b1; b2; b3] |> <| barrier_window_ := win |>
                     <| barrier_mon_idx_ := mon_idx |>)
    end.

(** *** Focus *)

Definition update_focus (win : Z) : M R unit :=
  root <- xget root_window ;;
  set_property root (ewmh_atom NetActiveWindow) XCB_ATOM_WINDOW [win] ;;
  painted <- xget border_painted_focused_ ;;
  let leaving := negb (painted =? NO_WINDOW) && negb (painted =? win) in
  (if ewmh_atom NetWmStateFocused =? XCB_NONE then ret tt
   else
     (if leaving then ewmh_set_wm_state_atom painted (ewmh_atom NetWmStateFocused) false else ret tt) ;;
     (if win =? NO_WINDOW then ret tt
      else ewmh_set_wm_state_atom win (ewmh_atom NetWmStateFocused) true)) ;;
  unfocused <- xget border_unfocused_pixel ;;
  focused <- xget border_focused_pixel ;;
  (if leaving then set_border_color painted unfocused else ret tt) ;;
  (if win =? NO_WINDOW then ret tt else set_border_color win focused) ;;
  xset (λ b, b <| border_painted_focused_ := win |>) ;;
  b <- cget (λ c, if win =? NO_WINDOW then false
                  else match find_window_in_all (wsman c) win ≫= λ p, wins (wsman c) !! p with
                       | Some w => borderless w
                       | None => false
                       end) ;;
  barrier <- xget barrier_window_ ;;
  if (b : bool) then
    mon_idx <- cget (λ c, monitor_of (wsman c) (workspace_of_window (wsman c) win)) ;;
    if 0 <=? mon_idx then set_pointer_barriers win mon_idx else ret tt
  else if negb (barrier =? NO_WINDOW) then request XUngrabPointer ;; clear_pointer_barriers
  else ret tt.

(** *** Domain events *)

Definition ewmh_on_workspace_switched (workspace_id : Z) : M R unit :=
  ewmh_update_desktop_props ;;
  root <- xget root_window ;;
  set_property root (ewmh_atom NetCurrentDesktop) XCB_ATOM_CARDINAL [to_u32 workspace_id] ;;
  o <- cget (λ c, vget (workspaces (wsman c)) workspace_id) ;;
  match o with
  | None => ret tt
  | Some ws =>
      for_each (windows ws) (λ p,
        win <- fld p id ;;
        skip <- fld p (λ w, hidden_by_workspace w || is_self_managed w ||
                            (borderless w && negb (self_managed w)) || fullscreen w) ;;
        if (skip : bool) then ret tt
        else
          fs <- ewmh_has_fullscreen_state win ;;
          if (fs : bool) then ewmh_apply_fullscreen win true else ret tt)
  end.

(** The position that centers a window in a monitor, its corner when it does
    not fit. *)
Definition centered (m : Monitor) (sz : Vec2) : Vec2 :=
  if (x (mon_size m) <=? x sz) || (y (mon_size m) <=? y sz) then mon_pos m
  else mkVec2 (x (mon_pos m) + (x (mon_size m) - x sz) ÷ 2)
              (y (mon_pos m) + (y (mon_size m) - y sz) ÷ 2).

Definition on_window_assigned (win ws_id : Z) : M R unit :=
  vis <- cget (λ c, is_workspace_visible c ws_id) ;;
  (if negb vis then request XUngrabPointer else ret tt) ;;
  o <- window_state_any win ;;
  (match o with
   | None => ret tt
   | Some p =>
       fl <- fld p floating ;;
       mon <- cget (λ c, vget (monitors (wsman c)) (monitor_of (wsman c) ws_id)) ;;
       match mon with
       | Some m =>
           w <- fld p (λ w, w) ;;
           let already_on_mon := (0 <? x (size w)) && (0 <? y (size w)) && mon_contains m (pos w) in
           if fl && negb already_on_mon
           then dispatch_ (SetWindowGeometry win (centered m (size w)) (size w))
           else ret tt
       | None => ret tt
       end
   end) ;;
  with_x11_window win (λ p, xw_set_desktop p ws_id).

(** [X11Backend::on], by event. *)
Definition x_on (ev : Event) : M R unit :=
  match ev with
  | FocusChanged win => update_focus win
  | WorkspaceSwitched ws_id => request XUngrabPointer ;; ewmh_on_workspace_switched ws_id
  | WindowAssignedToWorkspace win ws_id => on_window_assigned win ws_id
  | WindowAdopted win currently_visible =>
      ewmh_on_window_mapped win ;;
      if currently_visible then ret tt else ewmh_on_window_unmapped win false
  | _ => ret tt
  end.

(** *** Client messages: [handle(ClientMessageEv)] *)

Definition x_handle_wm_state (win action : Z) : M R unit :=
  o <- window_state_any win ;;
  match o with
  | None => ret tt
  | Some p =>
      w <- fld p (λ w, w) ;;
      let enable := if action =? 0 then Some false else if action =? 1 then Some true
                    else if action =? 2 then Some (negb (fullscreen w)) else None in
      let own_geometry := is_self_managed w || (borderless w && negb (self_managed w)) in
      now <- cget (λ c, should_apply_fullscreen_now c win) ;;
      match enable with
      | None => ret tt
      | Some true =>
          if negb own_geometry && now then ewmh_apply_fullscreen win true
          else ewmh_set_fullscreen_state_property win true
      | Some false =>
          if negb own_geometry then ewmh_apply_fullscreen win false
          else ewmh_set_fullscreen_state_property win false
      end
  end.

Definition x_handle (win type : Z) (data : list Z) : M R bool :=
  let d i := default 0 (data !! i) in
  n_ws <- cget workspace_count ;;
  o <- window_state_any win ;;
  let ws_id := to_i32 (d 0%nat) in
  if type =? ewmh_atom NetWmState then
    let fs := ewmh_atom NetWmStateFullscreen in
    (if negb (d 1%nat =? fs) && negb (d 2%nat =? fs) then ret tt
     else x_handle_wm_state win (d 0%nat)) ;;
    ret true
  else if type =? ewmh_atom NetActiveWindow then
    match o with
    | None => ret false
    | Some p =>
        vis <- fld p is_visible ;;
        ws_visible <- cget (λ c, let ws := workspace_of_window (wsman c) win in
                                 (ws <? 0) || is_workspace_visible c ws) ;;
        (if (vis : bool) && ws_visible then dispatch_ (FocusWindow win) else ret tt) ;;
        ret true
    end
  else if type =? ewmh_atom NetCurrentDesktop then
    (if (ws_id <? 0) || (n_ws <=? ws_id) then ret tt
     else dispatch_ (SwitchWorkspace ws_id None)) ;;
    ret true
  else if type =? ewmh_atom NetWmDesktop then
    (if (ws_id <? 0) || (n_ws <=? ws_id) then ret tt
     else match o with
          | None => ret tt
          | Some _ => dispatch_ (MoveWindowToWorkspace win ws_id)
          end) ;;
    ret true
  else if type =? ewmh_atom NetCloseWindow then
    hooks <- gets (λ r : R, hook_registry_ r) ;;
    for_each hooks (λ h, hook_close_window h win) ;;
    ret true
  else ret false.

(** *** Start ([on_start]) *)

Definition xresources (t : ThemeConfig) : list Z :=
  let line (b : bool) (l : text) := if b then code <$> (l ++ [newline]) else [] in
  line (0 <? dpi t) (txt "Xft.dpi: " ++ show_int (dpi t)) ++
  line (0 <? cursor_size t) (txt "Xcursor.size: " ++ show_int (cursor_size t)) ++
  line (negb (bool_decide (cursor_theme t = EmptyString)))
       (txt "Xcursor.theme: " ++ txt (cursor_theme t)).
Definition apply_xresources : M R unit :=
  t <- cget (λ c, theme (settings c)) ;;
  if (dpi t =? 0) && (cursor_size t =? 0) && bool_decide (cursor_theme t = EmptyString) then ret tt
  else
    root <- xget root_window ;;
    set_property_text root XCB_ATOM_RESOURCE_MANAGER XCB_ATOM_STRING (xresources t).

Definition x_on_start : M R unit :=
  ewmh_update_desktop_props ;;
  apply_xresources ;;
  reload_border_colors ;;
  o <- query x_query_pointer ;;
  match o with
  | Some p => on_core (core_focus_monitor_at_point p) ;; ret tt
  | None => ret tt
  end.
End Ewmh.
End X11.
