(* ===== verification/X11Events.v ===== *)
(** * The X11 backend: X events

    [backends/x11/src/backend/events.cpp]: one definition per handler, and the
    dispatcher [handle_generic_event] with [xcb/event_dispatch.hpp].  A pointer
    to a window is an address; its fields are read where the code reads them. *)

From S2P Require Import Prelude Geometry Workspace WorkspaceManager Events Protocol Commands Core.
From S2P Require Import Dispatch TextStream Runtime X11Server X11Backend.
Local Open Scope Z_scope.

(** [std::clamp(v, lo, hi)] for [lo <= hi]. *)
Definition std_clamp (v lo hi : Z) : Z := if v <? lo then lo else if hi <? v then hi else v.

Definition has_bit (mask flag : Z) : bool := negb (Z.land mask flag =? 0).

Section Events.
Context {Srv : Type} `{!XServer Srv} `{!Env (XWorld Srv)} `{!XModules (XWorld Srv)}.
Local Abbreviation R := (Runtime (XWorld Srv)).

(** ** Metadata *)

Definition window_type (types : list Z) : WindowType :=
  if has_atom types (x_intern_atom "_NET_WM_WINDOW_TYPE_MODAL") then Modal
  else if has_atom types (x_intern_atom "_NET_WM_WINDOW_TYPE_DIALOG") then Dialog
  else if has_atom types (x_intern_atom "_NET_WM_WINDOW_TYPE_UTILITY") then Utility
  else if has_atom types (x_intern_atom "_NET_WM_WINDOW_TYPE_SPLASH") then Splash
  else Normal.

Definition read_title (win : Z) : M Srv string :=
  t <- get_text_property win (x_intern_atom "_NET_WM_NAME") (x_intern_atom "UTF8_STRING") ;;
  if bool_decide (t = EmptyString) then get_text_property win XCB_ATOM_WM_NAME XCB_ATOM_STRING
  else ret t.

(** The facts of the geometry and the relationship are filled in later. *)
Definition read_window_metadata (win : Z) : M Srv WindowMetadata :=
  names <- get_wm_class win ;;
  types <- get_atom_list_property win (x_intern_atom "_NET_WM_WINDOW_TYPE") ;;
  sz <- get_size_hints win ;;
  hints <- get_wm_hints win ;;
  gravity <- has_static_gravity win ;;
  no_decos <- motif_no_decorations win ;;
  title <- read_title win ;;
  pids <- (if x_intern_atom "_NET_WM_PID" =? XCB_NONE then ret []
           else get_property_u32 win (x_intern_atom "_NET_WM_PID") 1) ;;
  ret (mkWindowMetadata win names.1 names.2 title (default 0 (head pids)) (window_type types)
         (mkWindowHints no_decos (sh_fixed sz) hints.1 hints.2 gravity false false false
            (sh_min sz) (sh_max sz) (sh_inc sz) (sh_base sz)) NO_WINDOW).

Definition monitor_for_visible_workspace (c : core) (ws_id : Z) : Z :=
  if ws_id <? 0 then -1 else find_index (λ m, mon_active_ws m =? ws_id) (monitors (wsman c)).

(** ** Placement *)

(** The rectangle [place_window_on_monitor] asks for, when it asks for one. *)
Definition fit_on_monitor (m : Monitor) (g : XGeometry) (prefer_center : bool) : option (Vec2 * Vec2) :=
  let '(mx, my) := (x (mon_pos m), y (mon_pos m)) in
  let '(mw, mh) := (x (mon_size m), y (mon_size m)) in
  let '(gx, gy) := (g_x g, g_y g) in
  let '(gw, gh) := (Z.max 1 (g_width g), Z.max 1 (g_height g)) in
  let '(nw, nh) := (Z.min gw mw, Z.min gh mh) in
  let '(nx, ny) :=
    if prefer_center then (mx + (mw - nw) ÷ 2, my + (mh - nh) ÷ 2)
    else (std_clamp gx mx (mx + mw - nw), std_clamp gy my (my + mh - nh)) in
  let crosses := (gx <? mx) || (gy <? my) || (mx + mw <? gx + gw) || (my + mh <? gy + gh) in
  let resized := negb (nw =? gw) || negb (nh =? gh) in
  let moved := negb (nx =? gx) || negb (ny =? gy) in
  if crosses || resized || moved then Some (mkVec2 nx ny, mkVec2 nw nh) else None.

Definition place_window_on_monitor (win : Z) (m : Monitor) (prefer_center : bool) : M R unit :=
  if (win =? NO_WINDOW) || (x (mon_size m) <=? 0) || (y (mon_size m) <=? 0) then ret tt
  else
    geo <- query (x_get_geometry win) ;;
    match geo ≫= λ g, fit_on_monitor m g prefer_center with
    | None => ret tt
    | Some (p, s) => dispatch_ (SetWindowGeometry win p s) ;; on_core (update_window win)
    end.

(** The physical rectangle of the monitor of a workspace. *)
Definition monitor_rect (c : core) (ws_id : Z) : option (Vec2 * Vec2) :=
  physical <$> vget (monitors (wsman c)) (monitor_of (wsman c) ws_id).

(** ** [handle_map_request] *)

Definition select_managed_events (win : Z) : M R unit :=
  request (XChangeAttributes win XCB_CW_EVENT_MASK [managed_event_mask]).

Definition covers_some_monitor (c : core) (g : XGeometry) : bool :=
  let outer_w := g_width g + 2 * g_border_width g in
  let outer_h := g_height g + 2 * g_border_width g in
  existsb (λ m, (x (mon_size m) <=? outer_w) &&
                (y (mon_size m) - Z.max 0 (top_inset m) - Z.max 0 (bottom_inset m) <=? outer_h))
    (monitors (wsman c)).

(** The workspace a window that covers a monitor starts on, from the first
    position it asked for. *)
Definition map_workspace_hint (r : R) (win : Z) (geo : option XGeometry) : Z :=
  match first_configure_pos_ (xb (world r)) !! win with
  | None => -1
  | Some p =>
      let p := match geo with
               | Some g => mkVec2 (x p + g_width g `div` 2) (y p + g_height g `div` 2)
               | None => p
               end in
      if (x p =? -32000) && (y p =? -32000) then -1 else active_workspace_at_point (core_ r) p
  end.

(** The window comes under management, with its metadata. *)
Definition map_ensure_window (win : Z) : M R unit :=
  meta <- on_srv (read_window_metadata win) ;;
  geo <- query (x_get_geometry win) ;;
  covers <- cget (λ c, match geo with Some g => covers_some_monitor c g | None => false end) ;;
  states <- on_srv (get_atom_list_property win (ewmh_atom NetWmState)) ;;
  let pre_fs := existsb (Z.eqb (ewmh_atom NetWmStateFullscreen)) states in
  xembed <- (if pre_fs then on_srv (has_property_32 win (ewmh_atom XembedInfo) 2) else ret false) ;;
  trans <- on_srv (get_transient_for win) ;;
  hint <- gets (λ r : R, if pre_fs || covers then map_workspace_hint r win geo else -1) ;;
  xset (λ b, b <| first_configure_pos_ ::= delete win |>) ;;
  dispatch_ (EnsureWindow win hint) ;;
  dispatch_ (SetWindowMetadata (meta <| md_transient_for := default XCB_NONE trans |>
    <| md_hints ::= λ h, h <| covers_monitor := covers |> <| pre_fullscreen := pre_fs |>
                           <| is_xembed := xembed |> |>)).

(** The borderless treatment the core decided on, or the repinning of a window
    that already has it. *)
Definition map_borderless (win ws_id : Z) (p : addr) : M R unit :=
  w <- fld p (λ w, w) ;;
  rect <- cget (λ c, monitor_rect c ws_id) ;;
  if promote_to_borderless w && negb (borderless w) && negb (floating w) then
    match rect with
    | None => ret tt
    | Some (pp, ps) =>
        dispatch_ (SetWindowBorderless win true) ;;
        own_geometry <- fld p self_managed ;;
        if (own_geometry : bool) then ret tt
        else
          dispatch_ (SetWindowBorderWidth win 0) ;;
          with_x11_window win (λ p, xw_configure p XCB_CONFIG_WINDOW_BORDER_WIDTH [0]) ;;
          dispatch_ (SetWindowGeometry win pp ps)
    end
  else if borderless w && negb (self_managed w) then
    match rect with
    | None => ret tt
    | Some (pp, ps) => dispatch_ (SetWindowGeometry win pp ps)
    end
  else ret tt.

(** The monitor a floating window is placed on. *)
Definition map_target_monitor (c : core) (transient_for : option Z) (ws_id : Z) (ws_visible : bool) : Z :=
  let or_else t alt := if t <? 0 then alt else t in
  let t := match transient_for with
           | Some parent =>
               if parent =? XCB_NONE then -1
               else monitor_for_visible_workspace c (workspace_of_window (wsman c) parent)
           | None => -1
           end in
  let t := if negb ws_visible then or_else t (monitor_of (wsman c) ws_id) else t in
  let t := or_else t (monitor_for_visible_workspace c ws_id) in
  or_else t (focused_monitor (wsman c)).

Definition map_place_floating (win ws_id : Z) (ws_visible : bool) (p : addr) : M R unit :=
  fl <- fld p floating ;;
  if negb fl then ret tt
  else
    trans <- on_srv (get_transient_for win) ;;
    o <- cget (λ c, vget (monitors (wsman c)) (map_target_monitor c trans ws_id ws_visible)) ;;
    center <- fld p (λ w, is_dialog w || size_locked w) ;;
    match o with
    | Some m => place_window_on_monitor win m center
    | None => ret tt
    end.

(** A window on a workspace that is not shown is mapped once, off screen. *)
Definition map_hidden (win : Z) : M R unit :=
  with_x11_window win (λ p,
    xw_configure p XCB_CONFIG_WINDOW_X [to_u32 (-32000)] ;;
    xw_map p ;;
    ewmh_on_window_unmapped win false ;;
    xw_note_wm_unmap p ;;
    xw_unmap p) ;;
  dispatch_ (SetWindowHiddenByWorkspace win true) ;;
  dispatch_ (SetWindowMapped win false).

Definition on_window (o : option addr) (body : addr → M R unit) : M R unit :=
  match o with Some p => body p | None => ret tt end.

Definition handle_map_request (win : Z) : M R unit :=
  attrs <- query (x_get_attributes win) ;;
  if match attrs with Some a => override_redirect a | None => false end
  then request (XMapWindow win)
  else
    manage <- should_manage win ;;
    if negb manage then request (XMapWindow win)
    else
      map_ensure_window win ;;
      select_managed_events win ;;
      trans <- on_srv (get_transient_for win) ;;
      managed_transient <- cget (λ c,
        let t := default XCB_NONE trans in
        negb (t =? XCB_NONE) && (0 <=? workspace_of_window (wsman c) t)) ;;
      (if (managed_transient : bool) then ret tt else window_rules win false) ;;
      mapped_window <- window_state_any win ;;
      ws_id <- cget (λ c, workspace_of_window (wsman c) win) ;;
      ws_visible <- cget (λ c, (0 <=? ws_id) && is_workspace_visible c ws_id) ;;
      on_window mapped_window (map_borderless win ws_id) ;;
      on_window mapped_window (map_place_floating win ws_id ws_visible) ;;
      (if (ws_visible : bool) then
         dispatch_ (SetWindowHiddenByWorkspace win false) ;; dispatch_ (MapWindow win)
       else map_hidden win) ;;
      ewmh_on_window_mapped win ;;
      post_event (WindowMapped win) ;;
      dispatch_ ReconcileNow ;;
      suppress <- on_core (consume_window_suppress_focus_once win) ;;
      vis <- (match mapped_window with Some p => fld p is_visible | None => ret false end) ;;
      if negb suppress && ws_visible && vis then dispatch_ (FocusWindow win)
      else on_core (focus NO_WINDOW).

(** ** Map, reparent, unmap, destroy *)

Definition handle_map_notify (win : Z) (override : bool) : M R unit :=
  root <- xget root_window ;;
  if win =? root then ret tt
  else
    xw <- x11_window win ;;
    pending_wm_unmap <- xget (λ b, match xw with Some p => 0 <? xw_pending b p | None => false end) ;;
    dispatch_ (SetWindowMapped win (negb pending_wm_unmap)) ;;
    (if (pending_wm_unmap : bool) then ret tt
     else
       ws_active <- cget (λ c, let ws := workspace_of_window (wsman c) win in
                               (0 <=? ws) && is_workspace_visible c ws) ;;
       if (ws_active : bool) then dispatch_ (SetWindowHiddenByWorkspace win false) else ret tt) ;;
    if override then ret tt else post_event RaiseDocks.

(** A window id as the payload of [IconDocked]. *)
Lemma to_u32_range z : in_u32 (to_u32 z) = true.
Proof.
  unfold in_u32, to_u32. change 4294967295 with (Z.ones 32). rewrite Z.land_ones by lia.
  pose proof (Z.mod_pos_bound z (2 ^ 32) ltac:(lia)). change (2 ^ 32) with 4294967296 in *.
  apply andb_true_iff. rewrite Z.leb_le, Z.ltb_lt. lia.
Qed.
Definition icon_docked (win : Z) : IconDocked := mkIconDocked (to_u32 win) (to_u32_range win).

Definition handle_reparent_notify (win parent : Z) : M R unit :=
  root <- xget root_window ;;
  if win =? root then ret tt
  else
    o <- window_state_any win ;;
    match o with
    | Some _ => ret tt
    | None =>
        has_xembed <- on_srv (has_property_32 win (x_intern_atom "_XEMBED_INFO") 2) ;;
        if (has_xembed : bool) && (parent =? root)
        then post_event (CustomEvent (pack (icon_docked win))) else ret tt
    end.

(** The end of every withdrawal. *)
Definition unmap_withdrawn (win : Z) (ws_visible : bool) : M R unit :=
  xset (λ b, b <| first_configure_pos_ ::= delete win |>) ;;
  dispatch_ (RemoveWindowFromAllWorkspaces win) ;;
  ewmh_on_window_unmapped win true ;;
  post_event (WindowUnmapped win true) ;;
  if ws_visible then dispatch_ ReconcileNow else ret tt.

(** The unmap of a managed window that the window manager did not ask for. *)
Definition unmap_by_client (win : Z) (ws_visible : bool) (p : addr) : M R unit :=
  w <- fld p (λ w, w) ;;
  dispatch_ (SetWindowMapped win false) ;;
  if borderless w || fullscreen w then unmap_withdrawn win ws_visible
  else if hidden_by_workspace w then
    ewmh_on_window_unmapped win false ;; post_event (WindowUnmapped win false)
  else unmap_withdrawn win ws_visible.

Definition handle_unmap_notify (win : Z) : M R unit :=
  root <- xget root_window ;;
  if win =? root then ret tt
  else
    ws_visible <- cget (λ c, let ws := workspace_of_window (wsman c) win in
                             (0 <=? ws) && is_workspace_visible c ws) ;;
    o <- window_state_any win ;;
    match o with
    | None => ewmh_on_window_unmapped win true ;; post_event (WindowUnmapped win true)
    | Some p =>
        xw <- x11_window win ;;
        by_wm <- (match xw with Some q => xw_consume_wm_unmap q | None => ret false end) ;;
        if (by_wm : bool) then ewmh_on_window_unmapped win false
        else unmap_by_client win ws_visible p
    end.

Definition handle_destroy_notify (win : Z) : M R unit :=
  xset (λ b, b <| first_configure_pos_ ::= delete win |>
               <| border_painted_focused_ ::= λ p, if p =? win then NO_WINDOW else p |>) ;;
  o <- window_state_any win ;;
  match o with
  | None => post_event (DestroyNotify win)
  | Some _ =>
      ws_visible <- cget (λ c, let ws := workspace_of_window (wsman c) win in
                               (0 <=? ws) && is_workspace_visible c ws) ;;
      post_event (DestroyNotify win) ;;
      dispatch_ (RemoveWindowFromAllWorkspaces win) ;;
      post_event (WindowUnmapped win true) ;;
      ewmh_update_client_list ;;
      if (ws_visible : bool) then dispatch_ ReconcileNow else ret tt
  end.

(** ** [handle_property_notify] *)

Definition refreshes_metadata (atom : Z) : bool :=
  existsb (Z.eqb atom)
    [XCB_ATOM_WM_CLASS; x_intern_atom "_NET_WM_WINDOW_TYPE"; XCB_ATOM_WM_NORMAL_HINTS;
     XCB_ATOM_WM_HINTS; x_intern_atom "_MOTIF_WM_HINTS"; XCB_ATOM_WM_NAME;
     x_intern_atom "_NET_WM_NAME"].

(** Motif hints without decorations promote the window to borderless. *)
Definition promote_motif (win : Z) (p : addr) : M R unit :=
  w <- fld p (λ w, w) ;;
  rect <- cget (λ c, monitor_rect c (workspace_of_window (wsman c) win)) ;;
  if borderless w then ret tt
  else if self_managed w then
    dispatch_ (SetWindowBorderless win true) ;;
    dispatch_ (SetWindowBorderWidth win 0) ;;
    post_event RaiseDocks ;;
    dispatch_ ReconcileNow
  else
    match rect with
    | None => ret tt
    | Some (pp, ps) =>
        dispatch_ (SetWindowBorderless win true) ;;
        dispatch_ (SetWindowBorderWidth win 0) ;;
        dispatch_ (SetWindowGeometry win pp ps) ;;
        post_event RaiseDocks ;;
        dispatch_ ReconcileNow
    end.

Definition refresh_metadata (win atom : Z) (p : addr) : M R unit :=
  meta <- on_srv (read_window_metadata win) ;;
  w <- fld p (λ w, w) ;;
  (if (atom =? x_intern_atom "_MOTIF_WM_HINTS") && no_decorations (md_hints meta)
   then promote_motif win p else ret tt) ;;
  dispatch_ (SetWindowMetadata (meta <| md_hints ::= λ h,
    h <| pre_fullscreen := self_managed w |>
      <| covers_monitor := self_managed w || borderless w |> |>)).

(** A window that becomes the transient of a managed one follows it. *)
Definition become_transient (win trans : Z) : M R unit :=
  parent_ws <- cget (λ c, workspace_of_window (wsman c) trans) ;;
  (if 0 <=? parent_ws then
     dispatch_ (SetWindowSuppressFocusOnce win true) ;;
     dispatch_ (MoveWindowToWorkspace win parent_ws)
   else ret tt) ;;
  dispatch_ (SetWindowFloating win true) ;;
  ws_id <- cget (λ c, workspace_of_window (wsman c) win) ;;
  target <- cget (λ c,
    if (0 <=? ws_id) && is_workspace_visible c ws_id then
      let t := monitor_for_visible_workspace c (workspace_of_window (wsman c) trans) in
      let t := if t <? 0 then monitor_for_visible_workspace c ws_id else t in
      vget (monitors (wsman c)) (if t <? 0 then focused_monitor (wsman c) else t)
    else None) ;;
  (match target with
   | Some m => place_window_on_monitor win m true
   | None => ret tt
   end) ;;
  dispatch_ ReconcileNow.

Definition handle_property_notify (win atom : Z) : M R unit :=
  o <- window_state_any win ;;
  on_window o (λ p,
    (if refreshes_metadata atom then refresh_metadata win atom p else ret tt) ;;
    fl <- fld p floating ;;
    if (atom =? XCB_ATOM_WM_TRANSIENT_FOR) && negb fl then
      t <- on_srv (get_transient_for win) ;;
      let trans := default XCB_NONE t in
      parent <- window_state_any trans ;;
      match parent with
      | Some _ => if trans =? XCB_NONE then ret tt else become_transient win trans
      | None => ret tt
      end
    else ret tt) ;;
  post_event (PropertyNotify win atom).

(** ** [handle_configure_request] *)

(** The patch: one value per flag of the mask, in the order of the flags. *)
Definition put (m : Z) (flag value : Z) (msg : Z * list Z) : Z * list Z :=
  if has_bit m flag then (Z.lor msg.1 flag, msg.2 ++ [value]) else msg.
Definition configure_patch (c : ConfigureRequest) (cfg_x cfg_y : Z) : Z * list Z :=
  let m := cr_mask c in
  put m XCB_CONFIG_WINDOW_STACK_MODE (cr_stack_mode c)
    (put m XCB_CONFIG_WINDOW_SIBLING (cr_sibling c)
      (put m XCB_CONFIG_WINDOW_BORDER_WIDTH (cr_border_width c)
        (put m XCB_CONFIG_WINDOW_HEIGHT (cr_height c)
          (put m XCB_CONFIG_WINDOW_WIDTH (cr_width c)
            (put m XCB_CONFIG_WINDOW_Y (to_u32 cfg_y)
              (put m XCB_CONFIG_WINDOW_X (to_u32 cfg_x) (0, []))))))).

Definition SIZE_BITS : Z := Z.lor XCB_CONFIG_WINDOW_WIDTH XCB_CONFIG_WINDOW_HEIGHT.
Definition POS_BITS : Z := Z.lor XCB_CONFIG_WINDOW_X XCB_CONFIG_WINDOW_Y.

(** The request of an unknown window, steered to the monitor of the pointer: the
    request with its new size, and the position that replaces [ev->x], [ev->y]. *)
Definition steer (mons : list Monitor) (pointer : Vec2) (c : ConfigureRequest)
    : ConfigureRequest * (Z * Z) :=
  match List.find (λ m, mon_contains m pointer) mons with
  | None => (c, (cr_x c, cr_y c))
  | Some m =>
      let '(tp, ts) := physical m in
      let rw := if has_bit (cr_mask c) XCB_CONFIG_WINDOW_WIDTH then cr_width c else 0 in
      let rh := if has_bit (cr_mask c) XCB_CONFIG_WINDOW_HEIGHT then cr_height c else 0 in
      let covers := existsb (λ s, let '(_, ss) := physical s in (rw =? x ss) && (rh =? y ss)) mons in
      ((if covers then
          c <| cr_width := to_u16 (x ts) |> <| cr_height := to_u16 (y ts) |>
            <| cr_mask ::= λ m, Z.lor m SIZE_BITS |>
        else c), (to_i16 (x tp), to_i16 (y tp)))
  end.

Definition configure_unknown (c : ConfigureRequest) : M R unit :=
  mons <- cget (λ c, monitors (wsman c)) ;;
  pointer <- xget last_pointer_ ;;
  let steered := has_bit (cr_mask c) SIZE_BITS && has_bit (cr_mask c) POS_BITS in
  let '(c', (cfg_x, cfg_y)) :=
    if steered then steer mons pointer c else (c, (cr_x c, cr_y c)) in
  (if steered then
     xset (λ b, b <| first_configure_pos_ ::= λ l,
       if bool_decide (is_Some (l !! cr_window c)) then l
       else <[cr_window c := mkVec2 cfg_x cfg_y]> l |>)
   else ret tt) ;;
  let msg := configure_patch c' cfg_x cfg_y in
  request (XConfigureWindow (cr_window c) msg.1 msg.2).

(** Restacking is applied to the X window alone. *)
Definition configure_restack (c : ConfigureRequest) (p : addr) : M R unit :=
  if negb (has_bit (cr_mask c) XCB_CONFIG_WINDOW_STACK_MODE) then ret tt
  else
    fs <- fld p fullscreen ;;
    if (fs : bool) then post_event RaiseDocks
    else
      with_x11_window (cr_window c) (λ p,
        if has_bit (cr_mask c) XCB_CONFIG_WINDOW_SIBLING
        then xw_configure p (Z.lor XCB_CONFIG_WINDOW_STACK_MODE XCB_CONFIG_WINDOW_SIBLING)
               [cr_sibling c; cr_stack_mode c]
        else xw_configure p XCB_CONFIG_WINDOW_STACK_MODE [cr_stack_mode c]).

(** A tiled window that asks for the size of its monitor: the request, with the
    geometry of the monitor if the window is promoted. *)
Definition configure_promote (c : ConfigureRequest) (candidate : bool)
    : M R (bool * ConfigureRequest) :=
  if negb (candidate && has_bit (cr_mask c) SIZE_BITS) then ret (false, c)
  else
    d <- cget (λ s, evaluate_fullscreen_like_request s (cr_window c)
                      (mkVec2 (cr_width c) (cr_height c)) true) ;;
    if negb (fd_promote d) then ret (false, c)
    else
      dispatch_ (SetWindowBorderless (cr_window c) true) ;;
      post_event RaiseDocks ;;
      ret (true, c <| cr_x := to_i16 (std_clamp (x (fd_pos d)) (-32768) 32767) |>
                   <| cr_y := to_i16 (std_clamp (y (fd_pos d)) (-32768) 32767) |>
                   <| cr_width := to_u16 (Z.min (x (fd_size d)) 65535) |>
                   <| cr_height := to_u16 (Z.min (y (fd_size d)) 65535) |>
                   <| cr_mask ::= λ m, Z.lor m (Z.lor POS_BITS SIZE_BITS) |>).

Definition notify_current_geometry (win : Z) (p : addr) : M R unit :=
  with_x11_window win (λ q,
    w <- fld p (λ w, w) ;;
    xw_send_configure_notify q (x (pos w)) (y (pos w)) (x (size w)) (y (size w)) (border_width w)).

(** The position a fixed-size window is kept at, on its monitor. *)
Definition keep_on_monitor (m : Monitor) (np nsize : Vec2) : Vec2 :=
  let axis v lo len n := std_clamp v lo (Z.max lo (lo + len - n)) in
  mkVec2 (axis (x np) (x (mon_pos m)) (x (mon_size m)) (x nsize))
         (axis (y np) (y (mon_pos m)) (y (mon_size m)) (y nsize)).

(** The geometry of a request a window may make for itself. *)
Definition configure_accept (c : ConfigureRequest) (borderless_fs static_gravity : bool) (p : addr)
    : M R unit :=
  w <- fld p (λ w, w) ;;
  let pick flag a b := if has_bit (cr_mask c) flag then a else b in
  let nsize := mkVec2 (pick XCB_CONFIG_WINDOW_WIDTH (cr_width c) (x (size w)))
                      (pick XCB_CONFIG_WINDOW_HEIGHT (cr_height c) (y (size w))) in
  let out_bw := pick XCB_CONFIG_WINDOW_BORDER_WIDTH (cr_border_width c) (border_width w) in
  let shift := if static_gravity && (0 <? out_bw) then out_bw else 0 in
  let np := mkVec2 (pick XCB_CONFIG_WINDOW_X (cr_x c) (x (pos w)) - shift)
                   (pick XCB_CONFIG_WINDOW_Y (cr_y c) (y (pos w)) - shift) in
  mon <- cget (λ s, vget (monitors (wsman s))
                      (monitor_of (wsman s) (workspace_of_window (wsman s) (cr_window c)))) ;;
  let np := if negb borderless_fs && size_locked w && negb (preserve_position w)
            then match mon with Some m => keep_on_monitor m np nsize | None => np end else np in
  dispatch_ (SetWindowGeometry (cr_window c) np nsize) ;;
  (if borderless_fs then dispatch_ ReconcileNow else ret tt) ;;
  with_x11_window (cr_window c) (λ q,
    xw_send_configure_notify q (x np + shift) (y np + shift) (x nsize) (y nsize) out_bw).

Definition configure_known (c : ConfigureRequest) (p : addr) : M R unit :=
  w <- fld p (λ w, w) ;;
  let static_gravity := preserve_position w in
  (if has_bit (cr_mask c) XCB_CONFIG_WINDOW_BORDER_WIDTH && negb (borderless w) &&
      negb (is_self_managed w)
   then dispatch_ (SetWindowBorderWidth (cr_window c) (cr_border_width c)) else ret tt) ;;
  configure_restack c p ;;
  pr <- configure_promote c (negb (floating w) && negb (borderless w) && negb static_gravity) ;;
  let '(borderless_fs, c) := pr in
  if floating w || (borderless w || borderless_fs) || static_gravity then
    pinned <- fld p (λ w, (fullscreen w && negb borderless_fs) ||
                          (borderless w && negb borderless_fs && negb (self_managed w))) ;;
    if (pinned : bool) then notify_current_geometry (cr_window c) p
    else configure_accept c borderless_fs static_gravity p
  else notify_current_geometry (cr_window c) p.

Definition handle_configure_request (c : ConfigureRequest) : M R unit :=
  o <- window_state_any (cr_window c) ;;
  match o with
  | None => configure_unknown c
  | Some p => configure_known c p
  end.

Definition handle_configure_notify (win : Z) (p sz : Vec2) (bw : Z) (override : bool) : M R unit :=
  post_event (ConfigureNotify win p sz) ;;
  o <- window_state_any win ;;
  match o with
  | Some _ => if override then ret tt else dispatch_ (SyncWindowFromConfigureNotify win p sz bw)
  | None => ret tt
  end.

(** ** Input *)

(** [handle_key_event]: a release looks at the next event, and [next] handles it. *)
Definition handle_key_event (next : XEvent → M R unit) (e : KeyEvent) : M R unit :=
  on_core (core_focus_monitor_at_point (ke_root e)) ;;
  if ke_release e then
    o <- query x_poll ;;
    match o with
    | Some ev =>
        let is_repeat := match ev with
                         | XKey k => negb (ke_release k) && (ke_detail k =? ke_detail e) &&
                                     (ke_time k =? ke_time e)
                         | _ => false
                         end in
        (if is_repeat then ret tt else xset (λ b, b <| key_down ::= λ s, s ∖ {[ke_detail e]} |>)) ;;
        next ev
    | None => xset (λ b, b <| key_down ::= λ s, s ∖ {[ke_detail e]} |>)
    end
  else
    down <- xget (λ b, bool_decide (ke_detail e ∈ key_down b)) ;;
    if (down : bool) then ret tt
    else
      xset (λ b, b <| key_down ::= λ s, {[ke_detail e]} ∪ s |>) ;;
      keysym <- on_srv (gets (x_keysym (ke_detail e))) ;;
      post_event (KeyPressEv (ke_state e) (ke_detail e) keysym).

Definition handle_focus_event (out : bool) (event : Z) : M R unit :=
  root <- xget root_window ;;
  if out then xset (λ b, b <| key_down := ∅ |>)
  else if event =? root then ret tt
  else
    o <- cget focused_window_state ;;
    on_window o (λ p,
      sel <- fld p id ;;
      if event =? sel then ret tt else request (XSetInputFocus sel XCB_CURRENT_TIME)).

Definition handle_button_event (e : ButtonEvent) : M R unit :=
  xset (λ b, b <| last_event_time_ := be_time e |> <| last_pointer_ := be_root e |>) ;;
  (if be_release e then ret tt else on_core (core_focus_monitor_at_point (be_root e)) ;; ret tt) ;;
  post_event (ButtonEv (be_event e) (be_root_win e) (be_root e) (be_pos e) (be_time e)
    (be_detail e) (be_state e) (be_release e)).

Definition handle_motion_notify (event : Z) (p : Vec2) (state : Z) : M R unit :=
  xset (λ b, b <| last_pointer_ := p |>) ;;
  root <- xget root_window ;;
  (if event =? root then on_core (core_focus_monitor_at_point p) ;; ret tt else ret tt) ;;
  post_event (MotionEv event p state).

(** [Runtime::emit_until_handled]: the modules in order, up to one that handles it. *)
Fixpoint emit_until_handled (mods : list Module_) (ev : Event) : M R bool :=
  match mods with
  | [] => ret false
  | m :: ms =>
      h <- module_handles (mod_name m) ev ;;
      if (h : bool) then ret true else emit_until_handled ms ev
  end.

Definition handle_client_message (win type format : Z) (data : list Z) : M R unit :=
  handled <- x_handle win type data ;;
  if (handled : bool) then ret tt
  else
    mods <- gets (λ r : R, modules r) ;;
    emit_until_handled mods (ClientMessageEv win type format data) ;; ret tt.

Definition XCB_NOTIFY_MODE_NORMAL : Z := 0.
Definition XCB_NOTIFY_DETAIL_INFERIOR : Z := 2.

Definition handle_enter_notify (e : EnterEvent) : M R unit :=
  if en_leave e then ret tt
  else if negb (en_mode e =? XCB_NOTIFY_MODE_NORMAL) || (en_detail e =? XCB_NOTIFY_DETAIL_INFERIOR)
  then ret tt
  else
    xset (λ b, b <| last_event_time_ := en_time e |> <| last_pointer_ := en_root e |>) ;;
    o <- window_state_any (en_event e) ;;
    on_window o (λ p,
      vis <- fld p is_visible ;;
      if (vis : bool) then dispatch_ (FocusWindow (en_event e)) else ret tt).

(** [handle_ge_generic]: its event type is 35, whatever the extension. *)
Definition handle_ge_generic : M R unit :=
  base <- xget randr_base ;;
  if base <? 0 then ret tt
  else if opcode XGeGeneric =? base then dispatch_display_change else ret tt.

(** ** [handle_generic_event] *)

Definition XCB_RANDR_SCREEN_CHANGE_NOTIFY : Z := 0.
Definition XCB_RANDR_NOTIFY : Z := 1.

Definition handle_extension_event (type : Z) : M R unit :=
  base <- xget randr_base ;;
  if (0 <=? base) && ((type =? base + XCB_RANDR_SCREEN_CHANGE_NOTIFY) || (type =? base + XCB_RANDR_NOTIFY))
  then dispatch_display_change
  else if (0 <=? x_xkb_event_type) && (type =? Z.land x_xkb_event_type 255) then
    layout <- on_srv (gets x_current_layout) ;;
    post_event (CustomEvent (pack (from layout)))
  else ret tt.

(** [next] handles the event a key release has found behind it. *)
Definition handle_event (next : XEvent → M R unit) (ev : XEvent) : M R unit :=
  match ev with
  | XError _ => ret tt
  | XKey e => handle_key_event next e
  | XButton e => handle_button_event e
  | XMotionNotify event p state => handle_motion_notify event p state
  | XEnter e => handle_enter_notify e
  | XFocus out event => handle_focus_event out event
  | XExpose win => post_event (ExposeWindow win)
  | XGraphicsExposure | XNoExposure | XVisibilityNotify | XCreateNotify _ _ _ _ => ret tt
  | XDestroyNotify win => handle_destroy_notify win
  | XUnmapNotify win => handle_unmap_notify win
  | XMapNotify win override => handle_map_notify win override
  | XMapRequest win => handle_map_request win
  | XReparentNotify win parent => handle_reparent_notify win parent
  | XConfigureNotify win p sz bw override => handle_configure_notify win p sz bw override
  | XConfigureRequest c => handle_configure_request c
  | XPropertyNotify win atom => handle_property_notify win atom
  | XClientMessage win type format data => handle_client_message win type format data
  | XGeGeneric => handle_ge_generic
  | XExtension type => handle_extension_event type
  end.

(** The recursion through key releases, [fuel] events deep. *)
Fixpoint handle_generic_event (fuel : nat) (ev : XEvent) : M R unit :=
  match fuel with
  | O => λ _, None
  | S n => handle_event (handle_generic_event n) ev
  end.
End Events.
