(* ===== verification/X11Loop.v ===== *)
(** * The X11 backend: the event pump and the frame

    [backends/x11/src/backend/loop.cpp]: reading events with coalescing, and
    carrying out what the core has asked for; the scan of existing windows at the end. *)

From S2P Require Import Prelude TextStream Geometry Workspace WorkspaceManager Events Commands Core.
From S2P Require Import RestartState Dispatch Runtime X11Server X11Backend X11Events.
Local Open Scope Z_scope.

Section Loop.
Context {Srv : Type} `{!XServer Srv} `{!Env (XWorld Srv)} `{!XModules (XWorld Srv)}.
Local Abbreviation R := (Runtime (XWorld Srv)).

(** ** [apply_window_flush] *)

Definition flush_values (dirty : Z) (w : Window) : Z * list Z :=
  put dirty FlushBorderWidth (to_u32 (border_width w))
    (put dirty FlushHeight (to_u32 (y (size w)))
      (put dirty FlushWidth (to_u32 (x (size w)))
        (put dirty FlushY (to_u32 (y (pos w)))
          (put dirty FlushX (to_u32 (x (pos w))) (0, []))))).

Definition apply_window_flush (f : WindowFlush) (p : addr) : M R unit :=
  if negb (has_config_changes f) then ret tt
  else
    w <- fld p (λ w, w) ;;
    let '(mask, values) := flush_values (fl_dirty f) w in
    if bool_decide (values = []) then ret tt else xw_configure p mask values.

(** [if (auto flush = core.take_window_flush(win)) …] *)
Definition flush_window (win : Z) (p : addr) : M R unit :=
  f <- on_core (take_window_flush win) ;;
  match f with Some f => apply_window_flush f p | None => ret tt end.
Definition take_and_flush (win : Z) : M R unit :=
  f <- on_core (take_window_flush win) ;;
  match f with
  | Some f => with_x11_window win (apply_window_flush f)
  | None => ret tt
  end.

(** ** [apply_core_backend_effects] *)

Definition effect_map (win : Z) : M R unit :=
  with_x11_window win (λ p,
    pinned <- fld p (λ w, borderless w && negb (is_self_managed w)) ;;
    rect <- cget (λ c, monitor_rect c (workspace_of_window (wsman c) win)) ;;
    (match rect with
     | Some (pp, ps) =>
         if (pinned : bool) then dispatch_ (SetWindowGeometry win pp ps) ;; flush_window win p
         else ret tt
     | None => ret tt
     end) ;;
    select_managed_events win ;;
    xw_set_wm_state_normal p ;;
    xw_map p ;;
    xw_send_expose p ;;
    ewmh_on_window_mapped win).

Definition effect_unmap (win : Z) : M R unit :=
  with_x11_window win (λ p,
    barrier <- xget barrier_window_ ;;
    (if win =? barrier then request XUngrabPointer ;; clear_pointer_barriers else ret tt) ;;
    ewmh_on_window_unmapped win false ;;
    xw_note_wm_unmap p ;;
    xw_unmap p).

Definition apply_effect (e : BackendEffect) : M R unit :=
  let win := eff_window e in
  root <- xget root_window ;;
  match eff_kind e with
  | EffMapWindow => effect_map win
  | EffUnmapWindow => effect_unmap win
  | EffFocusWindow => if win =? NO_WINDOW then ret tt else x_focus_window win
  | EffFocusRoot =>
      if root =? NO_WINDOW then ret tt else request (XSetInputFocus root XCB_CURRENT_TIME)
  | EffUpdateWindow => if win =? NO_WINDOW then ret tt else take_and_flush win
  | EffWarpPointer => request (XWarpPointer root (vec_to_i16 (eff_pos e)))
  | EffRaiseWindow => with_x11_window win xw_raise
  | EffLowerWindow => with_x11_window win xw_lower
  | EffCloseWindow => x_close_window win
  end.

Definition apply_core_backend_effects : M R unit :=
  effects <- on_core take_backend_effects ;;
  for_each effects apply_effect.

Definition render_frame : M R unit :=
  apply_core_backend_effects ;;
  visible_windows <- cget visible_window_ids ;;
  for_each visible_windows take_and_flush.

(** ** [pump_events] *)

Definition is_randr_event_type (base type : Z) : bool :=
  (0 <=? base) &&
  ((type =? Z.land (base + XCB_RANDR_SCREEN_CHANGE_NOTIFY) 255) ||
   (type =? Z.land (base + XCB_RANDR_NOTIFY) 255)).

(** The local variables of the loop. *)
Record Pump := mkPump {
  latest_motion : option XEvent;
  pending_exposes : list Z;
  randr_dirty : bool }.
#[export] Instance eta_Pump : Eta Pump := λ p,
  mkPump (latest_motion p) (pending_exposes p) (randr_dirty p).
Definition new_pump : Pump := mkPump None [] false.

(** An expose event takes the place of the pending one of its window; all the
    handler reads of it is the window. *)
Definition add_expose (win : Z) (l : list Z) : list Z :=
  if existsb (Z.eqb win) l then l else l ++ [win].

(** The events that wait for the end of the loop, and what they leave. *)
Definition defer (base : Z) (ev : XEvent) (p : Pump) : option Pump :=
  if is_randr_event_type base (opcode ev) then Some (p <| randr_dirty := true |>)
  else match ev with
  | XMotionNotify _ _ _ => Some (p <| latest_motion := Some ev |>)
  | XExpose win => Some (p <| pending_exposes ::= add_expose win |>)
  | _ => None
  end.

Fixpoint pump_loop (fuel max_events : nat) (p : Pump) : M R Pump :=
  match max_events with
  | O => ret p
  | S n =>
      o <- query x_poll ;;
      match o with
      | None => ret p
      | Some ev =>
          base <- xget randr_base ;;
          match defer base ev p with
          | Some p' => pump_loop fuel n p'
          | None => handle_generic_event fuel ev ;; pump_loop fuel n p
          end
      end
  end.

(** [fuel] bounds the events a key release may read ahead. *)
Definition pump_events (fuel : nat) (max_events_per_tick : Z) : M R unit :=
  p <- pump_loop fuel (Z.to_nat max_events_per_tick) new_pump ;;
  (match latest_motion p with Some ev => handle_generic_event fuel ev | None => ret tt end) ;;
  for_each (pending_exposes p) (λ win, handle_generic_event fuel (XExpose win)) ;;
  if randr_dirty p then dispatch_display_change else ret tt.

(** ** [on_reload_applied] *)

Definition on_reload_applied : M R unit :=
  xset (λ b, b <| key_down := ∅ |>) ;;
  reload_border_colors ;;
  post_event RaiseDocks ;;
  on_core (focus NO_WINDOW).
End Loop.

(** ** The X11 backend: the windows that exist at start

    [scan_existing_windows] of [backends/x11/src/backend/adopt.cpp].  Reading
    the restart file is [RestartState.load_restart_state]. *)

Section Scan.
Context {Srv : Type} `{!XServer Srv}.

Definition ICCCM_ICONIC_STATE : Z := 3.

Definition unsupported_types : list string :=
  ["_NET_WM_WINDOW_TYPE_DOCK"; "_NET_WM_WINDOW_TYPE_DESKTOP"; "_NET_WM_WINDOW_TYPE_NOTIFICATION";
   "_NET_WM_WINDOW_TYPE_TOOLTIP"; "_NET_WM_WINDOW_TYPE_DND"].

(** The filters for a window that is not in the restart file. *)
Definition manage_by_default (map_state wm_state : Z) (types : list Z) (identifiable : bool) : bool :=
  ((map_state =? XCB_MAP_STATE_VIEWABLE) || (wm_state =? ICCCM_ICONIC_STATE)) &&
  negb (existsb (λ t, has_atom types (x_intern_atom t)) unsupported_types) && identifiable.

(** The body of the loop over the children of the root. *)
Definition scan_window (root : Z) (saved : gmap Z RestartWinState) (win : Z)
    : M Srv (option ExistingWindowSnapshot) :=
  if win =? root then ret None
  else
    attrs <- ask (x_get_attributes win) ;;
    match attrs with
    | None => ret None
    | Some a =>
        if override_redirect a || negb (win_class a =? XCB_WINDOW_CLASS_INPUT_OUTPUT) then ret None
        else
          names <- get_wm_class win ;;
          title <- read_title win ;;
          types <- get_atom_list_property win (x_intern_atom "_NET_WM_WINDOW_TYPE") ;;
          sz <- get_size_hints win ;;
          no_decos <- motif_no_decorations win ;;
          let type := window_type types in
          let identifiable := negb (bool_decide (names.1 = EmptyString)) ||
                              negb (bool_decide (names.2 = EmptyString)) ||
                              negb (bool_decide (title = EmptyString)) in
          wm_state <- get_wm_state_value win (x_intern_atom "WM_STATE") ;;
          types <- get_atom_list_property win (x_intern_atom "_NET_WM_WINDOW_TYPE") ;;
          let from_restart := saved !! win in
          let default_manage := match from_restart with
                                | Some _ => true
                                | None => manage_by_default (map_state a) wm_state types identifiable
                                end in
          let rw := default (mkRestartWin (-1) false false false false) from_restart in
          (if default_manage
           then modify (x_request (XChangeAttributes win XCB_CW_EVENT_MASK [managed_event_mask]))
           else ret tt) ;;
          geo <- ask (x_get_geometry win) ;;
          ret (Some (mkExisting win (map_state a =? XCB_MAP_STATE_VIEWABLE) default_manage
                 (bool_decide (is_Some from_restart)) (rw_ws_id rw) (rw_floating rw) (rw_fullscreen rw)
                 (rw_hidden_explicitly rw) (rw_borderless rw)
                 ((λ g, (mkVec2 (g_x g) (g_y g), mkVec2 (g_width g) (g_height g))) <$> geo)
                 names.1 names.2 title type no_decos (sh_fixed sz)))
    end.

Fixpoint scan_windows (root : Z) (saved : gmap Z RestartWinState) (wins : list Z)
    : M Srv (list ExistingWindowSnapshot) :=
  match wins with
  | [] => ret []
  | w :: ws =>
      o <- scan_window root saved w ;;
      l <- scan_windows root saved ws ;;
      ret (match o with Some s => s :: l | None => l end)
  end.

(** The top-level window that holds the input focus: up the parents, at most
    [depth] of them. *)
Fixpoint focused_toplevel (depth : nat) (children : list Z) (focus : Z) : M Srv Z :=
  match depth with
  | O => ret 0
  | S d =>
      if existsb (Z.eqb focus) children then ret focus
      else
        parent <- query_parent focus ;;
        match parent with
        | Some p => focused_toplevel d children p
        | None => ret 0
        end
  end.

Definition scan_existing_windows (root : Z) (file : option text) : M Srv StartupSnapshot :=
  if root =? 0 then ret (mkStartup [] ∅ 0)
  else
    children <- ask (x_query_children root) ;;
    let rstate := load_restart_state file in
    windows <- scan_windows root (rs_windows rstate) children ;;
    focus <- ask x_get_input_focus ;;
    focused <- (if (focus =? XCB_NONE) || (focus =? root) then ret 0
                else focused_toplevel 8 children focus) ;;
    ret (mkStartup windows (if rs_had_file rstate then rs_monitor_active_ws rstate else ∅) focused).
End Scan.
