(* ===== verification/CoreSafe.v ===== *)
(** * Safety of the core

    [core_ok]: the invariant of the core.  [evolves]: what every command
    guarantees of the state it leaves relative to the one it found.  [safe R m]:
    from a state that satisfies the invariant and [R], the computation [m] runs
    without undefined behaviour, keeps the invariant and evolves the state.  The
    rules below prove [safe] by the structure of a command. *)

From S2P Require Import Prelude Geometry Float32 Layout Workspace WorkspaceManager WindowIndex ManagerInv.
From S2P Require Import Pools ManagerOps ManagerFocus Events Commands Core Dispatch.
Local Open Scope Z_scope.

(** ** The invariant *)

(** A layout function is defined on every configuration the core can have. *)
Definition layout_fn_ok (f : LayoutFn) : Prop :=
  ∀ ws mon cfg, cfg_ok cfg → is_Some (f ws mon cfg).

Record core_ok (c : core) : Prop := {
  co_wm : wm_ok (wsman c);
  co_cfg : cfg_ok (layout_cfg c);
  co_layouts : ∀ name f, layouts c !! name = Some f → layout_fn_ok f;
  co_lua : ∀ name f, lua_layouts c !! name = Some f → layout_fn_ok f }.

(** Every object of [s] is still there, under its id; an explicitly hidden
    window stays hidden. *)
Definition wins_evolve (s s' : wm) : Prop :=
  ∀ p w, wins s !! p = Some w → ∃ w', wins s' !! p = Some w' ∧ id w' = id w ∧
    (hidden_explicitly w = true → hidden_explicitly w' = true).

Record wm_evolves (s s' : wm) : Prop := {
  we_wins : wins_evolve s s';
  we_len : length (workspaces s') = length (workspaces s);
  we_synced : synced s → synced s' }.

Definition events_prefix (q q' : option (list Event)) : Prop :=
  match q, q' with
  | None, None => True
  | Some l, Some l' => l `prefix_of` l'
  | _, _ => False
  end.

Record evolves (c c' : core) : Prop := {
  ev_wm : wm_evolves (wsman c) (wsman c');
  ev_effects : pending_backend_effects c `prefix_of` pending_backend_effects c';
  ev_events : events_prefix (event_sink c) (event_sink c');
  ev_settings : settings c' = settings c;
  ev_layouts : layouts c' = layouts c;
  ev_lua : lua_layouts c' = lua_layouts c;
  ev_keys : keybindings c' = keybindings c;
  ev_path : config_path c' = config_path c;
  ev_bound : lua_bound c' = lua_bound c;
  ev_started : runtime_started c' = runtime_started c }.

#[export] Instance wm_evolves_refl : Reflexive wm_evolves.
Proof. intros s. constructor; [|done|done]. intros p w Hw. by exists w. Qed.

#[export] Instance wm_evolves_trans : Transitive wm_evolves.
Proof.
  intros s1 s2 s3 [H1 L1 S1] [H2 L2 S2]. constructor; [|congruence|auto].
  intros p w Hw. destruct (H1 p w Hw) as (w' & Hw' & E & Hh).
  destruct (H2 p w' Hw') as (w'' & Hw'' & E' & Hh').
  exists w''. split_and!; [done|congruence|auto].
Qed.

#[export] Instance events_prefix_refl : Reflexive events_prefix.
Proof. intros [l|]; cbn; done. Qed.
#[export] Instance events_prefix_trans : Transitive events_prefix.
Proof. intros [l1|] [l2|] [l3|]; cbn; try done. intros. by etrans. Qed.

#[export] Instance evolves_refl : Reflexive evolves.
Proof. by constructor. Qed.
#[export] Instance evolves_trans : Transitive evolves.
Proof.
  intros c1 c2 c3 [] []. constructor; try congruence; by etrans.
Qed.

(** ** Predicates that survive *)

Definition stable (R : core → Prop) : Prop := ∀ c c', evolves c c' → R c → R c'.

Definition alive (p : addr) (c : core) : Prop := is_Some (wins (wsman c) !! p).
Definition ws_valid (i : Z) (c : core) : Prop := 0 ≤ i < workspace_count c.

Create HintDb safe.

Lemma stable_True : stable (λ _, True).
Proof. done. Qed.
Lemma stable_and R R' : stable R → stable R' → stable (λ c, R c ∧ R' c).
Proof. intros H1 H2 c c' He [??]. eauto. Qed.
Lemma stable_alive p : stable (alive p).
Proof. intros c c' [[Hw _ _]] [w Hp]. destruct (Hw p w Hp) as (w' & ? & _). by exists w'. Qed.
Lemma stable_ws_valid i : stable (ws_valid i).
Proof. intros c c' [[_ Hl _]]. unfold ws_valid, workspace_count, vsize. by rewrite Hl. Qed.
Lemma stable_count n : stable (λ c, workspace_count c = n).
Proof. intros c c' [[_ Hl _]]. unfold workspace_count, vsize. by rewrite Hl. Qed.
Lemma stable_const (P : Prop) : stable (λ _, P).
Proof. by intros c c' _. Qed.
#[export] Hint Resolve stable_const stable_True stable_and stable_alive stable_ws_valid stable_count : safe.

(** ** Safe computations *)

Definition safe {A} (R : core → Prop) (m : M core A) : Prop :=
  ∀ c, core_ok c → R c → wp m (λ _ c', core_ok c' ∧ evolves c c') c.

Section Rules.
Context (R : core → Prop).

Lemma safe_ret {A} (a : A) : safe R (ret a).
Proof. by intros c Hc _. Qed.

Lemma safe_bind {A B} (m : M core A) (k : A → M core B) :
  stable R → safe R m → (∀ a, safe R (k a)) → safe R (bind m k).
Proof.
  intros Hst Hm Hk c Hc HR. wp_step. eapply wp_mono; [by apply Hm|].
  cbv beta. intros a c' [Hc' He]. eapply wp_mono; [apply Hk; [done|by eapply Hst]|].
  cbv beta. intros b c'' [Hc'' He']. split; [done|]. by etrans.
Qed.

Lemma safe_weaken {A} (R' : core → Prop) (m : M core A) :
  (∀ c, R c → R' c) → safe R' m → safe R m.
Proof. intros HR Hm c Hc Hr. auto. Qed.

(** A read whose result satisfies [F]. *)
Lemma safe_gets_fact {A B} (f : core → A) (k : A → M core B) (F : A → core → Prop) :
  (∀ c, core_ok c → R c → F (f c) c) →
  (∀ a, safe (λ c, R c ∧ F a c) (k a)) → safe R (bind (gets f) k).
Proof. intros HF Hk c Hc HR. do 2 wp_step. apply Hk; auto. Qed.

Lemma safe_gets {A} (f : core → A) : safe R (gets f).
Proof. by intros c Hc _. Qed.

Lemma safe_checked {A B} (f : core → option A) (k : A → M core B) :
  (∀ c, core_ok c → R c → is_Some (f c)) →
  (∀ a, safe R (k a)) → safe R (bind (checked f) k).
Proof.
  intros Hf Hk c Hc HR. destruct (Hf c Hc HR) as [a Ha].
  wp_step. eapply wp_checked; [done|]. by apply Hk.
Qed.

Lemma safe_if {A} (b : bool) (m1 m2 : M core A) :
  (b = true → safe R m1) → (b = false → safe R m2) → safe R (if b then m1 else m2).
Proof. destruct b; auto. Qed.

Lemma safe_for_each {A} (l : list A) (body : A → M core unit) :
  stable R → (∀ a, a ∈ l → safe R (body a)) → safe R (for_each l body).
Proof.
  intros Hst Hb c Hc HR.
  apply (wp_for_each l body (λ c', core_ok c' ∧ evolves c c')); [|by split].
  intros a c1 Ha [Hc1 He]. eapply wp_mono; [apply Hb; [done..|by eapply Hst]|].
  cbv beta. intros [] c2 [Hc2 He2]. split; [done|]. by etrans.
Qed.

Lemma safe_on_wsman {A} (m : M wm A) :
  (∀ c, core_ok c → R c →
     wp m (λ _ s', wm_ok s' ∧ wm_evolves (wsman c) s') (wsman c)) →
  safe R (on_wsman m).
Proof.
  intros Hm c Hc HR. apply wp_zoom. eapply wp_mono; [by apply Hm|].
  cbv beta. intros a s' [Hs' He]. destruct Hc. split; [by constructor|]. by constructor.
Qed.

Lemma safe_deref {B} p (k : Window → M core B) :
  (∀ c, R c → alive p c) → (∀ w, safe R (k w)) → safe R (bind (deref p) k).
Proof. intros Hp. apply safe_checked. intros c _ HR. by apply Hp. Qed.

Lemma safe_set_window p (f : Window → Window) :
  (∀ c, R c → alive p c) →
  (∀ w, id (f w) = id w ∧ (hidden_explicitly w = true → hidden_explicitly (f w) = true)) →
  safe R (set_window p f).
Proof.
  intros Hp Hf. apply safe_on_wsman. intros c Hc HR. destruct (Hp c HR) as [w Hw].
  eapply wp_modify_window; [done|].
  destruct (modify_window_ok (wsman c) p w (f w)) as [Hok Hfr];
    [apply Hc|done|apply Hf|].
  split; [done|]. constructor; [|done|by apply frame_synced].
  intros q v Hq. cbn. destruct (decide (p = q)) as [<-|Hne].
  - assert (v = w) as -> by congruence. exists (f w). rewrite lookup_insert_eq. by split; [|apply Hf].
  - exists v. by rewrite lookup_insert_ne.
Qed.

Lemma safe_find_win {B} win (k : option addr → M core B) :
  safe R (k None) → (∀ p, safe (λ c, R c ∧ alive p c) (k (Some p))) →
  safe R (bind (find_win win) k).
Proof.
  intros Hn Hs c Hc HR. unfold find_win. do 2 wp_step.
  destruct (find_window_in_all (wsman c) win) as [p|] eqn:Hix; [|by apply Hn].
  apply Hs; [done|]. split; [done|].
  destruct (wok_ix _ _ _ _ _ (ok_windows _ (co_wm _ Hc)) _ _ Hix) as (w & _ & _ & Hw & _).
  by exists w.
Qed.

Lemma safe_emit e : safe R (emit_effect e).
Proof.
  intros c [] _. apply wp_modify. split; [by constructor|]. constructor; try done.
  cbn. by apply prefix_app_r.
Qed.
Lemma safe_emit_backend k w : safe R (emit_backend_effect k w).
Proof. apply safe_emit. Qed.
Lemma safe_emit_warp p : safe R (emit_warp_pointer p).
Proof. apply safe_emit. Qed.

Lemma safe_post e : safe R (post e).
Proof.
  intros c [] _. apply wp_modify. split; [by constructor|]. constructor; try done.
  cbn. destruct (event_sink c); cbn; [by apply prefix_app_r|done].
Qed.

(** An update of the state that only touches fields [evolves] does not mention. *)
Lemma safe_modify (f : core → core) :
  (∀ c, core_ok c → R c → core_ok (f c) ∧ evolves c (f c)) → safe R (modify f).
Proof. intros Hf c Hc HR. wp_step. by apply Hf. Qed.

Lemma safe_mark win bits : stable R → safe R (mark_window_dirty win bits).
Proof.
  intros Hst. apply safe_bind; [done| |intros _; apply safe_emit].
  apply safe_modify. intros c [] _. split; by constructor.
Qed.
End Rules.

(** ** Automation *)

Ltac safe_stable := solve [eauto 8 with safe].
Ltac safe_known := cbv beta; intros; tauto.

Ltac safe_step :=
  match goal with
  | |- safe _ (ret _) => apply safe_ret
  | |- safe _ (gets _) => apply safe_gets
  | |- safe _ (post _) => apply safe_post
  | |- safe _ (emit_backend_effect _ _) => apply safe_emit
  | |- safe _ (emit_warp_pointer _) => apply safe_emit
  | |- safe _ (mark_window_dirty _ _) => apply safe_mark; safe_stable
  | |- safe _ (set_window _ _) =>
      apply safe_set_window; [safe_known|intros; cbn; repeat case_match; done]
  | |- safe _ (bind (find_win _) _) => apply safe_find_win; [|intros ?]
  | |- safe _ (bind (deref _) _) => apply safe_deref; [safe_known|intros ?]
  | |- safe _ (bind _ _) => apply safe_bind; [safe_stable| |intros ?]
  | |- safe _ (if _ then _ else _) => apply safe_if; intros ?
  | |- safe _ (for_each _ _) => apply safe_for_each; [safe_stable|intros ? ?]
  | |- safe _ (match ?o with Some _ => _ | None => _ end) => destruct o
  | |- safe _ _ => solve [eauto 8 with safe]
  end.
Ltac safe_auto := repeat (cbv zeta; safe_step).

(** ** Visibility *)

(** A null check makes the window alive. *)
Lemma safe_null_check {B} R p (k : option Window → M core B) :
  safe R (k None) → (∀ w, safe (λ c, R c ∧ alive p c) (k (Some w))) →
  safe R (bind (gets (λ c, wins (wsman c) !! p)) k).
Proof.
  intros Hn Hs c Hc HR. do 2 wp_step.
  destruct (wins (wsman c) !! p) as [w|] eqn:Hw; [|by apply Hn].
  apply Hs; [done|]. split; [done|]. by exists w.
Qed.

Lemma safe_sync_window_visibility R v p : stable R → safe R (sync_window_visibility v p).
Proof.
  intros Hst. unfold sync_window_visibility. apply safe_null_check; [safe_auto|]. intros w.
  safe_auto.
Qed.
#[export] Hint Resolve safe_sync_window_visibility : safe.

Lemma length_visible_workspaces c :
  length (visible_workspaces c) = length (workspaces (wsman c)).
Proof.
  unfold visible_workspaces, workspace_count, vsize.
  assert (H : ∀ ms v, length (foldl (λ v m, if (0 <=? mon_active_ws m) &&
      (mon_active_ws m <? Z.of_nat (length (workspaces (wsman c))))
      then <[Z.to_nat (mon_active_ws m) := true]> v else v) v ms) = length v).
  { induction ms as [|m ms IH]; intros v; cbn; [done|]. rewrite IH.
    case_match; [by rewrite length_insert|done]. }
  rewrite H, length_replicate. lia.
Qed.

Lemma safe_sync_workspace_visibility R : stable R → safe R sync_workspace_visibility.
Proof.
  intros Hst. unfold sync_workspace_visibility.
  apply safe_gets_fact with (F := λ n c, workspace_count c = n); [done|]. intros n.
  apply safe_if; intros _; [safe_auto|].
  apply safe_gets_fact with (F := λ v c, vsize v = n).
  { intros c _ [_ <-]. unfold workspace_count, vsize. by rewrite length_visible_workspaces. }
  intros v. apply safe_for_each; [safe_stable|intros i Hi%elem_of_range].
  apply safe_bind; [safe_stable|safe_auto|intros ws].
  apply safe_checked.
  { intros c _ [_ Hv]. apply vget_is_Some. by rewrite Hv. }
  intros b. safe_auto.
Qed.
#[export] Hint Resolve safe_sync_workspace_visibility : safe.

(** ** Fullscreen *)

Lemma safe_pin R p ws : stable R → (∀ c, R c → alive p c) →
  safe R (pin_fullscreen_to_monitor p ws).
Proof.
  intros Hst Hp. unfold pin_fullscreen_to_monitor.
  apply safe_gets_fact with (F := λ mon c,
    monitor_of (wsman c) ws = mon); [done|].
  intros mon. apply safe_if; intros Hm; [safe_auto|].
  apply (safe_weaken _ R); [tauto|]. safe_step; [safe_auto|]. rename a into mons.
  safe_step; [safe_auto|]. apply Z.ltb_ge in Hm. apply Z.leb_gt in H.
  apply safe_checked.
  { intros c _ _. by apply vget_is_Some. }
  intros m. destruct (physical m) as [pp ps]. apply safe_deref; [done|]. intros w.
  safe_step; [|safe_auto]. safe_step; [|safe_auto].
  apply safe_set_window; [done|]. by intros.
Qed.

Lemma safe_set_workspace_mode R i m :
  (∀ c, R c → ws_valid i c) → safe R (set_workspace_mode i m).
Proof.
  intros Hv. apply safe_on_wsman. intros c Hc HR.
  destruct (valid_lookup (wsman c) i) as (k & ws & -> & Hk).
  { by apply is_ws_valid_spec, Hv. }
  wp_step. eapply wp_at_ws; [done|]. apply wp_put_ws; [by eapply lookup_lt_Some|].
  destruct (put_ws_ok (wsman c) k ws (ws <| mode := m |>) (co_wm _ Hc) Hk) as [Hok Hf];
    [done..| |].
  { by apply (wok_ws _ _ _ _ _ (ok_windows _ (co_wm _ Hc)) _ _ Hk). }
  split; [done|]. constructor; [|by apply fr_len|by apply frame_synced].
  intros p w Hw. by exists w.
Qed.

Lemma safe_lower R f p : stable R → safe R (lower_covering f p).
Proof.
  intros Hst. unfold lower_covering. apply safe_null_check; [safe_auto|]. intros w. safe_auto.
Qed.
#[export] Hint Resolve safe_lower : safe.

(** Reading the focused window of a workspace makes it alive. *)
Lemma safe_focused {B} R (g : core → Workspace) (k : option addr → M core B) :
  safe R (k None) → (∀ p, safe (λ c, R c ∧ alive p c) (k (Some p))) →
  safe R (bind (gets (λ c, ws_focused (wins (wsman c)) (g c))) k).
Proof.
  intros Hn Hs c Hc HR. do 2 wp_step.
  destruct (ws_focused _ _) as [p|] eqn:Hf; [|by apply Hn].
  apply Hs; [done|]. split; [done|]. by apply ws_focused_elem in Hf as [_ ?].
Qed.

Lemma safe_evaluate R ws : stable R → safe R (evaluate_workspace_fullscreen ws).
Proof.
  intros Hst. unfold evaluate_workspace_fullscreen.
  apply safe_gets_fact with (F := λ n c, workspace_count c = n); [done|]. intros n.
  apply safe_if; intros Hv; [safe_auto|].
  apply (safe_weaken _ (λ c, R c ∧ ws_valid ws c)).
  { intros c [? Hn]. split; [done|]. unfold ws_valid. lia. }
  safe_step; [safe_auto|]. safe_step; [safe_auto|]. safe_step.
  { repeat (safe_step; try (apply safe_set_workspace_mode; tauto)). }
  safe_step; [safe_auto|]. safe_step; [safe_auto|].
  apply safe_focused; [safe_auto|]. intros f. safe_step.
  safe_step; [safe_auto|]. safe_step; [|safe_auto].
  safe_step; [|safe_auto]. apply safe_pin; [safe_stable|]. cbv beta; tauto.
Qed.
#[export] Hint Resolve safe_evaluate : safe.

(** ** The mutators of the manager *)

Lemma wins_evolve_refl s s' : wins s' = wins s → wins_evolve s s'.
Proof. intros E p w Hw. exists w. by rewrite E. Qed.

Lemma wins_evolve_modify s s' p w w' :
  wins s !! p = Some w → wins s' = <[p := w']> (wins s) → id w' = id w →
  (hidden_explicitly w = true → hidden_explicitly w' = true) → wins_evolve s s'.
Proof.
  intros Hw E Hid Hh q v Hq. destruct (decide (p = q)) as [<-|Hne].
  - assert (v = w) as -> by congruence. exists w'. by rewrite E, lookup_insert_eq.
  - exists v. by rewrite E, lookup_insert_ne.
Qed.

Lemma frame_evolves s s' : window_frame s s' → wins s' = wins s → wm_evolves s s'.
Proof.
  intros Hf Hw. constructor; [by apply wins_evolve_refl|by apply fr_len|by apply frame_synced].
Qed.

Definition wm_safe {A} (m : M wm A) : Prop :=
  ∀ s, wm_ok s → wp m (λ _ s', wm_ok s' ∧ wm_evolves s s') s.

Lemma safe_wm {A} R (m : M wm A) : wm_safe m → safe R (on_wsman m).
Proof. intros Hm. apply safe_on_wsman. intros c Hc _. apply Hm, Hc. Qed.
#[export] Hint Resolve safe_wm : safe.

Lemma wm_safe_focus_window win : wm_safe (focus_window win).
Proof.
  intros s Hok. eapply wp_mono; [by apply focus_window_spec|].
  cbv beta. intros r s' (Hok' & Hsy & Hff & Hr & Hno & Hyes). split; [done|].
  constructor; [|apply Hff|done].
  destruct (window_workspace s !! win) as [i|] eqn:Hwo.
  - destruct (Hyes i eq_refl) as (k & ws & j & p & w & _ & _ & _ & Hw & _ & E & _).
    by eapply wins_evolve_modify; [exact Hw|exact E|..].
  - apply wins_evolve_refl. rewrite Hno; [done|]. by rewrite Hr.
Qed.

Lemma wm_safe_move_cursor step :
  (∀ h ws, cursor_ok ws → cursor_ok (step h ws)) →
  (∀ h ws, step h ws = ws <| current := current (step h ws) |>) → wm_safe (move_cursor step).
Proof.
  intros H1 H2 s Hok. eapply wp_mono; [by apply move_cursor_spec|].
  cbv beta. intros r s' (Hok' & Hf & Hw & _). split; [done|by apply frame_evolves].
Qed.
Lemma wm_safe_focus_next : wm_safe focus_next.
Proof. apply wm_safe_move_cursor; [apply cursor_ok_focus_next|apply ws_focus_next_fields]. Qed.
Lemma wm_safe_focus_prev : wm_safe focus_prev.
Proof. apply wm_safe_move_cursor; [apply cursor_ok_focus_prev|apply ws_focus_prev_fields]. Qed.

Lemma wm_safe_zoom : wm_safe zoom_focused.
Proof.
  intros s Hok. eapply wp_mono; [by apply zoom_focused_spec|].
  cbv beta. intros r s' (Hok' & Hf & Hw & _). split; [done|by apply frame_evolves].
Qed.

Lemma wm_safe_switch_to ws aliases hint compose : wm_safe (switch_to ws aliases hint compose).
Proof.
  intros s Hok.
  assert (Hno : is_ws_valid s ws = false ∨ monitors s = [] →
    wp (switch_to ws aliases hint compose) (λ _ s', wm_ok s' ∧ wm_evolves s s') s).
  { intros H. unfold wp. by rewrite switch_to_false. }
  destruct (is_ws_valid s ws) eqn:Hv; [|by apply Hno; left].
  destruct (decide (monitors s = [])) as [He|Hne]; [by apply Hno; right|].
  eapply wp_mono; [by apply switch_to_spec|].
  cbv beta. intros r s' (_ & Hok' & Hsy & _ & Hw & Hws & _). split; [done|].
  constructor; [by apply wins_evolve_refl|by rewrite Hws|done].
Qed.

Lemma wm_safe_remove_all win : wm_safe (remove_window_from_all win).
Proof.
  intros s Hok. eapply wp_mono; [apply remove_window_from_all_spec, Hok|].
  cbv beta. intros r s' (Hok' & Hf & Hw & _).
  split; [by eapply frame_ok|by apply frame_evolves].
Qed.

Lemma wm_safe_modify (f : wm → wm) :
  (∀ s, wm_ok s → wm_ok (f s) ∧ wm_evolves s (f s)) → wm_safe (modify f).
Proof. intros Hf s Hok. wp_step. by apply Hf. Qed.

Lemma wm_evolves_intro s s' :
  wins s' = wins s → workspaces s' = workspaces s → (synced s → synced s') → wm_evolves s s'.
Proof. intros Hw Hl Hs. constructor; [by apply wins_evolve_refl|by rewrite Hl|done]. Qed.

Lemma wm_safe_set_focused mon : wm_safe (modify (λ s, set_focused_monitor s mon)).
Proof.
  apply wm_safe_modify. intros s Hok. destruct (set_focused_monitor_ok s mon Hok).
  split; [done|]. apply wm_evolves_intro; [..|done];
    unfold set_focused_monitor; by destruct (is_mon_valid s mon).
Qed.

Lemma wm_safe_focus_at_point p : wm_safe (λ s, Some (focus_monitor_at_point p s)).
Proof.
  intros s Hok. destruct (focus_monitor_at_point_ok s p Hok) as [H1 H2]. unfold wp.
  destruct (focus_monitor_at_point p s) as [b s'] eqn:E. split; [done|].
  apply wm_evolves_intro; [..|done]; unfold focus_monitor_at_point in E;
    by destruct (_ <? 0); injection E as _ <-.
Qed.

Lemma wm_safe_adjust mon e d : wm_safe (modify (adjust_monitor_inset mon e d)).
Proof.
  apply wm_safe_modify. intros s Hok. destruct (adjust_monitor_inset_ok mon e d s Hok).
  split; [done|]. apply wm_evolves_intro; [..|done]; unfold adjust_monitor_inset;
    destruct (vget (monitors s) mon); try done; by destruct (d =? 0).
Qed.

(** Goals about fields that rebuilding the pools leaves alone. *)
Ltac rebuild_fields :=
  match goal with
  | |- context [rebuild_pools_from_owner ?a ?b ?c] =>
      let H := fresh in
      pose proof (rebuild_frame a b c) as H; cbv zeta in H;
      destruct H as (? & ? & ? & ? & ? & ? & ? & _);
      set (rebuild_pools_from_owner a b c) in *
  end;
  unfold sync_monitors_active_ws; cbn; rewrite select_valid_fields; cbn.

Lemma set_monitors_fields mons s :
  wins (set_monitors mons s) = wins s ∧ workspaces (set_monitors mons s) = workspaces s ∧
  window_index (set_monitors mons s) = window_index s ∧
  window_workspace (set_monitors mons s) = window_workspace s.
Proof.
  unfold set_monitors. cbv zeta. destruct (foldl _ _ _) as [pp pa].
  rebuild_fields. split_and!; repeat case_match; done.
Qed.

Lemma assign_workspaces_fields al cp s :
  wins (assign_workspaces al cp s) = wins s ∧
  workspaces (assign_workspaces al cp s) = workspaces s ∧
  window_index (assign_workspaces al cp s) = window_index s ∧
  window_workspace (assign_workspaces al cp s) = window_workspace s.
Proof.
  unfold assign_workspaces. cbv zeta. destruct (_ =? 0); [done|]. rebuild_fields. done.
Qed.

Lemma wm_safe_set_monitors mons : wm_safe (modify (set_monitors mons)).
Proof.
  apply wm_safe_modify. intros s Hok. destruct (set_monitors_fields mons s) as (? & ? & _).
  destruct (set_monitors_ok mons s) as [H1 H2]; [apply Hok..|].
  split; [done|]. by apply wm_evolves_intro.
Qed.

Lemma wm_safe_assign al cp : wm_safe (modify (assign_workspaces al cp)).
Proof.
  apply wm_safe_modify. intros s Hok. destruct (assign_workspaces_fields al cp s) as (? & ? & _).
  destruct (assign_workspaces_ok al cp s) as [H1 H2]; [apply Hok..|].
  split; [done|]. by apply wm_evolves_intro.
Qed.

Lemma wm_safe_switch_local mon idx : wm_safe (switch_local_index mon idx).
Proof.
  intros s Hok. eapply wp_mono; [by apply switch_local_index_ok|].
  cbv beta. intros r s' (Hok' & Hs & Hw & Hws & _). split; [done|by apply wm_evolves_intro].
Qed.

Lemma wm_safe_create win ws : win ≠ NO_WINDOW → wm_safe (create_window win ws).
Proof.
  intros Hwin s Hok. destruct (decide (workspaces s = [])) as [He|Hne].
  - (* no workspace: the object is made and forgotten *)
    unfold create_window. do 2 wp_step. case_match; [|by wp_step].
    wp_step. apply wp_alloc. wp_step. unfold add_window. do 2 wp_step.
    cbn. rewrite lookup_insert_eq.
    replace (vsize (workspaces s) =? 0) with true by (by rewrite He). do 2 wp_step.
    assert (Hfr : ∀ q v, wins s !! q = Some v → next_addr s ≠ q).
    { intros q v Hq <-. assert (next_addr s < next_addr s)%positive; [|lia].
      eapply (wok_fresh _ _ _ _ _ (ok_windows _ Hok)). by exists v. }
    split.
    + destruct Hok as [Hw Hp Hf Hfa]. constructor; try done. exact (windows_ok_alloc _ _ _ _ _ Hw _).
    + constructor; [|done|done]. intros q v Hq. exists v. cbn.
      rewrite lookup_insert_ne by (by eapply Hfr). done.
  - eapply wp_mono; [by apply create_window_spec|].
    cbv beta. intros r s' (Hok' & Hf & Hw & _). split; [done|].
    constructor; [|by apply fr_len|by apply frame_synced].
    intros p w Hp. exists w. split_and!; [by apply Hw|done|done].
Qed.

#[export] Hint Resolve wm_safe_focus_window wm_safe_focus_next wm_safe_focus_prev wm_safe_zoom
  wm_safe_switch_to wm_safe_remove_all wm_safe_set_focused wm_safe_focus_at_point wm_safe_adjust
  wm_safe_set_monitors wm_safe_assign wm_safe_switch_local wm_safe_create : safe.

(** ** Focus and arranging *)

Section CoreCommands.
Context (R : core → Prop) (Hst : stable R).

Lemma safe_emit_focus_changed win : safe R (emit_focus_changed win).
Proof using Hst. unfold emit_focus_changed. safe_auto. Qed.

Lemma safe_focus win : safe R (focus win).
Proof using Hst.
  unfold focus. repeat (cbv zeta; first [apply safe_emit_focus_changed | safe_step]).
Qed.

Lemma safe_set_geometry win p s : safe R (dispatch_SetWindowGeometry win p s).
Proof using Hst. unfold dispatch_SetWindowGeometry. safe_auto. Qed.
Lemma safe_set_position win p : safe R (dispatch_SetWindowPosition win p).
Proof using Hst. unfold dispatch_SetWindowPosition. safe_auto. Qed.
Lemma safe_set_size win s : safe R (dispatch_SetWindowSize win s).
Proof using Hst. unfold dispatch_SetWindowSize. safe_auto. Qed.
Lemma safe_set_border win b : safe R (dispatch_SetWindowBorderWidth win b).
Proof using Hst. unfold dispatch_SetWindowBorderWidth. safe_auto. Qed.
Lemma safe_sync_configure win p s b :
  safe R (dispatch_SyncWindowFromConfigureNotify win p s b).
Proof using Hst. unfold dispatch_SyncWindowFromConfigureNotify. safe_auto. Qed.
End CoreCommands.
#[export] Hint Resolve safe_emit_focus_changed safe_focus safe_set_geometry safe_set_position
  safe_set_size safe_set_border safe_sync_configure : safe.

Lemma safe_place R pl : stable R → safe R (place_window pl).
Proof. intros Hst. unfold place_window. safe_auto. Qed.

Lemma safe_floating_border R p : stable R → safe R (arrange_floating_border p).
Proof.
  intros Hst. unfold arrange_floating_border. apply safe_null_check; intros; safe_auto.
Qed.
#[export] Hint Resolve safe_place safe_floating_border : safe.

(** A read whose result satisfies a fact that does not depend on the state. *)
Lemma safe_gets_pure {A B} R (f : core → A) (k : A → M core B) (P : A → Prop) :
  (∀ c, core_ok c → P (f c)) → (∀ a, P a → safe R (k a)) → safe R (bind (gets f) k).
Proof. intros HP Hk c Hc HR. do 2 wp_step. apply Hk; auto. Qed.

Definition selected_ok (sel : selected_layout) : Prop :=
  match sel with
  | NoLayout => True
  | CppLayout f | LuaLayout f => layout_fn_ok f
  end.

Lemma select_layout_ok c : core_ok c → selected_ok (select_layout c).
Proof.
  intros [_ _ H1 H2]. unfold select_layout.
  destruct (layouts c !! _) eqn:E1; [by eapply H1|].
  destruct (lua_layouts c !! _) eqn:E2; [by eapply H2|done].
Qed.

Lemma safe_arrange_monitor R mon : stable R → safe R (arrange_monitor mon).
Proof.
  intros Hst. unfold arrange_monitor. safe_step; [safe_auto|].
  safe_step; [safe_auto|]. rename a into ws. safe_step; [safe_auto|]. rename a into tiled.
  apply safe_gets_pure with (P := cfg_ok); [by intros c [? [? ?]]|].
  intros cfg Hcfg. apply safe_gets_pure with (P := selected_ok); [apply select_layout_ok|].
  intros sel Hsel. safe_step; [safe_auto|]. cbv zeta.
  destruct sel as [|f|f]; [safe_auto|..]; cbn in Hsel.
  - apply safe_checked; [by intros; apply Hsel|]. intros pls. safe_auto.
  - safe_step; [safe_auto|]. apply safe_checked; [by intros; apply Hsel|]. intros pls. safe_auto.
Qed.
#[export] Hint Resolve safe_arrange_monitor : safe.

Lemma safe_arrange R : stable R → safe R arrange.
Proof.
  intros Hst. unfold arrange. safe_step; [safe_auto|]. destruct a; safe_auto.
Qed.
#[export] Hint Resolve safe_arrange : safe.

Lemma safe_reconcile R : stable R → safe R reconcile.
Proof. intros Hst. unfold reconcile. safe_auto. Qed.
#[export] Hint Resolve safe_reconcile : safe.

(** ** The commands *)

Lemma safe_with_window R win k :
  (∀ p, safe (λ c, R c ∧ alive p c) (k p)) → safe R (with_window win k).
Proof. intros Hk. unfold with_window. apply safe_find_win; [apply safe_ret|done]. Qed.

Lemma safe_assign_window R win f :
  stable R → (∀ w, id (f w) = id w ∧ (hidden_explicitly w = true → hidden_explicitly (f w) = true)) →
  safe R (assign_window win f).
Proof.
  intros Hst Hf. apply safe_with_window. intros p. safe_step; [|safe_auto].
  apply safe_set_window; [safe_known|done].
Qed.

(** [move_window_to], of the window the index gives. *)
Lemma move_window_safe c ws p win :
  core_ok c → find_window_in_all (wsman c) win = Some p →
  wp (move_window_to ws p) (λ _ s', wm_ok s' ∧ wm_evolves (wsman c) s') (wsman c).
Proof.
  intros Hc Hix. pose proof (co_wm _ Hc) as Hok.
  destruct (wok_ix _ _ _ _ _ (ok_windows _ Hok) _ _ Hix) as (w & _ & _ & Hw & Hid & _).
  destruct (is_ws_valid (wsman c) ws) eqn:Hv.
  - eapply wp_mono; [apply (move_window_to_spec _ ws p w (ok_windows _ Hok) Hw)|].
    + by rewrite Hid.
    + done.
    + cbv beta. intros _ s' (Hok' & Hf & Hw' & _).
      split; [by eapply frame_ok|by apply frame_evolves].
  - unfold wp. by rewrite move_window_to_invalid.
Qed.

(** A lookup followed at once by the move. *)
Lemma safe_find_move R win ws k1 k2 :
  stable R → safe R k1 →
  (∀ p, safe (λ c, R c ∧ alive p c) (k2 p)) →
  safe R (o <- find_win win ;;
          match o with
          | None => k1
          | Some p => on_wsman (move_window_to ws p) ;; k2 p
          end : M core bool).
Proof.
  intros Hst H1 H2 c Hc HR. unfold find_win. do 2 wp_step.
  destruct (find_window_in_all (wsman c) win) as [p|] eqn:Hix; [|by apply H1].
  assert (Hp : alive p c).
  { destruct (wok_ix _ _ _ _ _ (ok_windows _ (co_wm _ Hc)) _ _ Hix) as (w & _ & _ & Hw & _).
    by exists w. }
  wp_step. apply wp_zoom. eapply wp_mono; [by eapply move_window_safe|].
  cbv beta. intros [] s' [Hs' He]. set (c1 := c <| wsman := s' |>).
  assert (Hc1 : core_ok c1) by (destruct Hc; by constructor).
  assert (He1 : evolves c c1) by (by constructor).
  eapply wp_mono; [apply (H2 p c1 Hc1)|].
  - split; [by eapply Hst|by eapply stable_alive].
  - cbv beta. intros b c' [Hc' He']. split; [done|by etrans].
Qed.

Lemma safe_EnsureWindow R win ws : stable R → safe R (dispatch_EnsureWindow win ws).
Proof.
  intros Hst. unfold dispatch_EnsureWindow. apply safe_if; intros Hw; [safe_auto|].
  apply Z.eqb_neq in Hw. intros c Hc HR. unfold find_win. do 2 wp_step.
  destruct (find_window_in_all (wsman c) win) as [p|] eqn:Hix.
  - do 3 wp_step. eapply wp_mono with (Q := λ _ c', core_ok c' ∧ evolves c c').
    + wp_step; [|by wp_step]. apply wp_zoom.
      eapply wp_mono; [by eapply move_window_safe|].
      cbv beta. intros [] s' [Hs' He]. destruct Hc. split; by constructor.
    + cbv beta. intros _ c' H. by wp_step.
  - eapply safe_bind with (R := R); [done| |intros ?; apply safe_ret|done|done].
    by apply safe_wm, wm_safe_create.
Qed.

Lemma safe_AssignWindowWorkspace R win ws :
  stable R → safe R (dispatch_AssignWindowWorkspace win ws).
Proof.
  intros Hst. unfold dispatch_AssignWindowWorkspace, with_window.
  apply (safe_find_move R win ws (ret false) (λ p,
    post (WindowAssignedToWorkspace win ws) ;; ret true)); [done|safe_auto|intros p; safe_auto].
Qed.

Lemma safe_MoveWindowToWorkspace R win ws :
  stable R → safe R (dispatch_MoveWindowToWorkspace win ws).
Proof.
  intros Hst. unfold dispatch_MoveWindowToWorkspace, with_window.
  safe_step; [safe_auto|]. rename a into n. safe_step; [safe_auto|].
  intros c Hc HR. unfold find_win. do 2 wp_step.
  destruct (find_window_in_all (wsman c) win) as [p|] eqn:Hix; [|by wp_step].
  destruct (wok_ix _ _ _ _ _ (ok_windows _ (co_wm _ Hc)) _ _ Hix) as (w & _ & _ & Hw & _).
  do 3 wp_step. eapply wp_checked; [done|]. cbv zeta. wp_step. apply wp_zoom.
  eapply wp_mono; [by eapply move_window_safe|].
  cbv beta. intros [] s' [Hs' He]. set (c1 := c <| wsman := s' |>).
  assert (Hc1 : core_ok c1) by (destruct Hc; by constructor).
  assert (He1 : evolves c c1) by (by constructor).
  assert (Hp1 : alive p c1) by (eapply stable_alive; [exact He1|by exists w]).
  match goal with |- wp ?m _ _ => assert (Hm : safe (alive p) m) end.
  { repeat (cbv zeta; first [ apply safe_pin; [safe_stable|safe_known] | safe_step ]). }
  eapply wp_mono; [by apply Hm|]. cbv beta. intros b c' [Hc' He']. split; [done|by etrans].
Qed.
#[export] Hint Resolve safe_EnsureWindow safe_AssignWindowWorkspace safe_MoveWindowToWorkspace
  : safe.

Ltac safe_window := apply safe_with_window; intros ?; safe_auto.
Ltac safe_field :=
  apply safe_assign_window; [safe_stable|intros; cbn; done].

Section Dispatch.
Context (R : core → Prop) (Hst : stable R).

Lemma safe_FocusWindow w : safe R (dispatch_FocusWindow w).
Proof using Hst. unfold dispatch_FocusWindow. safe_auto. Qed.

Lemma safe_SwitchWorkspace ws mon : safe R (dispatch_SwitchWorkspace ws mon).
Proof using Hst. unfold dispatch_SwitchWorkspace. safe_auto. Qed.

Lemma safe_current_focused {B} (k : option addr → M core B) :
  safe R (k None) → (∀ p, safe (λ c, R c ∧ alive p c) (k (Some p))) →
  safe R (bind current_focused k).
Proof using Hst. apply safe_focused. Qed.

Lemma safe_MoveFocused ws : safe R (dispatch_MoveFocusedWindowToWorkspace ws).
Proof using Hst.
  unfold dispatch_MoveFocusedWindowToWorkspace. apply safe_current_focused; intros; safe_auto.
Qed.

Lemma safe_MapWindow w : safe R (dispatch_MapWindow w).
Proof using Hst. safe_window. Qed.
Lemma safe_UnmapWindow w : safe R (dispatch_UnmapWindow w).
Proof using Hst. safe_window. Qed.
Lemma safe_HideWindow w : safe R (dispatch_HideWindow w).
Proof using Hst. safe_window. Qed.
Lemma safe_CloseWindow w : safe R (dispatch_CloseWindow w).
Proof using Hst. safe_window. Qed.
Lemma safe_consume w : safe R (consume_window_suppress_focus_once w).
Proof using Hst. safe_window. Qed.
Lemma safe_update_window w : safe R (update_window w).
Proof using Hst. unfold update_window. safe_auto. Qed.

Lemma safe_Fullscreen w e g : safe R (dispatch_SetWindowFullscreen w e g).
Proof using Hst.
  apply safe_with_window. intros p. safe_step; [safe_auto|]. safe_step; [safe_auto|].
  safe_step.
  - unfold enable_fullscreen. repeat (cbv zeta; first [
      match goal with |- safe _ (let '(_, _) := physical ?m in _) => destruct (physical m) end
    | safe_step ]).
  - unfold disable_fullscreen. safe_auto.
Qed.

Lemma safe_Borderless w b : safe R (dispatch_SetWindowBorderless w b).
Proof using Hst. safe_window. Qed.

Lemma safe_Mapped w b : safe R (dispatch_SetWindowMapped w b).
Proof using Hst. safe_field. Qed.
Lemma safe_HiddenByWorkspace w b : safe R (dispatch_SetWindowHiddenByWorkspace w b).
Proof using Hst. safe_field. Qed.
Lemma safe_SuppressFocus w b : safe R (dispatch_SetWindowSuppressFocusOnce w b).
Proof using Hst. safe_field. Qed.
Lemma safe_Floating w b : safe R (dispatch_SetWindowFloating w b).
Proof using Hst. safe_field. Qed.
Lemma safe_ToggleFloating w : safe R (dispatch_ToggleWindowFloating w).
Proof using Hst. safe_field. Qed.
End Dispatch.
#[export] Hint Resolve safe_FocusWindow safe_SwitchWorkspace safe_MoveFocused safe_MapWindow
  safe_UnmapWindow safe_HideWindow safe_CloseWindow safe_Fullscreen safe_Borderless safe_Mapped
  safe_HiddenByWorkspace safe_SuppressFocus safe_Floating safe_ToggleFloating : safe.

Section Dispatch2.
Context (R : core → Prop) (Hst : stable R).

Lemma safe_Metadata md : safe R (dispatch_SetWindowMetadata md).
Proof using Hst. safe_window. Qed.

Lemma safe_RemoveAll w : safe R (dispatch_RemoveWindowFromAllWorkspaces w).
Proof using Hst.
  unfold dispatch_RemoveWindowFromAllWorkspaces. repeat (first [
    match goal with |- safe _ (modify _) =>
      apply safe_modify; intros c [] _; split; by constructor end
  | safe_step ]).
Qed.

Lemma safe_focus_stepped step : wm_safe step → safe R (focus_stepped step).
Proof using Hst. intros Hs. unfold focus_stepped. safe_auto. Qed.

Lemma safe_FocusMonitor n : safe R (dispatch_FocusMonitor n).
Proof using Hst. unfold dispatch_FocusMonitor. safe_auto. Qed.

Lemma safe_MoveToMonitor w n : safe R (dispatch_MoveWindowToMonitor w n).
Proof using Hst.
  unfold dispatch_MoveWindowToMonitor. repeat first [
    apply safe_current_focused; [done|..|intros ?] | safe_step ].
Qed.

Lemma safe_ToggleFocused : safe R dispatch_ToggleFocusedWindowFloating.
Proof using Hst.
  unfold dispatch_ToggleFocusedWindowFloating.
  apply safe_current_focused; [done|..]; intros; safe_auto.
Qed.

Lemma safe_LocalIndex i : safe R (dispatch_SwitchWorkspaceLocalIndex i).
Proof using Hst. unfold dispatch_SwitchWorkspaceLocalIndex. safe_auto. Qed.

Lemma safe_Topology mons : safe R (dispatch_ApplyMonitorTopology mons).
Proof using Hst. unfold dispatch_ApplyMonitorTopology. safe_auto. Qed.

Lemma safe_SetLayout name : safe R (dispatch_SetLayout name).
Proof using Hst.
  unfold dispatch_SetLayout. safe_step; [safe_auto|]. safe_step; [safe_auto|].
  safe_step; [|safe_auto]. apply safe_modify. intros c [] _. split; by constructor.
Qed.

Lemma safe_set_master f :
  (∀ v, is_finite v = true → is_nan (f v) = false) → safe R (set_master_factor f).
Proof using Hst.
  intros Hf. unfold set_master_factor. safe_step; [|safe_auto].
  apply safe_modify. intros c [? [? ?] ? ?] _. split; constructor; try done.
  split; [done|]. by apply f32_clamp_finite, Hf.
Qed.

Lemma safe_IncMaster d : safe R (dispatch_IncMaster d).
Proof using Hst.
  unfold dispatch_IncMaster. safe_step; [|safe_auto].
  apply safe_modify. intros c [? [? ?] ? ?] _. split; [|by constructor].
  constructor; try done. split; [cbn; lia|done].
Qed.

Lemma safe_Zoom : safe R dispatch_Zoom.
Proof using Hst. unfold dispatch_Zoom. safe_auto. Qed.
Lemma safe_ReconcileNow : safe R dispatch_ReconcileNow.
Proof using Hst. unfold dispatch_ReconcileNow. safe_auto. Qed.
End Dispatch2.
#[export] Hint Resolve safe_Metadata safe_RemoveAll safe_focus_stepped safe_FocusMonitor
  safe_MoveToMonitor safe_ToggleFocused safe_LocalIndex safe_Topology safe_SetLayout
  safe_IncMaster safe_Zoom safe_ReconcileNow : safe.

Lemma safe_reserve_on R e px i : (∀ c, R c → 0 ≤ i < vsize (monitors (wsman c))) →
  safe R (reserve_on e px i).
Proof.
  intros Hi. unfold reserve_on. apply safe_checked.
  - intros c _ HR. by apply vget_is_Some, Hi.
  - intros m. safe_auto.
Qed.

(** [ReserveMonitorArea] changes only the monitors, and not how many there are. *)
Lemma safe_ReserveMonitorArea mon e px : safe (λ _, True) (dispatch_ReserveMonitorArea mon e px).
Proof.
  assert (Hlen : ∀ i d s, length (monitors (adjust_monitor_inset i e d s)) = length (monitors s)).
  { intros i d s. unfold adjust_monitor_inset. destruct (vget _ _); [|done].
    destruct (d =? 0); [done|]. cbn. by rewrite length_insert. }
  assert (Hone : ∀ i c, core_ok c → 0 ≤ i < vsize (monitors (wsman c)) →
    wp (reserve_on e px i) (λ _ c', (core_ok c' ∧ evolves c c') ∧
      vsize (monitors (wsman c')) = vsize (monitors (wsman c))) c).
  { intros i c Hc Hi. apply wp_and.
    - by apply (safe_reserve_on (λ c, 0 ≤ i < vsize (monitors (wsman c)))).
    - unfold reserve_on. destruct (vget_is_Some _ _ Hi) as [m Hm].
      wp_step. eapply wp_checked; [done|]. cbv zeta. wp_step; [|by wp_step].
      apply wp_zoom. wp_step. cbn. unfold vsize. by rewrite Hlen. }
  intros c Hc _. unfold dispatch_ReserveMonitorArea. do 3 wp_step.
  set (n := vsize (monitors (wsman c))).
  eapply wp_mono with (Q := λ _ c', core_ok c' ∧ evolves c c').
  - destruct (Z.ltb_spec mon 0).
    + eapply wp_mono; [apply wp_for_each with (I := λ c', (core_ok c' ∧ evolves c c') ∧
        vsize (monitors (wsman c')) = n)|].
      * intros i c1 Hi%elem_of_range [[Hc1 He1] Hn1]. rewrite <- Hn1 in Hi.
        eapply wp_mono; [by apply Hone|]. cbv beta. intros _ c2 [[Hc2 He2] Hn2].
        split_and!; [done|by etrans|congruence].
      * done.
      * by intros _ c1 [? _].
    + destruct (Z.ltb_spec mon n); [|by wp_step].
      eapply wp_mono; [by apply Hone|]. by intros _ c1 [? _].
  - cbv beta. intros _ c1 H. by wp_step.
Qed.

(** ** The reducer *)

(** A command the reducer is defined on: its numbers are numbers. *)
Definition atom_ok (cmd : CommandAtom) : Prop :=
  match cmd with SetMasterFactor v => is_nan v = false | _ => True end.
Definition composite_ok (cmd : CommandComposite) : Prop :=
  match cmd with AdjustMasterFactor d => is_nan d = false | _ => True end.

Lemma safe_dispatch_atom cmd : atom_ok cmd → safe (λ _, True) (dispatch_atom cmd).
Proof.
  intros Hcmd.
  destruct cmd; cbn [dispatch_atom]; try (eauto with safe; fail); [apply safe_ReserveMonitorArea|].
  by apply safe_set_master.
Qed.

Lemma safe_dispatch_composite cmd : composite_ok cmd → safe (λ _, True) (dispatch_composite cmd).
Proof.
  intros Hcmd. destruct cmd; cbn [dispatch_composite]; try (eauto 6 with safe; fail).
  apply safe_set_master; [done|]. intros v Hv. by apply f32_add_not_nan.
Qed.
