(* ===== verification/CoreRun.v ===== *)
(** * Runs of the core

    The calls the runtime and the backend make of the core, as one type; a run
    is a list of them.  From a fresh core, after [Core::init], no run reaches
    undefined behaviour, and the invariant holds in every state on the way. *)

From S2P Require Import Prelude Geometry Float32 Layout Workspace WorkspaceManager WindowIndex ManagerInv.
From S2P Require Import Pools ManagerOps ManagerFocus Events Commands Core Dispatch.
From S2P Require Import CoreSafe.
Local Open Scope Z_scope.

Inductive core_call :=
| CallAtom (cmd : CommandAtom)
| CallComposite (cmd : CommandComposite)
| CallFocus (window : Z)
| CallFocusMonitorAtPoint (p : Vec2)
| CallArrange
| CallApplySettings (s : CoreSettings)
| CallTakeWindowFlush (window : Z)
| CallTakeBackendEffects
| CallConsumeSuppressFocusOnce (window : Z)
| CallUpdateWindow (window : Z)
| CallRegisterLuaLayout (name : string) (fn : LayoutFn)
| CallClearReloadable
| CallRestore (s : CoreReloadState)
| CallMarkStarted (b : bool)
| CallSetSink (sink : option (list Event)).

Definition run_call (call : core_call) : M core unit :=
  match call with
  | CallAtom cmd => dispatch_atom cmd ;; ret tt
  | CallComposite cmd => dispatch_composite cmd ;; ret tt
  | CallFocus w => focus w
  | CallFocusMonitorAtPoint p => core_focus_monitor_at_point p ;; ret tt
  | CallArrange => arrange
  | CallApplySettings s => apply_settings s
  | CallTakeWindowFlush w => take_window_flush w ;; ret tt
  | CallTakeBackendEffects => take_backend_effects ;; ret tt
  | CallConsumeSuppressFocusOnce w => consume_window_suppress_focus_once w ;; ret tt
  | CallUpdateWindow w => update_window w
  | CallRegisterLuaLayout name fn => modify (register_lua_layout name fn)
  | CallClearReloadable => modify clear_reloadable_runtime_state
  | CallRestore s => modify (restore_reload_state s)
  | CallMarkStarted b => modify (mark_runtime_started b)
  | CallSetSink sink => modify (set_event_sink sink)
  end.

Definition run_calls (calls : list core_call) : M core unit := for_each calls run_call.

(** What the callers guarantee: [validate_settings] refuses settings without a
    workspace, a snapshot was taken from a core, a Lua callback returns, and no
    command carries a NaN. *)
Definition call_ok (call : core_call) : Prop :=
  match call with
  | CallAtom cmd => atom_ok cmd
  | CallComposite cmd => composite_ok cmd
  | CallApplySettings s => workspace_defs s ≠ []
  | CallRegisterLuaLayout _ fn => layout_fn_ok fn
  | CallRestore s => cfg_ok (rs_layout_cfg s)
  | _ => True
  end.

(** ** Initialisation *)

Lemma run_tile_ok : layout_fn_ok run_tile.
Proof.
  intros ws mon cfg [H Hf]. unfold run_tile. rewrite (proj2 (Z.ltb_ge _ 1)) by lia.
  rewrite Hf. cbn [negb]. rewrite !andb_false_r. by eexists.
Qed.

Lemma empty_wm_ok fac :
  (∀ f win w, fac = Some f → f win = Some w → id w = win) →
  wm_ok (empty_wm <| window_factory := fac |>).
Proof.
  intros Hfac. constructor.
  - apply windows_ok_empty; [|done]. intros p [w Hw]. cbn in Hw.
    by rewrite lookup_empty in Hw.
  - by constructor.
  - by left.
  - exact Hfac.
Qed.

(** A core before [init]: anything may have been configured, but no window. *)
Definition configured (fac : option (Z → option Window)) (st : CoreSettings) : core :=
  set_window_factory fac (new_core <| settings := st |>).

Lemma core_init_ok c mons :
  core_ok c → wp (core_init mons) (λ _ c', core_ok c' ∧ synced (wsman c')) c.
Proof.
  intros [Hw Hn Hl Hlua]. unfold core_init, on_wsman. do 2 wp_step. set (c1 := c <| layouts ::= _ |>).
  assert (Hl1 : ∀ name f, layouts c1 !! name = Some f → layout_fn_ok f).
  { intros name f. cbn. rewrite !lookup_insert_Some.
    intros [[_ <-]|[_ [[_ <-]|[_ [[_ <-]|[_ H]]]]]]; [by eexists..|apply run_tile_ok|by eapply Hl]. }
  wp_step. eapply wp_mono with (Q := λ _ c2, wm_ok (wsman c2) ∧
    layouts c2 = layouts c1 ∧ lua_layouts c2 = lua_layouts c ∧ layout_cfg c2 = layout_cfg c).
  - wp_step; [by wp_step|]. do 2 wp_step. cbn. split_and!; try done.
    apply set_monitors_ok; apply Hw.
  - cbv beta. intros [] c2 (Hw2 & E1 & E2 & E3). do 4 wp_step.
    destruct (init_from_defs_ok (workspace_defs (settings c2)) (monitor_aliases (settings c2))
      (monitor_compose (settings c2)) (wsman c2)) as [H1 H2]; [apply Hw2..|].
    split; [|done]. constructor; cbn; [done|by rewrite E3|by rewrite E1|by rewrite E2].
Qed.

(** ** Runs *)

Lemma core_ok_wsman c s : core_ok c → wm_ok s → core_ok (c <| wsman := s |>).
Proof. intros [] ?. by constructor. Qed.

Lemma apply_settings_ok c st :
  core_ok c → workspace_defs st ≠ [] →
  wp (apply_settings st) (λ _ c', core_ok c' ∧ settings c' = st ∧
    ws_def <$> workspaces (wsman c') = workspace_defs st ∧
    wins (wsman c') = wins (wsman c) ∧ window_index (wsman c') = window_index (wsman c) ∧
    (runtime_started c = true → synced (wsman c'))) c.
Proof.
  intros Hc Hne. unfold apply_settings, on_wsman. do 4 wp_step.
  eapply wp_mono; [apply (update_workspace_defs_spec _ _ (co_wm _ Hc) Hne)|].
  cbv beta. intros [] s (Hs & Hdef & _ & Hw & Hix & _). do 2 wp_step. cbn [runtime_started].
  destruct Hc as [Hc1 Hc2 Hc3 Hc4].
  wp_step.
  - do 2 wp_step. destruct (assign_workspaces_ok (monitor_aliases st) (monitor_compose st) s)
      as [H1 H2]; [apply Hs..|].
    destruct (assign_workspaces_fields (monitor_aliases st) (monitor_compose st) s) as (E1 & E2 & E3 & E4).
    split_and!; [by constructor|done|cbn; congruence..|done].
  - wp_step. cbn in *. split_and!; [by constructor|congruence..].
Qed.

Lemma run_call_ok call c :
  core_ok c → call_ok call → wp (run_call call) (λ _ c', core_ok c') c.
Proof.
  intros Hc Hok.
  assert (Hsafe : ∀ (m : M core unit), safe (λ _, True) m → wp m (λ _ c', core_ok c') c).
  { intros m Hm. eapply wp_mono; [by apply Hm|]. by intros _ c' [? _]. }
  assert (Hskip : ∀ A (m : M core A), safe (λ _, True) m → wp (m ;; ret tt) (λ _ c', core_ok c') c).
  { intros A m Hm. apply Hsafe. apply safe_bind; [done|done|]. intros. apply safe_ret. }
  destruct call; cbn [run_call call_ok] in *.
  - by apply Hskip, safe_dispatch_atom.
  - by apply Hskip, safe_dispatch_composite.
  - by apply Hsafe, safe_focus.
  - apply Hskip. unfold core_focus_monitor_at_point. safe_auto.
  - by apply Hsafe, safe_arrange.
  - eapply wp_mono; [by apply apply_settings_ok|]. by intros _ c' [? _].
  - unfold take_window_flush. do 3 wp_step. destruct (pending_window_flushes c !! window).
    + do 4 wp_step. destruct Hc. by constructor.
    + by do 2 wp_step.
  - unfold take_backend_effects. do 7 wp_step. destruct Hc. by constructor.
  - by apply Hskip, safe_consume.
  - by apply Hsafe, safe_update_window.
  - wp_step. destruct Hc. constructor; try done.
    intros n f. cbn. rewrite lookup_insert_Some. intros [[_ <-]|[_ ?]]; eauto.
  - wp_step. destruct Hc. by constructor.
  - wp_step. destruct Hc. by constructor.
  - wp_step. destruct Hc. by constructor.
  - wp_step. destruct Hc. by constructor.
Qed.

Lemma run_calls_ok calls c :
  core_ok c → Forall call_ok calls → wp (run_calls calls) (λ _ c', core_ok c') c.
Proof.
  intros Hc Hcalls. apply wp_for_each; [|done].
  intros call c' Hin Hc'. apply run_call_ok; [done|]. by eapply Forall_forall.
Qed.
