(* ===== verification/CoreFrame.v ===== *)
(** * What the steps of a command leave alone

    [frames WE KE EE m]: whenever [m] returns, it has changed windows only as
    [WE] allows and workspaces only in their mode, has emitted effects of the
    kinds [KE] only and posted events in [EE] only, and nothing else. *)

From S2P Require Import Prelude Geometry Float32 Layout Workspace WorkspaceManager WindowIndex ManagerInv.
From S2P Require Import Pools ManagerOps ManagerFocus Events Commands Core Dispatch.
Local Open Scope Z_scope.

Definition same_mode (ws : Workspace) : Workspace := ws <| mode := ModeNormal |>.

(** The manager up to the attributes of the windows and the modes. *)
Record wm_frame (WE : Window → Window → Prop) (s s' : wm) : Prop := {
  wf_wins : ∀ p, option_Forall2 WE (wins s !! p) (wins s' !! p);
  wf_next : next_addr s' = next_addr s;
  wf_factory : window_factory s' = window_factory s;
  wf_ws : same_mode <$> workspaces s' = same_mode <$> workspaces s;
  wf_monitors : monitors s' = monitors s;
  wf_owner : ws_owner s' = ws_owner s;
  wf_pools : monitor_pools s' = monitor_pools s;
  wf_active : monitor_active_local s' = monitor_active_local s;
  wf_parked : parked_pools s' = parked_pools s;
  wf_parked_active : parked_active_ws s' = parked_active_ws s;
  wf_ix : window_index s' = window_index s;
  wf_wo : window_workspace s' = window_workspace s;
  wf_focused : focused_monitor s' = focused_monitor s }.

Definition events_grow (EE : Event → Prop) (q q' : option (list Event)) : Prop :=
  match q, q' with
  | None, None => True
  | Some l, Some l' => ∃ e, l' = l ++ e ∧ Forall EE e
  | _, _ => False
  end.

Record core_frame (WE : Window → Window → Prop) (KE : BackendEffectKind → Prop)
    (EE : Event → Prop) (c c' : core) : Prop := {
  cf_wm : wm_frame WE (wsman c) (wsman c');
  cf_effects : ∃ l, pending_backend_effects c' = pending_backend_effects c ++ l ∧
    Forall (λ e, KE (eff_kind e)) l;
  cf_events : events_grow EE (event_sink c) (event_sink c');
  cf_settings : settings c' = settings c;
  cf_layout : active_layout c' = active_layout c;
  cf_cfg : layout_cfg c' = layout_cfg c }.

Definition frames {A} (WE : Window → Window → Prop) (KE : BackendEffectKind → Prop)
    (EE : Event → Prop) (m : M core A) : Prop :=
  ∀ c a c', m c = Some (a, c') → core_frame WE KE EE c c'.

Section Frames.
Context (WE : Window → Window → Prop) (KE : BackendEffectKind → Prop) (EE : Event → Prop).
Context `{!PreOrder WE}.

Lemma wm_frame_refl s : wm_frame WE s s.
Proof using All. by constructor. Qed.

Lemma wm_frame_trans s1 s2 s3 : wm_frame WE s1 s2 → wm_frame WE s2 s3 → wm_frame WE s1 s3.
Proof using All.
  intros [] []. constructor; try congruence. intros p. etrans; eauto.
Qed.

Lemma events_grow_refl q : events_grow EE q q.
Proof using All. destruct q as [l|]; [|done]. exists []. by rewrite app_nil_r. Qed.

Lemma events_grow_trans q1 q2 q3 :
  events_grow EE q1 q2 → events_grow EE q2 q3 → events_grow EE q1 q3.
Proof using All.
  destruct q1 as [l1|], q2 as [l2|], q3 as [l3|]; cbn; try done.
  intros (e1 & -> & H1) (e2 & -> & H2). exists (e1 ++ e2). rewrite app_assoc.
  split; [done|by apply Forall_app].
Qed.

Lemma core_frame_refl c : core_frame WE KE EE c c.
Proof using All.
  apply Build_core_frame; [apply wm_frame_refl| |apply events_grow_refl|done..].
  exists []. by rewrite app_nil_r.
Qed.

Lemma core_frame_trans c1 c2 c3 :
  core_frame WE KE EE c1 c2 → core_frame WE KE EE c2 c3 → core_frame WE KE EE c1 c3.
Proof using All.
  intros [F1 (l1 & E1 & K1) G1 ???] [F2 (l2 & E2 & K2) G2 ???]. constructor; try congruence.
  - by eapply wm_frame_trans.
  - exists (l1 ++ l2). rewrite E2, E1, app_assoc. split; [done|by apply Forall_app].
  - by eapply events_grow_trans.
Qed.

Lemma frames_ret {A} (a : A) : frames WE KE EE (ret a).
Proof using All. intros c b c' [= <- <-]. apply core_frame_refl. Qed.

Lemma frames_gets {A} (f : core → A) : frames WE KE EE (gets f).
Proof using All. intros c b c' [= <- <-]. apply core_frame_refl. Qed.

Lemma frames_checked {A} (f : core → option A) : frames WE KE EE (checked f).
Proof using All.
  intros c b c'. unfold checked. destruct (f c); [|done]. intros [= <- <-].
  apply core_frame_refl.
Qed.

Lemma frames_bind {A B} (m : M core A) (k : A → M core B) :
  frames WE KE EE m → (∀ a, frames WE KE EE (k a)) → frames WE KE EE (bind m k).
Proof using All.
  intros Hm Hk c b c'. unfold bind. destruct (m c) as [[a c1]|] eqn:E; [|done].
  intros H. eapply core_frame_trans; [by eapply Hm|by eapply Hk].
Qed.

Lemma frames_if {A} (b : bool) (m1 m2 : M core A) :
  frames WE KE EE m1 → frames WE KE EE m2 → frames WE KE EE (if b then m1 else m2).
Proof. by destruct b. Qed.

Lemma frames_for_each {A} (l : list A) (body : A → M core unit) :
  (∀ a, frames WE KE EE (body a)) → frames WE KE EE (for_each l body).
Proof using All.
  intros Hb. induction l as [|a l IH]; [apply frames_ret|].
  apply frames_bind; [apply Hb|done].
Qed.

Lemma frames_emit e : KE (eff_kind e) → frames WE KE EE (emit_effect e).
Proof using All.
  intros Hk c a c' [= <- <-].
  apply Build_core_frame; [apply wm_frame_refl| |apply events_grow_refl|done..].
  exists [e]. by split; [|constructor].
Qed.

Lemma frames_post e : EE e → frames WE KE EE (post e).
Proof using All.
  intros He c a c' [= <- <-]. apply Build_core_frame; [apply wm_frame_refl|..|done|done|done].
  - exists []. by rewrite app_nil_r.
  - cbn. destruct (event_sink c) as [l|]; [|done]. exists [e]. by split; [|constructor].
Qed.

Lemma frames_mark win bits : KE EffUpdateWindow → frames WE KE EE (mark_window_dirty win bits).
Proof using All.
  intros Hk. apply frames_bind; [|intros _; by apply frames_emit].
  intros c a c' [= <- <-].
  apply Build_core_frame; [apply wm_frame_refl| |apply events_grow_refl|done..].
  exists []. by rewrite app_nil_r.
Qed.

Lemma frames_modify_window p f :
  (∀ w, WE w (f w)) → ∀ s a s', modify_window p f s = Some (a, s') → wm_frame WE s s'.
Proof using All.
  intros Hf s a s'. unfold modify_window, try_modify.
  destruct (wins s !! p) as [w|] eqn:Hw; [|done]. intros [= <- <-].
  constructor; try done. intros q. cbn. destruct (decide (p = q)) as [<-|Hne].
  - rewrite lookup_insert_eq, Hw. by constructor.
  - rewrite lookup_insert_ne by done. by destruct (wins s !! q); constructor.
Qed.

Lemma frames_on_wsman {A} (m : M wm A) :
  (∀ s a s', m s = Some (a, s') → wm_frame WE s s') → frames WE KE EE (on_wsman m).
Proof using All.
  intros Hm c a c'. unfold on_wsman, zoom.
  destruct (m (wsman c)) as [[b s']|] eqn:E; [|done]. intros [= <- <-].
  apply Build_core_frame; [by eapply Hm| |apply events_grow_refl|done..].
  exists []. by rewrite app_nil_r.
Qed.

Lemma frames_set_window p f : (∀ w, WE w (f w)) → frames WE KE EE (set_window p f).
Proof using All. intros Hf. apply frames_on_wsman. by apply frames_modify_window. Qed.

Lemma frames_set_mode i m : frames WE KE EE (set_workspace_mode i m).
Proof using All.
  apply frames_on_wsman. intros s a s'. unfold at_ws, put_ws, bind, checked, try_modify.
  destruct (vget (workspaces s) i) as [ws|] eqn:Hws; [|done].
  destruct (vset _ _ _) as [l|] eqn:Hl; [|done]. intros [= <- <-].
  apply vget_lookup in Hws as (k & -> & Hk).
  rewrite vset_of_nat in Hl by (by eapply lookup_lt_Some). injection Hl as <-.
  constructor; try done.
  cbn. rewrite list_fmap_insert. apply list_insert_id.
  rewrite list_lookup_fmap, Hk. by destruct ws.
Qed.
End Frames.

(** The effects of restacking, and of showing and hiding windows. *)
Definition stacking_kind (k : BackendEffectKind) : Prop :=
  k = EffRaiseWindow ∨ k = EffLowerWindow ∨ k = EffUpdateWindow.
Definition visibility_kind (k : BackendEffectKind) : Prop :=
  k = EffMapWindow ∨ k = EffUnmapWindow.

Ltac frames_kind := cbn; unfold stacking_kind, visibility_kind; tauto.

Ltac frames_step :=
  match goal with
  | |- frames _ _ _ (ret _) => apply frames_ret; [exact _]
  | |- frames _ _ _ (gets _) => apply frames_gets; [exact _]
  | |- frames _ _ _ (checked _) => apply frames_checked; [exact _]
  | |- frames _ _ _ (deref _) => apply frames_checked; [exact _]
  | |- frames _ _ _ (find_win _) => apply frames_gets; [exact _]
  | |- frames _ _ _ (emit_backend_effect _ _) => apply frames_emit; [exact _|frames_kind]
  | |- frames _ _ _ (post _) => apply frames_post; [exact _|frames_kind]
  | |- frames _ _ _ (mark_window_dirty _ _) => apply frames_mark; [exact _|frames_kind]
  | |- frames _ _ _ (set_window _ _) => apply frames_set_window; [exact _|intros [] ; reflexivity]
  | |- frames _ _ _ (set_workspace_mode _ _) => apply frames_set_mode; [exact _]
  | |- frames _ _ _ (bind _ _) => apply frames_bind; [exact _| |intros ?]
  | |- frames _ _ _ (if _ then _ else _) => apply frames_if
  | |- frames _ _ _ (for_each _ _) => apply frames_for_each; [exact _|intros ?]
  | |- frames _ _ _ (match ?o with Some _ => _ | None => _ end) => destruct o
  | |- frames _ _ _ (match ?o with NoLayout => _ | _ => _ end) => destruct o
  | |- frames _ _ _ (let '(_, _) := ?o in _) => destruct o
  | |- frames _ _ _ _ => solve [eauto with frames]
  end.
Ltac frames_auto := repeat (cbv zeta; frames_step).
Create HintDb frames.

(** ** Geometry *)

Definition geometry_only (w w' : Window) : Prop :=
  w' = w <| pos := pos w' |> <| size := size w' |> <| border_width := border_width w' |>.

#[export] Instance geometry_only_preorder : PreOrder geometry_only.
Proof.
  split; [by intros []|]. intros [] [] []. unfold geometry_only, upd. cbn.
  intros [=] [=]. by subst.
Qed.

(** [arrange] moves, resizes and re-borders windows, and asks the backend to
    update them: nothing else. *)
Definition arrange_frame : core → core → Prop :=
  core_frame geometry_only (λ k, k = EffUpdateWindow) (λ _, False).
Abbreviation arrange_frames :=
  (frames geometry_only (λ k, k = EffUpdateWindow) (λ _, False)).

Lemma frames_set_geometry win p s : arrange_frames (dispatch_SetWindowGeometry win p s).
Proof. unfold dispatch_SetWindowGeometry. frames_auto. Qed.
Lemma frames_set_border win b : arrange_frames (dispatch_SetWindowBorderWidth win b).
Proof. unfold dispatch_SetWindowBorderWidth. frames_auto. Qed.
#[export] Hint Resolve frames_set_geometry frames_set_border : frames.
Lemma frames_place pl : arrange_frames (place_window pl).
Proof. unfold place_window. frames_auto. Qed.
Lemma frames_floating_border p : arrange_frames (arrange_floating_border p).
Proof. unfold arrange_floating_border. frames_auto. Qed.
#[export] Hint Resolve frames_place frames_floating_border : frames.
Lemma frames_arrange_monitor m : arrange_frames (arrange_monitor m).
Proof. unfold arrange_monitor. frames_auto. Qed.
#[export] Hint Resolve frames_arrange_monitor : frames.
Lemma frames_arrange : arrange_frames arrange.
Proof. unfold arrange. frames_auto. Qed.

(** ** Stacking *)

(** The evaluation of a workspace's fullscreen state pins a window and restacks:
    effects that raise, lower or update, and [RaiseDocks]. *)
Definition stacking_frame : core → core → Prop :=
  core_frame geometry_only stacking_kind (λ e, e = RaiseDocks).
Abbreviation stacking_frames :=
  (frames geometry_only stacking_kind (λ e, e = RaiseDocks)).

Lemma frames_pin p ws : stacking_frames (pin_fullscreen_to_monitor p ws).
Proof. unfold pin_fullscreen_to_monitor. frames_auto. Qed.
#[export] Hint Resolve frames_pin : frames.
Lemma frames_lower f p : stacking_frames (lower_covering f p).
Proof. unfold lower_covering. frames_auto. Qed.
#[export] Hint Resolve frames_lower : frames.
Lemma frames_evaluate ws : stacking_frames (evaluate_workspace_fullscreen ws).
Proof. unfold evaluate_workspace_fullscreen. frames_auto. Qed.

(** ** Visibility *)

Definition visibility_only (w w' : Window) : Prop :=
  w' = w <| hidden_by_workspace := hidden_by_workspace w' |> <| mapped := mapped w' |>.

#[export] Instance visibility_only_preorder : PreOrder visibility_only.
Proof.
  split; [by intros []|]. intros [] [] []. unfold visibility_only, upd. cbn.
  intros [=] [=]. by subst.
Qed.

Abbreviation visibility_frames := (frames visibility_only visibility_kind (λ _, False)).

Lemma frames_sync_window v p : visibility_frames (sync_window_visibility v p).
Proof. unfold sync_window_visibility. frames_auto. Qed.
#[export] Hint Resolve frames_sync_window : frames.
Lemma frames_sync : visibility_frames sync_workspace_visibility.
Proof. unfold sync_workspace_visibility. frames_auto. Qed.

(** ** What depends on the frame only *)

Section FrameFacts.
Context (WE : Window → Window → Prop) (s s' : wm) (Hf : wm_frame WE s s').

Lemma wf_length : length (workspaces s') = length (workspaces s).
Proof using All.
  rewrite <- (length_fmap same_mode), (wf_ws _ _ _ Hf). apply length_fmap.
Qed.

Lemma wf_active_ws i : active_ws_of_monitor s' i = active_ws_of_monitor s i.
Proof using All.
  unfold active_ws_of_monitor. by rewrite (wf_pools _ _ _ Hf), (wf_active _ _ _ Hf).
Qed.

Lemma wf_workspace_of_window win : workspace_of_window s' win = workspace_of_window s win.
Proof using All.
  unfold workspace_of_window, is_ws_valid, vsize. by rewrite (wf_wo _ _ _ Hf), wf_length.
Qed.

Lemma wf_monitor_of i : monitor_of s' i = monitor_of s i.
Proof using All.
  apply monitor_of_frame; [apply Hf|apply wf_length|by rewrite (wf_monitors _ _ _ Hf)].
Qed.

Lemma wf_workspace k ws :
  workspaces s !! k = Some ws →
  ∃ ws', workspaces s' !! k = Some ws' ∧ windows ws' = windows ws ∧
    current ws' = current ws ∧ ws_id ws' = ws_id ws.
Proof using All.
  intros Hk. assert (H : (same_mode <$> workspaces s') !! k = Some (same_mode ws)).
  { by rewrite (wf_ws _ _ _ Hf), list_lookup_fmap, Hk. }
  rewrite list_lookup_fmap in H. apply fmap_Some in H as (ws' & Hk' & E).
  exists ws'. injection E. intros. by split_and!.
Qed.

Lemma wf_holds f p :
  (∀ w w', WE w w' → f w' = f w) → holds (wins s') f p = holds (wins s) f p.
Proof using All.
  intros H. unfold holds. destruct (wf_wins _ _ _ Hf p); [by apply H|done].
Qed.

Lemma wf_win_id p :
  (∀ w w', WE w w' → id w' = id w) → win_id (wins s') p = win_id (wins s) p.
Proof using All.
  intros H. destruct p as [p|]; [|done]. unfold win_id.
  destruct (wf_wins _ _ _ Hf p); [by apply H|done].
Qed.
End FrameFacts.

Lemma geometry_visible w w' : geometry_only w w' → is_visible w' = is_visible w.
Proof. by intros ->. Qed.
Lemma geometry_id w w' : geometry_only w w' → id w' = id w.
Proof. by intros ->. Qed.

Lemma find_ext {A} (f g : A → bool) l : (∀ a, f a = g a) → find f l = find g l.
Proof. intros H. induction l as [|a l IH]; [done|]. cbn. by rewrite H, IH. Qed.

(** The focused window depends on the order, the cursor and who is visible. *)
Lemma ws_focused_frame h h' ws ws' :
  (∀ p, holds h' is_visible p = holds h is_visible p) →
  (∀ p, is_Some (h' !! p) ↔ is_Some (h !! p)) →
  windows ws' = windows ws → current ws' = current ws → ws_focused h' ws' = ws_focused h ws.
Proof.
  intros Hv Hd Hw Hc. unfold ws_focused. rewrite Hw, Hc.
  assert (Ha : any_visible h' ws' = any_visible h ws).
  { unfold any_visible. rewrite Hw. clear Hw. induction (windows ws) as [|p l IH]; [done|].
    cbn. by rewrite Hv, IH. }
  rewrite Ha.
  assert (He : ∀ p, holds h' (λ w, negb (any_visible h ws) || is_visible w) p =
                    holds h (λ w, negb (any_visible h ws) || is_visible w) p).
  { intros p. specialize (Hv p). specialize (Hd p). unfold holds in *.
    destruct (h' !! p) as [w'|], (h !! p) as [w|]; [by rewrite Hv| | |done].
    - by destruct (proj1 Hd ltac:(by eexists)).
    - by destruct (proj2 Hd ltac:(by eexists)). }
  cbv zeta. rewrite (find_ext _ _ _ He). destruct (vget _ _); [|done]. by rewrite He.
Qed.

(** ** The tables of windows *)

(** Which windows there are and where: only moves, creation and removal change it. *)
Definition same_tables (s s' : wm) : Prop :=
  window_index s' = window_index s ∧ window_workspace s' = window_workspace s ∧
  length (workspaces s') = length (workspaces s) ∧ window_factory s' = window_factory s.
#[export] Instance same_tables_preorder : PreOrder same_tables.
Proof. split; [done|]. intros s1 s2 s3 (?&?&?&?) (?&?&?&?). unfold same_tables. split_and!; congruence. Qed.

Definition core_tables (c c' : core) : Prop := same_tables (wsman c) (wsman c').
#[export] Instance core_tables_preorder : PreOrder core_tables.
Proof. split; [by intros c|]. intros c1 c2 c3. unfold core_tables. by etrans. Qed.

Lemma frames_tables {A} WE KE EE (m : M core A) :
  frames WE KE EE m → preserves core_tables m.
Proof.
  intros Hm c a c' E. destruct (Hm c a c' E) as [Hf _ _ _ _ _].
  split_and!; [apply Hf|apply Hf|by eapply wf_length|apply Hf].
Qed.

Lemma on_wsman_tables {A} (m : M wm A) :
  preserves same_tables m → preserves core_tables (on_wsman m).
Proof.
  intros Hm c a c'. unfold on_wsman, zoom.
  destruct (m (wsman c)) as [[b s']|] eqn:E; [|done]. intros [= _ <-]. by eapply Hm.
Qed.

Lemma put_ws_tables i ws : preserves same_tables (put_ws i ws).
Proof.
  apply preserves_try_modify; [exact _|]. intros s s'. unfold vset.
  case_decide; [|done]. intros [= <-]. unfold same_tables. cbn. by rewrite length_insert.
Qed.
Lemma put_active_tables mon li : preserves same_tables (put_active_local mon li).
Proof.
  apply preserves_try_modify; [exact _|]. intros s s'. unfold vset.
  case_decide; [|done]. by intros [= <-].
Qed.
Lemma modify_window_tables p f : preserves same_tables (modify_window p f).
Proof.
  apply preserves_try_modify; [exact _|]. intros s s'. destruct (wins s !! p); [|done].
  by intros [= <-].
Qed.

Create HintDb tables.
#[export] Hint Resolve put_ws_tables put_active_tables modify_window_tables on_wsman_tables
  frames_tables frames_sync frames_arrange frames_evaluate frames_pin : tables.

Ltac tables_step :=
  match goal with
  | |- PreOrder _ => exact _
  | |- preserves _ (ret _) => apply preserves_ret; try exact _
  | |- preserves _ (gets _) => apply preserves_gets; try exact _
  | |- preserves _ (checked _) => apply preserves_checked; try exact _
  | |- preserves _ (deref _) => apply preserves_checked; try exact _
  | |- preserves _ (at_ws _) => apply preserves_checked; try exact _
  | |- preserves _ (bind _ _) => apply preserves_bind; try exact _; [|intros ?]
  | |- preserves _ (if _ then _ else _) => apply preserves_if
  | |- preserves _ (for_each _ _) => apply preserves_for_each; try exact _; intros ?
  | |- preserves _ (modify _) => apply preserves_modify; try exact _; by intros
  | |- preserves _ (match ?o with Some _ => _ | None => _ end) => destruct o
  | |- preserves _ (match ?o with (_, _) => _ end) => destruct o
  | |- preserves _ (emit_backend_effect _ _) => apply preserves_modify; try exact _; done
  | |- preserves _ (post _) => apply preserves_modify; try exact _; done
  | |- preserves _ _ => solve [eauto with tables]
  end.
Ltac tables_auto := repeat (cbv zeta; tables_step).

Lemma focus_window_tables win : preserves same_tables (focus_window win).
Proof. unfold focus_window. tables_auto. Qed.
#[export] Hint Resolve focus_window_tables : tables.

Lemma focus_tables win : preserves core_tables (focus win).
Proof. unfold focus, emit_focus_changed. tables_auto. Qed.
#[export] Hint Resolve focus_tables : tables.
Lemma reconcile_tables : preserves core_tables dispatch_ReconcileNow.
Proof. unfold dispatch_ReconcileNow. tables_auto. Qed.
