(* ===== verification/CoreFocus.v ===== *)
(** * Focus, the single source of truth, and visibility

    [Core::focus] is the only writer of the focus.  Each call produces exactly
    one focus effect and one [FocusChanged] event, for the same window, and
    leaves the workspace manager reporting that window as the focused one. *)

From S2P Require Import Prelude Geometry Float32 Layout Workspace WorkspaceManager WindowIndex ManagerInv.
From S2P Require Import Pools ManagerOps ManagerFocus Events Commands Core Dispatch CoreSafe.
From S2P Require Import CoreRun CoreFrame.
Local Open Scope Z_scope.

(** ** The target of [focus] *)

(** The window [focus win] ends on: the one asked for, or the candidate of the
    current workspace, when it is visible; otherwise none. *)
Definition focus_target (s : wm) (win : Z) : Z :=
  let w := if win =? NO_WINDOW then focus_candidate s else win in
  if negb (w =? NO_WINDOW) && negb (focusable s w) then NO_WINDOW else w.

Lemma focusable_indexed s win :
  wm_windows_ok s → win ≠ NO_WINDOW → focusable s win = true →
  ∃ i p w, window_workspace s !! win = Some i ∧ window_index s !! win = Some p ∧
    wins s !! p = Some w ∧ is_visible w = true ∧ id w = win.
Proof.
  intros Hok Hne Hf. unfold focusable, find_window in Hf.
  rewrite (proj2 (Z.eqb_neq _ _) Hne) in Hf. cbn in Hf. unfold find_window_in_all in Hf.
  destruct (window_index s !! win) as [p|] eqn:Hix; [|done].
  destruct (wok_ix _ _ _ _ _ Hok _ _ Hix) as (w & i & _ & Hw & Hid & Hwo & _).
  unfold holds in Hf. rewrite Hw in Hf. by exists (Z.of_nat i), p, w.
Qed.

Lemma focused_id_frame s s' :
  wm_frame geometry_only s s' → focused_window_id s' = focused_window_id s.
Proof.
  intros Hf. unfold focused_window_id, get_focus_state. cbn.
  rewrite (wf_focused _ _ _ Hf), (wf_active_ws _ _ _ Hf).
  destruct (vget (workspaces s) _) as [ws|] eqn:Hws.
  - apply vget_lookup in Hws as (k & Ek & Hk). rewrite Ek, vget_of_nat.
    destruct (wf_workspace _ _ _ Hf k ws Hk) as (ws' & -> & Hw & Hc & _).
    rewrite (ws_focused_frame (wins s) (wins s') ws ws'); [| | |done|done].
    + apply (wf_win_id _ _ _ Hf). apply geometry_id.
    + intros p. apply (wf_holds _ _ _ Hf). apply geometry_visible.
    + intros p. destruct (wf_wins _ _ _ Hf p); [by split|done].
  - rewrite (proj2 (vget_None _ _)); [done|]. apply vget_None in Hws.
    unfold vsize in *. by rewrite (wf_length _ _ _ Hf).
Qed.

(** After [focus_window] of a visible window on an owned workspace, the derived
    focus is that window. *)
Lemma focus_window_focused s win i p w :
  wm_ok s → window_workspace s !! win = Some i → window_index s !! win = Some p →
  wins s !! p = Some w → is_visible w = true → 0 ≤ monitor_of s i →
  wp (focus_window win) (λ r s', r = true ∧ focused_window_id s' = win ∧
    focused_monitor s' = monitor_of s i) s.
Proof.
  intros Hok Hwo Hix Hw Hv Hmon. eapply wp_mono; [by apply focus_window_spec|].
  cbv beta. intros r s' (Hok' & _ & Hff & Hr & _ & Hyes). rewrite Hwo in Hr.
  destruct (Hyes i Hwo) as (k & ws & j & q & v & -> & Hk & Hj & Hq & Hid & Ew & Ews & Hact).
  destruct (Hact Hmon) as (Hfm & Hac & _). split; [done|]. split; [|done].
  assert (q = p) as ->.
  { destruct (wok_win _ _ _ _ _ (ok_windows _ Hok) k ws q Hk) as (u & Hu & _ & Hx & _).
    - by eapply list_elem_of_lookup_2.
    - assert (u = v) as -> by congruence. rewrite Hid in Hx. congruence. }
  assert (v = w) as -> by congruence.
  unfold focused_window_id, get_focus_state. cbn. rewrite Hfm, Hac, vget_of_nat, Ews.
  rewrite list_lookup_insert_eq by (by eapply lookup_lt_Some).
  assert (Hw' : wins s' !! p = Some (w <| urgent := false |>))
    by (by rewrite Ew, lookup_insert_eq).
  rewrite (ws_focused_cursor _ _ p (w <| urgent := false |>)); cbn; [by rewrite Hw'| |done|done].
  by rewrite vget_of_nat.
Qed.

(** ** The theorem *)

Definition focus_effect (t : Z) : BackendEffect :=
  mkEffect (if t =? NO_WINDOW then EffFocusRoot else EffFocusWindow) t (mkVec2 0 0).

(** The effects and events of a call of [focus] that ends on [t]. *)
Definition focus_output (t : Z) (c c' : core) : Prop :=
  (∃ l, pending_backend_effects c' = pending_backend_effects c ++ focus_effect t :: l ∧
     Forall (λ e, stacking_kind (eff_kind e)) l) ∧
  match event_sink c with
  | None => event_sink c' = None
  | Some q => ∃ ev, event_sink c' = Some (q ++ FocusChanged t :: ev) ∧
                    Forall (λ e, e = RaiseDocks) ev
  end.

Lemma focus_output_frame t c c1 c2 :
  pending_backend_effects c1 = pending_backend_effects c ++ [focus_effect t] →
  event_sink c1 = (λ q, q ++ [FocusChanged t]) <$> event_sink c →
  stacking_frame c1 c2 → focus_output t c c2.
Proof.
  intros He Hq [_ (l & El & Kl) Hev _ _ _]. rewrite He in El. split.
  - exists l. split; [|done]. by rewrite El, <- app_assoc.
  - rewrite Hq in Hev. destruct (event_sink c) as [q|]; cbn in Hev;
      destruct (event_sink c2) as [q2|]; try done.
    destruct Hev as (e & -> & Ke). exists e. by rewrite <- app_assoc.
Qed.

Lemma stacking_frame_refl c : stacking_frame c c.
Proof. apply core_frame_refl. exact _. Qed.

Lemma evaluate_spec c ws :
  core_ok c → wp (evaluate_workspace_fullscreen ws) (λ _ c', core_ok c' ∧ evolves c c' ∧
    stacking_frame c c') c.
Proof.
  intros Hc. pose proof (safe_evaluate (λ _, True) ws stable_True c Hc I) as H.
  unfold wp in *. destruct (evaluate_workspace_fullscreen ws c) as [[[] c']|] eqn:E; [|done].
  split_and!; [apply H..|]. by eapply frames_evaluate.
Qed.

Lemma emit_focus_changed_spec t c :
  core_ok c → wp (emit_focus_changed t) (λ _ c', core_ok c' ∧ ∃ c1,
    c1 = c <| event_sink ::= fmap (λ q, q ++ [FocusChanged t]) |> ∧ stacking_frame c1 c') c.
Proof.
  intros Hc. unfold emit_focus_changed. wp_step. unfold post at 1. wp_step.
  set (c1 := c <| event_sink ::= _ |>).
  assert (Hc1 : core_ok c1) by (destruct Hc; by constructor).
  assert (Hdone : core_ok c1 ∧ ∃ c2, c2 = c1 ∧ stacking_frame c2 c1).
  { split; [done|]. exists c1. split; [done|]. apply stacking_frame_refl. }
  wp_step; [|by wp_step]. do 2 wp_step. wp_step; [|by wp_step].
  eapply wp_mono; [by apply evaluate_spec|]. cbv beta. intros _ c' (Hc' & _ & Hf).
  split; [done|]. by exists c1.
Qed.

Lemma focus_spec c win :
  core_ok c →
  wp (focus win) (λ _ c', let t := focus_target (wsman c) win in
    core_ok c' ∧ focus_output t c c' ∧
    (t ≠ NO_WINDOW → 0 ≤ monitor_of (wsman c) (workspace_of_window (wsman c) t) →
     focused_window_id (wsman c') = t)) c.
Proof.
  intros Hc. pose proof (co_wm _ Hc) as Hok. unfold focus. do 4 wp_step.
  change (if negb _ && negb _ then NO_WINDOW else _) with (focus_target (wsman c) win).
  set (t := focus_target (wsman c) win). destruct (Z.eqb_spec t NO_WINDOW) as [E|E]; cbn [negb].
  - do 2 wp_step. rewrite E. change (NO_WINDOW =? NO_WINDOW) with true. cbn [negb].
    unfold emit_backend_effect, emit_effect, emit_focus_changed, post.
    change (NO_WINDOW =? NO_WINDOW) with true. cbn [negb]. wp_steps. cbv zeta. split; [destruct Hc; by constructor|].
    split; [|done]. eapply focus_output_frame; [..|apply stacking_frame_refl]; done.
  - assert (Hf : focusable (wsman c) t = true).
    { subst t. unfold focus_target in *. cbv zeta in *. destruct (negb _ && negb _) eqn:Hb; [done|].
      apply andb_false_iff in Hb as [Hb|Hb]; [|by apply negb_false_iff].
      apply negb_false_iff, Z.eqb_eq in Hb. done. }
    destruct (focusable_indexed _ _ (ok_windows _ Hok) E Hf) as (i & p & w & Hwo & Hix & Hw & Hv & Hid).
    do 2 wp_step. unfold on_wsman. wp_step.
    eapply wp_mono; [apply wp_and; [by apply focus_window_spec|apply wp_and;
      [by apply wm_safe_focus_window|]]|].
    { instantiate (1 := λ r s', 0 ≤ monitor_of (wsman c) i → focused_window_id s' = t).
      destruct (decide (0 ≤ monitor_of (wsman c) i)) as [Hm|Hm].
      - eapply wp_mono; [by eapply focus_window_focused|]. by intros r s' (_ & ? & _).
      - eapply wp_mono; [by apply wm_safe_focus_window|]. by intros r s' _ ?. }
    cbv beta. intros r s' ((Hok' & _ & Hff & Hr & _) & [_ He] & Hfoc).
    rewrite Hwo in Hr. rewrite bool_decide_true in Hr by (by eexists). subst r. wp_step.
    rewrite (proj2 (Z.eqb_neq _ _) E). cbn [negb]. wp_step.
    unfold emit_backend_effect, emit_effect. wp_step.
    set (c1 := c <| wsman := s' |> <| pending_backend_effects ::= _ |>).
    assert (Hc1 : core_ok c1) by (destruct Hc; by constructor).
    eapply wp_mono; [by apply emit_focus_changed_spec|].
    cbv beta. intros [] c' (Hc' & c2 & -> & Hfr). cbv zeta. split; [done|]. split.
    + eapply focus_output_frame; [| |exact Hfr]; [|done]. cbn. unfold focus_effect.
      by rewrite (proj2 (Z.eqb_neq _ _) E).
    + intros _ Hm. rewrite (focused_id_frame _ _ (cf_wm _ _ _ _ _ Hfr)). cbn. apply Hfoc.
      unfold workspace_of_window in Hm.
      rewrite (proj2 (Z.eqb_neq _ _) E), Hwo, (windows_ok_wo_valid _ _ _ (ok_windows _ Hok) Hwo) in Hm.
      done.
Qed.

(** ** [sync_workspace_visibility]

    A window is hidden by its workspace exactly when no monitor shows the
    workspace; the backend is told of each change, once, and a second call does
    nothing. *)

(** What the loop body does to one window, and what it emits. *)
Definition sync_window (v : bool) (w : Window) : Window :=
  if v then
    if hidden_by_workspace w then
      if hidden_explicitly w then w <| hidden_by_workspace := false |>
      else w <| hidden_by_workspace := false |> <| mapped := true |>
    else w
  else w <| hidden_by_workspace := true |>.

Definition sync_effects (v : bool) (w : Window) : list BackendEffect :=
  if v then
    if hidden_by_workspace w && negb (hidden_explicitly w)
    then [mkEffect EffMapWindow (id w) (mkVec2 0 0)] else []
  else if is_visible w then [mkEffect EffUnmapWindow (id w) (mkVec2 0 0)] else [].

Definition in_sync (v : bool) (w : Window) : Prop := hidden_by_workspace w = negb v.

Lemma sync_window_in_sync v w : in_sync v (sync_window v w).
Proof. unfold in_sync, sync_window. destruct v; [|done]. by repeat case_match. Qed.
Lemma sync_window_id v w : id (sync_window v w) = id w.
Proof. unfold sync_window. by repeat case_match. Qed.
Lemma in_sync_noop v w : in_sync v w → sync_window v w = w ∧ sync_effects v w = [].
Proof.
  unfold in_sync, sync_window, sync_effects, is_visible. intros H. rewrite H.
  destruct v; cbn; [done|]. rewrite andb_false_r. split; [|done]. destruct w. cbn in *. by subst.
Qed.

(** ** The loop body *)

Definition sync_step (v : bool) (p : addr) (w : Window) (c : core) : core :=
  c <| wsman ::= λ s, s <| wins ::= <[p := sync_window v w]> |> |>
    <| pending_backend_effects ::= λ l, l ++ sync_effects v w |>.

Lemma core_eta (c : core) : mkCore (wsman c) (layouts c) (lua_layouts c) (keybindings c)
  (active_layout c) (layout_cfg c) (pending_backend_effects c) (pending_window_flushes c)
  (event_sink c) (settings c) (config_path c) (lua_bound c) (runtime_started c) = c.
Proof. by destruct c. Qed.

Lemma sync_step_noop v p w c :
  wins (wsman c) !! p = Some w → in_sync v w → sync_step v p w c = c.
Proof.
  intros Hw Hs. destruct (in_sync_noop v w Hs) as [E1 E2]. unfold sync_step.
  rewrite E1, E2. cbn. rewrite app_nil_r, insert_id by done.
  destruct c as [[] ]; cbn in *. done.
Qed.

Lemma sync_window_visibility_spec v p w c :
  wins (wsman c) !! p = Some w →
  sync_window_visibility v p c = Some (tt, sync_step v p w c).
Proof.
  intros Hw. unfold sync_window_visibility, sync_step, sync_window, sync_effects, is_visible,
    set_window, on_wsman, zoom, modify_window, emit_backend_effect, emit_effect, bind, gets,
    try_modify, modify, ret.
  rewrite Hw. cbn [fmap option_fmap option_map]. destruct v; cbn [negb].
  - destruct (hidden_by_workspace w) eqn:Hh; cbn [andb].
    + rewrite Hw. cbn [fmap option_fmap option_map].
      destruct (hidden_explicitly w) eqn:He; cbn [negb].
      * cbn. by rewrite app_nil_r.
      * cbn. rewrite lookup_insert_eq. cbn. by rewrite insert_insert_eq.
    + cbn. rewrite app_nil_r, insert_id by done. by destruct c as [[] ].
  - rewrite Hw. cbn [fmap option_fmap option_map].
    destruct (mapped w), (hidden_by_workspace w), (hidden_explicitly w); cbn;
      by rewrite ?app_nil_r.
Qed.

(** ** The loops *)

Definition sync_at (v : bool) (p : addr) (c : core) : core :=
  match wins (wsman c) !! p with
  | Some w => sync_step v p w c
  | None => c
  end.

Lemma sync_window_visibility_eq v p c : sync_window_visibility v p c = Some (tt, sync_at v p c).
Proof.
  unfold sync_at. destruct (wins (wsman c) !! p) as [w|] eqn:Hw.
  - by apply sync_window_visibility_spec.
  - unfold sync_window_visibility, bind, gets. by rewrite Hw.
Qed.

Lemma sync_at_workspaces v p c : workspaces (wsman (sync_at v p c)) = workspaces (wsman c).
Proof. unfold sync_at. by destruct (wins _ !! p). Qed.
Lemma sync_at_monitors v p c : monitors (wsman (sync_at v p c)) = monitors (wsman c).
Proof. unfold sync_at. by destruct (wins _ !! p). Qed.
Lemma sync_at_lookup v p c w : wins (wsman (sync_at v p c)) !! p = Some w → in_sync v w.
Proof.
  unfold sync_at. destruct (wins (wsman c) !! p) as [w0|] eqn:Hw; [|congruence].
  cbn. rewrite lookup_insert_eq. intros [= <-]. apply sync_window_in_sync.
Qed.
Lemma sync_at_lookup_ne v p q c :
  p ≠ q → wins (wsman (sync_at v p c)) !! q = wins (wsman c) !! q.
Proof.
  intros Hne. unfold sync_at. destruct (wins (wsman c) !! p); [|done].
  cbn. by rewrite lookup_insert_ne.
Qed.

(** The windows of one workspace. *)
Record ws_synced (v : bool) (ps : list addr) (c c' : core) : Prop := {
  wsy_in : ∀ p w, p ∈ ps → wins (wsman c') !! p = Some w → in_sync v w;
  wsy_out : ∀ p, p ∉ ps → wins (wsman c') !! p = wins (wsman c) !! p;
  wsy_ws : workspaces (wsman c') = workspaces (wsman c);
  wsy_mon : monitors (wsman c') = monitors (wsman c) }.

Lemma sync_windows_spec v ps c :
  wp (for_each ps (sync_window_visibility v)) (λ _, ws_synced v ps c) c.
Proof.
  apply wp_for_each_prefix with (I := λ pre c', ws_synced v pre c c').
  - intros pre p post c1 _ [H1 H2 H3 H4]. unfold wp. rewrite sync_window_visibility_eq.
    constructor.
    + intros q w Hq Hw. destruct (decide (p = q)) as [<-|Hne]; [by eapply sync_at_lookup|].
      rewrite sync_at_lookup_ne in Hw by done.
      apply elem_of_app in Hq as [Hq|Hq%list_elem_of_singleton]; [by eapply H1|congruence].
    + intros q Hq. rewrite not_elem_of_app in Hq. destruct Hq as [Hq1 Hq2].
      rewrite sync_at_lookup_ne; [by apply H2|]. intros ->. apply Hq2. left.
    + by rewrite sync_at_workspaces.
    + by rewrite sync_at_monitors.
  - constructor; try done. intros p w Hp. by apply elem_of_nil in Hp.
Qed.

Lemma visible_workspaces_lookup c i :
  (i < length (workspaces (wsman c)))%nat →
  visible_workspaces c !! i = Some (is_workspace_visible c (Z.of_nat i)).
Proof.
  intros Hi. unfold visible_workspaces, is_workspace_visible, workspace_count.
  set (n := vsize _). assert (Hn : n = Z.of_nat (length (workspaces (wsman c)))) by done.
  assert (H : ∀ ms (v : list bool) b, length v = Z.to_nat n → v !! i = Some b →
    foldl (λ v m, if (0 <=? mon_active_ws m) && (mon_active_ws m <? n)
                  then <[Z.to_nat (mon_active_ws m) := true]> v else v) v ms !! i =
    Some (b || existsb (λ m, mon_active_ws m =? Z.of_nat i) ms)).
  { induction ms as [|m ms IH]; intros v b Hl Hb; cbn; [by rewrite orb_false_r|].
    destruct (Z.eqb_spec (mon_active_ws m) (Z.of_nat i)) as [E|E].
    - rewrite (proj2 (andb_true_iff _ _)) by lia. rewrite E, Nat2Z.id.
      rewrite (IH _ true); [by rewrite orb_true_r|by rewrite length_insert|].
      apply list_lookup_insert_eq. by eapply lookup_lt_Some.
    - rewrite (IH _ b); [done|by case_match; rewrite ?length_insert|].
      destruct ((0 <=? _) && _) eqn:Hr; [|done].
      rewrite list_lookup_insert_ne by lia. done. }
  rewrite (H _ _ false); [done|by rewrite length_replicate|].
  apply lookup_replicate. split; [done|]. lia.
Qed.

(** Every window agrees with the visibility of its workspace. *)
Definition all_in_sync (c : core) : Prop :=
  ∀ i ws p w, workspaces (wsman c) !! i = Some ws → p ∈ windows ws →
    wins (wsman c) !! p = Some w → in_sync (is_workspace_visible c (Z.of_nat i)) w.

Lemma sync_visibility_spec c :
  wm_windows_ok (wsman c) → wp sync_workspace_visibility (λ _ c', all_in_sync c') c.
Proof.
  intros Hok. unfold sync_workspace_visibility. do 2 wp_step. wp_step.
  { wp_step. intros i ws p w Hi. apply lookup_lt_Some in Hi.
    unfold workspace_count, vsize in *. lia. }
  do 2 wp_step. set (n := workspace_count c).
  eapply wp_mono; [apply wp_for_each_prefix with (I := λ pre c',
    workspaces (wsman c') = workspaces (wsman c) ∧ monitors (wsman c') = monitors (wsman c) ∧
    ∀ i ws p w, Z.of_nat i ∈ pre → workspaces (wsman c) !! i = Some ws → p ∈ windows ws →
      wins (wsman c') !! p = Some w → in_sync (is_workspace_visible c (Z.of_nat i)) w)|].
  - intros pre z post c1 E (Hws & Hmon & Hsy).
    assert (Hz : 0 ≤ z < n) by (apply elem_of_range; rewrite E; set_solver +).
    assert (Hlt : (Z.to_nat z < length (workspaces (wsman c)))%nat)
      by (unfold n, workspace_count, vsize in Hz; lia).
    destruct (lookup_lt_is_Some_2 _ _ Hlt) as [ws Hk].
    rewrite <- (Z2Nat.id z) by lia. set (k := Z.to_nat z) in *.
    do 2 wp_step. wp_step. eapply wp_checked.
    { rewrite vget_of_nat. by apply visible_workspaces_lookup. }
    unfold workspace. rewrite vget_of_nat, Hws, Hk. cbn [default from_option].
    eapply wp_mono; [apply sync_windows_spec|].
    cbv beta. intros [] c2 [H1 H2 H3 H4]. split_and!; [congruence..|].
    intros i ws' p w Hi Hws' Hp Hw. destruct (decide (i = k)) as [->|Hne].
    + assert (ws' = ws) as -> by congruence. by eapply H1.
    + apply (Hsy i ws' p w); [|done|done|].
      * apply elem_of_app in Hi as [?|Hi%list_elem_of_singleton]; [done|lia].
      * rewrite H2 in Hw; [done|]. intros Hp'.
        destruct (wok_win _ _ _ _ _ Hok _ _ _ Hws' Hp) as (u & Hu & _ & _ & Ho).
        destruct (wok_win _ _ _ _ _ Hok _ _ _ Hk Hp') as (u' & Hu' & _ & _ & Ho').
        assert (u = u') as -> by congruence. apply Hne, Nat2Z.inj. congruence.
  - split_and!; [done..|]. intros i ws p w Hi. by apply elem_of_nil in Hi.
  - cbv beta. intros [] c' (Hws & Hmon & Hsy) i ws p w Hi Hp Hw. rewrite Hws in Hi.
    unfold is_workspace_visible. rewrite Hmon. apply (Hsy i ws p w); try done.
    apply elem_of_range. apply lookup_lt_Some in Hi. unfold n, workspace_count, vsize. lia.
Qed.

(** In a synchronised state the call changes nothing and emits nothing. *)
Lemma sync_visibility_noop c : all_in_sync c → sync_workspace_visibility c = Some (tt, c).
Proof.
  intros Hsy. cut (wp sync_workspace_visibility (λ _ c', c' = c) c).
  { unfold wp. by destruct (sync_workspace_visibility c) as [[[] c']|]; [intros ->|]. }
  unfold sync_workspace_visibility. do 2 wp_step. wp_step; [by wp_step|].
  do 2 wp_step. apply wp_for_each with (I := λ c', c' = c); [|done].
  intros z c1 Hz%elem_of_range ->.
  assert (Hlt : (Z.to_nat z < length (workspaces (wsman c)))%nat)
    by (unfold workspace_count, vsize in Hz; lia).
  destruct (lookup_lt_is_Some_2 _ _ Hlt) as [ws Hk]. rewrite <- (Z2Nat.id z) by lia.
  do 2 wp_step. wp_step. eapply wp_checked.
  { rewrite vget_of_nat. by apply visible_workspaces_lookup. }
  unfold workspace. rewrite vget_of_nat, Hk. cbn [default from_option].
  apply wp_for_each with (I := λ c', c' = c); [|done].
  intros p c1 Hp ->. unfold wp. rewrite sync_window_visibility_eq. unfold sync_at.
  destruct (wins (wsman c) !! p) as [w|] eqn:Hw; [|done].
  apply sync_step_noop; [done|]. by eapply Hsy.
Qed.
