(* ===== verification/CoreCommands.v ===== *)
(** * What single commands do

    Functional specifications of the commands a user feels most: moving a window
    to a workspace, switching workspaces, rejecting unknown windows, the flush
    of pending geometry. *)

From S2P Require Import Prelude Geometry Float32 Layout Workspace WorkspaceManager WindowIndex ManagerInv.
From S2P Require Import Pools ManagerOps ManagerFocus Events Commands Core Dispatch.
From S2P Require Import CoreSafe CoreRun CoreFrame CoreFocus.
Local Open Scope Z_scope.

(** ** Adding a postcondition to a computation known to run *)

(** [returns P m]: every result of [m] satisfies [P]. *)
Definition returns {S A} (P : A → Prop) (m : M S A) : Prop :=
  ∀ s a s', m s = Some (a, s') → P a.

Lemma returns_ret {S A} (P : A → Prop) (a : A) : P a → returns (S := S) P (ret a).
Proof. by intros Ha s b s' [= <- _]. Qed.
Lemma returns_bind {S A B} (P : B → Prop) (m : M S A) (k : A → M S B) :
  (∀ a, returns P (k a)) → returns P (bind m k).
Proof. intros Hk s b s'. unfold bind. destruct (m s) as [[a s1]|]; [|done]. apply Hk. Qed.

Lemma wp_run {S A} (m : M S A) (Q Q0 : A → S → Prop) (R : S → S → Prop) P s :
  wp m Q0 s → preserves R m → returns P m →
  (∀ a s', Q0 a s' → P a → R s s' → Q a s') → wp m Q s.
Proof.
  unfold wp. destruct (m s) as [[a s']|] eqn:E; [|done]. intros H0 HR HP HQ.
  apply HQ; [done|by eapply HP|by eapply HR].
Qed.

Lemma sync_tables : preserves core_tables sync_workspace_visibility.
Proof. eauto with tables. Qed.

(** ** [MoveWindowToWorkspace] *)

Definition window_moved (win ws : Z) (s s' : wm) : Prop :=
  workspace_of_window s' win = ws ∧
  (∀ other, other ≠ win → workspace_of_window s' other = workspace_of_window s other) ∧
  window_index s' = window_index s.

Lemma tables_workspace_of s s' win :
  same_tables s s' → workspace_of_window s' win = workspace_of_window s win.
Proof.
  intros (_ & Hw & Hl & _). unfold workspace_of_window, is_ws_valid, vsize. by rewrite Hw, Hl.
Qed.

Lemma moved_tables win ws s s1 s2 :
  window_moved win ws s s1 → same_tables s1 s2 → window_moved win ws s s2.
Proof.
  intros (H1 & H2 & H3) Ht. split_and!.
  - by rewrite (tables_workspace_of _ _ _ Ht).
  - intros o Ho. rewrite (tables_workspace_of _ _ _ Ht). by apply H2.
  - destruct Ht as (-> & _). done.
Qed.

Lemma move_moves s win ws p :
  wm_windows_ok s → window_index s !! win = Some p → is_ws_valid s ws = true →
  wp (move_window_to ws p) (λ _ s', window_moved win ws s s') s.
Proof.
  intros Hok Hix Hv. destruct (wok_ix _ _ _ _ _ Hok _ _ Hix) as (w & i & wsi & Hw & Hid & _ & Hwsi & Hin).
  eapply wp_mono; [apply move_window_to_spec; [done|done|by rewrite Hid|done]|].
  cbv beta. intros _ s' (Hok' & Hf & _ & Hix' & Hwo'). rewrite Hid in Hwo'.
  assert (Hv' : ∀ j, is_ws_valid s' j = is_ws_valid s j).
  { intros j. unfold is_ws_valid, vsize. by rewrite (fr_len _ _ Hf). }
  assert (Hne : win ≠ NO_WINDOW).
  { destruct (wok_win _ _ _ _ _ Hok _ _ _ Hwsi Hin) as (v & Hv2 & ? & _). congruence. }
  split_and!; [| |done].
  - unfold workspace_of_window. rewrite (proj2 (Z.eqb_neq _ _) Hne), Hwo', lookup_insert_eq, Hv', Hv. done.
  - intros o Ho. unfold workspace_of_window. rewrite Hwo', lookup_insert_ne by done.
    by destruct (_ =? _), (window_workspace s !! o); rewrite ?Hv'.
Qed.

#[export] Hint Resolve sync_tables : tables.

Lemma returns_if {S A} (P : A → Prop) (b : bool) (m1 m2 : M S A) :
  returns P m1 → returns P m2 → returns P (if b then m1 else m2).
Proof. by destruct b. Qed.
Ltac returns_auto :=
  repeat (cbv zeta; first
    [ apply returns_ret; reflexivity | apply returns_bind; intros ? | apply returns_if
    | match goal with |- returns _ (match ?o with Some _ => _ | None => _ end) => destruct o end ]).

Lemma move_window_spec c win ws p :
  core_ok c → find_window_in_all (wsman c) win = Some p → 0 ≤ ws < workspace_count c →
  wp (dispatch_MoveWindowToWorkspace win ws) (λ r c',
    r = true ∧ core_ok c' ∧ window_moved win ws (wsman c) (wsman c')) c.
Proof.
  intros Hc Hix Hws. pose proof (co_wm _ Hc) as Hok.
  destruct (wok_ix _ _ _ _ _ (ok_windows _ Hok) _ _ Hix) as (w & _ & _ & Hw & _).
  unfold dispatch_MoveWindowToWorkspace, with_window, find_win. do 2 wp_step.
  rewrite (proj2 (Z.ltb_ge _ _)), (proj2 (Z.leb_gt _ _)) by lia. cbn [orb].
  do 2 wp_step. rewrite Hix. do 3 wp_step. eapply wp_checked; [done|]. cbv zeta. wp_step. apply wp_zoom.
  eapply wp_mono; [apply wp_and; [by eapply move_window_safe|
    by apply move_moves; [apply Hok|done|apply is_ws_valid_spec]]|].
  cbv beta. intros [] s' [[Hs' He] Hmv]. set (c1 := c <| wsman := s' |>).
  assert (Hc1 : core_ok c1) by (destruct Hc; by constructor).
  assert (He1 : evolves c c1) by (by constructor).
  assert (Hp1 : alive p c1) by (eapply stable_alive; [exact He1|by exists w]).
  match goal with |- wp ?m _ _ =>
    assert (Hm : safe (alive p) m); [|assert (Ht : preserves core_tables m);
      [|assert (Hr : returns (eq true) m)]] end.
  - repeat (cbv zeta; first [ apply safe_pin; [safe_stable|safe_known] | safe_step ]).
  - tables_auto.
  - returns_auto.
  - eapply wp_run; [by apply Hm|exact Ht|exact Hr|]. cbv beta. intros b c' [Hc' _] <- Hct.
    split_and!; [done..|]. by eapply moved_tables.
Qed.

(** ** Commands for a window that does not exist *)

(** The window a command is about, when the command needs one. *)
Definition window_target (cmd : CommandAtom) : option Z :=
  match cmd with
  | FocusWindow w | MoveWindowToWorkspace w _ | MapWindow w | UnmapWindow w
  | SetWindowFullscreen w _ _ | AssignWindowWorkspace w _ | SetWindowMapped w _
  | SetWindowHiddenByWorkspace w _ | SetWindowSuppressFocusOnce w _ | SetWindowFloating w _
  | SetWindowBorderless w _ | HideWindow w | SetWindowGeometry w _ _ | SetWindowPosition w _
  | SetWindowSize w _ | SetWindowBorderWidth w _ | SyncWindowFromConfigureNotify w _ _ _
  | CloseWindow w => Some w
  | SetWindowMetadata md => Some (md_window md)
  | MoveWindowToMonitor w _ => if w =? NO_WINDOW then None else Some w
  | _ => None
  end.

Lemma with_window_unknown win k c :
  find_window_in_all (wsman c) win = None → with_window win k c = Some (false, c).
Proof. intros Hn. unfold with_window, find_win, bind, gets. by rewrite Hn. Qed.

Lemma move_window_unknown win ws c :
  find_window_in_all (wsman c) win = None → dispatch_MoveWindowToWorkspace win ws c = Some (false, c).
Proof.
  intros Hn. unfold dispatch_MoveWindowToWorkspace, bind, gets.
  destruct (_ || _); [done|]. by apply with_window_unknown.
Qed.

Lemma unknown_rejected cmd win c :
  window_target cmd = Some win → find_window_in_all (wsman c) win = None →
  dispatch_atom cmd c = Some (false, c).
Proof.
  intros Ht Hn. destruct cmd; cbn [window_target] in Ht; try discriminate;
    try (injection Ht as ->; first [by apply with_window_unknown | by apply move_window_unknown |
      cbn [dispatch_atom]; unfold dispatch_FocusWindow, dispatch_SetWindowGeometry,
        dispatch_SetWindowPosition, dispatch_SetWindowSize, dispatch_SetWindowBorderWidth,
        dispatch_SyncWindowFromConfigureNotify, find_win, bind, gets; by rewrite Hn]).
  - injection Ht as <-. by apply with_window_unknown.
  - destruct (Z.eqb_spec window NO_WINDOW) as [|Hne]; [done|]. injection Ht as ->.
    cbn [dispatch_atom]. unfold dispatch_MoveWindowToMonitor, bind at 1, gets at 1.
    destruct (monitor_state c _); [|done]. destruct (_ <? 0); [done|].
    rewrite (proj2 (Z.eqb_neq _ _) Hne). by apply move_window_unknown.
Qed.

(** ** [SwitchWorkspace] *)

(** [ws] is the active workspace of the monitor that owns it. *)
Definition shown (ws : Z) (s : wm) : Prop :=
  is_ws_valid s ws = true ∧ 0 ≤ monitor_of s ws ∧ active_ws_of_monitor s (monitor_of s ws) = ws.

Lemma shown_frame WE ws s s' : wm_frame WE s s' → shown ws s → shown ws s'.
Proof.
  intros Hf (Hv & Hm & Ha). unfold shown, is_ws_valid, vsize.
  by rewrite (wf_monitor_of _ _ _ Hf), (wf_active_ws _ _ _ Hf), (wf_length _ _ _ Hf).
Qed.

(** The workspace a monitor shows is owned by that monitor. *)
Lemma active_owner s m i :
  wm_ok s → active_ws_of_monitor s m = i → is_ws_valid s i = true → monitor_of s i = m ∧ 0 ≤ m.
Proof.
  intros Hok Ha Hv. pose proof (ok_pools _ Hok) as Hp.
  assert (Hin : ∃ pool, vget (monitor_pools s) m = Some pool ∧ i ∈ pool).
  { unfold active_ws_of_monitor in Ha. destruct (vget (monitor_pools s) m) as [[|w0 pool]|] eqn:E.
    - subst i. done.
    - exists (w0 :: pool). split; [done|]. cbv zeta in Ha.
      destruct (vget (w0 :: pool) _) as [w|] eqn:Ew; subst i; [by eapply vget_elem_of|left].
    - subst i. done. }
  destruct Hin as (pool & Hpool & Hin). pose proof (vget_lookup _ _ _ Hpool) as (k & -> & Hk).
  destruct (po_pool _ _ _ _ _ Hp _ _ _ Hk Hin) as (j & -> & Hj).
  destruct (monitor_of_lookup _ _ _ Hp Hj) as [-> _]. split; [done|lia].
Qed.

(** As soon as one workspace is shown, [current()] is one. *)
Lemma current_shown s ws :
  wm_ok s → shown ws s → ∃ i, current_ws_index s = Some i ∧ shown i s.
Proof.
  intros Hok (Hv & Hm & Ha).
  assert (Hs : ∀ m i, active_ws_of_monitor s m = i → is_ws_valid s i = true → shown i s).
  { intros m i Hai Hvi. destruct (active_owner _ _ _ Hok Hai Hvi) as [E ?]. by rewrite <- E in *. }
  unfold current_ws_index. destruct (Z.eqb_spec (vsize (workspaces s)) 0) as [E|E].
  { apply is_ws_valid_spec in Hv. lia. }
  cbv zeta. destruct (is_ws_valid s (active_ws_of_monitor s (focused_monitor s))) eqn:Hf; [by eauto|].
  destruct (find _ _) as [i|] eqn:Hfi.
  - apply find_elem_of in Hfi as [(m & -> & _)%list_elem_of_fmap Hvi]. eauto.
  - exfalso. pose proof (List.find_none _ _ Hfi ws) as Hn. rewrite Hv in Hn. discriminate Hn.
    apply list_elem_of_In, list_elem_of_fmap. exists (monitor_of s ws). split; [done|].
    apply elem_of_range. destruct (monitor_of_range s ws); lia.
Qed.

(** Two states with the same owners and the same workspaces on show. *)
Definition same_view (s s' : wm) : Prop :=
  length (workspaces s') = length (workspaces s) ∧
  (∀ i, monitor_of s' i = monitor_of s i) ∧
  (∀ m, active_ws_of_monitor s' m = active_ws_of_monitor s m).

#[export] Instance same_view_preorder : PreOrder same_view.
Proof.
  split; [done|]. intros s1 s2 s3 (L1 & M1 & A1) (L2 & M2 & A2). split_and!; [congruence|..].
  - intros i. by rewrite M2.
  - intros m. by rewrite A2.
Qed.

Lemma same_view_shown ws s s' : same_view s s' → shown ws s → shown ws s'.
Proof. intros (L & Hm & Ha) (H1 & H2 & H3). unfold shown, is_ws_valid, vsize. by rewrite L, Hm, Ha. Qed.

Lemma frame_view WE s s' : wm_frame WE s s' → same_view s s'.
Proof.
  intros Hf. split_and!; [by eapply wf_length|by eapply wf_monitor_of|by eapply wf_active_ws].
Qed.

(** Focusing a window of a shown workspace shows nothing else. *)
Lemma focus_window_view s win i :
  wm_ok s → window_workspace s !! win = Some i → shown i s →
  wp (focus_window win) (λ _ s', same_view s s') s.
Proof.
  intros Hok Hwo (Hv & Hm & Ha). eapply wp_mono; [by apply focus_window_spec|].
  cbv beta. intros _ s' (_ & _ & Hf & _ & _ & Hyes).
  destruct (Hyes i Hwo) as (k & ws & j & p & w & -> & _ & _ & _ & _ & _ & _ & Hact).
  destruct (Hact Hm) as (_ & Ha' & Hoth). split_and!; [apply Hf| |].
  - intros i. by apply monitor_of_frame; apply Hf.
  - intros m. destruct (decide (m = monitor_of s (Z.of_nat k))) as [->|Hne]; [congruence|by apply Hoth].
Qed.

Lemma focus_candidate_workspace s :
  wm_windows_ok s → focus_candidate s ≠ NO_WINDOW →
  window_workspace s !! focus_candidate s = current_ws_index s.
Proof.
  intros Hok. unfold focus_candidate, current_ws.
  destruct (current_ws_index s) as [i|] eqn:Hi; [|intros Hn; by destruct Hn].
  destruct (valid_lookup _ _ (current_ws_index_valid _ _ Hi)) as (k & ws & -> & Hk).
  unfold workspace. rewrite vget_of_nat, Hk. change (default fallback_workspace (Some ws)) with ws.
  destruct (ws_focused (wins s) ws) as [p|] eqn:Hp; [|intros Hn; by destruct Hn].
  destruct (holds (wins s) is_visible p); [|intros Hn; by destruct Hn]. intros _.
  destruct (wok_win _ _ _ _ _ Hok k ws p Hk) as (w & Hw & _ & _ & Hwo).
  { by eapply ws_focused_elem. }
  cbn. by rewrite Hw.
Qed.

Lemma focus_none_view c ws :
  core_ok c → shown ws (wsman c) →
  wp (focus NO_WINDOW) (λ _ c', core_ok c' ∧ same_view (wsman c) (wsman c')) c.
Proof.
  intros Hc Hsh. pose proof (co_wm _ Hc) as Hok.
  destruct (current_shown _ _ Hok Hsh) as (i & Hcur & Hi).
  unfold focus. do 4 wp_step.
  change (if negb _ && negb _ then NO_WINDOW else _) with (focus_target (wsman c) NO_WINDOW).
  set (t := focus_target (wsman c) NO_WINDOW).
  assert (Hout : ∀ c1, core_ok c1 → same_view (wsman c) (wsman c1) → ∀ k,
    wp (emit_backend_effect k t ;; emit_focus_changed t)
       (λ _ c', core_ok c' ∧ same_view (wsman c) (wsman c')) c1).
  { intros c1 Hc1 Hv1 k. unfold emit_backend_effect, emit_effect. do 2 wp_step.
    eapply wp_mono; [apply emit_focus_changed_spec; by destruct Hc1|].
    cbv beta. intros _ c' (Hc' & c2 & -> & Hfr). split; [done|].
    etrans; [exact Hv1|]. by eapply frame_view, (cf_wm _ _ _ _ _ Hfr). }
  destruct (Z.eqb_spec t NO_WINDOW) as [E|E]; cbn [negb].
  { do 2 wp_step. rewrite E at 1. change (NO_WINDOW =? NO_WINDOW) with true. cbn [negb].
    rewrite <- E. by apply Hout. }
  assert (Ht : t = focus_candidate (wsman c)).
  { subst t. unfold focus_target in *. cbv zeta in *. change (NO_WINDOW =? NO_WINDOW) with true in *.
    cbv iota in *. by destruct (_ && _). }
  assert (Hwo : window_workspace (wsman c) !! t = Some i).
  { rewrite Ht, focus_candidate_workspace; [done|apply Hok|by rewrite <- Ht]. }
  do 2 wp_step. unfold on_wsman. wp_step.
  eapply wp_mono; [apply wp_and; [by apply focus_window_spec|by eapply focus_window_view]|].
  cbv beta. intros r s' ((Hok' & _ & _ & Hr & _) & Hv). rewrite Hwo in Hr.
  rewrite bool_decide_true in Hr by (by eexists). subst r. wp_step.
  rewrite (proj2 (Z.eqb_neq _ _) E). cbn [negb]. apply Hout; [|done]. by destruct Hc; constructor.
Qed.

Lemma wp_framed {A} WE KE EE (m : M core A) c :
  core_ok c → safe (λ _, True) m → frames WE KE EE m →
  wp m (λ _ c', core_ok c' ∧ evolves c c' ∧ core_frame WE KE EE c c') c.
Proof.
  intros Hc Hs Hf. pose proof (Hs c Hc I) as H. unfold wp in *.
  destruct (m c) as [[a c']|] eqn:E; [|done]. split_and!; [apply H..|by eapply Hf].
Qed.

Lemma switch_workspace_spec c ws hint :
  core_ok c → 0 ≤ ws < workspace_count c → monitors (wsman c) ≠ [] →
  wp (dispatch_SwitchWorkspace ws hint) (λ r c',
    r = true ∧ core_ok c' ∧ shown ws (wsman c') ∧ synced (wsman c') ∧
    (0 ≤ monitor_of (wsman c) ws → monitor_of (wsman c') ws = monitor_of (wsman c) ws)) c.
Proof.
  intros Hc Hws Hne. pose proof (co_wm _ Hc) as Hok.
  assert (Hv : is_ws_valid (wsman c) ws = true) by (by apply is_ws_valid_spec).
  unfold dispatch_SwitchWorkspace. do 6 wp_step. set (target := if _ <? 0 then _ else _).
  wp_step. unfold on_wsman at 1. wp_step.
  eapply wp_mono; [by apply switch_to_spec|].
  cbv beta. intros r s1 (-> & Hok1 & Hsy & _ & Hw1 & Hws1 & _ & _ & _ & Hm1 & Ha1 & Hmon).
  cbn [negb]. set (c1 := c <| wsman := s1 |>).
  assert (Hc1 : core_ok c1) by (by destruct Hc; constructor).
  assert (Hsh1 : shown ws (wsman c1)).
  { split_and!; [|done..]. unfold is_ws_valid. cbn. by rewrite Hws1. }
  (* a later state that shows the same *)
  set (I := λ c', core_ok c' ∧ same_view s1 (wsman c') ∧ (synced s1 → synced (wsman c'))).
  assert (Hstep : ∀ A WE KE EE (m : M core A) c2, I c2 → safe (λ _, True) m → frames WE KE EE m →
    wp m (λ _, I) c2).
  { intros A WE KE EE m c2 (Hc2 & Hv2 & Hs2) Hs Hf.
    eapply wp_mono; [by eapply (wp_framed WE KE EE)|]. cbv beta. intros _ c3 (Hc3 & He & Hfr).
    split_and!; [done| |intros ?; by apply (we_synced _ _ (ev_wm _ _ He)), Hs2].
    etrans; [exact Hv2|]. by eapply frame_view, cf_wm. }
  wp_step. eapply wp_mono; [eapply Hstep; [|by apply safe_sync_workspace_visibility|exact frames_sync]; by split_and!|].
  cbv beta. intros [] c2 HI2.
  wp_step. eapply wp_mono; [eapply Hstep; [exact HI2|by apply safe_arrange|exact frames_arrange]|].
  cbv beta. intros [] c3 (Hc3 & Hv3 & Hs3). do 3 wp_step.
  eapply (wp_mono _ (λ _, I)).
  { wp_step; [|by wp_step].
    eapply wp_mono; [apply wp_and; [eapply focus_none_view; [done|by eapply same_view_shown]|
      by apply (safe_focus (λ _, True) stable_True NO_WINDOW)]|].
    cbv beta. intros _ c4 [[Hc4 Hv4] [_ He]]. split_and!; [done|by etrans|].
    intros ?. by apply (we_synced _ _ (ev_wm _ _ He)), Hs3. }
  cbv beta. intros [] c4 HI4. wp_step.
  eapply wp_mono; [eapply Hstep; [exact HI4|by apply safe_evaluate|exact (frames_evaluate ws)]|].
  cbv beta. intros [] c5 (Hc5 & Hv5 & Hs5). unfold post. do 3 wp_step. cbn.
  split_and!; [done|by destruct Hc5; constructor|by eapply same_view_shown|by apply Hs5|].
  intros ?. destruct Hv5 as (_ & -> & _). by apply Hmon.
Qed.
