(* ===== verification/CoreSpecs.v ===== *)
(** * Pending geometry, zoom, reload and assignment

    More functional specifications of the core: what the flush of a window
    accumulates, what a ConfigureNotify may overwrite, what zoom does to the
    order of windows, what a reload of the settings keeps, and where
    [assign_workspaces] puts the workspaces. *)

From S2P Require Import Prelude Geometry Float32 Layout Workspace WorkspaceManager WindowIndex ManagerInv.
From S2P Require Import Pools ManagerOps ManagerFocus Events Commands Core Dispatch.
From S2P Require Import CoreSafe CoreRun CoreFrame CoreFocus CoreCommands.
Local Open Scope Z_scope.

(** ** Window flushes *)

(** The bits a geometry command marks. *)
Definition flush_bits (win : Z) (cmd : CommandAtom) : option Z :=
  let bits w b := if w =? win then Some b else None in
  match cmd with
  | SetWindowGeometry w _ _ => bits w FlushGeometry
  | SetWindowPosition w _ => bits w FlushPosition
  | SetWindowSize w _ => bits w FlushSize
  | SetWindowBorderWidth w _ => bits w FlushBorderWidth
  | _ => None
  end.

Definition dirty (o : option WindowFlush) : Z := match o with Some f => fl_dirty f | None => 0 end.

(** The state of the flushes after marking [bits] of [win]. *)
Definition flushed (win bits : Z) (c c' : core) : Prop :=
  pending_window_flushes c' !! win =
    Some (mkFlush win (Z.lor (dirty (pending_window_flushes c !! win)) bits)) ∧
  (∀ o, o ≠ win → pending_window_flushes c' !! o = pending_window_flushes c !! o) ∧
  window_index (wsman c') = window_index (wsman c) ∧
  dom (wins (wsman c')) = dom (wins (wsman c)).

Lemma mark_flushed win bits c :
  wp (mark_window_dirty win bits) (λ _ c', flushed win bits c c' ∧ wsman c' = wsman c) c.
Proof.
  unfold mark_window_dirty, emit_backend_effect, emit_effect. wp_steps.
  unfold flushed. cbn. split_and!; try done.
  - rewrite lookup_insert_eq. unfold ensure_window_flush, dirty.
    by destruct (pending_window_flushes c !! win).
  - intros o Ho. by rewrite lookup_insert_ne.
Qed.

(** A command that assigns to a window and marks it. *)
Lemma set_and_mark win bits p f c :
  is_Some (wins (wsman c) !! p) →
  wp (set_window p f ;; mark_window_dirty win bits ;; ret true)
     (λ r c', r = true ∧ flushed win bits c c') c.
Proof.
  intros [w Hw]. wp_step. unfold set_window, on_wsman. wp_step.
  eapply wp_modify_window; [done|]. wp_step.
  eapply wp_mono; [apply mark_flushed|]. cbv beta. intros [] c' [(H1 & H2 & H3 & H4) _]. wp_step.
  split; [done|]. split_and!; [done..|]. rewrite H4. cbn. apply dom_insert_lookup_L. by eexists.
Qed.

Lemma geometry_flushed win cmd b p c :
  flush_bits win cmd = Some b → find_window_in_all (wsman c) win = Some p →
  is_Some (wins (wsman c) !! p) →
  wp (dispatch_atom cmd) (λ r c', r = true ∧ flushed win b c c') c.
Proof.
  intros Hb Hp Hw. destruct cmd; cbn in Hb; try discriminate;
    (destruct (Z.eqb_spec window win) as [->|]; [|discriminate]); injection Hb as <-;
    cbn [dispatch_atom];
    unfold dispatch_SetWindowGeometry, dispatch_SetWindowPosition, dispatch_SetWindowSize,
      dispatch_SetWindowBorderWidth, find_win; do 2 wp_step; rewrite Hp; by apply set_and_mark.
Qed.

Lemma flushed_trans win b1 b2 c1 c2 c3 :
  flushed win b1 c1 c2 → flushed win b2 c2 c3 → flushed win (Z.lor b1 b2) c1 c3.
Proof.
  intros (H1 & H2 & H3 & H4) (G1 & G2 & G3 & G4). split_and!.
  - rewrite G1, H1. cbn. by rewrite Z.lor_assoc.
  - intros o Ho. by rewrite G2, H2.
  - congruence.
  - congruence.
Qed.

(** A non-empty sequence of geometry commands for one window. *)
Lemma geometry_seq_flushed win cmd b cmds bs p c :
  flush_bits win cmd = Some b → Forall2 (λ cmd b, flush_bits win cmd = Some b) cmds bs →
  find_window_in_all (wsman c) win = Some p → is_Some (wins (wsman c) !! p) →
  wp (for_each (cmd :: cmds) (λ cmd, dispatch_atom cmd ;; ret tt))
     (λ _ c', flushed win (foldl Z.lor b bs) c c') c.
Proof.
  intros Hb Hbs Hp Hw. revert cmd b c Hb Hp Hw.
  induction Hbs as [|cmd' b' cmds bs Hb' Hbs IH]; intros cmd b c Hb Hp Hw.
  - cbn. do 2 wp_step. eapply wp_mono; [by eapply geometry_flushed|]. cbv beta. intros r c' [_ H].
    by do 2 wp_step.
  - cbn [for_each]. do 2 wp_step. eapply wp_mono; [by eapply geometry_flushed|].
    cbv beta. intros r c' [_ Hf]. pose proof Hf as (_ & _ & Hi & Hd). wp_step.
    eapply wp_mono; [apply (IH cmd' b' c' Hb'); [by unfold find_window_in_all; rewrite Hi|]|].
    + apply elem_of_dom. rewrite Hd. by apply elem_of_dom.
    + cbv beta. intros _ c2 Hf2. cbn [foldl].
      assert (E : ∀ l a k, foldl Z.lor (Z.lor a k) l = Z.lor a (foldl Z.lor k l)).
      { induction l as [|z l IHl]; intros a k; cbn; [done|]. by rewrite <- Z.lor_assoc, IHl. }
      rewrite E. by eapply flushed_trans.
Qed.

Lemma take_flush_spec win f c :
  pending_window_flushes c !! win = Some f →
  wp (take_window_flush win) (λ r c',
    r = (if has_config_changes f then Some f else None) ∧
    pending_window_flushes c' = delete win (pending_window_flushes c) ∧ wsman c' = wsman c) c.
Proof. intros Hf. unfold take_window_flush. do 2 wp_step. rewrite Hf. by wp_steps. Qed.

Lemma take_flush_none win c :
  pending_window_flushes c !! win = None → take_window_flush win c = Some (None, c).
Proof. intros Hf. unfold take_window_flush, bind, gets. by rewrite Hf. Qed.

(** ** ConfigureNotify *)

Lemma notify_spec win npos nsize bw p w c :
  find_window_in_all (wsman c) win = Some p → wins (wsman c) !! p = Some w →
  wp (dispatch_SyncWindowFromConfigureNotify win npos nsize bw) (λ r c',
    r = true ∧ c' = c <| wsman := (wsman c) <| wins :=
      <[p := sync_fields (flush_clean (pending_window_flushes c !! win)) npos nsize bw w]>
        (wins (wsman c)) |> |>) c.
Proof.
  intros Hp Hw. unfold dispatch_SyncWindowFromConfigureNotify, find_win. do 2 wp_step. rewrite Hp.
  do 3 wp_step. unfold set_window, on_wsman. wp_step. eapply wp_modify_window; [done|]. by wp_step.
Qed.

Lemma sync_fields_clean npos nsize bw w :
  sync_fields (λ _, true) npos nsize bw w =
  w <| pos := npos |> <| size := nsize |> <| border_width := bw |>.
Proof. unfold sync_fields. by destruct npos, nsize. Qed.

(** ** Zoom *)

Lemma ws_focused_eligible h ws f :
  ws_focused h ws = Some f → holds h (λ w, negb (any_visible h ws) || is_visible w) f = true.
Proof.
  unfold ws_focused. cbv zeta. destruct (vget _ _) as [q|].
  - destruct (holds _ _ q) eqn:He; [by intros [= <-]|]. by intros [_ ?]%find_elem_of.
  - by intros [_ ?]%find_elem_of.
Qed.

Lemma any_visible_perm h ws ws' :
  windows ws' ≡ₚ windows ws → any_visible h ws' = any_visible h ws.
Proof.
  intros Hp. apply eq_iff_eq_true. rewrite !any_visible_true. by setoid_rewrite Hp.
Qed.

Lemma ws_focused_moved h ws ws' f :
  ws_focused h ws = Some f → windows ws' ≡ₚ windows ws → vget (windows ws') (current ws') = Some f →
  ws_focused h ws' = Some f.
Proof.
  intros Hf Hp Hv. apply ws_focused_eligible in Hf. unfold ws_focused. cbv zeta.
  by rewrite Hv, (any_visible_perm _ _ _ Hp), Hf.
Qed.

(** The windows of the current workspace are exchanged, and the focus stays. *)
Definition zoomed (s s' : wm) : Prop :=
  ∃ k ws ws' f, current_ws_index s = Some (Z.of_nat k) ∧
    workspaces s !! k = Some ws ∧ workspaces s' !! k = Some ws' ∧
    windows ws' ≡ₚ windows ws ∧ windows ws' ≠ windows ws ∧
    ws_focused (wins s) ws = Some f ∧ ws_focused (wins s') ws' = Some f.

Lemma zoom_spec c :
  core_ok c → wp dispatch_Zoom (λ r c', core_ok c' ∧ (r = false → c' = c) ∧
    (r = true → zoomed (wsman c) (wsman c'))) c.
Proof.
  intros Hc. pose proof (co_wm _ Hc) as Hok. unfold dispatch_Zoom, on_wsman. do 2 wp_step.
  eapply wp_mono; [by apply zoom_focused_spec|].
  cbv beta. intros r s1 (Hok1 & _ & Hw & _ & _ & Hno & Hyes). set (c1 := c <| wsman := s1 |>).
  assert (Hc1 : core_ok c1) by (by destruct Hc; constructor).
  destruct r; cbn [negb]; wp_step; cycle 1.
  { split_and!; [done|intros _|done]. unfold c1. rewrite Hno by done. by destruct c. }
  destruct (Hyes eq_refl) as (k & ws & ws1 & f & Hcur & Hk & Hws1 & Hp & Hf & Hv & Hne).
  eapply wp_mono; [eapply wp_framed; [exact Hc1|by apply safe_arrange|exact frames_arrange]|].
  cbv beta. intros [] c2 (Hc2 & _ & [Hfr _ _ _ _ _]). wp_step. split_and!; [done|done|intros _].
  assert (Hk1 : workspaces (wsman c1) !! k = Some ws1).
  { cbn. rewrite Hws1. by apply list_lookup_insert_eq, (lookup_lt_Some _ _ _ Hk). }
  destruct (wf_workspace _ _ _ Hfr k ws1 Hk1) as (ws2 & Hk2 & Hwin & Hcu & _).
  exists k, ws, ws2, f. rewrite Hwin. split_and!; try done.
  rewrite (ws_focused_frame (wins (wsman c1)) _ ws1 ws2).
  - change (wins (wsman c1)) with (wins s1). by rewrite Hw, (ws_focused_moved _ ws ws1 f).
  - intros p. apply (wf_holds _ _ _ Hfr). apply geometry_visible.
  - intros p. destruct (wf_wins _ _ _ Hfr p); [by split|done].
  - done.
  - done.
Qed.

(** ** Reload of the settings *)

(** No window is lost, and the windows of workspaces that stay, stay. *)
Definition reloaded (st : CoreSettings) (s s' : wm) : Prop :=
  ws_def <$> workspaces s' = workspace_defs st ∧ wins s' = wins s ∧
  window_index s' = window_index s ∧
  (∀ win p, window_index s !! win = Some p → is_ws_valid s' (workspace_of_window s' win) = true) ∧
  (∀ win i, window_workspace s !! win = Some i → i < vsize (workspace_defs st) →
     workspace_of_window s' win = i).

Lemma indexed_workspace s win p :
  wm_windows_ok s → window_index s !! win = Some p →
  win ≠ NO_WINDOW ∧ ∃ i, window_workspace s !! win = Some i ∧ workspace_of_window s win = i ∧
    is_ws_valid s i = true.
Proof.
  intros Hok Hix. destruct (wok_ix _ _ _ _ _ Hok _ _ Hix) as (w & i & wsi & Hw & Hid & Hwo & Hwsi & Hin).
  assert (Hne : win ≠ NO_WINDOW).
  { destruct (wok_win _ _ _ _ _ Hok _ _ _ Hwsi Hin) as (v & Hv & ? & _). congruence. }
  pose proof (windows_ok_wo_valid _ _ _ Hok Hwo) as Hv. split; [done|]. exists (Z.of_nat i).
  split_and!; [done| |done]. unfold workspace_of_window. by rewrite (proj2 (Z.eqb_neq _ _) Hne), Hwo, Hv.
Qed.

Lemma reload_spec c st :
  core_ok c → workspace_defs st ≠ [] →
  wp (apply_settings st) (λ _ c', core_ok c' ∧ settings c' = st ∧ reloaded st (wsman c) (wsman c')) c.
Proof.
  intros Hc Hne. unfold apply_settings, on_wsman. do 4 wp_step.
  eapply wp_mono; [apply (update_workspace_defs_spec _ _ (co_wm _ Hc) Hne)|].
  cbv beta. intros [] s (Hs & Hdef & _ & Hw & Hix & Hkeep). cbn [wsman] in *.
  assert (Hfin : ∀ s', wm_ok s' → wins s' = wins s → workspaces s' = workspaces s →
    window_index s' = window_index s → window_workspace s' = window_workspace s →
    reloaded st (wsman c) s').
  { intros s' Hs' E1 E2 E3 E4. split_and!; [by rewrite E2|congruence|congruence|..].
    - intros win p Hp. destruct (indexed_workspace s' win p) as (_ & i & _ & -> & ?); [apply Hs'|congruence|done].
    - intros win i Hi Hlt. specialize (Hkeep win i Hi Hlt). rewrite <- E4 in Hkeep.
      destruct (wok_wo _ _ _ _ _ (ok_windows _ Hs') _ _ Hkeep) as [p Hp].
      destruct (indexed_workspace s' win p) as (_ & j & Hj & -> & _); [apply Hs'|done|congruence]. }
  destruct Hc as [Hc1 Hc2 Hc3 Hc4]. do 2 wp_step. wp_step.
  - do 2 wp_step. destruct (assign_workspaces_ok (monitor_aliases st) (monitor_compose st) s)
      as [H1 H2]; [apply Hs..|].
    destruct (assign_workspaces_fields (monitor_aliases st) (monitor_compose st) s) as (E1 & E2 & E3 & E4).
    split_and!; [by constructor|done|]. by apply Hfin.
  - wp_step. split_and!; [by constructor|done|]. by apply Hfin.
Qed.

Lemma foldl_lor_zero l b : foldl Z.lor b l = 0 → b = 0.
Proof. revert b. induction l as [|a l IH]; intros b; cbn; [done|]. intros [? _]%IH%Z.lor_eq_0_iff. done. Qed.

Lemma flush_bits_nonzero win cmd b : flush_bits win cmd = Some b → b ≠ 0.
Proof. destruct cmd; cbn; try done; (destruct (_ =? win); [|done]); by intros [= <-]. Qed.

Lemma flush_nonzero {A} win cmd b bs d (x1 x2 : A) :
  flush_bits win cmd = Some b →
  (if has_config_changes (mkFlush win (Z.lor d (foldl Z.lor b bs))) then x1 else x2) = x1.
Proof.
  intros Hb%flush_bits_nonzero. unfold has_config_changes. cbn.
  destruct (Z.eqb_spec (Z.lor d (foldl Z.lor b bs)) 0) as [E|E]; [|done].
  apply Z.lor_eq_0_iff in E as [_ E%foldl_lor_zero]. done.
Qed.

(** ** Reserved areas *)

Lemma adjust_inset_zero m e :
  0 ≤ x (mon_size m) → 0 ≤ y (mon_size m) → adjust_inset m e 0 = m.
Proof.
  intros Hx Hy. destruct m as [i n [px py] [sx sy] a t b l r].
  destruct e; cbn in *; unfold upd; cbn; f_equal; try apply (f_equal2 mkVec2); lia.
Qed.

(** [ReserveMonitorArea] of one monitor. *)
Lemma reserve_run c mon edge px m :
  vget (monitors (wsman c)) mon = Some m → 0 ≤ x (mon_size m) → 0 ≤ y (mon_size m) →
  dispatch_ReserveMonitorArea mon edge px c = Some (true, c <| wsman := (wsman c) <| monitors :=
    <[Z.to_nat mon := adjust_inset m edge (px - inset m edge)]> (monitors (wsman c)) |> |>).
Proof.
  intros Hm Hx Hy. pose proof (vget_Some_range _ _ _ Hm) as Hr.
  unfold dispatch_ReserveMonitorArea, bind at 1, gets.
  rewrite (proj2 (Z.ltb_ge _ _)), (proj2 (Z.ltb_lt _ _)) by lia.
  unfold reserve_on, bind, checked. rewrite Hm. cbv zeta.
  destruct (Z.eqb_spec (px - inset m edge) 0) as [E|E]; cbn [negb].
  - unfold ret. rewrite E, adjust_inset_zero by done. pose proof (vget_lookup _ _ _ Hm) as (k & -> & Hk).
    rewrite Nat2Z.id, list_insert_id by done. by destruct c as [[] ? ? ? ? ? ? ? ? ? ? ? ?].
  - unfold on_wsman, zoom, modify, ret, adjust_monitor_inset. rewrite Hm.
    by rewrite (proj2 (Z.eqb_neq _ _) E).
Qed.

Lemma reserve_release_run c mon edge px m :
  vget (monitors (wsman c)) mon = Some m → 0 ≤ x (mon_size m) → 0 ≤ y (mon_size m) →
  inset m edge = 0 → fits m edge px →
  ∃ c1, dispatch_ReserveMonitorArea mon edge px c = Some (true, c1) ∧
    vget (monitors (wsman c1)) mon = Some (adjust_inset m edge px) ∧
    dispatch_ReserveMonitorArea mon edge 0 c1 = Some (true, c).
Proof.
  intros Hm Hx Hy Hi Hf. pose proof (vget_Some_range _ _ _ Hm) as Hr.
  pose proof (reserve_run c mon edge px m Hm Hx Hy) as E1. rewrite Hi, Z.sub_0_r in E1.
  set (c1 := c <| wsman := _ |>) in E1. exists c1. split; [exact E1|].
  assert (Hm1 : vget (monitors (wsman c1)) mon = Some (adjust_inset m edge px))
    by (by apply vget_insert_eq).
  split; [exact Hm1|].
  pose proof (reserve_run c1 mon edge 0 _ Hm1) as E2. rewrite E2; [|by destruct edge; cbn; lia..].
  rewrite inset_adjust_inset, Hi. replace (0 - (0 + px)) with (- px) by lia.
  rewrite adjust_inset_inverse by done. do 2 f_equal. unfold c1. cbn.
  rewrite list_insert_insert_eq. pose proof (vget_lookup _ _ _ Hm) as (k & -> & Hk).
  rewrite Nat2Z.id, list_insert_id by done. by destruct c as [[] ? ? ? ? ? ? ? ? ? ? ? ?].
Qed.

(** ** The master factor *)

Lemma master_factor_run c f :
  core_ok c → is_nan (f (master_factor (layout_cfg c))) = false →
  wp (set_master_factor f) (λ r c', r = true ∧
    master_factor (layout_cfg c') = f32_clamp (f (master_factor (layout_cfg c))) f32_0_1 f32_0_9) c.
Proof.
  intros Hc Hn. unfold set_master_factor. do 2 wp_step. set (c1 := c <| layout_cfg ::= _ |>).
  assert (Hc1 : core_ok c1).
  { destruct Hc as [? [? ?] ? ?]. constructor; try done. split; [done|]. by apply f32_clamp_finite. }
  wp_step. eapply wp_mono; [eapply wp_framed; [exact Hc1|by apply safe_arrange|exact frames_arrange]|].
  cbv beta. intros [] c2 (_ & _ & [_ _ _ _ _ Hcfg]). wp_step. split; [done|]. by rewrite Hcfg.
Qed.

(** ** Notifications *)

(** After a position command a notification changes size and border only; once
    the flush is taken it changes everything. *)
Lemma notify_after_position win np np' ns bw p w c :
  find_window_in_all (wsman c) win = Some p → wins (wsman c) !! p = Some w →
  pending_window_flushes c !! win = None →
  wp (dispatch_SetWindowPosition win np ;;
      dispatch_SyncWindowFromConfigureNotify win np' ns bw)
     (λ r c1, r = true ∧ find_window_in_all (wsman c1) win = Some p ∧
        wins (wsman c1) !! p = Some (w <| pos := np |> <| size := ns |> <| border_width := bw |>) ∧
        pending_window_flushes c1 !! win = Some (mkFlush win FlushPosition)) c.
Proof.
  intros Hp Hw Hn. unfold dispatch_SetWindowPosition, find_win. wp_step.
  do 2 wp_step. rewrite Hp. wp_step. unfold set_window at 1, on_wsman at 1. wp_step.
  eapply wp_modify_window; [done|]. wp_step.
  eapply wp_mono; [apply mark_flushed|]. cbv beta. intros [] c1 [(Hf & _) E]. wp_step.
  cbn in Hf. rewrite Hn in Hf. cbn in Hf.
  eapply wp_mono; [apply (notify_spec win np' ns bw p (w <| pos := np |>)); rewrite E; cbn|].
  - done.
  - by rewrite lookup_insert_eq.
  - cbv beta. intros r c2 [-> ->]. cbn. rewrite E. cbn. rewrite lookup_insert_eq, Hf.
    split_and!; [done..| |done]. unfold sync_fields. cbn. by destruct np, ns.
Qed.
