(* ===== verification/CoreProps.v ===== *)
(** * Properties of the core

    The claims about [Core], each with a witness on a concrete core: two
    monitors, three workspaces, three windows. *)

From S2P Require Import Prelude Geometry Float32 Layout Workspace WorkspaceManager WindowIndex ManagerInv.
From S2P Require Import Pools ManagerOps ManagerFocus Events Commands Core Dispatch.
From S2P Require Import CoreSafe CoreRun CoreFrame CoreFocus CoreCommands CoreSpecs Hotplug.
Local Open Scope Z_scope.

(** ** The concrete core of the witnesses *)

Definition ex_mons : list Monitor :=
  [new_monitor 0 "eDP-1" 0 0 1920 1080; new_monitor 1 "HDMI-1" 1920 0 2560 1440].
Definition ex_settings : CoreSettings :=
  mkSettings [] (mkMonitorCompose "" [] false)
    [mkWorkspaceDef "[1]" ""; mkWorkspaceDef "[2]" ""; mkWorkspaceDef "[3]" ""] default_theme.
Definition ex_calls : list core_call :=
  [CallAtom (EnsureWindow 11 0); CallAtom (EnsureWindow 12 0); CallAtom (EnsureWindow 13 1);
   CallAtom (MapWindow 11); CallAtom (MapWindow 12); CallAtom (MapWindow 13);
   CallSetSink (Some []); CallAtom ReconcileNow].

Definition run_from (st : CoreSettings) (mons : list Monitor) (calls : list core_call)
    : option (unit * core) :=
  (core_init mons ;; run_calls calls) (configured None st).

Lemma configured_ok fac st :
  (∀ f win w, fac = Some f → f win = Some w → id w = win) → core_ok (configured fac st).
Proof.
  intros Hfac. constructor; cbn; try done. by apply empty_wm_ok.
Qed.

Lemma run_from_ok fac st mons calls :
  (∀ f win w, fac = Some f → f win = Some w → id w = win) → Forall call_ok calls →
  wp (core_init mons ;; run_calls calls) (λ _ c, core_ok c) (configured fac st).
Proof.
  intros Hfac Hcalls. wp_step. eapply wp_mono; [by apply core_init_ok, configured_ok|].
  cbv beta. intros [] c [Hc _]. by apply run_calls_ok.
Qed.

(** The core a run ends in. *)
Definition result_core (o : option (unit * core)) : core :=
  match o with Some (_, c) => c | None => new_core end.

Definition ex_core : core := result_core (run_from ex_settings ex_mons ex_calls).

Lemma run_result_ok st mons calls :
  Forall call_ok calls → core_ok (result_core (run_from st mons calls)).
Proof.
  intros Hcalls. pose proof (run_from_ok None st mons calls ltac:(done) Hcalls) as H.
  unfold run_from, wp in *. by destruct ((core_init mons ;; run_calls calls) _) as [[[] c]|].
Qed.

Lemma ex_core_ok : core_ok ex_core.
Proof. apply run_result_ok. by repeat constructor. Qed.

(** The core once the backend has taken every flush. *)
Definition clear_flushes (c : core) : core := c <| pending_window_flushes := ∅ |>.

(** ** Safety *)

(** C1: from a fresh core, initialisation followed by any sequence of commands
    and calls that their callers may make ([call_ok]) never reaches undefined
    behaviour (no subscript out of range, no null dereference, no failed consistency
    assertion, no division by zero), and the state it ends in satisfies the
    invariant of the core.  The calls are those with settings that have a workspace
    ([update_workspace_defs] reads out of range otherwise), no master factor that is
    not a number ([nan_factor_undefined]), snapshots taken from a core, and Lua
    layouts that return; the backend makes windows with the identifier it is asked
    for.  Numbers are unbounded, so that the overflow of an [int] is not among what
    is excluded ([inc_master_overflows]). *)
Theorem core_never_fails fac st mons calls :
  (∀ f win w, fac = Some f → f win = Some w → id w = win) → Forall call_ok calls →
  ∃ c, (core_init mons ;; run_calls calls) (configured fac st) = Some (tt, c) ∧ core_ok c.
Proof.
  intros Hfac Hcalls. pose proof (run_from_ok fac st mons calls Hfac Hcalls) as H.
  apply wp_some in H as ([] & c & E & Hc). by exists c.
Qed.

Lemma core_never_fails_witness :
  ∃ c, (core_init ex_mons ;; run_calls ex_calls) (configured None ex_settings) = Some (tt, c) ∧
    core_ok c.
Proof. apply core_never_fails; [done|]. by repeat constructor. Defined.

(** The state a command leaves, when it returns [r]. *)
Definition dispatch (cmd : CommandAtom + CommandComposite) : M core bool :=
  match cmd with
  | inl a => dispatch_atom a
  | inr b => dispatch_composite b
  end.

Definition command_ok (cmd : CommandAtom + CommandComposite) : Prop :=
  match cmd with inl a => atom_ok a | inr b => composite_ok b end.

(** C2: every command, from a state of the invariant, returns and keeps the
    invariant; no window object is lost or renamed, an explicitly hidden window
    stays hidden, the number of workspaces stays, queued effects and events are
    only appended to, and settings, layouts and key bindings are untouched.  The
    numbers of a command must be numbers. *)
Theorem dispatch_evolves cmd c :
  command_ok cmd → core_ok c → ∃ r c', dispatch cmd c = Some (r, c') ∧ core_ok c' ∧ evolves c c'.
Proof.
  intros Hcmd Hc. apply wp_some. destruct cmd as [a|b]; cbn [dispatch].
  - by apply safe_dispatch_atom.
  - by apply safe_dispatch_composite.
Qed.

Lemma dispatch_evolves_witness :
  ∃ r c', dispatch (inl (MoveWindowToWorkspace 11 2)) ex_core = Some (r, c') ∧ core_ok c' ∧
    evolves ex_core c'.
Proof. apply dispatch_evolves; [exact I|exact ex_core_ok]. Defined.

(** One command from Lua takes a number of the core out of the range of [int]: what
    the code computes as [int] has no defined value. *)
Lemma inc_master_overflows :
  match dispatch (inr (IncMaster 2147483647)) ex_core with
  | Some (_, c) => 2147483647 < nmaster (layout_cfg c)
  | None => False
  end.
Proof. by vm_compute. Qed.

(** ** Focus *)

(** C26: every call of [Core::focus], one that changes nothing included, emits
    exactly one focus effect and posts exactly one [FocusChanged], both for the
    window it settles on (or for none); what follows is restacking only; and when
    that window's workspace has a monitor, the focus derived from the workspace
    manager is that window.  (The declaration of [focus] says that the event is
    emitted once per real transition.) *)
Theorem focus_once c win :
  core_ok c → ∃ c', focus win c = Some (tt, c') ∧ core_ok c' ∧
    focus_output (focus_target (wsman c) win) c c' ∧
    (focus_target (wsman c) win ≠ NO_WINDOW →
     0 ≤ monitor_of (wsman c) (workspace_of_window (wsman c) (focus_target (wsman c) win)) →
     focused_window_id (wsman c') = focus_target (wsman c) win).
Proof.
  intros Hc. pose proof (focus_spec c win Hc) as H. apply wp_some in H as ([] & c' & E & H).
  by exists c'.
Qed.

Lemma focus_once_witness :
  focus_target (wsman ex_core) 12 = 12 ∧
  ∃ c', focus 12 ex_core = Some (tt, c') ∧ core_ok c' ∧
    focus_output (focus_target (wsman ex_core) 12) ex_core c' ∧
    (focus_target (wsman ex_core) 12 ≠ NO_WINDOW →
     0 ≤ monitor_of (wsman ex_core)
           (workspace_of_window (wsman ex_core) (focus_target (wsman ex_core) 12)) →
     focused_window_id (wsman c') = focus_target (wsman ex_core) 12).
Proof. split; [by vm_compute|]. apply focus_once. exact ex_core_ok. Defined.

(** ** Visibility *)

(** After [sync_workspace_visibility] a window is hidden by its workspace
    exactly when no monitor shows that workspace, and a second call changes
    nothing and emits nothing. *)
Theorem sync_visibility_settles c :
  core_ok c → ∃ c', sync_workspace_visibility c = Some (tt, c') ∧ all_in_sync c' ∧
    sync_workspace_visibility c' = Some (tt, c').
Proof.
  intros Hc. pose proof (sync_visibility_spec c (ok_windows _ (co_wm _ Hc))) as H.
  apply wp_some in H as ([] & c' & E & Hs). exists c'. split; [done|]. split; [done|].
  by apply sync_visibility_noop.
Qed.

Lemma sync_visibility_settles_witness :
  ∃ c', sync_workspace_visibility ex_core = Some (tt, c') ∧ all_in_sync c' ∧
    sync_workspace_visibility c' = Some (tt, c').
Proof. apply sync_visibility_settles. exact ex_core_ok. Defined.

(** ** Arranging *)

(** [arrange] returns, and changes only positions, sizes and border widths
    of windows; the only effects are [UpdateWindow], and no event is posted. *)
Theorem arrange_only_geometry c :
  core_ok c → ∃ c', arrange c = Some (tt, c') ∧ core_ok c' ∧ arrange_frame c c'.
Proof.
  intros Hc. pose proof (safe_arrange (λ _, True) stable_True c Hc I) as H.
  apply wp_some in H as ([] & c' & E & Hc' & _). exists c'. split_and!; [done..|].
  by eapply frames_arrange.
Qed.

Lemma arrange_only_geometry_witness :
  ∃ c', arrange ex_core = Some (tt, c') ∧ core_ok c' ∧ arrange_frame ex_core c'.
Proof. apply arrange_only_geometry. exact ex_core_ok. Defined.

(** ** Moving windows and switching workspaces *)

(** C27: moving a known window to an existing workspace returns true, puts that
    window on that workspace, and leaves every other window on its own. *)
Theorem move_window_to_workspace c win ws p :
  core_ok c → find_window_in_all (wsman c) win = Some p → 0 ≤ ws < workspace_count c →
  ∃ c', dispatch_atom (MoveWindowToWorkspace win ws) c = Some (true, c') ∧ core_ok c' ∧
    workspace_of_window (wsman c') win = ws ∧
    (∀ other, other ≠ win →
       workspace_of_window (wsman c') other = workspace_of_window (wsman c) other) ∧
    window_index (wsman c') = window_index (wsman c).
Proof.
  intros Hc Hp Hws. pose proof (move_window_spec c win ws p Hc Hp Hws) as H.
  apply wp_some in H as (r & c' & E & -> & Hc' & H). by exists c'.
Qed.

Lemma move_window_to_workspace_witness :
  ∃ c', dispatch_atom (MoveWindowToWorkspace 11 2) ex_core = Some (true, c') ∧ core_ok c' ∧
    workspace_of_window (wsman c') 11 = 2 ∧
    (∀ other, other ≠ 11 →
       workspace_of_window (wsman c') other = workspace_of_window (wsman ex_core) other) ∧
    window_index (wsman c') = window_index (wsman ex_core).
Proof. apply (move_window_to_workspace _ _ _ 1%positive); [exact ex_core_ok|by vm_compute..]. Defined.

(** Switching to an existing workspace returns true and shows it: it is the
    active workspace of the monitor that owns it, that monitor records it, and
    a workspace that has a monitor is not moved to another one; focusing the
    best candidate afterwards shows nothing else. *)
Theorem switch_workspace_shows c ws hint :
  core_ok c → 0 ≤ ws < workspace_count c → monitors (wsman c) ≠ [] →
  ∃ c', dispatch_atom (SwitchWorkspace ws hint) c = Some (true, c') ∧ core_ok c' ∧
    shown ws (wsman c') ∧ synced (wsman c') ∧
    (0 ≤ monitor_of (wsman c) ws → monitor_of (wsman c') ws = monitor_of (wsman c) ws).
Proof.
  intros Hc Hws Hne. pose proof (switch_workspace_spec c ws hint Hc Hws Hne) as H.
  apply wp_some in H as (r & c' & E & -> & H). by exists c'.
Qed.

Lemma switch_workspace_shows_witness :
  ∃ c', dispatch_atom (SwitchWorkspace 2 None) ex_core = Some (true, c') ∧ core_ok c' ∧
    shown 2 (wsman c') ∧ synced (wsman c') ∧
    (0 ≤ monitor_of (wsman ex_core) 2 →
     monitor_of (wsman c') 2 = monitor_of (wsman ex_core) 2).
Proof. apply switch_workspace_shows; [exact ex_core_ok|by vm_compute..]. Defined.

(** A command for a window the core does not know returns false and changes
    nothing: no state, no effect, no event. *)
Theorem unknown_window_rejected cmd win c :
  window_target cmd = Some win → find_window_in_all (wsman c) win = None →
  dispatch_atom cmd c = Some (false, c).
Proof. apply unknown_rejected. Qed.

Lemma unknown_window_rejected_witness :
  find_window_in_all (wsman ex_core) 99 = None ∧
  dispatch_atom (SetWindowFullscreen 99 true false) ex_core = Some (false, ex_core).
Proof.
  split; [by vm_compute|]. apply (unknown_window_rejected _ 99); by vm_compute.
Defined.

(** ** Pending geometry *)

(** A sequence of geometry commands for a window leaves one flush that is
    the union of what they marked; the backend takes it once, and the flushes of
    other windows stay. *)
Theorem flush_taken_once win cmd cmds b bs p c :
  flush_bits win cmd = Some b → Forall2 (λ cmd b, flush_bits win cmd = Some b) cmds bs →
  find_window_in_all (wsman c) win = Some p → is_Some (wins (wsman c) !! p) →
  ∃ c1 c2, for_each (cmd :: cmds) (λ cmd, dispatch_atom cmd ;; ret tt) c = Some (tt, c1) ∧
    take_window_flush win c1 = Some (Some (mkFlush win
      (Z.lor (dirty (pending_window_flushes c !! win)) (foldl Z.lor b bs))), c2) ∧
    take_window_flush win c2 = Some (None, c2) ∧
    ∀ o, o ≠ win → pending_window_flushes c2 !! o = pending_window_flushes c !! o.
Proof.
  intros Hb Hbs Hp Hw. pose proof (geometry_seq_flushed win cmd b cmds bs p c Hb Hbs Hp Hw) as H.
  apply wp_some in H as ([] & c1 & E1 & H1 & H2 & _).
  pose proof (take_flush_spec win _ c1 H1) as H. apply wp_some in H as (r & c2 & E2 & -> & Hd & _).
  exists c1, c2. split; [done|]. split; [rewrite E2; by erewrite flush_nonzero|]. split.
  - apply take_flush_none. by rewrite Hd, lookup_delete_eq.
  - intros o Ho. rewrite Hd, lookup_delete_ne by done. by apply H2.
Qed.

Lemma flush_taken_once_witness :
  ∃ c1 c2, for_each [SetWindowPosition 11 (mkVec2 5 5); SetWindowSize 11 (mkVec2 300 200)]
      (λ cmd, dispatch_atom cmd ;; ret tt) ex_core = Some (tt, c1) ∧
    take_window_flush 11 c1 = Some (Some (mkFlush 11
      (Z.lor (dirty (pending_window_flushes ex_core !! 11)) (foldl Z.lor FlushPosition [FlushSize]))), c2) ∧
    take_window_flush 11 c2 = Some (None, c2) ∧
    ∀ o, o ≠ 11 → pending_window_flushes c2 !! o = pending_window_flushes ex_core !! o.
Proof.
  apply (flush_taken_once 11 _ _ _ _ 1%positive); [done|by repeat constructor|by vm_compute|].
  vm_compute. by eexists.
Defined.

(** A ConfigureNotify does not undo a geometry change the backend has not
    flushed yet: after SetWindowPosition it changes size and border only; once
    the backend has taken the flush, the next one changes the position too. *)
Theorem notify_respects_pending win np np' ns bw p w c :
  find_window_in_all (wsman c) win = Some p → wins (wsman c) !! p = Some w →
  pending_window_flushes c !! win = None →
  ∃ c1 c2, (dispatch_SetWindowPosition win np ;;
            dispatch_SyncWindowFromConfigureNotify win np' ns bw) c = Some (true, c1) ∧
    wins (wsman c1) !! p = Some (w <| pos := np |> <| size := ns |> <| border_width := bw |>) ∧
    (take_window_flush win ;;
     dispatch_SyncWindowFromConfigureNotify win np' ns bw) c1 = Some (true, c2) ∧
    wins (wsman c2) !! p = Some (w <| pos := np' |> <| size := ns |> <| border_width := bw |>).
Proof.
  intros Hp Hw Hn. pose proof (notify_after_position win np np' ns bw p w c Hp Hw Hn) as H.
  apply wp_some in H as (r & c1 & E1 & -> & Hp1 & Hw1 & Hf1).
  assert (H : wp (take_window_flush win ;; dispatch_SyncWindowFromConfigureNotify win np' ns bw)
    (λ r c2, r = true ∧ wins (wsman c2) !! p =
       Some (w <| pos := np' |> <| size := ns |> <| border_width := bw |>)) c1).
  { wp_step. eapply wp_mono; [by apply take_flush_spec|]. cbv beta. intros o c2 (_ & Ed & Ew).
    eapply wp_mono; [apply notify_spec; by rewrite Ew|]. cbv beta. intros r c3 [-> ->]. cbn.
    split; [done|]. rewrite lookup_insert_eq, Ed, lookup_delete_eq.
    unfold sync_fields. cbn. by destruct w, ns, np'. }
  apply wp_some in H as (r & c2 & E2 & -> & Hw2). by exists c1, c2.
Qed.

Lemma notify_respects_pending_witness :
  let c := clear_flushes ex_core in
  ∃ w c1 c2, wins (wsman c) !! 1%positive = Some w ∧
    (dispatch_SetWindowPosition 11 (mkVec2 7 7) ;;
     dispatch_SyncWindowFromConfigureNotify 11 (mkVec2 0 0) (mkVec2 640 480) 1) c = Some (true, c1) ∧
    wins (wsman c1) !! 1%positive =
      Some (w <| pos := mkVec2 7 7 |> <| size := mkVec2 640 480 |> <| border_width := 1 |>) ∧
    (take_window_flush 11 ;;
     dispatch_SyncWindowFromConfigureNotify 11 (mkVec2 0 0) (mkVec2 640 480) 1) c1 = Some (true, c2) ∧
    wins (wsman c2) !! 1%positive =
      Some (w <| pos := mkVec2 0 0 |> <| size := mkVec2 640 480 |> <| border_width := 1 |>).
Proof.
  intros c. set (w := default (new_window 11) (wins (wsman c) !! 1%positive)).
  assert (Hw : wins (wsman c) !! 1%positive = Some w) by (by vm_compute).
  destruct (notify_respects_pending 11 (mkVec2 7 7) (mkVec2 0 0) (mkVec2 640 480) 1 1%positive w c)
    as (c1 & c2 & H); [by vm_compute|exact Hw|done|]. exists w, c1, c2. split; [exact Hw|exact H].
Defined.

(** ** Zoom, layout and reserved areas *)

(** Zoom either does nothing and returns false, or exchanges windows of the
    current workspace (the same windows in another order) and the window that
    had the focus there keeps it. *)
Theorem zoom_keeps_focus c :
  core_ok c → ∃ r c', dispatch_composite Zoom c = Some (r, c') ∧ core_ok c' ∧
    (r = false → c' = c) ∧ (r = true → zoomed (wsman c) (wsman c')).
Proof.
  intros Hc. pose proof (zoom_spec c Hc) as H. apply wp_some in H as (r & c' & E & H). by exists r, c'.
Qed.

Lemma zoom_keeps_focus_witness :
  ∃ r c', dispatch_composite Zoom ex_core = Some (r, c') ∧ core_ok c' ∧
    (r = false → c' = ex_core) ∧ (r = true → zoomed (wsman ex_core) (wsman c')).
Proof. apply zoom_keeps_focus. exact ex_core_ok. Defined.

(** Reserving an edge shrinks the workspace area of the monitor by what was
    asked for and leaves its physical rectangle alone, and releasing it restores
    the core exactly, as long as the area does not run out. *)
Theorem reserve_release c mon edge px m :
  vget (monitors (wsman c)) mon = Some m → 0 ≤ x (mon_size m) → 0 ≤ y (mon_size m) →
  inset m edge = 0 → 0 ≤ px → fits m edge px →
  ∃ c1 m1, dispatch_atom (ReserveMonitorArea mon edge px) c = Some (true, c1) ∧
    vget (monitors (wsman c1)) mon = Some m1 ∧ inset m1 edge = px ∧ physical m1 = physical m ∧
    dispatch_atom (ReserveMonitorArea mon edge 0) c1 = Some (true, c).
Proof.
  intros Hm Hx Hy Hi Hpx Hf. destruct (reserve_release_run c mon edge px m) as (c1 & E1 & Hm1 & E2); [done..|].
  exists c1, (adjust_inset m edge px). split_and!; [done|done| | |done].
  - rewrite inset_adjust_inset. lia.
  - apply physical_adjust_inset; [done|lia..].
Qed.

Lemma reserve_release_witness :
  ∃ m c1 m1, vget (monitors (wsman ex_core)) 0 = Some m ∧
    dispatch_atom (ReserveMonitorArea 0 Top 18) ex_core = Some (true, c1) ∧
    vget (monitors (wsman c1)) 0 = Some m1 ∧ inset m1 Top = 18 ∧ physical m1 = physical m ∧
    dispatch_atom (ReserveMonitorArea 0 Top 0) c1 = Some (true, ex_core).
Proof.
  set (m := default ex_mon (vget (monitors (wsman ex_core)) 0)).
  assert (Hm : vget (monitors (wsman ex_core)) 0 = Some m) by (by vm_compute).
  destruct (reserve_release ex_core 0 Top 18 m) as (c1 & m1 & H); [exact Hm|by vm_compute..|].
  exists m, c1, m1. split; [exact Hm|exact H].
Defined.

(** From a core of the invariant, whatever number a command sets or adds,
    the command returns true and the master factor ends up neither below 0.1
    nor above 0.9. *)
Theorem master_factor_bounded c (set_ : float + float) :
  core_ok c → is_nan (match set_ with inl v => v | inr d => d end) = false →
  ∃ c', dispatch (match set_ with inl v => inl (SetMasterFactor v)
                                | inr d => inr (AdjustMasterFactor d) end) c = Some (true, c') ∧
    f32_ltb (master_factor (layout_cfg c')) f32_0_1 = false ∧
    f32_ltb f32_0_9 (master_factor (layout_cfg c')) = false ∧
    is_finite (master_factor (layout_cfg c')) = true.
Proof.
  intros Hc Hn.
  assert (Hn' : is_nan (match set_ with inl v => v
      | inr d => f32_add (master_factor (layout_cfg c)) d end) = false).
  { destruct set_; [done|]. apply f32_add_not_nan; [apply (co_cfg _ Hc)|done]. }
  assert (H : wp (dispatch (match set_ with inl v => inl (SetMasterFactor v)
      | inr d => inr (AdjustMasterFactor d) end)) (λ r c', r = true ∧
    master_factor (layout_cfg c') = f32_clamp (match set_ with inl v => v
      | inr d => f32_add (master_factor (layout_cfg c)) d end) f32_0_1 f32_0_9) c).
  { destruct set_; by apply master_factor_run. }
  apply wp_some in H as (r & c' & E & -> & Hmf). exists c'. rewrite Hmf.
  destruct (f32_clamp_range _ Hn'). split_and!; [done..|]. by apply f32_clamp_finite.
Qed.

Lemma master_factor_bounded_witness :
  ∃ c', dispatch (inr (AdjustMasterFactor f32_0_9)) ex_core = Some (true, c') ∧
    f32_ltb (master_factor (layout_cfg c')) f32_0_1 = false ∧
    f32_ltb f32_0_9 (master_factor (layout_cfg c')) = false ∧
    is_finite (master_factor (layout_cfg c')) = true.
Proof. apply (master_factor_bounded _ (inr f32_0_9)); [exact ex_core_ok|by vm_compute]. Defined.

(** The clamp lets a NaN through: with two tiled windows on a workspace,
    adjusting the master factor by a NaN makes the next arrangement convert a
    NaN to an integer, which is undefined. *)
Theorem nan_factor_undefined :
  core_ok ex_core ∧ dispatch (inr (AdjustMasterFactor f32_nan)) ex_core = None ∧
  dispatch (inl (SetMasterFactor f32_nan)) ex_core = None.
Proof. split; [exact ex_core_ok|]. split; by vm_compute. Qed.
