(* ===== verification/TopologyProps.v ===== *)
(** * Properties of the monitor topology and of reloads

    The claims about the distribution of workspaces over monitors, monitor
    hot-plug, the reload of settings and the size hints, each with a witness on
    the core of [CoreProps]. *)

From S2P Require Import Prelude Geometry Float32 Layout Workspace WorkspaceManager WindowIndex ManagerInv.
From S2P Require Import Pools ManagerOps ManagerFocus Events Commands Core Dispatch.
From S2P Require Import CoreSafe CoreRun CoreFrame CoreFocus CoreCommands CoreSpecs Hotplug.
From S2P Require Import CoreProps.
Local Open Scope Z_scope.

(** ** Workspaces and monitors *)

(** Workspace [k] is in the pool of monitor [m], once, and in no other pool. *)
Definition placed_once (s : wm) (k : nat) (m : Z) : Prop :=
  monitor_of s (Z.of_nat k) = m ∧ 0 ≤ m < vsize (monitors s) ∧
  ∀ j pool, monitor_pools s !! j = Some pool →
    NoDup pool ∧ (Z.of_nat k ∈ pool ↔ Z.of_nat j = m).

Lemma owner_placed_once s k m :
  wm_ok s → ws_owner s !! k = Some (Z.of_nat m) → placed_once s k (Z.of_nat m).
Proof.
  intros Hok Hk. pose proof (ok_pools _ Hok) as Hp.
  destruct (monitor_of_lookup _ _ _ Hp Hk) as [Hm Hr]. split_and!; [done|lia|lia|].
  intros j pool Hj. split; [by eapply po_nodup|]. split.
  - intros Hin. destruct (po_pool _ _ _ _ _ Hp _ _ _ Hj Hin) as (i & E & Hi).
    apply Nat2Z.inj in E as <-. congruence.
  - intros E. apply Nat2Z.inj in E as ->.
    destruct (po_owner _ _ _ _ _ Hp _ _ Hk) as [?|(m' & pool' & E & Hpool & Hin)]; [lia|].
    apply Nat2Z.inj in E as <-. congruence.
Qed.

(** C28: [assign_workspaces] gives every workspace exactly one monitor, in whose
    pool it is once: the monitor its definition names, when that alias
    resolves, else the monitor it had, when it had one. *)
Theorem assign_partitions al cp s :
  wm_ok s → monitors s ≠ [] →
  wm_ok (assign_workspaces al cp s) ∧ synced (assign_workspaces al cp s) ∧
  ∀ k ws, workspaces s !! k = Some ws →
    ∃ m, placed_once (assign_workspaces al cp s) k m ∧ assigned al s k ws m.
Proof.
  intros Hok Hne. destruct (assign_workspaces_ok al cp s) as [Hok' Hs]; [apply Hok..|].
  split_and!; [done..|]. intros k ws Hk.
  destruct (assign_spec al cp s k ws Hok Hne Hk) as (m & Hm & _ & Ha).
  exists (Z.of_nat m). split; [by apply owner_placed_once|done].
Qed.

Ltac solve_distinct := match goal with |- distinct ?l => apply (bool_decide_unpack (NoDup (mon_name <$> l))) end;
  vm_compute; exact I.

Definition ex_aliases : list MonitorAlias := [mkMonitorAlias "main" "HDMI-1" 0 0 0 "normal" true].
Definition ex_pinned : wm := wsman (result_core (run_from
  (mkSettings ex_aliases (mkMonitorCompose "" [] false)
     [mkWorkspaceDef "[1]" ""; mkWorkspaceDef "[2]" "main"; mkWorkspaceDef "[3]" "gone"] default_theme)
  ex_mons [])).
Lemma ex_pinned_ok : wm_ok ex_pinned.
Proof. apply co_wm, run_result_ok. constructor. Qed.

Lemma assign_partitions_witness :
  let s' := assign_workspaces ex_aliases (mkMonitorCompose "main" [] false) ex_pinned in
  wm_ok s' ∧ synced s' ∧
  ∀ k ws, workspaces ex_pinned !! k = Some ws →
    ∃ m, placed_once s' k m ∧ assigned ex_aliases ex_pinned k ws m.
Proof. apply assign_partitions; [exact ex_pinned_ok|by vm_compute]. Defined.

(** A monitor that stays connected keeps its workspaces, wherever it is in
    the new list, and goes on showing the one it showed. *)
Theorem hotplug_keeps_monitor mons s m j om nm i :
  wm_ok s → distinct (monitors s) → distinct mons → monitors s !! m = Some om →
  mons !! j = Some nm → mon_name nm = mon_name om → ws_owner s !! i = Some (Z.of_nat m) →
  unparked s i →
  placed_once (set_monitors mons s) i (Z.of_nat j) ∧
  (active_ws_of_monitor s (Z.of_nat m) = Z.of_nat i →
   active_ws_of_monitor (set_monitors mons s) (Z.of_nat j) = Z.of_nat i).
Proof.
  intros Hok Hd Hd' Hm Hj En Ho Hun.
  destruct (set_monitors_keeps mons s m j om nm i) as [H1 H2]; [done..|]. split; [|done].
  apply owner_placed_once; [apply set_monitors_ok; apply Hok|by apply monitor_of_owner].
Qed.

Definition ex_swapped : list Monitor :=
  [new_monitor 0 "HDMI-1" 0 0 2560 1440; new_monitor 1 "eDP-1" 2560 0 1920 1080].

Lemma hotplug_keeps_monitor_witness :
  let s := wsman ex_core in
  placed_once (set_monitors ex_swapped s) 0 1 ∧
  (active_ws_of_monitor s 0 = 0 → active_ws_of_monitor (set_monitors ex_swapped s) 1 = 0).
Proof.
  intros s. set (om := default ex_mon (monitors s !! 0%nat)).
  assert (Hm : monitors s !! 0%nat = Some om) by (by vm_compute).
  apply (hotplug_keeps_monitor ex_swapped s 0 1 om (new_monitor 1 "eDP-1" 2560 0 1920 1080) 0);
    [apply (co_wm _ ex_core_ok)|by solve_distinct|by solve_distinct|exact Hm|by vm_compute..|].
  intros name pool. by vm_compute.
Defined.

(** C29: unplugging one monitor and plugging monitors with the same names in
    again, in any order, restores the distribution of workspaces: every
    workspace is with the monitor of its old owner's name, and what a monitor
    showed before it shows again. *)
Theorem replug_round_trip s mons1 mons2 m om :
  wm_ok s → distinct (monitors s) → distinct mons1 → distinct mons2 → parked_pools s = ∅ →
  monitors s !! m = Some om → (∀ nm, nm ∈ mons1 → mon_name nm ≠ mon_name om) →
  (∀ x, x ∈ monitors s → mon_name x ≠ mon_name om → ∃ nm, nm ∈ mons1 ∧ mon_name nm = mon_name x) →
  ∀ k x i j nm, monitors s !! k = Some x → ws_owner s !! i = Some (Z.of_nat k) →
    mons2 !! j = Some nm → mon_name nm = mon_name x →
    let s2 := set_monitors mons2 (set_monitors mons1 s) in
    placed_once s2 i (Z.of_nat j) ∧
    (active_ws_of_monitor s (Z.of_nat k) = Z.of_nat i →
     active_ws_of_monitor s2 (Z.of_nat j) = Z.of_nat i).
Proof.
  intros Hok Hd Hd1 Hd2 He Hm Hg Hs k x i j nm Hk Hi Hj En s2.
  destruct (replug s mons1 mons2 m om Hok Hd Hd1 Hd2 He Hm Hg Hs k x i j nm) as [H1 H2]; [done..|].
  split; [|exact H2]. apply owner_placed_once; [|by apply monitor_of_owner].
  apply set_monitors_ok; apply set_monitors_ok; apply Hok.
Qed.

Lemma replug_round_trip_witness :
  let s := wsman ex_core in
  let s2 := set_monitors ex_swapped (set_monitors [new_monitor 0 "eDP-1" 0 0 1920 1080] s) in
  placed_once s2 1 0 ∧
  (active_ws_of_monitor s 1 = 1 → active_ws_of_monitor s2 0 = 1).
Proof.
  intros s. set (om := default ex_mon (monitors s !! 1%nat)).
  assert (Hm : monitors s !! 1%nat = Some om) by (by vm_compute).
  apply (replug_round_trip s [new_monitor 0 "eDP-1" 0 0 1920 1080] ex_swapped 1 om
    (co_wm _ ex_core_ok) ltac:(solve_distinct) ltac:(solve_distinct) ltac:(solve_distinct)
    ltac:(by vm_compute) Hm) with (k := 1%nat) (x := om) (i := 1%nat) (j := 0%nat) (nm := new_monitor 0 "HDMI-1" 0 0 2560 1440);
    [| |exact Hm|by vm_compute|by vm_compute|by vm_compute].
  - intros nm ->%list_elem_of_singleton. by vm_compute.
  - intros x Hx Hne. exists (new_monitor 0 "eDP-1" 0 0 1920 1080). split; [by left|].
    assert (Hall : forallb (λ x, String.eqb (mon_name x) "eDP-1" || String.eqb (mon_name x) (mon_name om))
      (monitors s) = true) by (by vm_compute).
    rewrite forallb_forall in Hall. apply list_elem_of_In, Hall, orb_true_iff in Hx as [E|E].
    + apply String.eqb_eq in E. rewrite E. exact (eq_refl "eDP-1").
    + apply String.eqb_eq in E. by destruct Hne.
Defined.

(** ** Reload *)

(** C30: applying new settings returns and keeps the invariant; the workspaces
    become the configured ones, no window is lost, a window whose workspace
    still exists stays on it, and every other window gets one that exists. *)
Theorem reload_keeps_windows c st :
  core_ok c → workspace_defs st ≠ [] →
  ∃ c', apply_settings st c = Some (tt, c') ∧ core_ok c' ∧ settings c' = st ∧
    reloaded st (wsman c) (wsman c').
Proof.
  intros Hc Hne. pose proof (reload_spec c st Hc Hne) as H.
  apply wp_some in H as ([] & c' & E & H). by exists c'.
Qed.

Lemma reload_keeps_windows_witness :
  let st := mkSettings [] (mkMonitorCompose "" [] false) [mkWorkspaceDef "only" ""] default_theme in
  ∃ c', apply_settings st ex_core = Some (tt, c') ∧ core_ok c' ∧ settings c' = st ∧
    reloaded st (wsman ex_core) (wsman c').
Proof. intros st. apply reload_keeps_windows; [exact ex_core_ok|done]. Defined.

(** ** Size hints *)

(** Where the grid of an axis starts, and what it means for [r] to answer the
    request [req]: within the bounds; on the grid or at the minimum; below an
    admissible request by less than one increment. *)
Definition grid_base (mn base : Z) : Z := if 0 <? base then base else if 0 <? mn then mn else 0.
Definition axis_fits (mn mx inc base req r : Z) : Prop :=
  (0 < mn → mn ≤ r) ∧ (0 < mx → r ≤ mx) ∧
  (1 < inc → (0 < mn ∧ r = mn) ∨ (inc | r - grid_base mn base)) ∧
  (grid_base mn base ≤ req → (0 < mn → mn ≤ req) → (0 < mx → req ≤ mx) →
     r ≤ req < r + Z.max 1 inc).

(** The hints of an axis are sensible: bounds in order, base within the maximum. *)
Definition axis_hints_ok (mn mx base : Z) : Prop :=
  0 < mx → (0 < mn → mn ≤ mx) ∧ (0 < base → base ≤ mx).

Lemma snap_grid b inc q :
  1 < inc → let r := b + (q - b) ÷ inc * inc in
  (inc | r - b) ∧ r ≤ Z.max q b ∧ (b ≤ q → r ≤ q < r + inc).
Proof.
  intros Hi r. pose proof (Z.quot_rem' (q - b) inc) as E.
  pose proof (Z.rem_bound_abs (q - b) inc ltac:(lia)) as Hr.
  pose proof (Z.rem_sign_mul (q - b) inc) as Hs. split_and!.
  - exists ((q - b) ÷ inc). unfold r. lia.
  - unfold r. destruct (Z.le_gt_cases b q).
    + pose proof (snap_down b q inc ltac:(lia) ltac:(lia)). lia.
    + assert ((q - b) ÷ inc ≤ 0) by (apply Z.quot_le_upper_bound; lia). nia.
  - intros Hb. pose proof (snap_down b q inc ltac:(lia) Hb). unfold r. lia.
Qed.

Lemma axis_fits_spec mn mx inc base req :
  axis_hints_ok mn mx base →
  axis_fits mn mx inc base req (snap_axis mn inc base (clamp_axis mn mx req)).
Proof.
  intros Hok. unfold axis_hints_ok in Hok.
  assert (Hq : (0 < mn → mn ≤ clamp_axis mn mx req) ∧ (0 < mx → clamp_axis mn mx req ≤ mx) ∧
    ((0 < mn → mn ≤ req) → (0 < mx → req ≤ mx) → clamp_axis mn mx req = req)).
  { unfold clamp_axis. destruct (Z.ltb_spec 0 mn), (Z.ltb_spec 0 mx); lia. }
  revert Hq. generalize (clamp_axis mn mx req) as q. intros q (Hq1 & Hq2 & Hq3).
  unfold snap_axis. fold (grid_base mn base). unfold axis_fits.
  assert (Hb : 0 < mx → grid_base mn base ≤ mx).
  { unfold grid_base. destruct (Z.ltb_spec 0 base), (Z.ltb_spec 0 mn); lia. }
  destruct (Z.ltb_spec 1 inc) as [Hi|Hi].
  - destruct (snap_grid (grid_base mn base) inc q Hi) as (Hd & Hle & Hin).
    set (r := grid_base mn base + _) in *. cbv zeta.
    destruct (Z.ltb_spec 0 mn); [|split_and!; [lia|lia|by right|lia]].
    split_and!; [lia|lia| |lia].
    destruct (Z.le_gt_cases mn r); [right|left; lia]. by rewrite Z.max_l.
  - split_and!; [lia|lia|lia|]. intros ? ? ?. rewrite Hq3 by done. lia.
Qed.

(** Resizing a floating or borderless window answers the request within the
    window's size hints on both axes and changes nothing else of any window; a
    tiled window takes the size as it is. *)
Theorem resize_respects_hints win req p w c :
  find_window_in_all (wsman c) win = Some p → wins (wsman c) !! p = Some w →
  axis_hints_ok (x (size_min w)) (x (size_max w)) (x (size_base w)) →
  axis_hints_ok (y (size_min w)) (y (size_max w)) (y (size_base w)) →
  ∃ c' sz, dispatch_SetWindowSize win req c = Some (true, c') ∧
    wins (wsman c') = <[p := w <| size := sz |>]> (wins (wsman c)) ∧
    (if floating w || borderless w then
       axis_fits (x (size_min w)) (x (size_max w)) (x (size_inc w)) (x (size_base w)) (x req) (x sz) ∧
       axis_fits (y (size_min w)) (y (size_max w)) (y (size_inc w)) (y (size_base w)) (y req) (y sz)
     else sz = req).
Proof.
  intros Hp Hw Hx Hy.
  assert (H : wp (dispatch_SetWindowSize win req) (λ r c', r = true ∧
    wins (wsman c') = <[p := w <| size := if floating w || borderless w
      then apply_size_hints w req else req |>]> (wins (wsman c))) c).
  { unfold dispatch_SetWindowSize, find_win. do 2 wp_step. rewrite Hp. wp_step.
    unfold set_window, on_wsman. wp_step. eapply wp_modify_window; [done|].
    unfold mark_window_dirty, emit_backend_effect, emit_effect. by wp_steps. }
  apply wp_some in H as (r & c' & E & -> & Hw'). exists c'.
  exists (if floating w || borderless w then apply_size_hints w req else req).
  split_and!; [done|done|]. destruct (floating w || borderless w); [|done].
  split; by apply axis_fits_spec.
Qed.

(** A floating window with hints, in the concrete core. *)
Definition ex_hinted : Window :=
  (default (new_window 11) (wins (wsman ex_core) !! 1%positive)) <| floating := true |>
    <| size_min := mkVec2 100 50 |> <| size_max := mkVec2 800 600 |>
    <| size_inc := mkVec2 7 13 |> <| size_base := mkVec2 4 2 |>.
Definition ex_hinted_core : core :=
  ex_core <| wsman ::= λ s, s <| wins ::= <[1%positive := ex_hinted]> |> |>.

Lemma resize_respects_hints_witness :
  ∃ c' sz, dispatch_SetWindowSize 11 (mkVec2 333 9) ex_hinted_core = Some (true, c') ∧
    wins (wsman c') = <[1%positive := ex_hinted <| size := sz |>]> (wins (wsman ex_hinted_core)) ∧
    axis_fits 100 800 7 4 333 (x sz) ∧ axis_fits 50 600 13 2 9 (y sz).
Proof.
  apply (resize_respects_hints 11 (mkVec2 333 9) 1%positive ex_hinted ex_hinted_core);
    [by vm_compute|by vm_compute|vm_compute; intros; split; intros; discriminate..].
Defined.
