(* ===== verification/LifecycleSafe.v ===== *)
(** * Safety and progress of the lifecycle

    What the runtime relies on of its environment, as the class [Tame], and what
    it keeps in return: the invariant of the core, the ownership of the windows
    of modules, the lifecycle state outside the transitions of [run].  Every
    operation of the runtime completes; the event loop ends when the environment
    asks it to. *)

From S2P Require Import Prelude Fuel Geometry Workspace WorkspaceManager MonitorLayout Events Commands.
From S2P Require Import Core RuntimeStore Validate Dispatch CoreSafe CoreRun EventQueue Runtime.
From S2P Require Import Adopt Lifecycle.
Local Open Scope Z_scope.

#[export] Instance runtime_queue W :
  QueueLens (@event_queue_ W) (λ q r, r <| event_queue_ := q |>).
Proof. by split; intros; destruct s. Qed.

Section Tame.
Context {W : Type} `{!Env W}.
(** What the environment knows of its own state, the number of ticks after
    which it asks to stop, the module a window belongs to, and a rank of events
    that a delivery lowers. *)
Context (J : W → Prop) (patience : W → nat) (owner : Z → string) (rank : Event → nat).
Local Abbreviation R := (Runtime W).
Implicit Types r : R.

Definition names r : list string := mod_name <$> modules r.

Record inv r : Prop := {
  inv_core : core_ok (core_ r);
  inv_world : J (world r);
  inv_windows : ∀ win p, module_windows_by_id_ r !! win = Some p → owner win ∈ names r }.

(** What an operation leaves alone. *)
Record keeps r r' : Prop := {
  kp_state : state_ r' = state_ r;
  kp_draining : draining_ (event_queue_ r') = draining_ (event_queue_ r);
  kp_names : names r `prefix_of` names r';
  kp_started : started (state_ r) = true → names r' = names r;
  kp_patience : (patience (world r') ≤ patience (world r))%nat;
  kp_stop : stop_requested r = true → stop_requested r' = true }.

#[export] Instance keeps_preorder : PreOrder keeps.
Proof.
  split; [by split|]. intros r1 r2 r3 [] []. split; try congruence; try lia; try by eauto.
  - by etrans.
  - intros H. rewrite kp_started1; [auto|congruence].
Qed.

Definition tame {A} (m : M R A) : Prop := ∀ r, inv r → wp m (λ _ r', inv r' ∧ keeps r r') r.

(** A delivery posts events of a lower rank only, and registers no module and no
    receiver. *)
Definition delivers_below (n : nat) (m : M R unit) : Prop := ∀ r, inv r →
  wp m (λ _ r', inv r' ∧ keeps r r' ∧ (names r' = names r ∧ extra_receivers_ r' = extra_receivers_ r) ∧ ∃ l, q_ (event_queue_ r') = q_ (event_queue_ r) ++ l ∧
    Forall (λ e, (rank e < n)%nat) l) r.

Class Tame : Prop := {
  tame_get_monitors : tame be_get_monitors;
  tame_apply_layout l : tame (be_apply_monitor_layout l);
  tame_select : tame be_select_change_events;
  tame_pump n r : inv r → wp (be_pump_events n) (λ _ r', inv r' ∧ keeps r r' ∧
    (stop_requested r' = true ∨ (patience (world r') < patience (world r))%nat)) r;
  tame_render : tame be_render_frame;
  tame_reload_applied : tame be_on_reload_applied;
  tame_be_start : tame be_on_start;
  tame_shutdown : tame be_shutdown;
  tame_scan : tame be_scan_existing_windows;
  tame_factory win w : be_create_window win = Some w → id w = win;
  tame_lua_module n : tame (mod_on_lua_init n);
  tame_mod_start n : tame (mod_on_start n);
  tame_mod_stop n b : tame (mod_on_stop n b);
  tame_mod_reload n : tame (mod_on_reload n);
  tame_destroy n r : inv r → wp (mod_destroy n) (λ _ r', inv r' ∧ keeps r r' ∧
    ∀ win p, module_windows_by_id_ r' !! win = Some p →
      owner win ≠ n ∧ module_windows_by_id_ r !! win = Some p) r;
  tame_deliver_module n ev : delivers_below (rank ev) (deliver_module n ev);
  tame_deliver_receiver p ev : delivers_below (rank ev) (deliver_receiver p ev);
  tame_should_manage p win b : tame (hook_should_manage p win b);
  tame_rules p win b : tame (hook_window_rules p win b);
  tame_lua_init : tame lua_init;
  tame_lua_reset : tame lua_reset_root_table;
  tame_prepare : tame lua_prepare;
  tame_syntax p : tame (lua_check_syntax p);
  tame_exec p r : inv r → wp (lua_exec_file p) (λ o r', inv r' ∧ keeps r r' ∧
    ∀ siren, o = Some siren →
      is_Some (apply_from_lua lua_str_to_number lua_num_to_str siren (store_ r'))) r;
  tame_pipe : tame sys_pipe;
  tame_epoll_create r : inv r → wp sys_epoll_create (λ created r', created = true ∧ inv r' ∧ keeps r r') r;
  tame_epoll : tame sys_epoll_wait;
  tame_waitpid : tame sys_waitpid;
  tame_callback k : tame (fd_module_callback k) }.

(** ** Rules *)

Lemma tame_ret {A} (a : A) : tame (ret a).
Proof. by intros r Hr. Qed.
Lemma tame_gets {A} (f : R → A) : tame (gets f).
Proof. by intros r Hr. Qed.
Lemma tame_bind {A B} (m : M R A) (k : A → M R B) : tame m → (∀ a, tame (k a)) → tame (bind m k).
Proof.
  intros Hm Hk r Hr. wp_step. eapply wp_mono; [by apply Hm|]. cbv beta. intros a r1 [H1 K1].
  eapply wp_mono; [by apply Hk|]. cbv beta. intros b r2 [H2 K2]. split; [done|by etrans].
Qed.
Lemma tame_if {A} (b : bool) (m1 m2 : M R A) : tame m1 → tame m2 → tame (if b then m1 else m2).
Proof. by destruct b. Qed.
Lemma tame_for_each {A} (l : list A) (body : A → M R unit) :
  (∀ a, tame (body a)) → tame (for_each l body).
Proof. intros Hb. induction l; [apply tame_ret|by apply tame_bind]. Qed.
Lemma tame_modify (f : R → R) : (∀ r, inv r → inv (f r) ∧ keeps r (f r)) → tame (modify f).
Proof. intros Hf r Hr. wp_step. by apply Hf. Qed.
Lemma tame_checked {A} (o : R → option A) : (∀ r, inv r → is_Some (o r)) → tame (checked o).
Proof. intros Ho r Hr. destruct (Ho r Hr) as [a Ha]. by eapply wp_checked. Qed.

Lemma keeps_fields r r' :
  state_ r' = state_ r → draining_ (event_queue_ r') = draining_ (event_queue_ r) →
  modules r' = modules r → world r' = world r → stop_requested r' = stop_requested r → keeps r r'.
Proof.
  intros E1 E2 E3 E4 E5. unfold names. split; unfold names; rewrite ?E3, ?E4, ?E5; try done.
Qed.

(** An assignment to a field the invariant does not speak of. *)
Ltac tame_field :=
  apply tame_modify; intros r [Hc Hw Hm]; split; [by split|by apply keeps_fields].

Lemma foldl_push_draining {E} (l : list E) q :
  draining_ (foldl (λ q e, push e q) q l) = draining_ q.
Proof. revert q. induction l as [|e l IH]; intros q; [done|]. cbn [foldl]. by rewrite IH. Qed.

Lemma tame_on_core {A} (m : M core A) :
  (∀ c, core_ok c → wp m (λ _ c', core_ok c') c) → tame (on_core m).
Proof.
  intros Hm r [Hc Hw Hwin]. unfold on_core. do 2 wp_step. eapply wp_mono; [by apply Hm|].
  cbv beta. intros a c Hc'. do 3 wp_step. unfold flush_sink. cbn.
  destruct (event_sink c) as [l|].
  - split; [split; [|done|done]|].
    + destruct Hc'. by constructor.
    + apply keeps_fields; try done. cbn. apply foldl_push_draining.
  - split; [by split|by apply keeps_fields].
Qed.

Lemma tame_dispatch cmd : atom_ok cmd → tame (dispatch_ cmd).
Proof.
  intros Hcmd. apply tame_bind; [|intros; apply tame_ret]. apply tame_on_core. intros c Hc.
  eapply wp_mono; [by apply safe_dispatch_atom|]. by intros b c' [? _].
Qed.

Lemma tame_set_core (f : core → core) : (∀ c, core_ok c → core_ok (f c)) → tame (set_core f).
Proof. intros Hf. apply tame_modify. intros r [Hc Hw Hm]. split; [|by apply keeps_fields]. split; [by apply Hf|done..]. Qed.
Lemma tame_set_store f : tame (set_store f).
Proof. tame_field. Qed.
Lemma tame_post ev : tame (post_event ev).
Proof. tame_field. Qed.
Lemma tame_add_receiver p : tame (add_receiver p).
Proof. tame_field. Qed.
Lemma tame_remove_receiver p : tame (remove_receiver p).
Proof. tame_field. Qed.
Lemma tame_add_hook p : tame (add_hook_receiver p).
Proof. tame_field. Qed.
Lemma tame_watch fd cb : tame (watch fd cb).
Proof. tame_field. Qed.
Lemma tame_unwatch fd : tame (unwatch fd).
Proof. tame_field. Qed.

(** The parts of the runtime that need little of the environment. *)
Lemma tame_refresh_by : tame be_get_monitors → (∀ l, tame (be_apply_monitor_layout l)) →
  tame apply_and_refresh_monitors.
Proof.
  intros Hg Hl. unfold apply_and_refresh_monitors. apply tame_bind.
  { apply tame_checked. intros r _. destruct (build_places (get_monitors (store_ r)) (get_compose (store_ r)))
      as (pos & o & -> & _). by eexists. }
  intros l. apply tame_bind; [done|]. intros _. apply tame_bind; [done|].
  intros mons. by apply tame_dispatch.
Qed.
Lemma tame_should_manage_by win : (∀ p b, tame (hook_should_manage p win b)) → tame (should_manage win).
Proof.
  intros H. apply tame_bind; [apply tame_gets|]. intros ps. generalize true.
  induction ps; intros b; [apply tame_ret|]. cbn. by apply tame_bind.
Qed.
End Tame.

Create HintDb tame.
#[export] Hint Resolve tame_ret tame_gets tame_set_store tame_post tame_add_receiver : tame.
#[export] Hint Resolve tame_remove_receiver tame_add_hook tame_watch tame_unwatch tame_dispatch : tame.
#[export] Hint Resolve tame_get_monitors tame_apply_layout tame_select tame_render tame_reload_applied : tame.
#[export] Hint Resolve tame_be_start tame_shutdown tame_scan tame_lua_module tame_mod_start tame_mod_stop : tame.
#[export] Hint Resolve tame_mod_reload tame_should_manage tame_rules tame_lua_init tame_lua_reset : tame.
#[export] Hint Resolve tame_prepare tame_syntax tame_pipe tame_epoll tame_waitpid tame_callback : tame.

#[export] Hint Extern 1 (atom_ok _) => exact I : tame.

(** A goal [tame m] by the structure of [m]. *)
Ltac tame_auto :=
  repeat match goal with
  | |- tame _ _ _ (bind _ _) => apply tame_bind
  | |- tame _ _ _ (if _ then _ else _) => apply tame_if
  | |- tame _ _ _ (for_each _ _) => apply tame_for_each
  | |- tame _ _ _ (match ?o with Some _ => _ | None => _ end) => destruct o
  | |- tame _ _ _ (let '(_, _) := ?o in _) => destruct o
  | |- ∀ _, _ => intros ?
  | |- tame _ _ _ _ => solve [eauto with tame]
  | |- atom_ok _ => exact I
  end.
Ltac tame_field := apply tame_modify; intros r [Hc Hw Hm]; split; [by split|by apply keeps_fields].

Section Operations.
Context {W : Type} `{!Env W} (J : W → Prop) (patience : W → nat) (owner : Z → string) (rank : Event → nat).
Context `{!Tame J patience owner rank}.
Local Abbreviation R := (Runtime W).
Local Abbreviation inv := (inv J owner).
Local Abbreviation keeps := (keeps patience).
Local Abbreviation tame := (tame J patience owner).
Implicit Types r : R.

(** ** Modules and the Lua VM *)

Lemma keeps_names f r :
  (∀ m, mod_name (f m) = mod_name m) → names (r <| modules ::= fmap f |>) = names r.
Proof using All.
  intros Hf. unfold names. cbn. rewrite <- list_fmap_compose.
  apply list_fmap_ext. intros i m _. apply Hf.
Qed.

Lemma inv_modules r l : inv r → mod_name <$> l = names r →
  inv (r <| modules := l |>) ∧ keeps r (r <| modules := l |>).
Proof using All.
  intros [Hc Hw Hm] E. split; [split; [done|done|]|split; try done].
  - intros win p Hp. unfold names. cbn. rewrite E. by eapply Hm.
  - unfold names at 2. cbn. by rewrite E.
Qed.

Lemma tame_reset_lua_init : tame reset_lua_init.
Proof using All.
  apply tame_modify. intros r Hr.
  apply (inv_modules r (fmap (λ m, m <| lua_inited_ := false |>) (modules r))); [done|].
  rewrite <- list_fmap_compose. by apply list_fmap_ext.
Qed.

Lemma lua_init_once_ok i r : inv r → (i < length (modules r))%nat →
  wp (lua_init_once i) (λ _ r', inv r' ∧ keeps r r') r.
Proof using All.
  intros Hr Hi. unfold lua_init_once. wp_step.
  destruct (lookup_lt_is_Some_2 _ _ Hi) as [m Hm]. eapply wp_checked; [done|].
  wp_step; [by wp_step|]. do 2 wp_step.
  destruct (inv_modules r (alter (λ m, m <| lua_inited_ := true |>) i (modules r)) Hr) as [H1 K1].
  { unfold names. apply list_eq. intros j. rewrite !list_lookup_fmap.
    destruct (decide (j = i)) as [->|?].
    - rewrite list_lookup_alter_eq, Hm. done.
    - by rewrite list_lookup_alter_ne. }
  eapply wp_mono; [exact (tame_lua_module J patience owner rank _ _ H1)|]. cbv beta. intros [] r' [H2 K2].
  split; [done|]. by etrans.
Qed.

Lemma names_length r r' : keeps r r' → (length (modules r) ≤ length (modules r'))%nat.
Proof using All.
  intros [_ _ H _ _ _]. apply prefix_length in H. unfold names in H. by rewrite !length_fmap in H.
Qed.

Lemma tame_emit_lua_init : tame emit_lua_init.
Proof using All.
  intros r Hr. unfold emit_lua_init. do 2 wp_step.
  apply (wp_for_each _ _ (λ r', inv r' ∧ keeps r r')); [|by split].
  intros i r1 Hi [H1 K1]. apply elem_of_seq in Hi. pose proof (names_length _ _ K1).
  eapply wp_mono; [apply lua_init_once_ok; [done|lia]|]. cbv beta. intros [] r2 [H2 K2].
  split; [done|by etrans].
Qed.

(** ** Configuration *)

Lemma core_ok_path p c : core_ok c → core_ok (bind_lua_host (c <| config_path := p |>)).
Proof using All. intros []. by constructor. Qed.

Lemma tame_load path reset : tame (load path reset).
Proof using All.
  unfold load. apply tame_bind; [apply tame_set_core; intros; by apply core_ok_path|]. intros _.
  apply tame_bind; [apply tame_gets|]. intros ini.
  apply tame_bind; [tame_auto|]. intros _. apply tame_bind; [apply tame_reset_lua_init|]. intros _.
  apply tame_bind; [apply tame_emit_lua_init|]. intros _. apply tame_bind; [tame_auto|]. intros _.
  intros r Hr. wp_step. eapply wp_mono; [by apply (tame_exec J patience owner rank)|]. cbv beta.
  intros [siren|] r1 (H1 & K1 & Hs); [|by wp_step]. destruct (Hs siren eq_refl) as [res E].
  wp_step. eapply wp_checked; [done|]. do 3 wp_step. destruct H1.
  split; [by split|]. etrans; [done|]. by apply keeps_fields.
Qed.

Lemma settings_workspaces st : validate_settings st = Some [] →
  workspace_defs (build_core_settings st) ≠ [].
Proof using All. by intros (H & _)%validate_nil. Qed.

Lemma tame_apply_settings s : workspace_defs s ≠ [] → tame (on_core (apply_settings s)).
Proof using All.
  intros Hs. apply tame_on_core. intros c Hc.
  eapply wp_mono; [by apply apply_settings_ok|]. by intros [] c' [? _].
Qed.

(** The validation that precedes [apply_settings], and what follows it. *)
Lemma tame_validated {A} (m1 m2 : M R A) :
  tame m1 →
  (∀ r, inv r → validate_settings (store_ r) = Some [] → wp m2 (λ _ r', inv r' ∧ keeps r r') r) →
  tame (errs <- checked (λ r : R, validate_settings (store_ r)) ;;
        if bool_decide (errs ≠ []) then m1 else m2).
Proof using All.
  intros H1 H2 r Hr. wp_step. destruct (validate_total (store_ r)) as [errs E].
  eapply wp_checked; [done|]. case_bool_decide as He; [by apply H1|].
  apply H2; [done|]. by subst errs.
Qed.

(** [apply_settings] of a store that was validated, and what follows it. *)
Lemma apply_validated {A} (m : M R A) r :
  inv r → workspace_defs (build_core_settings (store_ r)) ≠ [] → tame m →
  wp (st <- gets (λ r : R, store_ r) ;; on_core (apply_settings (build_core_settings st)) ;; m)
     (λ _ r', inv r' ∧ keeps r r') r.
Proof using All.
  intros Hr Hw Hm. do 2 wp_step.
  apply (tame_bind _ _ _ _ (λ _, m) (tame_apply_settings _ Hw) (λ _, Hm)). done.
Qed.

Lemma tame_load_config path : tame (load_config path).
Proof using All.
  unfold load_config. apply tame_bind; [apply tame_load|]. intros ok. apply tame_if; [apply tame_ret|].
  apply tame_validated; [apply tame_ret|]. intros r Hr Hst.
  apply apply_validated; [done|by apply settings_workspaces|apply tame_ret].
Qed.

(** ** Monitors, descriptors, adoption *)

Lemma tame_refresh : tame apply_and_refresh_monitors.
Proof using All. apply tame_refresh_by; intros; tame_auto. Qed.
Lemma tame_display_change : tame dispatch_display_change.
Proof using All. apply tame_bind; [apply tame_refresh|tame_auto]. Qed.

Lemma tame_setup_sigchld : tame setup_sigchld_pipe.
Proof using All. unfold setup_sigchld_pipe. tame_auto. tame_field. Qed.
Lemma tame_teardown : tame teardown_sigchld_pipe.
Proof using All. tame_field. Qed.

Lemma tame_reap : tame reap_children.
Proof using All. unfold reap_children. tame_auto. Qed.
Lemma tame_poll : tame poll.
Proof using All.
  unfold poll. tame_auto. unfold run_callback. destruct p.2; [tame_auto|apply tame_reap|tame_auto].
Qed.

Lemma tame_should_manage_all win : tame (should_manage win).
Proof using All. apply tame_should_manage_by. intros. tame_auto. Qed.

Lemma tame_dispatches cmds : Forall atom_ok cmds → tame (for_each cmds dispatch_).
Proof using All.
  induction 1 as [|cmd cmds Hc _ IH]; [apply tame_ret|].
  by apply (tame_bind _ _ _ (dispatch_ cmd)); [apply tame_dispatch|].
Qed.

Lemma restore_commands_ok n snap : Forall atom_ok (restore_commands n snap).
Proof using All. unfold restore_commands. repeat (case_match; repeat constructor). Qed.

Lemma tame_adopt_window snap : tame (adopt_window snap).
Proof using All.
  unfold adopt_window. apply tame_if; [tame_auto|]. apply tame_bind; [apply tame_should_manage_all|].
  intros b. apply tame_if; [tame_auto|]. apply tame_bind; [by apply tame_dispatches; repeat constructor|].
  intros _. apply tame_bind; [tame_auto|]. intros n. apply tame_bind.
  { apply tame_dispatches. destruct (sn_from_restart snap); [apply restore_commands_ok|constructor]. }
  intros _. apply tame_bind.
  { apply tame_dispatches. unfold geometry_commands. repeat case_match; repeat constructor. }
  intros _. unfold window_rules. tame_auto.
Qed.

Lemma tame_adopt_windows snaps b n : tame (adopt_windows snaps b n).
Proof using All.
  revert b n. induction snaps as [|snap snaps IH]; intros b n; cbn; [tame_auto|].
  apply tame_bind; [apply tame_adopt_window|]. intros []; apply IH.
Qed.

Lemma tame_switch_monitors saved idxs b : Forall (λ i, 0 ≤ i) idxs → tame (switch_monitors saved idxs b).
Proof using All.
  intros Hi. revert b. induction Hi as [|i idxs Hi _ IH]; intros b; cbn [switch_monitors]; [tame_auto|].
  intros r Hr. do 2 wp_step. wp_step; [by wp_step|].
  assert (is_Some (restored_workspace saved (core_ r) i)) as [ws E].
  { unfold restored_workspace. destruct (vget_is_Some (monitors (wsman (core_ r))) i) as [m ->]; [lia|].
    repeat case_match; by eexists. }
  wp_step. eapply wp_checked; [done|]. wp_step; [|by apply IH].
  apply (tame_bind _ _ _ (dispatch_ (SwitchWorkspace ws (Some i)))); [by apply tame_dispatch|by intros _|done].
Qed.

Lemma tame_adopt : tame adopt_existing_windows.
Proof using All.
  unfold adopt_existing_windows. apply tame_bind; [tame_auto|]. intros st. apply tame_if; [tame_auto|].
  apply tame_bind; [apply tame_adopt_windows|]. intros [any n]. apply tame_if; [tame_auto|].
  apply tame_bind; [|tame_auto]. apply tame_if.
  - apply tame_bind; [tame_auto|]. intros k. apply tame_switch_monitors.
    apply Forall_forall. intros i Hi. apply elem_of_range in Hi. lia.
  - apply tame_bind; [|tame_auto]. apply tame_checked. intros r _. cbv zeta.
    destruct ((0 <=? _) && _) eqn:E; [|by eexists].
    apply andb_prop in E as [E1 E2].
    destruct (vget_is_Some (monitors (wsman (core_ r))) (focused_monitor (wsman (core_ r)))) as [m ->]; [lia|].
    by eexists.
Qed.

(** ** Reload *)

Lemma tame_reload : tame reload.
Proof using All. unfold reload. tame_auto. Qed.

Lemma core_ok_restore (c0 c : core) : core_ok c0 → core_ok c → core_ok (restore_reload_state (snapshot_reload_state c0) c).
Proof using All. intros [] []. by constructor. Qed.

Lemma tame_restore c0 : core_ok c0 → tame (restore_snapshot (snapshot_reload_state c0)).
Proof using All.
  intros H0. apply tame_bind; [tame_auto|]. intros _. apply tame_set_core. intros c Hc.
  by apply core_ok_restore.
Qed.

Lemma core_ok_clear c : core_ok c → core_ok (clear_reloadable_runtime_state c).
Proof using All. intros []. by constructor. Qed.

Lemma tame_reload_config : tame reload_runtime_config.
Proof using All.
  unfold reload_runtime_config. apply tame_bind; [tame_auto|]. intros path. apply tame_if; [tame_auto|].
  apply tame_bind; [tame_auto|]. intros ok. apply tame_if; [tame_auto|]. apply tame_bind; [tame_auto|].
  intros _ r Hr. do 2 wp_step. pose proof (inv_core _ _ _ Hr) as H0.
  match goal with |- wp ?m _ _ => cut (tame m); [intros Hm; by apply Hm|] end.
  apply tame_bind; [tame_auto|]. intros _. apply tame_bind; [by apply tame_set_core, core_ok_clear|]. intros _.
  apply tame_bind; [apply tame_load|]. intros ok'. apply tame_if.
  { apply tame_bind; [by apply tame_restore|tame_auto]. }
  apply tame_validated.
  { apply tame_bind; [by apply tame_restore|tame_auto]. }
  intros r1 Hr1 Hst. wp_step. unfold set_store at 1. wp_step. destruct Hr1 as [Hc1 Hw1 Hm1].
  eapply wp_mono; [apply apply_validated; [by split| |apply tame_bind; [apply tame_reload|tame_auto]]|].
  - cbn [store_ upd]. by rewrite build_commit; apply settings_workspaces.
  - cbv beta. intros b r2 [H2 K2]. split; [done|]. etrans; [|done]. by apply keeps_fields.
Qed.

Lemma tame_consume : tame consume_reload_request.
Proof using All. unfold consume_reload_request. tame_auto; tame_field. Qed.

Lemma tame_restore_active saved b : tame (restore_active saved b).
Proof using All.
  revert b. induction saved as [|[i ws] saved IH]; intros b; cbn [restore_active]; [tame_auto|].
  apply tame_bind; [tame_auto|]. intros r. repeat apply tame_if; [tame_auto| |apply IH].
  apply (tame_bind _ _ _ (dispatch_ _)); [by apply tame_dispatch|by intros _].
Qed.

Lemma tame_process_reload : tame process_pending_reload.
Proof using All.
  unfold process_pending_reload. apply tame_bind; [apply tame_consume|]. intros req.
  assert (H : tame (reload_ok <- reload_runtime_config ;;
    if (reload_ok : bool) then
      saved_ws <- gets (λ r : R, imap (λ i m, (Z.of_nat i, mon_active_ws m)) (monitors (wsman (core_ r)))) ;;
      dispatch_display_change ;;
      any <- restore_active saved_ws false ;;
      (if (any : bool) then ret tt else dispatch_ ReconcileNow) ;;
      post_event ConfigReloaded ;;
      ret true
    else ret true)).
  { apply tame_bind; [apply tame_reload_config|]. intros ok. apply tame_if; [|tame_auto].
    apply tame_bind; [tame_auto|]. intros saved. apply tame_bind; [apply tame_display_change|]. intros _.
    apply tame_bind; [apply tame_restore_active|]. intros any. tame_auto. }
  destruct req; [tame_auto|exact H..].
Qed.
End Operations.
