(* ===== verification/Keybindings.v ===== *)
(** * The key bindings module ([modules/keybindings])

    Parsing of key and mouse specifications, the lists a configuration file
    assigns to [kb.binds] and [kb.mouse], read from the Lua stack, and the
    handlers: key presses, mouse bindings, dragging.  The input port of the
    backend, the Lua VM and the names of keysyms are the class [KbEnv]. *)

From S2P Require Import Prelude Exceptions TextStream Geometry Workspace WorkspaceManager Events Commands.
From S2P Require Import Core Dispatch ConfigValue ConfigRuntime RuntimeStore Runtime.
Local Open Scope Z_scope.

(** ** Modifiers ([backend/input_port.hpp]) *)

Definition MOD_SHIFT : Z := 1.
Definition MOD_LOCK : Z := 2.
Definition MOD_CONTROL : Z := 4.
Definition MOD_1 : Z := 8.
Definition MOD_2 : Z := 16.
Definition MOD_3 : Z := 32.
Definition MOD_4 : Z := 64.
Definition MOD_5 : Z := 128.
Definition MOD_STRIP_MASK : Z := Z.lor MOD_2 MOD_LOCK.

(** The names, in the order they are compared. *)
Definition modifier_names : list (string * Z) :=
  [("shift", MOD_SHIFT); ("Shift", MOD_SHIFT); ("ctrl", MOD_CONTROL); ("control", MOD_CONTROL);
   ("Control", MOD_CONTROL); ("alt", MOD_1); ("mod1", MOD_1); ("Alt", MOD_1); ("mod2", MOD_2);
   ("mod3", MOD_3); ("mod4", MOD_4); ("super", MOD_4); ("win", MOD_4); ("Super", MOD_4);
   ("mod5", MOD_5)]%string.
Definition parse_modifier_name (name : string) : Z :=
  match List.find (λ e, String.eqb e.1 name) modifier_names with Some e => e.2 | None => 0 end.

Definition parse_physical_modifier (name : string) : Z := parse_modifier_name (lower_ascii name).

Definition validate_modifier_value (v : RuntimeValue) : option string :=
  match as_string v with
  | None => Some "must be a string"%string
  | Some s =>
      if String.eqb (lower_ascii s) "mod"
      then Some "'mod' is abstract; use a real modifier (e.g. mod4, alt, ctrl, shift)"%string
      else if parse_physical_modifier s =? 0 then Some ("unknown modifier '" +:+ s +:+ "'")
      else None
  end.
(** The parser of [siren.modifier], and the check that it is set ([on_init]). *)
Definition parse_modifier (v : RuntimeValue) : result SettingValue :=
  match as_string v with
  | None => Err "must be a string"
  | Some s =>
      match validate_modifier_value v with
      | Some e => Err e
      | None => Ok (SvModifier (parse_physical_modifier s))
      end
  end.
Definition validate_modifier (v : SettingValue) : list string :=
  match v with
  | SvModifier m => if m =? 0
      then ["modifier not set — use siren.modifier = 'mod4' (or shift/ctrl/alt/mod1..mod5)"%string] else []
  | _ => []
  end.
Definition register_settings (st : store) : store :=
  register_setting "mouse_bindings" (new_setting (SvMouse []))
    (register_setting "modifier"
       (set_parse parse_modifier TString (set_validate validate_modifier (new_setting (SvModifier 0)))) st).

(** [mod_mask_.get()] and [mouse_bindings_.get()]. *)
Definition get_modifier (st : store) : Z :=
  match value <$> find "modifier" st with Some (SvModifier m) => m | _ => 0 end.
Definition get_mouse (st : store) : list MouseBinding :=
  match value <$> find "mouse_bindings" st with Some (SvMouse l) => l | _ => [] end.

(** ** Specifications *)

Definition parse_binding_modifier_token (token : string) (mod_mask : Z) : result Z :=
  let t := lower_ascii token in
  if String.eqb t "mod" then
    if mod_mask =? 0 then Err "primary modifier is not set (set siren.modifier first)" else Ok mod_mask
  else
    let m := parse_physical_modifier t in
    if m =? 0 then Err ("unknown modifier token '" +:+ token +:+ "'") else Ok m.

(** The loop [while (std::getline(ss, token, '+'))]. *)
Definition plus : Ascii.ascii := Ascii.ascii_of_nat 43.
Definition tokens (spec : string) : list string := String.string_of_list_ascii <$> lines plus (txt spec).

Section Parsers.
(** [xkb_keysym_from_name]. *)
Context (keysym_from_name : string → Z) (mod_mask : Z).

Fixpoint parse_key_tokens (l : list string) (mods keysym : Z) : result (Z * Z) :=
  match l with
  | [] => Ok (mods, keysym)
  | token :: l =>
      let token_lower := lower_ascii token in
      match parse_binding_modifier_token token mod_mask with
      | Ok m => parse_key_tokens l (Z.lor mods m) keysym
      | Undefined => Undefined
      | Err mod_err =>
          if String.eqb token_lower "mod" then Err mod_err
          else
            let k := keysym_from_name token in
            let k := if k =? 0 then keysym_from_name token_lower else k in
            if k =? 0 then Err ("unknown keysym '" +:+ token +:+ "'") else parse_key_tokens l mods k
      end
  end.
(** ["Mod+Shift+Return"] to modifiers and keysym. *)
Definition parse_key (spec : string) : result (Z * Z) :=
  r <~ parse_key_tokens (tokens spec) 0 0 ;;
  if r.2 =? 0 then Err ("missing keysym in '" +:+ spec +:+ "'") else Ok r.

(** [std::stoul]: decimal digits after space and a sign; what follows is left,
    [None] is the exception. *)
Definition stoul (s : text) : option Z :=
  let '(neg, s) := read_sign (skip_space s) in
  let '(ds, _) := span is_digit s in
  match ds with
  | [] => None
  | _ => let v := value_of ds in
         if v <? 2 ^ 64 then Some (if neg then (- v) mod 2 ^ 64 else v) else None
  end.

Fixpoint parse_mouse_tokens (l : list string) (mods btn : Z) : result (Z * Z) :=
  match l with
  | [] => Ok (mods, btn)
  | token :: l =>
      let token_lower := lower_ascii token in
      if (6 <? String.length token_lower)%nat && String.eqb (String.substring 0 6 token_lower) "button" then
        match stoul (txt (String.substring 6 (String.length token_lower - 6) token_lower)) with
        | Some v => parse_mouse_tokens l mods (to_u32 v)
        | None => Err ("invalid button number in '" +:+ token +:+ "'")
        end
      else
        m <~ parse_binding_modifier_token token mod_mask ;; parse_mouse_tokens l (Z.lor mods m) btn
  end.
(** ["Mod+Button1"] to modifiers and button. *)
Definition parse_mouse_spec (spec : string) : result (Z * Z) :=
  r <~ parse_mouse_tokens (tokens spec) 0 0 ;;
  if r.2 =? 0 then Err ("missing button in '" +:+ spec +:+ "'") else Ok r.
End Parsers.

(** ** The module *)

Inductive DragOp := DragNone | DragMove | DragResize.
Record DragState := mkDrag {
  dr_op : DragOp;
  dr_window : Z;
  start_root : Vec2;
  start_win_pos : Vec2;
  start_win_size : Vec2 }.
#[export] Instance eta_DragState : Eta DragState := λ d,
  mkDrag (dr_op d) (dr_window d) (start_root d) (start_win_pos d) (start_win_size d).
Definition no_drag : DragState := mkDrag DragNone NO_WINDOW (mkVec2 0 0) (mkVec2 0 0) (mkVec2 0 0).
Definition drag_active (d : DragState) : bool :=
  match dr_op d with DragNone => false | _ => negb (dr_window d =? NO_WINDOW) end.

(** The lists to load: a table of the Lua registry, with the epoch of its VM. *)
Record KeybindingsModule := mkKb {
  pending_binds_ : option (Z * LuaValue);
  pending_mouse_ : option (Z * LuaValue);
  drag : DragState }.
#[export] Instance eta_Kb : Eta KeybindingsModule := λ k, mkKb (pending_binds_ k) (pending_mouse_ k) (drag k).
Definition new_keybindings : KeybindingsModule := mkKb None None no_drag.

(** The module, the stack of the Lua VM (as C++ outside of any Lua call has it) with
    its top first, and the rest. *)
Record KbWorld (V : Type) := mkKbWorld { kb : KeybindingsModule; lua_stack : list LuaValue; outer : V }.
Arguments mkKbWorld {V}. Arguments kb {V}. Arguments lua_stack {V}. Arguments outer {V}.
#[export] Instance eta_KbWorld V : Eta (KbWorld V) := λ w, mkKbWorld (kb w) (lua_stack w) (outer w).

Class KbEnv (V : Type) := {
  in_grab_key : Z → Z → M (Runtime (KbWorld V)) (string + unit);
  in_ungrab_all_keys : M (Runtime (KbWorld V)) (string + unit);
  in_grab_button : Z → Z → Z → M (Runtime (KbWorld V)) (string + unit);
  in_ungrab_all_buttons : Z → M (Runtime (KbWorld V)) (string + unit);
  in_grab_pointer : M (Runtime (KbWorld V)) (string + unit);
  in_ungrab_pointer : M (Runtime (KbWorld V)) (string + unit);
  in_warp_pointer_abs : Vec2 → M (Runtime (KbWorld V)) (string + unit);
  in_flush : M (Runtime (KbWorld V)) (string + unit);
  (** a function of the Lua VM, called by reference, without and with a table of
      integers as argument; errors are caught and logged by the host *)
  lua_call : Z → M (Runtime (KbWorld V)) unit;
  lua_call_fields : Z → list (string * Z) → M (Runtime (KbWorld V)) unit;
  lua_epoch : V → Z;
  keysym_from_name : string → Z }.

(** ** The Lua stack *)

Section Stack.
Context {V : Type} `{!Env (KbWorld V)} `{!KbEnv V}.
Local Abbreviation R := (Runtime (KbWorld V)).

Definition kget {A} (f : KeybindingsModule → A) : M R A := gets (λ r : R, f (kb (world r))).
Definition kset (f : KeybindingsModule → KeybindingsModule) : M R unit :=
  modify (λ r : R, r <| world ::= λ w, w <| kb ::= f |> |>).
Definition stack : M R (list LuaValue) := gets (λ r : R, lua_stack (world r)).
Definition set_stack (s : list LuaValue) : M R unit :=
  modify (λ r : R, r <| world ::= λ w, w <| lua_stack := s |> |>).

(** The slots a C function may use without a call of lua_checkstack, of which the
    code has none; a function of the auxiliary library that uses fewer than five
    does not check for them either. *)
Definition LUA_MINSTACK : nat := 20.
Definition aux_slots : nat := 4.
(** Pushing beyond them is undefined. *)
Definition push_value (v : LuaValue) : M R unit :=
  s <- stack ;; check (λ _, (length s <? LUA_MINSTACK)%nat) ;; set_stack (v :: s).
(** Popping more than there is is undefined. *)
Definition pop : M R unit :=
  s <- checked (λ r : R, match lua_stack (world r) with [] => None | _ :: s => Some s end) ;; set_stack s.
Definition abs_index (idx : Z) : M R Z :=
  s <- stack ;; ret (if idx <? 0 then Z.of_nat (length s) + idx + 1 else idx).
(** The element of an absolute index, 1 at the bottom. *)
Definition at_index (idx : Z) : M R LuaValue :=
  checked (λ r : R, let s := lua_stack (world r) in
    if (1 <=? idx) && (idx <=? Z.of_nat (length s)) then s !! Z.to_nat (Z.of_nat (length s) - idx) else None).
Definition top : M R LuaValue := i <- abs_index (-1) ;; at_index i.

Definition entries_of (v : LuaValue) : option (list (LuaValue * LuaValue)) :=
  match v with LTable _ e => Some e | _ => None end.
Definition is_table (v : LuaValue) : bool := match v with LTable _ _ => true | _ => false end.
Definition is_function (v : LuaValue) : bool := match v with LFunction _ => true | _ => false end.
Definition field (k : string) (e : list (LuaValue * LuaValue)) : LuaValue :=
  match List.find (λ e, match e.1 with LStr k' => String.eqb k' k | _ => false end) e with
  | Some e => e.2
  | None => LNil
  end.
(** lua_rawgeti and lua_getfield of a table without metamethods. *)
Definition get_i (idx i : Z) : M R unit :=
  v <- at_index idx ;; e <- checked (λ _, entries_of v) ;; push_value (raw_geti e i).
Definition get_field (idx : Z) (k : string) : M R unit :=
  v <- at_index idx ;; e <- checked (λ _, entries_of v) ;; push_value (field k e).
Definition raw_len (idx : Z) : M R Z :=
  v <- at_index idx ;; ret (match v with LTable n _ => n | LStr s => Z.of_nat (String.length s) | _ => 0 end).
End Stack.

(** ** [kb.binds] and [kb.mouse] *)

Section Lists.
Context {V : Type} `{!Env (KbWorld V)} `{!KbEnv V}.
Local Abbreviation R := (Runtime (KbWorld V)).

Definition is_string_top : M R bool := v <- top ;; ret (is_string v).
Definition to_string_top : M R string := v <- top ;; ret (to_string lua_num_to_str v).

(** The first of the fields of an entry that holds a string. *)
Fixpoint field_string (entry_idx : Z) (keys : list string) : M R string :=
  match keys with
  | [] => ret ""%string
  | k :: keys =>
      get_field entry_idx k ;;
      is_str <- is_string_top ;;
      if (is_str : bool) then s <- to_string_top ;; pop ;; ret s
      else pop ;; field_string entry_idx keys
  end.
Definition entry_spec (entry_idx : Z) (keys : list string) : M R string :=
  get_i entry_idx 1 ;;
  is_str <- is_string_top ;;
  spec <- (if (is_str : bool) then to_string_top else ret ""%string) ;;
  pop ;;
  if String.eqb spec "" then field_string entry_idx keys else ret spec.

(** The handler, left on the stack, or 0 and nothing. *)
Fixpoint field_handler (accepts : LuaValue → bool) (entry_idx : Z) (keys : list string) : M R Z :=
  match keys with
  | [] => ret 0
  | k :: keys =>
      get_field entry_idx k ;;
      v <- top ;;
      if accepts v then abs_index (-1) else pop ;; field_handler accepts entry_idx keys
  end.
Definition entry_handler (accepts : LuaValue → bool) (entry_idx : Z) : M R Z :=
  get_i entry_idx 2 ;;
  v <- top ;;
  if accepts v then abs_index (-1)
  else pop ;; field_handler accepts entry_idx ["action"; "fn"; "callback"]%string.

(** The reference to a function, or an invalid one. *)
Definition ref_function (v : LuaValue) : Z := match v with LFunction f => f | _ => -1 end.
(** Taking it: a copy is pushed, and popped by [luaL_ref]. *)
Definition ref_value (v : LuaValue) : M R Z :=
  push_value v ;;
  check (λ r : R, (length (lua_stack (world r)) + aux_slots <=? LUA_MINSTACK)%nat) ;;
  pop ;;
  ret (ref_function v).

Definition register_lua_keybinding (mod_mask : Z) (spec : string) (fn_index : Z) (origin : string) : M R (option string) :=
  i <- abs_index fn_index ;;
  fn <- at_index i ;;
  if negb (is_function fn) then ret (Some (origin +:+ ": callback must be a function"))
  else
    match parse_key keysym_from_name mod_mask spec with
    | Ok (mods, keysym) =>
        ref <- ref_value fn ;;
        modify (λ r : R, r <| core_ ::= register_keybinding mods keysym ref |>) ;; ret None
    | Err e => ret (Some (origin +:+ ": " +:+ e))
    | Undefined => λ _, None
    end.

Definition label (origin : string) (i : Z) : string :=
  origin +:+ "[" +:+ String.string_of_list_ascii (show_int i) +:+ "]".

(** A string between double quotes. *)
Definition quoted (s : string) : string :=
  let q := String (Ascii.ascii_of_nat 34) "" in q +:+ s +:+ q.
Definition expected_entry : string := ": expected { " +:+ quoted "mod+Key" +:+ ", fn } or { key=..., action=... }".
Definition unknown_action (action : string) : string :=
  ": unknown builtin action '" +:+ action +:+ "' (use " +:+ quoted "move" +:+ ", " +:+ quoted "resize" +:+ ", "
    +:+ quoted "float" +:+ ")".

(** One entry: the error it marks, if any. *)
Definition load_bind (mod_mask : Z) (origin : string) (table_idx i : Z) : M R (option string) :=
  get_i table_idx i ;;
  entry_idx <- abs_index (-1) ;;
  entry <- at_index entry_idx ;;
  if negb (is_table entry) then pop ;; ret (Some (label origin i +:+ ": entry must be a table"))
  else
    spec <- entry_spec entry_idx ["key"; "bind"; "spec"]%string ;;
    fn_idx <- entry_handler is_function entry_idx ;;
    err <- (if String.eqb spec "" || (fn_idx =? 0)
            then ret (Some (label origin i +:+ expected_entry))
            else err <- register_lua_keybinding mod_mask spec fn_idx (label origin i) ;; pop ;; ret err) ;;
    pop ;;
    ret err.

(** The loop over the entries; the first error is the answer. *)
Fixpoint load_entries (body : Z → M R (option string)) (l : list Z) (err : option string) : M R (option string) :=
  match l with
  | [] => ret err
  | i :: l => e <- body i ;; load_entries body l (match err with Some _ => err | None => e end)
  end.
Definition load_list (body : Z → Z → M R (option string)) (table_idx : Z) (origin : string) : M R (option string) :=
  table_idx <- abs_index table_idx ;;
  t <- at_index table_idx ;;
  if negb (is_table t) then ret (Some (origin +:+ ": expected table"))
  else n <- raw_len table_idx ;; load_entries (body table_idx) (Z.of_nat <$> seq 1 (Z.to_nat n)) None.
Definition load_bind_list (mod_mask : Z) (origin : string) (table_idx : Z) : M R (option string) :=
  load_list (load_bind mod_mask origin) table_idx origin.

Definition is_handler (v : LuaValue) : bool := is_function v || is_table v || is_string v.
Definition builtin_of (action : string) : option MouseAction :=
  if String.eqb action "move" then Some ActMove
  else if String.eqb action "resize" then Some ActResize
  else if String.eqb action "float" then Some ActFloat
  else None.

(** A function in a field of a table, or an invalid reference. *)
Definition callback_field (idx : Z) (k : string) : M R Z :=
  get_field idx k ;;
  v <- top ;;
  ref <- (if is_function v then ref_value v else ret (-1)) ;;
  pop ;; ret ref.
Definition add_mouse_binding (mb : MouseBinding) : M R unit :=
  modify (λ r : R, r <| store_ ::= set_key "mouse_bindings" (SvMouse (get_mouse (store_ r) ++ [mb])) |>).
(** The callbacks of a binding, from its handler or the entry itself; the handler
    is popped. *)
Definition table_callbacks (entry_idx handler_idx mods btn : Z) : M R (string + MouseBinding) :=
  let table_idx := if handler_idx =? 0 then entry_idx else handler_idx in
  press <- callback_field table_idx "press" ;;
  release <- callback_field table_idx "release" ;;
  (if handler_idx =? 0 then ret tt else pop) ;;
  ret (inr (mkMouseBinding mods btn ActNone press release)).
Definition mouse_handler (origin : string) (i entry_idx handler_idx mods btn : Z) : M R (string + MouseBinding) :=
  if handler_idx =? 0 then table_callbacks entry_idx 0 mods btn
  else
    v <- at_index handler_idx ;;
    if is_string v then
      pop ;;
      let action := to_string lua_num_to_str v in
      ret (match builtin_of action with
           | Some a => inr (mkMouseBinding mods btn a (-1) (-1))
           | None => inl (label origin i +:+ unknown_action action)
           end)
    else if is_function v then ref <- ref_value v ;; pop ;; ret (inr (mkMouseBinding mods btn ActNone ref (-1)))
    else table_callbacks entry_idx handler_idx mods btn.
Definition has_action (mb : MouseBinding) : bool :=
  match mb_builtin mb with ActNone => (0 <=? mb_press mb) || (0 <=? mb_release mb) | _ => true end.

Definition load_mouse (mod_mask : Z) (origin : string) (table_idx i : Z) : M R (option string) :=
  get_i table_idx i ;;
  entry_idx <- abs_index (-1) ;;
  entry <- at_index entry_idx ;;
  if negb (is_table entry) then pop ;; ret (Some (label origin i +:+ ": entry must be a table"))
  else
    spec <- entry_spec entry_idx ["spec"; "bind"; "button"]%string ;;
    match parse_mouse_spec mod_mask spec with
    | Undefined => λ _, None
    | Err e => pop ;; ret (Some (label origin i +:+ ": " +:+ e))
    | Ok (mods, btn) =>
        handler_idx <- entry_handler is_handler entry_idx ;;
        mb <- mouse_handler origin i entry_idx handler_idx mods btn ;;
        err <- match mb with
               | inl e => ret (Some e)
               | inr mb => if has_action mb then add_mouse_binding mb ;; ret None
                           else ret (Some (label origin i +:+ ": missing callback"))
               end ;;
        pop ;;
        ret err
    end.
Definition load_mouse_bind_list (mod_mask : Z) (origin : string) (table_idx : Z) : M R (option string) :=
  load_list (load_mouse mod_mask origin) table_idx origin.
End Lists.

(** ** Life of the module *)

Section Module_.
Context {V : Type} `{!Env (KbWorld V)} `{!KbEnv V}.
Local Abbreviation R := (Runtime (KbWorld V)).

Definition kb_on_init : M R unit := modify (λ r : R, r <| store_ ::= register_settings |>).
(** [on_lua_init] forgets what the old VM held, and publishes the module's table. *)
Definition kb_on_lua_init : M R unit := kset (λ k, k <| pending_binds_ := None |> <| pending_mouse_ := None |>).
(** An assignment to a field of that table. *)
Definition kb_newindex (key v : LuaValue) : M R unit :=
  if negb (is_string key) || negb (is_table v) then ret tt
  else
    epoch <- gets (λ r : R, lua_epoch (outer (world r))) ;;
    let key := to_string lua_num_to_str key in
    if String.eqb key "binds" then kset (λ k, k <| pending_binds_ := Some (epoch, v) |>)
    else if String.eqb key "mouse" then kset (λ k, k <| pending_mouse_ := Some (epoch, v) |>)
    else ret tt.

(** A pending list: pushed unless its VM is gone, loaded, popped. *)
Definition apply_list (pending : option (Z * LuaValue)) (load : Z → M R (option string)) : M R unit :=
  match pending with
  | None => ret tt
  | Some (epoch, v) =>
      now <- gets (λ r : R, lua_epoch (outer (world r))) ;;
      if negb (epoch =? now) then ret tt else push_value v ;; load (-1) ;; pop
  end.
Definition apply_pending : M R unit :=
  binds <- kget pending_binds_ ;;
  mask <- gets (λ r : R, get_modifier (store_ r)) ;;
  apply_list binds (load_bind_list mask "kb.binds") ;;
  kset (λ k, k <| pending_binds_ := None |>) ;;
  mouse <- kget pending_mouse_ ;;
  mask <- gets (λ r : R, get_modifier (store_ r)) ;;
  apply_list mouse (load_mouse_bind_list mask "kb.mouse") ;;
  kset (λ k, k <| pending_mouse_ := None |>).

Definition stop_drag : M R (string + unit) :=
  d <- kget drag ;;
  if negb (drag_active d) then ok tt
  else in_ungrab_pointer ;;! lift (kset (λ k, k <| drag := no_drag |>)).
Definition maybe_cancel_drag_for_window (win : Z) : M R (string + unit) :=
  d <- kget drag ;;
  if negb (drag_active d) then ok tt
  else if negb (dr_window d =? win) then ok tt
  else stop_drag.

Definition kb_on_start : M R (string + unit) :=
  apply_pending ;;
  keys <- cget keybindings ;;
  try_for_each keys (λ k, in_grab_key (kb_keysym k) (kb_mods k)) ;;!
  in_flush.
Definition kb_on_stop : M R (string + unit) := stop_drag.
Definition kb_destroy : M R (string + unit) := stop_drag.

(** The buttons to grab, each combination once; the port takes 8 bits. *)
Definition grabs_of (l : list MouseBinding) : list (Z * Z) :=
  foldl (λ acc mb, let g := (Z.land (mb_button mb) 255, mb_mods mb) in
    if bool_decide (g ∈ acc) then acc else acc ++ [g]) [] l.
Definition install_mouse_grabs_for_window (win : Z) (l : list MouseBinding) : M R (string + unit) :=
  try_for_each (grabs_of l) (λ g, in_grab_button win g.1 g.2).
Definition reinstall_mouse_grabs_for_all_windows (l : list MouseBinding) : M R (string + unit) :=
  wins <- cget all_window_ids ;;
  try_for_each wins (λ win, in_ungrab_all_buttons win ;;! install_mouse_grabs_for_window win l) ;;!
  in_flush.
Definition kb_on_reload : M R (string + unit) :=
  stop_drag ;;!
  in_ungrab_all_keys ;;!
  kb_on_start ;;!
  mouse <- gets (λ r : R, get_mouse (store_ r)) ;;
  reinstall_mouse_grabs_for_all_windows mouse.

(** ** Events *)

Definition strip (mods : Z) : Z := Z.land mods (Z.lnot MOD_STRIP_MASK).

Definition on_key_press (mods keysym : Z) : M R (string + unit) :=
  keys <- cget keybindings ;;
  match List.find (λ k, (kb_keysym k =? keysym) && (kb_mods k =? strip mods)) keys with
  | Some k => lift (lua_call (kb_handler k))
  | None => ok tt
  end.

Definition call_mouse_ref (ref win : Z) (root_pos : Vec2) (button : Z) : M R unit :=
  if ref <? 0 then ret tt
  else lua_call_fields ref [("window", win); ("root_x", x root_pos); ("root_y", y root_pos); ("button", button)]%string.
Definition matches (button mods : Z) (mb : MouseBinding) : bool :=
  (mb_button mb =? button) && (mb_mods mb =? mods).

(** After a move: the window goes to the workspace shown on the monitor its
    center is on. *)
Definition drop_window (win : Z) : M R unit :=
  o <- window_state win ;;
  match o with
  | None => ret tt
  | Some p =>
      c <- fld p (λ w, vec_add (pos w) (vec_div (size w) 2)) ;;
      mon <- cget (λ c', List.find (λ m, mon_contains m c) (monitors (wsman c'))) ;;
      match mon with
      | None => ret tt
      | Some m =>
          cur <- cget (λ c', workspace_of_window (wsman c') win) ;;
          let dest := mon_active_ws m in
          if (0 <=? dest) && negb (dest =? cur) then dispatch_ (MoveWindowToWorkspace win dest) else ret tt
      end
  end.

Definition builtin_action (button mods : Z) (l : list MouseBinding) : MouseAction :=
  match List.find (λ mb, match mb_builtin mb with ActNone => false | _ => true end && matches button mods mb) l with
  | Some mb => mb_builtin mb
  | None => ActNone
  end.

(** The corner the pointer is warped to, in 16 bits. *)
Definition corner (d : DragState) : Vec2 :=
  mkVec2 (to_i16 (x (start_win_pos d) + x (start_win_size d) - 1))
         (to_i16 (y (start_win_pos d) + y (start_win_size d) - 1)).
Definition start_resize (win : Z) : M R (string + unit) :=
  o <- window_state win ;;
  match o with
  | Some p =>
      g <- fld p (λ w, (pos w, size w)) ;;
      kset (λ k, k <| drag ::= λ d, d <| start_win_pos := g.1 |> <| start_win_size := g.2 |> |>)
  | None => ret tt
  end ;;
  d <- kget drag ;;
  in_warp_pointer_abs (corner d) ;;!
  lift (kset (λ k, k <| drag ::= λ d, d <| start_root := corner d |> |>)).
Definition start_drag (op : DragOp) (win : Z) (root_pos : Vec2) (p : addr) : M R (string + unit) :=
  w <- fld p (λ w, w) ;;
  kset (λ k, k <| drag := mkDrag op win root_pos (pos w) (size w) |>) ;;
  (if floating w then ret tt
   else dispatch_ (SetWindowFloating win true) ;; dispatch_ ReconcileNow) ;;
  in_grab_pointer ;;!
  (match op with DragResize => start_resize win | _ => ok tt end) ;;!
  lift (dispatch_ (FocusWindow win) ;; post_event (FocusChanged win)).

Definition on_button_press (win : Z) (root_pos : Vec2) (button mods : Z) : M R (string + unit) :=
  mouse <- gets (λ r : R, get_mouse (store_ r)) ;;
  let builtin := builtin_action button mods mouse in
  match builtin with
  | ActNone => ok tt
  | _ =>
      o <- window_state win ;;
      match o with
      | None => ok tt
      | Some p =>
          pinned <- fld p (λ w, fullscreen w || borderless w) ;;
          if (pinned : bool) then ok tt
          else match builtin with
               | ActFloat =>
                   lift (on_core (dispatch_composite (ToggleWindowFloating win)) ;; dispatch_ ReconcileNow)
               | ActMove => start_drag DragMove win root_pos p
               | _ => start_drag DragResize win root_pos p
               end
      end
  end.
Definition on_button (win : Z) (root_pos : Vec2) (button state : Z) (release : bool) : M R (string + unit) :=
  let mods := strip state in
  mouse <- gets (λ r : R, get_mouse (store_ r)) ;;
  for_each (List.filter (matches button mods) mouse)
    (λ mb, call_mouse_ref (if release then mb_release mb else mb_press mb) win root_pos button) ;;
  if release then
    d <- kget drag ;;
    (if drag_active d && match dr_op d with DragMove => true | _ => false end
     then drop_window (dr_window d) else ret tt) ;;
    stop_drag
  else on_button_press win root_pos button mods.

Definition MIN_WIN_SIZE : Z := 32.
Definition on_motion (root_pos : Vec2) : M R (string + unit) :=
  d <- kget drag ;;
  if negb (drag_active d) then ok tt
  else
    match dr_op d with
    | DragMove =>
        lift (dispatch_ (SetWindowPosition (dr_window d)
          (mkVec2 (x (start_win_pos d) + (x root_pos - x (start_root d)))
                  (y (start_win_pos d) + (y root_pos - y (start_root d))))))
    | _ =>
        o <- window_state (dr_window d) ;;
        match o with
        | None => ok tt
        | Some p =>
            at_ <- fld p pos ;;
            lift (dispatch_ (SetWindowSize (dr_window d)
              (mkVec2 (Z.max MIN_WIN_SIZE (x root_pos - x at_)) (Z.max MIN_WIN_SIZE (y root_pos - y at_)))))
        end
    end.

Definition on_window_mapped (win : Z) : M R (string + unit) :=
  in_ungrab_all_buttons win ;;!
  mouse <- gets (λ r : R, get_mouse (store_ r)) ;;
  install_mouse_grabs_for_window win mouse ;;!
  in_flush.

(** [on(event)]. *)
Definition kb_on (ev : Event) : M R (string + unit) :=
  match ev with
  | KeyPressEv mods _ keysym => on_key_press mods keysym
  | ButtonEv win _ root_pos _ _ button state release => on_button win root_pos button state release
  | MotionEv _ root_pos _ => on_motion root_pos
  | WindowMapped win => on_window_mapped win
  | WindowUnmapped win _ | DestroyNotify win => maybe_cancel_drag_for_window win
  | _ => ok tt
  end.
End Module_.
