(* ===== verification/KeybindingsLists.v ===== *)
(** * What the lists of bindings mean

    [kb.binds] and [kb.mouse] are read through the stack of the Lua VM.  The
    reference definitions here read the same tables as values; the programs of
    [Keybindings] compute them, and this file says what they do to the stack. *)

From S2P Require Import Prelude Exceptions TextStream Geometry Workspace WorkspaceManager Events Commands.
From S2P Require Import Core Dispatch ConfigValue ConfigRuntime RuntimeStore Runtime Keybindings.
Local Open Scope Z_scope.

Section Lists.
Context {V : Type} `{!Env (KbWorld V)} `{!KbEnv V}.
Local Abbreviation R := (Runtime (KbWorld V)).
Local Abbreviation stk := (list LuaValue).
Implicit Types (r : R) (s : stk).

(** ** Programs on the stack *)

Definition with_stack (s : stk) r : R := r <| world ::= λ w, w <| lua_stack := s |> |>.
(** The element of an absolute index. *)
Definition nth_abs s (i : Z) : option LuaValue :=
  if (1 <=? i) && (i <=? Z.of_nat (length s)) then s !! Z.to_nat (Z.of_nat (length s) - i) else None.
(** [m] takes the stack from [s] to [s'], and answers [a]. *)
Definition runs {A} (m : M R A) s (a : A) s' : Prop := ∀ r, m (with_stack s r) = Some (a, with_stack s' r).

Lemma with_own r : with_stack (lua_stack (world r)) r = r.
Proof using Type. by destruct r as [? ? ? ? ? ? ? ? ? ? ? ? ? ? ? ? []]. Qed.
Lemma nth_abs_top v s : nth_abs (v :: s) (Z.of_nat (length s) + 1) = Some v.
Proof using Type.
  unfold nth_abs. cbn [length]. rewrite (proj2 (andb_true_iff _ _)); [|split; apply Z.leb_le; lia].
  by replace (Z.to_nat _) with 0%nat by lia.
Qed.
Lemma nth_abs_cons v s i w : nth_abs s i = Some w → nth_abs (v :: s) i = Some w.
Proof using Type.
  unfold nth_abs. destruct (Z.leb_spec 1 i); [|done]. cbn [andb length].
  destruct (Z.leb_spec i (Z.of_nat (length s))); [|done]. intros Hw.
  rewrite (proj2 (Z.leb_le _ _)) by lia.
  by replace (Z.to_nat (Z.of_nat (S (length s)) - i)) with (S (Z.to_nat (Z.of_nat (length s) - i))) by lia.
Qed.

Lemma runs_bind {A B} (m : M R A) (k : A → M R B) s a s1 b s2 :
  runs m s a s1 → runs (k a) s1 b s2 → runs (bind m k) s b s2.
Proof using Type. intros Hm Hk r. unfold bind. by rewrite Hm, Hk. Qed.
Lemma runs_ret {A} (a : A) s : runs (ret a) s a s.
Proof using Type. done. Qed.
(** There is room for [k] more elements. *)
Definition room (k : nat) s : Prop := (k + length s ≤ LUA_MINSTACK)%nat.
Local Ltac fits := unfold room in *; cbn [length] in *; lia.
Lemma runs_push v s : room 1 s → runs (push_value v) s tt (v :: s).
Proof using Type.
  intros Hs r. unfold push_value, bind, stack, gets, check. cbn [lua_stack world with_stack].
  change (lua_stack (world (with_stack s r))) with s. by rewrite (proj2 (Nat.ltb_lt _ _)) by fits.
Qed.
Lemma runs_pop v s : runs pop (v :: s) tt s.
Proof using Type. done. Qed.
Lemma runs_abs_top v s : runs (abs_index (-1)) (v :: s) (Z.of_nat (length s) + 1) (v :: s).
Proof using Type. intros r. unfold abs_index, stack, bind, gets, ret. cbn. do 2 f_equal. lia. Qed.
Lemma runs_abs i s : 0 ≤ i → runs (abs_index i) s i s.
Proof using Type. intros Hi r. unfold abs_index, stack, bind, gets, ret. by rewrite (proj2 (Z.ltb_ge _ _)). Qed.
Lemma runs_at i s v : nth_abs s i = Some v → runs (at_index i) s v s.
Proof using Type. intros Hv r. unfold at_index, checked. cbn. unfold nth_abs in Hv. by rewrite Hv. Qed.
Lemma runs_top v s : runs top (v :: s) v (v :: s).
Proof using Type. eapply runs_bind; [apply runs_abs_top|]. apply runs_at, nth_abs_top. Qed.
Lemma runs_get_i idx i s n e : room 1 s → nth_abs s idx = Some (LTable n e) → runs (get_i idx i) s tt (raw_geti e i :: s).
Proof using Type. intros Hs Hv r. unfold get_i, bind. rewrite (runs_at _ _ _ Hv). by apply runs_push. Qed.
Lemma runs_get_field idx k s n e : room 1 s → nth_abs s idx = Some (LTable n e) → runs (get_field idx k) s tt (field k e :: s).
Proof using Type. intros Hs Hv r. unfold get_field, bind. rewrite (runs_at _ _ _ Hv). by apply runs_push. Qed.
Lemma runs_ref v s : room 5 s → runs (ref_value v) s (ref_function v) s.
Proof using Type.
  intros Hs r. unfold ref_value, bind at 1. rewrite runs_push by fits. unfold bind, check.
  change (lua_stack (world (with_stack (v :: s) r))) with (v :: s).
  rewrite (proj2 (Nat.leb_le _ _)) by (unfold aux_slots; fits). by rewrite runs_pop.
Qed.

(** ** An entry as a value *)

Definition text_of (v : LuaValue) : string := to_string lua_num_to_str v.
Fixpoint first_string (e : list (LuaValue * LuaValue)) (ks : list string) : string :=
  match ks with
  | [] => ""%string
  | k :: ks => if is_string (field k e) then text_of (field k e) else first_string e ks
  end.
Definition spec_of (ks : list string) (e : list (LuaValue * LuaValue)) : string :=
  let v := raw_geti e 1 in
  let spec := if is_string v then text_of v else ""%string in
  if String.eqb spec "" then first_string e ks else spec.
Definition handler_of (accepts : LuaValue → bool) (e : list (LuaValue * LuaValue)) : option LuaValue :=
  if accepts (raw_geti e 2) then Some (raw_geti e 2)
  else List.find accepts ((λ k, field k e) <$> ["action"; "fn"; "callback"]%string).

Lemma runs_field_string ks n e s : room 2 s → let t := LTable n e in
  runs (field_string (Z.of_nat (length s) + 1) ks) (t :: s) (first_string e ks) (t :: s).
Proof using Type.
  intros Hs. cbv zeta. induction ks as [|k ks IH]; [apply runs_ret|]. cbn [field_string first_string].
  eapply runs_bind; [apply (runs_get_field _ _ _ n); [fits|apply nth_abs_top]|].
  eapply runs_bind; [eapply runs_bind; [apply runs_top|apply runs_ret]|].
  destruct (is_string (field k e)).
  - eapply runs_bind; [eapply runs_bind; [apply runs_top|apply runs_ret]|].
    eapply runs_bind; [apply runs_pop|apply runs_ret].
  - eapply runs_bind; [apply runs_pop|apply IH].
Qed.
Lemma runs_spec ks n e s : room 2 s → let t := LTable n e in
  runs (entry_spec (Z.of_nat (length s) + 1) ks) (t :: s) (spec_of ks e) (t :: s).
Proof using Type.
  intros Hs. cbv zeta. unfold entry_spec, spec_of.
  eapply runs_bind; [apply (runs_get_i _ _ _ n); [fits|apply nth_abs_top]|].
  eapply runs_bind; [eapply runs_bind; [apply runs_top|apply runs_ret]|].
  eapply (runs_bind _ _ _ (if is_string (raw_geti e 1) then text_of (raw_geti e 1) else ""%string)).
  { destruct (is_string (raw_geti e 1)); [|apply runs_ret]. eapply runs_bind; [apply runs_top|apply runs_ret]. }
  eapply runs_bind; [apply runs_pop|]. destruct (String.eqb _ _); [by apply runs_field_string|apply runs_ret].
Qed.

(** Where a handler is left on the stack, and the stack with it. *)
Definition handler_index (o : option LuaValue) s : Z :=
  match o with Some _ => Z.of_nat (length s) + 1 | None => 0 end.
Definition handler_stack (o : option LuaValue) s : stk := match o with Some v => v :: s | None => s end.
Lemma runs_field_handler accepts ks n e s : room 2 s → let t := LTable n e in
  let o := List.find accepts ((λ k, field k e) <$> ks) in
  runs (field_handler accepts (Z.of_nat (length s) + 1) ks) (t :: s) (handler_index o (t :: s)) (handler_stack o (t :: s)).
Proof using Type.
  intros Hs. cbv zeta. induction ks as [|k ks IH]; [apply runs_ret|]. cbn [field_handler fmap list_fmap List.find].
  eapply runs_bind; [apply (runs_get_field _ _ _ n); [fits|apply nth_abs_top]|].
  eapply runs_bind; [apply runs_top|]. destruct (accepts (field k e)); [apply runs_abs_top|].
  eapply runs_bind; [apply runs_pop|apply IH].
Qed.
Lemma runs_handler accepts n e s : room 2 s → let t := LTable n e in
  runs (entry_handler accepts (Z.of_nat (length s) + 1)) (t :: s)
    (handler_index (handler_of accepts e) (t :: s)) (handler_stack (handler_of accepts e) (t :: s)).
Proof using Type.
  intros Hs. cbv zeta. unfold entry_handler, handler_of.
  eapply runs_bind; [apply (runs_get_i _ _ _ n); [fits|apply nth_abs_top]|].
  eapply runs_bind; [apply runs_top|]. destruct (accepts (raw_geti e 2)); [apply runs_abs_top|].
  eapply runs_bind; [apply runs_pop|]. by apply runs_field_handler.
Qed.

(** ** Key bindings *)

Definition error_of {A} (o : string + A) : option string := match o with inl e => Some e | inr _ => None end.
Definition bind_of (mask : Z) (origin : string) (i : Z) (v : LuaValue) : string + Keybinding :=
  match v with
  | LTable _ e =>
      match handler_of is_function e with
      | Some fn =>
          if String.eqb (spec_of ["key"; "bind"; "spec"]%string e) "" then
            inl (label origin i +:+ expected_entry)
          else
            match parse_key keysym_from_name mask (spec_of ["key"; "bind"; "spec"]%string e) with
            | Ok (mods, keysym) => inr (mkKeybinding mods keysym (ref_function fn))
            | Err e => inl (label origin i +:+ ": " +:+ e)
            | Undefined => inl ""%string
            end
      | None => inl (label origin i +:+ expected_entry)
      end
  | _ => inl (label origin i +:+ ": entry must be a table")
  end.
(** An entry with a function and no specification stays on the stack. *)
Definition leak_of (v : LuaValue) : stk :=
  match v with
  | LTable _ e =>
      if String.eqb (spec_of ["key"; "bind"; "spec"]%string e) "" && bool_decide (is_Some (handler_of is_function e))
      then [v] else []
  | _ => []
  end.
Definition bound (b : string + Keybinding) (c : core) : core :=
  match b with inr k => c <| keybindings ::= λ l, l ++ [k] |> | inl _ => c end.
Definition with_core (f : core → core) r : R := r <| core_ ::= f |>.

Lemma parse_key_tokens_defined mask l mods keysym :
  parse_key_tokens keysym_from_name mask l mods keysym ≠ Undefined.
Proof using Type.
  revert mods keysym. induction l as [|t l IH]; intros mods keysym; [done|]. cbn.
  destruct (parse_binding_modifier_token t mask) eqn:E; [apply IH|..].
  - destruct (String.eqb _ _); [done|]. cbv zeta. destruct (_ =? 0); [|apply IH]. done.
  - unfold parse_binding_modifier_token in E. destruct (String.eqb _ _), (_ =? 0); done.
Qed.
Lemma parse_key_defined mask sp : parse_key keysym_from_name mask sp ≠ Undefined.
Proof using Type.
  unfold parse_key, rbind. pose proof (parse_key_tokens_defined mask (tokens sp) 0 0).
  destruct (parse_key_tokens _ _ _ _ _) as [[m k]|e|]; [by destruct (_ =? 0)|done..].
Qed.
Lemma find_accepts {A} (p : A → bool) l a : List.find p l = Some a → p a = true.
Proof using Type. intros H. by apply find_some in H as [_ H]. Qed.
Lemma handler_accepts accepts e v : handler_of accepts e = Some v → accepts v = true.
Proof using Type.
  unfold handler_of. destruct (accepts (raw_geti e 2)) eqn:E; [by intros [= <-]|]. apply find_accepts.
Qed.

Lemma with_core_stack f s r : with_core f (with_stack s r) = with_stack s (with_core f r).
Proof using Type. done. Qed.
Lemma with_core_id r : with_core (λ c, c) r = r.
Proof using Type. by destruct r. Qed.

Lemma register_runs mask spec fn s o r : room 6 s → is_function fn = true →
  register_lua_keybinding mask spec (Z.of_nat (length s) + 1) o (with_stack (fn :: s) r) =
  match parse_key keysym_from_name mask spec with
  | Ok (mods, keysym) =>
      Some (None, with_stack (fn :: s) (with_core (bound (inr (mkKeybinding mods keysym (ref_function fn)))) r))
  | Err e => Some (Some (o +:+ ": " +:+ e), with_stack (fn :: s) r)
  | Undefined => None
  end.
Proof using Type.
  intros Hs Hfn. unfold register_lua_keybinding, bind at 1 2. rewrite runs_abs by lia.
  rewrite (runs_at _ _ fn) by apply nth_abs_top. rewrite Hfn. cbn [negb].
  destruct (parse_key _ _ _) as [[mods keysym]|e|]; [|done..]. unfold bind. by rewrite runs_ref by fits.
Qed.

Lemma load_bind_runs mask o tidx i n e s r : room 7 s → nth_abs s tidx = Some (LTable n e) →
  let b := bind_of mask o i (raw_geti e i) in
  load_bind mask o tidx i (with_stack s r) =
  Some (error_of b, with_stack (leak_of (raw_geti e i) ++ s) (with_core (bound b) r)).
Proof using Type.
  intros Hs Ht. cbv zeta. set (v := raw_geti e i). unfold load_bind.
  unfold bind at 1. rewrite (runs_get_i _ _ _ n e) by (done || fits). fold v.
  unfold bind at 1. rewrite runs_abs_top. unfold bind at 1. rewrite (runs_at _ _ v) by apply nth_abs_top.
  destruct (is_table v) eqn:Ev; cbn [negb].
  2:{ unfold bind. rewrite runs_pop. by destruct v; cbn; rewrite ?with_core_id. }
  destruct v as [| | | | |len ent| |]; try done. cbn [bind_of leak_of].
  unfold bind at 1. rewrite runs_spec by fits. set (spec := spec_of _ ent).
  unfold bind at 1. rewrite runs_handler by fits. set (h := handler_of is_function ent).
  assert (Hh : ∀ fn, h = Some fn → is_function fn = true) by (intros fn; apply handler_accepts).
  destruct h as [fn|]; cbn [handler_index handler_stack].
  - specialize (Hh fn eq_refl). rewrite bool_decide_true by done.
    replace (Z.of_nat (length (LTable len ent :: s)) + 1 =? 0) with false by (symmetry; apply Z.eqb_neq; lia).
    rewrite orb_false_r, andb_true_r. destruct (String.eqb spec "").
    + unfold bind, ret. by rewrite runs_pop, with_core_id.
    + unfold bind at 1 2. rewrite register_runs by (done || fits).
      pose proof (parse_key_defined mask spec). destruct (parse_key _ _ spec) as [[mods keysym]|err|]; [..|done].
      * unfold bind. by rewrite !runs_pop.
      * unfold bind. by rewrite !runs_pop, with_core_id.
  - rewrite bool_decide_false by by intros []. rewrite andb_false_r, orb_true_r.
    unfold bind, ret. by rewrite runs_pop, with_core_id.
Qed.

(** ** The loop *)

Lemma nth_abs_app s' s i w : nth_abs s i = Some w → nth_abs (s' ++ s) i = Some w.
Proof using Type. intros Hw. induction s' as [|v s' IH]; [done|]. by apply nth_abs_cons. Qed.

(** The first error. *)
Definition first_error {A} (bs : list (string + A)) : option string := list_find (λ e, is_Some (error_of e)) bs ≫= λ e, error_of e.2.
Definition good_of {A} (bs : list (string + A)) : list A := omap (λ b, match b with inr a => Some a | inl _ => None end) bs.
(** The entries of a list with their numbers. *)
Definition entries (n : Z) (e : list (LuaValue * LuaValue)) : list (Z * LuaValue) :=
  (λ i, (i, raw_geti e i)) <$> (Z.of_nat <$> seq 1 (Z.to_nat n)).

(** A body that does to the state what [act] says and leaves [leak] on the stack. *)
Lemma load_entries_runs {A} (body : Z → M R (option string)) (b : Z → string + A) (leak : Z → stk)
    (act : string + A → R → R) tbl tidx k :
  (∀ x r s, act x (with_stack s r) = with_stack s (act x r)) →
  (∀ i s r, room k s → nth_abs s tidx = Some tbl →
    body i (with_stack s r) = Some (error_of (b i), with_stack (leak i ++ s) (act (b i) r))) →
  ∀ l err s r, room (k + length (flat_map leak l)) s → nth_abs s tidx = Some tbl →
  load_entries body l err (with_stack s r) =
  Some (match err with Some _ => err | None => first_error (b <$> l) end,
        with_stack (flat_map leak (reverse l) ++ s) (foldl (λ r x, act x r) r (b <$> l))).
Proof using Type.
  intros Hact Hbody l. induction l as [|i l IH]; intros err s r Hs Ht; [by destruct err|].
  cbn [flat_map] in Hs. rewrite length_app in Hs.
  cbn [load_entries]. unfold bind at 1. rewrite Hbody by (done || fits).
  rewrite IH by (by apply nth_abs_app || (unfold room in *; rewrite length_app; lia)).
  f_equal. f_equal.
  - destruct err; [done|]. unfold first_error. cbn. destruct (b i); cbn; [done|].
    by destruct (list_find _ _) as [[]|].
  - cbn [fmap list_fmap foldl]. rewrite reverse_cons, flat_map_app, <- app_assoc. cbn. by rewrite app_nil_r.
Qed.
Lemma load_list_runs body tidx o n e s r : nth_abs s tidx = Some (LTable n e) → 0 ≤ tidx →
  load_list body tidx o (with_stack s r) =
  load_entries (body tidx) (Z.of_nat <$> seq 1 (Z.to_nat n)) None (with_stack s r).
Proof using Type.
  intros Ht Hi. unfold load_list. unfold bind at 1. rewrite runs_abs by done. unfold bind at 1.
  rewrite (runs_at _ _ (LTable n e)) by done. cbn [is_table negb]. unfold bind, raw_len, bind.
  by rewrite (runs_at _ _ (LTable n e)).
Qed.

(** ** [kb.binds] *)

Definition binds_of (mask : Z) (o : string) (n : Z) e : list (string + Keybinding) :=
  (λ x, bind_of mask o x.1 x.2) <$> entries n e.
Lemma fold_bound bs r : foldl (λ r b, with_core (bound b) r) r bs =
  with_core (λ c, c <| keybindings ::= λ l, l ++ good_of bs |>) r.
Proof using Type.
  revert r. induction bs as [|b bs IH]; intros r.
  - cbn. destruct r as [? c]. unfold with_core. cbn. f_equal. destruct c. cbn. by rewrite app_nil_r.
  - cbn [foldl]. rewrite IH. unfold with_core. destruct r as [? c]. cbn. f_equal. destruct c, b; [done|].
    cbn. by rewrite <- app_assoc.
Qed.

(** What stays on the stack, the last entry on top. *)
Definition leaks_of (n : Z) e : stk := flat_map (λ x, leak_of x.2) (reverse (entries n e)).
Lemma length_flat_map_reverse {A} (f : A → stk) l : length (flat_map f (reverse l)) = length (flat_map f l).
Proof using Type.
  induction l as [|a l IH]; [done|]. rewrite reverse_cons, flat_map_app, length_app, IH. cbn.
  rewrite app_nil_r, length_app. lia.
Qed.
Lemma leaks_count n e : length (flat_map (λ i, leak_of (raw_geti e i)) (Z.of_nat <$> seq 1 (Z.to_nat n))) = length (leaks_of n e).
Proof using Type.
  unfold leaks_of, entries. rewrite length_flat_map_reverse. f_equal.
  induction (Z.of_nat <$> seq 1 (Z.to_nat n)) as [|i l IH]; [done|]. cbn. by rewrite IH.
Qed.
Lemma load_binds_runs mask o n e s r : room (8 + length (leaks_of n e)) s → let tbl := LTable n e in
  load_bind_list mask o (Z.of_nat (length s) + 1) (with_stack (tbl :: s) r) =
  Some (first_error (binds_of mask o n e),
        with_stack (leaks_of n e ++ tbl :: s)
          (with_core (λ c, c <| keybindings ::= λ l, l ++ good_of (binds_of mask o n e) |>) r)).
Proof using Type.
  intros Hs. cbv zeta. unfold load_bind_list. rewrite (load_list_runs _ _ _ n e) by (apply nth_abs_top || lia).
  rewrite (load_entries_runs _ (λ i, bind_of mask o i (raw_geti e i)) (λ i, leak_of (raw_geti e i))
    (λ b, with_core (bound b)) (LTable n e) (Z.of_nat (length s) + 1) 7); [|done| |rewrite leaks_count; fits|apply nth_abs_top].
  - do 2 f_equal; [unfold binds_of, entries; by rewrite <- !list_fmap_compose|].
    f_equal.
    + unfold leaks_of, entries. rewrite <- !fmap_reverse. f_equal. induction (Z.of_nat <$> _) as [|i l IH]; [done|].
      cbn. by rewrite IH.
    + rewrite fold_bound. unfold binds_of, entries. by rewrite <- !list_fmap_compose.
  - intros i s' r' Hs' Ht. by apply (load_bind_runs mask o _ i n e).
Qed.

(** ** [kb.mouse] *)

Definition table_binding (mods btn : Z) (e : list (LuaValue * LuaValue)) : MouseBinding :=
  mkMouseBinding mods btn ActNone (ref_function (field "press" e)) (ref_function (field "release" e)).
Definition handled (o : string) (i mods btn : Z) (h : option LuaValue) e : string + MouseBinding :=
  match h with
  | None => inr (table_binding mods btn e)
  | Some h =>
      if is_string h then
        match builtin_of (text_of h) with
        | Some a => inr (mkMouseBinding mods btn a (-1) (-1))
        | None => inl (label o i +:+ unknown_action (text_of h))
        end
      else
        match h with
        | LTable _ eh => inr (table_binding mods btn eh)
        | _ => inr (mkMouseBinding mods btn ActNone (ref_function h) (-1))
        end
  end.
Definition mouse_of (mask : Z) (o : string) (i : Z) (v : LuaValue) : string + MouseBinding :=
  match v with
  | LTable _ e =>
      match parse_mouse_spec mask (spec_of ["spec"; "bind"; "button"]%string e) with
      | Ok (mods, btn) =>
          match handled o i mods btn (handler_of is_handler e) e with
          | inr mb => if has_action mb then inr mb else inl (label o i +:+ ": missing callback")
          | inl e => inl e
          end
      | Err e => inl (label o i +:+ ": " +:+ e)
      | Undefined => inl ""%string
      end
  | _ => inl (label o i +:+ ": entry must be a table")
  end.
Definition added (b : string + MouseBinding) r : R :=
  match b with
  | inr mb => r <| store_ ::= set_key "mouse_bindings" (SvMouse (get_mouse (store_ r) ++ [mb])) |>
  | inl _ => r
  end.

Lemma parse_mouse_defined mask sp : parse_mouse_spec mask sp ≠ Undefined.
Proof using Type.
  unfold parse_mouse_spec, rbind.
  assert (H : ∀ l mods btn, parse_mouse_tokens mask l mods btn ≠ Undefined).
  { intros l. induction l as [|t l IH]; intros mods btn; [done|]. cbn. destruct (_ && _).
    - destruct (stoul _); [apply IH|done].
    - unfold rbind, parse_binding_modifier_token. destruct (String.eqb _ _), (_ =? 0); done || apply IH. }
  specialize (H (tokens sp) 0 0). destruct (parse_mouse_tokens _ _ _ _) as [[m k]|e|]; [by destruct (_ =? 0)|done..].
Qed.
Lemma runs_callback idx k s n e : room 6 s → nth_abs s idx = Some (LTable n e) →
  runs (callback_field idx k) s (ref_function (field k e)) s.
Proof using Type.
  intros Hs Ht. eapply runs_bind; [eapply runs_get_field; [fits|exact Ht]|].
  eapply runs_bind; [apply runs_top|]. eapply (runs_bind _ _ _ (ref_function (field k e))).
  { destruct (is_function (field k e)) eqn:Ef; [apply runs_ref; fits|]. destruct (field k e); done || apply runs_ret. }
  eapply runs_bind; [apply runs_pop|apply runs_ret].
Qed.
Lemma runs_mouse_handler o i mods btn n e s : room 8 s → let t := LTable n e in let h := handler_of is_handler e in
  runs (mouse_handler o i (Z.of_nat (length s) + 1) (handler_index h (t :: s)) mods btn)
    (handler_stack h (t :: s)) (handled o i mods btn h e) (t :: s).
Proof using Type.
  intros Hs. cbv zeta. set (t := LTable n e). pose proof (handler_accepts is_handler e) as Hacc.
  destruct (handler_of is_handler e) as [h|]; cbn [handler_index handler_stack handled].
  - specialize (Hacc h eq_refl). unfold mouse_handler.
    replace (Z.of_nat (length (t :: s)) + 1 =? 0) with false by (symmetry; apply Z.eqb_neq; lia).
    eapply runs_bind; [apply runs_at, nth_abs_top|]. destruct (is_string h) eqn:Es.
    { eapply runs_bind; [apply runs_pop|]. fold (text_of h). destruct (builtin_of (text_of h)); apply runs_ret. }
    destruct (is_function h) eqn:Ef.
    { eapply runs_bind; [apply runs_ref; fits|]. eapply runs_bind; [apply runs_pop|]. destruct h; try done; apply runs_ret. }
    destruct h as [| | | | |nh eh| |]; try done. unfold table_callbacks.
    replace (Z.of_nat (length (t :: s)) + 1 =? 0) with false by (symmetry; apply Z.eqb_neq; lia).
    do 2 (eapply runs_bind; [apply (runs_callback _ _ _ nh); [fits|apply nth_abs_top]|]).
    eapply runs_bind; [apply runs_pop|apply runs_ret].
  - unfold mouse_handler, table_callbacks. cbn [Z.eqb].
    do 2 (eapply runs_bind; [apply (runs_callback _ _ _ n); [fits|apply nth_abs_top]|]).
    eapply runs_bind; [apply runs_ret|apply runs_ret].
Qed.
Lemma load_mouse_runs mask o tidx i n e s r : room 8 s → nth_abs s tidx = Some (LTable n e) →
  let b := mouse_of mask o i (raw_geti e i) in
  load_mouse mask o tidx i (with_stack s r) = Some (error_of b, with_stack s (added b r)).
Proof using Type.
  intros Hs Ht. cbv zeta. set (v := raw_geti e i). unfold load_mouse.
  unfold bind at 1. rewrite (runs_get_i _ _ _ n e) by (done || fits). fold v.
  unfold bind at 1. rewrite runs_abs_top. unfold bind at 1. rewrite (runs_at _ _ v) by apply nth_abs_top.
  destruct (is_table v) eqn:Ev; cbn [negb].
  2:{ unfold bind. rewrite runs_pop. by destruct v. }
  destruct v as [| | | | |len ent| |]; try done. cbn [mouse_of].
  unfold bind at 1. rewrite runs_spec by fits. set (sp := spec_of _ ent).
  pose proof (parse_mouse_defined mask sp). destruct (parse_mouse_spec mask sp) as [[mods btn]|err|]; [..|done].
  - unfold bind at 1. rewrite runs_handler by fits. unfold bind at 1. rewrite runs_mouse_handler by fits.
    destruct (handled _ _ _ _ _ _) as [err|mb]; [by unfold bind, ret; rewrite runs_pop|].
    destruct (has_action mb); unfold bind, ret; [|by rewrite runs_pop].
    unfold add_mouse_binding, modify. cbn [added error_of].
    change (store_ (with_stack (LTable len ent :: s) r)) with (store_ r).
    match goal with |- context [pop ?r1] =>
      change r1 with (with_stack (LTable len ent :: s) (added (inr mb) r)) end.
    by rewrite runs_pop.
  - unfold bind, ret. by rewrite runs_pop.
Qed.
Definition mice_of (mask : Z) (o : string) (n : Z) e : list (string + MouseBinding) :=
  (λ x, mouse_of mask o x.1 x.2) <$> entries n e.
Lemma no_leaks {A} (l : list A) : length (flat_map (λ _, [] : stk) l) = 0%nat.
Proof using Type. by induction l. Qed.
Lemma load_mice_runs mask o n e s r : room 9 s → let tbl := LTable n e in
  load_mouse_bind_list mask o (Z.of_nat (length s) + 1) (with_stack (tbl :: s) r) =
  Some (first_error (mice_of mask o n e),
        with_stack (tbl :: s) (foldl (λ r b, added b r) r (mice_of mask o n e))).
Proof using Type.
  intros Hs. cbv zeta. unfold load_mouse_bind_list. rewrite (load_list_runs _ _ _ n e) by (apply nth_abs_top || lia).
  rewrite (load_entries_runs _ (λ i, mouse_of mask o i (raw_geti e i)) (λ _, [])
    added (LTable n e) (Z.of_nat (length s) + 1) 8); [|by intros []| |rewrite no_leaks; fits|apply nth_abs_top].
  - do 2 f_equal; [unfold mice_of, entries; by rewrite <- !list_fmap_compose|].
    f_equal.
    + by induction (reverse _).
    + unfold mice_of, entries. by rewrite <- !list_fmap_compose.
  - intros i s' r' Hs' Ht. by apply (load_mouse_runs mask o _ i n e).
Qed.

(** ** A pending list *)

Lemma load_list_other body o v s r : is_table v = false →
  load_list body (Z.of_nat (length s) + 1) o (with_stack (v :: s) r) =
  Some (Some (o +:+ ": expected table"), with_stack (v :: s) r).
Proof using Type.
  intros Hv. unfold load_list, bind. rewrite runs_abs by lia.
  rewrite (runs_at _ _ v) by apply nth_abs_top. by rewrite Hv.
Qed.
(** The index of the top, from below. *)
Lemma load_list_top body o v s r :
  load_list body (-1) o (with_stack (v :: s) r) = load_list body (Z.of_nat (length s) + 1) o (with_stack (v :: s) r).
Proof using Type.
  unfold load_list. unfold bind at 1 4. by rewrite runs_abs_top, runs_abs by lia.
Qed.
Definition table_size (v : LuaValue) : Z := match v with LTable n _ => n | _ => 0 end.
Definition table_entries (v : LuaValue) : list (LuaValue * LuaValue) := match v with LTable _ e => e | _ => [] end.

(** What is left on the stack is as much as the entries leak. *)
Lemma apply_binds_runs mask o epoch v r :
  room (8 + length (leaks_of (table_size v) (table_entries v))) (lua_stack (world r)) → epoch = lua_epoch (outer (world r)) →
  ∃ rest, length rest = length (leaks_of (table_size v) (table_entries v)) ∧
  apply_list (Some (epoch, v)) (load_bind_list mask o) r =
  Some (tt, with_stack (rest ++ lua_stack (world r))
    (with_core (λ c, c <| keybindings ::= λ l, l ++ good_of (binds_of mask o (table_size v) (table_entries v)) |>) r)).
Proof using Type.
  intros Hs ->. unfold apply_list. set (s := lua_stack (world r)) in *.
  assert (Epush : push_value v r = Some (tt, with_stack (v :: s) r)) by (rewrite <- (with_own r) at 1; apply runs_push; fits).
  destruct (is_table v) eqn:Ev.
  - destruct v as [| | | | |n e| |]; try done. cbn [table_size table_entries].
    set (rest := tail (leaks_of n e ++ [LTable n e])).
    assert (Er : ∃ w, leaks_of n e ++ LTable n e :: s = w :: rest ++ s).
    { unfold rest. destruct (leaks_of n e) as [|w l]; [by eexists|]. exists w. cbn. by rewrite <- app_assoc. }
    exists rest. split; [unfold rest; destruct (leaks_of n e); cbn; [done|rewrite length_app; cbn; lia]|].
    unfold bind at 1, gets. rewrite Z.eqb_refl. cbn [negb]. unfold bind at 1. rewrite Epush.
    unfold bind at 1, load_bind_list. rewrite load_list_top. fold (load_bind_list mask o).
    change (load_list (load_bind mask o) (Z.of_nat (length s) + 1) o) with
      (load_bind_list mask o (Z.of_nat (length s) + 1)).
    rewrite load_binds_runs by done. destruct Er as [w ->]. apply runs_pop.
  - exists []. assert (Hn : table_size v = 0 ∧ table_entries v = []) by (by destruct v). destruct Hn as [-> ->].
    split; [done|]. unfold bind at 1, gets. rewrite Z.eqb_refl. cbn [negb]. unfold bind at 1. rewrite Epush.
    unfold bind at 1, load_bind_list. rewrite load_list_top, load_list_other by done. rewrite runs_pop.
    f_equal. f_equal. unfold s. cbn [app]. f_equal. destruct r as [? c]. cbn. unfold with_core. cbn. f_equal.
    destruct c. cbn. by rewrite app_nil_r.
Qed.
Lemma apply_mice_runs mask o epoch v r : room 9 (lua_stack (world r)) → epoch = lua_epoch (outer (world r)) →
  apply_list (Some (epoch, v)) (load_mouse_bind_list mask o) r =
  Some (tt, foldl (λ r b, added b r) r (mice_of mask o (table_size v) (table_entries v))).
Proof using Type.
  intros Hs ->. unfold apply_list. set (s := lua_stack (world r)) in *.
  assert (Epush : push_value v r = Some (tt, with_stack (v :: s) r)) by (rewrite <- (with_own r) at 1; apply runs_push; fits).
  assert (Eown : ∀ bs, with_stack s (foldl (λ r b, added b r) r bs) = foldl (λ r b, added b r) r bs).
  { intros bs. rewrite <- (with_own (foldl _ r bs)) at 2. f_equal. unfold s. clear. revert r.
    induction bs as [|b bs IH]; intros r; [done|]. cbn [foldl]. rewrite <- IH. by destruct b. }
  unfold bind at 1, gets. rewrite Z.eqb_refl. cbn [negb]. unfold bind at 1. rewrite Epush.
  unfold bind at 1, load_mouse_bind_list. rewrite load_list_top. destruct (is_table v) eqn:Ev.
  - destruct v as [| | | | |n e| |]; try done. cbn [table_size table_entries].
    change (load_list (load_mouse mask o) (Z.of_nat (length s) + 1) o) with
      (load_mouse_bind_list mask o (Z.of_nat (length s) + 1)).
    rewrite load_mice_runs, runs_pop by done. by rewrite Eown.
  - rewrite load_list_other by done. rewrite runs_pop. unfold s. rewrite with_own. by destruct v.
Qed.
End Lists.
