(* ===== verification/BackendSafe.v ===== *)
(** * Safety of a backend's operations

    What a backend does between a call of the runtime and its return is made of
    calls of the core, of the runtime and of the other side of its connection.
    An operation that holds pointers to windows is judged by [xt L]: run while the
    objects at the addresses [L] live, it completes, keeps the invariant and loses
    no object. *)

From S2P Require Import Prelude Fuel Exceptions Geometry Workspace WorkspaceManager WindowIndex ManagerInv.
From S2P Require Import ManagerOps.
From S2P Require Import Events Commands Core Dispatch CoreSafe CoreRun Runtime LifecycleSafe.
Local Open Scope Z_scope.

(** ** The other side of the connection

    An invariant [J] of it and the patience of the environment, kept by a step. *)

Section Server.
Context {Srv : Type} (J : Srv → Prop) (pat : Srv → nat).

Definition srv_step (s s' : Srv) : Prop := J s' ∧ (pat s' ≤ pat s)%nat.

Definition srv_safe {A} (m : M Srv A) : Prop := ∀ s, J s → wp m (λ _ s', srv_step s s') s.

#[export] Instance srv_step_trans : Transitive srv_step.
Proof. intros s1 s2 s3 [H1 P1] [H2 P2]. split; [done|lia]. Qed.

Lemma srv_safe_ret {A} (a : A) : srv_safe (ret a).
Proof. by intros s Hs. Qed.
Lemma srv_safe_gets {A} (f : Srv → A) : srv_safe (gets f).
Proof. by intros s Hs. Qed.
Lemma srv_safe_bind {A B} (m : M Srv A) (k : A → M Srv B) :
  srv_safe m → (∀ a, srv_safe (k a)) → srv_safe (bind m k).
Proof.
  intros Hm Hk s Hs. wp_step. eapply wp_mono; [by apply Hm|]. cbv beta. intros a s1 H1.
  eapply wp_mono; [apply Hk, H1|]. cbv beta. intros b s2 H2. by etrans.
Qed.
Lemma srv_safe_if {A} (b : bool) (m1 m2 : M Srv A) :
  srv_safe m1 → srv_safe m2 → srv_safe (if b then m1 else m2).
Proof. by destruct b. Qed.
Lemma srv_safe_ask {A} (q : Srv → A * Srv) : (∀ s, J s → srv_step s (q s).2) → srv_safe (ask q).
Proof. intros Hq s Hs. unfold ask, wp. specialize (Hq s Hs). by destruct (q s). Qed.
End Server.

Create HintDb srv.
#[export] Hint Resolve srv_safe_ret srv_safe_gets : srv.
#[export] Hint Extern 2 (srv_safe _ _ (ask _)) => apply srv_safe_ask : srv.
Ltac srv_auto :=
  repeat match goal with
  | |- srv_safe _ _ (bind _ _) => apply srv_safe_bind
  | |- srv_safe _ _ (if _ then _ else _) => apply srv_safe_if
  | |- srv_safe _ _ (match ?o with Some _ => _ | None => _ end) => destruct o
  | |- ∀ _, _ => intros ?
  | |- srv_safe _ _ _ => solve [eauto with srv]
  end.

(** ** Operations of the backend *)

Section Backend.
Context {W : Type} `{!Env W}.
Context (J : W → Prop) (pat : W → nat) (owner : Z → string).
Local Abbreviation R := (Runtime W).
Local Abbreviation inv := (inv J owner).
Local Abbreviation keeps := (keeps pat).
Local Abbreviation tame := (tame J pat owner).
Implicit Types r : R.

Definition live (p : addr) r : Prop := is_Some (wins (wsman (core_ r)) !! p).
Definition grows r r' : Prop := ∀ p, live p r → live p r'.
Definition xt {A} (L : list addr) (m : M R A) : Prop :=
  ∀ r, inv r → Forall (λ p, live p r) L → wp m (λ _ r', inv r' ∧ keeps r r' ∧ grows r r') r.

Lemma grows_live L r r' : grows r r' → Forall (λ p, live p r) L → Forall (λ p, live p r') L.
Proof. intros Hg HL. by eapply Forall_impl. Qed.

Lemma xt_tame {A} (m : M R A) : xt [] m → tame m.
Proof. intros H r Hr. eapply wp_mono; [by apply H|]. by intros a r' (? & ? & _). Qed.

Lemma xt_ret {A} L (a : A) : xt L (ret a).
Proof. intros r Hr _. split_and!; [done|done|by intros p]. Qed.
Lemma xt_gets {A} L (f : R → A) : xt L (gets f).
Proof. intros r Hr _. split_and!; [done|done|by intros p]. Qed.
Lemma xt_bind {A B} L (m : M R A) (k : A → M R B) : xt L m → (∀ a, xt L (k a)) → xt L (bind m k).
Proof.
  intros Hm Hk r Hr HL. wp_step. eapply wp_mono; [by apply Hm|]. cbv beta.
  intros a r1 (H1 & K1 & G1). eapply wp_mono; [apply Hk; [done|by eapply grows_live]|]. cbv beta.
  intros b r2 (H2 & K2 & G2). split_and!; [done|by etrans|]. intros p Hp. by apply G2, G1.
Qed.
Lemma xt_if {A} L (b : bool) (m1 m2 : M R A) : xt L m1 → xt L m2 → xt L (if b then m1 else m2).
Proof. by destruct b. Qed.
Lemma xt_for_each {A} L (l : list A) (body : A → M R unit) :
  (∀ a, a ∈ l → xt L (body a)) → xt L (for_each l body).
Proof.
  induction l as [|a l IH]; intros Hb; [apply xt_ret|].
  apply xt_bind; [apply Hb; left|]. intros _. apply IH. intros b Hin. apply Hb. by right.
Qed.
(** A smaller set of pointers is enough. *)
Lemma xt_weaken {A} L L' (m : M R A) : L' ⊆ L → xt L' m → xt L m.
Proof.
  intros Hsub Hm r Hr HL. apply Hm; [done|]. rewrite Forall_forall in *. intros p Hp. by apply HL, Hsub.
Qed.

Lemma xt_modify L (f : R → R) :
  (∀ r, inv r → inv (f r) ∧ keeps r (f r) ∧ core_ (f r) = core_ r) → xt L (modify f).
Proof.
  intros Hf r Hr _. wp_step. destruct (Hf r Hr) as (H1 & K1 & E1). split_and!; [done|done|].
  intros p. unfold live. by rewrite E1.
Qed.
Lemma xt_cget {A} L (f : core → A) : xt L (cget f).
Proof. apply xt_gets. Qed.
Lemma xt_post L ev : xt L (post_event ev).
Proof. apply xt_modify. intros r [Hc Hw Hm]. split_and!; [by split|by apply keeps_fields|done]. Qed.

Lemma xt_on_core {A} L (m : M core A) :
  (∀ c, core_ok c → wp m (λ _ c', core_ok c' ∧
     ∀ p, is_Some (wins (wsman c) !! p) → is_Some (wins (wsman c') !! p)) c) → xt L (on_core m).
Proof.
  intros Hm r Hr _. pose proof (tame_on_core J pat owner m) as Ht.
  assert (Htame : tame (on_core m)).
  { apply Ht. intros c Hc. eapply wp_mono; [by apply Hm|]. by intros a c' []. }
  specialize (Htame r Hr).
  pose proof (Hm _ (inv_core _ _ _ Hr)) as H. apply wp_some in H as (a & c' & E & _ & Hg).
  unfold wp, on_core, zoom, bind, modify, ret in *. rewrite E in *. destruct Htame as [H1 K1].
  split_and!; [done|done|]. intros p. unfold live, flush_sink. cbn. destruct (event_sink c'); apply Hg.
Qed.

(** A safe call of the core loses no window. *)
Lemma xt_core_safe {A} L (m : M core A) : safe (λ _, True) m → xt L (on_core m).
Proof.
  intros Hm. apply xt_on_core. intros c Hc. eapply wp_mono; [by apply Hm|]. cbv beta.
  intros a c' [Hc' He]. split; [done|]. intros p [w Hw].
  destruct (we_wins _ _ (ev_wm _ _ He) p w Hw) as (w' & Hw' & _). by exists w'.
Qed.
Lemma xt_dispatch L cmd : atom_ok cmd → xt L (dispatch_ cmd).
Proof. intros Hcmd. apply xt_bind; [|intros; apply xt_ret]. by apply xt_core_safe, safe_dispatch_atom. Qed.
Lemma xt_focus L win : xt L (on_core (focus win)).
Proof. by apply xt_core_safe, safe_focus. Qed.
Lemma xt_focus_at L p : xt L (on_core (core_focus_monitor_at_point p)).
Proof. apply xt_core_safe. unfold core_focus_monitor_at_point. safe_auto. Qed.
Lemma xt_consume L win : xt L (on_core (consume_window_suppress_focus_once win)).
Proof. by apply xt_core_safe, safe_consume. Qed.
Lemma xt_update L win : xt L (on_core (update_window win)).
Proof. by apply xt_core_safe, safe_update_window. Qed.
Lemma xt_take_flush L win : xt L (on_core (take_window_flush win)).
Proof.
  apply xt_on_core. intros c Hc. unfold take_window_flush. do 2 wp_step.
  destruct (pending_window_flushes c !! win); [|by wp_step].
  do 3 wp_step. split; [destruct Hc; by constructor|done].
Qed.
Lemma xt_take_effects L : xt L (on_core take_backend_effects).
Proof.
  apply xt_on_core. intros c Hc. unfold take_backend_effects. do 5 wp_step.
  split; [destruct Hc; by constructor|done].
Qed.

(** ** Pointers *)

Lemma xt_fld {A} L p (f : Window → A) : p ∈ L → xt L (fld p f).
Proof.
  intros Hp r Hr HL. rewrite Forall_forall in HL. destruct (HL p Hp) as [w Hw].
  eapply wp_checked; [by rewrite Hw|]. split_and!; [done|done|by intros q].
Qed.

Lemma indexed_live win p r : inv r → window_index (wsman (core_ r)) !! win = Some p → live p r.
Proof.
  intros Hr E. pose proof (inv_core _ _ _ Hr) as Hc.
  destruct (wok_ix _ _ _ _ _ (ok_windows _ (co_wm _ Hc)) _ _ E) as (w & _ & _ & Hw & _). by exists w.
Qed.

(** [window_state_any] yields a pointer to a live object, or null. *)
Lemma xt_window {A} L win (k : option addr → M R A) :
  xt L (k None) → (∀ p, xt (p :: L) (k (Some p))) → xt L (bind (window_state_any win) k).
Proof.
  intros Hn Hs r Hr HL. unfold window_state_any, cget. do 2 wp_step. unfold find_window_in_all.
  destruct (window_index (wsman (core_ r)) !! win) as [p|] eqn:E; [|by apply Hn].
  apply Hs; [done|]. constructor; [by eapply indexed_live|done].
Qed.

(** ** Composite commands, exceptions, windows *)

Lemma xt_composite L cmd : composite_ok cmd → xt L (on_core (dispatch_composite cmd)).
Proof. intros Hc. by apply xt_core_safe, safe_dispatch_composite. Qed.

Lemma xt_throw {A} L e : xt L (throw (A := A) e).
Proof. apply xt_ret. Qed.
Lemma xt_ok {A} L (a : A) : xt L (ok a).
Proof. apply xt_ret. Qed.
Lemma xt_lift {A} L (m : M R A) : xt L m → xt L (lift m).
Proof. intros Hm. apply xt_bind; [done|]. intros a. apply xt_ok. Qed.
Lemma xt_try {A B} L (m : M R (string + A)) (k : A → M R (string + B)) :
  xt L m → (∀ a, xt L (k a)) → xt L (try_bind m k).
Proof. intros Hm Hk. apply xt_bind; [done|]. intros [e|a]; [apply xt_throw|done]. Qed.
Lemma xt_try_for_each {A} L (l : list A) (body : A → M R (string + unit)) :
  (∀ a, xt L (body a)) → xt L (try_for_each l body).
Proof. intros Hb. induction l as [|a l IH]; [apply xt_ok|by apply xt_try]. Qed.

Lemma xt_window_state {A} L win (k : option addr → M R A) :
  xt L (k None) → (∀ p, xt (p :: L) (k (Some p))) → xt L (bind (window_state win) k).
Proof.
  intros Hn Hs r Hr HL. unfold window_state, cget. do 2 wp_step. unfold find_window.
  destruct (win =? NO_WINDOW); [by apply Hn|]. unfold is_ws_valid, NO_WORKSPACE.
  destruct (0 <=? -1) eqn:Eb; [done|]. cbn [andb]. unfold find_window_in_all.
  destruct (window_index (wsman (core_ r)) !! win) as [p|] eqn:E; [|by apply Hn].
  apply Hs; [done|]. constructor; [by eapply indexed_live|done].
Qed.
Lemma xt_focused_state {A} L (k : option addr → M R A) :
  xt L (k None) → (∀ p, xt (p :: L) (k (Some p))) → xt L (bind (cget focused_window_state) k).
Proof.
  intros Hn Hs r Hr HL. unfold cget. do 2 wp_step. unfold focused_window_state, find_window_in_all.
  destruct (_ =? NO_WINDOW); [by apply Hn|].
  destruct (window_index (wsman (core_ r)) !! _) as [p|] eqn:E; [|by apply Hn].
  apply Hs; [done|]. constructor; [by eapply indexed_live|done].
Qed.

(** The end of an operation may also be one that says nothing of the windows. *)
Definition xtt {A} (L : list addr) (m : M R A) : Prop :=
  ∀ r, inv r → Forall (λ p, live p r) L → wp m (λ _ r', inv r' ∧ keeps r r') r.
Lemma xtt_xt {A} L (m : M R A) : xt L m → xtt L m.
Proof. intros H r Hr HL. eapply wp_mono; [by apply H|]. by intros a r' (? & ? & _). Qed.
Lemma xtt_tame {A} L (m : M R A) : tame m → xtt L m.
Proof. intros H r Hr _. by apply H. Qed.
Lemma tame_xtt {A} (m : M R A) : xtt [] m → tame m.
Proof. intros H r Hr. by apply H. Qed.
Lemma xtt_bind {A B} L (m : M R A) (k : A → M R B) : xt L m → (∀ a, xtt L (k a)) → xtt L (bind m k).
Proof.
  intros Hm Hk r Hr HL. wp_step. eapply wp_mono; [by apply Hm|]. cbv beta.
  intros a r1 (H1 & K1 & G1). eapply wp_mono; [apply Hk; [done|by eapply grows_live]|]. cbv beta.
  intros b r2 (H2 & K2). split; [done|by etrans].
Qed.
Lemma xtt_if {A} L (b : bool) (m1 m2 : M R A) : xtt L m1 → xtt L m2 → xtt L (if b then m1 else m2).
Proof. by destruct b. Qed.
Lemma xtt_window {A} L win (k : option addr → M R A) :
  xtt L (k None) → (∀ p, xtt (p :: L) (k (Some p))) → xtt L (bind (window_state_any win) k).
Proof.
  intros Hn Hs r Hr HL.
  unfold window_state_any, cget. do 2 wp_step. unfold find_window_in_all.
  destruct (window_index (wsman (core_ r)) !! win) as [p|] eqn:E; [|by apply Hn].
  apply Hs; [done|]. constructor; [by eapply indexed_live|done].
Qed.
End Backend.

Create HintDb xt.
#[export] Hint Resolve xt_ret xt_gets xt_cget xt_post xt_dispatch xt_focus xt_focus_at : xt.
#[export] Hint Resolve xt_consume xt_update xt_take_flush xt_take_effects : xt.
#[export] Hint Resolve xt_throw xt_ok xt_composite : xt.
#[export] Hint Extern 1 (composite_ok _) => exact I : xt.
#[export] Hint Extern 1 (atom_ok _) => exact I : xt.
#[export] Hint Extern 1 (_ ∈ _) => set_solver : xt.

(** One step by the structure of the computation. *)
Ltac xt_core_step :=
  match goal with
  | |- xt _ _ _ _ (bind (window_state_any _) _) => apply xt_window; [|intros ?]
  | |- xt _ _ _ _ (bind (window_state _) _) => apply xt_window_state; [|intros ?]
  | |- xt _ _ _ _ (bind (cget focused_window_state) _) => apply xt_focused_state; [|intros ?]
  | |- xt _ _ _ _ (try_bind _ _) => apply xt_try; [|intros ?]
  | |- xt _ _ _ _ (try_for_each _ _) => apply xt_try_for_each; intros ?
  | |- xt _ _ _ _ (lift _) => apply xt_lift
  | |- xt _ _ _ _ (fld _ _) => apply xt_fld; set_solver
  | |- xt _ _ _ _ (bind _ _) => apply xt_bind; [|intros ?]
  | |- xt _ _ _ _ (if _ then _ else _) => apply xt_if
  | |- xt _ _ _ _ (for_each _ _) => apply xt_for_each; intros ? ?
  | |- xt _ _ _ _ (match ?o with Some _ => _ | None => _ end) => destruct o
  | |- xt _ _ _ _ (let '(_, _) := ?o in _) => destruct o
  | |- xt _ _ _ _ _ => solve [eauto with xt]
  end.
