(* ===== verification/KeybindingsProps.v ===== *)
(** * Claims about the key bindings

    Safety of the module, what its lists and specifications mean, dragging. *)

From S2P Require Import Prelude Exceptions TextStream Geometry Workspace WorkspaceManager WindowIndex ManagerInv.
From S2P Require Import Events Commands Core Dispatch CoreSafe CoreRun CoreSpecs CoreProps.
From S2P Require Import EventQueue.
From S2P Require Import ConfigValue ConfigRuntime RuntimeStore Runtime LifecycleSafe BackendSafe.
From S2P Require Import Keybindings KeybindingsLists.
Local Open Scope Z_scope.

(** ** Safety *)

Section Room.
Context {V : Type} `{!Env (KbWorld V)} `{!KbEnv V}.
Implicit Types w : KbWorld V.

(** The entries that will stay on the Lua stack when the pending list of keys is
    loaded, and the condition that there is room for them and for what loading an
    entry takes. *)
Definition backlog w : nat :=
  match pending_binds_ (kb w) with
  | Some (_, v) => length (leaks_of (table_size v) (table_entries v))
  | None => 0
  end.
Definition roomy w : Prop := (length (lua_stack w) + backlog w + 9 ≤ LUA_MINSTACK)%nat.
End Room.

Section Safety.
Context {V : Type} `{!Env (KbWorld V)} `{!KbEnv V}.
Context (J : V → Prop) (pat : V → nat) (owner : Z → string).
Local Abbreviation R := (Runtime (KbWorld V)).
Local Abbreviation Jw := (λ w : KbWorld V, J (outer w) ∧ roomy w).
Local Abbreviation inv := (inv Jw owner).
Local Abbreviation keeps := (keeps (λ w : KbWorld V, pat (outer w))).
Local Abbreviation xt := (xt Jw (λ w : KbWorld V, pat (outer w)) owner).
Implicit Types r : R.

(** The port and the Lua functions keep to their part; a call of a Lua function
    leaves the stack as it was, and assigns no list for which there is no room. *)
Class KbOk : Prop := {
  ko_grab_key k m : xt [] (in_grab_key k m);
  ko_ungrab_keys : xt [] in_ungrab_all_keys;
  ko_grab_button w b m : xt [] (in_grab_button w b m);
  ko_ungrab_buttons w : xt [] (in_ungrab_all_buttons w);
  ko_grab_pointer : xt [] in_grab_pointer;
  ko_ungrab_pointer : xt [] in_ungrab_pointer;
  ko_warp p : xt [] (in_warp_pointer_abs p);
  ko_flush : xt [] in_flush;
  ko_call f : xt [] (lua_call f);
  ko_call_fields f l : xt [] (lua_call_fields f l) }.
Context `{!KbOk}.

Lemma xt_any {A} L (m : M R A) : xt [] m → xt L m.
Proof using Type. intros Hm. eapply xt_weaken; [|exact Hm]. by intros x ?%elem_of_nil. Qed.
Lemma xt_kget {A} L (f : KeybindingsModule → A) : xt L (kget f).
Proof using Type. apply xt_gets. Qed.
Lemma xt_kset L f : (∀ w, (backlog (w <| kb ::= f |>) ≤ backlog w)%nat) → xt L (kset f).
Proof using Type.
  intros Hf. apply xt_modify. intros r [Hc [Hw Hl] Hm]. split_and!; [|by split|done]. split; [done| |done].
  split; [done|]. unfold roomy in *. cbn [world lua_stack upd] in *. specialize (Hf (world r)). etrans; [|exact Hl].
  apply Nat.add_le_mono_r, Nat.add_le_mono_l, Hf.
Qed.
Hint Resolve xt_kget : xt.
Hint Extern 1 (BackendSafe.xt _ _ _ _ (kset _)) => (apply xt_kset; reflexivity) : xt.

(** *** The pending lists, each loaded and forgotten *)

Definition same_rest r r' : Prop := inv r' ∧ keeps r r' ∧ grows r r'.
Lemma same_refl r : inv r → same_rest r r.
Proof using Type. intros Hr. split_and!; [done|done|by intros p]. Qed.
Lemma binds_loaded {A} mask o r (k : M R A) Q : inv r →
  (∀ r', same_rest r r' → wp k Q r') →
  wp (apply_list (pending_binds_ (kb (world r))) (load_bind_list mask o) ;;
      kset (λ k, k <| pending_binds_ := None |>) ;; k) Q r.
Proof using Type.
  intros Hr HQ. pose proof Hr as [[Hw Hc Hl Hu] [Hj Hroom] Hm]. unfold roomy, backlog in Hroom.
  assert (Hrest : wp (kset (λ k, k <| pending_binds_ := None |>) ;; k) Q r).
  { unfold kset. do 2 wp_step. apply HQ.
    apply (xt_kset [] (λ k, k <| pending_binds_ := None |>)); [|done|constructor].
    intros w. exact (Nat.le_0_l _). }
  apply wp_bind. destruct (pending_binds_ (kb (world r))) as [[epoch v]|] eqn:Ep; [|exact Hrest].
  destruct (decide (epoch = lua_epoch (outer (world r)))) as [E|E].
  - destruct (apply_binds_runs mask o epoch v r) as (rest & Hlen & Erun); [unfold room; lia|done|].
    unfold wp at 1. rewrite Erun. unfold kset. do 2 wp_step. apply HQ.
    split_and!; [split; [by split| |done]|by split|by intros p]. split; [done|].
    unfold roomy, backlog. cbn. rewrite length_app. lia.
  - unfold apply_list, wp at 1, bind, gets. by rewrite (proj2 (Z.eqb_neq _ _) E).
Qed.
Lemma xt_apply_mice L mask o pending : xt L (apply_list pending (load_mouse_bind_list mask o)).
Proof using Type.
  destruct pending as [[epoch v]|]; [|apply xt_ret]. intros r Hr _. destruct (decide (epoch = lua_epoch (outer (world r)))) as [E|E].
  - unfold wp. rewrite (apply_mice_runs mask o epoch v r); [|by destruct Hr as [_ [_ Hl] _]; unfold roomy, room in *; lia|done].
    generalize (mice_of mask o (table_size v) (table_entries v)).
    intros bs. clear E. revert r Hr. induction bs as [|b bs IH]; intros r Hr; [by apply same_refl|].
    cbn [foldl]. assert (H1 : same_rest r (added b r)).
    { destruct b; [by apply same_refl|].
      destruct Hr as [Hc Hw Hm]. split_and!; [by split|by split|by intros p]. }
    destruct H1 as (H1 & K1 & G1). destruct (IH _ H1) as (H2 & K2 & G2).
    split_and!; [done|by etrans|]. intros p Hp. by apply G2, G1.
  - unfold apply_list, wp, bind, gets. rewrite (proj2 (Z.eqb_neq _ _) E). split_and!; [done|done|by intros p].
Qed.
Ltac port lem := intros; apply xt_any, lem.
Lemma xt_in_grab_key L k m : xt L (in_grab_key k m).
Proof using All. port ko_grab_key. Qed.
Lemma xt_in_ungrab_keys L : xt L in_ungrab_all_keys.
Proof using All. port ko_ungrab_keys. Qed.
Lemma xt_in_grab_button L w b m : xt L (in_grab_button w b m).
Proof using All. port ko_grab_button. Qed.
Lemma xt_in_ungrab_buttons L w : xt L (in_ungrab_all_buttons w).
Proof using All. port ko_ungrab_buttons. Qed.
Lemma xt_in_grab_pointer L : xt L in_grab_pointer.
Proof using All. port ko_grab_pointer. Qed.
Lemma xt_in_ungrab_pointer L : xt L in_ungrab_pointer.
Proof using All. port ko_ungrab_pointer. Qed.
Lemma xt_in_warp L p : xt L (in_warp_pointer_abs p).
Proof using All. port ko_warp. Qed.
Lemma xt_in_flush L : xt L in_flush.
Proof using All. port ko_flush. Qed.
Lemma xt_lua_call L f : xt L (lua_call f).
Proof using All. port ko_call. Qed.
Lemma xt_lua_fields L f l : xt L (lua_call_fields f l).
Proof using All. port ko_call_fields. Qed.
Hint Resolve xt_in_grab_key xt_in_ungrab_keys xt_in_grab_button xt_in_ungrab_buttons : xt.
Hint Resolve xt_in_grab_pointer xt_in_ungrab_pointer xt_in_warp xt_in_flush xt_lua_call xt_lua_fields : xt.
Ltac kb_auto := repeat (cbv zeta; xt_core_step).

Lemma xt_pending L : xt L apply_pending.
Proof using All.
  intros r Hr HL. unfold apply_pending, kget at 1. do 4 wp_step. apply binds_loaded; [done|].
  intros r1 (H1 & K1 & G1).
  assert (Hmice : xt L (mouse <- kget pending_mouse_ ;; mask <- gets (λ r : R, get_modifier (store_ r)) ;;
    apply_list mouse (load_mouse_bind_list mask "kb.mouse") ;; kset (λ k, k <| pending_mouse_ := None |>))).
  { do 2 (apply xt_bind; [apply xt_gets|intros ?]). apply xt_bind; [apply xt_apply_mice|intros _]. by apply xt_kset. }
  eapply wp_mono; [apply Hmice; [done|by eapply grows_live]|]. cbv beta. intros [] r2 (H2 & K2 & G2).
  split_and!; [done|by etrans|]. intros p Hp. by apply G2, G1.
Qed.
Lemma xt_stop_drag L : xt L stop_drag.
Proof using All. unfold stop_drag. kb_auto. Qed.
Hint Resolve xt_pending xt_stop_drag : xt.
Lemma xt_kb_start L : xt L kb_on_start.
Proof using All. unfold kb_on_start. kb_auto. Qed.
Lemma xt_install L win l : xt L (install_mouse_grabs_for_window win l).
Proof using All. unfold install_mouse_grabs_for_window. kb_auto. Qed.
Hint Resolve xt_kb_start xt_install : xt.
Lemma xt_kb_reload L : xt L kb_on_reload.
Proof using All. unfold kb_on_reload, reinstall_mouse_grabs_for_all_windows. kb_auto. Qed.
Lemma xt_drop L win : xt L (drop_window win).
Proof using All. unfold drop_window. kb_auto. Qed.
Hint Resolve xt_drop : xt.
Lemma xt_start_resize L win : xt L (start_resize win).
Proof using All. unfold start_resize. kb_auto. Qed.
Hint Resolve xt_start_resize : xt.
Lemma xt_start_drag L op win root_pos p : p ∈ L → xt L (start_drag op win root_pos p).
Proof using All. intros Hp. unfold start_drag. destruct op; kb_auto. Qed.
Lemma xt_press L win root_pos button mods : xt L (on_button_press win root_pos button mods).
Proof using All.
  unfold on_button_press. apply xt_bind; [kb_auto|intros l]. cbv zeta.
  destruct (builtin_action button mods l); kb_auto; apply xt_start_drag; left.
Qed.
Hint Resolve xt_press : xt.
Lemma xt_kb_on L ev : xt L (kb_on ev).
Proof using All.
  destruct ev; cbn [kb_on]; unfold on_key_press, on_button, on_motion, on_window_mapped, maybe_cancel_drag_for_window,
    call_mouse_ref; kb_auto.
  destruct (dr_op _); kb_auto.
Qed.

(** C17: as long as there is room on the Lua stack, whatever values without
    metatables a configuration file assigns to [kb.binds] and [kb.mouse], and
    whatever event arrives, the key bindings module returns or lets an exception of
    the port through: its start, stop, reload and handlers never reach undefined
    behaviour and keep the core's invariant.  The Lua stack never underflows, no
    index names what is not there, and no push goes beyond the 20 slots that a C
    function has without asking for more.  There is room ([roomy], a part of [inv])
    when what is on the stack, one slot for each entry of a pending [kb.binds] that
    has a function and no specification, and the nine that reading takes at most
    fit into those slots; the calls keep it so ([leaks_overflow] is a list for
    which there is no room). *)
Theorem keybindings_safe r : inv r →
  let ok {A} (m : M R A) := wp m (λ _ r', inv r' ∧ keeps r r') r in
  ok kb_on_start ∧ ok kb_on_reload ∧ ok kb_on_stop ∧ (∀ ev, ok (kb_on ev)).
Proof using All.
  intros Hr. cbv zeta.
  assert (Hxt : ∀ A (m : M R A), xt [] m → wp m (λ _ r', inv r' ∧ keeps r r') r)
    by (intros A m Hm; by apply (xt_tame _ _ _ m Hm)).
  split_and!; [apply Hxt, xt_kb_start|apply Hxt, xt_kb_reload|apply Hxt, xt_stop_drag|].
  intros ev. apply Hxt, xt_kb_on.
Qed.
End Safety.

(** ** The lists *)

Section Pending.
Context {V : Type} `{!Env (KbWorld V)} `{!KbEnv V}.
Local Abbreviation R := (Runtime (KbWorld V)).
Implicit Types r : R.

Lemma find_set_key k v st : find k (set_key k v st) = set_value v <$> find k st.
Proof using Type.
  unfold find, set_key. induction st as [|[k' s] st IH]; [done|]. cbn.
  destruct (String.eqb_spec k' k) as [->|Hk]; cbn.
  - by rewrite String.eqb_refl.
  - by rewrite (proj2 (String.eqb_neq _ _) Hk).
Qed.
Lemma fold_added bs r : is_Some (find "mouse_bindings" (store_ r)) →
  let r' := foldl (λ r b, added b r) r bs in
  get_mouse (store_ r') = get_mouse (store_ r) ++ good_of bs ∧ core_ r' = core_ r ∧ world r' = world r.
Proof using Type.
  cbv zeta. revert r. induction bs as [|b bs IH]; intros r Hr; [by rewrite app_nil_r|]. cbn [foldl].
  destruct b as [e|mb]; [by apply IH|].
  assert (Es : store_ (added (inr mb) r) = set_key "mouse_bindings" (SvMouse (get_mouse (store_ r) ++ [mb])) (store_ r))
    by done.
  destruct (IH (added (inr mb) r)) as (E1 & E2 & E3).
  - rewrite Es, find_set_key. by apply fmap_is_Some.
  - rewrite E1, E2, E3. split; [|done]. cbn [good_of omap list_omap].
    assert (Eg : get_mouse (store_ (added (inr mb) r)) = get_mouse (store_ r) ++ [mb]).
    { unfold get_mouse at 1. rewrite Es, find_set_key. by destruct Hr as [s ->]. }
    by rewrite Eg, <- app_assoc.
Qed.

(** C19: [apply_pending] reads the lists as the reference definitions do.  It adds
    to the core, in order, the key bindings of the entries that have a handler and
    a specification that parses, and to the mouse bindings those of the good
    entries of the other list; the wrong entries are skipped.  Of the Lua stack it
    leaves what it found, and on it one value for each entry of [kb.binds] that has
    a function and no specification.  There has to be room for those ([roomy]). *)
Theorem pending_lists_loaded r epoch binds mice : roomy (world r) → epoch = lua_epoch (outer (world r)) →
  is_Some (find "mouse_bindings" (store_ r)) →
  pending_binds_ (kb (world r)) = Some (epoch, binds) → pending_mouse_ (kb (world r)) = Some (epoch, mice) →
  let mask := get_modifier (store_ r) in
  wp apply_pending (λ _ r',
    keybindings (core_ r') = keybindings (core_ r) ++
      good_of (binds_of mask "kb.binds" (table_size binds) (table_entries binds)) ∧
    get_mouse (store_ r') = get_mouse (store_ r) ++
      good_of (mice_of mask "kb.mouse" (table_size mice) (table_entries mice)) ∧
    (∃ rest, lua_stack (world r') = rest ++ lua_stack (world r) ∧
       length rest = length (leaks_of (table_size binds) (table_entries binds))) ∧
    kb (world r') = mkKb None None (drag (kb (world r)))) r.
Proof using Type.
  intros Hroom He Hst Hb Hm. unfold roomy, backlog in Hroom. rewrite Hb in Hroom. cbv zeta. unfold apply_pending, kget. do 4 wp_step. rewrite Hb. apply wp_bind.
  destruct (apply_binds_runs (get_modifier (store_ r)) "kb.binds" epoch binds r) as (rest & Hlen & Erun); [unfold room; lia|done|].
  unfold wp at 1. rewrite Erun. clear Erun.
  unfold kset at 1. do 4 wp_step. set (r1 := _ <| world ::= _ |>).
  do 2 wp_step. change (pending_mouse_ (kb (world r1))) with (pending_mouse_ (kb (world r))). rewrite Hm. apply wp_bind.
  change (store_ r1) with (store_ r).
  unfold wp at 1. rewrite (apply_mice_runs _ _ _ _ r1); [|unfold room, r1; cbn; rewrite length_app; lia|done].
  destruct (fold_added (mice_of (get_modifier (store_ r)) "kb.mouse" (table_size mice) (table_entries mice)) r1 Hst)
    as (E1 & E2 & E3). set (r2 := foldl _ r1 _) in *.
  unfold kset. wp_step. cbn. rewrite E1, E2, E3. split_and!; [done|done| |done]. by exists rest.
Qed.
End Pending.

(** ** Specifications *)

(** No token separator in it. *)
Definition plain (s : string) : Prop := plus ∉ txt s.
#[export] Instance plain_dec s : Decision (plain s).
Proof. unfold plain. apply _. Defined.

Lemma tokens_joined l : l ≠ [] → Forall plain l → Forall (λ s, s ≠ ""%string) l → tokens (String.concat "+" l) = l.
Proof.
  intros Hl Hp Hn. unfold tokens. induction l as [|a l IH]; [done|].
  apply Forall_cons in Hp as [Ha Hp]. apply Forall_cons in Hn as [Hna Hn]. destruct l as [|b l].
  - cbn [String.concat]. rewrite lines_last; [by cbn; rewrite string_txt|done|by destruct a].
  - cbn [String.concat]. rewrite !txt_append. change (txt "+" ++ txt ?s) with (plus :: txt s).
    rewrite lines_line by done. rewrite fmap_cons, string_txt. f_equal. by apply IH.
Qed.

(** How a combination is written: its modifiers by name, then the key. *)
Definition bit_names : list (Z * string) :=
  [(0, "shift"); (2, "ctrl"); (3, "alt"); (4, "mod2"); (5, "mod3"); (6, "mod4"); (7, "mod5")]%string.
Definition modifier_tokens (mods : Z) : list string := (filter (λ e, Z.testbit mods e.1 = true) bit_names).*2.
Definition show_key (mods : Z) (key : string) : string := String.concat "+" (modifier_tokens mods ++ [key]).
(** What names a key and not a modifier. *)
Definition key_name (key : string) : Prop :=
  key ≠ ""%string ∧ plain key ∧ lower_ascii key ≠ "mod"%string ∧ parse_physical_modifier (lower_ascii key) = 0.

Section Spec.
Context (keysym_from_name : string → Z) (mask : Z).

Lemma parse_modifiers l rest mods k : Forall (λ e, parse_binding_modifier_token e.2 mask = Ok (2 ^ e.1)) l →
  parse_key_tokens keysym_from_name mask (l.*2 ++ rest) mods k =
  parse_key_tokens keysym_from_name mask rest (foldl (λ m e, Z.lor m (2 ^ e.1)) mods l) k.
Proof using Type.
  intros Hl. revert mods. induction Hl as [|[b n] l E _ IH]; intros mods; [done|].
  cbn [fmap list_fmap app parse_key_tokens foldl snd fst] in *. cbv zeta. by rewrite E, IH.
Qed.
Lemma bits_of mods : 0 ≤ mods < 256 → Z.testbit mods 1 = false →
  foldl (λ m e, Z.lor m (2 ^ e.1)) 0 (filter (λ e : Z * string, Z.testbit mods e.1 = true) bit_names) = mods.
Proof using Type.
  intros Hm Hb.
  assert (H : forallb (λ n, let mods := Z.of_nat n in Z.testbit mods 1 ||
    (foldl (λ m e, Z.lor m (2 ^ e.1)) 0 (filter (λ e : Z * string, Z.testbit mods e.1 = true) bit_names) =? mods))
    (seq 0 256) = true) by by vm_compute.
  rewrite forallb_forall in H. specialize (H (Z.to_nat mods)). cbv zeta in H. rewrite Z2Nat.id in H by lia.
  rewrite Hb in H. apply Z.eqb_eq, H, in_seq. lia.
Qed.

Lemma spec_read_back mods key : 0 ≤ mods < 256 → Z.testbit mods 1 = false → key_name key →
  keysym_from_name key ≠ 0 →
  parse_key keysym_from_name mask (show_key mods key) = Ok (mods, keysym_from_name key).
Proof using Type.
  intros Hm Hb (Hne & Hplain & Hmod & Hphys) Hk. unfold parse_key.
  assert (Hin : ∀ e, e ∈ modifier_tokens mods → e ∈ bit_names.*2).
  { unfold modifier_tokens. intros e. rewrite !list_elem_of_fmap. intros (e' & -> & He%list_elem_of_filter). exists e'. tauto. }
  assert (Htok : tokens (show_key mods key) = modifier_tokens mods ++ [key]).
  { unfold show_key. apply tokens_joined.
    - by destruct (modifier_tokens mods).
    - apply Forall_app_2; [|by apply Forall_singleton]. apply Forall_forall. intros e He%Hin.
      assert (Hall : Forall plain bit_names.*2) by (by apply (bool_decide_unpack _); vm_compute). rewrite Forall_forall in Hall. by apply Hall.
    - apply Forall_app_2; [|by apply Forall_singleton]. apply Forall_forall. intros e He%Hin.
      assert (Hall : Forall (λ s, s ≠ ""%string) bit_names.*2) by (repeat constructor; done).
      rewrite Forall_forall in Hall. by apply Hall. }
  rewrite Htok. unfold modifier_tokens. rewrite parse_modifiers.
  - rewrite bits_of by done. cbn [parse_key_tokens]. cbv zeta. unfold parse_binding_modifier_token.
    rewrite (proj2 (String.eqb_neq _ _) Hmod), Hphys, (proj2 (Z.eqb_neq _ _) Hk).
    change (0 =? 0) with true.
    rewrite (proj2 (Z.eqb_neq _ _) Hk). cbn [rbind snd]. by rewrite (proj2 (Z.eqb_neq _ _) Hk).
  - apply Forall_forall. intros e [_ He]%list_elem_of_filter.
    assert (Hall : Forall (λ e, parse_binding_modifier_token e.2 mask = Ok (2 ^ e.1)) bit_names) by (repeat constructor).
    rewrite Forall_forall in Hall. by apply Hall.
Qed.

(** C20: a combination of modifiers and a key, written as a specification, is read
    back: for every set of modifiers that have a name (all but Caps Lock) and every
    name of a key that is not the name of a modifier, under any primary modifier.
    The name of the key is looked up as it is written; only a name that names no key
    is tried in lower case, so the case of a token matters ([key_case_matters]). *)
Theorem key_spec_roundtrip mods key : 0 ≤ mods < 256 → Z.testbit mods 1 = false → key_name key →
  keysym_from_name key ≠ 0 →
  parse_key keysym_from_name mask (show_key mods key) = Ok (mods, keysym_from_name key).
Proof using Type. apply spec_read_back. Qed.

(** The manual says that tokens are case-insensitive, but where two keysyms differ
    by the case of their names, as those of the letters do, two specifications that
    differ by the case of the key are two bindings; of a name that names nothing,
    the lower case is taken. *)
Lemma key_case_matters : keysym_from_name "A" ≠ 0 → keysym_from_name "a" ≠ 0 →
  keysym_from_name "A" ≠ keysym_from_name "a" →
  parse_key keysym_from_name mask "mod4+A" ≠ parse_key keysym_from_name mask "mod4+a".
Proof using Type.
  assert (Hname : ∀ k, k = "A"%string ∨ k = "a"%string → keysym_from_name k ≠ 0 →
    parse_key keysym_from_name mask ("mod4+" +:+ k) = Ok (64, keysym_from_name k)).
  { intros k Hk. apply (spec_read_back 64 k); [lia|done|]. destruct Hk as [-> | ->];
      (split_and!; [done|by apply (bool_decide_unpack _); vm_compute|done|done]). }
  intros H1 H2 H3. pose proof (Hname "A"%string (or_introl eq_refl) H1) as E1.
  pose proof (Hname "a"%string (or_intror eq_refl) H2) as E2. change ("mod4+" +:+ "A") with "mod4+A"%string in E1. change ("mod4+" +:+ "a") with "mod4+a"%string in E2.
  rewrite E1, E2. by intros [= ?].
Qed.
End Spec.

(** ** Num Lock *)

Section NumLock.
Context {V : Type} `{!Env (KbWorld V)} `{!KbEnv V}.
Local Abbreviation R := (Runtime (KbWorld V)).

Lemma strip_clears m b : Z.testbit MOD_STRIP_MASK b = true → Z.testbit (strip m) b = false.
Proof using Type.
  intros Hb. assert (0 ≤ b) by (destruct b; done || lia).
  unfold strip. by rewrite Z.land_spec, Z.lnot_spec, Hb, andb_false_r by done.
Qed.

(** Mod2 is offered as a modifier, alone in a specification and as the primary
    modifier, but it is the Num Lock bit, which is stripped from every event before
    it is compared: a binding with it is accepted and never fires. *)
Theorem mod2_never_fires :
  parse_modifier (VString "mod2") = Ok (SvModifier MOD_2) ∧
  (∀ mask, keysym_from_name "a" ≠ 0 → parse_key keysym_from_name mask "mod2+a" = Ok (MOD_2, keysym_from_name "a")) ∧
  (∀ (r : R) mods keysym, (∀ k, k ∈ keybindings (core_ r) → Z.testbit (kb_mods k) 4 = true) →
     on_key_press mods keysym r = Some (inr tt, r)) ∧
  (∀ l button state, (∀ mb, mb ∈ l → Z.testbit (mb_mods mb) 4 = true) → List.filter (matches button (strip state)) l = []).
Proof using Type.
  assert (Hno : ∀ m m', Z.testbit m 4 = true → (m =? strip m') = false).
  { intros m m' Hm. apply Z.eqb_neq. intros ->. by rewrite strip_clears in Hm. }
  split_and!; [done| | |].
  - intros mask Ha. apply (spec_read_back keysym_from_name mask MOD_2 "a"); [done|done| |done].
    split_and!; [done|by apply (bool_decide_unpack _); vm_compute|done|done].
  - intros r mods keysym Hk. unfold on_key_press, cget, bind, gets.
    destruct (List.find _ _) as [k|] eqn:E; [|done]. apply find_some in E as [Hin E].
    apply list_elem_of_In, Hk, (Hno _ mods) in Hin. by rewrite Hin, andb_false_r in E.
  - intros l button state Hl. induction l as [|mb l IH]; [done|]. cbn [List.filter]. unfold matches at 1.
    rewrite (Hno (mb_mods mb) state) by (apply Hl; left). rewrite andb_false_r. apply IH. intros mb' Hin. apply Hl. by right.
Qed.
End NumLock.
