(* ===== verification/DragProps.v ===== *)
(** * Dragging windows

    Between a press and a release the module has asked for the pointer and not let
    go of it: an invariant of its runs; where a moved window ends up; and how a
    resize begins. *)

From S2P Require Import Prelude Exceptions TextStream Geometry Workspace WorkspaceManager WindowIndex ManagerInv.
From S2P Require Import Events Commands Core Dispatch CoreSafe CoreRun CoreSpecs CoreProps.
From S2P Require Import EventQueue.
From S2P Require Import ConfigValue ConfigRuntime RuntimeStore Runtime LifecycleSafe BackendSafe.
From S2P Require Import Keybindings KeybindingsLists KeybindingsProps.
Local Open Scope Z_scope.

(** ** The pointer is asked for while a drag is on

    The module grabs the pointer through the port, which does not say whether the
    grab succeeded, and other code ungrabs it (the X11 backend when workspaces are
    switched, a window goes to a hidden one or a surface is lost).  Whether the
    pointer is asked is thus not the module's to know; what is its own doing, and
    stated here, is which request it made last. *)

Section Asked.
Context {V : Type} `{!Env (KbWorld V)} `{!KbEnv V}.
(** A record the port keeps of this module's requests: the last one to return was
    for the pointer. *)
Context (wanted : V → bool).
Local Abbreviation R := (Runtime (KbWorld V)).
Implicit Types r : R.

Definition dragging r : bool := drag_active (drag (kb (world r))).
Definition asked r : bool := wanted (outer (world r)).
(** Neither the drag nor what was asked of the pointer changes. *)
Definition still r r' : Prop := drag (kb (world r')) = drag (kb (world r)) ∧ asked r' = asked r.
#[export] Instance still_preorder : PreOrder still.
Proof. split; [done|]. intros r1 r2 r3 [H1 E1] [H2 E2]. split; congruence. Qed.

(** The record is of these two operations, when they do not throw; the port's other
    operations and the functions of Lua are no requests of the module about the
    pointer, and do not reach its drag, which is private to it. *)
Class RecordsPointer : Prop := {
  rp_grab r x r' : in_grab_pointer r = Some (inr x, r') → drag (kb (world r')) = drag (kb (world r)) ∧ asked r' = true;
  rp_ungrab r x r' : in_ungrab_pointer r = Some (inr x, r') → drag (kb (world r')) = drag (kb (world r)) ∧ asked r' = false;
  rp_grab_key k m : preserves still (in_grab_key k m);
  rp_ungrab_keys : preserves still in_ungrab_all_keys;
  rp_grab_button w b m : preserves still (in_grab_button w b m);
  rp_ungrab_buttons w : preserves still (in_ungrab_all_buttons w);
  rp_warp p : preserves still (in_warp_pointer_abs p);
  rp_flush : preserves still in_flush;
  rp_call f : preserves still (lua_call f);
  rp_call_fields f l : preserves still (lua_call_fields f l) }.

Lemma still_on_core {A} (m : M core A) : preserves still (on_core m).
Proof using Type.
  intros r a r'. unfold on_core, zoom, bind, modify, ret. destruct (m (core_ r)) as [[b c]|]; [|done].
  intros [= _ <-]. unfold flush_sink. cbn. by destruct (event_sink c).
Qed.
Lemma still_post ev : preserves still (post_event ev).
Proof using Type. by apply preserves_modify; [apply _|]. Qed.
Lemma still_kset f : (∀ k, drag (f k) = drag k) → preserves still (kset f).
Proof using Type. intros Hf. apply preserves_modify; [apply _|]. intros r. split; [apply Hf|done]. Qed.
End Asked.

Create HintDb still.
#[export] Hint Resolve still_on_core still_post : still.
#[export] Hint Resolve rp_grab_key rp_ungrab_keys rp_grab_button rp_ungrab_buttons rp_warp rp_flush rp_call rp_call_fields : still.
#[export] Hint Extern 1 (preserves _ (kset _)) => apply still_kset; reflexivity : still.
Ltac still_step :=
  match goal with
  | |- preserves _ (kget _) => apply preserves_gets, _
  | |- preserves _ (cget _) => apply preserves_gets, _
  | |- preserves _ (window_state _) => apply preserves_gets, _
  | |- preserves _ (fld _ _) => apply preserves_checked, _
  | |- preserves _ _ => preserves_step
  | |- preserves _ _ => solve [eauto with still]
  end.
Ltac still_auto := repeat (cbv zeta; still_step).

Section Runs.
Context {V : Type} `{!Env (KbWorld V)} `{!KbEnv V} (wanted : V → bool) `{!RecordsPointer wanted}.
Local Abbreviation R := (Runtime (KbWorld V)).
Local Abbreviation asked := (asked wanted).
Local Abbreviation still := (still wanted).
Implicit Types r : R.

Definition asked_in_drag r : Prop := asked r = dragging r.
(** From a state of [P], a call that does not throw ends in one of [Q]. *)
Definition leads {A} (P : R → Prop) (m : M R (string + A)) (Q : R → Prop) : Prop :=
  ∀ r a r', P r → m r = Some (inr a, r') → Q r'.
(** What the steps that leave the drag alone cannot break. *)
Definition stable (P : R → Prop) : Prop := ∀ r r', still r r' → P r → P r'.
Lemma stable_asked : stable asked_in_drag.
Proof using Type. intros r r' [E1 E2]. unfold asked_in_drag, dragging. by rewrite E1, E2. Qed.

Lemma leads_still {A} P (m : M R (string + A)) : stable P → preserves still m → leads P m P.
Proof using Type. intros HP Hm r a r' Hr E. by eapply HP; [eapply Hm|]. Qed.
Lemma leads_try {A B} P Q S_ (m : M R (string + A)) (k : A → M R (string + B)) :
  leads P m Q → (∀ a, leads Q (k a) S_) → leads P (try_bind m k) S_.
Proof using Type.
  intros Hm Hk r b r' Hr. unfold try_bind, bind, throw, ret. destruct (m r) as [[[e|a] r1]|] eqn:E; try done.
  intros E'. eapply Hk; [by eapply Hm|done].
Qed.
Lemma leads_bind {A B} P (m : M R A) (k : A → M R (string + B)) Q : stable P → preserves still m →
  (∀ a, leads P (k a) Q) → leads P (bind m k) Q.
Proof using Type.
  intros HP Hm Hk r b r' Hr. unfold bind. destruct (m r) as [[a r1]|] eqn:E; [|done].
  intros E'. eapply Hk; [|done]. by eapply HP; [eapply Hm|].
Qed.

Lemma leads_stop : leads asked_in_drag stop_drag (λ r, asked r = false ∧ dragging r = false).
Proof using All.
  intros r a r' Hr. unfold stop_drag, kget, bind at 1, gets. fold (dragging r). destruct (dragging r) eqn:Ed; cbn [negb].
  - unfold try_bind, bind. destruct (in_ungrab_pointer r) as [[[e|x] r1]|] eqn:E; [done| |done].
    apply (rp_ungrab wanted) in E as [_ E]. intros [= _ <-]. done.
  - intros [= _ <-]. unfold asked_in_drag in Hr. by rewrite Hr.
Qed.
Lemma stopped_asked r : asked r = false ∧ dragging r = false → asked_in_drag r.
Proof using Type. intros [H1 H2]. unfold asked_in_drag. congruence. Qed.
Lemma leads_stopped {A} (m : M R (string + A)) :
  leads asked_in_drag m (λ r, asked r = false ∧ dragging r = false) → leads asked_in_drag m asked_in_drag.
Proof using Type. intros Hm r a r' Hr E. by eapply stopped_asked, Hm. Qed.

Lemma still_pop : preserves still pop.
Proof using Type. unfold pop, set_stack. still_auto. by apply preserves_modify; [apply _|]. Qed.
Lemma still_check b : preserves still (check b).
Proof using Type. intros r a r'. unfold check. destruct (b r); [|done]. by intros [= _ <-]. Qed.
Hint Resolve still_check : still.
Lemma still_push v : preserves still (push_value v).
Proof using Type. unfold push_value, stack, set_stack. still_auto. by apply preserves_modify; [apply _|]. Qed.
Lemma still_abs i : preserves still (abs_index i).
Proof using Type. unfold abs_index, stack. still_auto. Qed.
Lemma still_at i : preserves still (at_index i).
Proof using Type. apply preserves_checked, _. Qed.
Hint Resolve still_pop still_push still_abs still_at : still.
Lemma still_reads idx : preserves still top ∧ (∀ i, preserves still (get_i idx i)) ∧
  (∀ k, preserves still (get_field idx k)) ∧ preserves still (raw_len idx) ∧ (∀ v, preserves still (ref_value v)).
Proof using Type. unfold top, get_i, get_field, raw_len, ref_value. split_and!; intros; still_auto. Qed.
Lemma still_spec idx ks : preserves still (entry_spec idx ks).
Proof using Type.
  destruct (still_reads idx) as (? & ? & ? & _ & _). unfold entry_spec, is_string_top, to_string_top.
  assert (∀ l, preserves still (field_string idx l)).
  { intros l. induction l; cbn [field_string]; unfold is_string_top, to_string_top; still_auto. }
  still_auto.
Qed.
Lemma still_handler idx accepts : preserves still (entry_handler accepts idx).
Proof using Type.
  destruct (still_reads idx) as (? & ? & ? & _ & _). unfold entry_handler.
  assert (∀ l, preserves still (field_handler accepts idx l)).
  { intros l. induction l; cbn [field_handler]; still_auto. }
  still_auto.
Qed.
Hint Resolve still_spec still_handler : still.
Lemma still_list load pending : (∀ i, preserves still (load i)) → preserves still (apply_list pending load).
Proof using Type. intros Hload. unfold apply_list. destruct pending as [[epoch v]|]; still_auto. Qed.
Lemma still_entries body idx o : (∀ t i, preserves still (body t i)) → preserves still (load_list body idx o).
Proof using Type.
  intros Hbody. unfold load_list. still_auto; [by apply (still_reads a)|]. generalize (None : option string).
  induction (Z.of_nat <$> _) as [|i l IH]; intros err; cbn [load_entries]; still_auto.
Qed.
Lemma still_modify f : (∀ r, still r (f r)) → preserves still (modify f).
Proof using Type. intros Hf. by apply preserves_modify; [apply _|]. Qed.
Lemma still_register mask sp i o : preserves still (register_lua_keybinding mask sp i o).
Proof using Type.
  assert (Hr : ∀ v, preserves still (ref_value v)) by apply (still_reads 0).
  unfold register_lua_keybinding. still_auto.
  destruct (parse_key keysym_from_name mask sp) as [[mods keysym]| |]; [still_auto|still_auto|done]. by apply still_modify.
Qed.
Hint Resolve still_register : still.
Lemma still_bind_entry mask o t i : preserves still (load_bind mask o t i).
Proof using Type.
  assert (Hg : preserves still (get_i t i)) by apply (still_reads t).
  unfold load_bind. still_auto.
Qed.
Lemma still_mouse_entry mask o t i : preserves still (load_mouse mask o t i).
Proof using Type.
  assert (Hr : ∀ v, preserves still (ref_value v)) by apply (still_reads 0).
  assert (Hcb : ∀ idx k, preserves still (callback_field idx k)).
  { intros idx k. destruct (still_reads idx) as (? & _ & ? & _ & _). unfold callback_field. still_auto. }
  assert (Htc : ∀ e h m b, preserves still (table_callbacks e h m b)) by (intros; unfold table_callbacks; still_auto).
  assert (Hg : preserves still (get_i t i)) by apply (still_reads t).
  unfold load_mouse. still_auto. destruct (parse_mouse_spec mask a2) as [[mods btn]| |]; [|still_auto|done].
  still_auto; [unfold mouse_handler; still_auto|]. destruct a4 as [e|mb]; [still_auto|].
  unfold add_mouse_binding. still_auto. apply still_modify. by intros r.
Qed.
Hint Resolve still_list still_entries still_bind_entry still_mouse_entry : still.
Lemma still_pending : preserves still apply_pending.
Proof using All. unfold apply_pending, load_bind_list, load_mouse_bind_list. still_auto. Qed.
Lemma still_start : preserves still kb_on_start.
Proof using All. pose proof still_pending. unfold kb_on_start. still_auto. Qed.
Lemma still_install win l : preserves still (install_mouse_grabs_for_window win l).
Proof using All. unfold install_mouse_grabs_for_window. still_auto. Qed.
Lemma still_reinstall l : preserves still (reinstall_mouse_grabs_for_all_windows l).
Proof using All. pose proof still_install. unfold reinstall_mouse_grabs_for_all_windows. still_auto. Qed.
Lemma leads_reload : leads asked_in_drag kb_on_reload asked_in_drag.
Proof using All.
  pose proof stable_asked. pose proof still_start. pose proof still_reinstall.
  apply (leads_try _ asked_in_drag); [by apply leads_stopped, leads_stop|intros _].
  apply leads_still; [done|]. still_auto.
Qed.

(** ** A press *)

(** Coarser: the same answer to whether a drag is on. *)
Definition drags r r' : Prop := dragging r' = dragging r ∧ asked r' = asked r.
#[export] Instance drags_preorder : PreOrder drags.
Proof. split; [done|]. intros r1 r2 r3 [H1 E1] [H2 E2]. split; congruence. Qed.
Lemma still_drags r r' : still r r' → drags r r'.
Proof using Type. intros [E1 E2]. split; [|done]. unfold dragging. by rewrite E1. Qed.
Lemma drags_still {A} (m : M R A) : preserves still m → preserves drags m.
Proof using Type. intros Hm r a r' E. by eapply still_drags, Hm. Qed.
Lemma drags_kset f : (∀ k, drag_active (drag (f k)) = drag_active (drag k)) → preserves drags (kset f).
Proof using Type. intros Hf. apply preserves_modify; [apply _|]. intros r. split; [apply Hf|done]. Qed.
Lemma drags_resize win : preserves drags (start_resize win).
Proof using All.
  unfold start_resize. apply preserves_bind; [apply _|by apply drags_still; still_auto|]. intros o.
  apply preserves_bind; [apply _| |intros _].
  - destruct o; [|by apply preserves_ret; apply _]. apply preserves_bind; [apply _|by apply drags_still; still_auto|].
    intros g. by apply drags_kset.
  - apply preserves_bind; [apply _|by apply drags_still; still_auto|]. intros d.
    apply preserves_try_bind; [apply _|by apply drags_still; still_auto|]. intros _.
    apply preserves_bind; [apply _|by apply drags_kset|]. intros ?. by apply drags_still; still_auto.
Qed.

Lemma leads_start_drag op win root_pos p : op ≠ DragNone → win ≠ NO_WINDOW →
  leads asked_in_drag (start_drag op win root_pos p) asked_in_drag.
Proof using All.
  intros Hop Hwin. set (on := λ r, dragging r = true). set (both := λ r, dragging r = true ∧ asked r = true).
  assert (Hon : stable on) by (intros r r' [E1 E2]; unfold on, dragging; by rewrite E1).
  assert (Hboth : stable both) by (intros r r' [E1 E2]; unfold both, dragging; by rewrite E1, E2).
  pose proof stable_asked. unfold start_drag. apply leads_bind; [done|still_auto|intros w].
  intros r a r' Hr. unfold bind at 1, kset at 1, modify.
  assert (Hrest : leads on
    ((if floating w then ret tt else dispatch_ (SetWindowFloating win true) ;; dispatch_ ReconcileNow) ;;
     in_grab_pointer ;;! (match op with DragResize => start_resize win | _ => ok tt end) ;;!
     lift (dispatch_ (FocusWindow win) ;; post_event (FocusChanged win))) both).
  { apply leads_bind; [done|unfold dispatch_; still_auto|intros _].
    apply (leads_try _ both).
    - intros s x s' Hs E. apply (rp_grab wanted) in E as [E1 E2]. split; [|done]. unfold dragging. by rewrite E1.
    - intros _. apply (leads_try _ both); [|intros _; apply leads_still; [done|unfold dispatch_; still_auto]].
      intros s x s' [Hs1 Hs2] E. assert (Hd : drags s s') by (destruct op; [by injection E as <- <-..|by eapply drags_resize]).
      destruct Hd as [E1 E2]. split; congruence. }
  intros E. eapply Hrest in E as [E1 E2]; [unfold asked_in_drag; congruence|].
  unfold on, dragging, drag_active. cbn. rewrite (proj2 (Z.eqb_neq _ _) Hwin). by destruct op.
Qed.
Lemma window_state_known win r p r' : window_state win r = Some (Some p, r') → win ≠ NO_WINDOW.
Proof using Type.
  intros E ->. unfold window_state, cget, gets, find_window in E. by rewrite Z.eqb_refl in E.
Qed.
Lemma leads_press win root_pos button mods : leads asked_in_drag (on_button_press win root_pos button mods) asked_in_drag.
Proof using All.
  pose proof stable_asked. unfold on_button_press. apply leads_bind; [done|still_auto|intros l]. cbv zeta.
  assert (Hok : leads asked_in_drag (ok tt) asked_in_drag) by (by apply leads_still; [|still_auto]).
  assert (Hpress : ∀ k : addr → M R (string + unit), (∀ p, win ≠ NO_WINDOW → leads asked_in_drag (k p) asked_in_drag) →
    leads asked_in_drag (o <- window_state win ;; match o with None => ok tt | Some p => k p end) asked_in_drag).
  { intros k Hk r a r' Hr. unfold bind at 1. destruct (window_state win r) as [[[p|] r1]|] eqn:E; [..|done].
    - pose proof (window_state_known _ _ _ _ E). unfold window_state, cget, gets in E. injection E as _ <-. by apply Hk.
    - unfold window_state, cget, gets in E. injection E as _ <-. by apply Hok. }
  destruct (builtin_action button mods l); [done|..]; apply Hpress; intros p Hwin;
    (apply leads_bind; [done|still_auto|intros []]; [done|]); try (by apply leads_start_drag).
  apply leads_still; [done|]. unfold dispatch_. still_auto.
Qed.

(** ** Runs *)

Lemma leads_on ev : leads asked_in_drag (kb_on ev) asked_in_drag.
Proof using All.
  pose proof stable_asked as Hst. pose proof (leads_stopped _ leads_stop) as Hstop.
  pose proof still_install. pose proof leads_press.
  assert (Hcancel : ∀ win, leads asked_in_drag (maybe_cancel_drag_for_window win) asked_in_drag).
  { intros win. unfold maybe_cancel_drag_for_window. apply leads_bind; [done|still_auto|intros d].
    destruct (negb _); [by apply leads_still; [|still_auto]|]. destruct (negb _); [by apply leads_still; [|still_auto]|done]. }
  destruct ev; cbn [kb_on]; try (by apply leads_still; [|still_auto]); try apply Hcancel.
  - apply leads_still; [done|]. unfold on_window_mapped. still_auto.
  - apply leads_still; [done|]. unfold on_key_press. still_auto.
  - unfold on_button. cbv zeta. apply leads_bind; [done|still_auto|intros l].
    apply leads_bind; [done|unfold call_mouse_ref; still_auto|intros _]. destruct release; [|done].
    apply leads_bind; [done|still_auto|intros d]. apply leads_bind; [done| |intros _; done].
    unfold drop_window, dispatch_. still_auto.
  - apply leads_still; [done|]. unfold on_motion, dispatch_. apply preserves_bind; [apply _|still_auto|intros d].
    destruct (negb _); [still_auto|]. destruct (dr_op d); still_auto.
Qed.

(** The module's life, and what the rest of the program does meanwhile, which is
    neither to change the module's drag nor to make its requests. *)
Inductive kb_run : R → R → Prop :=
| kb_done r : kb_run r r
| kb_event r ev r1 r2 : kb_on ev r = Some (inr tt, r1) → kb_run r1 r2 → kb_run r r2
| kb_start r r1 r2 : kb_on_start r = Some (inr tt, r1) → kb_run r1 r2 → kb_run r r2
| kb_reload r r1 r2 : kb_on_reload r = Some (inr tt, r1) → kb_run r1 r2 → kb_run r r2
| kb_stop r r1 r2 : kb_on_stop r = Some (inr tt, r1) → kb_run r1 r2 → kb_run r r2
| kb_other r r1 r2 : still r r1 → kb_run r1 r2 → kb_run r r2.

(** C18: the module asks for the pointer exactly while a window is dragged.  From a
    state in which neither is the case, after any run of the module's calls that do
    not throw, presses, motions, releases, windows that go away in the middle of a
    drag, reloads, its last request about the pointer was to grab it if and only if
    a drag is on; and after a stop it was to let go, or there was none.  Whether the
    pointer is really held also depends on the server, which may refuse the grab
    unnoticed, and on the ungrabs of the backend, which do not end the drag. *)
Theorem pointer_asked_while_dragging r r' : asked r = false → dragging r = false → kb_run r r' →
  asked r' = dragging r' ∧
  ∀ r'', kb_on_stop r' = Some (inr tt, r'') → asked r'' = false ∧ dragging r'' = false.
Proof using All.
  intros Hh Hd Hrun. assert (H0 : asked_in_drag r) by (unfold asked_in_drag; congruence). clear Hh Hd.
  assert (H : asked_in_drag r').
  { induction Hrun as [r|r ev r1 r2 E _ IH|r r1 r2 E _ IH|r r1 r2 E _ IH|r r1 r2 E _ IH|r r1 r2 E _ IH]; [done|..]; apply IH.
    - by eapply leads_on.
    - eapply (leads_still asked_in_drag); [apply stable_asked|apply still_start|done|done].
    - by eapply leads_reload.
    - by eapply (leads_stopped _ leads_stop).
    - by eapply stable_asked. }
  split; [done|]. intros r'' E. by eapply leads_stop.
Qed.
End Runs.

(** ** Where a dragged window goes *)

Section Drag.
Context {V : Type} `{!Env (KbWorld V)} `{!KbEnv V}.
Local Abbreviation R := (Runtime (KbWorld V)).
Implicit Types r : R.

(** The window [win] is the object [w] at [p]. *)
Definition window_at (win : Z) (p : addr) (w : Window) r : Prop :=
  find_window_in_all (wsman (core_ r)) win = Some p ∧ wins (wsman (core_ r)) !! p = Some w.

Lemma wp_dispatch_atom cmd (Q : unit → R → Prop) r :
  wp (dispatch_atom cmd) (λ _ c, ∀ r', wsman (core_ r') = wsman c → world r' = world r → Q tt r') (core_ r) →
  wp (dispatch_ cmd) Q r.
Proof using Type.
  intros H. unfold dispatch_, on_core. do 3 wp_step. eapply wp_mono; [exact H|]. cbv beta. intros b c HQ.
  do 4 wp_step. apply HQ; unfold flush_sink; cbn; by destruct (event_sink c).
Qed.
(** The object of [win] becomes [f w]. *)
Definition changes (win : Z) (p : addr) (w' : Window) (c c' : core) : Prop :=
  wsman c' = (wsman c) <| wins := <[p := w']> (wins (wsman c)) |>.
Lemma position_spec win np p w c :
  find_window_in_all (wsman c) win = Some p → wins (wsman c) !! p = Some w →
  wp (dispatch_SetWindowPosition win np) (λ _ c', changes win p (w <| pos := np |>) c c') c.
Proof using Type.
  intros Hp Hw. unfold dispatch_SetWindowPosition, find_win. do 2 wp_step. rewrite Hp. wp_step.
  unfold set_window, on_wsman. wp_step. eapply wp_modify_window; [done|]. wp_step.
  eapply wp_mono; [apply mark_flushed|]. cbv beta. intros [] c1 [_ E]. wp_step. unfold changes. by rewrite E.
Qed.
Lemma size_spec win ns p w c :
  find_window_in_all (wsman c) win = Some p → wins (wsman c) !! p = Some w →
  wp (dispatch_SetWindowSize win ns) (λ _ c', changes win p
    (w <| size := (if floating w || borderless w then apply_size_hints w ns else ns) |>) c c') c.
Proof using Type.
  intros Hp Hw. unfold dispatch_SetWindowSize, find_win. do 2 wp_step. rewrite Hp. wp_step.
  unfold set_window, on_wsman. wp_step. eapply wp_modify_window; [done|]. wp_step.
  eapply wp_mono; [apply mark_flushed|]. cbv beta. intros [] c1 [_ E]. wp_step. unfold changes. by rewrite E.
Qed.
Lemma changes_window win p w w' r r' : window_at win p w r → changes win p w' (core_ r) (core_ r') → window_at win p w' r'.
Proof using Type. intros [H1 H2] E. unfold window_at. rewrite E. split; [done|]. cbn. by rewrite lookup_insert_eq. Qed.

(** The position the pointer asks for. *)
Definition target (d : DragState) (root_pos : Vec2) : Vec2 :=
  mkVec2 (x (start_win_pos d) + (x root_pos - x (start_root d)))
         (y (start_win_pos d) + (y root_pos - y (start_root d))).
Lemma motion_moves r p w root_pos : let d := drag (kb (world r)) in
  dr_op d = DragMove → window_at (dr_window d) p w r → dr_window d ≠ NO_WINDOW →
  wp (on_motion root_pos) (λ x r', x = inr tt ∧ world r' = world r ∧
    window_at (dr_window d) p (w <| pos := target d root_pos |>) r') r.
Proof using Type.
  cbv zeta. set (d := drag (kb (world r))). intros Hop Hw Hwin. unfold on_motion, kget. do 2 wp_step. fold d.
  unfold drag_active. rewrite Hop, (proj2 (Z.eqb_neq _ _) Hwin). cbn [negb]. unfold lift. wp_step.
  apply wp_dispatch_atom. destruct Hw as [H1 H2]. cbn [dispatch_atom].
  eapply wp_mono; [by apply (position_spec _ _ p w)|]. cbv beta. intros b c E r' Ec Ew. unfold ok. wp_step.
  split_and!; [done|done|]. eapply changes_window; [by split|]. unfold changes in *. by rewrite Ec, E.
Qed.

(** C21: a window that is moved follows the pointer.  While a move is on, any
    sequence of pointer motions leaves the window at its position when the button
    was pressed plus the way the pointer has gone since, whatever lies in between;
    nothing else of the window changes, nor does the drag. *)
Theorem move_follows_pointer r p w (motions : list Vec2) last : let d := drag (kb (world r)) in
  dr_op d = DragMove → dr_window d ≠ NO_WINDOW → window_at (dr_window d) p w r →
  wp (try_for_each (motions ++ [last]) on_motion) (λ x r', x = inr tt ∧ world r' = world r ∧
    window_at (dr_window d) p (w <| pos := target d last |>) r') r.
Proof using Type.
  cbv zeta. intros Hop Hwin. revert r w Hop Hwin. induction motions as [|m l IH]; intros r w Hop Hwin Hw.
  - cbn [app try_for_each]. unfold try_bind. wp_step. eapply wp_mono; [by apply motion_moves|]. cbv beta.
    intros x r1 (-> & E & H1). unfold ok. by wp_step.
  - cbn [app try_for_each]. unfold try_bind at 1. wp_step. eapply wp_mono; [by apply motion_moves|]. cbv beta.
    intros x r1 (-> & E & H1). eapply wp_mono; [apply (IH r1); by rewrite E|]. cbv beta.
    rewrite E. intros x r2 (-> & E2 & H2). by split_and!.
Qed.

(** A resize begins by shrinking the window.  The pointer is warped to the last
    pixel of the window, so that, as the code says, the first motion has no effect;
    but the size is computed as the distance from the corner of the window to the
    pointer, which is one less than the size: without any movement of the pointer
    the window loses a pixel in each direction, and with resize increments a cell. *)
Theorem resize_starts_smaller r p w : let d := drag (kb (world r)) in
  dr_op d = DragResize → dr_window d ≠ NO_WINDOW → window_at (dr_window d) p w r →
  floating w = true → start_win_pos d = pos w → start_win_size d = size w →
  -32768 ≤ x (pos w) + x (size w) - 1 < 32768 → -32768 ≤ y (pos w) + y (size w) - 1 < 32768 →
  33 ≤ x (size w) → 33 ≤ y (size w) →
  wp (on_motion (corner d)) (λ x r', x = inr tt ∧ world r' = world r ∧ window_at (dr_window d) p
    (w <| size := apply_size_hints w (mkVec2 (Geometry.x (size w) - 1) (Geometry.y (size w) - 1)) |>) r') r.
Proof using Type.
  cbv zeta. set (d := drag (kb (world r))). intros Hop Hwin Hw Hf Hpos Hsize Hx Hy Hsx Hsy.
  unfold on_motion, kget. do 2 wp_step. fold d. unfold drag_active. rewrite Hop, (proj2 (Z.eqb_neq _ _) Hwin).
  cbn [negb]. destruct Hw as [H1 H2]. unfold window_state, cget. do 2 wp_step. unfold find_window.
  rewrite (proj2 (Z.eqb_neq _ _) Hwin). unfold is_ws_valid, NO_WORKSPACE. cbn [Z.leb Z.compare andb]. rewrite H1.
  unfold fld. wp_step. eapply wp_checked; [by rewrite H2|]. unfold lift. wp_step. apply wp_dispatch_atom.
  cbn [dispatch_atom]. eapply wp_mono; [by apply (size_spec _ _ p w)|]. cbv beta. intros b c E r' Ec Ew.
  unfold ok. wp_step. split_and!; [done|done|]. eapply changes_window; [by split|]. unfold changes in *.
  rewrite Ec, E, Hf. cbn [orb]. unfold corner. rewrite Hpos, Hsize. cbn [x y].
  rewrite !to_i16_small by lia. unfold MIN_WIN_SIZE. rewrite !Z.max_r by lia.
  replace (x (pos w) + x (size w) - 1 - x (pos w)) with (x (size w) - 1) by lia.
  by replace (y (pos w) + y (size w) - 1 - y (pos w)) with (y (size w) - 1) by lia.
Qed.
End Drag.
