(* ===== verification/KeybindingsExamples.v ===== *)
(** * Witnesses of the claims about key bindings

    A port that records what it is asked, a configuration, and a window. *)

From S2P Require Import Prelude Exceptions TextStream Geometry Workspace WorkspaceManager WindowIndex ManagerInv.
From S2P Require Import Events Commands Core Dispatch CoreSafe CoreRun CoreSpecs CoreProps.
From S2P Require Import EventQueue.
From S2P Require Import ConfigValue ConfigRuntime RuntimeStore Runtime LifecycleSafe BackendSafe.
From S2P Require Import Keybindings KeybindingsLists KeybindingsProps DragProps.
Local Open Scope Z_scope.

(** ** A port *)

(** Whether the last request was for the pointer, and what was grabbed. *)
Record ExPort := mkExPort { ep_wants : bool; ep_grabs : list (Z * Z); ep_calls : list Z }.
#[export] Instance eta_ExPort : Eta ExPort := λ p, mkExPort (ep_wants p) (ep_grabs p) (ep_calls p).
#[export] Instance ex_kb_world : Env (KbWorld ExPort) := idle_env.
Definition on_port (f : ExPort → ExPort) : M (Runtime (KbWorld ExPort)) unit :=
  modify (λ r : Runtime (KbWorld ExPort), r <| world ::= λ w, w <| outer ::= f |> |>).
#[export] Instance ex_kb_env : KbEnv ExPort := {
  in_grab_key k m := lift (on_port (λ p, p <| ep_grabs ::= λ l, l ++ [(k, m)] |>));
  in_ungrab_all_keys := lift (on_port (λ p, p <| ep_grabs := [] |>));
  in_grab_button _ _ _ := ok tt;
  in_ungrab_all_buttons _ := ok tt;
  in_grab_pointer := lift (on_port (λ p, p <| ep_wants := true |>));
  in_ungrab_pointer := lift (on_port (λ p, p <| ep_wants := false |>));
  in_warp_pointer_abs _ := ok tt;
  in_flush := ok tt;
  lua_call f := on_port (λ p, p <| ep_calls ::= λ l, l ++ [f] |>);
  lua_call_fields f _ := on_port (λ p, p <| ep_calls ::= λ l, l ++ [f] |>);
  lua_epoch _ := 1;
  keysym_from_name s := if String.eqb s "a" then 97 else if String.eqb s "Return" then 65293 else 0 }.

(** The invariant of the module's claims, for this port. *)
Local Abbreviation Jx := (λ w : KbWorld ExPort, True ∧ roomy w).
Lemma xt_on_port f : xt Jx (λ _, 0%nat) (λ _, "eDP-1"%string) [] (lift (on_port f)).
Proof. apply xt_lift, xt_modify. intros r [Hc Hw Hm]. split_and!; [by split|by split|done]. Qed.
Lemma ex_kb_ok : KbOk (λ _ : ExPort, True) (λ _, 0%nat) (λ _, "eDP-1"%string).
Proof.
  split; intros; try apply xt_on_port; try apply xt_ok; apply xt_modify;
    (intros r [Hc Hw Hm]; split_and!; [by split|by split|done]).
Qed.
Lemma ex_records : RecordsPointer ep_wants.
Proof.
  assert (Hport : ∀ f, (∀ p, ep_wants (f p) = ep_wants p) → preserves (still ep_wants) (on_port f)).
  { intros f Hf. apply preserves_modify; [apply _|]. intros r. split; [done|apply Hf]. }
  assert (Hok : preserves (still ep_wants) (ok tt : M (Runtime (KbWorld ExPort)) (string + unit)))
    by (apply preserves_ret; apply _).
  split; intros; try (by apply Hok); try (by apply Hport).
  - by injection H as <- <-.
  - by injection H as <- <-.
  - apply preserves_bind; [apply _|by apply Hport|intros ?; apply preserves_ret; apply _].
  - apply preserves_bind; [apply _|by apply Hport|intros ?; apply preserves_ret; apply _].
Qed.

(** ** A configuration *)

(** An entry that binds a key, one with a function and no key, one that is no
    table; and a button that moves windows, one that resizes, one without action. *)
Definition entry (l : list (string * LuaValue)) : LuaValue := LTable 0 ((λ e, (LStr e.1, e.2)) <$> l).
Definition listed (l : list LuaValue) : LuaValue :=
  LTable (Z.of_nat (length l)) (imap (λ i v, (LInt (Z.of_nat i + 1), v)) l).
Definition ex_binds : LuaValue := listed
  [listed [LStr "Mod+a"; LFunction 7]; entry [("fn", LFunction 8)]; LBool true;
   entry [("key", LStr "mod4+shift+Return"); ("action", LFunction 9)]]%string.
Definition ex_mice : LuaValue := listed
  [listed [LStr "Mod+Button1"; LStr "move"]; listed [LStr "Mod+Button3"; LStr "resize"]; listed [LStr "Button2"]]%string.
Definition ex_kb_store : store :=
  set_key "modifier" (SvModifier MOD_4) (register_settings (register_core_config [])).
Definition ex_kb (k : KeybindingsModule) : Runtime (KbWorld ExPort) :=
  mkRuntime ∅ ex_core ex_kb_store [] true Running false false false false [] ∅ empty_queue [] [backend_ptr] None
    (mkKbWorld k [] (mkExPort false [] [])).
Definition ex_kb_start := ex_kb (mkKb (Some (1, ex_binds)) (Some (1, ex_mice)) no_drag).
Lemma ex_kb_inv k : (backlog (world (ex_kb k)) ≤ 11)%nat → inv Jx (λ _, "eDP-1"%string) (ex_kb k).
Proof. intros Hk. split; [exact ex_core_ok|split; [done|]; unfold roomy, LUA_MINSTACK; cbn in *; lia|by intros win p; cbn; rewrite lookup_empty]. Qed.

Local Abbreviation call := (M (Runtime (KbWorld ExPort)) (string + unit)).
(** The state a call leaves, and whether it returns. *)
Definition after (m : call) (r : Runtime (KbWorld ExPort)) : Runtime (KbWorld ExPort) :=
  match m r with Some (inr _, r') => r' | _ => r end.
Definition returns (m : call) (r : Runtime (KbWorld ExPort)) : bool :=
  match m r with Some (inr _, _) => true | _ => false end.
Lemma ran m r : returns m r = true → m r = Some (inr tt, after m r).
Proof. unfold returns, after. by destruct (m r) as [[[e|[]] r']|]. Qed.

(** Button 1 or 3 with the primary modifier and Num Lock, over window 11, the
    pointer moved, and the button released. *)
Definition press (button : Z) : Event :=
  ButtonEv 11 0 (mkVec2 100 100) (mkVec2 0 0) 0 button (Z.lor MOD_4 MOD_2) false.
Definition release : Event := ButtonEv 11 0 (mkVec2 150 90) (mkVec2 0 0) 0 1 MOD_4 true.
Definition ex_started := after kb_on_start ex_kb_start.
Definition ex_moving := after (kb_on (press 1)) ex_started.
Definition ex_resizing := after (kb_on (press 3)) ex_started.
(** The object of window 11, and where the model keeps it. *)
Definition the_window (r : Runtime (KbWorld ExPort)) : addr * Window :=
  match find_window_in_all (wsman (core_ r)) 11 with
  | Some p => (p, default (new_window 0) (wins (wsman (core_ r)) !! p))
  | None => (1%positive, new_window 0)
  end.
Definition is_at (p : addr) (w : Window) (r : Runtime (KbWorld ExPort)) : bool :=
  bool_decide (find_window_in_all (wsman (core_ r)) 11 = Some p) && bool_decide (wins (wsman (core_ r)) !! p = Some w).
Lemma is_at_window p w r : is_at p w r = true → window_at 11 p w r.
Proof. unfold is_at. rewrite andb_true_iff, !bool_decide_eq_true. done. Qed.

(** ** The claims *)

Lemma ex_kb_roomy : (backlog (world ex_kb_start) ≤ 11)%nat.
Proof. by apply (bool_decide_unpack _); vm_compute. Qed.

(** A list for which there is no room: twenty functions without a key.  Loading it,
    the module leaves each on the Lua stack until a push overflows it. *)
Definition leaky : LuaValue := listed (replicate 20 (entry [("fn", LFunction 8)]%string)).
Lemma leaks_overflow : length (leaks_of 20 (table_entries leaky)) = 20%nat ∧
  apply_pending (ex_kb (mkKb (Some (1, leaky)) None no_drag)) = None.
Proof. by vm_compute. Qed.

Lemma keybindings_safe_witness :
  wp kb_on_start (λ _ r', inv Jx (λ _, "eDP-1"%string) r' ∧
    keeps (λ _ : KbWorld ExPort, 0%nat) ex_kb_start r') ex_kb_start.
Proof.
  pose proof ex_kb_ok.
  destruct (keybindings_safe (λ _ : ExPort, True) (λ _, 0%nat) (λ _, "eDP-1"%string) ex_kb_start) as [H0 _];
    [apply ex_kb_inv, ex_kb_roomy|exact H0].
Defined.

Lemma pending_lists_loaded_witness :
  good_of (binds_of MOD_4 "kb.binds" 4 (table_entries ex_binds)) = [mkKeybinding 64 97 7; mkKeybinding 65 65293 9] ∧
  length (leaks_of 4 (table_entries ex_binds)) = 1%nat ∧
  wp apply_pending (λ _ r',
    keybindings (core_ r') = keybindings (core_ ex_kb_start) ++
      good_of (binds_of MOD_4 "kb.binds" 4 (table_entries ex_binds)) ∧
    get_mouse (store_ r') = [] ++ good_of (mice_of MOD_4 "kb.mouse" 3 (table_entries ex_mice)) ∧
    (∃ rest, lua_stack (world r') = rest ++ [] ∧ length rest = length (leaks_of 4 (table_entries ex_binds))) ∧
    kb (world r') = mkKb None None no_drag) ex_kb_start.
Proof.
  split_and!; [by vm_compute..|]. apply (pending_lists_loaded ex_kb_start 1 ex_binds ex_mice); try done.
  apply ex_kb_inv, ex_kb_roomy.
Defined.

Lemma key_spec_roundtrip_witness :
  show_key 69 "Return" = "shift+ctrl+mod4+Return"%string ∧
  parse_key keysym_from_name 8 (show_key 69 "Return") = Ok (69, 65293).
Proof.
  split; [done|]. change 65293 with (keysym_from_name "Return").
  apply (key_spec_roundtrip keysym_from_name 8 69 "Return"); [lia|done| |done].
  split_and!; [done|by apply (bool_decide_unpack _); vm_compute|done|done].
Defined.

Lemma pointer_asked_while_dragging_witness :
  asked ep_wants ex_moving = true ∧ asked ep_wants (after (kb_on release) ex_moving) = false ∧
  asked ep_wants ex_moving = dragging ex_moving.
Proof.
  split_and!; [by vm_compute..|]. pose proof ex_records.
  assert (Hrun : kb_run ep_wants ex_kb_start ex_moving).
  { apply (kb_start _ _ ex_started); [apply ran; by vm_compute|].
    apply (kb_event _ _ (press 1) ex_moving); [apply ran; by vm_compute|]. apply kb_done. }
  by destruct (pointer_asked_while_dragging ep_wants ex_kb_start ex_moving eq_refl eq_refl Hrun) as [H0 _].
Defined.

Lemma move_follows_pointer_witness :
  wp (try_for_each ([mkVec2 300 0] ++ [mkVec2 150 90]) on_motion) (λ x r', x = inr tt ∧ world r' = world ex_moving ∧
    window_at 11 (the_window ex_moving).1
      ((the_window ex_moving).2 <| pos := target (drag (kb (world ex_moving))) (mkVec2 150 90) |>) r') ex_moving.
Proof.
  apply (move_follows_pointer ex_moving (the_window ex_moving).1 (the_window ex_moving).2 [mkVec2 300 0]);
    [by vm_compute..|]. apply is_at_window. by vm_compute.
Defined.

Lemma resize_starts_smaller_witness : let w := (the_window ex_resizing).2 in
  corner (drag (kb (world ex_resizing))) =
    mkVec2 (x (pos w) + x (size w) - 1) (y (pos w) + y (size w) - 1) ∧
  wp (on_motion (corner (drag (kb (world ex_resizing))))) (λ x r', x = inr tt ∧ world r' = world ex_resizing ∧
    window_at 11 (the_window ex_resizing).1
      (w <| size := apply_size_hints w (mkVec2 (Geometry.x (size w) - 1) (Geometry.y (size w) - 1)) |>) r') ex_resizing.
Proof.
  cbv zeta. split; [by vm_compute|].
  apply (resize_starts_smaller ex_resizing (the_window ex_resizing).1 (the_window ex_resizing).2);
    by vm_compute.
Defined.
