(* ===== verification/X11Safe.v ===== *)
(** * Safety of the X11 backend

    What the backend relies on of the server, as the class [ServerOk], and what
    it keeps in return, by the judgement [xt] of [BackendSafe]; pumping and frames at the end. *)

From S2P Require Import Prelude Fuel Geometry Workspace WorkspaceManager WindowIndex ManagerInv ManagerOps.
From S2P Require Import Events Protocol Commands Core Dispatch Runtime X11Server X11Backend.
From S2P Require Import X11Events X11Loop.
From S2P Require Import CoreSafe CoreRun LifecycleSafe BackendSafe.
Local Open Scope Z_scope.

(** ** Requests the library can encode *)

(** The number of values xcb reads for a mask. *)
Fixpoint popcount_pos (p : positive) : nat :=
  match p with
  | xH => 1
  | xO q => popcount_pos q
  | xI q => S (popcount_pos q)
  end.
Definition popcount (z : Z) : nat := match z with Zpos p => popcount_pos p | _ => 0%nat end.

(** [xcb_configure_window] and [xcb_change_window_attributes] read as many
    values from the pointer as the mask has bits; formats are 8, 16 or 32. *)
Definition wf_request (q : XRequest) : Prop :=
  match q with
  | XConfigureWindow _ mask values => 0 ≤ mask < 128 ∧ length values = popcount mask
  | XChangeAttributes _ mask values => length values = popcount mask
  | XChangeProperty _ _ _ format _ => format = 8 ∨ format = 16 ∨ format = 32
  | _ => True
  end.

(** WM_CLASS as [get_wm_class] can read it: two terminated strings. *)
Definition terminated (b : list Z) : Prop :=
  b = [] ∨ ∃ s rest, read_c_string b = Some (s, rest) ∧
    (rest = [] ∨ is_Some (read_c_string rest)).

Section Server.
Context {Srv : Type} `{!XServer Srv}.
(** An invariant of the server, and the patience of the environment. *)
Context (J : Srv → Prop) (pat backlog : Srv → nat).

Local Abbreviation srv_step := (srv_step J pat).

Class ServerOk : Prop := {
  ok_request q s : wf_request q → J s → srv_step s (x_request q s);
  ok_poll s : J s → srv_step s (x_poll s).2;
  ok_poll_backlog s e : (x_poll s).1 = Some e → (backlog (x_poll s).2 < backlog s)%nat;
  ok_property win prop type len s : J s → srv_step s (x_get_property win prop type len s).2;
  ok_wm_class win len p s : J s → (x_get_property win XCB_ATOM_WM_CLASS XCB_ATOM_STRING len s).1 = Some p →
    terminated (prop_bytes p);
  ok_geometry win s : J s → srv_step s (x_get_geometry win s).2;
  ok_attributes win s : J s → srv_step s (x_get_attributes win s).2;
  ok_children win s : J s → srv_step s (x_query_children win s).2;
  ok_parent win s : J s → srv_step s (x_query_tree win s).2;
  ok_focus s : J s → srv_step s (x_get_input_focus s).2;
  ok_pointer s : J s → srv_step s (x_query_pointer s).2;
  ok_generate s : J s → srv_step s (x_generate_id s).2 }.
End Server.

#[export] Hint Resolve ok_poll ok_property ok_geometry ok_attributes ok_children ok_parent : srv.
#[export] Hint Resolve ok_focus ok_pointer ok_generate : srv.

Section Queries.
Context {Srv : Type} `{!XServer Srv} (J : Srv → Prop) (pat backlog : Srv → nat).
Context `{!ServerOk J pat backlog}.
Local Abbreviation srv_safe := (srv_safe J pat).

Lemma srv_atom_list win prop : srv_safe (get_atom_list_property win prop).
Proof using All. unfold get_atom_list_property. srv_auto. Qed.
Lemma srv_text win prop type : srv_safe (get_text_property win prop type).
Proof using All. unfold get_text_property. srv_auto. Qed.
Lemma srv_transient win : srv_safe (get_transient_for win).
Proof using All. unfold get_transient_for. srv_auto. Qed.
Lemma srv_wm_state win a : srv_safe (get_wm_state_value win a).
Proof using All. unfold get_wm_state_value. srv_auto. Qed.
Lemma srv_size_hints win : srv_safe (get_size_hints win).
Proof using All. unfold get_size_hints. srv_auto. Qed.
Lemma srv_wm_hints win : srv_safe (get_wm_hints win).
Proof using All. unfold get_wm_hints. srv_auto. Qed.
Lemma srv_property_32 win prop n : srv_safe (has_property_32 win prop n).
Proof using All. unfold has_property_32. srv_auto. Qed.
Lemma srv_motif win : srv_safe (motif_no_decorations win).
Proof using All. unfold motif_no_decorations. srv_auto. Qed.
Lemma srv_gravity win : srv_safe (has_static_gravity win).
Proof using All. unfold has_static_gravity. srv_auto. Qed.
Lemma srv_u32 win prop n : srv_safe (get_property_u32 win prop n).
Proof using All. unfold get_property_u32. srv_auto. Qed.

Lemma srv_query_parent win : srv_safe (query_parent win).
Proof using All. unfold query_parent. srv_auto. Qed.

Lemma srv_wm_class win : srv_safe (get_wm_class win).
Proof using All.
  intros s Hs. unfold get_wm_class. wp_step. unfold ask at 1. unfold wp at 1.
  pose proof (ok_property J pat backlog win XCB_ATOM_WM_CLASS XCB_ATOM_STRING 256 s Hs) as Hstep.
  pose proof (ok_wm_class J pat backlog win 256) as Hterm. specialize (Hterm).
  destruct (x_get_property win XCB_ATOM_WM_CLASS XCB_ATOM_STRING 256 s) as [[p|] s'] eqn:E; cbn in Hstep;
    [|by wp_step].
  specialize (Hterm p s Hs). rewrite E in Hterm. specialize (Hterm eq_refl).
  destruct (prop_bytes p) as [|b0 b] eqn:Hb; [by wp_step|].
  destruct Hterm as [?|(i & rest & E1 & Hrest)]; [done|].
  wp_step. eapply wp_checked; [exact E1|]. cbv beta iota.
  destruct rest as [|c rest]; [by wp_step|]. destruct Hrest as [?|[r2 E2]]; [done|].
  wp_step. eapply wp_checked; [exact E2|]. by wp_step.
Qed.
End Queries.

#[export] Hint Resolve srv_atom_list srv_text srv_transient srv_wm_state srv_size_hints srv_wm_hints : srv.
#[export] Hint Resolve srv_property_32 srv_motif srv_gravity srv_u32 srv_wm_class srv_query_parent : srv.

(** ** Operations of the backend *)

Section Backend.
Context {Srv : Type} `{!XServer Srv} `{!Env (XWorld Srv)} `{!XModules (XWorld Srv)}.
Context (J : Srv → Prop) (pat : Srv → nat) (owner : Z → string).
Local Abbreviation R := (Runtime (XWorld Srv)).
Local Abbreviation xt := (xt (λ w : XWorld Srv, J (srv w)) (λ w : XWorld Srv, pat (srv w)) owner).

Lemma xt_xset L f : xt L (xset f).
Proof. apply xt_modify. intros r [Hc Hw Hm]. split_and!; [by split|by split|done]. Qed.

Lemma xt_xget {A} L (f : XBackend → A) : xt L (xget f).
Proof. apply xt_gets. Qed.

Lemma xt_on_srv {A} L (m : M Srv A) : srv_safe J pat m → xt L (on_srv m).
Proof.
  intros Hm r Hr _. unfold on_srv. wp_step. eapply wp_mono; [by apply Hm; destruct Hr|]. cbv beta.
  intros a s [Hs Hp]. destruct Hr as [Hc Hw Hwin]. split_and!; [by split|by split|by intros p].
Qed.

Lemma xt_x11_window {A} L win (k : option addr → M R A) :
  xt L (k None) → (∀ p, xt (p :: L) (k (Some p))) → xt L (bind (x11_window win) k).
Proof.
  intros Hn Hs. unfold x11_window. destruct (win =? NO_WINDOW); [exact Hn|by apply xt_window].
Qed.

Lemma xt_with_x11_window L win (body : addr → M R unit) :
  (∀ p, xt (p :: L) (body p)) → xt L (with_x11_window win body).
Proof. intros Hb. apply xt_x11_window; [apply xt_ret|done]. Qed.
Lemma xt_on_window L o (body : addr → M R unit) :
  (∀ p, o = Some p → p ∈ L) → (∀ p, p ∈ L → xt L (body p)) → xt L (on_window o body).
Proof. destruct o; intros Ho Hb; [by apply Hb, Ho|apply xt_ret]. Qed.
End Backend.

#[export] Hint Resolve xt_xset xt_xget : xt.

Ltac xt_step :=
  match goal with
  | |- xt _ _ _ _ (bind (x11_window _) _) => apply xt_x11_window; [|intros ?]
  | |- xt _ _ _ _ (with_x11_window _ _) => apply xt_with_x11_window; intros ?
  | |- xt _ _ _ _ (on_srv _) => apply xt_on_srv; srv_auto
  | _ => xt_core_step
  end.
Ltac xt_auto := repeat (cbv zeta; xt_step).

Section Windows.
Context {Srv : Type} `{!XServer Srv} `{!Env (XWorld Srv)} `{!XModules (XWorld Srv)}.
Context (J : Srv → Prop) (pat backlog : Srv → nat) (owner : Z → string).
Context `{!ServerOk J pat backlog}.
Local Abbreviation R := (Runtime (XWorld Srv)).
Local Abbreviation xt := (xt (λ w : XWorld Srv, J (srv w)) (λ w : XWorld Srv, pat (srv w)) owner).

Lemma xt_request L q : wf_request q → xt L (request q).
Proof using All.
  intros Hq. apply xt_on_srv. intros s Hs. wp_step. by apply (ok_request J pat backlog).
Qed.
Lemma xt_query {A} L (q : Srv → A * Srv) : (∀ s, J s → srv_step J pat s (q s).2) → xt L (query q).
Proof using Type. intros Hq. by apply xt_on_srv, srv_safe_ask. Qed.
Lemma xt_set_property L win prop type items : xt L (set_property win prop type items).
Proof using All. apply xt_request. by right; right. Qed.
Lemma xt_set_property_text L win prop type b : xt L (set_property_text win prop type b).
Proof using All. apply xt_request. by left. Qed.
Lemma xt_configure L p mask values : p ∈ L → 0 ≤ mask < 128 → length values = popcount mask →
  xt L (xw_configure p mask values).
Proof using All. intros Hp Hm Hv. unfold xw_configure. xt_step; [xt_step|]. by apply xt_request. Qed.
End Windows.

#[export] Hint Resolve xt_request xt_set_property xt_set_property_text xt_configure : xt.
#[export] Hint Extern 2 (xt _ _ _ _ (query _)) => apply xt_query; intros; eauto with srv : xt.
#[export] Hint Extern 1 (wf_request _) => first [exact I | reflexivity] : xt.
#[export] Hint Extern 1 (_ ≤ _ < _) => done : xt.
#[export] Hint Extern 1 (length _ = popcount _) => reflexivity : xt.

Section Ewmh.
Context {Srv : Type} `{!XServer Srv} `{!Env (XWorld Srv)} `{!XModules (XWorld Srv)}.
Context (J : Srv → Prop) (pat backlog : Srv → nat) (owner : Z → string).
Context `{!ServerOk J pat backlog}.
Local Abbreviation R := (Runtime (XWorld Srv)).
Local Abbreviation xt := (xt (λ w : XWorld Srv, J (srv w)) (λ w : XWorld Srv, pat (srv w)) owner).

(** ** [X11Window] *)

Lemma xt_border_color L p pixel : p ∈ L → xt L (xw_set_border_color p pixel).
Proof using All. intros ?. unfold xw_set_border_color. xt_auto. Qed.
Lemma xt_wm_state L p state : p ∈ L → xt L (xw_set_wm_state p state).
Proof using All. intros ?. unfold xw_set_wm_state. xt_auto. Qed.
Lemma xt_states L p : p ∈ L → xt L (xw_states p).
Proof using All. intros ?. unfold xw_states. xt_auto. Qed.
Lemma xt_state_atom L p a b : p ∈ L → xt L (xw_set_wm_state_atom p a b).
Proof using All. intros ?. unfold xw_set_wm_state_atom, xw_states. xt_auto. Qed.
Lemma xt_has_fullscreen L p : p ∈ L → xt L (xw_has_fullscreen_state p).
Proof using All. intros ?. unfold xw_has_fullscreen_state, xw_states. xt_auto. Qed.
Lemma xt_extents L p bw : p ∈ L → xt L (xw_set_frame_extents p bw).
Proof using All. intros ?. unfold xw_set_frame_extents. xt_auto. Qed.
Lemma xt_desktop L p ws : p ∈ L → xt L (xw_set_desktop p ws).
Proof using All. intros ?. unfold xw_set_desktop. xt_auto. Qed.
Lemma xt_supports_delete L p : p ∈ L → xt L (xw_supports_delete p).
Proof using All. intros ?. unfold xw_supports_delete, xw_protocols. xt_auto. Qed.
Lemma xt_message L p a b : p ∈ L → xt L (xw_send_message p a b).
Proof using All. intros ?. unfold xw_send_message. xt_auto. Qed.
Lemma xt_xw_focus L p t : p ∈ L → xt L (xw_focus p t).
Proof using All. intros ?. unfold xw_focus, xw_send_take_focus, xw_protocols, xw_send_message. xt_auto. Qed.
Lemma xt_note L p : xt L (xw_note_wm_unmap p).
Proof using Type. apply xt_xset. Qed.
Lemma xt_consume_unmap L p : xt L (xw_consume_wm_unmap p).
Proof using Type. unfold xw_consume_wm_unmap. xt_auto. Qed.
Lemma xt_map L p : p ∈ L → xt L (xw_map p).
Proof using All. intros ?. unfold xw_map. xt_auto. Qed.
Lemma xt_unmap L p : p ∈ L → xt L (xw_unmap p).
Proof using All. intros ?. unfold xw_unmap. xt_auto. Qed.
Lemma xt_kill L p : p ∈ L → xt L (xw_kill p).
Proof using All. intros ?. unfold xw_kill. xt_auto. Qed.
Lemma xt_send_expose L p : p ∈ L → xt L (xw_send_expose p).
Proof using All. intros ?. unfold xw_send_expose. xt_auto. Qed.
Lemma xt_notify L p a b c d e : p ∈ L → xt L (xw_send_configure_notify p a b c d e).
Proof using All. intros ?. unfold xw_send_configure_notify. xt_auto. Qed.
End Ewmh.

#[export] Hint Resolve xt_border_color xt_wm_state xt_states xt_state_atom xt_has_fullscreen : xt.
#[export] Hint Resolve xt_extents xt_desktop xt_supports_delete xt_message xt_xw_focus xt_note : xt.
#[export] Hint Resolve xt_consume_unmap xt_map xt_unmap xt_kill xt_send_expose xt_notify : xt.

Section Reactions.
Context {Srv : Type} `{!XServer Srv} `{!Env (XWorld Srv)} `{!XModules (XWorld Srv)}.
Context (J : Srv → Prop) (pat backlog : Srv → nat) (owner : Z → string).
Context `{!ServerOk J pat backlog}.
Local Abbreviation R := (Runtime (XWorld Srv)).
Local Abbreviation xt := (xt (λ w : XWorld Srv, J (srv w)) (λ w : XWorld Srv, pat (srv w)) owner).

(** ** EWMH *)

Lemma xt_reload_colors L : xt L reload_border_colors.
Proof using Type. unfold reload_border_colors. xt_auto. Qed.
Lemma xt_set_border L win pixel : xt L (set_border_color win pixel).
Proof using All. unfold set_border_color. xt_auto. Qed.
Lemma xt_focus_window L win : xt L (x_focus_window win).
Proof using All. unfold x_focus_window. xt_auto. Qed.
Lemma xt_client_list L : xt L ewmh_update_client_list.
Proof using All. unfold ewmh_update_client_list. xt_auto. Qed.
Lemma xt_has_fs L win : xt L (ewmh_has_fullscreen_state win).
Proof using All. unfold ewmh_has_fullscreen_state. xt_auto. Qed.
Lemma xt_ewmh_atom L win a b : xt L (ewmh_set_wm_state_atom win a b).
Proof using All. unfold ewmh_set_wm_state_atom. xt_auto. Qed.
Lemma xt_fs_property L win b : xt L (ewmh_set_fullscreen_state_property win b).
Proof using All. unfold ewmh_set_fullscreen_state_property, xw_set_fullscreen_state. xt_auto. Qed.
Lemma xt_frame_extents L win bw : xt L (ewmh_set_frame_extents win bw).
Proof using All. unfold ewmh_set_frame_extents. xt_auto. Qed.
Lemma xt_apply_fs L win b : xt L (ewmh_apply_fullscreen win b).
Proof using All. pose proof xt_fs_property. unfold ewmh_apply_fullscreen. xt_auto. Qed.
Lemma xt_desktop_props L : xt L ewmh_update_desktop_props.
Proof using All. unfold ewmh_update_desktop_props. xt_auto. Qed.
Lemma xt_ewmh_init L : xt L ewmh_init.
Proof using All. pose proof xt_desktop_props. pose proof xt_client_list. unfold ewmh_init. xt_auto. Qed.
Lemma xt_should_manage L win b : xt L (x_should_manage win b).
Proof using All. unfold x_should_manage. xt_auto. Qed.
Lemma xt_close L win : xt L (x_close_window win).
Proof using All. unfold x_close_window, xw_send_delete_message. xt_auto. Qed.

Lemma xt_mapped L win : xt L (ewmh_on_window_mapped win).
Proof using All.
  pose proof xt_client_list. pose proof xt_ewmh_atom. pose proof xt_has_fs. pose proof xt_apply_fs.
  pose proof xt_frame_extents. unfold ewmh_on_window_mapped, xw_set_wm_state_normal. xt_auto.
Qed.
Lemma xt_unmapped L win b : xt L (ewmh_on_window_unmapped win b).
Proof using All. pose proof xt_client_list. unfold ewmh_on_window_unmapped. xt_auto. Qed.

Lemma xt_clear_barriers L : xt L clear_pointer_barriers.
Proof using All. unfold clear_pointer_barriers. xt_auto. Qed.
Lemma xt_set_barriers L win m : xt L (set_pointer_barriers win m).
Proof using All. pose proof xt_clear_barriers. unfold set_pointer_barriers, create_barrier. xt_auto. Qed.
Lemma xt_update_focus L win : xt L (update_focus win).
Proof using All.
  pose proof xt_clear_barriers. pose proof xt_set_barriers. pose proof xt_ewmh_atom.
  pose proof xt_set_border. unfold update_focus. xt_auto.
Qed.

Lemma xt_on_assigned L win ws : xt L (on_window_assigned win ws).
Proof using All. unfold on_window_assigned. xt_auto. Qed.

(** The windows of a workspace live as long as the loop runs. *)
Lemma xt_workspace_windows L ws_id (body : addr → M R unit) :
  (∀ p, xt (p :: L) (body p)) →
  xt L (o <- cget (λ c, vget (workspaces (wsman c)) ws_id) ;;
        match o with None => ret tt | Some ws => for_each (windows ws) body end).
Proof using Type.
  intros Hb r Hr HL. unfold cget. do 2 wp_step.
  destruct (vget (workspaces (wsman (core_ r))) ws_id) as [ws|] eqn:E; [|by apply (xt_ret _ _ owner L)].
  assert (Hlive : Forall (λ p, live p r) (windows ws ++ L)).
  { apply Forall_app. split; [|done]. rewrite Forall_forall. intros p Hp.
    unfold vget in E. case_decide; [|done]. pose proof (inv_core _ _ _ Hr) as Hc.
    destruct (wok_win _ _ _ _ _ (ok_windows _ (co_wm _ Hc)) _ _ _ E Hp) as (w & Hw & _). by exists w. }
  assert (Hloop : xt (windows ws ++ L) (for_each (windows ws) body)).
  { apply xt_for_each. intros p Hp. eapply xt_weaken; [|apply Hb].
    intros q [->|Hq]%elem_of_cons; rewrite elem_of_app; auto. }
  by apply Hloop.
Qed.
Lemma xt_switched L ws : xt L (ewmh_on_workspace_switched ws).
Proof using All.
  pose proof xt_desktop_props. pose proof xt_has_fs. pose proof xt_apply_fs.
  unfold ewmh_on_workspace_switched. xt_step; [xt_auto|]. xt_step; [xt_auto|]. xt_step; [xt_auto|].
  apply xt_workspace_windows. intros p. xt_auto.
Qed.

Lemma xt_x_on L ev : xt L (x_on ev).
Proof using All.
  pose proof xt_update_focus. pose proof xt_switched. pose proof xt_on_assigned. pose proof xt_mapped.
  pose proof xt_unmapped. destruct ev; cbn [x_on]; xt_auto.
Qed.

Lemma xt_handle_wm_state L win a : xt L (x_handle_wm_state win a).
Proof using All.
  pose proof xt_apply_fs. pose proof xt_fs_property. unfold x_handle_wm_state. xt_auto.
Qed.

Lemma xt_on_start L : xt L x_on_start.
Proof using All.
  pose proof xt_desktop_props. pose proof xt_reload_colors. unfold x_on_start, apply_xresources. xt_auto.
Qed.
End Reactions.

#[export] Hint Resolve xt_reload_colors xt_set_border xt_focus_window xt_client_list xt_has_fs : xt.
#[export] Hint Resolve xt_ewmh_atom xt_fs_property xt_frame_extents xt_apply_fs xt_desktop_props : xt.
#[export] Hint Resolve xt_should_manage xt_close xt_mapped xt_unmapped xt_clear_barriers : xt.
#[export] Hint Resolve xt_update_focus xt_switched xt_on_assigned xt_handle_wm_state : xt.

(** ** X events *)

Section Handlers.
Context {Srv : Type} `{!XServer Srv} `{!Env (XWorld Srv)} `{!XModules (XWorld Srv)}.
Context (J : Srv → Prop) (pat backlog : Srv → nat) (owner : Z → string).
Context `{!ServerOk J pat backlog}.
Local Abbreviation R := (Runtime (XWorld Srv)).
Local Abbreviation xt := (xt (λ w : XWorld Srv, J (srv w)) (λ w : XWorld Srv, pat (srv w)) owner).
Local Abbreviation xtt := (xtt (λ w : XWorld Srv, J (srv w)) (λ w : XWorld Srv, pat (srv w)) owner).
Local Abbreviation tame := (tame (λ w : XWorld Srv, J (srv w)) (λ w : XWorld Srv, pat (srv w)) owner).

(** What the handlers call outside the backend. *)
Class CallsOk : Prop := {
  calls_get_monitors : tame be_get_monitors;
  calls_apply_layout l : tame (be_apply_monitor_layout l);
  calls_should_manage p win b : tame (hook_should_manage p win b);
  calls_rules p win b : tame (hook_window_rules p win b);
  calls_close p win : tame (hook_close_window p win);
  calls_handles n ev : tame (module_handles n ev) }.
Context `{!CallsOk}.

Lemma srv_metadata win : srv_safe J pat (read_window_metadata win).
Proof using All. unfold read_window_metadata, read_title. srv_auto. Qed.

Lemma xt_place L win m b : xt L (place_window_on_monitor win m b).
Proof using All. unfold place_window_on_monitor. xt_auto. Qed.
Lemma xt_ensure L win : xt L (map_ensure_window win).
Proof using All. pose proof srv_metadata. unfold map_ensure_window. xt_auto. Qed.
Lemma xt_map_borderless L win ws p : p ∈ L → xt L (map_borderless win ws p).
Proof using All. intros ?. unfold map_borderless. xt_auto. Qed.
Lemma xt_map_floating L win ws b p : p ∈ L → xt L (map_place_floating win ws b p).
Proof using All. intros ?. pose proof xt_place. unfold map_place_floating. xt_auto. Qed.
Lemma xt_map_hidden L win : xt L (map_hidden win).
Proof using All. unfold map_hidden. xt_auto. Qed.

Lemma xt_map_shown win ws_id ws_visible L p : p ∈ L → xt L
  (on_window (Some p) (map_borderless win ws_id) ;;
   on_window (Some p) (map_place_floating win ws_id ws_visible)).
Proof using All.
  intros Hp. pose proof xt_map_borderless. pose proof xt_map_floating. cbn [on_window]. xt_auto.
Qed.

(** What follows the rules in [handle_map_request]. *)
Definition map_show (win : Z) : M R unit :=
  mapped_window <- window_state_any win ;;
  ws_id <- cget (λ c, workspace_of_window (wsman c) win) ;;
  ws_visible <- cget (λ c, (0 <=? ws_id) && is_workspace_visible c ws_id) ;;
  on_window mapped_window (map_borderless win ws_id) ;;
  on_window mapped_window (map_place_floating win ws_id ws_visible) ;;
  (if (ws_visible : bool) then
     dispatch_ (SetWindowHiddenByWorkspace win false) ;; dispatch_ (MapWindow win)
   else map_hidden win) ;;
  ewmh_on_window_mapped win ;;
  post_event (WindowMapped win) ;;
  dispatch_ ReconcileNow ;;
  suppress <- on_core (consume_window_suppress_focus_once win) ;;
  vis <- (match mapped_window with Some p => fld p is_visible | None => ret false end) ;;
  if negb suppress && ws_visible && vis then dispatch_ (FocusWindow win)
  else on_core (focus NO_WINDOW).
Lemma xt_map_show L win : xt L (map_show win).
Proof using All.
  pose proof xt_map_borderless. pose proof xt_map_floating. pose proof xt_map_hidden.
  unfold map_show, on_window. xt_auto.
Qed.

Lemma tame_map_request win : tame (handle_map_request win).
Proof using All.
  pose proof xt_ensure. pose proof xt_map_show as Hshow. unfold handle_map_request, select_managed_events.
  apply tame_bind; [apply xt_tame; xt_auto|]. intros attrs. apply tame_if; [apply xt_tame; xt_auto|].
  apply tame_bind; [apply tame_should_manage_by; intros; by apply calls_should_manage|]. intros manage.
  apply tame_if; [apply xt_tame; xt_auto|].
  do 4 (apply tame_bind; [apply xt_tame; xt_auto|]; intros ?).
  apply tame_bind; [|intros _; apply xt_tame, Hshow].
  apply tame_if; [apply tame_ret|]. apply tame_bind; [apply tame_gets|]. intros ps.
  apply tame_for_each. intros p. by apply calls_rules.
Qed.

Lemma xt_map_notify L win b : xt L (handle_map_notify win b).
Proof using All. unfold handle_map_notify. xt_auto. Qed.
Lemma xt_reparent L win parent : xt L (handle_reparent_notify win parent).
Proof using All. unfold handle_reparent_notify. xt_auto. Qed.
Lemma xt_withdrawn L win b : xt L (unmap_withdrawn win b).
Proof using All. unfold unmap_withdrawn. xt_auto. Qed.
Lemma xt_by_client L win b p : p ∈ L → xt L (unmap_by_client win b p).
Proof using All. intros ?. pose proof xt_withdrawn. unfold unmap_by_client. xt_auto. Qed.
Lemma xt_unmap_notify L win : xt L (handle_unmap_notify win).
Proof using All. pose proof xt_by_client. unfold handle_unmap_notify. xt_auto. Qed.
Lemma xt_destroy L win : xt L (handle_destroy_notify win).
Proof using All. unfold handle_destroy_notify. xt_auto. Qed.

Lemma xt_motif L win p : p ∈ L → xt L (promote_motif win p).
Proof using All. intros ?. unfold promote_motif. xt_auto. Qed.
Lemma xt_refresh L win a p : p ∈ L → xt L (refresh_metadata win a p).
Proof using All. intros ?. pose proof xt_motif. pose proof srv_metadata. unfold refresh_metadata. xt_auto. Qed.
Lemma xt_become L win trans : xt L (become_transient win trans).
Proof using All. pose proof xt_place. unfold become_transient. xt_auto. Qed.
Lemma xt_property L win a : xt L (handle_property_notify win a).
Proof using All.
  pose proof xt_refresh. pose proof xt_become. unfold handle_property_notify, on_window. xt_auto.
Qed.

(** The patch of an unknown window's request has one value per bit. *)
Lemma patch_ok c px py :
  0 ≤ (configure_patch c px py).1 < 128 ∧
  length (configure_patch c px py).2 = popcount (configure_patch c px py).1.
Proof using All.
  unfold configure_patch, put. generalize (cr_mask c). intros m.
  repeat (destruct (has_bit m _); cbn [fst snd]); by split.
Qed.

Lemma xt_unknown L c : xt L (configure_unknown c).
Proof using All.
  unfold configure_unknown. do 2 (xt_step; [xt_auto|]). cbv zeta.
  match goal with |- context [if ?b then steer ?m ?q ?c else ?d] =>
    destruct (if b then steer m q c else d) as [c' [px py]] end.
  xt_step; [xt_auto|]. apply (xt_request J pat backlog owner). apply patch_ok.
Qed.
Lemma xt_restack L c p : p ∈ L → xt L (configure_restack c p).
Proof using All. intros ?. unfold configure_restack. xt_auto. Qed.
Lemma xt_promote L c b : xt L (configure_promote c b).
Proof using All. unfold configure_promote. xt_auto. Qed.
Lemma xt_notify_current L win p : p ∈ L → xt L (notify_current_geometry win p).
Proof using All. intros ?. unfold notify_current_geometry. xt_auto. Qed.
Lemma xt_accept L c b g p : p ∈ L → xt L (configure_accept c b g p).
Proof using All. intros ?. unfold configure_accept. xt_auto. Qed.
Lemma xt_known L c p : p ∈ L → xt L (configure_known c p).
Proof using All.
  intros ?. pose proof xt_restack. pose proof xt_promote. pose proof xt_notify_current.
  pose proof xt_accept. unfold configure_known. xt_auto.
Qed.
Lemma xt_configure_request L c : xt L (handle_configure_request c).
Proof using All. pose proof xt_unknown. pose proof xt_known. unfold handle_configure_request. xt_auto. Qed.
Lemma xt_configure_notify L win p sz bw b : xt L (handle_configure_notify win p sz bw b).
Proof using All. unfold handle_configure_notify. xt_auto. Qed.

Lemma xt_focused {A} L (k : option addr → M R A) :
  xt L (k None) → (∀ p, xt (p :: L) (k (Some p))) → xt L (bind (cget focused_window_state) k).
Proof using All.
  intros Hn Hs r Hr HL. unfold cget. do 2 wp_step. unfold focused_window_state.
  destruct (_ =? NO_WINDOW); [by apply Hn|]. unfold find_window_in_all.
  destruct (window_index _ !! _) as [p|] eqn:E; [|by apply Hn].
  apply Hs; [done|]. constructor; [by eapply indexed_live|done].
Qed.
Lemma xt_focus_event L out ev : xt L (handle_focus_event out ev).
Proof using All.
  unfold handle_focus_event. xt_step; [xt_auto|]. xt_step; [xt_auto|]. xt_step; [xt_auto|].
  apply xt_focused; unfold on_window; [xt_auto|]. intros p. xt_auto.
Qed.
Lemma xt_button L e : xt L (handle_button_event e).
Proof using All. unfold handle_button_event. xt_auto. Qed.
Lemma xt_motion L ev p st : xt L (handle_motion_notify ev p st).
Proof using All. unfold handle_motion_notify. xt_auto. Qed.
Lemma xt_enter L e : xt L (handle_enter_notify e).
Proof using All. unfold handle_enter_notify, on_window. xt_auto. Qed.

Lemma tame_x_handle win type data : tame (x_handle win type data).
Proof using All.
  unfold x_handle. apply tame_xtt. apply xtt_bind; [xt_auto|]. intros n_ws.
  apply xtt_window.
  - repeat (apply xtt_if; [apply xtt_xt; solve [xt_auto]|]). apply xtt_if; [|apply xtt_xt; xt_auto].
    apply xtt_tame. apply tame_bind; [apply tame_gets|]. intros hs. apply tame_bind; [|intros; apply tame_ret].
    apply tame_for_each. intros h. by apply calls_close.
  - intros p. repeat (apply xtt_if; [apply xtt_xt; solve [xt_auto]|]). apply xtt_if; [|apply xtt_xt; xt_auto].
    apply xtt_tame. apply tame_bind; [apply tame_gets|]. intros hs. apply tame_bind; [|intros; apply tame_ret].
    apply tame_for_each. intros h. by apply calls_close.
Qed.
Lemma tame_client_message win type format data : tame (handle_client_message win type format data).
Proof using All.
  unfold handle_client_message. apply tame_bind; [apply tame_x_handle|]. intros b.
  apply tame_if; [apply tame_ret|]. apply tame_bind; [apply tame_gets|]. intros mods.
  apply tame_bind; [|intros; apply tame_ret]. induction mods as [|m mods IH]; [apply tame_ret|]. cbn.
  apply tame_bind; [by apply calls_handles|]. intros h. by apply tame_if; [apply tame_ret|].
Qed.

Lemma tame_display : tame dispatch_display_change.
Proof using All.
  apply tame_bind; [|intros; apply tame_post].
  apply tame_refresh_by; intros; [by apply calls_get_monitors|by apply calls_apply_layout].
Qed.
Lemma tame_ge : tame handle_ge_generic.
Proof using All.
  apply tame_bind; [apply tame_gets|]. intros base. apply tame_if; [apply tame_ret|].
  apply tame_if; [apply tame_display|apply tame_ret].
Qed.
Lemma tame_extension t : tame (handle_extension_event t).
Proof using All.
  apply tame_bind; [apply tame_gets|]. intros base. apply tame_if; [apply tame_display|].
  apply xt_tame. xt_auto.
Qed.

(** ** The dispatcher *)

(** Everything but a key release is handled without looking at the next event. *)
Definition reads_ahead (ev : XEvent) : bool :=
  match ev with XKey e => ke_release e | _ => false end.

Lemma handle_event_ok next ev : reads_ahead ev = false → tame (handle_event next ev).
Proof using All.
  pose proof xt_map_notify. pose proof xt_reparent. pose proof xt_unmap_notify. pose proof xt_destroy.
  pose proof xt_property. pose proof xt_configure_request. pose proof xt_configure_notify.
  pose proof xt_focus_event. pose proof xt_button. pose proof xt_motion. pose proof xt_enter.
  intros Hk. destruct ev; cbn [handle_event]; try (by apply xt_tame; xt_auto).
  - cbn in Hk. unfold handle_key_event. rewrite Hk. apply xt_tame. xt_auto.
  - apply tame_map_request.
  - apply tame_client_message.
  - apply tame_ge.
  - apply tame_extension.
Qed.

(** A key release takes the next event off the queue, and the event behind it if
    that is a key release too: the queue bounds the recursion. *)
Lemma handle_generic_event_ok fuel ev r :
  inv (λ w : XWorld Srv, J (srv w)) owner r → (backlog (srv (world r)) + 1 < fuel)%nat →
  wp (handle_generic_event fuel ev) (λ _ r', inv (λ w : XWorld Srv, J (srv w)) owner r' ∧
    keeps (λ w : XWorld Srv, pat (srv w)) r r') r.
Proof using All.
  revert ev r. induction fuel as [|fuel IH]; intros ev r Hr Hf; [lia|]. cbn [handle_generic_event].
  destruct (reads_ahead ev) eqn:Hk; [|by apply handle_event_ok].
  destruct ev; try done. cbn [reads_ahead] in Hk. cbn [handle_event]. unfold handle_key_event. rewrite Hk.
  wp_step. pose proof (xt_focus_at (λ w : XWorld Srv, J (srv w)) (λ w : XWorld Srv, pat (srv w)) owner [] (ke_root e) r Hr (Forall_nil_2 _)) as Hfocus.
  apply wp_some in Hfocus as (b & r1 & E1 & H1 & K1 & _).
  assert (Es : srv (world r1) = srv (world r)).
  { unfold on_core, zoom, bind, modify, ret in E1.
    destruct (core_focus_monitor_at_point (ke_root e) (core_ r)) as [[? ?]|]; [|done].
    injection E1 as <- <-. unfold flush_sink. by destruct (event_sink _). }
  unfold wp at 1. rewrite E1. cbv iota. apply wp_bind. unfold query, on_srv. apply wp_zoom.
  unfold ask, wp at 1. rewrite Es.
  destruct (ok_poll J pat backlog (srv (world r)) (inv_world _ _ _ Hr)) as [Hj Hp].
  pose proof (ok_poll_backlog J pat backlog (srv (world r))) as Hb.
  destruct (x_poll (srv (world r))) as [[ev|] s'] eqn:E; cbn [fst snd] in *.
  - specialize (Hb ev eq_refl). set (r2 := r1 <| world ::= _ |>).
    assert (H2 : inv (λ w : XWorld Srv, J (srv w)) owner r2) by (by destruct H1; split).
    assert (K2 : keeps (λ w : XWorld Srv, pat (srv w)) r r2).
    { etrans; [exact K1|]. split; cbn; try done. by rewrite Es. }
    apply wp_bind. eapply wp_mono with (Q := λ _ r3, inv (λ w : XWorld Srv, J (srv w)) owner r3 ∧
      keeps (λ w : XWorld Srv, pat (srv w)) r2 r3 ∧ srv (world r3) = s').
    { wp_step; [by apply wp_ret|]. apply wp_modify. cbn. destruct H2. split_and!; [by split|by split|done]. }
    cbv beta. intros [] r3 (H3 & K3 & E3). eapply wp_mono; [apply IH; [done|rewrite E3; lia]|].
    cbv beta. intros [] r4 [H4 K4]. split; [done|]. etrans; [exact K2|]. by etrans.
  - apply wp_modify. cbn. destruct H1. split; [by split|]. etrans; [exact K1|]. split; cbn; try done.
    by rewrite Es.
Qed.
End Handlers.

(** ** Runs of the X11 backend

    The pump and the frame on top of the handlers: with enough fuel the pump
    returns, whatever events arrive; what the runtime asks of a backend holds of
    this one. *)

#[export] Hint Resolve xt_mapped xt_unmapped xt_clear_barriers xt_focus_window xt_close : xt.

Section Run.
Context {Srv : Type} `{!XServer Srv} `{!Env (XWorld Srv)} `{!XModules (XWorld Srv)}.
Local Abbreviation R := (Runtime (XWorld Srv)).

(** ** More fuel changes nothing *)

Lemma handle_event_next (next next' : XEvent → M R unit) ev r x :
  (∀ e r x, next e r = Some x → next' e r = Some x) →
  handle_event next ev r = Some x → handle_event next' ev r = Some x.
Proof using Type.
  intros Hn. destruct ev; try done. cbn [handle_event]. unfold handle_key_event, bind.
  destruct (on_core _ r) as [[b r1]|]; [|done]. destruct (ke_release e); [|done].
  destruct (query x_poll r1) as [[[ev|] r2]|]; [|done|done].
  match goal with |- context [match ?m r2 with Some _ => _ | None => _ end] => destruct (m r2) as [[[] r3]|] end;
    [|done]. apply Hn.
Qed.
Lemma mono_handle ev : mono (λ n, handle_generic_event n ev).
Proof using Type.
  intros n. revert ev. induction n as [|n IH]; intros ev n' r x Hn; [done|].
  destruct n' as [|n']; [lia|]. cbn [handle_generic_event]. apply handle_event_next.
  intros e r1 x1. apply IH. lia.
Qed.
Lemma mono_pump_loop k p : mono (λ n, pump_loop n k p).
Proof using Type.
  revert p. induction k as [|k IH]; intros p; cbn [pump_loop]; [apply mono_const|].
  apply mono_bind; [apply mono_const|]. intros [ev|]; [|apply mono_const].
  apply mono_bind; [apply mono_const|]. intros base. destruct (defer base ev p); [apply IH|].
  apply mono_bind; [apply mono_handle|]. intros _. apply IH.
Qed.
Lemma mono_exposes l : mono (λ n, for_each l (λ win, handle_generic_event n (XExpose win))).
Proof using Type.
  induction l as [|w l IH]; cbn [for_each]; [apply mono_const|].
  apply mono_bind; [apply mono_handle|]. by intros _.
Qed.
Lemma mono_motion (o : option XEvent) :
  mono (λ n, match o with Some ev => handle_generic_event n ev | None => ret tt end).
Proof using Type. destruct o; [apply mono_handle|apply mono_const]. Qed.
Lemma mono_pump_end (p : Pump) (m : M R unit) :
  mono (λ n, for_each (pending_exposes p) (λ win, handle_generic_event n (XExpose win)) ;; m).
Proof using Type. apply mono_bind; [apply mono_exposes|]. intros _. apply mono_const. Qed.
Lemma mono_pump_tail (p : Pump) (m : M R unit) :
  mono (λ n, (match latest_motion p with Some ev => handle_generic_event n ev | None => ret tt end) ;;
             for_each (pending_exposes p) (λ win, handle_generic_event n (XExpose win)) ;; m).
Proof using Type. apply mono_bind; [apply mono_motion|]. intros _. apply mono_pump_end. Qed.
Lemma mono_pump k : mono (λ n, pump_events n k).
Proof using Type.
  unfold pump_events. apply mono_bind; [apply mono_pump_loop|]. intros p. apply mono_pump_tail.
Qed.

(** ** The pump *)

Context (J : Srv → Prop) (pat backlog : Srv → nat) (owner : Z → string).
Context `{!ServerOk J pat backlog} `{!CallsOk J pat owner}.
Local Abbreviation xt := (xt (λ w : XWorld Srv, J (srv w)) (λ w : XWorld Srv, pat (srv w)) owner).
Local Abbreviation inv := (inv (λ w : XWorld Srv, J (srv w)) owner).
Local Abbreviation keeps := (keeps (λ w : XWorld Srv, pat (srv w))).
Local Abbreviation tame := (tame (λ w : XWorld Srv, J (srv w)) (λ w : XWorld Srv, pat (srv w)) owner).

Lemma handle_ok ev r : inv r → wpf (λ n, handle_generic_event n ev) (λ _ r', inv r' ∧ keeps r r') r.
Proof using All.
  intros Hr. exists (2 + backlog (srv (world r)))%nat.
  apply (handle_generic_event_ok J pat backlog owner); [done|lia].
Qed.

Lemma pump_loop_ok k p r : inv r → wpf (λ n, pump_loop n k p) (λ _ r', inv r' ∧ keeps r r') r.
Proof using All.
  revert p r. induction k as [|k IH]; intros p r Hr; cbn [pump_loop]; [by apply wpf_const, wp_ret|].
  apply wpf_step.
  { intros [ev|]; [|apply mono_const]. apply mono_bind; [apply mono_const|]. intros base.
    destruct (defer base ev p); [apply mono_pump_loop|].
    apply mono_bind; [apply mono_handle|]. intros _. apply mono_pump_loop. }
  eapply wp_mono; [apply (xt_query J pat owner [] x_poll); [apply (ok_poll J pat backlog)|done|constructor]|].
  cbv beta. intros [ev|] r1 (H1 & K1 & _); [|by apply wpf_const, wp_ret].
  apply wpf_step.
  { intros base. destruct (defer base ev p); [apply mono_pump_loop|].
    apply mono_bind; [apply mono_handle|]. intros _. apply mono_pump_loop. }
  apply wp_gets. destruct (defer _ ev p) as [p'|].
  - eapply wpf_mono; [by apply IH|]. cbv beta. intros _ r2 [H2 K2]. split; [done|by etrans].
  - apply wpf_bind; [apply mono_handle|intros _; apply mono_pump_loop|].
    eapply wpf_mono; [by apply handle_ok|]. cbv beta. intros [] r2 [H2 K2].
    eapply wpf_mono; [by apply IH|]. cbv beta. intros _ r3 [H3 K3]. split; [done|].
    etrans; [exact K1|]. by etrans.
Qed.

Lemma exposes_ok l r : inv r →
  wpf (λ n, for_each l (λ win, handle_generic_event n (XExpose win))) (λ _ r', inv r' ∧ keeps r r') r.
Proof using All.
  revert r. induction l as [|w l IH]; intros r Hr; cbn [for_each]; [by apply wpf_const, wp_ret|].
  apply wpf_bind; [apply mono_handle|intros _; apply mono_exposes|].
  eapply wpf_mono; [by apply handle_ok|]. cbv beta. intros [] r1 [H1 K1].
  eapply wpf_mono; [by apply IH|]. cbv beta. intros [] r2 [H2 K2]. split; [done|by etrans].
Qed.

Lemma pump_ok k r : inv r → wpf (λ n, pump_events n k) (λ _ r', inv r' ∧ keeps r r') r.
Proof using All.
  intros Hr. unfold pump_events. apply wpf_bind; [apply mono_pump_loop|intros p; apply mono_pump_tail|].
  eapply wpf_mono; [by apply pump_loop_ok|]. cbv beta. intros p r1 [H1 K1].
  apply wpf_bind; [apply mono_motion|intros _; apply mono_pump_end|].
  eapply wpf_mono with (Q := λ _ r', inv r' ∧ keeps r1 r').
  { destruct (latest_motion p); [by apply handle_ok|by apply wpf_const, wp_ret]. }
  cbv beta. intros [] r2 [H2 K2]. apply wpf_bind; [apply mono_exposes|intros _; apply mono_const|].
  eapply wpf_mono; [by apply exposes_ok|]. cbv beta. intros [] r3 [H3 K3].
  assert (K : keeps r r3) by (etrans; [exact K1|]; by etrans).
  apply wpf_const. destruct (randr_dirty p).
  - eapply wp_mono; [by apply (tame_display J pat backlog owner)|]. cbv beta. intros [] r4 [H4 K4]. split; [done|by etrans].
  - by apply wp_ret.
Qed.

(** ** The frame *)

Lemma flush_values_ok d w :
  0 ≤ (flush_values d w).1 < 128 ∧ length (flush_values d w).2 = popcount (flush_values d w).1.
Proof using Type.
  unfold flush_values, put. repeat (destruct (has_bit d _); cbn [fst snd]); by split.
Qed.
Lemma xt_apply_flush L f p : p ∈ L → xt L (apply_window_flush f p).
Proof using All.
  intros Hp. unfold apply_window_flush. apply xt_if; [apply xt_ret|]. xt_step; [xt_auto|].
  pose proof (flush_values_ok (fl_dirty f) a) as [Hm Hl].
  destruct (flush_values (fl_dirty f) a) as [mask values]. apply xt_if; [apply xt_ret|].
  by apply (xt_configure J pat backlog owner).
Qed.
Lemma xt_flush_window L win p : p ∈ L → xt L (flush_window win p).
Proof using All. intros ?. pose proof xt_apply_flush. unfold flush_window. xt_auto. Qed.
Lemma xt_take_and_flush L win : xt L (take_and_flush win).
Proof using All. pose proof xt_apply_flush. unfold take_and_flush. xt_auto. Qed.

Lemma xt_effect_map L win : xt L (effect_map win).
Proof using All.
  pose proof xt_flush_window. unfold effect_map, select_managed_events, xw_set_wm_state_normal. xt_auto.
Qed.
Lemma xt_effect_unmap L win : xt L (effect_unmap win).
Proof using All. unfold effect_unmap. xt_auto. Qed.
Lemma xt_effect L e : xt L (apply_effect e).
Proof using All.
  pose proof xt_effect_map. pose proof xt_effect_unmap. pose proof xt_take_and_flush.
  unfold apply_effect, xw_raise, xw_lower. xt_step; [xt_auto|]. destruct (eff_kind e); xt_auto.
Qed.
Lemma tame_render_frame : tame render_frame.
Proof using All.
  pose proof xt_effect. pose proof xt_take_and_flush. apply xt_tame.
  unfold render_frame, apply_core_backend_effects. xt_auto.
Qed.
Lemma tame_on_reload : tame on_reload_applied.
Proof using All. apply xt_tame. unfold on_reload_applied. xt_auto. Qed.

(** ** The start *)

Lemma srv_scan_window root saved win : srv_safe J pat (scan_window root saved win).
Proof using All.
  assert (Hsel : srv_safe J pat (modify (x_request (XChangeAttributes win XCB_CW_EVENT_MASK [managed_event_mask])))).
  { intros s Hs. apply wp_modify. by apply (ok_request J pat backlog). }
  unfold scan_window, read_title. srv_auto.
Qed.
Lemma srv_scan root file : srv_safe J pat (scan_existing_windows root file).
Proof using All.
  assert (Hws : ∀ saved l, srv_safe J pat (scan_windows root saved l)).
  { intros saved l. pose proof srv_scan_window. induction l; cbn [scan_windows]; srv_auto. }
  assert (Htop : ∀ d children f, srv_safe J pat (focused_toplevel d children f)).
  { induction d; intros children f; cbn [focused_toplevel]; srv_auto. }
  unfold scan_existing_windows. srv_auto.
Qed.
Lemma tame_scan_windows root file : tame (on_srv (scan_existing_windows root file)).
Proof using All. apply xt_tame, xt_on_srv, srv_scan. Qed.
End Run.
