(* ===== verification/X11Coalesce.v ===== *)
(** * The pump of the X11 backend against its specification

    [pump_events] keeps motion, expose and RandR events back while it handles
    the others.  The specification collects what is kept back and hands on the
    last motion, one expose per window and one display change; an event that a key
    release reads ahead is not the pump's, and is handled at once. *)

From S2P Require Import Prelude Geometry Events Core Runtime X11Server X11Backend X11Events.
From S2P Require Import X11Loop.
Local Open Scope Z_scope.

(** ** The specification *)

(** An event that is kept back. *)
Inductive Kept := KeptMotion (ev : XEvent) | KeptExpose (win : Z) | KeptRandr.

Definition keep (base : Z) (ev : XEvent) : option Kept :=
  if is_randr_event_type base (opcode ev) then Some KeptRandr
  else match ev with
  | XMotionNotify _ _ _ => Some (KeptMotion ev)
  | XExpose win => Some (KeptExpose win)
  | _ => None
  end.

Definition motions (l : list Kept) : list XEvent :=
  omap (λ k, match k with KeptMotion ev => Some ev | _ => None end) l.
Definition exposes (l : list Kept) : list Z :=
  omap (λ k, match k with KeptExpose win => Some win | _ => None end) l.
Definition randrs (l : list Kept) : bool :=
  existsb (λ k, match k with KeptRandr => true | _ => false end) l.

(** The elements in the order in which they come first. *)
Fixpoint firsts (l : list Z) : list Z :=
  match l with
  | [] => []
  | w :: l' => w :: filter (λ v, v ≠ w) (firsts l')
  end.

(** The events handed on at the end: the last motion, then one expose a window. *)
Definition coalesce (l : list Kept) : list XEvent :=
  option_list (last (motions l)) ++ (XExpose <$> firsts (exposes l)).

(** Every window that had an expose has exactly one. *)
Lemma firsts_NoDup l : NoDup (firsts l) ∧ ∀ w, w ∈ firsts l ↔ w ∈ l.
Proof.
  induction l as [|w l [Hn Hin]]; cbn; [split; [constructor|done]|]. split.
  - constructor; [|by apply NoDup_filter]. intros [? _]%list_elem_of_filter. done.
  - intros v. rewrite !elem_of_cons, list_elem_of_filter, Hin. destruct (decide (v = w)); naive_solver.
Qed.

Section Spec.
Context {Srv : Type} `{!XServer Srv} `{!Env (XWorld Srv)} `{!XModules (XWorld Srv)}.
Local Abbreviation R := (Runtime (XWorld Srv)).

(** The press that repeats the key of a release. *)
Definition repeats (e : KeyEvent) (next : XEvent) : bool :=
  match next with
  | XKey k => negb (ke_release k) && (ke_detail k =? ke_detail e) && (ke_time k =? ke_time e)
  | _ => false
  end.
Definition key_up (e : KeyEvent) : M R unit := xset (λ b, b <| key_down ::= λ s, s ∖ {[ke_detail e]} |>).
(** One turn of the pump.  Only the release of a key reads another event, whatever
    it is, a motion, an expose or one of RandR too: it is handled within the turn,
    and is not kept back; if it is a release it reads on. *)
Fixpoint turn (fuel : nat) (ev : XEvent) : M R unit :=
  match fuel with
  | O => λ _, None
  | S fuel =>
      let alone := handle_event (λ _, ret tt) ev in
      match ev with
      | XKey e =>
          if ke_release e then
            on_core (core_focus_monitor_at_point (ke_root e)) ;;
            o <- query x_poll ;;
            match o with
            | Some next => (if repeats e next then ret tt else key_up e) ;; turn fuel next
            | None => key_up e
            end
          else alone
      | _ => alone
      end
  end.
Lemma turn_handles fuel : ∀ ev r, handle_generic_event fuel ev r = turn fuel ev r.
Proof using Type.
  induction fuel as [|fuel IH]; intros ev r; [done|]. cbn [handle_generic_event turn]. destruct ev; try done.
  cbn [handle_event]. unfold handle_key_event. destruct (ke_release e) eqn:E.
  2:{ reflexivity. }
  unfold bind.
  destruct (on_core _ r) as [[a r1]|]; [|reflexivity].
  destruct (query x_poll r1) as [[[next|] r2]|]; [| |reflexivity].
  2:{ reflexivity. }
  fold (repeats e next). fold (key_up e). destruct (repeats e next); [apply IH|].
  destruct (key_up e r2) as [[[] r3]|]; [apply IH|done].
Qed.

(** At most [n] events, not counting those that are read ahead: the others are
    handled, what is kept back is returned. *)
Fixpoint collect (fuel n : nat) : M R (list Kept) :=
  match n with
  | O => ret []
  | S n =>
      o <- query x_poll ;;
      match o with
      | None => ret []
      | Some ev =>
          base <- xget randr_base ;;
          match keep base ev with
          | Some k => l <- collect fuel n ;; ret (k :: l)
          | None => turn fuel ev ;; collect fuel n
          end
      end
  end.

Definition pump_spec (fuel : nat) (n : Z) : M R unit :=
  l <- collect fuel (Z.to_nat n) ;;
  for_each (coalesce l) (turn fuel) ;;
  if randrs l then dispatch_display_change else ret tt.

(** ** What the loop has accumulated *)

Definition absorb (l : list Kept) (p : Pump) : Pump :=
  mkPump (match last (motions l) with Some ev => Some ev | None => latest_motion p end)
         (foldl (λ acc w, add_expose w acc) (pending_exposes p) (exposes l))
         (randr_dirty p || randrs l).

Lemma absorb_nil p : absorb [] p = p.
Proof using Type. destruct p as [m e d]. unfold absorb. cbn. by rewrite orb_false_r. Qed.

Lemma defer_keep base ev p : defer base ev p = (λ k, absorb [k] p) <$> keep base ev.
Proof using Type.
  unfold defer, keep. destruct p as [m e d]. destruct (is_randr_event_type base (opcode ev)).
  { unfold absorb. cbn. by rewrite orb_true_r. }
  destruct ev; try done; unfold absorb; cbn; by rewrite orb_false_r.
Qed.

Lemma last_cons_some {A} (a : A) l : last (a :: l) = Some (default a (last l)).
Proof using Type. by rewrite last_cons; destruct (last l). Qed.

Lemma absorb_cons k l p : absorb (k :: l) p = absorb l (absorb [k] p).
Proof using Type.
  assert (Hm : motions (k :: l) = match k with KeptMotion ev => ev :: motions l | _ => motions l end)
    by (by destruct k).
  assert (He : exposes (k :: l) = match k with KeptExpose w => w :: exposes l | _ => exposes l end)
    by (by destruct k).
  unfold absorb at 1 2. rewrite Hm, He. destruct k; cbn [latest_motion pending_exposes randr_dirty absorb
    motions exposes omap list_omap last foldl randrs existsb orb].
  - rewrite last_cons. destruct (last (motions l)); by rewrite orb_false_r.
  - by rewrite orb_false_r.
  - by destruct (randr_dirty p).
Qed.

Lemma pump_loop_collect fuel n p r :
  pump_loop fuel n p r = (l <- collect fuel n ;; ret (absorb l p)) r.
Proof using Type.
  revert p r. induction n as [|n IH]; intros p r.
  { cbn. unfold bind, ret. by rewrite absorb_nil. }
  cbn [pump_loop collect]. unfold bind, ret.
  destruct (query x_poll r) as [[[ev|] r1]|]; [|by rewrite absorb_nil|done].
  destruct (xget randr_base r1) as [[base r2]|]; [|done].
  rewrite defer_keep. destruct (keep base ev) as [k|]; cbn.
  - rewrite IH. unfold bind, ret. destruct (collect fuel n r2) as [[l r3]|]; [|done].
    by rewrite (absorb_cons k l p).
  - rewrite turn_handles. destruct (turn fuel ev r2) as [[[] r3]|]; [|done]. rewrite IH. reflexivity.
Qed.

(** Adding one by one keeps the first of each. *)
Lemma add_exposes l acc : NoDup acc →
  foldl (λ acc w, add_expose w acc) acc l = acc ++ filter (λ w, w ∉ acc) (firsts l).
Proof using Type.
  revert acc. induction l as [|w l IH]; intros acc Hnd; cbn [foldl firsts]; [by rewrite app_nil_r|].
  unfold add_expose at 2. destruct (existsb (Z.eqb w) acc) eqn:E.
  - apply existsb_exists in E as (v & Hv%list_elem_of_In & ->%Z.eqb_eq).
    rewrite IH by done. rewrite filter_cons_False by (by intros []). f_equal.
    rewrite list_filter_filter. apply list_filter_iff. intros u. split; [|tauto].
    intros Hu. split; [done|]. by intros ->.
  - assert (Hw : w ∉ acc).
    { intros Hin. assert (existsb (Z.eqb w) acc = true); [|congruence].
      apply existsb_exists. exists w. split; [by apply list_elem_of_In|by apply Z.eqb_eq]. }
    rewrite IH by (apply NoDup_app; split_and!; [done|set_solver|apply NoDup_singleton]).
    rewrite filter_cons_True by done. rewrite <- app_assoc. do 2 f_equal. cbn.
    rewrite list_filter_filter. apply list_filter_iff. intros u. set_solver.
Qed.

Lemma for_each_app {A} (l1 l2 : list A) (body : A → M R unit) r :
  for_each (l1 ++ l2) body r = (for_each l1 body ;; for_each l2 body) r.
Proof using Type.
  revert r. induction l1 as [|a l1 IH]; intros r; [done|]. cbn [for_each app]. unfold bind in *.
  destruct (body a r) as [[[] r1]|]; [|done]. by rewrite IH.
Qed.
Lemma for_each_fmap {A B} (g : A → B) (l : list A) (body : B → M R unit) r :
  for_each (g <$> l) body r = for_each l (λ a, body (g a)) r.
Proof using Type.
  revert r. induction l as [|a l IH]; intros r; [done|]. cbn. unfold bind.
  destruct (body (g a) r) as [[[] r1]|]; [|done]. apply IH.
Qed.

(** C15: the pump is its specification: whatever arrives, the events of a batch
    that are not kept back are handled in order, then the last of the motions that
    were, one expose per window that had any, in the order in which the windows came
    first, and one change of the display if there was any.  Kept back are the
    motions, exposes and RandR events that the pump reads itself; an event behind
    the release of a key is read by its handler, which handles it at once and
    outside the batch ([turn]), so that it is not coalesced with the others
    ([read_ahead_not_coalesced]). *)
Theorem pump_coalesces fuel n r :
  pump_events fuel n r = pump_spec fuel n r ∧
  ∀ l, NoDup (firsts (exposes l)) ∧ ∀ w, w ∈ firsts (exposes l) ↔ w ∈ exposes l.
Proof using Type.
  split; [|intros l; apply firsts_NoDup].
  assert (Hf : ∀ ws : list Z, filter (λ w, w ∉ []) ws = ws).
  { induction ws as [|w ws IHw]; [done|]. rewrite filter_cons_True by set_solver. by rewrite IHw. }
  assert (Hturn : ∀ ws r, for_each ws (λ win, handle_generic_event fuel (XExpose win)) r =
    for_each ws (λ win, turn fuel (XExpose win)) r).
  { induction ws as [|w ws IHw]; intros r'; [done|]. cbn [for_each]. unfold bind. rewrite turn_handles.
    destruct (turn _ _ r') as [[[] r1]|]; [apply IHw|done]. }
  unfold pump_events, pump_spec, coalesce. unfold bind in *. rewrite pump_loop_collect. unfold bind, ret.
  destruct (collect fuel (Z.to_nat n) r) as [[l r1]|]; [|done].
  cbn [latest_motion pending_exposes randr_dirty absorb new_pump orb].
  rewrite add_exposes by constructor. cbn [app]. rewrite Hf, for_each_app. unfold bind.
  destruct (last (motions l)) as [ev|].
  - change (option_list (Some ev)) with [ev]. cbn [for_each]. unfold bind, ret.
    rewrite turn_handles. destruct (turn fuel ev r1) as [[[] r2]|]; [|done]. by rewrite for_each_fmap, Hturn.
  - change (option_list (@None XEvent)) with (@nil XEvent). cbn [for_each]. unfold ret. by rewrite for_each_fmap, Hturn.
Qed.
End Spec.
