(* ===== verification/X11Keys.v ===== *)
(** * Key autorepeat

    While a key is held the server sends pairs of a release and a press with the
    same time.  [handle_key_event] filters them by looking at the event behind a
    release; the theorem says that they are as good as not sent. *)

From S2P Require Import Prelude Fuel Geometry Workspace WorkspaceManager WindowIndex ManagerInv ManagerFocus.
From S2P Require Import Events Commands Core Dispatch CoreSafe CoreFocus EventQueue Runtime.
From S2P Require Import LifecycleSafe BackendSafe.
From S2P Require Import X11Server X11Backend X11Events X11Loop X11Safe.
Local Open Scope Z_scope.

(** ** The specification *)

(** [p] is the press of the pair that the release [e] begins. *)
Definition autorepeat (e p : KeyEvent) : bool :=
  negb (ke_release p) && (ke_detail p =? ke_detail e) && (ke_time p =? ke_time e).

(** The stream without the pairs. *)
Fixpoint erase (l : list KeyEvent) : list KeyEvent :=
  match l with
  | e :: ((p :: l') as t) => if ke_release e && autorepeat e p then erase l' else e :: erase t
  | _ => l
  end.

(** The keys that are down after an event. *)
Definition press (down : gset Z) (e : KeyEvent) : gset Z :=
  if ke_release e then down ∖ {[ke_detail e]} else {[ke_detail e]} ∪ down.

(** A server that repeats keys which are held only. *)
Fixpoint repeats_held (down : gset Z) (l : list KeyEvent) : Prop :=
  match l with
  | e :: ((p :: l') as t) =>
      if ke_release e && autorepeat e p then ke_detail e ∈ down ∧ repeats_held down l'
      else repeats_held (press down e) t
  | _ => True
  end.

(** The presses of keys that are up, without looking ahead. *)
Fixpoint presses (sym : Z → Z) (down : gset Z) (l : list KeyEvent) : list Event :=
  match l with
  | [] => []
  | e :: l' =>
      (if ke_release e || bool_decide (ke_detail e ∈ down) then []
       else [KeyPressEv (ke_state e) (ke_detail e) (sym (ke_detail e))]) ++
      presses sym (press down e) l'
  end.

(** ** What the handler posts, looking ahead *)

Fixpoint posted (sym : Z → Z) (down : gset Z) (l : list KeyEvent) : list Event :=
  match l with
  | [] => []
  | e :: l' =>
      if ke_release e then
        posted sym (if match l' with p :: _ => autorepeat e p | [] => false end
                    then down else down ∖ {[ke_detail e]}) l'
      else if bool_decide (ke_detail e ∈ down) then posted sym down l'
      else KeyPressEv (ke_state e) (ke_detail e) (sym (ke_detail e)) ::
           posted sym ({[ke_detail e]} ∪ down) l'
  end.

Lemma posted_erase sym down l : repeats_held down l → posted sym down l = presses sym down (erase l).
Proof.
  remember (length l) as n eqn:Hn. revert l down Hn.
  induction (lt_wf n) as [n _ IH]. intros l down -> Hl.
  destruct l as [|e l]; [done|].
  assert (Hpress : ke_release e = false → posted sym down (e :: l) =
    (if bool_decide (ke_detail e ∈ down) then [] else
      [KeyPressEv (ke_state e) (ke_detail e) (sym (ke_detail e))]) ++ posted sym (press down e) l).
  { intros Hr. cbn [posted]. unfold press. rewrite Hr. case_bool_decide; [|done].
    cbn. f_equal. set_solver. }
  destruct l as [|p l].
  - cbn [erase presses]. destruct (ke_release e) eqn:Hr; [by cbn; rewrite Hr|].
    rewrite Hpress by done. by case_bool_decide.
  - assert (He : erase (e :: p :: l) =
      if ke_release e && autorepeat e p then erase l else e :: erase (p :: l)) by done.
    assert (Hh : repeats_held down (e :: p :: l) =
      if ke_release e && autorepeat e p then ke_detail e ∈ down ∧ repeats_held down l
      else repeats_held (press down e) (p :: l)) by done.
    rewrite He. rewrite Hh in Hl. clear He Hh. destruct (ke_release e && autorepeat e p) eqn:Hp.
    + apply andb_true_iff in Hp as [Hr Ha]. destruct Hl as [Hd Hl]. cbn [posted]. rewrite Hr, Ha.
      unfold autorepeat in Ha. apply andb_true_iff in Ha as [Ha _]. apply andb_true_iff in Ha as [Hpr Hpd%Z.eqb_eq].
      apply negb_true_iff in Hpr. rewrite Hpr, Hpd, bool_decide_true by done.
      eapply IH; [|done|done]. cbn. lia.
    + assert (Hrec : posted sym (press down e) (p :: l) = presses sym (press down e) (erase (p :: l))).
      { eapply IH; [|done|done]. cbn. lia. }
      cbn [presses]. rewrite <- Hrec. destruct (ke_release e) eqn:Hr; [|by rewrite Hpress].
      cbn [andb] in Hp. cbn [posted orb app]. rewrite Hr, Hp. unfold press. by rewrite Hr.
Qed.

(** ** The handler *)

Definition is_key_press (ev : Event) : bool := match ev with KeyPressEv _ _ _ => true | _ => false end.

Section Keys.
Context {Srv : Type} `{!XServer Srv} `{!Env (XWorld Srv)} `{!XModules (XWorld Srv)}.
Context (J : Srv → Prop) (pat backlog : Srv → nat) (owner : Z → string).
Context `{!ServerOk J pat backlog}.
(** The queue of the server, and its key map. *)
Context (pending : Srv → list XEvent) (sym : Z → Z).
Context (Hpoll : ∀ s, (x_poll s).1 = head (pending s) ∧ pending (x_poll s).2 = tail (pending s)).
Context (Hsym : ∀ k s, x_keysym k s = sym k).
Local Abbreviation R := (Runtime (XWorld Srv)).
Local Abbreviation inv := (inv (λ w : XWorld Srv, J (srv w)) owner).
Implicit Types r : R.

(** The key presses on their way to the receivers. *)
Definition key_presses r : list Event :=
  List.filter is_key_press (q_ (event_queue_ r) ++ default [] (event_sink (core_ r))).

Lemma filter_app {A} (f : A → bool) (l1 l2 : list A) :
  List.filter f (l1 ++ l2) = List.filter f l1 ++ List.filter f l2.
Proof using Type. apply List.filter_app. Qed.

Lemma flush_sink_presses r : key_presses (flush_sink r) = key_presses r ∧ world (flush_sink r) = world r ∧
  default [] (event_sink (core_ (flush_sink r))) = [].
Proof using Type.
  unfold key_presses, flush_sink. destruct (event_sink (core_ r)) as [l|] eqn:E; [|by rewrite E].
  split; [|done]. cbn. rewrite app_nil_r. f_equal. generalize (event_queue_ r). clear E.
  induction l as [|e l IH]; intros q; cbn [foldl]; [by rewrite app_nil_r|].
  rewrite IH. cbn. by rewrite <- app_assoc.
Qed.

(** Following the pointer posts no key press and does not touch the backend. *)
Lemma focus_at_keys p r : inv r →
  wp (on_core (core_focus_monitor_at_point p))
     (λ _ r', inv r' ∧ world r' = world r ∧ key_presses r' = key_presses r ∧
        default [] (event_sink (core_ r')) = []) r.
Proof using All.
  intros Hr. pose proof (xt_focus_at (λ w : XWorld Srv, J (srv w)) (λ w : XWorld Srv, pat (srv w)) owner [] p r Hr (Forall_nil_2 _)) as H.
  apply wp_some in H as (b & r' & E & Hr' & _). apply wp_some. exists b, r'. split; [done|]. split; [done|].
  unfold on_core, zoom, bind, modify, ret in E.
  destruct (core_focus_monitor_at_point p (core_ r)) as [[b1 c]|] eqn:Ec; [|done]. injection E as <- <-.
  match goal with |- context [flush_sink ?x] => destruct (flush_sink_presses x) as (-> & -> & ->) end.
  split; [done|]. split; [|done].
  unfold key_presses. cbn. rewrite !filter_app. f_equal.
  destruct Hr as [Hc _ _]. unfold core_focus_monitor_at_point, on_wsman, bind, zoom in Ec.
  pose proof (wm_safe_focus_at_point p (wsman (core_ r)) (co_wm _ Hc)) as Hwm. unfold wp in Hwm.
  destruct (focus_monitor_at_point p (wsman (core_ r))) as [ok s] eqn:Es. destruct Hwm as [Hs _].
  destruct ok; cbn [negb] in Ec; unfold ret in Ec; [|by injection Ec as <- <-].
  assert (Hc1 : core_ok ((core_ r) <| wsman := s |>)) by (destruct Hc; by constructor).
  pose proof (focus_spec _ NO_WINDOW Hc1) as Hf. unfold wp in Hf.
  destruct (focus NO_WINDOW ((core_ r) <| wsman := s |>)) as [[[] c']|]; [|done].
  injection Ec as <- <-. destruct Hf as (_ & [_ Hev] & _). cbn in Hev.
  destruct (event_sink (core_ r)) as [q|]; [|by rewrite Hev].
  destruct Hev as (ev & -> & Hall). cbn. rewrite filter_app. cbn.
  replace (List.filter is_key_press ev) with (@nil Event); [by rewrite app_nil_r|].
  induction Hall as [|e ev -> _ IH]; [done|]. done.
Qed.

Definition keys_left r (l : list KeyEvent) : Prop := pending (srv (world r)) = XKey <$> l.

(** The press of a key. *)
Lemma handle_press next e r l : inv r → keys_left r l → ke_release e = false →
  wp (handle_key_event next e) (λ _ r', inv r' ∧ keys_left r' l ∧
    randr_base (xb (world r')) = randr_base (xb (world r)) ∧
    key_presses r' ++ posted sym (key_down (xb (world r'))) l =
    key_presses r ++ posted sym (key_down (xb (world r))) (e :: l)) r.
Proof using All.
  intros Hr Hl He. unfold handle_key_event. rewrite He. wp_step.
  eapply wp_mono; [by apply focus_at_keys|]. cbv beta. intros _ r1 (H1 & E1 & P1 & S1).
  unfold xget, cget. wp_step. apply wp_gets. rewrite E1. cbn [posted]. rewrite He.
  case_bool_decide as Hd.
  - apply wp_ret. unfold keys_left. rewrite E1, P1. done.
  - unfold xset, on_srv, post_event. do 3 wp_step. apply wp_zoom, wp_gets, wp_modify.
    destruct H1 as [Hc Hw Hm]. split_and!; [by split|by unfold keys_left; cbn; rewrite E1|by cbn; rewrite E1|].
    rewrite <- P1. unfold key_presses. cbn. rewrite S1, !app_nil_r, filter_app. cbn.
    by rewrite Hsym, E1, <- app_assoc.
Qed.

(** A release, and the events it reads ahead. *)
Lemma handle_keys fuel e r l : (length l < fuel)%nat → inv r → keys_left r l →
  wp (handle_generic_event fuel (XKey e)) (λ _ r', inv r' ∧
    randr_base (xb (world r')) = randr_base (xb (world r)) ∧ ∃ l', (length l' ≤ length l)%nat ∧
    keys_left r' l' ∧
    key_presses r' ++ posted sym (key_down (xb (world r'))) l' =
    key_presses r ++ posted sym (key_down (xb (world r))) (e :: l)) r.
Proof using All.
  revert e r l. induction fuel as [|fuel IH]; intros e r l Hf Hr Hl; [lia|].
  cbn [handle_generic_event handle_event]. destruct (ke_release e) eqn:He.
  2: { eapply wp_mono; [by apply handle_press|]. cbv beta. intros _ r' (? & ? & ? & ?).
       split_and!; [done..|]. by exists l. }
  unfold handle_key_event. rewrite He. wp_step.
  eapply wp_mono; [by apply focus_at_keys|]. cbv beta. intros _ r1 (H1 & E1 & P1 & S1).
  unfold query, on_srv. wp_step. apply wp_zoom. unfold ask, wp at 1. rewrite E1.
  destruct (Hpoll (srv (world r))) as [Hh Ht]. unfold keys_left in Hl. rewrite Hl in Hh, Ht.
  destruct (ok_poll J pat backlog (srv (world r)) (inv_world _ _ _ Hr)) as [Hj _].
  destruct (x_poll (srv (world r))) as [o s'] eqn:Ep. cbn [fst snd] in *. subst o.
  destruct l as [|p l]; cbn [fmap list_fmap head].
  - unfold xset. wp_step. destruct H1 as [Hc Hw Hm]. split; [by split|]. cbn. rewrite E1. split; [done|].
    exists []. split_and!; [done|exact Ht|]. cbn [posted]. by rewrite He, <- P1.
  - set (r2 := r1 <| world ::= λ w, w <| srv := s' |> |>).
    assert (H2 : inv r2) by (by destruct H1; split).
    set (down := if autorepeat e p then key_down (xb (world r)) else key_down (xb (world r)) ∖ {[ke_detail e]}).
    apply wp_bind. eapply wp_mono with (Q := λ _ r3, inv r3 ∧ keys_left r3 l ∧ key_presses r3 = key_presses r ∧
      key_down (xb (world r3)) = down ∧ randr_base (xb (world r3)) = randr_base (xb (world r))).
    { subst down. unfold autorepeat. destruct H2 as [Hc Hw Hm]. unfold xset, keys_left. wp_step.
      - wp_step. cbn. rewrite E1. split_and!; [by split|exact Ht|exact P1|done|done].
      - wp_step. cbn. rewrite E1. split_and!; [by split|exact Ht|exact P1|done|done]. }
    cbv beta. intros [] r3 (H3 & L3 & P3 & D3 & B3).
    eapply wp_mono; [apply (IH p r3 l); [cbn in Hf; lia|done|done]|]. cbv beta.
    intros [] r4 (H4 & B4 & l' & Hlen & L4 & Q4). split; [done|]. split; [by rewrite B4|]. exists l'.
    split_and!; [cbn; lia|done|]. rewrite Q4, P3, D3. cbn [posted]. by rewrite He.
Qed.

(** ** The pump *)

Definition base_ok (base : Z) : Prop := base = -1 ∨ 64 ≤ base < 127.
Lemma keys_not_deferred base e p : base_ok base → defer base (XKey e) p = None.
Proof using Type.
  intros Hb. unfold defer, is_randr_event_type, XCB_RANDR_SCREEN_CHANGE_NOTIFY, XCB_RANDR_NOTIFY.
  destruct Hb as [->|Hb]; [done|]. change 255 with (Z.ones 8). rewrite !Z.land_ones by lia.
  change (2 ^ 8) with 256. rewrite !Z.mod_small by lia. cbn [opcode].
  destruct (Z.leb_spec 0 base); [|lia]. destruct (ke_release e); cbn [andb];
    rewrite !(proj2 (Z.eqb_neq _ _)) by lia; done.
Qed.

Lemma pump_keys n p : ∀ l r, (length l < n)%nat → inv r → keys_left r l → base_ok (randr_base (xb (world r))) →
  wpf (λ fuel, pump_loop fuel n p) (λ p' r', p' = p ∧ inv r' ∧ keys_left r' [] ∧
    key_presses r' = key_presses r ++ posted sym (key_down (xb (world r))) l) r.
Proof using All.
  induction n as [|n IH]; intros l r Hn Hr Hl Hb; [lia|]. cbn [pump_loop].
  destruct (Hpoll (srv (world r))) as [Hh Ht]. rewrite Hl in Hh, Ht.
  destruct (ok_poll J pat backlog (srv (world r)) (inv_world _ _ _ Hr)) as [Hj _].
  apply wpf_step.
  { intros [ev|]; [|apply mono_const]. apply mono_bind; [apply mono_const|]. intros base.
    destruct (defer base ev p); [apply mono_pump_loop|].
    apply mono_bind; [apply mono_handle|]. intros _. apply mono_pump_loop. }
  unfold query, on_srv. apply wp_zoom. unfold ask, wp.
  destruct (x_poll (srv (world r))) as [o s'] eqn:Ep. cbn [fst snd] in *. subst o.
  destruct Hr as [Hc Hw Hm]. destruct l as [|e l]; cbn [fmap list_fmap head].
  { apply wpf_const, wp_ret. split_and!; [done|by split|exact Ht|by rewrite app_nil_r]. }
  set (r1 := r <| world ::= _ |>). assert (H1 : inv r1) by (by split).
  assert (L1 : keys_left r1 l) by exact Ht.
  apply wpf_step.
  { intros base. destruct (defer base (XKey e) p); [apply mono_pump_loop|].
    apply mono_bind; [apply mono_handle|]. intros _. apply mono_pump_loop. }
  apply wp_gets. rewrite keys_not_deferred by done.
  apply wpf_bind; [apply mono_handle|intros _; apply mono_pump_loop|].
  exists (S (length l)). eapply wp_mono; [apply (handle_keys _ e r1 l); [lia|done|done]|]. cbv beta.
  intros [] r2 (H2 & B2 & l' & Hlen & L2 & Q2).
  eapply wpf_mono; [apply (IH l' r2); [cbn in Hn; lia|done|done|by rewrite B2]|]. cbv beta.
  intros p' r3 (-> & H3 & L3 & Q3). split_and!; [done..|]. by rewrite Q3, Q2.
Qed.

(** C16: among key events, autorepeat is invisible: when the server's queue holds
    key events only, in which it repeats keys that are held, and no more of them
    than the pump takes at a time, the pump posts a press for every press of a key
    that is up, as if the repeated pairs had not been sent. *)
Theorem autorepeat_invisible l n r :
  inv r → keys_left r l → Z.of_nat (length l) < n → base_ok (randr_base (xb (world r))) →
  repeats_held (key_down (xb (world r))) l →
  ∃ fuel r', pump_events fuel n r = Some (tt, r') ∧ inv r' ∧ keys_left r' [] ∧
    key_presses r' = key_presses r ++ presses sym (key_down (xb (world r))) (erase l).
Proof using All.
  intros Hr Hl Hn Hb Hrep. rewrite <- posted_erase by done.
  destruct (pump_keys (Z.to_nat n) new_pump l r) as [fuel H]; [lia|done..|].
  apply wp_some in H as (p & r' & E & -> & H'). exists fuel, r'. split; [|done].
  unfold pump_events, bind. rewrite E. done.
Qed.
End Keys.
