(* ===== verification/X11Unmap.v ===== *)
(** * Unmapping: by the window manager, by the client

    The server does not say who unmapped a window.  The backend counts the
    reports its own unmaps will cause; every other one is a withdrawal. *)

From S2P Require Import Prelude Geometry Workspace WorkspaceManager WindowIndex ManagerInv.
From S2P Require Import Events Commands Core Dispatch CoreSafe CoreFrame EventQueue Runtime.
From S2P Require Import LifecycleSafe BackendSafe.
From S2P Require Import X11Server X11Backend X11Events X11Loop X11Safe.
Local Open Scope Z_scope.

Section Unmap.
Context {Srv : Type} `{!XServer Srv} `{!Env (XWorld Srv)} `{!XModules (XWorld Srv)}.
Local Abbreviation R := (Runtime (XWorld Srv)).
Implicit Types r : R.

(** ** What the bookkeeping of EWMH leaves alone *)

Record untouched r r' : Prop := {
  un_core : core_ r' = core_ r;
  un_queue : event_queue_ r' = event_queue_ r;
  un_pending : pending_wm_unmaps (xb (world r')) = pending_wm_unmaps (xb (world r));
  un_root : root_window (xb (world r')) = root_window (xb (world r)) }.
#[export] Instance untouched_preorder : PreOrder untouched.
Proof using Type. split; [by split|]. intros r1 r2 r3 [] []. split; congruence. Qed.

Lemma untouched_fld {A} p (f : Window → A) : preserves untouched (fld p f).
Proof using Type. apply preserves_checked, _. Qed.
Lemma untouched_gets {A} (f : R → A) : preserves untouched (gets f).
Proof using Type. apply preserves_gets, _. Qed.
Lemma untouched_ret {A} (a : A) : preserves untouched (ret a : M R A).
Proof using Type. apply preserves_ret, _. Qed.
Lemma untouched_srv {A} (m : M Srv A) : preserves untouched (on_srv m).
Proof using Type.
  intros r a r'. unfold on_srv, zoom. destruct (m (srv (world r))) as [[b s]|]; [|done].
  by intros [= _ <-].
Qed.
End Unmap.

Ltac untouched_auto :=
  repeat match goal with
  | |- PreOrder _ => apply _
  | H : preserves untouched ?m |- preserves _ ?m => exact H
  | |- preserves _ (bind _ _) => apply preserves_bind; [apply _| |intros ?]
  | |- preserves _ (if _ then _ else _) => apply preserves_if
  | |- preserves _ (for_each _ _) => apply preserves_for_each; [apply _|intros ?]
  | |- preserves _ (match ?o with Some _ => _ | None => _ end) => destruct o
  | |- preserves _ (ret _) => apply untouched_ret
  | |- preserves _ (fld _ _) => apply untouched_fld
  | |- preserves _ (gets _) => apply untouched_gets
  | |- preserves _ (xget _) => apply untouched_gets
  | |- preserves _ (cget _) => apply untouched_gets
  | |- preserves _ (on_srv _) => apply untouched_srv
  | |- preserves _ (request _) => apply untouched_srv
  | |- preserves _ (query _) => apply untouched_srv
  | |- preserves _ (set_property _ _ _ _) => apply untouched_srv
  | |- preserves _ (xset _) => apply preserves_modify; [apply _|by split]
  end.

Section Reports.
Context {Srv : Type} `{!XServer Srv} `{!Env (XWorld Srv)} `{!XModules (XWorld Srv)}.
Local Abbreviation R := (Runtime (XWorld Srv)).
Implicit Types r : R.

Lemma untouched_window {B} win (k : option addr → M R B) :
  (∀ o, preserves untouched (k o)) → preserves untouched (bind (x11_window win) k).
Proof using Type.
  intros Hk. unfold x11_window, window_state_any. destruct (win =? NO_WINDOW); untouched_auto; apply Hk.
Qed.
Lemma untouched_client_list : preserves untouched ewmh_update_client_list.
Proof using Type. unfold ewmh_update_client_list. untouched_auto. Qed.
Lemma untouched_unmapped win b : preserves untouched (ewmh_on_window_unmapped win b).
Proof using Type.
  unfold ewmh_on_window_unmapped. apply preserves_bind; [apply _| |intros _; apply untouched_client_list].
  apply untouched_window. intros [p|]; [|apply untouched_ret].
  unfold xw_set_wm_state, xw_set_wm_state_atom, xw_states. untouched_auto.
Qed.
Lemma untouched_barriers : preserves untouched clear_pointer_barriers.
Proof using Type. unfold clear_pointer_barriers. untouched_auto. Qed.

Context (J : Srv → Prop) (pat backlog : Srv → nat) (owner : Z → string).
Context `{!ServerOk J pat backlog}.
Local Abbreviation inv := (inv (λ w : XWorld Srv, J (srv w)) owner).
Local Abbreviation keeps := (keeps (λ w : XWorld Srv, pat (srv w))).

(** A safe step with its frame, in a weakest precondition. *)
Lemma wp_untouched {A} L (m : M R A) r (Q : A → R → Prop) :
  xt (λ w : XWorld Srv, J (srv w)) (λ w : XWorld Srv, pat (srv w)) owner L m → preserves untouched m → inv r → Forall (λ p, live p r) L →
  (∀ a r', inv r' → untouched r r' → Q a r') → wp m Q r.
Proof using Type.
  intros Hx Hm Hr HL HQ. pose proof (Hx r Hr HL) as H. apply wp_some in H as (a & r' & E & Hr' & _).
  apply wp_some. exists a, r'. split; [done|]. apply HQ; [done|by eapply Hm].
Qed.

(** ** Reports that are expected *)

Definition managed (win : Z) (p : addr) r : Prop :=
  win ≠ NO_WINDOW ∧ root_window (xb (world r)) ≠ win ∧ window_index (wsman (core_ r)) !! win = Some p.

Definition pending_unmaps (p : addr) r : Z := xw_pending (xb (world r)) p.

Lemma managed_untouched win p r r' : managed win p r → untouched r r' → managed win p r'.
Proof using Type. intros (? & ? & ?) []. unfold managed. by rewrite un_core0, un_root0. Qed.

Lemma wp_x11_window {B} win p (k : option addr → M R B) (Q : B → R → Prop) r :
  managed win p r → wp (k (Some p)) Q r → wp (bind (x11_window win) k) Q r.
Proof using Type.
  intros (Hn & _ & Hp) Hk. unfold x11_window. rewrite (proj2 (Z.eqb_neq _ _) Hn).
  unfold window_state_any, cget. do 2 wp_step. unfold find_window_in_all. by rewrite Hp.
Qed.

(** An unmap by the window manager: two more reports are expected. *)
Lemma effect_unmap_ok win p r : inv r → managed win p r →
  wp (effect_unmap win) (λ _ r', inv r' ∧ managed win p r' ∧ core_ r' = core_ r ∧
    event_queue_ r' = event_queue_ r ∧ pending_unmaps p r' = pending_unmaps p r + 2) r.
Proof using All.
  intros Hr Hm. unfold effect_unmap, with_x11_window. eapply wp_x11_window; [done|].
  assert (Hlive : Forall (λ p, live p r) [p]) by (repeat constructor; eapply indexed_live; [done|apply Hm]).
  wp_step. apply wp_gets. wp_step.
  apply (wp_untouched [p]); [|..|done|done|].
  { apply xt_if; [|apply xt_ret]. apply xt_bind; [by apply (xt_request J pat backlog owner)|].
    intros _. apply (xt_clear_barriers J pat backlog owner). }
  { pose proof untouched_barriers. untouched_auto. }
  intros [] r1 H1 U1. wp_step.
  apply (wp_untouched [] (ewmh_on_window_unmapped win false)); [apply (xt_unmapped J pat backlog owner)|apply untouched_unmapped|done|done|].
  intros [] r2 H2 U2. unfold xw_note_wm_unmap, xset. do 2 wp_step. set (r3 := r2 <| world ::= _ |>).
  assert (H3 : inv r3) by (by destruct H2; split).
  assert (U : untouched r r2) by (by etrans).
  pose proof (managed_untouched _ _ _ _ Hm U) as M2.
  assert (M3 : managed win p r3) by exact M2.
  apply (wp_untouched [p]); [apply (xt_unmap J pat backlog owner); set_solver| |done| |].
  { unfold xw_unmap. untouched_auto. }
  { repeat constructor. eapply indexed_live; [done|apply M3]. }
  intros [] r4 H4 U4. split_and!; [done|by eapply managed_untouched|..].
  - rewrite (un_core _ _ U4). apply U.
  - rewrite (un_queue _ _ U4). apply U.
  - unfold pending_unmaps, xw_pending. rewrite (un_pending _ _ U4). cbn. rewrite lookup_insert_eq. cbn.
    unfold xw_pending. by rewrite (un_pending _ _ U).
Qed.

(** A report that was expected changes nothing but the count. *)
Lemma report_expected_ok win p r : inv r → managed win p r → 0 < pending_unmaps p r →
  wp (handle_unmap_notify win) (λ _ r', inv r' ∧ managed win p r' ∧ core_ r' = core_ r ∧
    event_queue_ r' = event_queue_ r ∧ pending_unmaps p r' = pending_unmaps p r - 1) r.
Proof using All.
  intros Hr Hm Hpos. unfold handle_unmap_notify. wp_step. apply wp_gets.
  pose proof Hm as (Hn & Hroot & Hp).
  rewrite (proj2 (Z.eqb_neq _ _)) by done. wp_step. apply wp_gets. unfold window_state_any, cget.
  wp_step. apply wp_gets. unfold find_window_in_all. rewrite Hp. cbv iota.
  eapply wp_x11_window; [done|]. unfold xw_consume_wm_unmap, xget. do 3 wp_step.
  fold (pending_unmaps p r). rewrite (proj2 (Z.leb_gt _ _)) by done. unfold xset. do 2 wp_step.
  set (r1 := r <| world ::= _ |>). wp_step. cbv iota.
  assert (H1 : inv r1) by (by destruct Hr; split). assert (M1 : managed win p r1) by done.
  apply (wp_untouched [] (ewmh_on_window_unmapped win false)); [apply (xt_unmapped J pat backlog owner)|apply untouched_unmapped|done|done|].
  intros [] r2 H2 U2. split_and!; [done|by eapply managed_untouched|apply U2|apply U2|].
  unfold pending_unmaps at 1, xw_pending. rewrite (un_pending _ _ U2). cbn. by rewrite lookup_insert_eq.
Qed.

(** The unmaps of the window manager and the reports of the server, in the order
    in which the backend sees them. *)
Inductive UnmapStep := ByManager | Reported.
Definition unmap_step (win : Z) (s : UnmapStep) : M R unit :=
  match s with ByManager => effect_unmap win | Reported => handle_unmap_notify win end.

(** Two reports for an unmap, none before it. *)
Fixpoint balanced (n : Z) (l : list UnmapStep) : Prop :=
  match l with
  | [] => True
  | ByManager :: l' => balanced (n + 2) l'
  | Reported :: l' => 0 < n ∧ balanced (n - 1) l'
  end.
Definition reports_left (l : list UnmapStep) (n : Z) : Z :=
  foldl (λ n s, match s with ByManager => n + 2 | Reported => n - 1 end) n l.

(** C14: a window the window manager has unmapped is never taken for withdrawn:
    whatever the order of its unmaps and of the reports the server sends for
    them, two for an unmap, the core does not change, no event is posted and the
    window stays managed. *)
Theorem wm_unmap_never_withdraws win p l r :
  inv r → managed win p r → balanced (pending_unmaps p r) l →
  wp (for_each l (unmap_step win)) (λ _ r', inv r' ∧ managed win p r' ∧ core_ r' = core_ r ∧
    event_queue_ r' = event_queue_ r ∧ pending_unmaps p r' = reports_left l (pending_unmaps p r)) r.
Proof using All.
  revert r. induction l as [|s l IH]; intros r Hr Hm Hb; [by apply wp_ret|]. cbn [for_each]. wp_step.
  destruct s; cbn [unmap_step balanced] in *.
  - eapply wp_mono; [by apply effect_unmap_ok|]. cbv beta. intros [] r1 (H1 & M1 & C1 & E1 & P1).
    rewrite <- P1 in Hb. eapply wp_mono; [by apply IH|]. cbv beta. intros [] r2 (H2 & M2 & C2 & E2 & P2).
    split_and!; [done|done|congruence|congruence|]. rewrite P2, P1. done.
  - destruct Hb as [Hpos Hb].
    eapply wp_mono; [by apply report_expected_ok|]. cbv beta. intros [] r1 (H1 & M1 & C1 & E1 & P1).
    rewrite <- P1 in Hb. eapply wp_mono; [by apply IH|]. cbv beta. intros [] r2 (H2 & M2 & C2 & E2 & P2).
    split_and!; [done|done|congruence|congruence|]. rewrite P2, P1. done.
Qed.

(** ** Reports that are not expected *)

(** A command, with its effect on the tables of the window manager. *)
Lemma wp_dispatch cmd r (Q : unit → R → Prop) : atom_ok cmd → inv r →
  (∀ b c' r', dispatch_atom cmd (core_ r) = Some (b, c') → inv r' → wsman (core_ r') = wsman c' →
     world r' = world r → Q tt r') → wp (dispatch_ cmd) Q r.
Proof using J Srv owner pat.
  intros Hc Hr HQ. pose proof (xt_dispatch (λ w : XWorld Srv, J (srv w)) (λ w : XWorld Srv, pat (srv w)) owner [] cmd Hc r Hr (Forall_nil_2 _)) as H.
  apply wp_some in H as ([] & r' & E & Hr' & _). apply wp_some. exists tt, r'. split; [done|].
  unfold dispatch_, on_core, zoom, bind, modify, ret in E.
  destruct (dispatch_atom cmd (core_ r)) as [[b c']|] eqn:Ec; [|done]. injection E as <-.
  apply (HQ b c'); [done|done|..]; unfold flush_sink; cbn; by destruct (event_sink c').
Qed.

Lemma mapped_tables win b : preserves core_tables (dispatch_atom (SetWindowMapped win b)).
Proof using Type.
  cbn [dispatch_atom]. unfold dispatch_SetWindowMapped, assign_window, with_window, find_win, set_window.
  tables_auto.
Qed.
(** Removing a window takes it out of the index. *)
Lemma remove_all_spec win c b c' : core_ok c →
  dispatch_atom (RemoveWindowFromAllWorkspaces win) c = Some (b, c') →
  window_index (wsman c') = delete win (window_index (wsman c)).
Proof using Type.
  intros Hc. cbn [dispatch_atom]. unfold dispatch_RemoveWindowFromAllWorkspaces, on_wsman, bind, gets, zoom.
  pose proof (remove_window_from_all_spec (wsman c) win (ok_windows _ (co_wm _ Hc))) as H. unfold wp in H.
  destruct (remove_window_from_all win (wsman c)) as [[[] s]|]; [|done]. destruct H as (_ & _ & _ & Hix & _).
  unfold modify, ret. intros E.
  set (c1 := (c <| wsman := s |>) <| pending_window_flushes ::= delete win |>) in *.
  change (window_index (wsman c1) = delete win (window_index (wsman c))) in Hix. rewrite <- Hix.
  destruct (0 <=? workspace_of_window (wsman c) win).
  - destruct (evaluate_workspace_fullscreen _ c1) as [[[] c2]|] eqn:Ee; [|done]. injection E as _ <-.
    assert (Ht : core_tables c1 c2) by (eapply (frames_tables _ _ _ _ (frames_evaluate _)); exact Ee).
    apply Ht.
  - by injection E as _ <-.
Qed.

(** The ids of all windows are those of the index. *)
Lemma all_ids_indexed c win : core_ok c → win ∈ all_window_ids c → is_Some (window_index (wsman c) !! win).
Proof using Type.
  intros Hc Hin. unfold all_window_ids, window_ids in Hin.
  apply list_elem_of_In, in_flat_map in Hin as (ws & Hws & Hin).
  apply in_flat_map in Hin as (q & Hq & Hin). apply list_elem_of_In in Hws, Hq, Hin.
  apply list_elem_of_lookup in Hws as [i Hi].
  destruct (wok_win _ _ _ _ _ (ok_windows _ (co_wm _ Hc)) _ _ _ Hi Hq) as (w & Hw & _ & Hx & _).
  rewrite Hw in Hin. apply list_elem_of_singleton in Hin as ->. by eexists.
Qed.

(** The client lists without the window: all the server hears of a withdrawal. *)
Definition client_lists (root : Z) (ids : list Z) (s : Srv) : Srv :=
  x_request (XChangeProperty root (ewmh_atom NetClientListStacking) XCB_ATOM_WINDOW 32 ids)
    (x_request (XChangeProperty root (ewmh_atom NetClientList) XCB_ATOM_WINDOW 32 ids) s).

Definition withdrawn_from (win : Z) r r' : Prop :=
  inv r' ∧ window_index (wsman (core_ r')) !! win = None ∧
  ∃ ids, (win ∉ ids) ∧
    srv (world r') = client_lists (root_window (xb (world r))) ids (srv (world r)).

Lemma unmap_withdrawn_ok win b r : inv r →
  wp (unmap_withdrawn win b) (λ _ r', withdrawn_from win r r') r.
Proof using All.
  intros Hr. unfold unmap_withdrawn, xset. do 2 wp_step. set (r1 := r <| world ::= _ |>).
  assert (H1 : inv r1) by (by destruct Hr; split).
  wp_step. apply wp_dispatch; [done|done|]. intros ok c2 r2 E2 H2 W2 X2.
  assert (I2 : window_index (wsman (core_ r2)) !! win = None).
  { rewrite W2, (remove_all_spec win (core_ r1) ok c2); [apply lookup_delete_eq|apply H1|done]. }
  wp_step. unfold ewmh_on_window_unmapped, with_x11_window, x11_window, window_state_any, cget.
  wp_step. eapply wp_mono with (Q := λ _ r3, r3 = r2).
  { destruct (win =? NO_WINDOW); [by wp_step|]. wp_step. apply wp_gets. unfold find_window_in_all.
    rewrite I2. by apply wp_ret. }
  cbv beta. intros [] r3 ->. unfold ewmh_update_client_list, cget, xget, set_property, request, on_srv.
  wp_step. apply wp_gets. wp_step. apply wp_gets. wp_step. apply wp_zoom, wp_modify. apply wp_zoom, wp_modify.
  set (r4 := _ <| world ::= _ |>). unfold post_event. do 2 wp_step.
  assert (Hfinal : ∀ r', inv r' → window_index (wsman (core_ r')) = window_index (wsman (core_ r2)) →
    srv (world r') = srv (world r4) → withdrawn_from win r r').
  { intros r' H' I' S'. split_and!; [done|by rewrite I'|]. exists (all_window_ids (core_ r2)). split.
    - intros [q Hq]%all_ids_indexed; [congruence|apply H2].
    - rewrite S'. subst r4. cbn. by rewrite X2. }
  assert (H4 : inv (r4 <| event_queue_ ::= push (WindowUnmapped win true) |>)).
  { destruct H2 as [Hc Hw Hm]. split; [done| |done]. cbn.
    apply (ok_request J pat backlog); [by right; right|]. by apply (ok_request J pat backlog); [right; right|]. }
  destruct b; [|by wp_step; apply Hfinal].
  apply wp_dispatch; [done|done|]. intros ok5 c5 r5 E5 H5 W5 X5.
  apply Hfinal; [done| |by rewrite X5].
  destruct (reconcile_tables _ _ _ E5) as (I5 & _). by rewrite W5, I5.
Qed.

(** An unmap the window manager did not ask for withdraws the window, when it
    is shown or covers its monitor: it is managed no more.  All the server hears
    of it are the client lists: contrary to what the ICCCM and the comments of
    the backend ask for, the state of the window is not set to withdrawn. *)
Theorem client_unmap_withdraws win p w r :
  inv r → managed win p r → pending_unmaps p r ≤ 0 → wins (wsman (core_ r)) !! p = Some w →
  hidden_by_workspace w = false ∨ covering w = true →
  wp (handle_unmap_notify win) (λ _ r', withdrawn_from win r r') r.
Proof using All.
  intros Hr Hm Hpos Hw Hshown. unfold handle_unmap_notify. wp_step. apply wp_gets.
  pose proof Hm as (Hn & Hroot & Hp). rewrite (proj2 (Z.eqb_neq _ _)) by done.
  wp_step. apply wp_gets. unfold window_state_any, cget.
  wp_step. apply wp_gets. unfold find_window_in_all. rewrite Hp. cbv iota.
  eapply wp_x11_window; [done|]. unfold xw_consume_wm_unmap, xget. do 3 wp_step.
  fold (pending_unmaps p r). rewrite (proj2 (Z.leb_le _ _)) by done. wp_step. cbv iota.
  unfold unmap_by_client. wp_step. eapply wp_checked; [by rewrite Hw|]. cbv beta.
  wp_step. apply wp_dispatch; [done|done|]. intros ok c1 r1 E1 H1 W1 X1.
  assert (Hend : ∀ b, wp (unmap_withdrawn win b) (λ _ r', withdrawn_from win r r') r1).
  { intros b. eapply wp_mono; [by apply unmap_withdrawn_ok|]. cbv beta. intros [] r' (H' & I' & ids & Hids & E').
    split_and!; [done|done|]. exists ids. split; [done|]. by rewrite E', X1. }
  unfold covering in Hshown. destruct (borderless w || fullscreen w) eqn:Hc; [apply Hend|].
  destruct Hshown as [->|Hcov]; [apply Hend|]. rewrite orb_comm in Hcov. congruence.
Qed.
End Reports.
