(* ===== verification/LifecycleRun.v ===== *)
(** * Running to the end

    The operations that drain the event queue, the event loop and [run]: with
    enough fuel each of them completes, from the invariant of [LifecycleSafe]. *)

From S2P Require Import Prelude Fuel Geometry Workspace WorkspaceManager Events Commands Core.
From S2P Require Import RuntimeStore Validate Dispatch CoreSafe CoreRun EventQueue Runtime Adopt.
From S2P Require Import Lifecycle LifecycleSafe.
Local Open Scope Z_scope.

Section Run.
Context {W : Type} `{!Env W} (J : W → Prop) (patience : W → nat) (owner : Z → string) (rank : Event → nat).
Context `{!Tame J patience owner rank}.
Local Abbreviation R := (Runtime W).
Local Abbreviation inv := (inv J owner).
Local Abbreviation keeps := (keeps patience).
Local Abbreviation tame := (tame J patience owner).
Local Abbreviation delivers_below := (delivers_below J patience owner rank).
Implicit Types r : R.

(** ** Draining *)

Lemma delivers_ret n : delivers_below n (ret tt).
Proof using Type. intros r Hr. split_and!; [done..|]. exists []. by rewrite app_nil_r. Qed.
Lemma delivers_bind n m (k : unit → M R unit) :
  delivers_below n m → (∀ a, delivers_below n (k a)) → delivers_below n (bind m k).
Proof using Type.
  intros Hm Hk r Hr. wp_step. eapply wp_mono; [by apply Hm|]. cbv beta.
  intros a r1 (H1 & K1 & [N1 E1] & l1 & Q1 & F1). eapply wp_mono; [by apply Hk|]. cbv beta.
  intros b r2 (H2 & K2 & [N2 E2] & l2 & Q2 & F2). split_and!; [done|by etrans|congruence..|].
  exists (l1 ++ l2). rewrite Q2, Q1, app_assoc. split; [done|]. by apply Forall_app.
Qed.
Lemma delivers_gets {A} n (f : R → A) k :
  (∀ a, delivers_below n (k a)) → delivers_below n (bind (gets f) k).
Proof using Type. intros Hk r Hr. do 2 wp_step. by apply Hk. Qed.
(** A loop over the modules or the receivers: no delivery changes either. *)
Lemma delivers_range {A} `{!EqDecision A} n (v : R → list A) body :
  (∀ r r', names r' = names r → extra_receivers_ r' = extra_receivers_ r → v r' = v r) →
  (∀ a, delivers_below n (body a)) → delivers_below n (for_range v body).
Proof using Type.
  intros Hv Hb r Hr. unfold for_range. do 2 wp_step.
  assert (∀ l r1, inv r1 → v r1 = v r → wp (for_each l (λ a, body a ;; check (λ r0, bool_decide (v r0 = v r))))
    (λ _ r', inv r' ∧ keeps r1 r' ∧ (names r' = names r1 ∧ extra_receivers_ r' = extra_receivers_ r1) ∧
      ∃ l, q_ (event_queue_ r') = q_ (event_queue_ r1) ++ l ∧ Forall (λ e, (rank e < n)%nat) l) r1) as Hloop; [|by apply Hloop].
  induction l as [|a l IH]; intros r1 H1 E1; [by apply delivers_ret|]. cbn [for_each]. wp_step. wp_step.
  eapply wp_mono; [by apply Hb|]. cbv beta. intros [] r2 (H2 & K2 & [N2 X2] & l2 & Q2 & F2).
  assert (v r2 = v r) as E2 by by rewrite (Hv r1 r2).
  apply wp_check; [by apply bool_decide_eq_true_2|].
  eapply wp_mono; [by apply IH|]. cbv beta. intros [] r3 (H3 & K3 & [N3 X3] & l3 & Q3 & F3).
  split_and!; [done|by etrans|congruence..|]. exists (l2 ++ l3). rewrite Q3, Q2, app_assoc. split; [done|]. by apply Forall_app.
Qed.

Lemma broadcast_delivers ev : delivers_below (rank ev) (broadcast ev).
Proof using All.
  apply delivers_bind.
  { apply delivers_range; [done|]. intros m. apply (tame_deliver_module J patience owner rank). }
  intros _. apply delivers_bind; [apply (tame_deliver_receiver J patience owner rank)|]. intros _.
  apply delivers_range; [done|]. intros p. apply (tame_deliver_receiver J patience owner rank).
Qed.

Lemma inv_queue q r : inv r → inv (r <| event_queue_ := q |>).
Proof using All. intros []. by split. Qed.

Lemma mono_drain_events : mono (λ n, @drain_events W _ n).
Proof using All. apply mono_drain. Qed.

Lemma drain_events_ok r :
  inv r → draining_ (event_queue_ r) = false →
  wpf (λ n, drain_events n) (λ _ r', inv r' ∧ keeps r r' ∧ q_ (event_queue_ r') = []) r.
Proof using All.
  intros Hr Hd. unfold drain_events, drain.
  pose proof (mono_drain_loop event_queue_ (λ q r, r <| event_queue_ := q |>) broadcast) as Hmono.
  apply wpf_step; [mono_auto|]. apply wp_check; [by rewrite Hd|].
  apply wpf_step; [mono_auto|]. wp_step. set (r1 := r <| event_queue_ := _ |>).
  apply wpf_bind; [done|mono_auto|].
  destruct (events_ranked rank (q_ (event_queue_ r1))) as [n Hn].
  eapply wpf_mono; [eapply (drain_loop_ends _ _ (λ s, inv s ∧ keeps r1 s) rank broadcast)|];
    [..|split; [by apply inv_queue|reflexivity]|exact Hn|].
  - intros s l [H1 K1]. split; [by apply inv_queue|]. etrans; [done|]. by apply keeps_fields.
  - intros ev s [H1 K1]. eapply wp_mono; [by apply broadcast_delivers|]. cbv beta.
    intros [] s' (H2 & K2 & _ & HP). split_and!; [done|by etrans|done].
  - cbv beta. intros [] s [[H1 K1] Hq]. apply wpf_const. wp_step.
    split_and!; [by apply inv_queue| |done]. destruct K1. by split.
Qed.

(** An operation with fuel, between states in which nothing is being delivered. *)
Definition tamef {A} (m : nat → M R A) : Prop :=
  mono m ∧ ∀ r, inv r → draining_ (event_queue_ r) = false →
    wpf m (λ _ r', inv r' ∧ keeps r r') r.

Lemma tamef_const {A} (m : M R A) : tame m → tamef (λ _, m).
Proof using All. intros Hm. split; [apply mono_const|]. intros r Hr _. by apply wpf_const, Hm. Qed.
Lemma tamef_drain : tamef (λ n, drain_events n).
Proof using All.
  split; [apply mono_drain_events|]. intros r Hr Hd.
  eapply wpf_mono; [by apply drain_events_ok|]. by intros [] r' (? & ? & _).
Qed.
Lemma tamef_bind {A B} (m : nat → M R A) (k : nat → A → M R B) :
  tamef m → (∀ a, tamef (λ n, k n a)) → tamef (λ n, bind (m n) (k n)).
Proof using All.
  intros [Mm Hm] Hk. split; [apply mono_bind; [done|apply Hk]|]. intros r Hr Hd.
  apply wpf_bind; [done|apply Hk|]. eapply wpf_mono; [by apply Hm|]. cbv beta. intros a r1 [H1 K1].
  eapply wpf_mono; [apply Hk; [done|by rewrite (kp_draining _ _ _ K1)]|]. cbv beta.
  intros b r2 [H2 K2]. split; [done|by etrans].
Qed.
Lemma tamef_if {A} (b : bool) (m1 m2 : nat → M R A) :
  tamef m1 → tamef m2 → tamef (λ n, if b then m1 n else m2 n).
Proof using All. by destruct b. Qed.
(** The first step of a computation with fuel, when it takes none. *)
Lemma tamef_step {A B} (m : M R A) (k : nat → A → M R B) :
  tame m → (∀ a, tamef (λ n, k n a)) → tamef (λ n, bind m (k n)).
Proof using All. intros Hm. apply tamef_bind. by apply tamef_const. Qed.

(** ** Start *)

Lemma core_ok_sink s c : core_ok c → core_ok (set_event_sink s c).
Proof using All. intros []. by constructor. Qed.
Lemma core_ok_started b c : core_ok c → core_ok (mark_runtime_started b c).
Proof using All. intros []. by constructor. Qed.
Lemma core_ok_factory c : core_ok c → core_ok (set_window_factory (Some be_create_window) c).
Proof using All.
  intros [[Hwin Hpool Hcur Hfac] Hn Hl Hlua]. constructor; cbn; try done.
  split; cbn; try done. intros f win w [= <-]. apply (tame_factory J patience owner rank).
Qed.

Lemma tamef_start : tamef (λ n, start n).
Proof using All.
  unfold start. apply tamef_step; [by apply tame_set_core, core_ok_sink|]. intros _.
  do 3 (apply tamef_step; [tame_auto|]; intros _). apply tamef_step; [tame_auto|]. intros mons.
  apply tamef_step.
  { apply tame_on_core. intros c Hc. eapply wp_mono; [by apply core_init_ok|]. by intros [] c' [? _]. }
  intros _. apply tamef_step; [by apply tame_set_core, core_ok_factory|]. intros _.
  apply tamef_step; [by apply tame_set_core, core_ok_started|]. intros _.
  apply tamef_step; [by eapply tame_setup_sigchld|]. intros _.
  apply tamef_step; [by eapply tame_refresh|]. intros _.
  apply tamef_step; [tame_auto|]. intros _. apply tamef_step; [tame_auto|]. intros mods.
  apply tamef_step; [tame_auto|]. intros _. apply tamef_bind; [apply tamef_drain|]. intros _.
  apply tamef_step; [tame_auto|]. intros _. apply tamef_step; [by eapply tame_adopt|]. intros _.
  apply tamef_bind; [apply tamef_drain|]. intros _. apply tamef_step; [tame_auto|]. intros _.
  apply tamef_drain.
Qed.

(** ** The event loop *)

(** What follows the pump in a tick. *)
Definition tick_rest (n : nat) : M R unit :=
  reloaded <- process_pending_reload ;;
  (if (reloaded : bool) then be_on_reload_applied ;; post_event RaiseDocks else ret tt) ;;
  drain_events n ;;
  be_render_frame.

Lemma tamef_tick_rest : tamef tick_rest.
Proof using All.
  apply tamef_step; [by eapply tame_process_reload|]. intros b. apply tamef_step; [tame_auto|]. intros _.
  apply tamef_bind; [apply tamef_drain|]. intros _. apply tamef_const. tame_auto.
Qed.

Lemma mono_tick : mono (λ n, @tick W _ n).
Proof using All.
  pose proof (proj1 tamef_tick_rest) as H. unfold tick. apply mono_bind; [apply mono_const|]. intros _.
  apply mono_bind; [apply mono_const|]. intros _. exact H.
Qed.

Lemma tick_ok r : inv r → draining_ (event_queue_ r) = false →
  wpf (λ n, tick n) (λ _ r', inv r' ∧ keeps r r' ∧
    (stop_requested r' = true ∨ (patience (world r') < patience (world r))%nat)) r.
Proof using All.
  intros Hr Hd. pose proof tamef_tick_rest as [Hmono Hrest]. unfold tick.
  apply wpf_step; [intros _; apply mono_bind; [apply mono_const|by intros _]|].
  eapply wp_mono; [by eapply (tame_poll J patience owner rank)|]. cbv beta. intros [] r1 [H1 K1].
  apply wpf_step; [by intros _|].
  eapply wp_mono; [by apply (tame_pump J patience owner rank)|]. cbv beta. intros [] r2 (H2 & K2 & P2).
  assert (K : keeps r r2) by (by etrans).
  eapply wpf_mono; [apply Hrest; [done|by rewrite (kp_draining _ _ _ K)]|]. cbv beta.
  intros [] r3 [H3 K3]. split_and!; [done|by etrans|].
  destruct P2 as [P2|P2]; [left; by apply (kp_stop _ _ _ K3)|right].
  pose proof (kp_patience _ _ _ K1). pose proof (kp_patience _ _ _ K3). lia.
Qed.

Lemma ticks_more f f' n n' r x :
  (f ≤ f')%nat → (n ≤ n')%nat → ticks f n r = Some x → ticks f' n' r = Some x.
Proof using All.
  intros Hf. revert n' r. induction n as [|n IH]; intros n' r Hn H; [done|].
  destruct n' as [|n']; [lia|]. cbn [ticks] in *. unfold bind, gets in *.
  destruct (stop_requested r); [done|]. destruct (tick f r) as [[[] r1]|] eqn:E; [|done].
  rewrite (mono_tick f f' _ _ Hf E). apply IH; [lia|done].
Qed.

Lemma ticks_ok k : ∀ r, inv r → draining_ (event_queue_ r) = false → (patience (world r) ≤ k)%nat →
  wpf (λ n, ticks n n) (λ _ r', inv r' ∧ keeps r r' ∧ stop_requested r' = true) r.
Proof using All.
  assert (Hdone : ∀ r, inv r → stop_requested r = true →
    wpf (λ n, ticks n n) (λ _ r', inv r' ∧ keeps r r' ∧ stop_requested r' = true) r).
  { intros r Hr Hs. exists 1%nat. cbn [ticks]. do 2 wp_step. rewrite Hs. by wp_step. }
  assert (Hstep : ∀ r, inv r → draining_ (event_queue_ r) = false → stop_requested r = false →
    (∀ r', inv r' → keeps r r' →
       stop_requested r' = true ∨ (patience (world r') < patience (world r))%nat →
       wpf (λ n, ticks n n) (λ _ r', inv r' ∧ keeps r r' ∧ stop_requested r' = true) r') →
    wpf (λ n, ticks n n) (λ _ r', inv r' ∧ keeps r r' ∧ stop_requested r' = true) r).
  { intros r Hr Hd Hs Hrest. destruct (tick_ok r Hr Hd) as [n1 H1].
    apply wp_some in H1 as ([] & r1 & E1 & H1 & K1 & P1).
    destruct (Hrest r1 H1 K1 P1) as [n2 H2]. apply wp_some in H2 as ([] & r2 & E2 & HQ).
    exists (S (n1 `max` n2))%nat. cbn [ticks]. do 2 wp_step. rewrite Hs. wp_step.
    unfold wp. rewrite (mono_tick n1 _ _ _ (Nat.le_trans _ _ _ (Nat.le_max_l n1 n2) (Nat.le_succ_diag_r _)) E1).
    rewrite (ticks_more n2 _ n2 (n1 `max` n2) r1 (tt, r2)); [done|lia|lia|done]. }
  induction k as [|k IH]; intros r Hr Hd Hk; destruct (stop_requested r) eqn:Hs; try by apply Hdone.
  - apply Hstep; [done..|]. intros r' H1 K1 [P1|P1]; [|lia].
    eapply wpf_mono; [by apply Hdone|]. cbv beta. intros [] r2 (H2 & K2 & S2). split_and!; [done|by etrans|done].
  - apply Hstep; [done..|]. intros r' H1 K1 [P1|P1].
    + eapply wpf_mono; [by apply Hdone|]. cbv beta. intros [] r2 (H2 & K2 & S2).
      split_and!; [done|by etrans|done].
    + eapply wpf_mono; [apply IH; [done|by rewrite (kp_draining _ _ _ K1)|lia]|]. cbv beta.
      intros [] r2 (H2 & K2 & S2). split_and!; [done|by etrans|done].
Qed.

Lemma mono_ticks : mono (λ n, @ticks W _ n n).
Proof using All. intros n n' r x Hn H. by eapply ticks_more. Qed.

Lemma tame_loop_running b : tame (modify (λ r : R, r <| loop_running := b |>)).
Proof using All. tame_field. Qed.

Lemma tame_loop_start : tame loop_start.
Proof using All.
  unfold loop_start. apply tame_bind; [apply tame_gets|]. intros running. apply tame_if; [apply tame_ret|].
  intros r Hr. wp_step. eapply wp_mono; [by apply (tame_epoll_create J patience owner rank)|]. cbv beta.
  intros created r1 (-> & H1 & K1). wp_step. apply wp_check; [done|].
  eapply wp_mono; [by apply tame_loop_running|]. cbv beta. intros [] r2 [H2 K2]. split; [done|by etrans].
Qed.
Lemma tamef_run_loop : tamef (λ n, run_loop n).
Proof using All.
  unfold run_loop. apply tamef_step; [tame_auto|]. intros _.
  apply tamef_step; [apply tame_loop_start|]. intros _. apply tamef_bind.
  - split; [apply mono_ticks|]. intros r Hr Hd.
    eapply wpf_mono; [by eapply ticks_ok|]. by intros [] r' (? & ? & _).
  - intros _. apply tamef_step; [apply tame_loop_running|]. intros _. apply tamef_const. tame_auto.
Qed.

(** ** Stop *)

Lemma destroy_all mods r :
  inv r → started (state_ r) = true → names r = mod_name <$> mods →
  wp (for_each mods (λ m, mod_destroy (mod_name m)))
     (λ _ r', inv r' ∧ keeps r r' ∧ module_windows_by_id_ r' = ∅) r.
Proof using All.
  intros Hr Hs Hn.
  eapply wp_mono; [apply (wp_for_each_prefix _ _ (λ pre r', inv r' ∧ keeps r r' ∧
    ∀ win p, module_windows_by_id_ r' !! win = Some p → owner win ∉ mod_name <$> pre))|].
  - intros pre m post r1 -> (H1 & K1 & P1).
    eapply wp_mono; [by apply (tame_destroy J patience owner rank)|]. cbv beta.
    intros [] r2 (H2 & K2 & P2). split_and!; [done|by etrans|].
    intros win p Hp. destruct (P2 win p Hp) as [Hne Hp1]. specialize (P1 win p Hp1).
    rewrite fmap_app, elem_of_app. intros [?|Hin]; [done|]. by apply list_elem_of_singleton in Hin.
  - split_and!; [done..|]. intros win p _ Hin. by apply elem_of_nil in Hin.
  - cbv beta. intros [] r' (H1 & K1 & P1). split_and!; [done..|]. apply map_empty. intros win.
    destruct (module_windows_by_id_ r' !! win) as [p|] eqn:E; [|done]. exfalso.
    apply (P1 win p E). rewrite <- Hn, <- (kp_started _ _ _ K1 Hs). by eapply (inv_windows _ _ _ H1).
Qed.

(** What [stop] leaves. *)
Definition torn_down r : Prop :=
  inv r ∧ draining_ (event_queue_ r) = false ∧ modules r = [] ∧ module_windows_by_id_ r = ∅ ∧
  runtime_started (core_ r) = false ∧ sigchld_pipe r = None.

Definition stop_rest (b : bool) : M R unit :=
  remove_receiver backend_ptr ;;
  set_core (set_event_sink None) ;;
  mods <- gets (λ r : R, modules r) ;;
  for_each (rev mods) (λ m, mod_on_stop (mod_name m) b) ;;
  queue_clear event_queue_ (λ q r, r <| event_queue_ := q |>) ;;
  for_each mods (λ m, mod_destroy (mod_name m)) ;;
  modify (λ r : R, r <| modules := [] |>) ;;
  report_live_module_windows ;;
  modify (λ r : R, r <| module_windows_by_id_ := ∅ |>) ;;
  modify (λ r : R, r <| hook_registry_ ::= registry_clear |>) ;;
  modify (λ r : R, r <| extra_receivers_ ::= registry_clear |>) ;;
  be_shutdown ;;
  teardown_sigchld_pipe ;;
  set_core (mark_runtime_started false).

Lemma wp_tame {A} (m : M R A) r (Q : A → R → Prop) :
  tame m → inv r → (∀ a r', inv r' → keeps r r' → Q a r') → wp m Q r.
Proof using All.
  intros Hm Hr HQ. eapply wp_mono; [by apply Hm|]. cbv beta. intros a r' []. by apply HQ.
Qed.

Lemma stop_rest_ok b r : inv r → started (state_ r) = true → draining_ (event_queue_ r) = false →
  wp (stop_rest b) (λ _ r', torn_down r' ∧ state_ r' = state_ r) r.
Proof using All.
  intros Hr Hs Hd. unfold stop_rest.
  wp_step. apply wp_tame; [tame_auto|done|]. intros [] r1 H1 K1.
  wp_step. apply wp_tame; [by apply tame_set_core, core_ok_sink|done|]. intros [] r2 H2 K2.
  do 3 wp_step. apply wp_tame; [tame_auto|done|]. intros [] r3 H3 K3.
  assert (K : keeps r r3) by (etrans; [exact K1|]; by etrans).
  wp_step. unfold queue_clear. wp_step. apply wp_check; [by rewrite (kp_draining _ _ _ K), Hd|].
  wp_step. set (r4 := r3 <| event_queue_ := _ |>).
  assert (H4 : inv r4) by (by apply inv_queue).
  assert (K4 : keeps r r4) by (etrans; [exact K|]; by apply keeps_fields).
  wp_step. eapply wp_mono; [apply destroy_all; [done|by rewrite (kp_state _ _ _ K4)|]|].
  { rewrite (kp_started _ _ _ K4 Hs). symmetry.
    apply (kp_started patience r r2); [by trans r1|done]. }
  cbv beta. intros [] r5 (H5 & K5 & E5). do 2 wp_step.
  wp_step. unfold report_live_module_windows. apply wp_check; [cbn; by case_bool_decide|].
  do 6 wp_step. set (r6 := _ <| extra_receivers_ ::= _ |>).
  assert (H6 : inv r6).
  { destruct H5 as [Hc Hw _]. split; [done|done|]. intros win p. cbn. by rewrite lookup_empty. }
  assert (E6 : state_ r6 = state_ r) by (cbn; by rewrite (kp_state _ _ _ K5), (kp_state _ _ _ K4)).
  assert (N6 : names r6 = []) by done.
  wp_step. apply wp_tame; [tame_auto|done|]. intros [] r7 H7 K7. unfold teardown_sigchld_pipe, set_core.
  do 3 wp_step. assert (N7 : names r7 = []) by (rewrite (kp_started _ _ _ K7); [done|by rewrite E6]).
  destruct H7 as [Hc7 Hw7 Hm7]. split; [|by cbn; rewrite (kp_state _ _ _ K7)]. split_and!; [| | | |done|done].
  - split; [by apply core_ok_started|done|done].
  - cbn. rewrite (kp_draining _ _ _ K7). cbn. by rewrite (kp_draining _ _ _ K5), (kp_draining _ _ _ K4).
  - cbn. by apply fmap_nil_inv in N7.
  - cbn. apply map_empty. intros win. destruct (module_windows_by_id_ r7 !! win) as [p|] eqn:E; [|done].
    specialize (Hm7 win p E). rewrite N7 in Hm7. by apply elem_of_nil in Hm7.
Qed.

Lemma mono_stop b : mono (λ n, @stop W _ n b).
Proof using All.
  unfold stop. pose proof mono_drain_events. apply mono_bind; [apply mono_const|]. intros _.
  apply mono_bind; [done|]. intros _. apply mono_const.
Qed.

Lemma stop_ok b r : inv r → started (state_ r) = true → draining_ (event_queue_ r) = false →
  wpf (λ n, stop n b) (λ _ r', torn_down r' ∧ state_ r' = state_ r) r.
Proof using All.
  intros Hr Hs Hd. unfold stop. pose proof mono_drain_events as Hmono.
  apply wpf_step; [intros _; apply mono_bind; [done|intros _; apply mono_const]|].
  apply wp_tame; [tame_auto|done|]. intros [] r1 H1 K1.
  apply wpf_bind; [done|intros _; apply mono_const|].
  eapply wpf_mono; [apply drain_events_ok; [done|by rewrite (kp_draining _ _ _ K1)]|]. cbv beta.
  intros [] r2 (H2 & K2 & _). assert (K : keeps r r2) by (by etrans).
  apply wpf_const. eapply wp_mono; [apply stop_rest_ok; [done|by rewrite (kp_state _ _ _ K)|]|].
  - by rewrite (kp_draining _ _ _ K).
  - cbv beta. intros [] r' [H E]. split; [done|]. by rewrite E, (kp_state _ _ _ K).
Qed.

(** ** [run] *)

Lemma transition_ok from to r : runtime_transition_allowed from to = true → state_ r = from →
  wp (transition from to) (λ _ r', r' = r <| state_ := to |>) r.
Proof using All.
  intros Ha Hs. unfold transition. wp_step. apply wp_check; [done|]. wp_step.
  apply wp_check; [by case_bool_decide|]. by wp_step.
Qed.

Lemma inv_state s r : inv r → inv (r <| state_ := s |>).
Proof using All. intros []. by split. Qed.
Lemma inv_stop b r : inv r → inv (r <| stop_requested := b |>).
Proof using All. intros []. by split. Qed.

Lemma mono_start : mono (λ n, @start W _ n).
Proof using All. apply tamef_start. Qed.
Lemma mono_run_loop : mono (λ n, @run_loop W _ n).
Proof using All. apply tamef_run_loop. Qed.

Lemma mono_run_state path fb s : mono (λ n, run_state n path fb s).
Proof using All.
  pose proof mono_start. pose proof mono_run_loop.
  destruct s; cbn [run_state]; try apply mono_const; unfold run_configured, run_running; mono_auto.
  apply mono_stop.
Qed.

Lemma mono_run_states k path fb : mono (λ n, run_states n k path fb).
Proof using All.
  induction k as [|k IH]; cbn [run_states].
  - apply mono_bind; [apply mono_const|]. intros []; apply mono_const.
  - apply mono_bind; [apply mono_const|].
    intros []; try apply mono_const; (apply mono_bind; [apply mono_run_state|by intros _]).
Qed.

(** Both configurations are refused. *)
Definition refused (path fb : string) r : Prop :=
  ∃ r1, load_config path r = Some (false, r1) ∧
    (fb = "" ∨ ∃ r2, load_config fb r1 = Some (false, r2)).

Definition quiet r : Prop := inv r ∧ draining_ (event_queue_ r) = false.

Lemma quiet_keeps r r' : quiet r → inv r' → keeps r r' → quiet r'.
Proof using All. intros [_ Hd] H K. split; [done|]. by rewrite (kp_draining _ _ _ K). Qed.

Lemma run_idle_ok path fb r : quiet r → state_ r = Idle →
  wp (run_idle path fb) (λ _ r', quiet r' ∧
    (state_ r' = Configured ∨ state_ r' = Stopped ∧ refused path fb r)) r.
Proof using All.
  intros Hq Hs. unfold run_idle.
  assert (Hload : ∀ p r0, quiet r0 → state_ r0 = Idle → wp (load_config p)
    (λ ok r', load_config p r0 = Some (ok, r') ∧ quiet r' ∧ state_ r' = Idle) r0).
  { intros p r0 Hq0 Hs0. pose proof (tame_load_config J patience owner rank p r0 (proj1 Hq0)) as H.
    apply wp_some in H as (ok & r' & E & H1 & K1). apply wp_some. exists ok, r'.
    split_and!; [done..|by eapply quiet_keeps|]. by rewrite (kp_state _ _ _ K1). }
  assert (Hconf : ∀ r0, quiet r0 → state_ r0 = Idle →
    wp (transition Idle Configured) (λ _ r', quiet r' ∧ (state_ r' = Configured ∨
      state_ r' = Stopped ∧ refused path fb r)) r0).
  { intros r0 [Hi Hd] Hs0. eapply wp_mono; [by apply transition_ok|]. cbv beta. intros [] r' ->.
    split; [|by left]. split; [by apply inv_state|done]. }
  wp_step. eapply wp_mono; [by apply Hload|]. cbv beta. intros ok r1 (E1 & Hq1 & Hs1).
  destruct ok; [by apply Hconf|]. destruct (String.eqb_spec fb "") as [Hfb|Hfb]; cbn [negb].
  - wp_step. destruct Hq1. split; [split; [by apply inv_state|done]|]. right. split; [done|].
    exists r1. split; [done|by left].
  - wp_step. eapply wp_mono; [by apply Hload|]. cbv beta. intros ok r2 (E2 & Hq2 & Hs2).
    destruct ok; [by apply Hconf|]. wp_step. destruct Hq2. split; [split; [by apply inv_state|done]|].
    right. split; [done|]. exists r1. split; [done|]. right. by exists r2.
Qed.

Lemma run_configured_ok r : quiet r → state_ r = Configured →
  wpf (λ n, run_configured n) (λ _ r', quiet r' ∧ state_ r' = Running) r.
Proof using All.
  intros [Hi Hd] Hs. pose proof tamef_start as [Hm Hstart]. unfold run_configured.
  apply wpf_step; [mono_auto|]. eapply wp_mono; [by apply transition_ok|]. cbv beta. intros [] r1 ->.
  apply wpf_bind; [done|mono_auto|].
  eapply wpf_mono; [apply Hstart; [by apply inv_state|done]|]. cbv beta. intros [] r2 [H2 K2].
  apply wpf_const. eapply wp_mono; [apply transition_ok; [done|by rewrite (kp_state _ _ _ K2)]|].
  cbv beta. intros [] r3 ->. split; [|done]. split; [by apply inv_state|].
  cbn. by rewrite (kp_draining _ _ _ K2).
Qed.

Lemma torn_state s r : torn_down r → torn_down (r <| state_ := s |>).
Proof using All. intros (H & Hrest). split; [by apply inv_state|done]. Qed.

Lemma run_running_ok r : quiet r → state_ r = Running →
  wpf (λ n, run_running n) (λ _ r', torn_down r' ∧ state_ r' = Stopped) r.
Proof using All.
  intros [Hi Hd] Hs. pose proof tamef_run_loop as [Hm Hloop]. pose proof mono_stop as Hm'. unfold run_running.
  apply wpf_step; [mono_auto|]. wp_step. set (r1 := r <| stop_requested := false |>).
  apply wpf_bind; [done|mono_auto|].
  eapply wpf_mono; [apply Hloop; [by apply inv_stop|done]|]. cbv beta. intros [] r2 [H2 K2].
  apply wpf_step; [mono_auto|].
  eapply wp_mono; [apply transition_ok; [done|by rewrite (kp_state _ _ _ K2)]|]. cbv beta. intros [] r3 ->.
  apply wpf_step; [mono_auto|]. wp_step. apply wpf_bind; [apply mono_stop|mono_auto|].
  eapply wpf_mono; [apply stop_ok; [by apply inv_state|done|cbn; by rewrite (kp_draining _ _ _ K2)]|].
  cbv beta. intros [] r4 [H4 E4]. apply wpf_const.
  eapply wp_mono; [apply transition_ok; [done|by rewrite E4]|]. cbv beta. intros [] r5 ->.
  split; [by apply torn_state|done].
Qed.

Lemma run_stopped k path fb r : state_ r = Stopped →
  wpf (λ n, run_states n k path fb) (λ _ r', r' = r) r.
Proof using All.
  intros Hs. apply (wpf_ext _ (λ _, ret tt)); [|by apply wpf_const].
  intros n. destruct k; cbn [run_states]; unfold bind, gets; by rewrite Hs.
Qed.

Lemma run_next k path fb r Q : state_ r ≠ Stopped →
  wpf (λ n, run_state n path fb (state_ r)) (λ _ r', wpf (λ n, run_states n k path fb) Q r') r →
  wpf (λ n, run_states n (S k) path fb) Q r.
Proof using All.
  intros Hs H.
  apply (wpf_ext _ (λ n, run_state n path fb (state_ r) ;; run_states n k path fb)).
  - intros n. cbn [run_states]. unfold bind at 1, gets. by destruct (state_ r).
  - apply wpf_bind; [apply mono_run_state|intros _; apply mono_run_states|exact H].
Qed.

Lemma run_ok path fb r : quiet r → state_ r = Idle →
  wpf (λ n, run n path fb) (λ _ r', state_ r' = Stopped ∧ inv r' ∧
    (torn_down r' ∨ refused path fb r)) r.
Proof using All.
  intros Hq Hs. unfold run. apply run_next; [by rewrite Hs|]. rewrite Hs. cbn [run_state].
  apply wpf_const. eapply wp_mono; [by apply run_idle_ok|]. cbv beta.
  intros [] r1 [Hq1 [Hs1|[Hs1 Href]]].
  - apply run_next; [by rewrite Hs1|]. rewrite Hs1. cbn [run_state].
    eapply wpf_mono; [by apply run_configured_ok|]. cbv beta. intros [] r2 [Hq2 Hs2].
    apply run_next; [by rewrite Hs2|]. rewrite Hs2. cbn [run_state].
    eapply wpf_mono; [by apply run_running_ok|]. cbv beta. intros [] r3 [H3 Hs3].
    eapply wpf_mono; [by apply run_stopped|]. cbv beta. intros [] r4 ->.
    split_and!; [done|apply H3|by left].
  - eapply wpf_mono; [by apply run_stopped|]. cbv beta. intros [] r4 ->.
    split_and!; [done|apply Hq1|by right].
Qed.
End Run.
