(* ===== verification/LifecycleProps.v ===== *)
(** * Properties of the lifecycle

    The claims about the runtime, with a concrete environment for their
    witnesses: two monitors, a module that opens a window, a configuration file
    that loads it, a backend that asks to stop after a number of ticks. *)

From S2P Require Import Prelude Fuel TextStream Geometry Layout Workspace WorkspaceManager MonitorLayout.
From S2P Require Import Events.
From S2P Require Import ManagerInv WindowIndex Commands Core RestartState ConfigValue RuntimeStore Validate.
From S2P Require Import Dispatch EventQueue.
From S2P Require Import Runtime Adopt Lifecycle CoreSafe CoreRun CoreProps LifecycleSafe LifecycleRun.
Local Open Scope Z_scope.

(** ** The concrete environment *)

Record ExWorld := mkExWorld {
  ex_ticks : nat;
  ex_init : bool;
  ex_script : bool;
  ex_startup : StartupSnapshot;
  ex_file : text }.
#[export] Instance eta_ExWorld : Eta ExWorld := λ w,
  mkExWorld (ex_ticks w) (ex_init w) (ex_script w) (ex_startup w) (ex_file w).

Definition ex_modify (f : ExWorld → ExWorld) : M (Runtime ExWorld) unit :=
  modify (λ r, r <| world ::= f |>).

Section ExEnv.
Local Abbreviation R := (Runtime ExWorld).

(** The module "bar" opens its window when it is started, once it is loaded. *)
Definition ex_open (open : M R (option (Z * Z))) : M R unit :=
  r <- gets (λ r : R, r) ;;
  if bool_decide ("bar" ∈ mod_name <$> modules r) then open ;; ret tt else ret tt.
(** One that posts an event of a lower rank. *)
Definition ex_deliver (ev : Event) : M R unit :=
  match ev with RuntimeStarted => post_event RaiseDocks | _ => ret tt end.
Definition ex_pump : M R unit :=
  r <- gets (λ r : R, r) ;;
  match ex_ticks (world r) with
  | O => modify (λ r : R, r <| stop_requested := true |>)
  | S n => ex_modify (λ w, w <| ex_ticks := n |>)
  end.
(** [use], [create_render_window]: the calls a module or a script makes. *)
Definition ex_load : M R unit :=
  modify (λ r : R,
    if started (state_ r) || bool_decide ("bar" ∈ mod_name <$> modules r) then r
    else r <| modules ::= λ l, l ++ [mkModule "bar" false] |>).
Definition ex_register : M R (option (Z * Z)) :=
  modify (λ r : R, r <| module_windows_by_id_ ::= <[77 := 1000]> |>) ;; ret (Some (77, 1000)).

#[export] Instance ex_env : Env ExWorld := {
  be_get_monitors := ret ex_mons;
  be_apply_monitor_layout _ := ret tt;
  be_select_change_events := ret tt;
  be_pump_events _ := ex_pump;
  be_render_frame := ret tt;
  be_on_reload_applied := ret tt;
  be_on_start := ret tt;
  be_shutdown := ret tt;
  be_scan_existing_windows := gets (λ r : R, ex_startup (world r));
  be_create_window _ := None;
  be_event_fd := 5;
  be_new_render_window := ret (Some (77, 1000));
  mod_on_init _ := ret tt;
  mod_on_lua_init _ := ret tt;
  mod_on_start _ := ex_open ex_register;
  mod_on_stop _ _ := post_event RaiseDocks;
  mod_on_reload _ := ret tt;
  mod_destroy name := modify (λ r : R,
    if String.eqb name "bar" then r <| module_windows_by_id_ := ∅ |> else r);
  deliver_module _ ev := ex_deliver ev;
  deliver_receiver _ _ := ret tt;
  hook_should_manage _ _ manage := ret manage;
  hook_window_rules _ _ _ := ret tt;
  lua_init := ex_modify (λ w, w <| ex_init := true |>);
  lua_reset_root_table := ret tt;
  lua_initialized := ex_init;
  lua_prepare := ret tt;
  lua_exec_file _ :=
    ex_load ;; gets (λ r : R, if ex_script (world r) then Some (λ _ : string, LNil) else None);
  lua_check_syntax _ := ret true;
  lua_str_to_number _ := None;
  lua_num_to_str _ := "";
  sys_pipe := ret (Some (3, 4));
  sys_epoll_create := ret true;
  sys_epoll_wait := ret [3];
  sys_waitpid := ret [(100, 0)];
  sys_write_restart_file t := ex_modify (λ w, w <| ex_file := t |>);
  fd_module_callback _ := ret tt }.
End ExEnv.

Definition ex_owner (_ : Z) : string := "bar".
Definition ex_rank (ev : Event) : nat := match ev with RuntimeStarted => 1 | _ => 0 end.

(** A runtime that was constructed, with the settings of [ex_store]. *)
Definition ex_runtime (ticks : nat) (script : bool) : Runtime ExWorld :=
  mkRuntime {["bar"]} new_core ex_store [] false Idle false false false false [] ∅ empty_queue [] [] None
    (mkExWorld ticks false script (mkStartup [] ∅ 0) []).

Lemma ex_apply siren st : (∀ k, siren k = LNil) →
  apply_from_lua (λ _, None) (λ _, "") siren st = Some (true, st).
Proof.
  intros Hs. induction st as [|[k s] st IH]; [done|]. cbn. rewrite Hs.
  case_bool_decide; cbn; by rewrite IH.
Qed.

Local Abbreviation ex_inv := (inv (λ _ : ExWorld, True) ex_owner).
Local Abbreviation ex_keeps := (keeps ex_ticks).

Lemma ex_inv_windows (r : Runtime ExWorld) ws : ex_inv r →
  (∀ win p, ws !! win = Some p → "bar" ∈ names r) → ex_inv (r <| module_windows_by_id_ := ws |>).
Proof. intros [Hc Hw _] Hws. by split. Qed.

Lemma ex_load_ok r : ex_inv r → wp ex_load (λ _ r', ex_inv r' ∧ ex_keeps r r' ∧
  store_ r' = store_ r ∧ core_ r' = core_ r) r.
Proof.
  intros Hr. unfold ex_load. wp_step. destruct (started (state_ r)) eqn:Hs; cbn [orb]; [done|].
  case_bool_decide as Hin; [done|]. destruct Hr as [Hc Hw Hm].
  assert (Hn : names (r <| modules ::= λ l, l ++ [mkModule "bar" false] |>) = names r ++ ["bar"])
    by (unfold names; cbn; by rewrite fmap_app).
  split_and!; [|split; try done|done..].
  - split; [done|done|]. intros win p Hp. rewrite Hn. apply elem_of_app. left. by eapply Hm.
  - rewrite Hn. by eexists.
  - congruence.
Qed.

Lemma ex_pump_ok r : ex_inv r → wp ex_pump (λ _ r', ex_inv r' ∧ ex_keeps r r' ∧
  (stop_requested r' = true ∨ (ex_ticks (world r') < ex_ticks (world r))%nat)) r.
Proof.
  intros [Hc Hw Hm]. unfold ex_pump. do 2 wp_step. destruct (ex_ticks (world r)) as [|n] eqn:E.
  - wp_step. split_and!; [by split|by split|by left].
  - unfold ex_modify. wp_step. split_and!; [by split|split; try done; cbn; lia|right; cbn; lia].
Qed.

Lemma ex_open_ok : tame (λ _, True) ex_ticks ex_owner (ex_open ex_register).
Proof.
  intros r Hr. unfold ex_open, ex_register. do 2 wp_step. case_bool_decide as Hin; [|by apply wp_ret].
  wp_steps. split; [by apply ex_inv_windows|by apply keeps_fields].
Qed.

Lemma ex_deliver_ok ev : delivers_below (λ _, True) ex_ticks ex_owner ex_rank (ex_rank ev) (ex_deliver ev).
Proof.
  destruct ev; cbn [ex_deliver]; try apply delivers_ret. intros r [Hc Hw Hm]. unfold post_event. wp_step.
  split_and!; [by split|by apply keeps_fields|done..|]. exists [RaiseDocks]. split; [done|]. repeat constructor.
Qed.

Lemma ex_tame : Tame (λ _ : ExWorld, True) ex_ticks ex_owner ex_rank.
Proof.
  assert (Hret : ∀ A (a : A), tame (W := ExWorld) (λ _, True) ex_ticks ex_owner (ret a))
    by (intros; apply tame_ret).
  assert (Hd : ∀ n, delivers_below (W := ExWorld) (λ _, True) ex_ticks ex_owner ex_rank n (ret tt)).
  { intros n. by apply delivers_ret. }
  split; cbn -[ex_deliver ex_load ex_pump ex_open ex_register]; intros; try apply Hret; try apply Hd; try done.
  - by apply ex_pump_ok.
  - apply ex_open_ok.
  - apply tame_post.
  - destruct (String.eqb_spec n "bar") as [->|Hne]; (split_and!; [|by apply keeps_fields|]).
    + by apply ex_inv_windows.
    + intros win p. cbn. by rewrite lookup_empty.
    + done.
    + done.
  - apply ex_deliver_ok.
  - apply tame_modify. intros r [Hc Hw Hm]. split; by split.
  - wp_step. eapply wp_mono; [by apply ex_load_ok|]. cbv beta. intros [] r' (H1 & K1 & Es & _). wp_step.
    split_and!; [done..|]. intros siren. destruct (ex_script _); [|done]. intros [= <-].
    rewrite ex_apply by done. by eexists.
Qed.

(** ** The lifecycle *)


Lemma ex_runtime_quiet ticks script : quiet (λ _ : ExWorld, True) ex_owner (ex_runtime ticks script).
Proof.
  split; [split|done]; [|done|].
  - apply (configured_ok None default_settings). done.
  - intros win p. cbn. by rewrite lookup_empty.
Qed.


(** ** The event queue *)

(** C10: draining refines the delivery by generations.  For receivers that post
    events without looking at what is queued, and only events of a lower rank than
    the one that is delivered (so that no chain of deliveries comes back to an
    event: a handler that posts its own event again keeps the loop going for ever),
    [drain] terminates, leaves the queue empty and ready for the next drain, and its
    effect is that of delivering what is queued in order, then what these deliveries
    posted in the order they posted it, and so on: no event is lost, delivered twice
    or overtaken. *)
Theorem drain_refines_generations {E S} (queue : S → EventQueue E) set_queue
    `{!QueueLens queue set_queue} (I : S → Prop) (rank : E → nat) (broadcast : E → M S unit) r s :
  Receiver queue set_queue I rank broadcast → I s → draining_ (queue s) = false →
  Forall (λ e, (rank e < r)%nat) (q_ (queue s)) →
  let set_draining b s := set_queue ((queue s) <| draining_ := b |>) s in
  ∃ fuel s', generations queue set_queue (Datatypes.S r) broadcast (set_draining true s) = Some (tt, s') ∧
    q_ (queue s') = [] ∧
    drain queue set_queue fuel broadcast s = Some (tt, set_draining false s').
Proof.
  intros Hrec Hs Hd Hr set_draining.
  destruct (generations_end queue set_queue I rank broadcast r (set_draining true s))
    as (s' & Eg & HI & Hq & _).
  { by apply (@ignores_queue _ _ _ _ _ _ _ Hrec). }
  { unfold set_draining. by rewrite get_set. }
  assert (I (set_draining true s)) as Hs' by by apply (@ignores_queue _ _ _ _ _ _ _ Hrec).
  destruct (drain_by_generations queue set_queue I rank broadcast _ _ _ Hs' Eg) as [fuel Ef].
  exists fuel, s'. split_and!; [done..|].
  unfold drain, bind, check, modify. rewrite Hd. cbn [negb].
  change (set_queue _ s) with (set_draining true s). by rewrite Ef.
Qed.

(** The runtime of the example, with its module "bar" and the bus as [drain_events]
    uses it: [RuntimeStarted] posts [RaiseDocks], the other events post nothing. *)
Definition ex_loaded (r : Runtime ExWorld) : Prop :=
  (∃ b, modules r = [mkModule "bar" b]) ∧ extra_receivers_ r = [].
Lemma ex_broadcast ev r : ex_loaded r → broadcast ev r = ex_deliver ev r.
Proof.
  intros [[b Hm] Hx]. unfold broadcast, for_range, bind, gets, check. rewrite Hm.
  assert (mod_name <$> modules r = ["bar"]) as Hn by by rewrite Hm.
  destruct ev; cbn; unfold post_event, modify, ret, bind; cbn;
    by rewrite (bool_decide_eq_true_2 (_ = ["bar"])) by exact Hn; cbn; rewrite ?Hx.
Qed.
Local Abbreviation ex_set_queue := (λ q (r : Runtime ExWorld), r <| event_queue_ := q |>).
Lemma ex_receiver : Receiver event_queue_ ex_set_queue ex_loaded ex_rank broadcast.
Proof.
  split; [| |done].
  - intros ev r Hr. rewrite ex_broadcast by done.
    destruct ev; try (exists r, []; rewrite app_nil_r; by split_and!).
    eexists _, [RaiseDocks]. split_and!; [reflexivity|done|done|done|]. repeat constructor.
  - intros ev l r r' Hr. rewrite !ex_broadcast by done.
    destruct ev; try (by intros [= <-]). intros [= <-]. unfold ahead, push. cbn. unfold post_event, modify. cbn.
    unfold push. cbn. by rewrite app_assoc.
Qed.
Definition ex_queued : Runtime ExWorld :=
  (ex_runtime 3 true) <| modules := [mkModule "bar" true] |> <| event_queue_ := mkEventQueue [RuntimeStarted; FocusChanged 7] false |>.
Lemma ex_queued_drained : q_ (event_queue_ ex_queued) = [RuntimeStarted; FocusChanged 7] ∧
  ∃ r', drain_events 5 ex_queued = Some (tt, r') ∧ q_ (event_queue_ r') = [].
Proof. split; [done|]. by eexists. Qed.

Lemma drain_refines_generations_witness :
  let set_draining b (r : Runtime ExWorld) := r <| event_queue_ := (event_queue_ r) <| draining_ := b |> |> in
  ∃ fuel r', generations event_queue_ ex_set_queue 3 broadcast (set_draining true ex_queued) = Some (tt, r') ∧
    q_ (event_queue_ r') = [] ∧ drain_events fuel ex_queued = Some (tt, set_draining false r').
Proof.
  apply (drain_refines_generations event_queue_ ex_set_queue ex_loaded ex_rank broadcast 2 ex_queued);
    [exact ex_receiver|by split; [eexists|]|reflexivity|]. repeat constructor.
Defined.

(** ** Reload *)

Section Writes.
Context {W : Type} `{!Env W}.
Local Abbreviation R := (Runtime W).

Definition writes (r r' : R) : Prop := written (store_ r) (store_ r').
#[export] Instance writes_preorder : PreOrder writes.
Proof.
  unfold writes. split; [intros r; reflexivity|]. intros r1 r2 r3 H1 H2. by etrans.
Qed.

(** What a reload runs in Lua writes settings, and registers none; checking the
    syntax of a file has no effect. *)
Class LuaWrites : Prop := {
  lw_syntax p r : ∃ b, lua_check_syntax p r = Some (b, r);
  lw_init : preserves writes lua_init;
  lw_reset : preserves writes lua_reset_root_table;
  lw_module n : preserves writes (mod_on_lua_init n);
  lw_prepare : preserves writes lua_prepare;
  lw_exec p : preserves writes (lua_exec_file p) }.
Context `{!LuaWrites}.

Lemma writes_modify (f : R → R) : (∀ r, store_ (f r) = store_ r) → preserves writes (modify f).
Proof using Type.
  intros Hf. apply preserves_modify; [apply _|]. intros r. unfold writes. rewrite Hf. reflexivity.
Qed.

Lemma writes_lua_init_once i : preserves writes (lua_init_once i).
Proof using All.
  apply preserves_bind; [apply _|apply preserves_checked; apply _|]. intros m.
  apply preserves_if; [apply _|apply preserves_ret; apply _|].
  apply preserves_bind; [apply _|by apply writes_modify|]. intros _. apply lw_module.
Qed.

Lemma load_writes path reset : preserves writes (load path reset).
Proof using All.
  unfold load. apply preserves_bind; [apply _|by apply writes_modify|]. intros _.
  apply preserves_bind; [apply _|apply preserves_gets; apply _|]. intros ini.
  apply preserves_bind; [apply _|apply preserves_if; [apply _|apply lw_init|apply lw_reset]|]. intros _.
  apply preserves_bind; [apply _|by apply writes_modify|]. intros _.
  apply preserves_bind; [apply _| |intros _].
  { apply preserves_bind; [apply _|apply preserves_gets; apply _|]. intros n.
    apply preserves_for_each; [apply _|]. apply writes_lua_init_once. }
  apply preserves_bind; [apply _|apply lw_prepare|]. intros _.
  apply preserves_bind; [apply _|apply lw_exec|]. intros [siren|]; [|apply preserves_ret; apply _].
  intros r b r'. unfold bind, checked, modify, ret.
  destruct (apply_from_lua _ _ siren (store_ r)) as [[ok st]|] eqn:E; [|done].
  intros [= _ <-]. unfold writes. cbn. by eapply written_apply.
Qed.
End Writes.

(** C9: a reload that fails, for a syntax error, an error of the configuration
    file or settings that do not validate, leaves the settings as they were,
    value by value and with no transaction open, and restores what the core
    saves of its configuration: its settings, key bindings, layout parameters and
    the name of the active layout. *)
Theorem failed_reload_restores {W} `{!Env W} (r r' : Runtime W) :
  LuaWrites (W := W) → idle (store_ r) →
  reload_runtime_config r = Some (false, r') →
  store_ r' = store_ r ∧ snapshot_reload_state (core_ r') = snapshot_reload_state (core_ r).
Proof.
  intros Hlua Hidle. unfold reload_runtime_config, bind at 1, gets at 1.
  destruct (String.eqb _ ""); [by intros [= <-]|].
  destruct (lw_syntax (config_path (core_ r)) r) as [b Hb]. unfold bind at 1. rewrite Hb.
  destruct b; cbn [negb]; [|by intros [= <-]].
  set (backup := snapshot_reload_state (core_ r)).
  unfold bind at 1, set_store at 1, modify at 1. unfold bind at 1, gets at 1. cbn [core_ upd].
  unfold bind at 1, set_store at 1, modify at 1. unfold bind at 1, set_core at 1, modify at 1.
  set (r1 := _ <| core_ ::= clear_reloadable_runtime_state |>).
  assert (H1 : written (snapshot_all (store_ r)) (store_ r1)) by apply written_clear.
  (** what the restoration leaves, whatever was written *)
  assert (Hrestore : ∀ r2, written (store_ r1) (store_ r2) →
    (restore_snapshot backup ;; ret false) r2 = Some (false, r') →
    store_ r' = store_ r ∧ snapshot_reload_state (core_ r') = backup).
  { intros r2 H2 [= <-]. cbn. split; [|reflexivity].
    rewrite (rollback_all_written (store_ r)); [by apply commit_idle|]. by etrans. }
  unfold bind at 1. destruct (load _ _ r1) as [[ok r2]|] eqn:E2; [|done].
  pose proof (load_writes _ _ _ _ _ E2) as H2. destruct ok; cbn [negb]; [|by apply Hrestore].
  unfold bind at 1, checked. destruct (validate_settings (store_ r2)) as [errs|]; [|done].
  case_bool_decide; [by apply Hrestore|].
  unfold bind at 1, set_store, modify. unfold bind at 1, gets. unfold bind at 1.
  destruct (on_core _ _) as [[[] r3]|]; [|done]. unfold bind at 1.
  by destruct (reload r3) as [[[] r4]|].
Qed.

Lemma ex_lua_writes : LuaWrites (W := ExWorld).
Proof.
  assert (Hret : ∀ A (a : A), preserves (writes (W := ExWorld)) (ret a))
    by (intros; apply preserves_ret; apply _).
  split; cbn; intros; try apply Hret.
  - by eexists.
  - by apply writes_modify.
  - apply preserves_bind; [apply _| |intros; apply preserves_gets; apply _].
    apply writes_modify. intros r. by destruct (_ || _).
Qed.

(** A runtime in use: it runs the Lua layout "spiral" and has a key binding; its
    configuration file has become one that fails. *)
Definition ex_spiral : Runtime ExWorld :=
  (ex_runtime 3 false) <| core_ ::= λ c,
    register_keybinding 64 113 5 (register_lua_layout "spiral" run_tile
      (c <| config_path := "init.lua" |> <| active_layout := "spiral" |>)) |>.
Definition ex_reloaded : Runtime ExWorld :=
  match reload_runtime_config ex_spiral with Some (_, r) => r | None => ex_spiral end.

Lemma failed_reload_restores_witness :
  reload_runtime_config ex_spiral = Some (false, ex_reloaded) ∧
  store_ ex_reloaded = store_ ex_spiral ∧
  snapshot_reload_state (core_ ex_reloaded) = snapshot_reload_state (core_ ex_spiral).
Proof.
  assert (E : reload_runtime_config ex_spiral = Some (false, ex_reloaded)).
  { assert (H : fst <$> reload_runtime_config ex_spiral = Some false) by (by vm_compute).
    unfold ex_reloaded. destruct (reload_runtime_config ex_spiral) as [[b r]|]; [|done].
    injection H as ->. done. }
  split; [exact E|]. apply failed_reload_restores; [exact ex_lua_writes| |exact E].
  by repeat constructor.
Defined.

(** A reload that fails does not give back the layouts registered from Lua:
    they are cleared before the file runs and are not part of what is saved, so
    the active layout keeps a name that no longer has a function. *)
Theorem failed_reload_loses_layouts :
  active_layout (core_ ex_reloaded) = "spiral" ∧
  is_Some (lua_layouts (core_ ex_spiral) !! "spiral") ∧
  lua_layouts (core_ ex_reloaded) !! "spiral" = None ∧
  layouts (core_ ex_reloaded) !! "spiral" = None.
Proof. split_and!; [by vm_compute|by eexists|by vm_compute|by vm_compute]. Qed.

(** ** Exec restart *)

(** C12: what [save_restart_state] writes, [load_restart_state] reads back: the
    active workspace of every monitor, and for exactly the windows the core
    manages on a workspace (but for the self-managed borderless ones) their
    workspace and their floating, fullscreen, hidden and borderless flags. *)
Theorem restart_round_trip c :
  file_ok c →
  let r := load_restart_state (Some (save_restart_state c)) in
  rs_had_file r = true ∧
  (∀ i, rs_monitor_active_ws r !! i = mon_active_ws <$> vget (monitors (wsman c)) i) ∧
  ∀ win, rs_windows r !! win =
    if decide (win ∈ all_window_ids c) then saved_state c win else None.
Proof. apply restart_read_back. Qed.

Lemma ex_core_file_ok : file_ok ex_core.
Proof.
  split_and!.
  - intros win Hin.
    assert (H : forallb (λ w, (0 <=? w) && (w <? 4294967296)) (all_window_ids ex_core) = true) by (by vm_compute).
    rewrite forallb_forall in H. apply list_elem_of_In, H in Hin. unfold in_u32_range. lia.
  - intros i m Hm.
    assert (H : forallb (λ m, (-1 <=? mon_active_ws m) && (mon_active_ws m <? 3)) (monitors (wsman ex_core)) = true)
      by (by vm_compute).
    rewrite forallb_forall in H. pose proof (list_elem_of_lookup_2 _ _ _ Hm) as Hin.
    apply list_elem_of_In, H in Hin. apply lookup_lt_Some in Hm.
    assert (Hl : length (monitors (wsman ex_core)) = 2%nat) by (by vm_compute). unfold in_i32. lia.
  - intros win. unfold workspace_of_window, in_i32. destruct (win =? NO_WINDOW); [done|].
    destruct (_ !! win) as [ws|]; [|done]. destruct (is_ws_valid _ ws) eqn:E; [|done].
    apply is_ws_valid_spec in E. change (vsize (workspaces (wsman ex_core))) with 3 in E. lia.
Qed.

Lemma restart_round_trip_witness :
  let r := load_restart_state (Some (save_restart_state ex_core)) in
  rs_had_file r = true ∧
  (∀ i, rs_monitor_active_ws r !! i = mon_active_ws <$> vget (monitors (wsman ex_core)) i) ∧
  ∀ win, rs_windows r !! win =
    if decide (win ∈ all_window_ids ex_core) then saved_state ex_core win else None.
Proof. exact (restart_round_trip ex_core ex_core_file_ok). Defined.
