(* ===== verification/AdoptProps.v ===== *)
(** * Adopted windows are where the restart file says

    What the commands of [adopt_existing_windows] do to the tables of windows,
    and the claim about the whole adoption. *)

From S2P Require Import Prelude Geometry Layout Workspace WorkspaceManager WindowIndex ManagerInv Pools.
From S2P Require Import ManagerOps Events Commands Core Dispatch CoreSafe CoreRun CoreFrame.
From S2P Require Import CoreFocus.
From S2P Require Import CoreCommands CoreProps RestartState ConfigValue RuntimeStore.
From S2P Require Import EventQueue Runtime Adopt Lifecycle LifecycleSafe LifecycleProps.
Local Open Scope Z_scope.

(** ** Commands that move no window *)

Lemma assign_window_tables win f : preserves core_tables (assign_window win f).
Proof. unfold assign_window, with_window, find_win. tables_auto. Qed.
#[export] Hint Resolve assign_window_tables : tables.

Lemma mark_dirty_tables win bits : preserves core_tables (mark_window_dirty win bits).
Proof. unfold mark_window_dirty. tables_auto. Qed.
Lemma set_window_tables p f : preserves core_tables (set_window p f).
Proof. apply on_wsman_tables, modify_window_tables. Qed.
#[export] Hint Resolve mark_dirty_tables set_window_tables : tables.

Lemma focus_command_tables w : preserves core_tables (dispatch_FocusWindow w).
Proof. unfold dispatch_FocusWindow, find_win. tables_auto. Qed.

Lemma hide_tables w : preserves core_tables (dispatch_HideWindow w).
Proof. unfold dispatch_HideWindow, with_window, find_win. tables_auto. Qed.

Lemma fullscreen_tables w b g : preserves core_tables (dispatch_SetWindowFullscreen w b g).
Proof.
  unfold dispatch_SetWindowFullscreen, with_window, find_win, enable_fullscreen, disable_fullscreen.
  tables_auto.
Qed.

Lemma borderless_tables w b : preserves core_tables (dispatch_SetWindowBorderless w b).
Proof. unfold dispatch_SetWindowBorderless, with_window, find_win. tables_auto. Qed.

Lemma geometry_tables w p s : preserves core_tables (dispatch_SetWindowGeometry w p s).
Proof. eapply frames_tables, frames_set_geometry. Qed.

Lemma metadata_tables md : md_transient_for md = NO_WINDOW → preserves core_tables (dispatch_SetWindowMetadata md).
Proof.
  intros Ht. unfold dispatch_SetWindowMetadata, with_window, find_win. rewrite Ht.
  change (negb (NO_WINDOW =? NO_WINDOW)) with false.
  unfold dispatch_SetWindowFloating. tables_auto.
Qed.

Lemma put_owner_tables ws m : preserves same_tables (put_ws_owner ws m).
Proof. apply preserves_try_modify; [exact _|]. intros s s'. by destruct (vset _ _ _); intros [= <-]. Qed.
Lemma put_pool_tables m p : preserves same_tables (put_pool m p).
Proof. apply preserves_try_modify; [exact _|]. intros s s'. by destruct (vset _ _ _); intros [= <-]. Qed.
#[export] Hint Resolve put_owner_tables put_pool_tables : tables.

Lemma switch_to_tables w al h cp : preserves same_tables (switch_to w al h cp).
Proof. unfold switch_to. tables_auto. Qed.
#[export] Hint Resolve switch_to_tables : tables.

Lemma switch_tables ws mon : preserves core_tables (dispatch_SwitchWorkspace ws mon).
Proof. unfold dispatch_SwitchWorkspace. tables_auto. Qed.

(** The commands of adoption but [EnsureWindow] and [AssignWindowWorkspace]. *)
Definition stays_put (cmd : CommandAtom) : Prop :=
  match cmd with
  | SetWindowMetadata md => md_transient_for md = NO_WINDOW
  | SetWindowMapped _ _ | SetWindowHiddenByWorkspace _ _ | SetWindowFloating _ _
  | SetWindowFullscreen _ _ _ | SetWindowBorderless _ _ | FocusWindow _ | HideWindow _
  | SetWindowGeometry _ _ _ | SwitchWorkspace _ _ | ReconcileNow => True
  | _ => False
  end.

Lemma stays_put_tables cmd : stays_put cmd → preserves core_tables (dispatch_atom cmd).
Proof.
  destruct cmd; cbn [stays_put dispatch_atom]; try done; intros H.
  - apply focus_command_tables.
  - apply switch_tables.
  - apply fullscreen_tables.
  - by apply metadata_tables.
  - apply assign_window_tables.
  - apply assign_window_tables.
  - apply assign_window_tables.
  - apply borderless_tables.
  - apply hide_tables.
  - apply reconcile_tables.
  - apply geometry_tables.
Qed.

(** ** [EnsureWindow] and [AssignWindowWorkspace] *)

(** The factory of windows, the default or one that is set, makes every window. *)
Definition factory_total (s : wm) : Prop :=
  ∀ f win, window_factory s = Some f → is_Some (f win).

Definition known (win : Z) (s : wm) : Prop := is_Some (window_index s !! win).

(** [s'] differs from [s] in the placement of [win] only. *)
Record placed_only (win : Z) (s s' : wm) : Prop := {
  po_known o : o ≠ win → known o s → known o s';
  po_ws o : o ≠ win → workspace_of_window s' o = workspace_of_window s o;
  po_len : length (workspaces s') = length (workspaces s);
  po_factory : window_factory s' = window_factory s }.
#[export] Instance placed_only_preorder win : PreOrder (placed_only win).
Proof.
  split; [by split|]. intros s1 s2 s3 [] []. split; try congruence; auto.
  intros o Ho. rewrite po_ws1 by done. auto.
Qed.

Lemma tables_placed win s s' : same_tables s s' → placed_only win s s'.
Proof.
  intros H. pose proof H as (Hi & _ & Hl & Hf). split; [|by intros; apply tables_workspace_of|done..].
  intros o _. unfold known. by rewrite Hi.
Qed.

Lemma moved_placed win ws s s' : window_moved win ws s s' → window_frame s s' → placed_only win s s'.
Proof.
  intros (_ & Ho & Hi) Hf. split; [|done|apply Hf|apply Hf]. intros o _. unfold known. by rewrite Hi.
Qed.

Lemma move_placed s win ws p :
  wm_windows_ok s → window_index s !! win = Some p → is_ws_valid s ws = true →
  wp (move_window_to ws p) (λ _ s', placed_only win s s' ∧ known win s' ∧ workspace_of_window s' win = ws) s.
Proof.
  intros Hok Hix Hv. destruct (wok_ix _ _ _ _ _ Hok _ _ Hix) as (w & _ & _ & Hw & Hid & _).
  eapply wp_mono; [apply wp_and; [by apply move_moves|apply (move_window_to_spec s ws p w Hok Hw)]|].
  - by rewrite Hid.
  - done.
  - cbv beta. intros [] s' [Hm (_ & Hf & _)]. split_and!; [by eapply moved_placed| |apply Hm].
    destruct Hm as (_ & _ & Hi). unfold known. rewrite Hi. by eexists.
Qed.

Lemma workspace_of_frame s s' o :
  window_workspace s' !! o = window_workspace s !! o → length (workspaces s') = length (workspaces s) →
  workspace_of_window s' o = workspace_of_window s o.
Proof. intros Hw Hl. unfold workspace_of_window, is_ws_valid, vsize. by rewrite Hw, Hl. Qed.

Lemma create_made win ws s r s' :
  factory_total s → create_window win ws s = Some (r, s') → is_Some r.
Proof.
  intros Hfac. unfold create_window, bind at 1, gets.
  assert (is_Some (match window_factory s with Some f => f win | None => Some (new_window win) end))
    as [w ->].
  { unfold factory_total in Hfac. destruct (window_factory s); [by apply Hfac|by eexists]. }
  unfold bind. destruct (alloc w s) as [[p s1]|]; [|done].
  destruct (add_window p ws s1) as [[[] s2]|]; [|done]. intros [= <- _]. by eexists.
Qed.

Lemma ensure_placed win ws c :
  core_ok c → win ≠ NO_WINDOW → workspaces (wsman c) ≠ [] → factory_total (wsman c) →
  wp (dispatch_EnsureWindow win ws) (λ _ c', placed_only win (wsman c) (wsman c') ∧ known win (wsman c')) c.
Proof.
  intros Hc Hwin Hws Hfac. pose proof (co_wm _ Hc) as Hok. unfold dispatch_EnsureWindow, find_win.
  rewrite (proj2 (Z.eqb_neq _ _) Hwin). do 2 wp_step.
  destruct (find_window_in_all (wsman c) win) as [p|] eqn:Hix.
  - do 3 wp_step. eapply wp_mono with (Q := λ _ c', placed_only win (wsman c) (wsman c') ∧ known win (wsman c')).
    + wp_step; [|by wp_step; split; [|exists p]]. apply wp_zoom.
      eapply wp_mono; [apply (move_placed _ win); [apply Hok|done|apply is_ws_valid_spec]|].
      * unfold workspace_count in *. lia.
      * by cbv beta; intros [] s' (? & ? & _).
    + cbv beta. intros [] c' H. by wp_step.
  - wp_step. apply wp_zoom.
    pose proof (create_window_spec _ win ws Hok Hwin Hws) as H.
    apply wp_some in H as (r & s' & E & _ & Hf & _ & H). apply wp_some. exists r, s'. split; [done|].
    destruct (create_made _ _ _ _ _ Hfac E) as [p ->]. destruct H as (t & _ & _ & Hwo & Hi).
    specialize (Hi Hix). wp_step. change (wsman (c <| wsman := s' |>)) with s'. split.
    + split; [| |apply Hf|apply Hf].
      * intros o Ho. unfold known. rewrite Hi. by rewrite lookup_insert_ne.
      * intros o Ho. apply workspace_of_frame; [|apply Hf]. rewrite Hwo. by apply lookup_insert_ne.
    + unfold known. rewrite Hi, lookup_insert_eq. by eexists.
Qed.

Lemma assign_placed win ws c :
  core_ok c → known win (wsman c) → 0 ≤ ws < workspace_count c →
  wp (dispatch_AssignWindowWorkspace win ws) (λ _ c', placed_only win (wsman c) (wsman c') ∧
    known win (wsman c') ∧ workspace_of_window (wsman c') win = ws) c.
Proof.
  intros Hc [p Hix] Hws. unfold dispatch_AssignWindowWorkspace, with_window, find_win. do 2 wp_step.
  unfold find_window_in_all. rewrite Hix. wp_step. apply wp_zoom.
  eapply wp_mono; [apply (move_placed _ win); [apply Hc|done|by apply is_ws_valid_spec]|].
  cbv beta. intros [] s' H. unfold post. do 3 wp_step. exact H.
Qed.

(** ** Adoption *)

Section Adoption.
Context {W : Type} `{!Env W}.
Local Abbreviation R := (Runtime W).
Implicit Types r : R.

(** Subscribers of the hooks that refuse no window and apply no rule to one. *)
Class QuietHooks : Prop := {
  quiet_manage p win b r : ∃ r', hook_should_manage p win b r = Some (b, r') ∧ core_ r' = core_ r;
  quiet_rules p win b r : ∃ r', hook_window_rules p win b r = Some (tt, r') ∧ core_ r' = core_ r }.

(** The core is in its invariant, has a workspace, and can make windows. *)
Record adopting (n : Z) r : Prop := {
  ad_core : core_ok (core_ r);
  ad_count : workspace_count (core_ r) = n;
  ad_factory : factory_total (wsman (core_ r)) }.

Local Abbreviation man r := (wsman (core_ r)).

Lemma adopting_next n win r c' (r' : R) :
  adopting n r → core_ok c' → core_ok (core_ r') → wsman (core_ r') = wsman c' →
  placed_only win (man r) (wsman c') → adopting n r'.
Proof.
  intros [Hc Hn Hf] _ Hc' E [_ _ Hl Hf']. split; [done| |].
  - unfold workspace_count, vsize in *. by rewrite E, Hl.
  - unfold factory_total in *. by rewrite E, Hf'.
Qed.

(** A command, through the runtime. *)
Lemma dispatch_wp cmd n win r (P : wm → Prop) :
  adopting n r → atom_ok cmd →
  wp (dispatch_atom cmd) (λ _ c', placed_only win (man r) (wsman c') ∧ P (wsman c')) (core_ r) →
  wp (dispatch_ cmd) (λ _ r', adopting n r' ∧ placed_only win (man r) (man r') ∧ P (man r')) r.
Proof.
  intros Had Hcmd H. pose proof (safe_dispatch_atom cmd Hcmd (core_ r) (ad_core _ _ Had) I) as Hs.
  pose proof (wp_and _ _ _ _ H Hs) as H'. apply wp_some in H' as (b & c' & E & [Hp HP] & Hc' & _).
  unfold wp, dispatch_, on_core, bind, zoom, modify, ret. rewrite E.
  assert (Ew : man (flush_sink (r <| core_ := c' |>)) = wsman c')
    by (unfold flush_sink; by destruct (event_sink _)).
  rewrite Ew. split_and!; [|done..]. eapply adopting_next; [done|exact Hc'| |exact Ew|done].
  unfold flush_sink. cbn. destruct (event_sink c'); [|done]. destruct Hc'. by constructor.
Qed.

Lemma stay_wp cmd n win r :
  adopting n r → stays_put cmd →
  wp (dispatch_ cmd) (λ _ r', adopting n r' ∧ placed_only win (man r) (man r') ∧ same_tables (man r) (man r')) r.
Proof.
  intros Had Hcmd. assert (Hok : atom_ok cmd) by (by destruct cmd).
  apply (dispatch_wp cmd n win r (same_tables (man r))); [done|done|].
  pose proof (safe_dispatch_atom cmd Hok (core_ r) (ad_core _ _ Had) I) as Hs.
  apply wp_some in Hs as (b & c' & E & _). apply wp_some. exists b, c'. split; [done|].
  pose proof (stays_put_tables cmd Hcmd _ _ _ E) as Ht. split; [by apply tables_placed|done].
Qed.

Lemma stay_all cmds n win r :
  adopting n r → Forall stays_put cmds →
  wp (for_each cmds dispatch_)
    (λ _ r', adopting n r' ∧ placed_only win (man r) (man r') ∧ same_tables (man r) (man r')) r.
Proof.
  intros Had Hcmds. rewrite Forall_forall in Hcmds.
  apply (wp_for_each _ _ (λ r', adopting n r' ∧ placed_only win (man r) (man r') ∧
    same_tables (man r) (man r'))); [|by split_and!].
  intros cmd r1 Hin (H1 & P1 & T1). eapply wp_mono; [apply (stay_wp _ n win); [done|by apply Hcmds]|].
  cbv beta. intros [] r2 (H2 & P2 & T2). split_and!; [done|by etrans|by etrans].
Qed.

(** Where an adopted window is. *)
Definition at_ws (win ws : Z) (s : wm) : Prop := known win s ∧ workspace_of_window s win = ws.

Lemma tables_at win ws s s' : same_tables s s' → at_ws win ws s → at_ws win ws s'.
Proof.
  intros Ht [Hk Hw]. split; [|by rewrite (tables_workspace_of _ _ _ Ht)].
  destruct Ht as (Hi & _). unfold known. by rewrite Hi.
Qed.
Lemma placed_at win o ws s s' : placed_only win s s' → o ≠ win → at_ws o ws s → at_ws o ws s'.
Proof. intros [Hk Hw _ _] Ho [H1 H2]. split; [by apply Hk|]. by rewrite Hw. Qed.

Definition restores (n : Z) (snap : ExistingWindowSnapshot) : Prop :=
  sn_from_restart snap = true ∧ sn_window snap ≠ NO_WINDOW ∧ 0 ≤ sn_restart_workspace_id snap < n.

Lemma hooks_manage `{!QuietHooks} ps win r :
  wp (invoke_should_manage ps win true) (λ b r', b = true ∧ core_ r' = core_ r) r.
Proof.
  revert r. induction ps as [|p ps IH]; intros r; [done|]. cbn [invoke_should_manage].
  destruct (quiet_manage p win true r) as (r' & E & Hc). unfold wp, bind. rewrite E.
  eapply wp_mono; [apply IH|]. cbv beta. intros b r2 [-> H2]. split; [done|congruence].
Qed.

Lemma hooks_rules `{!QuietHooks} win b r :
  wp (window_rules win b) (λ _ r', core_ r' = core_ r) r.
Proof.
  unfold window_rules. do 2 wp_step. apply (wp_for_each _ _ (λ r', core_ r' = core_ r)); [|done].
  intros p r1 _ H1. destruct (quiet_rules p win b r1) as (r' & E & Hc). unfold wp. rewrite E. congruence.
Qed.

Lemma adopting_core n r r' : core_ r' = core_ r → adopting n r → adopting n r'.
Proof. intros E [H1 H2 H3]. split; by rewrite E. Qed.

Lemma adopt_window_spec `{!QuietHooks} snap n r :
  adopting n r → 0 < n →
  wp (adopt_window snap) (λ b r', adopting n r' ∧
    placed_only (sn_window snap) (man r) (man r') ∧
    (restores n snap → b = true ∧ at_ws (sn_window snap) (sn_restart_workspace_id snap) (man r'))) r.
Proof.
  intros Had Hn. set (win := sn_window snap). unfold adopt_window.
  destruct (adoptable snap) eqn:Ha; cbn [negb].
  2: { wp_step. split_and!; [done..|]. intros (Hr & Hw & _). unfold adoptable in Ha.
       rewrite Hr, (proj2 (Z.eqb_neq _ _) Hw) in Ha. done. }
  assert (Hwin : win ≠ NO_WINDOW).
  { unfold adoptable in Ha. apply andb_prop in Ha as [Ha _]. unfold win. lia. }
  unfold should_manage. do 3 wp_step. eapply wp_mono; [apply hooks_manage|]. cbv beta.
  intros b r1 [-> E1]. cbn [negb]. pose proof (adopting_core _ _ _ E1 Had) as H1. rewrite <- E1. clear Had.
  wp_step. cbn [adopt_commands for_each]. fold win.
  (** the window is made, or moved *)
  wp_step. eapply wp_mono; [apply (dispatch_wp _ n win r1 (known win)); [done|done|]|].
  { apply ensure_placed; [apply H1|done| |apply H1]. pose proof (ad_count _ _ H1) as Hcnt.
    unfold workspace_count in Hcnt. intros Hnil. rewrite Hnil in Hcnt.
    unfold vsize in Hcnt. cbn in Hcnt. lia. }
  cbv beta. intros [] r2 (H2 & P2 & K2).
  eapply wp_mono; [apply (stay_all [SetWindowMetadata (snap_metadata snap);
    SetWindowMapped win (sn_currently_viewable snap); SetWindowHiddenByWorkspace win true] n win);
    [done|by repeat constructor]|].
  cbv beta. intros [] r3 (H3 & P3 & T3). do 2 wp_step. rewrite (ad_count _ _ H3).
  assert (K3 : known win (man r3)) by (destruct T3 as (Hi & _); unfold known; by rewrite Hi).
  assert (P13 : placed_only win (man r1) (man r3)) by (by etrans).
  (** the state of the restart file *)
  wp_step. eapply (wp_mono _ (λ _ r', adopting n r' ∧ placed_only win (man r1) (man r') ∧
    (restores n snap → at_ws win (sn_restart_workspace_id snap) (man r')))).
  { destruct (sn_from_restart snap) eqn:Hr; [|apply wp_ret; split_and!; [done..|]].
    2: { intros (Hr' & _). congruence. }
    unfold restore_commands. fold win.
    assert (Hrest : Forall stays_put ([SetWindowFloating win (sn_restart_floating snap)] ++
      (if sn_restart_fullscreen snap then [SetWindowFullscreen win true false] else []) ++
      (if sn_restart_borderless snap then [SetWindowBorderless win true; FocusWindow win] else []) ++
      (if sn_restart_hidden_explicitly snap then [HideWindow win] else []))).
    { repeat case_match; by repeat constructor. }
    match type of Hrest with Forall _ ?l => generalize dependent l; intros rest Hrest end.
    destruct ((0 <=? sn_restart_workspace_id snap) && (sn_restart_workspace_id snap <? n)) eqn:Hws.
    - apply andb_prop in Hws as [Hws1 Hws2]. cbn [app for_each]. wp_step.
      eapply wp_mono; [apply (dispatch_wp _ n win r3 (λ s, known win s ∧
        workspace_of_window s win = sn_restart_workspace_id snap)); [done|done|]|].
      { apply assign_placed; [apply H3|done|rewrite (ad_count _ _ H3); lia]. }
      cbv beta. intros [] r4 (H4 & P4 & A4).
      eapply wp_mono; [apply (stay_all _ n win); [done|exact Hrest]|]. cbv beta.
      intros [] r5 (H5 & P5 & T5). split_and!; [done|by etrans; [|etrans]|].
      intros _. by eapply tables_at.
    - eapply wp_mono; [apply (stay_all _ n win); [done|exact Hrest]|]. cbv beta.
      intros [] r5 (H5 & P5 & T5). split_and!; [done|by etrans|].
      intros (_ & _ & Hws'). apply andb_false_iff in Hws. lia. }
  cbv beta. intros [] r4 (H4 & P4 & A4). wp_step.
  eapply wp_mono; [apply (stay_all _ n win); [done|]|].
  { unfold geometry_commands. destruct (sn_geometry snap) as [[]|]; repeat constructor. }
  cbv beta. intros [] r5 (H5 & P5 & T5). wp_step.
  eapply wp_mono; [apply hooks_rules|]. cbv beta. intros [] r6 E6. unfold post_event. do 5 wp_step.
  cbn [core_ upd]. rewrite E6. split_and!; [|by etrans|].
  - eapply adopting_core; [|exact H5]. done.
  - intros Hres. split; [done|]. eapply tables_at; [exact T5|by apply A4].
Qed.

(** A state of the adoption that keeps the windows [X] where they are. *)
Definition settled (n : Z) (X : list (Z * Z)) r : Prop :=
  adopting n r ∧ Forall (λ e, at_ws e.1 e.2 (man r)) X.

Lemma stay_settled cmd n X r : settled n X r → stays_put cmd → wp (dispatch_ cmd) (λ _, settled n X) r.
Proof.
  intros [Had HX] Hcmd. eapply wp_mono; [by apply (stay_wp cmd n 0)|]. cbv beta.
  intros [] r' (H' & _ & Ht). split; [done|]. eapply Forall_impl; [exact HX|]. cbn. intros e.
  by apply tables_at.
Qed.

Definition saved_places (n : Z) (snaps : list ExistingWindowSnapshot) : list (Z * Z) :=
  (λ s, (sn_window s, sn_restart_workspace_id s)) <$> filter (restores n) snaps.

Lemma saved_places_cons n snap snaps : saved_places n (snap :: snaps) =
  if decide (restores n snap) then (sn_window snap, sn_restart_workspace_id snap) :: saved_places n snaps
  else saved_places n snaps.
Proof. unfold saved_places. rewrite filter_cons. by destruct (decide _). Qed.

Lemma adopt_windows_spec `{!QuietHooks} snaps n X any k r :
  settled n X r → 0 < n → NoDup (sn_window <$> snaps) →
  Forall (λ e, e.1 ∉ sn_window <$> snaps) X →
  wp (adopt_windows snaps any k) (λ _, settled n (X ++ saved_places n snaps)) r.
Proof.
  intros Hset Hn. revert X any k r Hset.
  induction snaps as [|snap snaps IH]; intros X any k r [Had HX] Hnd Hfresh; cbn [adopt_windows].
  { apply wp_ret. by rewrite app_nil_r. }
  cbn [fmap list_fmap] in Hnd. apply NoDup_cons in Hnd as [Hni Hnd].
  wp_step. eapply wp_mono; [by apply (adopt_window_spec snap n)|]. cbv beta. intros b r1 (H1 & P1 & A1).
  assert (HX1 : Forall (λ e, at_ws e.1 e.2 (man r1)) X).
  { rewrite Forall_forall in HX, Hfresh |- *. intros e He. eapply placed_at; [done| |by apply HX].
    intros Heq. apply (Hfresh e He). rewrite Heq. left. }
  assert (Hfresh' : Forall (λ e, e.1 ∉ sn_window <$> snaps) X).
  { eapply Forall_impl; [exact Hfresh|]. intros e He Hin. apply He. by right. }
  rewrite saved_places_cons. destruct (decide (restores n snap)) as [Hres|Hres].
  - destruct (A1 Hres) as [-> Hat].
    replace (X ++ (sn_window snap, sn_restart_workspace_id snap) :: saved_places n snaps)
      with ((X ++ [(sn_window snap, sn_restart_workspace_id snap)]) ++ saved_places n snaps)
      by (by rewrite <- app_assoc).
    apply IH; [|done|].
    + split; [done|]. apply Forall_app. split; [done|]. by constructor.
    + apply Forall_app. split; [done|]. by constructor.
  - destruct b; by apply IH.
Qed.

Lemma switch_monitors_settled saved idxs b n X r :
  settled n X r → Forall (λ i, 0 ≤ i) idxs → wp (switch_monitors saved idxs b) (λ _, settled n X) r.
Proof.
  intros Hset Hi. revert b r Hset. induction Hi as [|i idxs Hi _ IH]; intros b r Hset; [done|].
  cbn [switch_monitors]. do 2 wp_step. wp_step; [by wp_step|].
  assert (is_Some (restored_workspace saved (core_ r) i)) as [ws E].
  { unfold restored_workspace. destruct (vget_is_Some (monitors (man r)) i) as [m ->]; [lia|].
    repeat case_match; by eexists. }
  wp_step. eapply wp_checked; [done|]. wp_step; [|by apply IH].
  wp_step. eapply wp_mono; [by apply stay_settled|]. cbv beta. intros [] r1 H1. by apply IH.
Qed.

Lemma switch_focused_settled n X r : settled n X r → wp switch_focused_monitor (λ _, settled n X) r.
Proof.
  intros Hset. unfold switch_focused_monitor. wp_step.
  match goal with |- wp (checked ?f) _ _ => assert (is_Some (f r)) as [ws E] end.
  { cbv zeta. destruct ((0 <=? _) && _) eqn:E; [|by eexists]. apply andb_prop in E as [E1 E2].
    destruct (vget_is_Some (monitors (man r)) (focused_monitor (man r))) as [m ->]; [lia|]. by eexists. }
  eapply wp_checked; [exact E|]. wp_step; [|by wp_step].
  wp_step. eapply wp_mono; [by apply stay_settled|]. cbv beta. intros [] r1 H1. by wp_step.
Qed.

Lemma adopt_settled `{!QuietHooks} startup n r r0 :
  be_scan_existing_windows r = Some (startup, r0) → core_ r0 = core_ r →
  adopting n r → 0 < n → NoDup (sn_window <$> su_windows startup) →
  wp adopt_existing_windows (λ _, settled n (saved_places n (su_windows startup))) r.
Proof.
  intros Escan Ecore Had Hn Hnd. unfold adopt_existing_windows. wp_step. unfold wp at 1. rewrite Escan.
  assert (H0 : settled n [] r0) by (split; [by eapply adopting_core|constructor]).
  case_bool_decide as Hnil; [wp_step; by rewrite Hnil|].
  wp_step. eapply wp_mono; [by apply (adopt_windows_spec _ n [])|]. cbv beta. cbn [app].
  intros [any k] r1 H1. wp_step; [by wp_step|]. wp_step.
  eapply (wp_mono _ (λ _, settled n (saved_places n (su_windows startup)))).
  - wp_step; [|by apply switch_focused_settled]. do 2 wp_step. apply switch_monitors_settled; [done|].
    apply Forall_forall. intros i Hi. apply elem_of_range in Hi. lia.
  - cbv beta. intros b r2 H2. wp_step; [by wp_step|]. by apply stay_settled.
Qed.
End Adoption.

(** C11: adoption restores the workspaces of a restart.  When the windows the
    backend finds are distinct, and no hook refuses a window or changes the core (the
    X11 backend refuses some windows, rules of the configuration may move one), and
    the backend makes every window it is asked for,
    [adopt_existing_windows]
    completes, and afterwards every window of the restart file whose workspace
    still exists is known to the core and on that workspace; the commands that
    follow its assignment, the other windows and the switch of the monitors to
    their saved workspaces do not move it. *)
Theorem adopted_where_saved {W} `{!Env W} startup n (r r0 : Runtime W) :
  QuietHooks (W := W) → be_scan_existing_windows r = Some (startup, r0) → core_ r0 = core_ r →
  adopting n r → 0 < n → NoDup (sn_window <$> su_windows startup) →
  ∃ r', adopt_existing_windows r = Some (tt, r') ∧ core_ok (core_ r') ∧
    ∀ snap, snap ∈ su_windows startup → restores n snap →
      at_ws (sn_window snap) (sn_restart_workspace_id snap) (wsman (core_ r')).
Proof.
  intros Hq Escan Ecore Had Hn Hnd.
  pose proof (adopt_settled startup n r r0 Escan Ecore Had Hn Hnd) as H.
  apply wp_some in H as ([] & r' & E & [[Hc _ _] HX]). exists r'. split_and!; [done..|].
  intros snap Hin Hres. rewrite Forall_forall in HX.
  apply (HX (sn_window snap, sn_restart_workspace_id snap)). apply list_elem_of_fmap.
  exists snap. split; [done|]. by apply list_elem_of_filter.
Qed.

Definition ex_snapshot (win ws : Z) (restart fs hidden : bool) : ExistingWindowSnapshot :=
  mkExisting win true true restart ws true fs hidden false (Some (mkVec2 10 10, mkVec2 300 200))
    "term" "Term" "sh" Normal false false.
Definition ex_startup_snapshot : StartupSnapshot :=
  mkStartup [ex_snapshot 31 2 true false false; ex_snapshot 32 1 true true true;
             ex_snapshot 33 0 false false false] {[1 := 2]} 31.
Definition ex_adopting : Runtime ExWorld :=
  (ex_runtime 3 true) <| core_ := ex_core |> <| world ::= λ w, w <| ex_startup := ex_startup_snapshot |> |>
    <| hook_registry_ := [1; 2] |>.

Lemma adopted_where_saved_witness :
  ∃ r', adopt_existing_windows ex_adopting = Some (tt, r') ∧ core_ok (core_ r') ∧
    ∀ snap, snap ∈ su_windows ex_startup_snapshot → restores 3 snap →
      at_ws (sn_window snap) (sn_restart_workspace_id snap) (wsman (core_ r')).
Proof.
  apply (adopted_where_saved ex_startup_snapshot 3 ex_adopting ex_adopting).
  - split; intros; by eexists.
  - reflexivity.
  - reflexivity.
  - split; [exact ex_core_ok|by vm_compute|]. intros f win.
    assert (E : window_factory (wsman ex_core) = None) by (by vm_compute).
    change (core_ ex_adopting) with ex_core. by rewrite E.
  - lia.
  - apply (bool_decide_unpack _). by vm_compute.
Defined.
