(* ===== verification/X11Props.v ===== *)
(** * Claims about the X11 backend, and their witnesses

    What the runtime asks of a backend, for this one; a server, an environment
    and a state in which the claims of the X11 files apply. *)

From S2P Require Import Prelude Fuel Geometry Workspace WorkspaceManager WindowIndex ManagerInv.
From S2P Require Import Events Commands Core Dispatch CoreSafe CoreProps EventQueue Runtime.
From S2P Require Import LifecycleSafe BackendSafe.
From S2P Require Import X11Server X11Backend X11Events X11Loop X11Safe X11Keys X11Coalesce.
From S2P Require Import X11Unmap.
Local Open Scope Z_scope.

Section Backend.
Context {Srv : Type} `{!XServer Srv} `{!Env (XWorld Srv)} `{!XModules (XWorld Srv)}.
Context (J : Srv → Prop) (pat backlog : Srv → nat) (owner : Z → string).
Context `{!ServerOk J pat backlog} `{!CallsOk J pat owner}.
Local Abbreviation R := (Runtime (XWorld Srv)).
Local Abbreviation inv := (inv (λ w : XWorld Srv, J (srv w)) owner).
Local Abbreviation keeps := (keeps (λ w : XWorld Srv, pat (srv w))).

(** C4: whatever the server sends, but for a WM_CLASS that is not terminated
    ([ServerOk]; such a property is read past its end), and with finitely many
    events queued, the X11 backend is what the runtime asks for:
    every X event is handled, the pump, the frame, the reactions to domain
    events, to a reload and to the start return, without undefined behaviour;
    the core keeps its invariant, and so does the server any invariant [J] that
    the requests xcb can encode keep: the backend sends no other request, in
    particular no values that a mask does not announce. *)
Theorem x11_backend_safe r : inv r →
  let ok {A} (m : M R A) := wp m (λ _ r', inv r' ∧ keeps r r') r in
  (∀ ev, wpf (λ n, handle_generic_event n ev) (λ _ r', inv r' ∧ keeps r r') r) ∧
  (∀ k, wpf (λ n, pump_events n k) (λ _ r', inv r' ∧ keeps r r') r) ∧
  ok render_frame ∧ ok on_reload_applied ∧ ok x_on_start ∧ (∀ ev, ok (x_on ev)) ∧
  (∀ win b, ok (x_should_manage win b)) ∧
  ∀ root file, ok (on_srv (scan_existing_windows root file)).
Proof using All.
  intros Hr. cbv zeta.
  assert (Hxt : ∀ A (m : M R A), xt (λ w : XWorld Srv, J (srv w)) (λ w : XWorld Srv, pat (srv w)) owner [] m → wp m (λ _ r', inv r' ∧ keeps r r') r).
  { intros A m Hm. by apply (xt_tame _ _ _ m Hm). }
  split_and!.
  - intros ev. by apply (handle_ok J pat backlog owner).
  - intros k. by apply (pump_ok J pat backlog owner).
  - by apply (tame_render_frame J pat backlog owner).
  - by apply (tame_on_reload J pat backlog owner).
  - by apply Hxt, (xt_on_start J pat backlog).
  - intros ev. by apply Hxt, (xt_x_on J pat backlog).
  - intros win b. by apply Hxt, (xt_should_manage J pat backlog).
  - intros root file. by apply (tame_scan_windows J pat backlog owner).
Qed.
End Backend.

(** ** A server *)

(** The requests it has received, and the events it has queued. *)
Record ExSrv := mkExSrv { sv_log : list XRequest; sv_queue : list XEvent }.
#[export] Instance eta_ExSrv : Eta ExSrv := λ s, mkExSrv (sv_log s) (sv_queue s).

#[export] Instance ex_server : XServer ExSrv := {
  x_request q s := s <| sv_log ::= λ l, l ++ [q] |>;
  x_poll s := match sv_queue s with
              | [] => (None, s)
              | e :: q => (Some e, s <| sv_queue := q |>)
              end;
  x_get_property win prop type len s :=
    (if prop =? XCB_ATOM_WM_CLASS then Some (mkProperty 8 [120; 0; 88; 0]) else None, s);
  x_get_geometry win s := (Some (mkXGeometry 10 10 200 100 1), s);
  x_get_attributes win s := (Some (mkXAttributes false 2 1), s);
  x_query_children win s := ([11; 12; 13], s);
  x_query_tree win s := (None, s);
  x_get_input_focus s := (11, s);
  x_query_pointer s := (Some (mkVec2 5 5), s);
  x_intern_atom := fnv1a_tag;
  x_generate_id s := (500, s);
  x_keysym k s := k + 1000;
  x_current_layout s := [117; 115];
  x_xkb_event_type := -1 }.

Definition ex_logged (s : ExSrv) : Prop := Forall wf_request (sv_log s).
Definition ex_pat (_ : ExSrv) : nat := 0.
Definition ex_backlog (s : ExSrv) : nat := length (sv_queue s).

Lemma ex_server_ok : ServerOk ex_logged ex_pat ex_backlog.
Proof.
  split; try done.
  - intros q s Hq Hs. split; [|done]. unfold ex_logged. cbn. apply Forall_app_2; [done|by apply Forall_singleton].
  - intros s Hs. cbn. by destruct (sv_queue s).
  - intros s e. cbn. unfold ex_backlog. destruct (sv_queue s) as [|e' q] eqn:E; [done|]. cbn. lia.
  - intros win len p s _ [= <-]. right. exists [120], [88; 0]. split; [done|right; by exists ([88], [])].
Qed.

(** Modules that do nothing, and the backend as a receiver of hooks. *)
Definition ex_x_hook (p win : Z) (manage : bool) : M (Runtime (XWorld ExSrv)) bool :=
  if p =? backend_ptr then x_should_manage win manage else ret manage.
#[export] Instance ex_x_env : Env (XWorld ExSrv) := {
  be_get_monitors := ret ex_mons;
  be_apply_monitor_layout _ := ret tt;
  be_select_change_events := ret tt;
  be_pump_events _ := ret tt;
  be_render_frame := ret tt;
  be_on_reload_applied := ret tt;
  be_on_start := ret tt;
  be_shutdown := ret tt;
  be_scan_existing_windows := on_srv (scan_existing_windows 1 None);
  be_create_window _ := None;
  be_event_fd := 5;
  be_new_render_window := ret None;
  mod_on_init _ := ret tt;
  mod_on_lua_init _ := ret tt;
  mod_on_start _ := ret tt;
  mod_on_stop _ _ := ret tt;
  mod_on_reload _ := ret tt;
  mod_destroy _ := ret tt;
  deliver_module _ _ := ret tt;
  deliver_receiver _ _ := ret tt;
  hook_should_manage := ex_x_hook;
  hook_window_rules _ _ _ := ret tt;
  lua_init := ret tt;
  lua_reset_root_table := ret tt;
  lua_initialized _ := true;
  lua_prepare := ret tt;
  lua_exec_file _ := ret None;
  lua_check_syntax _ := ret true;
  lua_str_to_number _ := None;
  lua_num_to_str _ := "";
  sys_pipe := ret None;
  sys_epoll_create := ret true;
  sys_epoll_wait := ret [];
  sys_waitpid := ret [];
  sys_write_restart_file _ := ret tt;
  fd_module_callback _ := ret tt }.
#[export] Instance ex_x_modules : XModules (XWorld ExSrv) := {
  module_handles _ _ := ret false;
  hook_close_window _ win := ret tt }.

Definition ex_x_owner (_ : Z) : string := "bar".

Lemma ex_calls_ok : CallsOk ex_logged ex_pat ex_x_owner.
Proof.
  pose proof ex_server_ok as Hok.
  split; intros; try apply tame_ret. cbn. unfold ex_x_hook. apply tame_if; [|apply tame_ret].
  apply xt_tame. by apply (xt_should_manage ex_logged ex_pat ex_backlog).
Qed.

(** The core of the other examples behind an X server. *)
Definition ex_x (events : list XEvent) : Runtime (XWorld ExSrv) :=
  mkRuntime ∅ ex_core [] [] true Running false false false false [] ∅ empty_queue [] [backend_ptr] None
    (mkXWorld (new_backend 1) (mkExSrv [] events)).

Lemma ex_x_inv events : inv (λ w : XWorld ExSrv, ex_logged (srv w)) ex_x_owner (ex_x events).
Proof.
  split; [exact ex_core_ok|constructor|]. intros win p. cbn. by rewrite lookup_empty.
Qed.

Lemma ex_x_core events : core_ (ex_x events) = ex_core.
Proof. unfold ex_x. cbn [core_]. reflexivity. Qed.

(** A new window, a client message and a motion: the pump returns, and all it
    has sent the server can be encoded. *)
Definition ex_events : list XEvent :=
  [XMapRequest 14; XClientMessage 11 7 32 []; XMotionNotify 1 (mkVec2 3 4) 0].
Lemma x11_backend_safe_witness :
  ∃ n, wp (pump_events n 2048) (λ _ r', Forall wf_request (sv_log (srv (world r')))) (ex_x ex_events).
Proof.
  pose proof ex_server_ok as Hs. pose proof ex_calls_ok as Hc.
  destruct (x11_backend_safe ex_logged ex_pat ex_backlog ex_x_owner (ex_x ex_events) (ex_x_inv _))
    as (_ & H & _).
  eapply wpf_mono; [exact (H 2048)|]. intros [] r' [[_ Hj _] _]. exact Hj.
Defined.

(** Exposes of two windows and two motions: what is posted is an expose for each of
    the windows, and the motion that came last. *)
Definition ex_coalesced : list XEvent :=
  [XExpose 12; XMotionNotify 1 (mkVec2 3 4) 0; XExpose 11; XExpose 12; XMotionNotify 1 (mkVec2 5 6) 0].
Definition posted_events (o : option (unit * Runtime (XWorld ExSrv))) : list Event :=
  match o with Some (_, r) => q_ (event_queue_ r) | None => [] end.
Lemma pump_coalesces_witness :
  posted_events (pump_spec 3 2048 (ex_x ex_coalesced)) =
    [MotionEv 1 (mkVec2 5 6) 0; ExposeWindow 12; ExposeWindow 11] ∧
  pump_events 3 2048 (ex_x ex_coalesced) = pump_spec 3 2048 (ex_x ex_coalesced).
Proof. split; [by vm_compute|]. apply (pump_coalesces 3 2048 (ex_x ex_coalesced)). Defined.

(** A key that is pressed, repeats twice and is released. *)
Definition ex_key (release : bool) (time : Z) : KeyEvent := mkKeyEvent release 38 time 0 (mkVec2 5 5).
Definition ex_keys : list KeyEvent :=
  [ex_key false 1; ex_key true 50; ex_key false 50; ex_key true 80; ex_key false 80; ex_key true 95].
(** Behind the release of a key, an expose is not coalesced with the next. *)
Lemma read_ahead_not_coalesced :
  posted_events (pump_events 3 2048 (ex_x [XKey (ex_key true 1); XExpose 12; XExpose 12])) =
    [ExposeWindow 12; ExposeWindow 12] ∧
  posted_events (pump_events 3 2048 (ex_x [XExpose 12; XExpose 12])) = [ExposeWindow 12].
Proof. by vm_compute. Qed.

Lemma autorepeat_invisible_witness :
  ∃ fuel r', pump_events fuel 2048 (ex_x (XKey <$> ex_keys)) = Some (tt, r') ∧
    key_presses r' = [KeyPressEv 0 38 1038].
Proof.
  pose proof ex_server_ok as Hs.
  destruct (autorepeat_invisible ex_logged ex_pat ex_backlog ex_x_owner sv_queue (λ k, k + 1000))
    with (l := ex_keys) (n := 2048) (r := ex_x (XKey <$> ex_keys)) as (fuel & r' & E & _ & _ & P).
  - intros s. cbn. by destruct (sv_queue s) eqn:E.
  - done.
  - apply ex_x_inv.
  - done.
  - done.
  - by left.
  - cbn. repeat split; set_solver.
  - exists fuel, r'. split; [exact E|]. rewrite P. by vm_compute.
Defined.

(** The address of window 11. *)
Definition ex_addr : addr := default 1%positive (window_index (wsman ex_core) !! 11).
Lemma ex_managed events : managed 11 ex_addr (ex_x events).
Proof.
  split; [done|]. split; [done|]. change (window_index (wsman ex_core) !! 11 = Some ex_addr). unfold ex_addr.
  assert (H : bool_decide (is_Some (window_index (wsman ex_core) !! 11)) = true) by (by vm_compute).
  apply bool_decide_eq_true in H as [p ->]. done.
Qed.

Lemma wm_unmap_never_withdraws_witness :
  wp (for_each [ByManager; Reported; ByManager; Reported; Reported; Reported] (unmap_step 11))
     (λ _ r', core_ r' = ex_core ∧ pending_unmaps ex_addr r' = 0) (ex_x []).
Proof.
  pose proof ex_server_ok as Hs.
  eapply wp_mono; [apply (wm_unmap_never_withdraws ex_logged ex_pat ex_backlog ex_x_owner 11 ex_addr)|].
  - apply ex_x_inv.
  - apply ex_managed.
  - cbn. repeat split; lia.
  - intros [] r' (_ & _ & Hc & _ & Hp). rewrite ex_x_core in Hc. split; [exact Hc|exact Hp].
Defined.

Lemma client_unmap_withdraws_witness :
  wp (handle_unmap_notify 11) (λ _ r', withdrawn_from ex_logged ex_x_owner 11 (ex_x []) r') (ex_x []).
Proof.
  pose proof ex_server_ok as Hs.
  destruct (wins (wsman ex_core) !! ex_addr) as [w|] eqn:Hw.
  - apply (client_unmap_withdraws ex_logged ex_pat ex_backlog ex_x_owner 11 ex_addr w).
    + apply ex_x_inv.
    + apply ex_managed.
    + done.
    + exact Hw.
    + left. assert (H : (hidden_by_workspace <$> wins (wsman ex_core) !! ex_addr) = Some false) by (by vm_compute).
      rewrite Hw in H. by injection H.
  - exfalso. assert (H : bool_decide (is_Some (wins (wsman ex_core) !! ex_addr)) = true) by (by vm_compute).
    rewrite Hw in H. discriminate H.
Defined.
