(* ===== verification/WaylandBackend.v ===== *)
(** * The Wayland backend: a client of the display server

    [backends/wayland/include/display_server_backend.hpp], its ports
    [display_server_ports.hpp], and their sources under [backends/wayland/src].
    The backend is the world of a [Runtime]; the other end of its control socket
    is the rest of that world, as the class [Peer]. *)

From S2P Require Import Prelude Exceptions TextStream Geometry Workspace WorkspaceManager Events Protocol.
From S2P Require Import Ipc.
From S2P Require Import Commands Core Dispatch Runtime.
Local Open Scope Z_scope.

(** ** State *)

Record DisplayServerSurfaceInfo := mkSurface {
  sf_id : Z;
  sf_app_id : list Z;
  sf_title : list Z;
  sf_pid : Z;
  sf_mapped : bool;
  sf_managed : bool;
  sf_x : Z;
  sf_y : Z;
  sf_width : Z;
  sf_height : Z }.
#[export] Instance eta_Surface : Eta DisplayServerSurfaceInfo := λ s,
  mkSurface (sf_id s) (sf_app_id s) (sf_title s) (sf_pid s) (sf_mapped s) (sf_managed s)
    (sf_x s) (sf_y s) (sf_width s) (sf_height s).
Definition new_surface (sid : Z) (app_id title : list Z) (pid : Z) : DisplayServerSurfaceInfo :=
  mkSurface sid app_id title pid false false 0 0 0 0.

Record DisplayServerOutputInfo := mkOutput {
  ou_id : Z;
  ou_name : list Z;
  ou_x : Z;
  ou_y : Z;
  ou_w : Z;
  ou_h : Z;
  ou_refresh : Z }.

Record WBackend := mkWBackend {
  (** does [control_] have a descriptor? *)
  control_ : bool;
  surfaces_ : gmap Z DisplayServerSurfaceInfo;
  outputs_ : gmap Z DisplayServerOutputInfo;
  (** [DisplayServerInputPort], [DisplayServerKeyboardPort], [DisplayServerRenderPort] *)
  intercepts_ : list (Z * Z);
  layouts_ : list string;
  group_ : Z;
  next_id_ : Z;
  prev_focused_ : Z;
  focused_border_ : Z;
  unfocused_border_ : Z;
  started_ : bool;
  snapshot_complete_ : bool }.
#[export] Instance eta_WBackend : Eta WBackend := λ b,
  mkWBackend (control_ b) (surfaces_ b) (outputs_ b) (intercepts_ b) (layouts_ b) (group_ b)
    (next_id_ b) (prev_focused_ b) (focused_border_ b) (unfocused_border_ b) (started_ b)
    (snapshot_complete_ b).

(** The backend once its socket is connected. *)
Definition connected_backend : WBackend :=
  mkWBackend true ∅ ∅ [] ["us"%string] 0 2147483648 NO_WINDOW 4282681548 4281545523 false false.

Record WWorld (P : Type) := mkWWorld { wb : WBackend; peer : P }.
Arguments mkWWorld {P}. Arguments wb {P}. Arguments peer {P}.
#[export] Instance eta_WWorld P : Eta (WWorld P) := λ w, mkWWorld (wb w) (peer w).

(** The socket, polled for input, and [close] of a received descriptor. *)
Inductive Received :=
| RecvError (errno : string) (fd : option Z)
| RecvPacket (bytes : list Z) (fd : option Z).
Class Peer (P : Type) := {
  peer_poll : Z → P → bool * P;
  peer_recv : P → Received * P;
  peer_send : list Z → option Z → P → bool * P;
  fd_close : Z → P → P }.

(** [BackendPeerRole]. *)
Definition WmController : Z := 1.
Definition DisplayServerHost : Z := 2.

Section Wayland.
Context {P : Type} `{!Peer P}.
Local Abbreviation R := (Runtime (WWorld P)).

(** ** Access to the state *)

Definition wget {A} (f : WBackend → A) : M R A := gets (λ r : R, f (wb (world r))).
Definition wset (f : WBackend → WBackend) : M R unit :=
  modify (λ r : R, r <| world ::= λ w, w <| wb ::= f |> |>).
Definition on_peer {A} (m : M P A) : M R A :=
  zoom (λ r : R, peer (world r)) (λ s r, r <| world ::= λ w, w <| peer := s |> |>) m.

(** [if (auto ws = core.window_state(win)) body(ws)]. *)
Definition if_window (win : Z) (body : Window → M R (string + unit)) : M R (string + unit) :=
  o <- window_state win ;;
  match o with
  | Some p => w <- fld p (λ w, w) ;; body w
  | None => ok tt
  end.

Definition close_fd (fd : option Z) : M R unit :=
  match fd with Some fd => on_peer (modify (fd_close fd)) | None => ret tt end.
Definition poll_readable (timeout_ms : Z) : M R bool :=
  open <- wget control_ ;;
  if (open : bool) then on_peer (ask (peer_poll timeout_ms)) else ret false.

(** A [std::string] made of the characters of an array. *)
Definition read_string (b : FixedString) : M R (list Z) :=
  r <- checked (λ _, read_c_string b) ;; ret r.1.

(** ** Sending *)

Definition show_type (t : Z) : string := String.string_of_list_ascii (show_int t).
Definition send_control (p : Payload) (fd : option Z) : M R (string + unit) :=
  open <- wget control_ ;;
  sent <- (if (open : bool) then on_peer (ask (peer_send (send_message p) fd)) else ret false) ;;
  if (sent : bool) then ok tt
  else throw ("display_server_backend: control IPC send failed (msg=" +:+
              show_type (type_code (message_type p)) +:+ ")").

Definition configure_surface (win px py w h : Z) : M R (string + unit) :=
  send_control (ConfigureSurface win px py w h) None.
Definition set_surface_activated (win activated : Z) : M R (string + unit) :=
  send_control (SetSurfaceActivated win activated) None.
Definition set_surface_visible (win visible : Z) : M R (string + unit) :=
  send_control (SetSurfaceVisible win visible) None.
Definition set_surface_stacking (win stacking : Z) : M R (string + unit) :=
  send_control (SetSurfaceStacking win stacking) None.
Definition close_surface (win : Z) : M R (string + unit) := send_control (CloseSurface win) None.
Definition set_surface_border (win width color : Z) : M R (string + unit) :=
  send_control (SetSurfaceBorder win width color) None.
Definition warp_pointer (px py : Z) : M R (string + unit) := send_control (WarpPointer px py) None.
Definition grab_pointer : M R (string + unit) := send_control (GrabPointer 0) None.
Definition ungrab_pointer : M R (string + unit) := send_control (UngrabPointer 0) None.
Definition set_keyboard_intercepts (keys : list (Z * Z)) : M R (string + unit) :=
  let count := Nat.min (length keys) kMaxKeyIntercepts in
  send_control (SetKeyboardIntercepts (Z.of_nat count)
    (take count keys ++ replicate (kMaxKeyIntercepts - count) (0, 0))) None.
Definition create_overlay (overlay px py w h : Z) : M R (string + unit) :=
  send_control (CreateOverlay overlay px py w h) None.
Definition update_overlay (overlay : Z) (fd : option Z) (bytes : Z) : M R (string + unit) :=
  sent <- send_control (UpdateOverlay overlay bytes) fd ;;
  close_fd fd ;;
  ret sent.
Definition destroy_overlay (overlay : Z) : M R (string + unit) := send_control (DestroyOverlay overlay) None.

(** ** Surfaces and windows *)

Section Managed.
Context `{!Env (WWorld P)} `{!HashOrder}.

Definition surface_set (sid : Z) (f : DisplayServerSurfaceInfo → DisplayServerSurfaceInfo) : M R unit :=
  wset (λ b, b <| surfaces_ ::= alter f sid |>).

Definition no_hints : WindowHints :=
  mkWindowHints false false false false false false false false
    (mkVec2 0 0) (mkVec2 0 0) (mkVec2 0 0) (mkVec2 0 0).

(** [manage_surface], for the entry [sid] of the table. *)
Definition manage_surface (sid : Z) : M R unit :=
  s <- checked (λ r : R, surfaces_ (wb (world r)) !! sid) ;;
  if sf_managed s then ret tt
  else
    surface_set sid (λ s, s <| sf_managed := true |>) ;;
    let wid := sf_id s in
    dispatch_ (EnsureWindow wid NO_WORKSPACE) ;;
    dispatch_ (SetWindowMetadata (mkWindowMetadata wid (string_of_bytes (sf_app_id s))
      (string_of_bytes (sf_app_id s)) (string_of_bytes (sf_title s)) (sf_pid s) Normal no_hints
      NO_WINDOW)) ;;
    dispatch_ (SetWindowGeometry wid (mkVec2 (sf_x s) (sf_y s)) (mkVec2 (sf_width s) (sf_height s))) ;;
    window_rules wid false ;;
    dispatch_ (MapWindow wid) ;;
    post_event (WindowMapped wid) ;;
    dispatch_ ReconcileNow ;;
    o <- window_state wid ;;
    match o with
    | Some p =>
        visible <- fld p is_visible ;;
        if (visible : bool) then dispatch_ (FocusWindow wid) else ret tt
    | None => ret tt
    end.

(** Is the surface to be managed, once the backend has started? *)
Definition manageable (s : DisplayServerSurfaceInfo) : bool :=
  sf_mapped s && negb (sf_managed s) && (0 <? sf_width s) && (0 <? sf_height s).
Definition manage_if_ready (sid : Z) : M R unit :=
  started <- wget started_ ;;
  o <- wget (λ b, surfaces_ b !! sid) ;;
  match o with
  | Some s => if (started : bool) && manageable s then manage_surface sid else ret tt
  | None => ret tt
  end.

(** The focus after the focused window has gone. *)
Definition refocus : M R unit :=
  next <- cget focused_window_state ;;
  visible <- (match next with Some p => fld p is_visible | None => ret false end) ;;
  match next with
  | Some p => if (visible : bool) then win <- fld p id ;; dispatch_ (FocusWindow win)
              else on_core (dispatch_composite FocusNextWindow) ;; ret tt
  | None => on_core (dispatch_composite FocusNextWindow) ;; ret tt
  end.

Definition forget_surface (sid : Z) : M R unit :=
  wset (λ b, b <| prev_focused_ ::= λ p, if p =? sid then NO_WINDOW else p |>
               <| surfaces_ ::= delete sid |>).

(** ** The handlers of messages *)

Definition on_SurfaceDestroyed (sid : Z) : M R unit :=
  o <- wget (λ b, surfaces_ b !! sid) ;;
  match o with
  | None => ret tt
  | Some s =>
      started <- wget started_ ;;
      if negb started || negb (sf_managed s) then forget_surface sid
      else
        focused <- cget focused_window_state ;;
        was_focused <- (match focused with
                        | Some p => win <- fld p id ;; ret (win =? sid)
                        | None => ret false
                        end) ;;
        was_visible <- cget (λ c, let ws := workspace_of_window (wsman c) sid in
                                  (0 <=? ws) && is_workspace_visible c ws) ;;
        post_event (DestroyNotify sid) ;;
        dispatch_ (RemoveWindowFromAllWorkspaces sid) ;;
        post_event (WindowUnmapped sid true) ;;
        (if (was_visible : bool)
         then dispatch_ ReconcileNow ;; if (was_focused : bool) then refocus else ret tt
         else ret tt) ;;
        forget_surface sid
  end.

Definition post_if_started (ev : Event) : M R unit :=
  started <- wget started_ ;; if (started : bool) then post_event ev else ret tt.

(** [window && window->is_visible()] for [window = core.window_state_any(win)]. *)
Definition focus_if_visible (win : Z) : M R unit :=
  o <- window_state_any win ;;
  match o with
  | Some p => visible <- fld p is_visible ;;
              if (visible : bool) then dispatch_ (FocusWindow win) else ret tt
  | None => ret tt
  end.

Definition button_event (win px py button mods released : Z) : Event :=
  let pos := mkVec2 (to_i16 px) (to_i16 py) in
  ButtonEv win win pos pos 0 (Z.land (button - 272 + 1) 255) (to_u16 mods) (negb (released =? 0)).

(** [on(msg)], for the messages the backend handles: the result of the handler,
    true for those that have none. *)
Definition on_message (p : Payload) : M R bool :=
  match p with
  | Hello peer_role _ => ret (peer_role =? DisplayServerHost)
  | SnapshotBegin _ =>
      wset (λ b, b <| snapshot_complete_ := false |> <| surfaces_ := ∅ |> <| outputs_ := ∅ |>
                   <| prev_focused_ := NO_WINDOW |>) ;;
      ret true
  | SnapshotEnd _ => wset (λ b, b <| snapshot_complete_ := true |>) ;; ret true
  | OutputAdded oid name px py w h refresh =>
      name <- read_string name ;;
      wset (λ b, b <| outputs_ ::= <[oid := mkOutput oid name px py w h refresh]> |>) ;;
      post_if_started DisplayTopologyChanged ;;
      ret true
  | OutputRemoved oid =>
      wset (λ b, b <| outputs_ ::= delete oid |>) ;;
      post_if_started DisplayTopologyChanged ;;
      ret true
  | SurfaceCreated sid app_id title pid =>
      app_id <- read_string app_id ;;
      title <- read_string title ;;
      wset (λ b, b <| surfaces_ ::= <[sid := new_surface sid app_id title pid]> |>) ;;
      ret true
  | SurfaceMapped sid =>
      surface_set sid (λ s, s <| sf_mapped := true |>) ;;
      manage_if_ready sid ;;
      ret true
  | SurfaceUnmapped sid => surface_set sid (λ s, s <| sf_mapped := false |>) ;; ret true
  | SurfaceDestroyed sid => on_SurfaceDestroyed sid ;; ret true
  | SurfaceCommitted sid w h =>
      surface_set sid (λ s, s <| sf_width := w |> <| sf_height := h |>) ;;
      manage_if_ready sid ;;
      ret true
  | SurfaceTitleChanged sid title =>
      o <- wget (λ b, surfaces_ b !! sid) ;;
      match o with
      | None => ret true
      | Some s =>
          title <- read_string title ;;
          surface_set sid (λ s, s <| sf_title := title |>) ;;
          (if sf_managed s then post_if_started (PropertyNotify sid 0) else ret tt) ;;
          ret true
      end
  | SurfaceAppIdChanged sid app_id =>
      o <- wget (λ b, surfaces_ b !! sid) ;;
      match o with
      | None => ret true
      | Some _ =>
          app_id <- read_string app_id ;;
          surface_set sid (λ s, s <| sf_app_id := app_id |>) ;;
          ret true
      end
  | Key keycode keysym mods pressed =>
      (if pressed =? 0 then ret tt
       else post_if_started (KeyPressEv (to_u16 mods) (Z.land keycode 255) keysym)) ;;
      ret true
  | Button sid px py button mods released =>
      started <- wget started_ ;;
      (if (started : bool)
       then (if (released =? 0) && negb (sid =? 0) then focus_if_visible sid else ret tt) ;;
            post_event (button_event sid px py button mods released)
       else ret tt) ;;
      ret true
  | PointerMotion sid px py mods =>
      post_if_started (MotionEv sid (mkVec2 (to_i16 px) (to_i16 py)) (to_u16 mods)) ;; ret true
  | PointerEnter sid =>
      started <- wget started_ ;;
      (if (started : bool) then focus_if_visible sid else ret tt) ;;
      ret true
  | OverlayExpose overlay => post_if_started (ExposeWindow overlay) ;; ret true
  | OverlayButton overlay px py button released =>
      post_if_started (button_event overlay px py button 0 released) ;; ret true
  | _ => ret false
  end.

Definition dispatch_control_message (p : Payload) (received_fd : option Z) : M R bool :=
  match received_fd with Some _ => ret false | None => on_message p end.

(** ** Receiving *)

(** One packet; the texts are those of the two loops that receive. *)
Definition receive_packet (closed short invalid : string) (refused : Z → string) : M R (string + unit) :=
  rc <- on_peer (ask peer_recv) ;;
  match rc with
  | RecvError errno fd =>
      close_fd fd ;; throw ("display_server_backend: control IPC recv failed: " +:+ errno)
  | RecvPacket [] fd => close_fd fd ;; throw closed
  | RecvPacket bytes fd =>
      match read_packet bytes with
      | PacketTooShort => close_fd fd ;; throw short
      | PacketInvalid => close_fd fd ;; throw invalid
      | PacketUnknown t => close_fd fd ;; throw (refused t)
      | PacketMessage p =>
          handled <- dispatch_control_message p fd ;;
          close_fd fd ;;
          if (handled : bool) then ok tt else throw (refused (type_code (message_type p)))
      end
  end.

Definition receive_snapshot_packet : M R (string + unit) :=
  receive_packet "display_server_backend: control IPC closed during snapshot"
    "display_server_backend: control snapshot packet too short"
    "display_server_backend: invalid control snapshot packet"
    (λ _, "display_server_backend: control snapshot dispatch failed").
Definition receive_event_packet : M R (string + unit) :=
  receive_packet "display_server_backend: control IPC closed"
    "display_server_backend: control event packet too short"
    "display_server_backend: invalid control event packet"
    (λ t, "display_server_backend: unsupported control event (msg=" +:+ show_type t +:+ ")").

Fixpoint snapshot_loop (fuel : nat) : M R (string + unit) :=
  match fuel with
  | O => λ _, None
  | S n =>
      complete <- wget snapshot_complete_ ;;
      if (complete : bool) then ok tt
      else
        readable <- poll_readable 3000 ;;
        if (readable : bool) then receive_snapshot_packet ;;! snapshot_loop n
        else throw "display_server_backend: timed out waiting for control snapshot"
  end.
Definition bootstrap_snapshot (fuel : nat) : M R (string + unit) :=
  wset (λ b, b <| snapshot_complete_ := false |>) ;; snapshot_loop fuel.

(** The constructor, once the socket is connected. *)
Definition construct (fuel : nat) : M R (string + unit) :=
  send_control (Hello WmController 0) None ;;!
  send_control (SnapshotRequest 0) None ;;!
  bootstrap_snapshot fuel.

(** The loop of [pump_events]; [processed] packets have been handled. *)
Fixpoint pump_loop (fuel : nat) (max_events processed : Z) : M R (string + unit) :=
  match fuel with
  | O => λ _, None
  | S n =>
      receive_event_packet ;;!
      let processed := processed + 1 in
      if (max_events =? 0) || (processed <? max_events) then
        readable <- poll_readable 0 ;;
        if (readable : bool) then pump_loop n max_events processed else ok tt
      else ok tt
  end.
Definition pump_events (fuel : nat) (max_events_per_tick : Z) : M R (string + unit) :=
  readable <- poll_readable 0 ;;
  if (readable : bool) then pump_loop fuel max_events_per_tick 0 else ok tt.

(** ** [render_frame] *)

Definition place (win : Z) (w : Window) : M R (string + unit) :=
  configure_surface win (x (pos w)) (y (pos w)) (x (size w)) (y (size w)).
(** The border of a window that has one. *)
Definition paint_border (win : Z) (color : WBackend → Z) : M R (string + unit) :=
  if_window win (λ w,
    if 0 <? border_width w then c <- wget color ;; set_surface_border win (border_width w) c else ok tt).

Definition effect_map (win : Z) : M R (string + unit) :=
  if_window win (λ w,
    place win w ;;!
    set_surface_visible win 1 ;;!
    (if 0 <? border_width w
     then c <- wget unfocused_border_ ;; set_surface_border win (border_width w) c else ok tt) ;;!
    lift (on_core (take_window_flush win) ;; ret tt)).

Definition effect_focus (win : Z) : M R (string + unit) :=
  prev <- wget prev_focused_ ;;
  let leaves := negb (prev =? NO_WINDOW) && negb (prev =? win) in
  (if leaves then set_surface_activated prev 0 else ok tt) ;;!
  (if negb (win =? NO_WINDOW)
   then set_surface_activated win 1 ;;!
        set_surface_border win 0 0 ;;!
        paint_border win focused_border_
   else ok tt) ;;!
  (if leaves then paint_border prev unfocused_border_ else ok tt) ;;!
  lift (wset (λ b, b <| prev_focused_ := win |>)).

Definition effect_focus_root : M R (string + unit) :=
  prev <- wget prev_focused_ ;;
  if negb (prev =? NO_WINDOW)
  then set_surface_activated prev 0 ;;!
       paint_border prev unfocused_border_ ;;!
       lift (wset (λ b, b <| prev_focused_ := NO_WINDOW |>))
  else ok tt.

Definition effect_update (win : Z) : M R (string + unit) :=
  if win =? NO_WINDOW then ok tt
  else
    flush <- on_core (take_window_flush win) ;;
    match flush with
    | Some _ =>
        if_window win (λ w,
          place win w ;;!
          c <- wget (λ b, if win =? prev_focused_ b then focused_border_ b else unfocused_border_ b) ;;
          set_surface_border win (border_width w) c)
    | None => ok tt
    end.

Definition apply_effect (e : BackendEffect) : M R (string + unit) :=
  let win := eff_window e in
  match eff_kind e with
  | EffMapWindow => effect_map win
  | EffUnmapWindow => set_surface_visible win 0
  | EffFocusWindow => effect_focus win
  | EffFocusRoot => effect_focus_root
  | EffUpdateWindow => effect_update win
  | EffRaiseWindow => set_surface_stacking win 1
  | EffLowerWindow => set_surface_stacking win 0
  | EffCloseWindow => close_surface win
  | EffWarpPointer => warp_pointer (x (eff_pos e)) (y (eff_pos e))
  end.

Definition flush_visible (win : Z) : M R (string + unit) :=
  flush <- on_core (take_window_flush win) ;;
  match flush with
  | Some _ => if_window win (place win)
  | None => ok tt
  end.

Definition render_frame : M R (string + unit) :=
  effects <- on_core take_backend_effects ;;
  try_for_each effects apply_effect ;;!
  wins <- cget visible_window_ids ;;
  try_for_each wins flush_visible.

(** ** Start, reload, shutdown *)

Definition parse_hex_color (s : string) : Z :=
  match txt s with
  | c :: cs =>
      if (length cs =? 6)%nat && (code c =? 35) then
        match strtoul16 cs with
        | Some (v, []) => Z.lor 4278190080 (to_u32 v)
        | _ => 4287137928
        end
      else 4287137928
  | [] => 4287137928
  end.

Definition reload_border_colors : M R unit :=
  t <- cget (λ c, theme (settings c)) ;;
  let or_else a b := if bool_decide (a = EmptyString) then b else a in
  let focused := or_else (border_focused t) (accent t) in
  let unfocused := or_else (border_unfocused t) (or_else (alt_bg t) (bg t)) in
  wset (λ b, b <| focused_border_ := parse_hex_color focused |>
               <| unfocused_border_ := parse_hex_color unfocused |>).
Definition on_reload_applied : M R unit := reload_border_colors.

Definition on_start : M R unit :=
  reload_border_colors ;;
  wset (λ b, b <| started_ := true |>) ;;
  order <- wget (λ b, hash_order (surfaces_ b)) ;;
  for_each order manage_if_ready.

Definition shutdown : M R unit :=
  wset (λ b, b <| started_ := false |> <| control_ := false |> <| surfaces_ := ∅ |>
               <| outputs_ := ∅ |> <| prev_focused_ := NO_WINDOW |>).

(** ** The ports *)

Definition input_send_intercepts : M R (string + unit) :=
  keys <- wget intercepts_ ;; set_keyboard_intercepts keys.
Definition input_grab_key (keysym mods : Z) : M R (string + unit) :=
  wset (λ b, b <| intercepts_ ::= λ l, l ++ [(keysym, mods)] |>) ;; input_send_intercepts.
Definition input_ungrab_all_keys : M R (string + unit) :=
  wset (λ b, b <| intercepts_ := [] |>) ;; input_send_intercepts.
Definition input_grab_pointer : M R (string + unit) := grab_pointer.
Definition input_ungrab_pointer : M R (string + unit) := ungrab_pointer.
Definition input_warp_pointer (p : Vec2) : M R (string + unit) := warp_pointer (x p) (y p).

Fixpoint number_outputs (idx : Z) (l : list DisplayServerOutputInfo) : list Monitor :=
  match l with
  | [] => []
  | o :: l => new_monitor idx (string_of_bytes (ou_name o)) (ou_x o) (ou_y o) (ou_w o) (ou_h o)
              :: number_outputs (idx + 1) l
  end.
Definition monitor_get_monitors : M R (list Monitor) :=
  wget (λ b, number_outputs 0 (hash_entries (outputs_ b)).*2).

Definition keyboard_current_layout (b : WBackend) : string :=
  default "us"%string (layouts_ b !! Z.to_nat (group_ b)).
Definition keyboard_apply (layouts : list string) : M R unit :=
  wset (λ b, b <| layouts_ ::= λ l, match layouts with [] => l | _ => layouts end |> <| group_ := 0 |>).
Definition keyboard_restore : M R unit :=
  wset (λ b, b <| layouts_ := ["us"%string] |> <| group_ := 0 |>).
Definition keyboard_set_group (group : Z) : M R unit :=
  wset (λ b, if group <? Z.of_nat (length (layouts_ b)) then b <| group_ := group |> else b).

(** A render window is its overlay id; the identifier is taken even when the
    constructor throws. *)
Definition render_create_window (px py w h : Z) : M R (string + Z) :=
  win <- wget next_id_ ;;
  wset (λ b, b <| next_id_ := to_u32 (win + 1) |>) ;;
  create_overlay win px py w h ;;!
  ok win.
(** The destructor logs what [destroy_overlay] throws. *)
Definition render_destroy_window (win : Z) : M R unit := destroy_overlay win ;; ret tt.
(** [present], for the descriptor of the shared buffer with the pixels. *)
Definition render_present (win w h : Z) (shm_fd : option Z) : M R (string + unit) :=
  match shm_fd with
  | None => ok tt
  | Some fd => update_overlay win (Some fd) (to_u32 (w * h * 4))
  end.
End Managed.
End Wayland.
