(* ===== verification/DisplayServer.v ===== *)
(** * The display server: surfaces, outputs, overlays and the control socket

    [libwlserver/src/runtime/display_state.cpp], [overlay_manager.cpp],
    [display_server.cpp] and [libwlserver/src/ipc/backend_control_server.cpp],
    with their headers.  What lies beyond them is the class [Host]: the sockets
    and descriptors, and the Wayland and X11 clients of the server. *)

From stdpp Require Import sorting.
From S2P Require Import Prelude Exceptions Geometry Events Protocol Ipc WaylandBackend.
Local Open Scope Z_scope.

(** ** State *)

Record DisplaySurface := mkDisplaySurface {
  ds_id : Z;
  toplevel_id : Z;
  wl_surface_id : Z;
  ds_app_id : list Z;
  ds_title : list Z;
  ds_pid : Z;
  ds_mapped : bool;
  ds_visible : bool;
  ds_x : Z;
  ds_y : Z;
  ds_width : Z;
  ds_height : Z;
  ds_stacking : Z;
  ds_border_width : Z;
  ds_border_color : Z }.
#[export] Instance eta_DisplaySurface : Eta DisplaySurface := λ s,
  mkDisplaySurface (ds_id s) (toplevel_id s) (wl_surface_id s) (ds_app_id s) (ds_title s) (ds_pid s)
    (ds_mapped s) (ds_visible s) (ds_x s) (ds_y s) (ds_width s) (ds_height s) (ds_stacking s)
    (ds_border_width s) (ds_border_color s).

Record OutputInfo := mkOutputInfo {
  oi_id : Z;
  oi_name : list Z;
  oi_x : Z;
  oi_y : Z;
  oi_w : Z;
  oi_h : Z;
  oi_refresh : Z }.

Record Overlay := mkOverlay {
  ov_id : Z;
  ov_x : Z;
  ov_y : Z;
  ov_width : Z;
  ov_height : Z;
  ov_visible : bool;
  ov_pixels : list Z }.
#[export] Instance eta_Overlay : Eta Overlay := λ o,
  mkOverlay (ov_id o) (ov_x o) (ov_y o) (ov_width o) (ov_height o) (ov_visible o) (ov_pixels o).

Record DisplayState := mkDisplayState {
  next_surface_id_ : Z;
  ds_surfaces : gmap Z DisplaySurface;
  (** [OverlayManager::overlays_] *)
  overlays_ : gmap Z Overlay;
  ds_intercepts : list (Z * Z);
  ds_outputs : gmap Z OutputInfo }.
#[export] Instance eta_DisplayState : Eta DisplayState := λ s,
  mkDisplayState (next_surface_id_ s) (ds_surfaces s) (overlays_ s) (ds_intercepts s) (ds_outputs s).
Definition new_display_state : DisplayState := mkDisplayState 1 ∅ ∅ [] ∅.

(** [BackendControlServer], with the state it serves, and the world. *)
Record Server (K : Type) := mkServer {
  display : DisplayState;
  (** the descriptor of [client_] *)
  client_ : option Z;
  snapshot_generation_ : Z;
  host : K }.
Arguments mkServer {K}. Arguments display {K}. Arguments client_ {K}.
Arguments snapshot_generation_ {K}. Arguments host {K}.
#[export] Instance eta_Server K : Eta (Server K) := λ s,
  mkServer (display s) (client_ s) (snapshot_generation_ s) (host s).

(** What the listener of commands and the overlay manager call. *)
Inductive HostCall :=
| ConfigureToplevel (toplevel w h : Z)
| CloseToplevel (toplevel : Z)
| XConfigure (surface px py w h : Z)
| XClose (surface : Z)
| XActivate (surface : Z) (activated : bool)
| KeyboardEnter (wl_surface : Z)
| KeyboardLeave (wl_surface : Z)
| SetPointerGrabbed (grabbed : bool)
| RequestRepaint.

Class Host (K : Type) := {
  host_call : HostCall → K → K;
  is_xwayland_surface : Z → K → bool;
  (** [xdg_shell.toplevel(id)] and its [surface_id], if it has one *)
  toplevel_surface : Z → K → option Z;
  host_send : Z → list Z → K → bool * K;
  host_recv : Z → K → Received * K;
  host_readable : Z → K → bool * K;
  host_accept : K → option Z * K;
  host_close : Z → K → K;
  (** the bytes of a mapping of a descriptor *)
  host_mmap : Z → Z → K → option (list Z) * K }.

(** The order by a key. *)
Definition key_le {A} (key : A → Z) (a b : A) : Prop := key a ≤ key b.
#[export] Instance key_le_dec {A} (key : A → Z) : RelDecision (key_le key) := λ a b, decide (key a ≤ key b).
#[export] Instance key_le_trans {A} (key : A → Z) : Transitive (key_le key).
Proof. intros a b c. unfold key_le. lia. Qed.
#[export] Instance key_le_total {A} (key : A → Z) : Total (key_le key).
Proof. intros a b. unfold key_le. lia. Qed.

Section DisplayServer.
Context {K : Type} `{!Host K} `{!HashOrder}.
Local Abbreviation S := (Server K).

Definition dget {A} (f : DisplayState → A) : M S A := gets (λ s : S, f (display s)).
Definition dset (f : DisplayState → DisplayState) : M S unit := modify (λ s : S, s <| display ::= f |>).
Definition on_host {A} (m : M K A) : M S A :=
  zoom host (λ k s, s <| host := k |>) m.
Definition call (c : HostCall) : M S unit := on_host (modify (host_call c)).
Definition close (fd : Z) : M S unit := on_host (modify (host_close fd)).

(** [find(id)] and, when there is an entry, the body. *)
Definition with_surface (sid : Z) (body : DisplaySurface → M S unit) : M S unit :=
  o <- dget (λ d, ds_surfaces d !! sid) ;;
  match o with Some s => body s | None => ret tt end.
Definition surface_update (sid : Z) (f : DisplaySurface → DisplaySurface) : M S unit :=
  dset (λ d, d <| ds_surfaces ::= alter f sid |>).

(** A [FixedString] assigned from [c_str()]. *)
Definition fixed_string (n : nat) (s : list Z) : FixedString := assign (c_str s) (empty_string n).

(** ** Commands ([DisplayServerListener]) *)

(** [dispatch_command]. *)
Definition dispatch_command (p : Payload) : M S unit :=
  match p with
  | ConfigureSurface sid px py w h =>
      o <- dget (λ d, ds_surfaces d !! sid) ;;
      xwayland <- gets (λ s : S, is_xwayland_surface sid (host s)) ;;
      (match o with
       | Some s => if negb (toplevel_id s =? 0) then call (ConfigureToplevel (toplevel_id s) w h)
                   else if (xwayland : bool) then call (XConfigure sid px py w h) else ret tt
       | None => if (xwayland : bool) then call (XConfigure sid px py w h) else ret tt
       end) ;;
      call RequestRepaint
  | CloseSurface sid =>
      o <- dget (λ d, ds_surfaces d !! sid) ;;
      xwayland <- gets (λ s : S, is_xwayland_surface sid (host s)) ;;
      match o with
      | Some s => if negb (toplevel_id s =? 0) then call (CloseToplevel (toplevel_id s))
                  else if (xwayland : bool) then call (XClose sid) else ret tt
      | None => if (xwayland : bool) then call (XClose sid) else ret tt
      end
  | SetSurfaceActivated sid activated =>
      let activated := negb (activated =? 0) in
      let keyboard wl := call (if activated then KeyboardEnter wl else KeyboardLeave wl) in
      o <- dget (λ d, ds_surfaces d !! sid) ;;
      xwayland <- gets (λ s : S, is_xwayland_surface sid (host s)) ;;
      if (xwayland : bool) then
        (match o with
         | Some s => if negb (wl_surface_id s =? 0) then keyboard (wl_surface_id s) else ret tt
         | None => ret tt
         end) ;;
        call (XActivate sid activated)
      else
        match o with
        | Some s =>
            if toplevel_id s =? 0 then ret tt
            else
              wl <- gets (λ st : S, toplevel_surface (toplevel_id s) (host st)) ;;
              match wl with Some wl => keyboard wl | None => ret tt end
        | None => ret tt
        end
  | SetSurfaceVisible _ _ | SetSurfaceStacking _ _ | SetSurfaceBorder _ _ _ => call RequestRepaint
  | GrabPointer _ => call (SetPointerGrabbed true)
  | UngrabPointer _ => call (SetPointerGrabbed false)
  | _ => ret tt
  end.

Definition set_keyboard_intercepts (keys : list (Z * Z)) : M S unit :=
  dset (λ d, d <| ds_intercepts := keys |>).
Definition warp_pointer (px py : Z) : M S unit := dispatch_command (WarpPointer px py).
Definition grab_pointer : M S unit := dispatch_command (GrabPointer 0).
Definition ungrab_pointer : M S unit := dispatch_command (UngrabPointer 0).

(** ** The client of the control socket *)

Definition disconnect_client : M S unit :=
  c <- gets (λ s : S, client_ s) ;;
  match c with
  | None => ret tt
  | Some fd =>
      set_keyboard_intercepts [] ;;
      ungrab_pointer ;;
      close fd ;;
      modify (λ s : S, s <| client_ := None |>)
  end.

Definition send_event (p : Payload) : M S bool :=
  c <- gets (λ s : S, client_ s) ;;
  match c with
  | None => ret true
  | Some fd =>
      sent <- on_host (ask (host_send fd (send_message p))) ;;
      if (sent : bool) then ret true else disconnect_client ;; ret false
  end.
(** [emit_event]: the control server forwards every event. *)
Definition emit_event (p : Payload) : M S unit := send_event p ;; ret tt.

(** ** Surfaces *)

(** [emplace] leaves an entry that is there already. *)
Definition add_surface (app_id title : list Z) (pid toplevel : Z) : M S Z :=
  sid <- dget next_surface_id_ ;;
  let s := mkDisplaySurface sid toplevel 0 app_id title pid false false 0 0 0 0 0 0 0 in
  dset (λ d, d <| next_surface_id_ := to_u32 (sid + 1) |>
               <| ds_surfaces ::= λ m, if bool_decide (is_Some (m !! sid)) then m else <[sid := s]> m |>) ;;
  s <- dget (λ d, default s (ds_surfaces d !! sid)) ;;
  emit_event (SurfaceCreated (ds_id s) (fixed_string kMaxSurfaceAppIdBytes (ds_app_id s))
    (fixed_string kMaxSurfaceTitleBytes (ds_title s)) (ds_pid s)) ;;
  ret sid.

Definition surface_id_from_toplevel (toplevel : Z) (d : DisplayState) : Z :=
  default 0 (fst <$> List.find (λ e, toplevel_id e.2 =? toplevel) (hash_entries (ds_surfaces d))).

Definition set_wl_surface_id (sid wl : Z) : M S unit :=
  surface_update sid (λ s, s <| wl_surface_id := wl |>).
Definition surface_mapped (sid : Z) : M S unit :=
  with_surface sid (λ _,
    surface_update sid (λ s, s <| ds_mapped := true |>) ;; emit_event (SurfaceMapped sid)).
Definition surface_unmapped (sid : Z) : M S unit :=
  with_surface sid (λ _,
    surface_update sid (λ s, s <| ds_mapped := false |>) ;; emit_event (SurfaceUnmapped sid)).
Definition surface_destroyed (sid : Z) : M S unit :=
  with_surface sid (λ _,
    emit_event (SurfaceDestroyed sid) ;; dset (λ d, d <| ds_surfaces ::= delete sid |>)).
Definition destroy_surface_for_toplevel (toplevel : Z) : M S unit :=
  sid <- dget (surface_id_from_toplevel toplevel) ;;
  if negb (sid =? 0) then surface_destroyed sid else ret tt.
Definition surface_title_changed (sid : Z) (title : list Z) : M S unit :=
  with_surface sid (λ _,
    surface_update sid (λ s, s <| ds_title := title |>) ;;
    emit_event (SurfaceTitleChanged sid (fixed_string kMaxSurfaceTitleBytes title))).
Definition surface_app_id_changed (sid : Z) (app_id : list Z) : M S unit :=
  with_surface sid (λ _,
    surface_update sid (λ s, s <| ds_app_id := app_id |>) ;;
    emit_event (SurfaceAppIdChanged sid (fixed_string kMaxSurfaceAppIdBytes app_id))).
Definition surface_committed (sid w h : Z) : M S unit :=
  with_surface sid (λ _,
    surface_update sid (λ s, s <| ds_width := w |> <| ds_height := h |>) ;;
    emit_event (SurfaceCommitted sid w h)).

(** ** Outputs and input *)

Definition output_message (o : OutputInfo) : Payload :=
  OutputAdded (oi_id o) (fixed_string kMaxOutputNameBytes (oi_name o)) (oi_x o) (oi_y o)
    (oi_w o) (oi_h o) (oi_refresh o).
Definition output_added (o : OutputInfo) : M S unit :=
  dset (λ d, d <| ds_outputs ::= <[oi_id o := o]> |>) ;; emit_event (output_message o).
Definition output_removed (oid : Z) : M S unit :=
  dset (λ d, d <| ds_outputs ::= delete oid |>) ;; emit_event (OutputRemoved oid).

Definition flag (b : bool) : Z := if b then 1 else 0.
Definition key_press (keycode keysym mods : Z) : M S unit := emit_event (Key keycode keysym mods 1).
Definition button_press (sid px py button mods : Z) (released : bool) : M S unit :=
  emit_event (Button sid px py button mods (flag released)).
Definition pointer_motion (sid px py mods : Z) : M S unit := emit_event (PointerMotion sid px py mods).
Definition pointer_enter (sid : Z) : M S unit := emit_event (PointerEnter sid).

(** The modifiers that count: the low byte without Caps Lock and Num Lock. *)
Definition significant (mods : Z) : Z := Z.land (Z.land mods 255) (Z.lnot (Z.lor 2 16)).
Definition is_intercepted (keysym mods : Z) (d : DisplayState) : bool :=
  let state := significant mods in
  existsb (λ k : Z * Z, let wanted := significant k.2 in
    (k.1 =? keysym) && (Z.land state wanted =? wanted)) (ds_intercepts d).

(** ** Hit tests *)

(** Signed 32-bit arithmetic, undefined when the result does not fit. *)
Definition int32 (z : Z) : option Z := if (-2147483648 <=? z) && (z <? 2147483648) then Some z else None.
Definition add32 (a b : Z) : option Z := int32 (a + b).
Definition sub32 (a b : Z) : option Z := int32 (a - b).

(** The condition, evaluated from the left as far as it holds. *)
Definition contains (s : DisplaySurface) (px py : Z) : option bool :=
  let bw := to_i32 (ds_border_width s) in
  let within lo size p := l ← sub32 lo bw; if l <=? p then h ← add32 lo size; h ← add32 h bw; Some (p <? h) else Some false in
  inside ← within (ds_x s) (ds_width s) px;
  if inside : bool then within (ds_y s) (ds_height s) py else Some false.
Definition better (px py : Z) (best : Z * Z) (e : Z * DisplaySurface) : option (Z * Z) :=
  let s := e.2 in
  if negb (ds_mapped s && ds_visible s) then Some best
  else
    inside ← contains s px py;
    Some (if (inside : bool) && ((best.1 =? 0) || (best.2 <=? ds_stacking s)) then (e.1, ds_stacking s) else best).
Definition surface_at (px py : Z) (d : DisplayState) : option Z :=
  fst <$> foldl (λ best e, best ≫= λ best, better px py best e) (Some (0, 0)) (hash_entries (ds_surfaces d)).

Definition overlay_at (px py : Z) (d : DisplayState) : option Overlay :=
  snd <$> List.find (λ e : Z * Overlay, let o := e.2 in
    ov_visible o && (ov_x o <=? px) && (px <? ov_x o + ov_width o) &&
    (ov_y o <=? py) && (py <? ov_y o + ov_height o)) (hash_entries (overlays_ d)).

(** ** What the window manager asks for *)

Definition configure_surface (sid px py w h : Z) : M S unit :=
  with_surface sid (λ _,
    surface_update sid (λ s, s <| ds_x := px |> <| ds_y := py |> <| ds_width := w |> <| ds_height := h |>) ;;
    dispatch_command (ConfigureSurface sid px py w h)).
Definition set_surface_activated (sid : Z) (activated : bool) : M S unit :=
  dispatch_command (SetSurfaceActivated sid (flag activated)).
Definition set_surface_visible (sid : Z) (visible : bool) : M S unit :=
  surface_update sid (λ s, s <| ds_visible := visible |>) ;;
  dispatch_command (SetSurfaceVisible sid (flag visible)).
Definition set_surface_stacking (sid mode : Z) : M S unit :=
  surface_update sid (λ s, s <| ds_stacking := mode |>) ;;
  dispatch_command (SetSurfaceStacking sid mode).
Definition close_surface (sid : Z) : M S unit := dispatch_command (CloseSurface sid).
Definition set_surface_border (sid w color : Z) : M S unit :=
  surface_update sid (λ s, s <| ds_border_width := w |> <| ds_border_color := color |>) ;;
  dispatch_command (SetSurfaceBorder sid w color).

(** ** Overlays ([OverlayManager]) *)

Definition notify : M S unit := call RequestRepaint.
Definition create_overlay (oid px py w h : Z) : M S unit :=
  dset (λ d, d <| overlays_ ::= <[oid := mkOverlay oid px py w h true []]> |>) ;;
  notify ;;
  emit_event (OverlayExpose oid).
Definition overlay_update (oid fd size : Z) : M S bool :=
  o <- dget (λ d, overlays_ d !! oid) ;;
  match o with
  | None => close fd ;; ret false
  | Some ov =>
      if (ov_width ov <=? 0) || (ov_height ov <=? 0) then close fd ;; ret false
      else
        let expected := ov_width ov * ov_height ov * 4 in
        if negb (size =? expected) then close fd ;; ret false
        else
          data <- on_host (ask (host_mmap fd expected)) ;;
          close fd ;;
          match data with
          | None => ret false
          | Some bytes =>
              dset (λ d, d <| overlays_ ::= alter (λ o, o <| ov_pixels := bytes |>) oid |>) ;;
              notify ;;
              ret true
          end
  end.
Definition update_overlay (oid fd size : Z) : M S unit := overlay_update oid fd size ;; ret tt.
Definition destroy_overlay (oid : Z) : M S unit :=
  dset (λ d, d <| overlays_ ::= delete oid |>) ;; notify.
Definition overlay_button (oid px py button : Z) (released : bool) : M S unit :=
  emit_event (OverlayButton oid px py button (flag released)).

(** ** Events of the shell ([DisplayState::on]) *)

Inductive XdgEvent :=
| XdgToplevelCreated (toplevel surface pid : Z)
| XdgToplevelDestroyed (toplevel : Z)
| XdgToplevelMapped (toplevel w h : Z)
| XdgToplevelCommitted (toplevel w h : Z)
| XdgTitleChanged (toplevel : Z) (title : list Z)
| XdgAppIdChanged (toplevel : Z) (app_id : list Z)
| XdgFullscreenRequested
| XdgMinSizeChanged
| XdgMaxSizeChanged.

Definition with_toplevel (toplevel : Z) (body : Z → M S unit) : M S unit :=
  sid <- dget (surface_id_from_toplevel toplevel) ;;
  if sid =? 0 then ret tt else body sid.
Definition on_xdg (e : XdgEvent) : M S unit :=
  match e with
  | XdgToplevelCreated t wl pid => sid <- add_surface [] [] pid t ;; set_wl_surface_id sid wl
  | XdgToplevelDestroyed t => destroy_surface_for_toplevel t
  | XdgToplevelMapped t w h => with_toplevel t (λ sid, surface_mapped sid ;; surface_committed sid w h)
  | XdgToplevelCommitted t w h => with_toplevel t (λ sid, surface_committed sid w h)
  | XdgTitleChanged t title => with_toplevel t (λ sid, surface_title_changed sid title)
  | XdgAppIdChanged t app_id => with_toplevel t (λ sid, surface_app_id_changed sid app_id)
  | XdgFullscreenRequested | XdgMinSizeChanged | XdgMaxSizeChanged => ret tt
  end.

(** ** The snapshot *)

(** Copies of the entries, sorted by their identifier. *)
Definition sorted_by {A} (key : A → Z) (l : list A) : list A := merge_sort (key_le key) l.
Definition snapshot_outputs (d : DisplayState) : list OutputInfo :=
  sorted_by oi_id (hash_entries (ds_outputs d)).*2.
Definition snapshot_surfaces (d : DisplayState) : list DisplaySurface :=
  sorted_by ds_id (hash_entries (ds_surfaces d)).*2.

(** [false] as soon as the client is gone. *)
Fixpoint send_outputs (l : list OutputInfo) : M S bool :=
  match l with
  | [] => ret true
  | o :: l =>
      sent <- send_event (output_message o) ;;
      if (sent : bool) then send_outputs l else ret false
  end.
Definition has_client : M S bool := gets (λ s : S, bool_decide (is_Some (client_ s))).
Fixpoint send_surfaces (l : list DisplaySurface) : M S bool :=
  match l with
  | [] => ret true
  | s :: l =>
      send_event (SurfaceCreated (ds_id s) (fixed_string kMaxSurfaceAppIdBytes (ds_app_id s))
        (fixed_string kMaxSurfaceTitleBytes (ds_title s)) (ds_pid s)) ;;
      c1 <- has_client ;;
      if negb c1 then ret false
      else
        (if ds_mapped s then send_event (SurfaceMapped (ds_id s)) ;; ret tt else ret tt) ;;
        c2 <- has_client ;;
        if negb c2 then ret false
        else
          (if (0 <? ds_width s) || (0 <? ds_height s)
           then send_event (SurfaceCommitted (ds_id s) (ds_width s) (ds_height s)) ;; ret tt
           else ret tt) ;;
          c3 <- has_client ;;
          if negb c3 then ret false else send_surfaces l
  end.

Definition send_snapshot : M S bool :=
  modify (λ s : S, s <| snapshot_generation_ ::= λ g, to_u32 (g + 1) |>) ;;
  generation <- gets (λ s : S, snapshot_generation_ s) ;;
  sent <- send_event (SnapshotBegin generation) ;;
  if negb (sent : bool) then ret false
  else
    outputs <- dget snapshot_outputs ;;
    sent <- send_outputs outputs ;;
    if negb (sent : bool) then ret false
    else
      surfaces <- dget snapshot_surfaces ;;
      sent <- send_surfaces surfaces ;;
      if negb (sent : bool) then ret false else send_event (SnapshotEnd generation).

(** ** [BackendControlServer] *)

(** [on(msg)], with the descriptor that came along. *)
Definition on_message (p : Payload) (received_fd : option Z) : M S bool :=
  match p with
  | Hello peer_role _ =>
      if negb (peer_role =? WmController) then ret false else send_event (Hello DisplayServerHost 0)
  | SnapshotRequest _ => send_snapshot
  | ConfigureSurface sid px py w h => configure_surface sid px py w h ;; ret true
  | SetSurfaceVisible sid visible => set_surface_visible sid (negb (visible =? 0)) ;; ret true
  | SetSurfaceActivated sid activated => set_surface_activated sid (negb (activated =? 0)) ;; ret true
  | SetSurfaceStacking sid raised => set_surface_stacking sid raised ;; ret true
  | CloseSurface sid => close_surface sid ;; ret true
  | WarpPointer px py => warp_pointer px py ;; ret true
  | SetKeyboardIntercepts count keys =>
      set_keyboard_intercepts (take (Nat.min (Z.to_nat count) (length keys)) keys) ;; ret true
  | GrabPointer _ =>
      match received_fd with Some _ => ret false | None => grab_pointer ;; ret true end
  | UngrabPointer _ =>
      match received_fd with Some _ => ret false | None => ungrab_pointer ;; ret true end
  | SetSurfaceBorder sid w color => set_surface_border sid w color ;; ret true
  | CreateOverlay oid px py w h => create_overlay oid px py w h ;; ret true
  | UpdateOverlay oid bytes =>
      match received_fd with
      | None => ret false
      | Some fd => update_overlay oid fd bytes ;; close fd ;; ret true
      end
  | DestroyOverlay oid => destroy_overlay oid ;; ret true
  | _ => ret false
  end.

Definition dispatch_message (p : Payload) (received_fd : option Z) : M S bool :=
  if bool_decide (is_Some received_fd) && negb (bool_decide (message_type p = MsgUpdateOverlay))
  then ret false else on_message p received_fd.

Definition close_opt (fd : option Z) : M S unit :=
  match fd with Some fd => close fd | None => ret tt end.
(** The ends of [dispatch_one_message] that drop the client. *)
Definition reject (fd : option Z) : M S bool := close_opt fd ;; disconnect_client ;; ret false.

Definition dispatch_one_message : M S bool :=
  c <- gets (λ s : S, client_ s) ;;
  match c with
  | None => ret false
  | Some client =>
      rc <- on_host (ask (host_recv client)) ;;
      match rc with
      | RecvError _ fd | RecvPacket [] fd => reject fd
      | RecvPacket bytes fd =>
          match read_packet bytes with
          | PacketMessage p =>
              handled <- dispatch_message p fd ;;
              if (handled : bool) then ret true else reject fd
          | PacketTooShort | PacketInvalid | PacketUnknown _ => reject fd
          end
      end
  end.

Definition poll_readable : M S bool :=
  c <- gets (λ s : S, client_ s) ;;
  match c with Some fd => on_host (ask (host_readable fd)) | None => ret false end.
Fixpoint dispatch_loop (fuel : nat) : M S unit :=
  match fuel with
  | O => λ _, None
  | Datatypes.S n =>
      handled <- dispatch_one_message ;;
      if negb (handled : bool) then ret tt
      else
        readable <- poll_readable ;;
        if (readable : bool) then dispatch_loop n else ret tt
  end.
Definition dispatch_pending (fuel : nat) : M S unit :=
  c <- has_client ;;
  if (c : bool) then dispatch_loop fuel else ret tt.

(** The loop of [accept_pending], over a listener that is open. *)
Fixpoint accept_pending (fuel : nat) : M S unit :=
  match fuel with
  | O => λ _, None
  | Datatypes.S n =>
      o <- on_host (ask host_accept) ;;
      match o with
      | None => ret tt
      | Some fd =>
          disconnect_client ;;
          modify (λ s : S, s <| client_ := Some fd |>) ;;
          accept_pending n
      end
  end.
End DisplayServer.

(** ** The main loop ([run_display_server]) *)

(** What one round calls besides the control server. *)
Class ServerLoop (K : Type) := {
  flush_clients : M (Server K) unit;
  dispatch_wayland : M (Server K) unit;
  request_repaint : M (Server K) unit;
  (** false when the output window has been closed *)
  pump_output : M (Server K) bool;
  dispatch_xwayland : M (Server K) unit;
  repaint_and_idle : M (Server K) unit }.

(** The results of [poll]: [revents & POLLIN], in the order of the array; the
    entries of the control client and of XWayland are there if they exist. *)
Record Polled := mkPolled {
  wl_ready : bool;
  output_ready : bool;
  listener_ready : bool;
  control_ready : option bool;
  xcb_ready : option bool }.

Section Loop.
Context {K : Type} `{!Host K} `{!HashOrder} `{!ServerLoop K}.

(** The entries from index 3 on. *)
Definition extra_fds (p : Polled) : list bool :=
  match control_ready p with Some b => [b] | None => [] end ++
  match xcb_ready p with Some b => [b] | None => [] end.

(** A round of the loop after [poll]: does the loop go on? *)
Definition server_round (fuel : nat) (p : Polled) : M (Server K) bool :=
  (if wl_ready p then dispatch_wayland ;; request_repaint else ret tt) ;;
  running <- (if output_ready p then pump_output else ret true) ;;
  if negb (running : bool) then ret false
  else
    (if listener_ready p then accept_pending fuel else ret tt) ;;
    let fds := extra_fds p in
    let control := bool_decide (is_Some (control_ready p)) && default false (fds !! 0%nat) in
    (if (control : bool) then dispatch_pending fuel else ret tt) ;;
    let poll_index := if (control : bool) then 1%nat else 0%nat in
    (if bool_decide (is_Some (xcb_ready p)) && default false (fds !! poll_index)
     then dispatch_xwayland ;; request_repaint else ret tt) ;;
    repaint_and_idle ;;
    ret true.
End Loop.
