(* ===== verification/XWayland.v ===== *)
(** * X11 applications under the display server ([libwlserver/src/x11])

    [xwm.cpp]: the window manager of XWayland, which announces a mapped X window
    as a surface of the display server once it knows its Wayland surface;
    [xwayland_shell.cpp]: the serials by which the two are matched; and the
    entry points of [xwayland.cpp].  The X connection is [X11Server], the display
    server's state is [DisplayServer]'s: [DisplayStateSurfaceSink] only forwards. *)

From S2P Require Import Prelude Exceptions TextStream Geometry Events Protocol Ipc X11Server.
From S2P Require Import WaylandBackend.
From S2P Require Import DisplayServer.
Local Open Scope Z_scope.

(** ** Data *)

(** No surface, and no Wayland surface, is 0. *)
Record XWindow := mkXWindow {
  xw_id : Z;
  xw_surface : Z;
  xw_wl : Z;
  xw_title : string;
  xw_class : string;
  xw_pid : Z;
  xw_override : bool;
  xw_mapped : bool;
  xw_pos : Vec2;
  xw_size : Vec2;
  xw_serial : Z }.
#[export] Instance eta_XWindow : Eta XWindow := λ w,
  mkXWindow (xw_id w) (xw_surface w) (xw_wl w) (xw_title w) (xw_class w) (xw_pid w) (xw_override w)
    (xw_mapped w) (xw_pos w) (xw_size w) (xw_serial w).

Record Xwm := mkXwm {
  conn_ : bool;
  wm_window_ : Z;
  windows_ : gmap Z XWindow;
  managed_surface_ids_ : gset Z }.
#[export] Instance eta_Xwm : Eta Xwm := λ x, mkXwm (conn_ x) (wm_window_ x) (windows_ x) (managed_surface_ids_ x).

(** The resource of the Wayland surface, and its serial (0: not set). *)
Record PendingXSurface := mkPending { pd_surface : Z; pd_serial : Z }.
#[export] Instance eta_Pending : Eta PendingXSurface := λ p, mkPending (pd_surface p) (pd_serial p).

(** [XWayland]: whether [xwm_] and [shell_] exist (they are made together), and
    the rest of the world. *)
Record XwlWorld (K : Type) := mkXwl {
  ready_ : bool;
  xwm : Xwm;
  shell_surfaces_ : gmap Z PendingXSurface;
  xhost : K }.
Arguments mkXwl {K}. Arguments ready_ {K}. Arguments xwm {K}. Arguments shell_surfaces_ {K}. Arguments xhost {K}.
#[export] Instance eta_XwlWorld K : Eta (XwlWorld K) := λ w, mkXwl (ready_ w) (xwm w) (shell_surfaces_ w) (xhost w).

Definition XCB_EVENT_MASK_SUBSTRUCTURE_NOTIFY : Z := 524288.
Definition XCB_EVENT_MASK_SUBSTRUCTURE_REDIRECT : Z := 1048576.
Definition XCB_COMPOSITE_REDIRECT_MANUAL : Z := 1.

(** The connection to XWayland, the objects of its Wayland client, and the
    identifiers the compositor gives to surfaces (0 when it has none). *)
Class XwlEnv (K : Type) := {
  connect_to_fd : K → bool * K;
  xwl_root : Z;
  client_object : Z → K → option Z;
  id_from_resource : Z → K → Z }.

Section XWayland.
Context {K : Type} `{!XServer K} `{!XwlEnv K} `{!Host K} `{!HashOrder}.
Local Abbreviation W := (XwlWorld K).
Local Abbreviation S := (Server (XwlWorld K)).

(** ** What the display server asks of XWayland *)

Definition window_by_surface_id (sid : Z) (x : Xwm) : option XWindow :=
  snd <$> List.find (λ e : Z * XWindow, xw_surface e.2 =? sid) (hash_entries (windows_ x)).
Definition xwm_owns (sid : Z) (x : Xwm) : bool := bool_decide (sid ∈ managed_surface_ids_ x).

Definition send_configure (win px py w h : Z) : M K unit :=
  modify (x_request (XConfigureWindow win
    (Z.lor XCB_CONFIG_WINDOW_X (Z.lor XCB_CONFIG_WINDOW_Y (Z.lor XCB_CONFIG_WINDOW_WIDTH XCB_CONFIG_WINDOW_HEIGHT)))
    [to_u32 px; to_u32 py; w; h])).
Definition WM_PROTOCOLS : Z := x_intern_atom "WM_PROTOCOLS".
Definition WM_DELETE_WINDOW : Z := x_intern_atom "WM_DELETE_WINDOW".
Definition NET_ACTIVE_WINDOW : Z := x_intern_atom "_NET_ACTIVE_WINDOW".
Definition send_wm_delete (win : Z) : M K unit :=
  atoms <- get_atom_list_property win WM_PROTOCOLS ;;
  modify (x_request (if existsb (Z.eqb WM_DELETE_WINDOW) atoms
    then XSendEvent win XCB_EVENT_MASK_NO_EVENT (SentClientMessage win WM_PROTOCOLS WM_DELETE_WINDOW XCB_CURRENT_TIME)
    else XKillClient win)).
Definition set_net_active (win : Z) : M K unit :=
  modify (x_request (XChangeProperty xwl_root NET_ACTIVE_WINDOW XCB_ATOM_WINDOW 32 [win])).

(** On the X window of a surface, when there is one and a connection. *)
Definition on_surface (sid : Z) (body : Z → M K unit) (w : W) : M K unit :=
  if negb (ready_ w) then ret tt
  else match window_by_surface_id sid (xwm w) with
  | Some xw => if conn_ (xwm w) then body (xw_id xw) else ret tt
  | None => ret tt
  end.
Definition xwm_configure (sid px py w h : Z) : W → M K unit :=
  on_surface sid (λ win, send_configure win (to_i16 px) (to_i16 py) (to_u16 w) (to_u16 h)).
Definition xwm_close (sid : Z) : W → M K unit := on_surface sid send_wm_delete.
Definition xwm_activate (sid : Z) (activated : bool) : W → M K unit :=
  on_surface sid (λ win, if negb activated then ret tt
    else set_net_active win ;; modify (x_request (XSetInputFocus win XCB_CURRENT_TIME))).
(** The state after a computation that cannot fail. *)
Definition exec {A} (m : M K A) (k : K) : K := match m k with Some (_, k') => k' | None => k end.

(** The calls of the listener that are XWayland's; the others are the rest's. *)
#[export] Instance xwl_host : Host W := {
  host_call c w :=
    match c with
    | XConfigure sid px py ww h => w <| xhost ::= exec (xwm_configure sid px py ww h w) |>
    | XClose sid => w <| xhost ::= exec (xwm_close sid w) |>
    | XActivate sid activated => w <| xhost ::= exec (xwm_activate sid activated w) |>
    | _ => w <| xhost ::= host_call c |>
    end;
  is_xwayland_surface sid w := ready_ w && xwm_owns sid (xwm w);
  toplevel_surface t w := toplevel_surface t (xhost w);
  host_send fd b w := let r := host_send fd b (xhost w) in (r.1, w <| xhost := r.2 |>);
  host_recv fd w := let r := host_recv fd (xhost w) in (r.1, w <| xhost := r.2 |>);
  host_readable fd w := let r := host_readable fd (xhost w) in (r.1, w <| xhost := r.2 |>);
  host_accept w := let r := host_accept (xhost w) in (r.1, w <| xhost := r.2 |>);
  host_close fd w := w <| xhost ::= host_close fd |>;
  host_mmap fd n w := let r := host_mmap fd n (xhost w) in (r.1, w <| xhost := r.2 |>) }.

Definition wget {A} (f : W → A) : M S A := gets (λ s : S, f (host s)).
Definition wset (f : Xwm → Xwm) : M S unit := modify (λ s : S, s <| host ::= λ w, w <| xwm ::= f |> |>).
Definition on_x {A} (m : M K A) : M S A :=
  zoom (λ s : S, xhost (host s)) (λ k s, s <| host ::= λ w, w <| xhost := k |> |>) m.
Definition request (q : XRequest) : M S unit := on_x (modify (x_request q)).

(** ** The shell: Wayland surfaces that belong to X windows *)

Definition set_shell (f : gmap Z PendingXSurface → gmap Z PendingXSurface) : M S unit :=
  modify (λ s : S, s <| host ::= λ w, w <| shell_surfaces_ ::= f |> |>).
Definition get_xwayland_surface (res surface : Z) : M S unit := set_shell (<[res := mkPending surface 0]>).
(** Two 32-bit halves. *)
Definition serial_of (lo hi : Z) : Z := Z.lor (Z.shiftl hi 32) lo.
Definition set_serial (res lo hi : Z) : M S unit :=
  set_shell (alter (λ p, p <| pd_serial := serial_of lo hi |>) res).
Definition destroy_xwayland_surface (res : Z) : M S unit := set_shell (delete res).
Definition surface_from_serial (serial : Z) (w : W) : option Z :=
  if serial =? 0 then None
  else (λ e : Z * PendingXSurface, pd_surface e.2) <$>
    List.find (λ e : Z * PendingXSurface, pd_serial e.2 =? serial) (hash_entries (shell_surfaces_ w)).

(** ** Windows *)

(** [windows_.find] and, when there is an entry, the body; [it->second.f = v]. *)
Definition with_window (win : Z) (body : XWindow → M S unit) : M S unit :=
  o <- wget (λ w, windows_ (xwm w) !! win) ;;
  match o with Some xw => body xw | None => ret tt end.
Definition set_window (win : Z) (f : XWindow → XWindow) : M S unit :=
  wset (λ x, x <| windows_ ::= alter f win |>).
Definition get_window (win : Z) : M S XWindow := checked (λ s : S, windows_ (xwm (host s)) !! win).

Definition NET_WM_NAME : Z := x_intern_atom "_NET_WM_NAME".
Definition UTF8_STRING : Z := x_intern_atom "UTF8_STRING".
Definition read_title (win : Z) : M S unit :=
  t <- on_x (get_text_property win NET_WM_NAME UTF8_STRING) ;;
  t <- (if String.eqb t "" then on_x (get_text_property win XCB_ATOM_WM_NAME XCB_ATOM_STRING) else ret t) ;;
  if String.eqb t "" then ret tt else set_window win (λ xw, xw <| xw_title := t |>).
Definition read_class (win : Z) : M S unit :=
  c <- on_x (get_wm_class win) ;;
  if negb (String.eqb c.2 "") then set_window win (λ xw, xw <| xw_class := c.2 |>)
  else if negb (String.eqb c.1 "") then set_window win (λ xw, xw <| xw_class := c.1 |>)
  else ret tt.
Definition read_pid (win : Z) : M S unit :=
  pid <- on_x (get_cardinal_property win (x_intern_atom "_NET_WM_PID")) ;;
  if pid =? 0 then ret tt else set_window win (λ xw, xw <| xw_pid := pid |>).
Definition set_wm_state (win state : Z) : M S unit :=
  let a := x_intern_atom "WM_STATE" in request (XChangeProperty win a a 32 [state; XCB_NONE]).

(** A mapped window whose Wayland surface is known becomes a surface. *)
Definition announce (win wl : Z) : M S unit :=
  xw <- get_window win ;;
  sid <- add_surface (string_bytes (xw_class xw)) (string_bytes (xw_title xw)) (xw_pid xw) 0 ;;
  set_window win (λ xw, xw <| xw_surface := sid |>) ;;
  wset (λ x, x <| managed_surface_ids_ ::= union {[sid]} |>) ;;
  set_wl_surface_id sid wl ;;
  surface_mapped sid ;;
  surface_committed sid (x (xw_size xw)) (y (xw_size xw)).
Definition associate (win wl : Z) : M S unit :=
  set_window win (λ xw, xw <| xw_wl := wl |>) ;;
  xw <- get_window win ;;
  if xw_mapped xw && (xw_surface xw =? 0) then announce win wl
  else if negb (xw_surface xw =? 0) then set_wl_surface_id (xw_surface xw) wl
  else ret tt.
Definition try_associate (win : Z) : M S unit :=
  xw <- get_window win ;;
  if negb (xw_wl xw =? 0) then ret tt
  else if xw_serial xw =? 0 then ret tt
  else
    res <- wget (surface_from_serial (xw_serial xw)) ;;
    match res with
    | None => ret tt
    | Some r =>
        sid <- wget (λ w, id_from_resource r (xhost w)) ;;
        if sid =? 0 then ret tt else associate win sid
    end.
(** The surface of a window goes. *)
Definition drop_surface (sid : Z) : M S unit :=
  surface_destroyed sid ;; wset (λ x, x <| managed_surface_ids_ ::= λ m, m ∖ {[sid]} |>).

(** ** Events *)

Definition handle_create_notify (win : Z) (override : bool) (p sz : Vec2) : M S unit :=
  wm <- wget (wm_window_ ∘ xwm) ;;
  if win =? wm then ret tt
  else
    wset (λ x, x <| windows_ ::= <[win := mkXWindow win 0 0 "" "" 0 override false p sz 0]> |>) ;;
    request (XChangeAttributes win XCB_CW_EVENT_MASK [XCB_EVENT_MASK_PROPERTY_CHANGE]).
Definition handle_map_request (win : Z) : M S unit :=
  with_window win (λ xw,
    if xw_override xw then request (XMapWindow win)
    else
      read_title win ;;
      read_class win ;;
      read_pid win ;;
      request (XMapWindow win) ;;
      set_wm_state win 1 ;;
      set_window win (λ xw, xw <| xw_mapped := true |>) ;;
      xw <- get_window win ;;
      if xw_wl xw =? 0 then ret tt else announce win (xw_wl xw)).
(** The values that the mask asks for, in the order of the bits. *)
Definition configure_values (c : ConfigureRequest) : list (Z * Z) :=
  filter (λ p : Z * Z, Z.land (cr_mask c) p.1 ≠ 0)
    [(XCB_CONFIG_WINDOW_X, to_u32 (cr_x c)); (XCB_CONFIG_WINDOW_Y, to_u32 (cr_y c));
     (XCB_CONFIG_WINDOW_WIDTH, cr_width c); (XCB_CONFIG_WINDOW_HEIGHT, cr_height c);
     (XCB_CONFIG_WINDOW_BORDER_WIDTH, cr_border_width c); (XCB_CONFIG_WINDOW_SIBLING, cr_sibling c);
     (XCB_CONFIG_WINDOW_STACK_MODE, cr_stack_mode c)].
Definition handle_configure_request (c : ConfigureRequest) : M S unit :=
  request (XConfigureWindow (cr_window c) (foldr Z.lor 0 (configure_values c).*1) (configure_values c).*2).
Definition handle_unmap_notify (win : Z) : M S unit :=
  with_window win (λ xw,
    if negb (xw_mapped xw) then ret tt
    else
      set_window win (λ xw, xw <| xw_mapped := false |>) ;;
      (if negb (xw_surface xw =? 0) then
         drop_surface (xw_surface xw) ;; set_window win (λ xw, xw <| xw_surface := 0 |>)
       else ret tt) ;;
      set_wm_state win 0).
Definition handle_destroy_notify (win : Z) : M S unit :=
  with_window win (λ xw,
    (if negb (xw_surface xw =? 0) then drop_surface (xw_surface xw) else ret tt) ;;
    wset (λ x, x <| windows_ ::= delete win |>)).
Definition handle_property_notify (win atom : Z) : M S unit :=
  with_window win (λ _,
    if (atom =? NET_WM_NAME) || (atom =? XCB_ATOM_WM_NAME) then
      read_title win ;;
      xw <- get_window win ;;
      if negb (xw_surface xw =? 0) then surface_title_changed (xw_surface xw) (string_bytes (xw_title xw)) else ret tt
    else if atom =? x_intern_atom "WM_CLASS" then
      read_class win ;;
      xw <- get_window win ;;
      if negb (xw_surface xw =? 0) then surface_app_id_changed (xw_surface xw) (string_bytes (xw_class xw)) else ret tt
    else ret tt).
Definition handle_client_message (win type : Z) (data : list Z) : M S unit :=
  with_window win (λ _,
    if type =? x_intern_atom "WL_SURFACE_SERIAL" then
      set_window win (λ xw, xw <| xw_serial := serial_of (default 0 (data !! 0%nat)) (default 0 (data !! 1%nat)) |>) ;;
      try_associate win
    else if type =? x_intern_atom "WL_SURFACE_ID" then
      res <- wget (λ w, client_object (default 0 (data !! 0%nat)) (xhost w)) ;;
      match res with
      | None => ret tt
      | Some r =>
          sid <- wget (λ w, id_from_resource r (xhost w)) ;;
          if sid =? 0 then ret tt else associate win sid
      end
    else ret tt).
Definition xwm_event (ev : XEvent) : M S unit :=
  match ev with
  | XCreateNotify win override p sz => handle_create_notify win override p sz
  | XMapRequest win => handle_map_request win
  | XConfigureRequest c => handle_configure_request c
  | XUnmapNotify win => handle_unmap_notify win
  | XDestroyNotify win => handle_destroy_notify win
  | XPropertyNotify win atom => handle_property_notify win atom
  | XClientMessage win type _ data => handle_client_message win type data
  | _ => ret tt
  end.

(** The loop of [dispatch], until the queue is empty. *)
Fixpoint dispatch_events (fuel : nat) : M S unit :=
  match fuel with
  | O => λ _, None
  | Datatypes.S n =>
      ev <- on_x (ask x_poll) ;;
      match ev with None => ret tt | Some ev => xwm_event ev ;; dispatch_events n end
  end.
Definition connected (w : W) : bool := ready_ w && conn_ (xwm w).
Definition dispatch (fuel : nat) : M S unit :=
  up <- wget connected ;; if (up : bool) then dispatch_events fuel else ret tt.

(** ** The start *)

Definition create_wm_window : M S unit :=
  wm <- on_x (ask x_generate_id) ;;
  wset (λ x, x <| wm_window_ := wm |>) ;;
  let check := x_intern_atom "_NET_SUPPORTING_WM_CHECK" in
  request (XCreateWindowAt wm xwl_root (mkVec2 0 0) (mkVec2 10 10) 0 []) ;;
  request (XChangeProperty wm check XCB_ATOM_WINDOW 32 [wm]) ;;
  request (XChangeProperty wm NET_WM_NAME UTF8_STRING 8 (string_bytes "sirenwm")) ;;
  request (XChangeProperty xwl_root check XCB_ATOM_WINDOW 32 [wm]).
Definition setup_wm : M S unit :=
  request (XChangeAttributes xwl_root XCB_CW_EVENT_MASK
    [Z.lor (Z.lor XCB_EVENT_MASK_SUBSTRUCTURE_NOTIFY XCB_EVENT_MASK_SUBSTRUCTURE_REDIRECT) XCB_EVENT_MASK_PROPERTY_CHANGE]) ;;
  request (XRedirectSubwindows xwl_root XCB_COMPOSITE_REDIRECT_MANUAL) ;;
  create_wm_window ;;
  request (XChangeProperty xwl_root (x_intern_atom "_NET_SUPPORTED") XCB_ATOM_ATOM 32 [NET_ACTIVE_WINDOW]) ;;
  wm <- wget (wm_window_ ∘ xwm) ;;
  request (XSetSelectionOwner wm (x_intern_atom "WM_S0")) ;;
  request (XSetSelectionOwner wm (x_intern_atom "_NET_WM_CM_S0")).
(** [XWayland::on_ready]: the shell and the window manager are made. *)
Definition on_ready : M S unit :=
  modify (λ s : S, s <| host ::= λ w, w <| ready_ := true |> <| xwm := mkXwm false 0 ∅ ∅ |> <| shell_surfaces_ := ∅ |> |>) ;;
  up <- on_x (ask connect_to_fd) ;;
  if negb up then ret tt
  else wset (λ x, x <| conn_ := true |>) ;; setup_wm.
Definition destroy_xwm : M S unit :=
  x <- wget xwm ;;
  if conn_ x && negb (wm_window_ x =? 0) then request (XDestroyWindow (wm_window_ x)) else ret tt.
End XWayland.
