(* ===== verification/WaylandSafe.v ===== *)
(** * Safety of the Wayland backend

    What the backend relies on of its socket, as the class [PeerOk]; every
    handler, frame and port call by the judgement [xt] of [BackendSafe]. *)

From S2P Require Import Prelude Fuel Exceptions Geometry Workspace WorkspaceManager WindowIndex ManagerInv.
From S2P Require Import ManagerOps.
From S2P Require Import Events Protocol Ipc Commands Core Dispatch CoreSafe CoreRun.
From S2P Require Import Runtime LifecycleSafe.
From S2P Require Import BackendSafe WaylandBackend.
Local Open Scope Z_scope.

(** The characters the backend reads as C strings are terminated. *)
Definition strings_ok (p : Payload) : Prop :=
  match p with
  | OutputAdded _ name _ _ _ _ _ => is_Some (read_c_string name)
  | SurfaceCreated _ app_id title _ => is_Some (read_c_string app_id) ∧ is_Some (read_c_string title)
  | SurfaceTitleChanged _ s | SurfaceAppIdChanged _ s => is_Some (read_c_string s)
  | _ => True
  end.
Definition packet_ok (bytes : list Z) : Prop := ∀ p, read_packet bytes = PacketMessage p → strings_ok p.

Section Laws.
Context {P : Type} `{!Peer P} `{!Env (WWorld P)}.
Context (J : P → Prop) (pat backlog : P → nat) (owner : Z → string).
Local Abbreviation step := (srv_step J pat).

Class PeerOk : Prop := {
  pk_poll t s : J s → step s (peer_poll t s).2;
  pk_recv s : J s → step s (peer_recv s).2;
  pk_strings s bytes fd : J s → (peer_recv s).1 = RecvPacket bytes fd → packet_ok bytes;
  pk_send l fd s : J s → step s (peer_send l fd s).2;
  pk_close fd s : J s → step s (fd_close fd s);
  (** what there is to receive does not grow by looking at it *)
  pk_poll_backlog t s : (backlog (peer_poll t s).2 ≤ backlog s)%nat;
  pk_recv_backlog s b bytes fd : (peer_recv s).1 = RecvPacket (b :: bytes) fd →
    (backlog (peer_recv s).2 < backlog s)%nat;
  pk_close_backlog fd s : (backlog (fd_close fd s) ≤ backlog s)%nat }.

(** The subscribers of the hook [WindowRules]. *)
Class RulesOk : Prop := {
  rules_tame p win b : tame (λ w : WWorld P, J (peer w)) (λ w : WWorld P, pat (peer w)) owner
    (hook_window_rules p win b);
  rules_grow p win b r r' x : hook_window_rules p win b r = Some (x, r') → grows r r' }.
End Laws.

Section Safe.
Context {P : Type} `{!Peer P} `{!Env (WWorld P)} `{!HashOrder}.
Context (J : P → Prop) (pat backlog : P → nat) (owner : Z → string).
Context `{!PeerOk J pat backlog} `{!RulesOk J pat owner}.
Local Abbreviation R := (Runtime (WWorld P)).
Local Abbreviation xt := (xt (λ w : WWorld P, J (peer w)) (λ w : WWorld P, pat (peer w)) owner).
Local Abbreviation inv := (inv (λ w : WWorld P, J (peer w)) owner).
Implicit Types r : R.

(** ** Access *)

Lemma xt_wget {A} L (f : WBackend → A) : xt L (wget f).
Proof using Type. apply xt_gets. Qed.
Lemma xt_wset L f : xt L (wset f).
Proof using Type. apply xt_modify. intros r [Hc Hw Hm]. split_and!; [by split|by split|done]. Qed.
Lemma xt_on_peer {A} L (m : M P A) : srv_safe J pat m → xt L (on_peer m).
Proof using Type.
  intros Hm r Hr _. unfold on_peer. wp_step. eapply wp_mono; [by apply Hm; destruct Hr|]. cbv beta.
  intros a s [Hs Hp]. destruct Hr as [Hc Hw Hwin]. split_and!; [by split|by split|by intros p].
Qed.
Lemma xt_rules L win b : xt L (window_rules win b).
Proof using All.
  apply xt_bind; [apply xt_gets|]. intros ps. apply xt_for_each. intros p _ r Hr HL.
  pose proof (rules_tame J pat owner p win b r Hr) as Hrun. apply wp_some in Hrun as (x & r' & E & Hi & K).
  unfold wp. rewrite E. split_and!; [done|done|]. by eapply (rules_grow J pat owner).
Qed.
(** ** Pointers *)

Lemma xt_if_window L win body : (∀ w, xt L (body w)) → xt L (if_window win body).
Proof using Type.
  intros Hb. apply xt_window_state; [apply xt_ok|]. intros p. apply xt_bind; [apply xt_fld; left|].
  intros w. eapply xt_weaken; [|apply Hb]. intros q Hq. by right.
Qed.
End Safe.

#[export] Hint Resolve xt_wget xt_wset xt_rules : xt.
#[export] Hint Resolve pk_poll pk_recv pk_send pk_close : srv.

Ltac wt_step :=
  match goal with
  | |- xt _ _ _ _ (if_window _ _) => apply xt_if_window; intros ?
  | |- xt _ _ _ _ (on_peer (ask _)) => apply xt_on_peer, srv_safe_ask; intros; eauto with srv
  | _ => xt_core_step
  end.
Ltac wt_auto := repeat (cbv zeta; wt_step).

Section Handlers.
Context {P : Type} `{!Peer P} `{!Env (WWorld P)} `{!HashOrder}.
Context (J : P → Prop) (pat backlog : P → nat) (owner : Z → string).
Context `{!PeerOk J pat backlog} `{!RulesOk J pat owner}.
Local Abbreviation R := (Runtime (WWorld P)).
Local Abbreviation xt := (xt (λ w : WWorld P, J (peer w)) (λ w : WWorld P, pat (peer w)) owner).
Local Abbreviation inv := (inv (λ w : WWorld P, J (peer w)) owner).
Local Abbreviation keeps := (keeps (λ w : WWorld P, pat (peer w))).
Implicit Types r : R.

Lemma xt_close_fd L fd : xt L (close_fd fd).
Proof using All.
  destruct fd as [fd|]; [|apply xt_ret]. apply xt_on_peer. intros s Hs. wp_step. by apply (pk_close J pat backlog).
Qed.
Lemma xt_send L p fd : xt L (send_control p fd).
Proof using All. unfold send_control. wt_auto. Qed.
Lemma xt_poll L t : xt L (poll_readable t).
Proof using All. unfold poll_readable. wt_auto. Qed.
Lemma xt_read_string L b : is_Some (read_c_string b) → xt L (read_string b).
Proof using Type.
  intros [x Hx]. unfold read_string. apply xt_bind; [|intros ?; apply xt_ret].
  intros r Hr _. eapply wp_checked; [done|]. split_and!; [done|done|by intros p].
Qed.
Lemma xt_surface_set L sid f : xt L (surface_set sid f).
Proof using Type. apply xt_wset. Qed.
Lemma xt_forget L sid : xt L (forget_surface sid).
Proof using Type. apply xt_wset. Qed.
Lemma xt_post_if L ev : xt L (post_if_started ev).
Proof using All. unfold post_if_started. wt_auto. Qed.
Lemma xt_focus_if L win : xt L (focus_if_visible win).
Proof using All. unfold focus_if_visible. wt_auto. Qed.

Lemma xt_manage_if_ready L sid : xt L (manage_if_ready sid).
Proof using All.
  pose proof xt_surface_set. intros r Hr HL. unfold manage_if_ready, wget. do 4 wp_step.
  destruct (surfaces_ (wb (world r)) !! sid) as [s|] eqn:Es; [|by apply (xt_ret _ _ owner L)].
  destruct (_ && _); [|by apply (xt_ret _ _ owner L)]. unfold manage_surface. wp_step.
  eapply wp_checked; [done|]. cbv beta.
  match goal with |- wp ?m _ _ => assert (Hm : xt L m) by wt_auto end. by apply Hm.
Qed.

Lemma xt_refocus L : xt L refocus.
Proof using All. unfold refocus. wt_auto. Qed.
Lemma xt_destroyed L sid : xt L (on_SurfaceDestroyed sid).
Proof using All. pose proof xt_refocus. pose proof xt_forget. unfold on_SurfaceDestroyed. wt_auto. Qed.
Lemma xt_on_message L p : strings_ok p → xt L (on_message p).
Proof using All.
  pose proof xt_surface_set. pose proof xt_post_if. pose proof xt_focus_if. pose proof xt_manage_if_ready.
  pose proof xt_destroyed. pose proof xt_read_string.
  intros Hp. destruct p; cbn [on_message strings_ok] in *; try (destruct Hp; wt_auto; fail); wt_auto.
Qed.
Lemma xt_control_message L p fd : strings_ok p → xt L (dispatch_control_message p fd).
Proof using All. intros Hp. destruct fd; [apply xt_ret|by apply xt_on_message]. Qed.

Lemma xt_receive L closed short invalid refused : xt L (receive_packet closed short invalid refused).
Proof using All.
  pose proof xt_close_fd. pose proof xt_control_message.
  assert (Hk : ∀ rc, (∀ bytes fd, rc = RecvPacket bytes fd → packet_ok bytes) →
    xt L (match rc with
          | RecvError errno fd =>
              close_fd fd ;; throw ("display_server_backend: control IPC recv failed: " +:+ errno)
          | RecvPacket [] fd => close_fd fd ;; throw closed
          | RecvPacket bytes fd =>
              match read_packet bytes with
              | PacketTooShort => close_fd fd ;; throw short
              | PacketInvalid => close_fd fd ;; throw invalid
              | PacketUnknown t => close_fd fd ;; throw (refused t)
              | PacketMessage p =>
                  handled <- dispatch_control_message p fd ;;
                  close_fd fd ;;
                  if (handled : bool) then ok tt else throw (refused (type_code (message_type p)))
              end
          end)).
  { intros [errno fd|[|b bytes] fd] Hok; [wt_auto..|]. specialize (Hok _ _ eq_refl).
    unfold packet_ok in Hok. destruct (read_packet (b :: bytes)) as [| |t|p] eqn:Ep; [wt_auto..|].
    pose proof (Hok p eq_refl). wt_auto. }
  intros r Hr HL. unfold receive_packet. wp_step. unfold on_peer. wp_step. unfold ask at 1, wp at 1.
  pose proof (pk_recv J pat backlog (peer (world r)) (inv_world _ _ _ Hr)) as [Hj Hpat].
  pose proof (pk_strings J pat backlog (peer (world r))) as Hs. specialize (Hs).
  destruct (peer_recv (peer (world r))) as [rc s'] eqn:E. cbn [fst snd] in *.
  set (r1 := r <| world ::= _ |>).
  assert (I1 : inv r1) by (destruct Hr; by split).
  assert (K1 : keeps r r1) by (by split).
  eapply wp_mono; [apply (Hk rc); [|exact I1|exact HL]|].
  - intros bytes fd ->. eapply Hs; [by destruct Hr|done].
  - cbv beta. intros a r2 (I2 & K2 & G2). split_and!; [done|by etrans|exact G2].
Qed.
End Handlers.

#[export] Hint Resolve xt_close_fd xt_send xt_poll xt_surface_set xt_manage_if_ready xt_receive : xt.

(** ** Loops *)

Section Loops.
Context {P : Type} `{!Peer P} `{!Env (WWorld P)} `{HO : !HashOrder}.
Context (J : P → Prop) (pat backlog : P → nat) (owner : Z → string).
Context `{!PeerOk J pat backlog} `{!RulesOk J pat owner}.
Local Abbreviation R := (Runtime (WWorld P)).
Local Abbreviation xt := (xt (λ w : WWorld P, J (peer w)) (λ w : WWorld P, pat (peer w)) owner).
Local Abbreviation inv := (inv (λ w : WWorld P, J (peer w)) owner).
Local Abbreviation keeps := (keeps (λ w : WWorld P, pat (peer w))).
Implicit Types r : R.

(** With a bound on the packets of a tick the pump needs no other fuel. *)
Lemma xt_pump_loop n L k processed : 0 < k → (Z.to_nat (k - processed) < n)%nat → xt L (pump_loop n k processed).
Proof using All.
  intros Hk. revert processed. induction n as [|n IH]; intros processed Hn; [lia|]. cbn [pump_loop].
  unfold receive_event_packet. wt_step; [wt_auto|]. cbv zeta.
  rewrite (proj2 (Z.eqb_neq k 0)) by lia. cbn [orb].
  destruct (Z.ltb_spec (processed + 1) k); [|apply xt_ok].
  wt_step; [wt_auto|]. destruct a0; [|apply xt_ok]. apply IH. lia.
Qed.
Lemma xt_pump L k : 0 < k → xt L (pump_events (S (Z.to_nat k)) k).
Proof using All.
  intros Hk. unfold pump_events. wt_step; [wt_auto|]. destruct a; [|apply xt_ok].
  apply xt_pump_loop; [done|]. rewrite Z.sub_0_r. lia.
Qed.

(** ** The snapshot *)

(** Before the start no handler reaches the socket. *)
Definition idle r r' : Prop :=
  started_ (wb (world r)) = false → started_ (wb (world r')) = false ∧ peer (world r') = peer (world r).
#[export] Instance idle_preorder : PreOrder idle.
Proof.
  split; [done|]. intros r1 r2 r3 H1 H2 Hs. destruct (H1 Hs) as [Hs2 <-]. by apply H2.
Qed.

Lemma idle_wset f : (∀ b, started_ (f b) = started_ b) → preserves idle (wset f).
Proof using Type. intros Hf. apply preserves_modify; [apply _|]. intros r Hs. split; [cbn; by rewrite Hf|done]. Qed.
Lemma idle_post ev : preserves idle (post_event ev).
Proof using Type. by apply preserves_modify; [apply _|]. Qed.
Lemma idle_read b : preserves idle (read_string b).
Proof using Type.
  apply preserves_bind; [apply _|apply preserves_checked, _|]. intros x. apply preserves_ret, _.
Qed.
(** What happens only once the backend has started. *)
Lemma idle_started {A} (f : bool → M R A) (d : A) :
  f false = ret d → preserves idle (started <- wget started_ ;; f started).
Proof using Type.
  intros Hf r a r'. unfold wget, bind, gets. destruct (started_ (wb (world r))) eqn:Es.
  - intros _ Hs. congruence.
  - rewrite Hf. by intros [= _ <-].
Qed.
Lemma idle_post_if ev : preserves idle (post_if_started ev).
Proof using Type. by eapply idle_started. Qed.
Lemma idle_manage sid : preserves idle (manage_if_ready sid).
Proof using Type.
  intros r a r'. unfold manage_if_ready, wget, bind, gets. destruct (started_ (wb (world r))) eqn:Es.
  - intros _ Hs. congruence.
  - destruct (surfaces_ (wb (world r)) !! sid); by intros [= _ <-].
Qed.

Ltac idle_step :=
  match goal with
  | |- preserves _ (bind (wget started_) _) => first [apply idle_started with (d := tt); reflexivity | apply idle_started with (d := true); reflexivity]
  | |- preserves _ (bind _ _) => apply preserves_bind; [apply _| |intros ?]
  | |- preserves _ (ret _) => apply preserves_ret, _
  | |- preserves _ (wget _) => apply preserves_gets, _
  | |- preserves _ (wset _) => apply idle_wset; reflexivity
  | |- preserves _ (surface_set _ _) => apply idle_wset; reflexivity
  | |- preserves _ (read_string _) => apply idle_read
  | |- preserves _ (post_if_started _) => apply idle_post_if
  | |- preserves _ (manage_if_ready _) => apply idle_manage
  | |- preserves _ (forget_surface _) => apply idle_wset; reflexivity
  | |- preserves _ (if _ then _ else _) => apply preserves_if; [apply _|..]
  | |- preserves _ (match ?o with Some _ => _ | None => _ end) => destruct o
  end.

Lemma idle_destroyed sid : preserves idle (on_SurfaceDestroyed sid).
Proof using Type.
  intros r a r'. unfold on_SurfaceDestroyed, wget, bind, gets.
  destruct (surfaces_ (wb (world r)) !! sid) as [s|]; [|by intros [= _ <-]].
  destruct (started_ (wb (world r))) eqn:Es; [intros _ Hs; congruence|].
  apply (idle_wset (λ b, b <| prev_focused_ ::= _ |> <| surfaces_ ::= delete sid |>)). reflexivity.
Qed.
Lemma idle_message p : preserves idle (on_message p).
Proof using Type.
  pose proof idle_destroyed. destruct p; cbn [on_message]; repeat idle_step; auto.
Qed.

(** A packet accepted before the start brings its end nearer. *)
Lemma close_fd_backlog fd r x r' : close_fd fd r = Some (x, r') →
  wb (world r') = wb (world r) ∧ (backlog (peer (world r')) ≤ backlog (peer (world r)))%nat.
Proof using All.
  destruct fd as [fd|]; intros [= _ <-]; [|done]. split; [done|]. apply (pk_close_backlog J pat backlog).
Qed.
Lemma receive_idle closed short invalid refused r x r' : started_ (wb (world r)) = false →
  receive_packet closed short invalid refused r = Some (x, r') →
  started_ (wb (world r')) = false ∧
  (x = inr tt → (backlog (peer (world r')) < backlog (peer (world r)))%nat).
Proof using All.
  intros Hs. unfold receive_packet, on_peer, zoom, ask, bind, throw, ok, ret.
  pose proof (pk_recv_backlog J pat backlog (peer (world r))) as Hb. specialize (Hb).
  destruct (peer_recv (peer (world r))) as [rc s']. cbn [fst snd] in Hb. set (r1 := r <| world ::= _ |>).
  assert (Hs1 : started_ (wb (world r1)) = false) by done.
  destruct rc as [errno fd|[|b bytes] fd].
  1,2: destruct (close_fd fd r1) as [[[] r2]|] eqn:E; [|done]; apply close_fd_backlog in E as [E1 E2];
    intros [= <- <-]; by rewrite E1.
  specialize (Hb b bytes fd eq_refl).
  destruct (read_packet (b :: bytes)) as [| |t|p].
  1-3: destruct (close_fd fd r1) as [[[] r2]|] eqn:E; [|done]; apply close_fd_backlog in E as [E1 E2];
    intros [= <- <-]; by rewrite E1.
  destruct (dispatch_control_message p fd r1) as [[handled r2]|] eqn:Ed; [|done].
  assert (H2 : started_ (wb (world r2)) = false ∧ peer (world r2) = peer (world r1)).
  { destruct fd; [by injection Ed as _ <-|]. by apply (idle_message p _ _ _ Ed). }
  destruct H2 as [Hs2 Hp2].
  destruct (close_fd fd r2) as [[[] r3]|] eqn:E; [|done]. apply close_fd_backlog in E as [E1 E2].
  rewrite Hp2 in E2. change (peer (world r1)) with s' in E2.
  destruct handled; intros [= <- <-]; rewrite E1; (split; [done|]); [lia|done].
Qed.

Lemma snapshot_ends n r : inv r → started_ (wb (world r)) = false → (backlog (peer (world r)) < n)%nat →
  wp (snapshot_loop n) (λ _ r', inv r' ∧ keeps r r') r.
Proof using All.
  revert r. induction n as [|n IH]; intros r Hr Hs Hn; [lia|]. cbn [snapshot_loop]. unfold wget. do 3 wp_step.
  { by apply wp_ret. }
  assert (Hpoll : wp (poll_readable 3000) (λ _ r', (inv r' ∧ keeps r r') ∧ wb (world r') = wb (world r) ∧
    (backlog (peer (world r')) ≤ backlog (peer (world r)))%nat) r).
  { apply wp_and.
    - eapply wp_mono; [by apply (xt_poll J pat backlog owner [])|]. cbv beta. by intros b r' (? & ? & _).
    - unfold poll_readable, wget. do 3 wp_step; [|by apply wp_ret]. unfold on_peer. wp_step. unfold ask, wp.
      pose proof (pk_poll_backlog J pat backlog 3000 (peer (world r))). by destruct (peer_poll _ _). }
  wp_step. eapply wp_mono; [exact Hpoll|]. cbv beta. intros b r1 ((I1 & K1) & E1 & B1).
  destruct b; [|by apply wp_ret]. apply wp_bind. unfold receive_snapshot_packet.
  eapply wp_mono with (Q := λ x r2, (inv r2 ∧ keeps r1 r2) ∧ started_ (wb (world r2)) = false ∧
    (x = inr tt → (backlog (peer (world r2)) < backlog (peer (world r1)))%nat)).
  { apply wp_and.
    - eapply wp_mono; [by apply (xt_receive J pat backlog owner [])|]. cbv beta. by intros b r' (? & ? & _).
    - pose proof (xt_receive J pat backlog owner [] "display_server_backend: control IPC closed during snapshot"
        "display_server_backend: control snapshot packet too short"
        "display_server_backend: invalid control snapshot packet"
        (λ _, "display_server_backend: control snapshot dispatch failed")%string r1 I1 (Forall_nil_2 _)) as Hw.
      apply wp_some in Hw as (x & r2 & E2 & _). unfold wp. rewrite E2.
      apply receive_idle in E2; [done|by rewrite E1]. }
  cbv beta. intros [e|[]] r2 ((I2 & K2) & S2 & B2).
  - apply wp_ret. split; [done|by etrans].
  - specialize (B2 eq_refl). eapply wp_mono; [apply IH; [done..|lia]|]. cbv beta. intros _ r3 [I3 K3].
    split; [done|]. etrans; [exact K1|by etrans].
Qed.
End Loops.

(** ** Frames, the start, the ports *)

Section Frame.
Context {P : Type} `{!Peer P} `{!Env (WWorld P)} `{HO : !HashOrder}.
Context (J : P → Prop) (pat backlog : P → nat) (owner : Z → string).
Context `{!PeerOk J pat backlog} `{!RulesOk J pat owner}.
Local Abbreviation R := (Runtime (WWorld P)).
Local Abbreviation xt := (xt (λ w : WWorld P, J (peer w)) (λ w : WWorld P, pat (peer w)) owner).
Local Abbreviation inv := (inv (λ w : WWorld P, J (peer w)) owner).
Local Abbreviation keeps := (keeps (λ w : WWorld P, pat (peer w))).
Implicit Types r : R.

Lemma xt_border L win width color : xt L (set_surface_border win width color).
Proof using All. unfold set_surface_border. wt_auto. Qed.
Lemma wt_place L win w : xt L (place win w).
Proof using All. unfold place, configure_surface. wt_auto. Qed.
Lemma xt_paint L win c : xt L (paint_border win c).
Proof using All. pose proof xt_border. unfold paint_border. wt_auto. Qed.
Lemma wt_effect_map L win : xt L (effect_map win).
Proof using All. pose proof xt_border. pose proof wt_place. unfold effect_map, set_surface_visible. wt_auto. Qed.
Lemma wt_effect_focus L win : xt L (effect_focus win).
Proof using All.
  pose proof xt_border. pose proof xt_paint. unfold effect_focus, set_surface_activated. wt_auto.
Qed.
Lemma wt_effect_root L : xt L effect_focus_root.
Proof using All. pose proof xt_paint. unfold effect_focus_root, set_surface_activated. wt_auto. Qed.
Lemma wt_effect_update L win : xt L (effect_update win).
Proof using All. pose proof xt_border. pose proof wt_place. unfold effect_update. wt_auto. Qed.
Lemma wt_effect L e : xt L (apply_effect e).
Proof using All.
  pose proof wt_effect_map. pose proof wt_effect_focus. pose proof wt_effect_root. pose proof wt_effect_update.
  unfold apply_effect. cbv zeta. destruct (eff_kind e); unfold set_surface_visible, set_surface_stacking, close_surface, warp_pointer; wt_auto.
Qed.
Lemma xt_flush L win : xt L (flush_visible win).
Proof using All. pose proof wt_place. unfold flush_visible. wt_auto. Qed.
Lemma xt_frame L : xt L render_frame.
Proof using All. pose proof wt_effect. pose proof xt_flush. unfold render_frame. wt_auto. Qed.

Lemma xt_colors L : xt L reload_border_colors.
Proof using All. unfold reload_border_colors. wt_auto. Qed.
Lemma wt_on_start L : xt L on_start.
Proof using All. pose proof xt_colors. unfold on_start. wt_auto. Qed.
Lemma xt_shutdown L : xt L shutdown.
Proof using All. apply xt_wset. Qed.

Lemma xt_input L : xt L input_send_intercepts.
Proof using All. unfold input_send_intercepts, set_keyboard_intercepts. wt_auto. Qed.
Lemma xt_grab_key L k m : xt L (input_grab_key k m).
Proof using All. pose proof xt_input. unfold input_grab_key. wt_auto. Qed.
Lemma xt_ungrab_keys L : xt L input_ungrab_all_keys.
Proof using All. pose proof xt_input. unfold input_ungrab_all_keys. wt_auto. Qed.
Lemma xt_update_overlay L o fd b : xt L (update_overlay o fd b).
Proof using All. unfold update_overlay. wt_auto. Qed.
Lemma xt_render L px py w h : xt L (render_create_window px py w h).
Proof using All. unfold render_create_window, create_overlay. wt_auto. Qed.
Lemma xt_present L win w h fd : xt L (render_present win w h fd).
Proof using All. pose proof xt_update_overlay. unfold render_present. wt_auto. Qed.

Lemma construct_ends r : inv r → started_ (wb (world r)) = false →
  wpf construct (λ _ r', inv r' ∧ keeps r r') r.
Proof using All.
  intros Hr Hs.
  assert (Hsend : ∀ p r, inv r → wp (send_control p None)
    (λ _ r', (inv r' ∧ keeps r r') ∧ wb (world r') = wb (world r)) r).
  { intros p r0 H0. apply wp_and.
    - eapply wp_mono; [by apply (xt_send J pat backlog owner [])|]. cbv beta. by intros b r' (? & ? & _).
    - unfold send_control, wget. do 2 wp_step.
      eapply wp_bind, wp_mono with (Q := λ _ r', wb (world r') = wb (world r0)).
      + destruct (control_ _); [|by apply wp_ret]. unfold on_peer. wp_step. unfold ask, wp.
        by destruct (peer_send _ _ _).
      + cbv beta. intros [] r1 E1; by apply wp_ret. }
  pose proof (Hsend (Hello WmController 0) r Hr) as H1. apply wp_some in H1 as (x1 & r1 & E1 & (I1 & K1) & W1).
  pose proof (Hsend (SnapshotRequest 0) r1 I1) as H2. apply wp_some in H2 as (x2 & r2 & E2 & (I2 & K2) & W2).
  set (r3 := r2 <| world ::= λ w, w <| wb ::= λ b, b <| snapshot_complete_ := false |> |> |>).
  exists (S (backlog (peer (world r3)))). unfold construct, try_bind. apply wp_bind. unfold wp at 1. rewrite E1.
  destruct x1 as [e|[]]; [by apply wp_ret|]. apply wp_bind. unfold wp at 1. rewrite E2.
  assert (K : keeps r r2) by (by etrans).
  destruct x2 as [e|[]]; [by apply wp_ret|]. unfold bootstrap_snapshot. apply wp_bind. unfold wset. wp_step.
  change (wp (snapshot_loop (S (backlog (peer (world r3))))) (λ _ r', inv r' ∧ keeps r r') r3).
  assert (I3 : inv r3) by (destruct I2; by split). assert (K3 : keeps r r3) by (etrans; [exact K|by split]).
  eapply wp_mono; [apply (snapshot_ends J pat backlog owner); [done| |lia]|].
  - change (started_ (wb (world r2)) = false). by rewrite W2, W1.
  - cbv beta. intros _ r4 [I4 K4]. split; [done|by etrans].
Qed.
End Frame.
