(* ===== verification/DisplayMirror.v ===== *)
(** * What the window manager knows of the display server

    The server tells its client what happens to its surfaces and outputs; the
    backend keeps tables of them.  [replay] is the specification between the two:
    the effect of one message on the tables.  Every operation of the server sends
    messages whose replay takes the tables it had to those it has; the backend
    replays each message it receives. *)

From stdpp Require Import sorting.
From S2P Require Import Prelude Fuel Exceptions Geometry Workspace WorkspaceManager Events Protocol.
From S2P Require Import Ipc.
From S2P Require Import Commands Core Dispatch CoreSafe CoreRun Runtime LifecycleSafe BackendSafe.
From S2P Require Import WaylandBackend WaylandSafe DisplayServer.
Local Open Scope Z_scope.

(** ** Tables *)

Record SurfView := mkView { sv_app_id : list Z; sv_title : list Z; sv_pid : Z; sv_mapped : bool }.
#[export] Instance eta_SurfView : Eta SurfView := λ v,
  mkView (sv_app_id v) (sv_title v) (sv_pid v) (sv_mapped v).
Definition Tables : Type := gmap Z SurfView * gmap Z DisplayServerOutputInfo.

(** The characters of an array, up to the terminator. *)
Definition chars (b : FixedString) : list Z := default [] (fst <$> read_c_string b).

Definition replay (p : Payload) (t : Tables) : Tables :=
  match p with
  | SnapshotBegin _ => (∅, ∅)
  | OutputAdded oid name px py w h refresh =>
      (t.1, <[oid := mkOutput oid (chars name) px py w h refresh]> t.2)
  | OutputRemoved oid => (t.1, delete oid t.2)
  | SurfaceCreated sid app_id title pid => (<[sid := mkView (chars app_id) (chars title) pid false]> t.1, t.2)
  | SurfaceMapped sid => (alter (λ v, v <| sv_mapped := true |>) sid t.1, t.2)
  | SurfaceUnmapped sid => (alter (λ v, v <| sv_mapped := false |>) sid t.1, t.2)
  | SurfaceDestroyed sid => (delete sid t.1, t.2)
  | SurfaceTitleChanged sid title => (alter (λ v, v <| sv_title := chars title |>) sid t.1, t.2)
  | SurfaceAppIdChanged sid app_id => (alter (λ v, v <| sv_app_id := chars app_id |>) sid t.1, t.2)
  | _ => t
  end.
Definition replay_all (ps : list Payload) (t : Tables) : Tables := foldl (λ t p, replay p t) t ps.
(** The same for packets. *)
Definition replay_packet (b : list Z) (t : Tables) : Tables :=
  match read_packet b with PacketMessage p => replay p t | _ => t end.
Definition replay_packets (l : list (list Z)) (t : Tables) : Tables := foldl (λ t b, replay_packet b t) t l.

(** The tables of the backend, and those of the server with the names as a
    message can carry them. *)
Definition surf_view (s : DisplayServerSurfaceInfo) : SurfView :=
  mkView (sf_app_id s) (sf_title s) (sf_pid s) (sf_mapped s).
Definition client_tables (b : WBackend) : Tables := (surf_view <$> surfaces_ b, outputs_ b).
Definition carried (n : nat) (s : list Z) : list Z := take (n - 1) (c_str s).
Definition ds_view (s : DisplaySurface) : SurfView :=
  mkView (carried kMaxSurfaceAppIdBytes (ds_app_id s)) (carried kMaxSurfaceTitleBytes (ds_title s))
    (ds_pid s) (ds_mapped s).
Definition out_view (o : OutputInfo) : DisplayServerOutputInfo :=
  mkOutput (oi_id o) (carried kMaxOutputNameBytes (oi_name o)) (oi_x o) (oi_y o)
    (oi_w o) (oi_h o) (oi_refresh o).
Definition server_tables (d : DisplayState) : Tables :=
  (ds_view <$> ds_surfaces d, out_view <$> ds_outputs d).

(** The messages a server sends. *)
Definition served (p : Payload) : Prop :=
  match p with
  | Hello role _ => role = DisplayServerHost
  | SnapshotBegin _ | SnapshotEnd _ | OutputAdded _ _ _ _ _ _ _ | OutputRemoved _ | SurfaceCreated _ _ _ _
  | SurfaceMapped _ | SurfaceUnmapped _ | SurfaceDestroyed _ | SurfaceCommitted _ _ _
  | SurfaceTitleChanged _ _ | SurfaceAppIdChanged _ _ | Key _ _ _ _ | Button _ _ _ _ _ _
  | PointerMotion _ _ _ _ | PointerEnter _ | OverlayExpose _ | OverlayButton _ _ _ _ _ => True
  | _ => False
  end.
(** Well formed, of a kind the backend handles, its strings terminated. *)
Definition good (p : Payload) : Prop := wf_payload p ∧ served p ∧ strings_ok p.
Definition is_begin (p : Payload) : Prop := match p with SnapshotBegin _ => True | _ => False end.

Lemma replay_all_app ps qs t : replay_all (ps ++ qs) t = replay_all qs (replay_all ps t).
Proof. apply foldl_app. Qed.
Lemma replay_packets_app l l' t : replay_packets (l ++ l') t = replay_packets l' (replay_packets l t).
Proof. apply foldl_app. Qed.
Lemma replay_packets_sent ps t : Forall good ps →
  replay_packets (send_message <$> ps) t = replay_all ps t.
Proof.
  intros H. revert t. induction H as [|p ps [Hw _] _ IH]; intros t; [done|].
  cbn [fmap list_fmap replay_packets replay_all foldl].
  unfold replay_packet at 2. rewrite read_packet_send by done. apply IH.
Qed.

(** ** The backend replays what it receives *)

Section Client.
Context {P : Type} `{!Peer P} `{!Env (WWorld P)} `{HO : !HashOrder}.
(** The packets received so far. *)
Context (received : P → list (list Z)).
Local Abbreviation R := (Runtime (WWorld P)).
Implicit Types r : R.

Definition known r : Tables := client_tables (wb (world r)).
Definition same r r' : Prop := known r' = known r ∧ received (peer (world r')) = received (peer (world r)).
#[export] Instance same_preorder : PreOrder same.
Proof. split; [done|]. intros r1 r2 r3 [H1 E1] [H2 E2]. split; congruence. Qed.

Class ClientWire : Prop := {
  cw_packet s b fd : (peer_recv s).1 = RecvPacket b fd → received (peer_recv s).2 = received s ++ [b];
  cw_error s e fd : (peer_recv s).1 = RecvError e fd → received (peer_recv s).2 = received s;
  cw_poll t s : received (peer_poll t s).2 = received s;
  cw_send l fd s : received (peer_send l fd s).2 = received s;
  cw_close fd s : received (fd_close fd s) = received s;
  cw_rules p win b : preserves same (hook_window_rules p win b) }.

Lemma same_on_core {A} (m : M core A) : preserves same (on_core m).
Proof using Type.
  intros r a r'. unfold on_core, zoom, bind, modify, ret. destruct (m (core_ r)) as [[b c]|]; [|done].
  intros [= _ <-]. unfold flush_sink. cbn. by destruct (event_sink c).
Qed.
Lemma same_wset f : (∀ b, client_tables (f b) = client_tables b) → preserves same (wset f).
Proof using Type. intros Hf. apply preserves_modify; [apply _|]. intros r. split; [apply Hf|done]. Qed.
Lemma same_post ev : preserves same (post_event ev).
Proof using Type. by apply preserves_modify; [apply _|]. Qed.
End Client.

Create HintDb same.
#[export] Hint Resolve same_on_core same_post : same.
#[export] Hint Extern 1 (preserves _ (wset _)) => apply same_wset; reflexivity : same.

Ltac same_step :=
  match goal with
  | |- preserves _ (wget _) => apply preserves_gets, _
  | |- preserves _ (cget _) => apply preserves_gets, _
  | |- preserves _ _ => preserves_step
  | |- preserves _ _ => solve [eauto with same]
  end.
Ltac same_auto := repeat (cbv zeta; same_step).

Section Receive.
Context {P : Type} `{!Peer P} `{!Env (WWorld P)} `{HO : !HashOrder}.
Context (received : P → list (list Z)) `{!ClientWire received}.
Local Abbreviation R := (Runtime (WWorld P)).
Local Abbreviation same := (same received).
Implicit Types r : R.

Lemma same_peer {A} (m : M P A) : (∀ s a s', m s = Some (a, s') → received s' = received s) →
  preserves same (on_peer m).
Proof using Type.
  intros Hm r a r'. unfold on_peer, zoom. destruct (m (peer (world r))) as [[b s']|] eqn:E; [|done].
  intros [= _ <-]. split; [done|]. by apply Hm in E.
Qed.
Lemma same_send p fd : preserves same (send_control p fd).
Proof using All.
  unfold send_control. same_auto. apply same_peer. intros t x t' [= E].
  pose proof (cw_send received (send_message p) fd t) as H. by rewrite E in H.
Qed.
Lemma same_close fd : preserves same (close_fd fd).
Proof using All.
  unfold close_fd. same_auto. apply same_peer. intros ??? [= _ <-]. apply (cw_close received).
Qed.
Lemma same_rules win b : preserves same (window_rules win b).
Proof using All. unfold window_rules. same_auto. apply (cw_rules received). Qed.
Lemma same_dispatch cmd : preserves same (dispatch_ cmd).
Proof using Type. unfold dispatch_. same_auto. Qed.
Lemma same_fld {A} p (f : Window → A) : preserves same (fld p f).
Proof using Type. apply preserves_checked, _. Qed.
Lemma same_window win : preserves same (window_state win).
Proof using Type. apply preserves_gets, _. Qed.
Lemma same_window_any win : preserves same (window_state_any win).
Proof using Type. apply preserves_gets, _. Qed.

(** A change of a surface that its view does not show. *)
Lemma same_surface sid f : (∀ s, surf_view (f s) = surf_view s) → preserves same (surface_set sid f).
Proof using Type.
  intros Hf. apply same_wset. intros b. unfold client_tables. cbn. f_equal. apply map_eq. intros i.
  rewrite !lookup_fmap. destruct (decide (i = sid)) as [->|].
  - rewrite lookup_alter_eq. destruct (surfaces_ b !! sid); [|done]. cbn. by rewrite Hf.
  - by rewrite lookup_alter_ne.
Qed.
End Receive.

#[export] Hint Resolve same_send same_close same_rules same_dispatch same_fld same_window same_window_any : same.
#[export] Hint Extern 1 (preserves _ (surface_set _ _)) => apply same_surface; reflexivity : same.

Section Replay.
Context {P : Type} `{!Peer P} `{!Env (WWorld P)} `{HO : !HashOrder}.
Context (received : P → list (list Z)) `{!ClientWire received}.
Local Abbreviation R := (Runtime (WWorld P)).
Local Abbreviation same := (same received).
Local Abbreviation on_message := WaylandBackend.on_message.
Implicit Types r : R.

(** ** The answer of a handler *)

Definition answers (m : M R bool) : Prop := ∀ r b r', m r = Some (b, r') → b = true.
Lemma answers_ret : answers (ret true).
Proof using Type. by intros r b r' [= <- _]. Qed.
Lemma answers_bind {A} (m : M R A) k : (∀ a, answers (k a)) → answers (bind m k).
Proof using Type.
  intros Hk r b r'. unfold bind. destruct (m r) as [[a r1]|]; [|done]. apply Hk.
Qed.
Lemma served_answers p : served p → answers (on_message p).
Proof using Type.
  intros Hp. destruct p; try done; cbn [on_message];
    repeat match goal with
    | |- answers (bind _ _) => apply answers_bind; intros ?
    | |- answers (match ?o with Some _ => _ | None => _ end) => destruct o
    | |- answers (ret true) => apply answers_ret
    end.
  cbn in Hp. subst. apply answers_ret.
Qed.

(** ** Its effect on the tables *)

Definition moves {A} (g : Tables → Tables) (m : M R A) r : Prop := ∀ a r', m r = Some (a, r') →
  known r' = g (known r) ∧ received (peer (world r')) = received (peer (world r)).

Lemma mirror_moves_ret {A} g (a : A) r : g (known r) = known r → moves g (ret a) r.
Proof using Type. by intros Hg b r' [= _ <-]. Qed.
Lemma moves_same {A} g (m : M R A) r : preserves same m → g (known r) = known r → moves g m r.
Proof using Type. intros Hm Hg a r' E. rewrite Hg. by apply Hm in E. Qed.
Lemma moves_get {A B} g (f : WBackend → A) (k : A → M R B) r :
  moves g (k (f (wb (world r)))) r → moves g (bind (wget f) k) r.
Proof using Type. done. Qed.
Lemma mirror_moves_read {B} g b (k : list Z → M R B) r :
  moves g (k (chars b)) r → moves g (bind (read_string b) k) r.
Proof using Type.
  intros Hk a r'. unfold read_string, chars in *. unfold bind, checked in *.
  destruct (read_c_string b) as [[s rest]|]; [|done]. apply Hk.
Qed.
(** The change, and what follows it. *)
Lemma moves_change {B} g f (k : unit → M R B) r :
  client_tables (f (wb (world r))) = g (known r) → preserves same (k tt) → moves g (bind (wset f) k) r.
Proof using Type.
  intros Hf Hk a r' E. apply Hk in E as [E1 E2]. split; [by rewrite E1, <- Hf|by rewrite E2].
Qed.

Lemma view_alter (f : DisplayServerSurfaceInfo → DisplayServerSurfaceInfo) g (sid : Z) (m : gmap Z DisplayServerSurfaceInfo) :
  (∀ s, surf_view (f s) = g (surf_view s)) → surf_view <$> alter f sid m = alter g sid (surf_view <$> m).
Proof using Type.
  intros Hf. apply map_eq. intros i. rewrite lookup_fmap. destruct (decide (i = sid)) as [->|].
  - rewrite !lookup_alter_eq, lookup_fmap. destruct (m !! sid); [|done]. cbn. by rewrite Hf.
  - by rewrite !lookup_alter_ne, lookup_fmap by done.
Qed.

Lemma same_post_if ev : preserves same (post_if_started ev).
Proof using Type. unfold post_if_started. same_auto. Qed.
Lemma same_focus_if win : preserves same (focus_if_visible win).
Proof using Type. unfold focus_if_visible. same_auto. Qed.
Lemma same_manage_surface sid : preserves same (manage_surface sid).
Proof using All. unfold manage_surface. same_auto. Qed.
Lemma same_manage sid : preserves same (manage_if_ready sid).
Proof using All. pose proof same_manage_surface. unfold manage_if_ready. same_auto. Qed.
Lemma same_refocus : preserves same refocus.
Proof using Type. unfold refocus. same_auto. Qed.
#[local] Hint Resolve same_post_if same_focus_if same_manage same_refocus : same.

Lemma moves_forget sid r : moves (replay (SurfaceDestroyed sid)) (forget_surface sid) r.
Proof using Type.
  intros a r' [= _ <-]. split; [|done]. unfold known, client_tables. cbn. by rewrite fmap_delete.
Qed.
(** What leaves the tables alone before the change. *)
Lemma moves_after {A B} g (m : M R A) (k : A → M R B) r :
  preserves same m → (∀ a r1, known r1 = known r → moves g (k a) r1) → moves g (bind m k) r.
Proof using Type.
  intros Hm Hk b r'. unfold bind. destruct (m r) as [[a r1]|] eqn:E; [|done]. apply Hm in E as [E1 E2].
  intros E'. apply Hk in E' as [E3 E4]; [|done]. by rewrite E3, E4, E1, E2.
Qed.
Lemma moves_destroyed sid r : moves (replay (SurfaceDestroyed sid)) (on_SurfaceDestroyed sid) r.
Proof using Type.
  unfold on_SurfaceDestroyed. apply moves_get. destruct (surfaces_ _ !! sid) as [s|] eqn:Es.
  - apply moves_get. destruct (_ || _); [apply moves_forget|].
    repeat (apply moves_after; [same_auto|intros ???]). apply moves_forget.
  - apply mirror_moves_ret. unfold known, client_tables. cbn. by rewrite <- fmap_delete, delete_id.
Qed.

Lemma message_moves p r : moves (replay p) (on_message p) r.
Proof using All.
  assert (Hid : ∀ m : M R bool, (∀ t, replay p t = t) → preserves same m → moves (replay p) m r)
    by (intros m Hr Hm; by apply moves_same).
  assert (Halter : ∀ sid f g (k : unit → M R bool), (∀ s, surf_view (f s) = g (surf_view s)) →
    (∀ t, replay p t = (alter g sid t.1, t.2)) → preserves same (k tt) →
    moves (replay p) (bind (surface_set sid f) k) r).
  { intros sid f g k Hf Hg Hk. apply moves_change; [|done]. rewrite Hg. unfold known, client_tables. cbn.
    by rewrite (view_alter f g). }
  destruct p; try (apply Hid; [done|cbn [WaylandBackend.on_message]; same_auto; fail]);
    cbn [WaylandBackend.on_message].
  - apply moves_change; [|same_auto]. unfold client_tables. cbn. by rewrite fmap_empty.
  - apply mirror_moves_read, moves_change; [done|]. same_auto.
  - apply moves_change; [done|]. same_auto.
  - do 2 apply mirror_moves_read. apply moves_change; [|same_auto]. unfold client_tables, known. cbn.
    by rewrite fmap_insert.
  - eapply Halter; [|done|same_auto]. done.
  - eapply Halter; [|done|same_auto]. done.
  - intros a r'. unfold bind. destruct (on_SurfaceDestroyed _ r) as [[[] r1]|] eqn:E; [|done].
    intros [= _ <-]. by apply moves_destroyed in E.
  - apply moves_get. destruct (surfaces_ _ !! _) as [s|] eqn:Es.
    + apply mirror_moves_read. eapply Halter; [|done|same_auto]. done.
    + apply mirror_moves_ret. unfold known, client_tables. cbn. f_equal.
      apply alter_id. intros v. rewrite lookup_fmap, Es. done.
  - apply moves_get. destruct (surfaces_ _ !! _) as [s|] eqn:Es.
    + apply mirror_moves_read. eapply Halter; [|done|same_auto]. done.
    + apply mirror_moves_ret. unfold known, client_tables. cbn. f_equal.
      apply alter_id. intros v. rewrite lookup_fmap, Es. done.
Qed.
(** ** One packet *)

(** A packet that is accepted is replayed. *)
Lemma receive_moves closed short invalid refused r r' :
  receive_packet closed short invalid refused r = Some (inr tt, r') →
  ∃ b, received (peer (world r')) = received (peer (world r)) ++ [b] ∧
       known r' = replay_packet b (known r).
Proof using All.
  unfold receive_packet, on_peer, zoom, ask, bind, throw, ok, ret.
  pose proof (cw_packet received (peer (world r))) as Hp. specialize (Hp).
  destruct (peer_recv (peer (world r))) as [rc s']. cbn [fst snd] in Hp. set (r1 := r <| world ::= _ |>).
  destruct rc as [errno fd|[|b bytes] fd]; [by destruct (close_fd fd r1) as [[[] ?]|]..|].
  destruct (read_packet (b :: bytes)) as [| |t|p] eqn:Er;
    [by destruct (close_fd fd r1) as [[[] ?]|]..|].
  destruct (dispatch_control_message p fd r1) as [[handled r2]|] eqn:Ed; [|done].
  destruct fd as [fd|]; cbn in Ed.
  { injection Ed as <- <-. by destruct (close_fd (Some fd) r1) as [[[] ?]|]. }
  cbn. destruct handled; intros [= <-]. apply message_moves in Ed as [E1 E2].
  exists (b :: bytes). unfold replay_packet. rewrite Er, E1, E2. split; [|done].
  cbn. by rewrite (Hp (b :: bytes) None eq_refl).
Qed.

(** A packet the server sends is accepted. *)
Lemma receive_accepts closed short invalid refused p r x r' : good p →
  (peer_recv (peer (world r))).1 = RecvPacket (send_message p) None →
  receive_packet closed short invalid refused r = Some (x, r') → x = inr tt.
Proof using Type.
  intros (Hw & Hs & _) Hp. unfold receive_packet, on_peer, zoom, ask, bind, throw, ok, ret.
  destruct (peer_recv (peer (world r))) as [rc s']. cbn [fst] in Hp. subst rc.
  pose proof (read_packet_send p Hw) as Er.
  destruct (send_message p) as [|b bytes] eqn:Em; [apply (f_equal length) in Em; by rewrite send_length in Em|].
  rewrite Er. cbn [dispatch_control_message close_fd ret]. unfold ret.
  match goal with |- context [WaylandBackend.on_message p ?r1] =>
    destruct (WaylandBackend.on_message p r1) as [[handled r2]|] eqn:Ed end; [|done].
  rewrite (served_answers p Hs _ _ _ Ed). by intros [= <- _].
Qed.
End Replay.
