(* ===== verification/DisplayEmit.v ===== *)
(** * What the display server tells its client

    One connection of the control socket, from its acceptance to its end: every
    operation of the server sends messages whose replay accounts for what it
    does to the surfaces and outputs.  The messages first, then the operations. *)

From stdpp Require Import sorting.
From S2P Require Import Prelude Exceptions Geometry Events Protocol Ipc WaylandBackend DisplayServer.
From S2P Require Import WaylandSafe DisplayMirror.
Local Open Scope Z_scope.

(** ** Values in the range of their types *)

Definition surface_fields (s : DisplaySurface) : Prop :=
  u32 (ds_id s) ∧ Forall byte (ds_app_id s) ∧ Forall byte (ds_title s) ∧ u32 (ds_pid s) ∧
  i32 (ds_width s) ∧ i32 (ds_height s).
Definition output_fields (o : OutputInfo) : Prop :=
  u32 (oi_id o) ∧ Forall byte (oi_name o) ∧ i32 (oi_x o) ∧ i32 (oi_y o) ∧ i32 (oi_w o) ∧
  i32 (oi_h o) ∧ i32 (oi_refresh o).
Record state_ok (d : DisplayState) : Prop := {
  so_surface k s : ds_surfaces d !! k = Some s → ds_id s = k ∧ k < next_surface_id_ d ∧ surface_fields s;
  so_output k o : ds_outputs d !! k = Some o → oi_id o = k ∧ output_fields o;
  so_next : 0 < next_surface_id_ d < 4294967296 }.

(** ** Fixed strings *)

Lemma c_str_nonzero s : Forall (λ c, c ≠ 0) (c_str s).
Proof.
  induction s as [|c s IH]; cbn; [constructor|].
  destruct (Z.eqb_spec c 0); constructor; done.
Qed.
Lemma c_str_byte s : Forall byte s → Forall byte (c_str s).
Proof. induction 1 as [|c s Hc _ IH]; cbn; [constructor|]. destruct (c =? 0); by constructor. Qed.
Lemma fixed_read n s : (0 < n)%nat → fst <$> read_c_string (fixed_string n s) = Some (carried n s).
Proof.
  intros Hn. unfold fixed_string, carried. rewrite assign_read.
  - unfold empty_string. by rewrite length_replicate.
  - apply c_str_nonzero.
  - unfold empty_string. destruct n; [lia|done].
Qed.
Lemma fixed_chars n s : (0 < n)%nat → chars (fixed_string n s) = carried n s.
Proof. intros Hn. unfold chars. by rewrite fixed_read. Qed.
Lemma fixed_terminated n s : (0 < n)%nat → is_Some (read_c_string (fixed_string n s)).
Proof. intros Hn. pose proof (fixed_read n s Hn). by destruct (read_c_string _). Qed.
Lemma fixed_wf n s : Forall byte s → wf_field (KStr n) (FStr (fixed_string n s)).
Proof.
  intros Hs. split.
  - unfold fixed_string. rewrite fixed_length. apply length_replicate.
  - apply assign_bytes; [by apply c_str_byte|]. apply Forall_replicate. unfold byte. lia.
Qed.

(** ** Messages *)

Ltac wf_auto := unfold wf_payload; cbn [message_type struct_fields fields];
  repeat (constructor; [cbn [wf_field]; try done; try (unfold u32, i32 in *; lia)|]); try constructor.

Ltac good_auto := split_and!; [wf_auto|done|done].

Definition created (s : DisplaySurface) : Payload :=
  SurfaceCreated (ds_id s) (fixed_string kMaxSurfaceAppIdBytes (ds_app_id s))
    (fixed_string kMaxSurfaceTitleBytes (ds_title s)) (ds_pid s).
Lemma good_created s : surface_fields s → good (created s).
Proof.
  intros (Hi & Ha & Ht & Hp & _). split_and!; [|done|].
  - wf_auto; by apply fixed_wf.
  - split; apply fixed_terminated; unfold kMaxSurfaceAppIdBytes, kMaxSurfaceTitleBytes; lia.
Qed.
Lemma good_output o : output_fields o → good (output_message o).
Proof.
  intros (Hi & Hn & Hx & Hy & Hw & Hh & Hr). split_and!; [|done|].
  - wf_auto; by apply fixed_wf.
  - apply fixed_terminated. unfold kMaxOutputNameBytes. lia.
Qed.
Lemma good_title sid s : u32 sid → Forall byte s → good (SurfaceTitleChanged sid (fixed_string kMaxSurfaceTitleBytes s)).
Proof.
  intros Hi Hs. split_and!; [wf_auto; by apply fixed_wf|done|].
  apply fixed_terminated. unfold kMaxSurfaceTitleBytes. lia.
Qed.
Lemma good_app_id sid s : u32 sid → Forall byte s → good (SurfaceAppIdChanged sid (fixed_string kMaxSurfaceAppIdBytes s)).
Proof.
  intros Hi Hs. split_and!; [wf_auto; by apply fixed_wf|done|].
  apply fixed_terminated. unfold kMaxSurfaceAppIdBytes. lia.
Qed.

(** ** The replay of the messages of one surface or output *)

Lemma replay_created s t :
  replay (created s) t = (<[ds_id s := (ds_view s) <| sv_mapped := false |>]> t.1, t.2).
Proof.
  unfold created. cbn [replay]. by rewrite !fixed_chars by (vm_compute; lia).
Qed.
Lemma replay_output o t : replay (output_message o) t = (t.1, <[oi_id o := out_view o]> t.2).
Proof. unfold output_message. cbn [replay]. by rewrite fixed_chars by (vm_compute; lia). Qed.

Definition surface_messages (s : DisplaySurface) : list Payload :=
  [created s] ++ (if ds_mapped s then [SurfaceMapped (ds_id s)] else []) ++
  (if (0 <? ds_width s) || (0 <? ds_height s) then [SurfaceCommitted (ds_id s) (ds_width s) (ds_height s)] else []).
Lemma good_surface s : surface_fields s → Forall good (surface_messages s).
Proof.
  intros Hs. unfold surface_messages. constructor; [by apply good_created|].
  destruct Hs as (Hi & _ & _ & _ & Hw & Hh).
  apply Forall_app_2.
  - destruct (ds_mapped s); [apply Forall_singleton; good_auto|constructor].
  - destruct (_ || _); [apply Forall_singleton; good_auto|constructor].
Qed.
Lemma replay_surface s t : replay_all (surface_messages s) t = (<[ds_id s := ds_view s]> t.1, t.2).
Proof.
  unfold surface_messages. rewrite !replay_all_app.
  change (replay_all [created s] t) with (replay (created s) t). rewrite replay_created.
  assert (Hc : ∀ t, replay_all (if (0 <? ds_width s) || (0 <? ds_height s)
    then [SurfaceCommitted (ds_id s) (ds_width s) (ds_height s)] else []) t = t) by (by destruct (_ || _)).
  rewrite Hc. destruct (ds_mapped s) eqn:Em; cbn.
  - rewrite alter_insert_eq. do 2 f_equal. unfold ds_view. by rewrite Em.
  - do 2 f_equal. unfold ds_view. by rewrite Em.
Qed.

(** Any order of the entries of a map rebuilds it. *)
Lemma rebuild {A B} (f : A → B) (key : A → Z) (m : gmap Z A) (l : list A) (acc : gmap Z B) :
  l ≡ₚ (map_to_list m).*2 → (∀ k a, m !! k = Some a → key a = k) →
  foldl (λ t a, <[key a := f a]> t) acc l = (f <$> m) ∪ acc.
Proof.
  intros Hl Hk. revert m acc Hl Hk. induction l as [|a l IH]; intros m acc Hl Hk.
  - assert (m = ∅) as ->; [|by rewrite fmap_empty, (left_id_L ∅ _)].
    apply map_to_list_empty_iff. destruct (map_to_list m) as [|x l]; [reflexivity|].
    exfalso. by apply Permutation_nil_cons in Hl.
  - assert (Hin : a ∈ (map_to_list m).*2) by (rewrite <- Hl; left).
    apply list_elem_of_fmap in Hin as ([k a'] & -> & Hin). apply elem_of_map_to_list in Hin. cbn in *.
    pose proof (Hk _ _ Hin) as Ek. cbn [foldl]. rewrite (IH (delete k m)).
    + rewrite fmap_delete, Ek, <- insert_union_r by by apply lookup_delete_eq.
      rewrite insert_union_l. f_equal. rewrite insert_delete_eq, <- fmap_insert. by rewrite insert_id.
    + apply (Permutation_cons_inv (a := a')). rewrite Hl, <- (insert_id m k a') at 1 by done.
      rewrite <- insert_delete_eq, map_to_list_insert by apply lookup_delete_eq. done.
    + intros k' a [_ Hk']%lookup_delete_Some. by apply Hk.
Qed.

(** ** One connection *)

Section Emit.
Context {K : Type} `{!Host K} `{HO : !HashOrder}.
(** The descriptor of the connection, and all packets sent over it. *)
Context (c : Z) (sent : K → list (list Z)).
Local Abbreviation Srv := (Server K).
Implicit Types s : Srv.

Class ServerWire : Prop := {
  sw_send p k : sent (host_send c p k).2 = if (host_send c p k).1 then sent k ++ [p] else sent k;
  sw_call x k : sent (host_call x k) = sent k;
  sw_recv fd k : sent (host_recv fd k).2 = sent k;
  sw_bytes fd k b x : (host_recv fd k).1 = RecvPacket b x → Forall byte b;
  sw_readable fd k : sent (host_readable fd k).2 = sent k;
  sw_close fd k : sent (host_close fd k) = sent k;
  sw_mmap fd n k : sent (host_mmap fd n k).2 = sent k }.
Context `{!ServerWire}.

(** The surfaces and outputs stay, and the messages [ps] have been sent, unless
    the client is gone. *)
Record emitted (ps : list Payload) s s' : Prop := {
  em_surfaces : ds_surfaces (display s') = ds_surfaces (display s);
  em_outputs : ds_outputs (display s') = ds_outputs (display s);
  em_next : next_surface_id_ (display s') = next_surface_id_ (display s);
  em_client : client_ s' = Some c → client_ s = Some c ∧
    sent (host s') = sent (host s) ++ (send_message <$> ps) }.
Definition quiet : Srv → Srv → Prop := emitted [].

Lemma emitted_trans ps qs s1 s2 s3 : emitted ps s1 s2 → emitted qs s2 s3 → emitted (ps ++ qs) s1 s3.
Proof using Type.
  intros [S1 O1 N1 C1] [S2 O2 N2 C2]. split; [congruence..|]. intros Hc. destruct (C2 Hc) as [Hc2 E2].
  destruct (C1 Hc2) as [Hc1 E1]. split; [done|]. by rewrite E2, E1, fmap_app, app_assoc.
Qed.
#[export] Instance quiet_preorder : PreOrder quiet.
Proof using Type.
  split.
  - intros s. split; [done..|]. intros Hc. by rewrite app_nil_r.
  - intros s1 s2 s3. apply (emitted_trans [] []).
Qed.

(** [does R m]: [m] completes, and its steps are of the preorder [R]. *)
Definition does {A} (R : Srv → Srv → Prop) (m : M Srv A) : Prop := ∀ s, wp m (λ _ s', R s s') s.

Lemma does_ret {A} (a : A) : does quiet (ret a).
Proof using Type. intros s. wp_step. reflexivity. Qed.
Lemma does_gets {A} (f : Srv → A) : does quiet (gets f).
Proof using Type. intros s. wp_step. reflexivity. Qed.
Lemma does_bind {A B} (m : M Srv A) (k : A → M Srv B) : does quiet m → (∀ a, does quiet (k a)) → does quiet (bind m k).
Proof using Type.
  intros Hm Hk s. wp_step. eapply wp_mono; [apply Hm|]. cbv beta. intros a s1 H1.
  eapply wp_mono; [apply Hk|]. cbv beta. intros b s2 H2. by etrans.
Qed.
Lemma does_host {A} (m : M K A) : (∀ k, wp m (λ _ k', sent k' = sent k) k) → does quiet (on_host m).
Proof using Type.
  intros Hm s. unfold on_host. wp_step. eapply wp_mono; [apply Hm|]. cbv beta. intros a k Hk.
  split; [done..|]. intros Hc. split; [done|]. cbn. by rewrite Hk, app_nil_r.
Qed.
Lemma does_dset f : (∀ d, ds_surfaces (f d) = ds_surfaces d ∧ ds_outputs (f d) = ds_outputs d ∧
  next_surface_id_ (f d) = next_surface_id_ d) → does quiet (dset f).
Proof using Type.
  intros Hf s. unfold dset. wp_step. destruct (Hf (display s)) as (E1 & E2 & E3).
  split; [done..|]. intros Hc. by rewrite app_nil_r.
Qed.

Lemma does_call x : does quiet (call x).
Proof using All. apply does_host. intros k. wp_step. apply sw_call. Qed.
Lemma does_close fd : does quiet (close fd).
Proof using All. apply does_host. intros k. wp_step. apply sw_close. Qed.
End Emit.

Create HintDb quiet.
#[export] Hint Resolve does_ret does_gets does_call does_close : quiet.
#[export] Hint Extern 1 (does (quiet _ _) (dset _)) => apply does_dset; by intros [] : quiet.
Ltac quiet_step :=
  match goal with
  | |- does _ (bind _ _) => apply does_bind; [|intros ?]
  | |- does _ (dget _) => apply does_gets
  | |- does _ (if ?b then _ else _) => destruct b
  | |- does _ (match ?o with Some _ => _ | None => _ end) => destruct o
  | |- does _ _ => solve [eauto with quiet]
  end.
Ltac quiet_auto := repeat (cbv zeta; quiet_step).

Section Operations.
Context {K : Type} `{!Host K} `{HO : !HashOrder} (c : Z) (sent : K → list (list Z)).
Context `{!ServerWire c sent}.
Local Abbreviation Srv := (Server K).
Local Abbreviation emitted := (emitted c sent).
Local Abbreviation quiet := (quiet c sent).
Implicit Types s : Srv.

Lemma quiet_command p : does quiet (dispatch_command p).
Proof using All. destruct p; cbn [dispatch_command]; quiet_auto. Qed.

(** Nothing is sent to a client that is dropped. *)
Lemma disconnect_emitted ps s : wp disconnect_client (λ _ s', emitted ps s s' ∧ client_ s' = None) s.
Proof using All.
  unfold disconnect_client. do 2 wp_step. destruct (client_ s) as [fd|] eqn:Ec.
  - pose proof quiet_command.
    assert (Hq : does quiet (set_keyboard_intercepts [] ;; ungrab_pointer ;; close fd))
      by (unfold set_keyboard_intercepts, ungrab_pointer; quiet_auto).
    specialize (Hq s). apply wp_some in Hq as ([] & s1 & E1 & [S1 O1 N1 _]).
    unfold bind in *. destruct (set_keyboard_intercepts [] s) as [[[] s2]|]; [|done].
    destruct (ungrab_pointer s2) as [[[] s3]|]; [|done].
    destruct (close fd s3) as [[[] s4]|]; [|done]. injection E1 as ->. unfold wp, modify.
    split; [|done]. by split.
  - wp_step. split; [|done]. split; [done..|]. by rewrite Ec.
Qed.

Lemma send_emitted p s : wp (send_event p) (λ b s', emitted [p] s s' ∧ (b = false → client_ s' = None)) s.
Proof using All.
  unfold send_event. do 2 wp_step. destruct (client_ s) as [fd|] eqn:Ec.
  - wp_step. unfold on_host. wp_step. unfold ask, wp.
    pose proof (sw_send c sent (send_message p) (host s)) as Hs.
    destruct (host_send fd (send_message p) (host s)) as [b k] eqn:Eh. destruct b.
    + split; [|done]. split; [done..|]. cbn. intros Hc. rewrite Ec in Hc. injection Hc as ->. rewrite Eh in Hs. cbn in Hs. by rewrite Ec, Hs.
    + set (s1 := s <| host := k |>).
      pose proof (disconnect_emitted [p] s1) as Hd. unfold bind. apply wp_some in Hd as ([] & s2 & E2 & [S2 O2 N2 C2] & Hn).
      rewrite E2. cbn. split; [|done]. split; [done..|]. by rewrite Hn.
  - wp_step. split; [|done]. split; [done..|]. by rewrite Ec.
Qed.
Lemma emit_emitted p s : wp (emit_event p) (λ _ s', emitted [p] s s') s.
Proof using All.
  unfold emit_event. wp_step. eapply wp_mono; [apply send_emitted|]. cbv beta. intros b s' [He _]. by wp_step.
Qed.

(** ** The contract of an operation

    While the client stays, the messages sent in the meantime take the tables of
    the server from what they were to what they are; a snapshot among them does
    so whatever the tables were. *)

Definition tables s : Tables := server_tables (display s).
Record sync s s' : Prop := {
  sy_ok : state_ok (display s');
  sy_client : client_ s' = Some c → client_ s = Some c ∧ ∃ ps, Forall good ps ∧
    sent (host s') = sent (host s) ++ (send_message <$> ps) ∧
    replay_all ps (tables s) = tables s' ∧
    (Exists is_begin ps → ∀ t, replay_all ps t = tables s') }.
Definition syncs {A} (m : M Srv A) : Prop := ∀ s, state_ok (display s) → wp m (λ _ s', sync s s') s.

Lemma sync_refl s : state_ok (display s) → sync s s.
Proof using Type.
  intros Hs. split; [done|]. intros Hc. split; [done|]. exists []. split_and!; [constructor|by rewrite app_nil_r|done|].
  intros H. by apply Exists_nil in H.
Qed.
Lemma sync_trans s1 s2 s3 : sync s1 s2 → sync s2 s3 → sync s1 s3.
Proof using Type.
  intros [_ C1] [O2 C2]. split; [done|]. intros Hc. destruct (C2 Hc) as (Hc2 & qs & G2 & E2 & R2 & B2).
  destruct (C1 Hc2) as (Hc1 & ps & G1 & E1 & R1 & B1). split; [done|]. exists (ps ++ qs). split_and!.
  - by apply Forall_app_2.
  - by rewrite E2, E1, fmap_app, app_assoc.
  - by rewrite replay_all_app, R1.
  - intros [H|H]%Exists_app t; rewrite replay_all_app; [by rewrite B1|by apply B2].
Qed.

Lemma syncs_ret {A} (a : A) : syncs (ret a).
Proof using Type. intros s Hs. wp_step. by apply sync_refl. Qed.
Lemma syncs_bind {A B} (m : M Srv A) (k : A → M Srv B) : syncs m → (∀ a, syncs (k a)) → syncs (bind m k).
Proof using Type.
  intros Hm Hk s Hs. wp_step. eapply wp_mono; [by apply Hm|]. cbv beta. intros a s1 H1.
  eapply wp_mono; [apply Hk, H1|]. cbv beta. intros b s2 H2. by eapply sync_trans.
Qed.
Lemma syncs_dget {A B} (f : DisplayState → A) (k : A → M Srv B) :
  (∀ s, state_ok (display s) → wp (k (f (display s))) (λ _ s', sync s s') s) → syncs (bind (dget f) k).
Proof using Type. intros Hk s Hs. unfold dget. do 2 wp_step. by apply Hk. Qed.

(** Inert messages after a change of the tables that another one accounts for. *)
Lemma sync_emitted s s1 s' ps : client_ s1 = client_ s → host s1 = host s → state_ok (display s1) →
  emitted ps s1 s' → Forall good ps → Forall (λ p, ¬ is_begin p) ps →
  replay_all ps (tables s) = tables s1 → sync s s'.
Proof using Type.
  intros Ec Eh [So Oo No] [E1 E2 E3 Cl] Hg Hb Hr. split.
  - split; rewrite ?E1, ?E2, ?E3; done.
  - intros Hc. destruct (Cl Hc) as [Hc1 Es]. split; [congruence|]. exists ps. split_and!; [done|congruence| |].
    + rewrite Hr. unfold tables, server_tables. by rewrite E1, E2.
    + intros H. exfalso. apply Exists_exists in H as (p & Hp & H). rewrite Forall_forall in Hb. by apply (Hb p).
Qed.
Lemma syncs_quiet {A} (m : M Srv A) : does quiet m → syncs m.
Proof using Type.
  intros Hm s Hs. eapply wp_mono; [apply Hm|]. cbv beta. intros a s' Hq.
  by apply (sync_emitted s s s' []).
Qed.
(** A message that does not touch the tables. *)
Lemma syncs_emit p : good p → ¬ is_begin p → (∀ t, replay p t = t) → syncs (emit_event p).
Proof using All.
  intros Hg Hb Hr s Hs. eapply wp_mono; [apply emit_emitted|]. cbv beta. intros a s' He.
  apply (sync_emitted s s s' [p]); try done; [by apply Forall_singleton..|]. apply Hr.
Qed.
Lemma syncs_send p : good p → ¬ is_begin p → (∀ t, replay p t = t) → syncs (send_event p).
Proof using All.
  intros Hg Hb Hr s Hs. eapply wp_mono; [apply send_emitted|]. cbv beta. intros a s' [He _].
  apply (sync_emitted s s s' [p]); try done; [by apply Forall_singleton..|]. apply Hr.
Qed.

Lemma with_surface_syncs sid body :
  (∀ v, u32 sid → surface_fields v → syncs (body v)) → syncs (with_surface sid body).
Proof using Type.
  intros Hb. apply syncs_dget. intros s Hs. destruct (ds_surfaces (display s) !! sid) as [v|] eqn:Ev.
  - destruct (so_surface _ Hs _ _ Ev) as (<- & _ & Hf). apply Hb; [apply Hf|done|done].
  - wp_step. by apply sync_refl.
Qed.

(** ** Changes of one surface *)

Lemma server_alter f g sid (m : gmap Z DisplaySurface) :
  (∀ v, ds_view (f v) = g (ds_view v)) → ds_view <$> alter f sid m = alter g sid (ds_view <$> m).
Proof using Type.
  intros Hf. apply map_eq. intros i. rewrite lookup_fmap. destruct (decide (i = sid)) as [->|].
  - rewrite !lookup_alter_eq, lookup_fmap. destruct (m !! sid); [|done]. cbn. by rewrite Hf.
  - by rewrite !lookup_alter_ne, lookup_fmap by done.
Qed.
Definition good_change (f : DisplaySurface → DisplaySurface) : Prop :=
  ∀ v, ds_id (f v) = ds_id v ∧ (surface_fields v → surface_fields (f v)).
Lemma state_alter f sid d : good_change f → state_ok d →
  state_ok (d <| ds_surfaces ::= alter f sid |>).
Proof using Type.
  intros Hf [Hs Ho Hn]. split; [|done..]. cbn. intros k v. destruct (decide (k = sid)) as [->|].
  - rewrite lookup_alter_eq. destruct (ds_surfaces d !! sid) as [v'|] eqn:E; [|done]. intros [= <-].
    destruct (Hs _ _ E) as (Hk & Hlt & Hv). destruct (Hf v') as [-> Hf']. auto.
  - rewrite lookup_alter_ne by done. apply Hs.
Qed.
Lemma syncs_alter f sid : good_change f → (∀ v, ds_view (f v) = ds_view v) → syncs (surface_update sid f).
Proof using Type.
  intros Hf Hv s Hs. unfold surface_update, dset. wp_step. set (s1 := s <| display ::= _ |>).
  apply (sync_emitted s s1 s1 []); try done.
  - by apply state_alter.
  - change (replay_all [] (tables s)) with (tables s). unfold tables, server_tables. cbn. f_equal.
    rewrite (server_alter f (λ v, v)) by done. symmetry. by apply alter_id.
Qed.
Lemma syncs_change f g sid p : good_change f → (∀ v, ds_view (f v) = g (ds_view v)) →
  good p → ¬ is_begin p → (∀ t, replay p t = (alter g sid t.1, t.2)) →
  syncs (surface_update sid f ;; emit_event p).
Proof using All.
  intros Hf Hv Hg Hb Hr s Hs. unfold surface_update, dset. do 2 wp_step. set (s1 := s <| display ::= _ |>).
  eapply wp_mono; [apply emit_emitted|]. cbv beta. intros [] s' He.
  apply (sync_emitted s s1 s' [p]); try done; [by apply state_alter|by apply Forall_singleton..|].
  cbn. rewrite Hr. unfold tables, server_tables. cbn. by rewrite (server_alter f g).
Qed.
End Operations.

(** ** Every operation of the display server keeps its client informed

    The contract [sync] of [DisplayEmit], operation by operation: surfaces,
    outputs, input, the events of the shell, the snapshot, and the messages that
    arrive from the client. *)

Lemma hash_entries_perm `{!HashOrder} {A} (m : gmap Z A) : hash_entries m ≡ₚ map_to_list m.
Proof.
  unfold hash_entries. rewrite (omap_Permutation _ _ _ (hash_order_perm m)).
  assert (Hl : Forall (λ e, m !! e.1 = Some e.2) (map_to_list m)).
  { apply Forall_forall. intros [k a]. apply elem_of_map_to_list. }
  apply reflexive_eq. induction Hl as [|[k a] l Ha _ IH]; [done|]. cbn in *. by rewrite Ha, IH.
Qed.
Lemma sorted_values `{!HashOrder} {A} (key : A → Z) (m : gmap Z A) :
  sorted_by key (hash_entries m).*2 ≡ₚ (map_to_list m).*2.
Proof. unfold sorted_by. rewrite merge_sort_Permutation. by rewrite hash_entries_perm. Qed.

Section Operations.
Context {K : Type} `{!Host K} `{HO : !HashOrder} (c : Z) (sent : K → list (list Z)).
Context `{!ServerWire c sent}.
Local Abbreviation Srv := (Server K).
Local Abbreviation emitted := (emitted c sent).
Local Abbreviation sync := (sync c sent).
Local Abbreviation syncs := (syncs c sent).
Implicit Types s : Srv.

Ltac sync_auto :=
  repeat match goal with
  | |- DisplayEmit.syncs _ _ (bind _ _) => apply syncs_bind; [|intros ?]
  | |- DisplayEmit.syncs _ _ (ret _) => apply syncs_ret
  | |- DisplayEmit.syncs _ _ (if ?b then _ else _) => destruct b
  | |- DisplayEmit.syncs _ _ (dispatch_command _) => apply syncs_quiet, quiet_command; apply _
  end.
Ltac inert := apply syncs_emit; [apply _|good_auto|by intros []|done].

(** ** Surfaces *)

Lemma syncs_mapped sid : syncs (surface_mapped sid).
Proof using All.
  apply with_surface_syncs. intros v Hi _. eapply (syncs_change _ _ _ (λ v, v <| sv_mapped := true |>));
    [by intros []|by intros []|good_auto|by intros []|done].
Qed.
Lemma syncs_unmapped sid : syncs (surface_unmapped sid).
Proof using All.
  apply with_surface_syncs. intros v Hi _. eapply (syncs_change _ _ _ (λ v, v <| sv_mapped := false |>));
    [by intros []|by intros []|good_auto|by intros []|done].
Qed.
Lemma syncs_title sid title : Forall byte title → syncs (surface_title_changed sid title).
Proof using All.
  intros Ht. apply with_surface_syncs. intros v Hi _.
  eapply (syncs_change _ _ _ (λ v, v <| sv_title := carried kMaxSurfaceTitleBytes title |>)).
  - intros w. split; [done|]. unfold surface_fields. cbn. tauto.
  - done.
  - by apply good_title.
  - by intros [].
  - intros t. cbn [replay]. by rewrite fixed_chars by (vm_compute; lia).
Qed.
Lemma syncs_app_id sid app_id : Forall byte app_id → syncs (surface_app_id_changed sid app_id).
Proof using All.
  intros Ht. apply with_surface_syncs. intros v Hi _.
  eapply (syncs_change _ _ _ (λ v, v <| sv_app_id := carried kMaxSurfaceAppIdBytes app_id |>)).
  - intros w. split; [done|]. unfold surface_fields. cbn. tauto.
  - done.
  - by apply good_app_id.
  - by intros [].
  - intros t. cbn [replay]. by rewrite fixed_chars by (vm_compute; lia).
Qed.
Lemma syncs_committed sid w h : i32 w → i32 h → syncs (surface_committed sid w h).
Proof using All.
  intros Hw Hh. apply with_surface_syncs. intros v Hi _. apply syncs_bind.
  - apply syncs_alter; [|done]. intros v'. split; [done|]. unfold surface_fields. cbn. tauto.
  - intros _. inert.
Qed.
Lemma syncs_wl sid wl : syncs (set_wl_surface_id sid wl).
Proof using All. apply syncs_alter; [|done]. by intros []. Qed.

(** The message is sent first. *)
Lemma syncs_destroyed sid : syncs (surface_destroyed sid).
Proof using All.
  apply with_surface_syncs. intros v Hi _ s Hs. wp_step. eapply wp_mono; [by apply emit_emitted|].
  cbv beta. intros [] s1 [E1 E2 E3 Cl]. unfold dset. wp_step. destruct Hs as [So Oo No]. split.
  - split; cbn; rewrite ?E1, ?E2, ?E3; [|done..]. intros k w [_ Hk]%lookup_delete_Some. by apply So.
  - cbn. intros Hc. destruct (Cl Hc) as [Hc1 Es]. split; [done|]. exists [SurfaceDestroyed sid]. split_and!.
    + apply Forall_singleton. good_auto.
    + done.
    + unfold tables, server_tables. cbn. by rewrite E1, E2, fmap_delete.
    + intros H. exfalso. apply Exists_cons in H as [[]|H]. by apply Exists_nil in H.
Qed.
Lemma syncs_for_toplevel t body : (∀ sid, syncs (body sid)) → syncs (with_toplevel t body).
Proof using Type.
  intros Hb. apply syncs_dget. intros s Hs. destruct (_ =? 0); [|by apply Hb]. by apply syncs_ret.
Qed.
Lemma syncs_destroy_for t : syncs (destroy_surface_for_toplevel t).
Proof using All.
  pose proof syncs_destroyed. apply syncs_dget. intros s Hs. destruct (negb _); [by apply H|]. by apply (syncs_ret _ _ tt).
Qed.

(** A new surface takes a fresh identifier, as long as there is one. *)
Lemma add_surface_sync app_id title pid t s : state_ok (display s) → next_surface_id_ (display s) + 1 < 4294967296 →
  Forall byte app_id → Forall byte title → u32 pid → wp (add_surface app_id title pid t) (λ _ s', sync s s') s.
Proof using All.
  intros Hs Hn Ha Ht Hp. destruct Hs as [So Oo No]. unfold add_surface, dget, dset. do 4 wp_step.
  set (sid := next_surface_id_ (display s)) in *.
  assert (Hf : ds_surfaces (display s) !! sid = None).
  { destruct (_ !! sid) as [v|] eqn:E; [|done]. apply So in E. lia. }
  set (s1 := s <| display ::= _ |>). set (v := mkDisplaySurface sid _ _ _ _ _ _ _ _ _ _ _ _ _ _).
  assert (E : ds_surfaces (display s1) = <[sid := v]> (ds_surfaces (display s))).
  { cbn. by rewrite Hf. }
  assert (Hv : surface_fields v) by (unfold surface_fields, v; cbn; unfold u32, i32 in *; split_and!; try done; lia).
  do 2 wp_step.
  rewrite E, lookup_insert_eq. cbn [default from_option]. wp_step.
  eapply wp_mono; [apply (emit_emitted c sent (created v))|]. cbv beta. intros [] s' He. wp_step.
  apply (sync_emitted _ _ s s1 s' [created v]); try done.
  - split; [|done|].
    + intros k w. rewrite E. change (next_surface_id_ (display s1)) with (to_u32 (sid + 1)).
      rewrite to_u32_mod, Z.mod_small by lia.
      destruct (decide (k = sid)) as [->|].
      * rewrite lookup_insert_eq. intros [= <-]. split_and!; [done|lia|apply Hv..].
      * rewrite lookup_insert_ne by done. intros H. destruct (So _ _ H) as (? & ? & ?). split_and!; [done|lia|done].
    + change (next_surface_id_ (display s1)) with (to_u32 (sid + 1)). rewrite to_u32_mod, Z.mod_small; lia.
  - by apply Forall_singleton, good_created.
  - apply Forall_singleton. by intros [].
  - change (replay_all [created v] (tables s)) with (replay (created v) (tables s)). rewrite replay_created.
    unfold tables, server_tables. rewrite E, fmap_insert. done.
Qed.

(** ** Outputs and input *)

Lemma output_map_sync s (g : gmap Z OutputInfo → gmap Z OutputInfo) p : state_ok (display s) →
  (∀ k o, g (ds_outputs (display s)) !! k = Some o → oi_id o = k ∧ output_fields o) → good p → ¬ is_begin p →
  replay p (tables s) = (ds_view <$> ds_surfaces (display s), out_view <$> g (ds_outputs (display s))) →
  wp (dset (λ d, d <| ds_outputs ::= g |>) ;; emit_event p) (λ _ s', sync s s') s.
Proof using All.
  intros [So Oo No] Hg Hp Hb Hr. unfold dset. do 2 wp_step. eapply wp_mono; [by apply emit_emitted|].
  cbv beta. intros [] s' He.
  match type of He with DisplayEmit.emitted _ _ _ ?s1 _ => apply (sync_emitted _ _ s s1 s' [p]) end;
    try done; by apply Forall_singleton.
Qed.
Lemma syncs_output_added o : output_fields o → syncs (output_added o).
Proof using All.
  intros Hf s Hs. apply output_map_sync; [done| |by apply good_output|by intros []|].
  - intros k o'. destruct (decide (k = oi_id o)) as [->|].
    + rewrite lookup_insert_eq. by intros [= <-].
    + rewrite lookup_insert_ne by done. apply Hs.
  - by rewrite replay_output, fmap_insert.
Qed.
Lemma syncs_output_removed oid : u32 oid → syncs (output_removed oid).
Proof using All.
  intros Hi s Hs. apply output_map_sync; [done| |good_auto|by intros []|].
  - intros k o [_ Hk]%lookup_delete_Some. by apply Hs.
  - by rewrite fmap_delete.
Qed.

Lemma syncs_key kc ks mods : u32 kc → u32 ks → u32 mods → syncs (key_press kc ks mods).
Proof using All. intros ???. inert. Qed.
Lemma flag_u32 b : u32 (flag b).
Proof. destruct b; unfold u32, flag; lia. Qed.
Lemma syncs_button sid px py button mods released : u32 sid → i32 px → i32 py → u32 button → u32 mods →
  syncs (button_press sid px py button mods released).
Proof using All. pose proof (flag_u32 released). intros ?????. inert. Qed.
Lemma syncs_motion sid px py mods : u32 sid → i32 px → i32 py → u32 mods → syncs (pointer_motion sid px py mods).
Proof using All. intros ????. inert. Qed.
Lemma syncs_enter sid : u32 sid → syncs (pointer_enter sid).
Proof using All. intros ?. inert. Qed.
Lemma syncs_overlay_button oid px py button released : u32 oid → i32 px → i32 py → u32 button →
  syncs (overlay_button oid px py button released).
Proof using All. pose proof (flag_u32 released). intros ????. inert. Qed.

(** ** What the client asks for *)

Lemma command_quiet p : syncs (dispatch_command p).
Proof using All. by apply syncs_quiet, quiet_command. Qed.
Lemma syncs_configure sid px py w h : i32 w → i32 h → syncs (configure_surface sid px py w h).
Proof using All.
  intros Hw Hh. apply with_surface_syncs. intros v _ _. apply syncs_bind; [|intros _; apply command_quiet].
  apply syncs_alter; [|done]. intros v'. split; [done|]. unfold surface_fields. cbn. tauto.
Qed.
Lemma syncs_tweak sid f p : (∀ v, ds_id (f v) = ds_id v ∧ (surface_fields v → surface_fields (f v))) →
  (∀ v, ds_view (f v) = ds_view v) → syncs (surface_update sid f ;; dispatch_command p).
Proof using All.
  intros Hf Hv. apply syncs_bind; [by apply syncs_alter|intros _; apply command_quiet].
Qed.
Lemma syncs_create_overlay oid px py w h : u32 oid → syncs (create_overlay oid px py w h).
Proof using All.
  intros Ho. unfold create_overlay. apply syncs_bind; [apply syncs_quiet; quiet_auto|intros _].
  apply syncs_bind; [apply syncs_quiet; unfold notify; quiet_auto|intros _]. inert.
Qed.
End Operations.
