(* ===== verification/DisplayRun.v ===== *)
(** * The snapshot, the messages of the client, and runs of the server

    A snapshot rebuilds the tables whatever the client had; with the operations
    of [DisplayEmit] a whole run of the server keeps the contract [sync]. *)

From stdpp Require Import sorting.
From S2P Require Import Prelude Exceptions Geometry Events Protocol Ipc.
From S2P Require Import WaylandBackend WaylandSafe DisplayServer DisplayMirror DisplayEmit.
Local Open Scope Z_scope.

Section Run.
Context {K : Type} `{!Host K} `{HO : !HashOrder} (c : Z) (sent : K → list (list Z)).
Context `{!ServerWire c sent}.
Local Abbreviation Srv := (Server K).
Local Abbreviation emitted := (emitted c sent).
Local Abbreviation quiet := (quiet c sent).
Local Abbreviation sync := (sync c sent).
Local Abbreviation syncs := (syncs c sent).
Implicit Types s : Srv.

(** ** The snapshot *)

Lemma replay_outputs l t : replay_all (output_message <$> l) t =
  (t.1, foldl (λ t o, <[oi_id o := out_view o]> t) t.2 l).
Proof.
  revert t. induction l as [|o l IH]; intros t; [by destruct t|].
  change (replay_all (output_message <$> o :: l) t) with
    (replay_all (output_message <$> l) (replay (output_message o) t)).
  by rewrite replay_output, IH.
Qed.
Lemma replay_surfaces l t : replay_all (flat_map surface_messages l) t =
  (foldl (λ t v, <[ds_id v := ds_view v]> t) t.1 l, t.2).
Proof.
  revert t. induction l as [|v l IH]; intros t; [by destruct t|].
  cbn [flat_map]. by rewrite replay_all_app, replay_surface, IH.
Qed.

Definition snapshot_messages (generation : Z) (d : DisplayState) : list Payload :=
  [SnapshotBegin generation] ++ (output_message <$> snapshot_outputs d) ++
  flat_map surface_messages (snapshot_surfaces d) ++ [SnapshotEnd generation].

(** Whatever the tables were, a snapshot makes them those of the server. *)
Lemma replay_snapshot g d t : state_ok d → replay_all (snapshot_messages g d) t = server_tables d.
Proof.
  intros [So Oo _]. unfold snapshot_messages. rewrite !replay_all_app, replay_outputs, replay_surfaces.
  cbn [replay_all foldl replay fst snd]. unfold server_tables. f_equal.
  - rewrite (rebuild ds_view ds_id (ds_surfaces d)), (right_id_L ∅ (∪)); [done|apply sorted_values|].
    intros k v Hv. by apply So.
  - rewrite (rebuild out_view oi_id (ds_outputs d)), (right_id_L ∅ (∪)); [done|apply sorted_values|].
    intros k o Ho. by apply Oo.
Qed.
Lemma snapshot_values {A} (key : A → Z) (m : gmap Z A) a :
  a ∈ sorted_by key (hash_entries m).*2 → ∃ k, m !! k = Some a.
Proof.
  rewrite sorted_values, list_elem_of_fmap. intros ([k a'] & -> & H). exists k. by apply elem_of_map_to_list.
Qed.
Lemma good_snapshot g d : u32 g → state_ok d → Forall good (snapshot_messages g d).
Proof.
  intros Hg [So Oo _]. unfold snapshot_messages. repeat apply Forall_app_2.
  - apply Forall_singleton. good_auto.
  - apply Forall_fmap, Forall_forall. intros o [k Hk]%snapshot_values. by apply good_output, (Oo k).
  - apply Forall_forall. intros p (v & Hv & Hp)%list_elem_of_In%in_flat_map.
    apply list_elem_of_In, snapshot_values in Hv as [k Hv]. apply So in Hv as (_ & _ & Hv).
    apply good_surface in Hv. rewrite Forall_forall in Hv. by apply Hv, list_elem_of_In.
  - apply Forall_singleton. good_auto.
Qed.

(** A client that is gone leaves nothing to account for. *)
Lemma emitted_gone ps qs s s' : emitted ps s s' → client_ s' = None → emitted qs s s'.
Proof using Type. intros [E1 E2 E3 _] Hn. split; [done..|]. by rewrite Hn. Qed.

(** Sending that answers false once the client is gone, from a state with the
    surfaces and outputs of [d]. *)
Section Sends.
Context (d : DisplayState).
Definition at_d s : Prop := ds_surfaces (display s) = ds_surfaces d ∧ ds_outputs (display s) = ds_outputs d.
Definition sends (ps : list Payload) (m : M Srv bool) : Prop :=
  ∀ s, at_d s → wp m (λ b s', emitted ps s s' ∧ (b = false → client_ s' = None)) s.
Lemma at_d_emitted ps s s' : at_d s → emitted ps s s' → at_d s'.
Proof using Type. intros [H1 H2] [E1 E2 _ _]. split; congruence. Qed.
Lemma sends_then ps qs m k : sends ps m → sends qs k →
  sends (ps ++ qs) (bind m (λ b, if negb b then ret false else k)).
Proof using Type.
  intros Hm Hk s Hs. wp_step. eapply wp_mono; [by apply Hm|]. cbv beta. intros [] s1 [H1 N1]; cbn [negb].
  - eapply wp_mono; [by eapply Hk, at_d_emitted|]. cbv beta. intros b s2 [H2 N2]. split; [by eapply emitted_trans|done].
  - wp_step. specialize (N1 eq_refl). split; [|done]. by eapply emitted_gone.
Qed.
(** The same where the code looks at [client_] instead. *)
Lemma sends_check {A} ps qs (m : M Srv A) k : (∀ s, wp m (λ _ s', emitted ps s s') s) → sends qs k →
  sends (ps ++ qs) (m ;; b <- has_client ;; if negb b then ret false else k).
Proof using Type.
  intros Hm Hk s Hs. wp_step. eapply wp_mono; [apply Hm|]. cbv beta. intros a s1 H1.
  unfold has_client. do 2 wp_step. destruct (client_ s1) as [fd|] eqn:Ec.
  - rewrite bool_decide_true by done. cbn [negb]. eapply wp_mono; [by eapply Hk, at_d_emitted|]. cbv beta.
    intros b s2 [H2 N2]. split; [by eapply emitted_trans|done].
  - rewrite bool_decide_false by by intros [? ?]. cbn [negb]. wp_step. split; [|done]. by eapply emitted_gone.
Qed.
Lemma sends_ret : sends [] (ret true).
Proof using Type. intros s _. wp_step. split; [apply (reflexivity (R := quiet))|done]. Qed.
Lemma sends_send p : sends [p] (send_event p).
Proof using All. intros s _. by apply send_emitted. Qed.
Lemma emits_if (b : bool) p : ∀ s, wp (if b then send_event p ;; ret tt else ret tt)
  (λ _ s', emitted (if b then [p] else []) s s') s.
Proof using All.
  intros s. destruct b; [by apply emit_emitted|]. wp_step. apply (reflexivity (R := quiet)).
Qed.

Lemma send_outputs_sends l : sends (output_message <$> l) (send_outputs l).
Proof using All.
  induction l as [|o l IH]; [apply sends_ret|]. intros s Hs.
  pose proof (sends_then [output_message o] _ _ _ (sends_send (output_message o)) IH s Hs) as H.
  cbn [send_outputs]. unfold wp, bind in *. destruct (send_event _ s) as [[[] s1]|]; exact H.
Qed.
Lemma send_surfaces_sends l : sends (flat_map surface_messages l) (send_surfaces l).
Proof using All.
  induction l as [|v l IH]; [apply sends_ret|]. cbn [flat_map send_surfaces].
  unfold surface_messages. rewrite <- !app_assoc.
  apply sends_check; [intros s; eapply wp_mono; [by apply (send_emitted c sent (created v))|by intros ?? []]|].
  apply sends_check; [apply emits_if|]. by apply sends_check; [apply emits_if|].
Qed.

Lemma sends_outputs (k : list OutputInfo → M Srv bool) ps : sends ps (k (snapshot_outputs d)) →
  sends ps (bind (dget snapshot_outputs) k).
Proof using Type.
  intros Hk s Hs. unfold dget. do 2 wp_step. unfold snapshot_outputs in *. destruct Hs as [E1 E2]. rewrite E2. by apply Hk.
Qed.
Lemma sends_surfaces (k : list DisplaySurface → M Srv bool) ps : sends ps (k (snapshot_surfaces d)) →
  sends ps (bind (dget snapshot_surfaces) k).
Proof using Type.
  intros Hk s Hs. unfold dget. do 2 wp_step. unfold snapshot_surfaces in *. destruct Hs as [E1 E2]. rewrite E1. by apply Hk.
Qed.
End Sends.

Lemma snapshot_sync : syncs send_snapshot.
Proof using All.
  intros s Hs. unfold send_snapshot. do 4 wp_step. set (s1 := s <| snapshot_generation_ ::= _ |>).
  set (g := snapshot_generation_ s1). set (rest := bind (send_event (SnapshotBegin g)) _).
  assert (Hr : sends (display s) (snapshot_messages g (display s)) rest).
  { apply sends_then; [apply sends_send|]. apply sends_outputs, sends_then; [apply send_outputs_sends|].
    apply sends_surfaces, sends_then; [apply send_surfaces_sends|apply sends_send]. }
  eapply wp_mono; [by apply Hr|]. cbv beta. intros b s' [[E1 E2 E3 Cl] _]. destruct Hs as [So Oo No]. split.
  - split; rewrite ?E1, ?E2, ?E3; done.
  - intros Hc. destruct (Cl Hc) as [Hc1 Es]. split; [done|]. exists (snapshot_messages g (display s)).
    assert (Hg : u32 g) by apply to_u32_u32.
    assert (Ht : server_tables (display s) = tables s') by (unfold tables, server_tables; by rewrite E1, E2).
    split_and!; [by apply good_snapshot|done|..].
    + by rewrite replay_snapshot.
    + intros _ t. by rewrite replay_snapshot.
Qed.

(** ** The messages of the client *)

Lemma quiet_mmap fd n : does quiet (on_host (ask (host_mmap fd n))).
Proof using All.
  apply does_host. intros k. unfold wp, ask. pose proof (sw_mmap c sent fd n k). by destruct (host_mmap fd n k).
Qed.
Lemma quiet_overlay_update oid fd size : does quiet (overlay_update oid fd size).
Proof using All. pose proof quiet_mmap. unfold overlay_update, notify. quiet_auto. Qed.
Lemma quiet_destroy_overlay oid : does quiet (destroy_overlay oid).
Proof using All. unfold destroy_overlay, notify. quiet_auto. Qed.

Ltac wf_inv H := unfold wf_payload in H; cbn [message_type struct_fields fields] in H;
  rewrite !Forall2_cons in H; cbn [wf_field] in H.
Lemma on_message_syncs p fd : wf_payload p → syncs (on_message p fd).
Proof using All.
  intros Hw. pose proof (command_quiet c sent) as Hc.
  destruct p; cbn [on_message]; try apply syncs_ret; try (apply syncs_bind; [|intros _; apply syncs_ret]);
    unfold set_surface_activated, close_surface, warp_pointer; auto;
    try (apply syncs_tweak; [apply _|intros []; split; [done|intros H; exact H]|by intros []]).
  - destruct (negb _); [apply syncs_ret|]. apply syncs_send; [apply _|good_auto|by intros []|done].
  - apply snapshot_sync.
  - wf_inv Hw. destruct Hw as (_ & _ & _ & Hw & Hh & _). by apply syncs_configure.
  - apply syncs_quiet. unfold set_keyboard_intercepts. quiet_auto.
  - destruct fd; [apply syncs_ret|]. apply syncs_bind; [apply Hc|intros _; apply syncs_ret].
  - destruct fd; [apply syncs_ret|]. apply syncs_bind; [apply Hc|intros _; apply syncs_ret].
  - wf_inv Hw. destruct Hw as [Ho _]. by apply syncs_create_overlay.
  - destruct fd; [|apply syncs_ret]. pose proof quiet_overlay_update. apply syncs_quiet. unfold update_overlay. quiet_auto.
  - apply syncs_quiet, quiet_destroy_overlay.
Qed.

Lemma quiet_drop : does quiet disconnect_client.
Proof using All. intros s. eapply wp_mono; [by apply disconnect_emitted|]. by intros ?? []. Qed.
Lemma syncs_reject fd : syncs (reject fd).
Proof using All.
  pose proof quiet_drop. apply syncs_quiet. unfold reject, close_opt. quiet_auto.
Qed.
Lemma read_packet_wf b p : Forall byte b → read_packet b = PacketMessage p → wf_payload p.
Proof.
  intros Hb Hp. apply (read_packet_inv (take 2048 b)).
  - by apply Forall_take.
  - rewrite length_take. lia.
  - unfold read_packet, receive_bytes in *. by rewrite take_take, Nat.min_id.
Qed.
Lemma dispatch_syncs : syncs dispatch_one_message.
Proof using All.
  intros s Hs. unfold dispatch_one_message. do 2 wp_step.
  destruct (client_ s) as [fd|] eqn:Ec; [|by apply syncs_ret]. wp_step. unfold on_host. wp_step.
  pose proof (sw_recv c sent fd (host s)) as Es. pose proof (sw_bytes c sent fd (host s)) as Eb.
  unfold wp at 1, ask. destruct (host_recv fd (host s)) as [rc k]. cbn [fst snd] in *.
  set (s1 := s <| host := k |>).
  assert (H1 : sync s s1).
  { apply (sync_emitted _ _ s s s1 []); try done. split; [done..|]. intros Hc. split; [done|]. by rewrite app_nil_r. }
  assert (Hm : ∀ m : M Srv bool, syncs m → wp m (λ _ s', sync s s') s1).
  { intros m Hm. eapply wp_mono; [apply Hm, H1|]. cbv beta. intros _ s'. by apply sync_trans. }
  destruct rc as [errno x|[|b bytes] x]; [apply Hm, syncs_reject..|].
  destruct (read_packet (b :: bytes)) as [| | |p] eqn:Er; [apply Hm, syncs_reject..|].
  apply Hm, syncs_bind; [|intros []; [apply syncs_ret|apply syncs_reject]].
  unfold dispatch_message. destruct (_ && _); [apply syncs_ret|].
  eapply on_message_syncs, read_packet_wf; [by eapply Eb|done].
Qed.

(** ** Runs *)

(** What the protocol objects, the input devices and the main loop call while
    the connection lasts. *)
Inductive ServerOp :=
| OpAddSurface (app_id title : list Z) (pid toplevel : Z)
| OpSetWlSurface (sid wl : Z)
| OpSurfaceMapped (sid : Z)
| OpSurfaceUnmapped (sid : Z)
| OpSurfaceDestroyed (sid : Z)
| OpTitleChanged (sid : Z) (title : list Z)
| OpAppIdChanged (sid : Z) (app_id : list Z)
| OpSurfaceCommitted (sid w h : Z)
| OpXdg (e : XdgEvent)
| OpOutputAdded (o : OutputInfo)
| OpOutputRemoved (oid : Z)
| OpKey (keycode keysym mods : Z)
| OpButton (sid px py button mods : Z) (released : bool)
| OpMotion (sid px py mods : Z)
| OpEnter (sid : Z)
| OpOverlayButton (oid px py button : Z) (released : bool)
| OpDispatch
| OpDisconnect.
Definition run_op (op : ServerOp) : M Srv unit :=
  match op with
  | OpAddSurface app_id title pid t => add_surface app_id title pid t ;; ret tt
  | OpSetWlSurface sid wl => set_wl_surface_id sid wl
  | OpSurfaceMapped sid => surface_mapped sid
  | OpSurfaceUnmapped sid => surface_unmapped sid
  | OpSurfaceDestroyed sid => surface_destroyed sid
  | OpTitleChanged sid title => surface_title_changed sid title
  | OpAppIdChanged sid app_id => surface_app_id_changed sid app_id
  | OpSurfaceCommitted sid w h => surface_committed sid w h
  | OpXdg e => on_xdg e
  | OpOutputAdded o => output_added o
  | OpOutputRemoved oid => output_removed oid
  | OpKey keycode keysym mods => key_press keycode keysym mods
  | OpButton sid px py button mods released => button_press sid px py button mods released
  | OpMotion sid px py mods => pointer_motion sid px py mods
  | OpEnter sid => pointer_enter sid
  | OpOverlayButton oid px py button released => overlay_button oid px py button released
  | OpDispatch => dispatch_one_message ;; ret tt
  | OpDisconnect => disconnect_client
  end.
(** Arguments in the range of their types, and an identifier left for a surface
    that is created. *)
Definition fresh (d : DisplayState) : Prop := next_surface_id_ d + 1 < 4294967296.
Definition wf_op (d : DisplayState) (op : ServerOp) : Prop :=
  match op with
  | OpAddSurface app_id title pid _ => Forall byte app_id ∧ Forall byte title ∧ u32 pid ∧ fresh d
  | OpTitleChanged _ s | OpAppIdChanged _ s | OpXdg (XdgTitleChanged _ s) | OpXdg (XdgAppIdChanged _ s) =>
      Forall byte s
  | OpSurfaceCommitted _ w h | OpXdg (XdgToplevelMapped _ w h) | OpXdg (XdgToplevelCommitted _ w h) => i32 w ∧ i32 h
  | OpXdg (XdgToplevelCreated _ _ pid) => u32 pid ∧ fresh d
  | OpOutputAdded o => output_fields o
  | OpOutputRemoved i | OpEnter i => u32 i
  | OpKey keycode keysym mods => u32 keycode ∧ u32 keysym ∧ u32 mods
  | OpButton sid px py button mods _ => u32 sid ∧ i32 px ∧ i32 py ∧ u32 button ∧ u32 mods
  | OpMotion sid px py mods => u32 sid ∧ i32 px ∧ i32 py ∧ u32 mods
  | OpOverlayButton oid px py button _ => u32 oid ∧ i32 px ∧ i32 py ∧ u32 button
  | _ => True
  end.

Lemma xdg_sync e s : state_ok (display s) → wf_op (display s) (OpXdg e) → wp (on_xdg e) (λ _ s', sync s s') s.
Proof using All.
  intros Hs Hw. destruct e; cbn [on_xdg wf_op] in *; try (by apply syncs_ret).
  - destruct Hw as [Hp Hf]. wp_step.
    eapply wp_mono; [apply (add_surface_sync c sent); [done|done|by constructor..|done]|]. cbv beta.
    intros sid s1 H1. eapply wp_mono; [apply (syncs_wl c sent), H1|]. cbv beta. intros [] s2. by apply sync_trans.
  - by apply syncs_destroy_for.
  - destruct Hw as [Hx Hy]. apply syncs_for_toplevel; [intros sid|done].
    apply syncs_bind; [by apply syncs_mapped|intros _; by apply syncs_committed].
  - destruct Hw as [Hx Hy]. apply syncs_for_toplevel; [intros sid|done]. by apply syncs_committed.
  - apply syncs_for_toplevel; [intros sid|done]. by apply syncs_title.
  - apply syncs_for_toplevel; [intros sid|done]. by apply syncs_app_id.
Qed.
Lemma op_sync op s : state_ok (display s) → wf_op (display s) op → wp (run_op op) (λ _ s', sync s s') s.
Proof using All.
  intros Hs Hw. destruct op; cbn [run_op wf_op] in *; destruct_and?.
  - wp_step. eapply wp_mono; [by apply (add_surface_sync c sent)|]. cbv beta. intros sid s1 H4. by wp_step.
  - by apply syncs_wl.
  - by apply syncs_mapped.
  - by apply syncs_unmapped.
  - by apply syncs_destroyed.
  - by apply syncs_title.
  - by apply syncs_app_id.
  - by apply syncs_committed.
  - by apply xdg_sync.
  - by apply syncs_output_added.
  - by apply syncs_output_removed.
  - by apply syncs_key.
  - by apply syncs_button.
  - by apply syncs_motion.
  - by apply syncs_enter.
  - by apply syncs_overlay_button.
  - apply (syncs_bind c sent dispatch_one_message); [by apply dispatch_syncs|intros _; apply syncs_ret|done].
  - by apply (syncs_quiet c sent), Hs; apply quiet_drop.
Qed.

Inductive server_run : Srv → Srv → Prop :=
| server_done s : server_run s s
| server_step s op s1 s2 : wf_op (display s) op → run_op op s = Some (tt, s1) → server_run s1 s2 → server_run s s2.
Lemma server_run_sync s s' : server_run s s' → state_ok (display s) → sync s s'.
Proof using All.
  induction 1 as [s|s op s1 s2 Hw E _ IH]; intros Hs; [by apply sync_refl|].
  pose proof (op_sync op s Hs Hw) as H. unfold wp in H. rewrite E in H. eapply sync_trans; [done|]. apply IH, H.
Qed.
End Run.
