(* ===== verification/WaylandRun.v ===== *)
(** * Runs of the Wayland backend

    Every call of the backend that does not throw replays the packets it has
    received on its tables, and nothing else changes them. *)

From S2P Require Import Prelude Fuel Exceptions Geometry Workspace WorkspaceManager Events Protocol.
From S2P Require Import Ipc.
From S2P Require Import Commands Core Dispatch CoreSafe CoreRun Runtime LifecycleSafe BackendSafe.
From S2P Require Import WaylandBackend WaylandSafe DisplayMirror.
Local Open Scope Z_scope.

(** ** Runs of the backend *)

Section ClientRun.
Context {P : Type} `{!Peer P} `{!Env (WWorld P)} `{HO : !HashOrder}.
Context (received : P → list (list Z)) `{!ClientWire received}.
Local Abbreviation R := (Runtime (WWorld P)).
Local Abbreviation same := (same received).
Implicit Types r : R.

(** Packets have been received, and replayed. *)
Definition follows r r' : Prop := ∃ l,
  received (peer (world r')) = received (peer (world r)) ++ l ∧ known r' = replay_packets l (known r).
#[export] Instance follows_preorder : PreOrder follows.
Proof.
  split.
  - intros r. exists []. by rewrite app_nil_r.
  - intros r1 r2 r3 (l & E1 & K1) (l' & E2 & K2). exists (l ++ l').
    by rewrite E2, E1, <- app_assoc, replay_packets_app, K2, K1.
Qed.
Lemma same_follows r r' : same r r' → follows r r'.
Proof using Type. intros [K E]. exists []. by rewrite app_nil_r. Qed.

(** The same when the call does not throw. *)
Definition tracks {A} (m : M R (string + A)) : Prop := ∀ r a r', m r = Some (inr a, r') → follows r r'.
Lemma tracks_same {A} (m : M R (string + A)) : preserves same m → tracks m.
Proof using Type. intros Hm r a r' E. by apply same_follows, (Hm r _ r' E). Qed.
Lemma tracks_try {A B} (m : M R (string + A)) (k : A → M R (string + B)) :
  tracks m → (∀ a, tracks (k a)) → tracks (try_bind m k).
Proof using Type.
  intros Hm Hk r b r'. unfold try_bind, bind, throw, ret. destruct (m r) as [[[e|a] r1]|] eqn:E; try done.
  intros E'. etrans; [by eapply Hm|by eapply Hk].
Qed.
Lemma tracks_bind {A B} (m : M R A) (k : A → M R (string + B)) :
  preserves same m → (∀ a, tracks (k a)) → tracks (bind m k).
Proof using Type.
  intros Hm Hk r b r'. unfold bind. destruct (m r) as [[a r1]|] eqn:E; [|done].
  intros E'. etrans; [by eapply same_follows, Hm|by eapply Hk].
Qed.
Lemma tracks_receive closed short invalid refused : tracks (receive_packet closed short invalid refused).
Proof using All.
  intros r [] r' E. apply (receive_moves received) in E as (b & E1 & E2). exists [b]. by rewrite E1, E2.
Qed.
Lemma same_poll t : preserves same (poll_readable t).
Proof using All.
  unfold poll_readable. same_auto. apply same_peer. intros s x s' [= E].
  pose proof (cw_poll received t s) as H. by rewrite E in H.
Qed.

Lemma tracks_pump_loop n k processed : tracks (pump_loop n k processed).
Proof using All.
  revert processed. induction n as [|n IH]; intros processed; [by intros r a r'|]. cbn [pump_loop].
  apply tracks_try; [apply tracks_receive|intros _]. cbv zeta. destruct (_ || _).
  - apply tracks_bind; [apply same_poll|intros []; [apply IH|]]. apply tracks_same. same_auto.
  - apply tracks_same. same_auto.
Qed.
Lemma tracks_pump n k : tracks (pump_events n k).
Proof using All.
  apply tracks_bind; [apply same_poll|intros []; [apply tracks_pump_loop|]]. apply tracks_same. same_auto.
Qed.
Lemma tracks_snapshot n : tracks (snapshot_loop n).
Proof using All.
  induction n as [|n IH]; [by intros r a r'|]. cbn [snapshot_loop].
  apply tracks_bind; [same_auto|intros []]; [apply tracks_same; same_auto|].
  apply tracks_bind; [apply same_poll|intros []]; [|apply tracks_same; same_auto].
  apply tracks_try; [apply tracks_receive|done].
Qed.
Lemma tracks_construct n : tracks (construct n).
Proof using All.
  unfold construct, bootstrap_snapshot. repeat (apply tracks_try; [apply tracks_same; same_auto|intros _]).
  apply tracks_bind; [same_auto|intros _; apply tracks_snapshot].
Qed.

(** What leaves the tables alone. *)
Lemma same_if_window win body : (∀ w, preserves same (body w)) → preserves same (if_window win body).
Proof using Type. intros Hb. unfold if_window. same_auto. Qed.
Lemma same_place win w : preserves same (place win w).
Proof using All. unfold place, configure_surface. same_auto. Qed.
Lemma same_border win w c : preserves same (set_surface_border win w c).
Proof using All. unfold set_surface_border. same_auto. Qed.
Lemma same_paint win c : preserves same (paint_border win c).
Proof using All. pose proof same_border. apply same_if_window. intros w. same_auto. Qed.
Lemma same_take win : preserves same (on_core (take_window_flush win)).
Proof using Type. apply same_on_core. Qed.
Hint Resolve same_place same_border same_paint same_take : same.
Ltac commands := unfold set_surface_activated, set_surface_visible, set_surface_stacking, close_surface, warp_pointer.
Lemma same_effect e : preserves same (apply_effect e).
Proof using All.
  pose proof same_place. pose proof same_border. pose proof same_paint.
  unfold apply_effect, effect_map, effect_focus, effect_focus_root, effect_update. commands.
  destruct (eff_kind e); same_auto; apply same_if_window; intros ?; same_auto.
Qed.
Lemma same_frame : preserves same render_frame.
Proof using All.
  pose proof same_effect. pose proof same_place. unfold render_frame, flush_visible. same_auto.
  apply same_if_window. intros ?. same_auto.
Qed.
Lemma same_manage_ready sid : preserves same (manage_if_ready sid).
Proof using All. by apply same_manage. Qed.
Lemma same_start : preserves same on_start.
Proof using All. pose proof same_manage_ready. unfold on_start, reload_border_colors. same_auto. Qed.

(** ** Runs *)

(** What the runtime and its modules call, of the backend and its ports. *)
Inductive ClientOp :=
| CoConstruct (fuel : nat)
| CoPump (fuel : nat) (max_events : Z)
| CoFrame
| CoStart
| CoReloadApplied
| CoGrabKey (keysym mods : Z)
| CoUngrabAllKeys
| CoGrabPointer
| CoUngrabPointer
| CoWarpPointer (p : Vec2)
| CoApplyLayouts (layouts : list string)
| CoRestoreLayouts
| CoSetGroup (group : Z)
| CoCreateWindow (px py w h : Z)
| CoDestroyWindow (win : Z)
| CoPresent (win w h : Z) (shm_fd : option Z).
Definition client_op (op : ClientOp) : M R (string + unit) :=
  match op with
  | CoConstruct n => construct n
  | CoPump n k => pump_events n k
  | CoFrame => render_frame
  | CoStart => lift on_start
  | CoReloadApplied => lift on_reload_applied
  | CoGrabKey keysym mods => input_grab_key keysym mods
  | CoUngrabAllKeys => input_ungrab_all_keys
  | CoGrabPointer => input_grab_pointer
  | CoUngrabPointer => input_ungrab_pointer
  | CoWarpPointer p => input_warp_pointer p
  | CoApplyLayouts l => lift (keyboard_apply l)
  | CoRestoreLayouts => lift keyboard_restore
  | CoSetGroup g => lift (keyboard_set_group g)
  | CoCreateWindow px py w h => render_create_window px py w h ;;! ok tt
  | CoDestroyWindow win => lift (render_destroy_window win)
  | CoPresent win w h fd => render_present win w h fd
  end.

Lemma op_tracks op : tracks (client_op op).
Proof using All.
  pose proof same_frame. pose proof same_start.
  destruct op; cbn [client_op]; [apply tracks_construct|apply tracks_pump|apply tracks_same..];
    unfold on_reload_applied, reload_border_colors, input_grab_key, input_ungrab_all_keys, input_send_intercepts,
      input_grab_pointer, input_ungrab_pointer, input_warp_pointer, set_keyboard_intercepts, grab_pointer,
      ungrab_pointer, warp_pointer, keyboard_apply, keyboard_restore, keyboard_set_group, render_create_window,
      render_destroy_window, render_present, create_overlay, destroy_overlay, update_overlay;
    same_auto.
  apply same_wset. intros b. by destruct (_ <? _).
Qed.

(** Calls that do not throw; between them the runtime does what it wants with the
    rest of its state. *)
Inductive client_run : R → R → Prop :=
| client_done r : client_run r r
| client_call r op r1 r2 : client_op op r = Some (inr tt, r1) → client_run r1 r2 → client_run r r2
| client_other r r1 r2 : same r r1 → client_run r1 r2 → client_run r r2.
Lemma client_run_follows r r' : client_run r r' → follows r r'.
Proof using All.
  induction 1 as [r|r op r1 r2 E _ IH|r r1 r2 E _ IH]; [reflexivity|..].
  - etrans; [by eapply op_tracks|done].
  - etrans; [by apply same_follows|done].
Qed.
End ClientRun.
