(* ===== verification/WaylandProps.v ===== *)
(** * Claims about the Wayland backend and its display server

    Runs of the backend against runs of the server, over one connection; then a
    server, a client and an environment in which the claims apply. *)

From stdpp Require Import sorting.
From S2P Require Import Prelude Fuel Exceptions Geometry Workspace WorkspaceManager WindowIndex ManagerInv.
From S2P Require Import Events Protocol Ipc Commands Core Dispatch CoreSafe CoreRun.
From S2P Require Import CoreProps.
From S2P Require Import EventQueue Runtime LifecycleSafe BackendSafe WaylandBackend WaylandSafe.
From S2P Require Import WaylandRun.
From S2P Require Import DisplayServer DisplayMirror DisplayEmit DisplayRun.
Local Open Scope Z_scope.

(** ** The two ends of a connection *)

Section Mirror.
Context {K : Type} `{!Host K} {P : Type} `{!Peer P} `{!Env (WWorld P)} `{HO : !HashOrder}.
Context (c : Z) (sent : K → list (list Z)) `{!ServerWire c sent}.
Context (received : P → list (list Z)) `{!ClientWire received}.

(** C5: the window manager knows the surfaces and outputs of the display server.
    Let the server make any sequence of its operations on one connection, and the
    backend any sequence of its calls that do not throw, interleaved in any way,
    while the socket delivers in order what is sent.  Once a snapshot has been
    begun, the backend's tables followed by the messages still under way are the
    server's tables: they are equal whenever the backend has caught up.  And every
    packet of the server is one the backend accepts. *)
Theorem backend_mirrors_server (s0 s : Server K) (r0 r : Runtime (WWorld P)) under_way :
  state_ok (display s0) → sent (host s0) = [] → server_run s0 s → client_ s = Some c →
  received (peer (world r0)) = [] → client_run received r0 r →
  sent (host s) = received (peer (world r)) ++ under_way →
  Exists (λ b, ∃ g, read_packet b = PacketMessage (SnapshotBegin g)) (sent (host s)) →
  replay_packets under_way (known r) = tables s ∧
  ∀ b closed short invalid refused x r', b ∈ sent (host s) →
    (peer_recv (peer (world r))).1 = RecvPacket b None →
    receive_packet closed short invalid refused r = Some (x, r') → x = inr tt.
Proof using All.
  intros Hok Hs0 Hrun Hc Hr0 Hcl Hsent Hb.
  destruct (sy_client _ _ _ _ (server_run_sync c sent _ _ Hrun Hok) Hc) as (_ & ps & Hg & Es & _ & Hbegin).
  rewrite Hs0 in Es. cbn in Es.
  destruct (client_run_follows received _ _ Hcl) as (l & El & Ek). rewrite Hr0 in El. cbn in El. split.
  - rewrite Ek, <- replay_packets_app, <- El, <- Hsent, Es, replay_packets_sent by done. apply Hbegin.
    apply Exists_exists in Hb as (b & Hin & g & Hb). rewrite Es in Hin.
    apply list_elem_of_fmap in Hin as (p & -> & Hp). apply Exists_exists. exists p. split; [done|].
    rewrite Forall_forall in Hg. rewrite read_packet_send in Hb by by apply Hg. by injection Hb as ->.
  - intros b closed short invalid refused x r' Hin Hrecv. rewrite Es in Hin.
    apply list_elem_of_fmap in Hin as (p & -> & Hp). rewrite Forall_forall in Hg.
    eapply receive_accepts; [by apply Hg|done].
Qed.
End Mirror.

(** ** Safety *)

Section Safety.
Context {P : Type} `{!Peer P} `{!Env (WWorld P)} `{!HashOrder}.
Context (J : P → Prop) (pat backlog : P → nat) (owner : Z → string).
Context `{!PeerOk J pat backlog} `{!RulesOk J pat owner}.
Local Abbreviation R := (Runtime (WWorld P)).
Local Abbreviation inv := (inv (λ w : WWorld P, J (peer w)) owner).
Local Abbreviation keeps := (keeps (λ w : WWorld P, pat (peer w))).
Local Abbreviation xt := (xt (λ w : WWorld P, J (peer w)) (λ w : WWorld P, pat (peer w)) owner).

(** The calls whose loops need no bound. *)
Definition loopless (op : ClientOp) : Prop :=
  match op with CoConstruct _ | CoPump _ _ => False | _ => True end.
Lemma xt_client_op op : loopless op → xt [] (client_op op).
Proof using All.
  intros Hop. pose proof (xt_frame J pat backlog owner). pose proof (wt_on_start J pat backlog owner).
  pose proof (xt_colors J pat backlog owner). pose proof (xt_grab_key J pat backlog owner).
  pose proof (xt_ungrab_keys J pat backlog owner). pose proof (xt_render J pat backlog owner).
  pose proof (xt_present J pat backlog owner). pose proof (xt_send J pat backlog owner).
  destruct op; cbn [client_op loopless] in *; try done;
    unfold on_reload_applied, input_grab_pointer, input_ungrab_pointer, input_warp_pointer, WaylandBackend.grab_pointer,
      WaylandBackend.ungrab_pointer, WaylandBackend.warp_pointer, keyboard_apply, keyboard_restore,
      keyboard_set_group, render_destroy_window, WaylandBackend.destroy_overlay; auto;
    try (apply xt_lift; auto; apply (xt_wset J pat owner)).
  - apply xt_try; [auto|intros _; apply xt_ok].
  - apply xt_lift, xt_bind; [auto|intros _; apply xt_ret].
Qed.

(** C6: whatever the display server sends in which strings are terminated ([PeerOk];
    one that fills its array is read past its end), and as long as it does not send
    for ever, the Wayland backend is what the runtime asks for: the constructor, the pump with a bound on the messages per tick, the
    frame, the start, the reaction to a reload, the shutdown and every call of its
    ports return or throw, without undefined behaviour; the core keeps its
    invariant, and so does the socket any invariant [J] that sending, receiving and
    polling keep. *)
Theorem wayland_backend_safe r : inv r →
  (started_ (wb (world r)) = false → wpf construct (λ _ r', inv r' ∧ keeps r r') r) ∧
  (∀ k, 0 < k → wpf (λ n, pump_events n k) (λ _ r', inv r' ∧ keeps r r') r) ∧
  wp shutdown (λ _ r', inv r' ∧ keeps r r') r ∧
  ∀ op, loopless op → wp (client_op op) (λ _ r', inv r' ∧ keeps r r') r.
Proof using All.
  intros Hr. split_and!.
  - by apply (construct_ends J pat backlog owner).
  - intros k Hk. exists (S (Z.to_nat k)).
    by apply (xt_tame _ _ _ _ (xt_pump J pat backlog owner [] k Hk)).
  - by apply (xt_tame _ _ _ _ (xt_shutdown J pat backlog owner [])).
  - intros op Hop. by apply (xt_tame _ _ _ _ (xt_client_op op Hop)).
Qed.
End Safety.

(** ** A display server and its client *)

(** The packets to read, those sent, and the calls made. *)
Record ExHost := mkExHost { eh_inbox : list (list Z); eh_sent : list (list Z); eh_closed : list Z; eh_calls : list HostCall }.
#[export] Instance eta_ExHost : Eta ExHost := λ k, mkExHost (eh_inbox k) (eh_sent k) (eh_closed k) (eh_calls k).
#[export] Instance ex_host : Host ExHost := {
  host_call x k := k <| eh_calls ::= λ l, l ++ [x] |>;
  is_xwayland_surface _ _ := false;
  toplevel_surface _ _ := None;
  host_send fd p k := (true, k <| eh_sent ::= λ l, if fd =? 5 then l ++ [p] else l |>);
  host_recv fd k := match eh_inbox k with
                    | [] => (RecvPacket [] None, k)
                    | b :: l => (RecvPacket ((λ z, Z.land z 255) <$> b) None, k <| eh_inbox := l |>)
                    end;
  host_readable _ k := (true, k);
  host_accept k := (None, k);
  host_close fd k := k <| eh_closed ::= λ l, l ++ [fd] |>;
  host_mmap _ _ k := (None, k) }.
Lemma ex_server_wire : ServerWire 5 eh_sent.
Proof.
  split; try done.
  - intros fd k. cbn. by destruct (eh_inbox k).
  - intros fd k b x. cbn. destruct (eh_inbox k) as [|l q]; cbn; intros [= <- <-]; [constructor|].
    apply Forall_fmap, Forall_true. intros z. cbn. unfold byte.
    change 255 with (Z.ones 8). rewrite Z.land_ones by lia. apply Z.mod_pos_bound. lia.
Qed.

Record ExPeer := mkExPeer { ep_inbox : list (list Z); ep_received : list (list Z); ep_sent : list (list Z) }.
#[export] Instance eta_ExPeer : Eta ExPeer := λ p, mkExPeer (ep_inbox p) (ep_received p) (ep_sent p).
#[export] Instance ex_peer : Peer ExPeer := {
  peer_poll _ s := (negb (bool_decide (ep_inbox s = [])), s);
  peer_recv s := match ep_inbox s with
                 | [] => (RecvError "" None, s)
                 | b :: l => (RecvPacket b None, s <| ep_inbox := l |> <| ep_received ::= λ l, l ++ [b] |>)
                 end;
  peer_send b _ s := (true, s <| ep_sent ::= λ l, l ++ [b] |>);
  fd_close _ s := s }.
#[export] Instance ex_w_env : Env (WWorld ExPeer) := idle_env.
#[export] Instance ex_order : HashOrder.
Proof. refine {| hash_order A m := (map_to_list m).*1 |}. done. Defined.

Lemma ex_client_wire : ClientWire ep_received.
Proof.
  split; try done.
  - intros s b fd. cbn. destruct (ep_inbox s); cbn; intros E; by simplify_eq.
  - intros s e fd. cbn. destruct (ep_inbox s); cbn; intros E; by simplify_eq.
  - intros p win b. by apply preserves_ret, _.
Qed.

(** One output, one window; the client has asked for a snapshot. *)
Definition ex_output_info : OutputInfo := mkOutputInfo 1 [76; 86] 0 0 1920 1080 60000.
Definition ex_server_start : Server ExHost :=
  mkServer new_display_state (Some 5) 0
    (mkExHost [send_message (Hello WmController 0); send_message (SnapshotRequest 0)] [] [] []).
Definition ex_server_ops : list ServerOp :=
  [OpOutputAdded ex_output_info; OpXdg (XdgToplevelCreated 7 3 100); OpDispatch; OpDispatch;
   OpXdg (XdgToplevelMapped 7 640 480); OpXdg (XdgTitleChanged 7 [104; 105])].
Fixpoint run_ops (l : list ServerOp) : M (Server ExHost) unit :=
  match l with [] => ret tt | op :: l => run_op op ;; run_ops l end.
Definition ex_server_end : Server ExHost :=
  match run_ops ex_server_ops ex_server_start with Some (_, s) => s | None => ex_server_start end.

(** The backend of the other examples' core; of the packets sent it takes those up
    to the end of the snapshot and one more. *)
Definition ex_w (inbox received : list (list Z)) : Runtime (WWorld ExPeer) :=
  mkRuntime ∅ ex_core [] [] true Running false false false false [] ∅ empty_queue [] [backend_ptr] None
    (mkWWorld connected_backend (mkExPeer inbox received [])).
Definition ex_client_ops : list ClientOp := [CoConstruct 20; CoStart; CoPump 3 1; CoFrame].
Fixpoint run_client (l : list ClientOp) : M (Runtime (WWorld ExPeer)) (string + unit) :=
  match l with [] => ok tt | op :: l => client_op op ;;! run_client l end.
Definition ex_client_start := ex_w (eh_sent (host ex_server_end)) [].
Definition ex_client_end : Runtime (WWorld ExPeer) :=
  match run_client ex_client_ops ex_client_start with Some (inr _, r) => r | _ => ex_client_start end.

Lemma ex_server_runs : server_run ex_server_start ex_server_end.
Proof.
  assert (Hfresh : fresh new_display_state) by by vm_compute.
  assert (Hhi : Forall byte [104; 105]) by (repeat constructor; lia).
  eapply (server_step _ (OpOutputAdded ex_output_info)); [|by vm_compute|].
  { cbn. unfold output_fields, u32, i32, byte. cbn. split_and!; try lia. repeat constructor; lia. }
  eapply (server_step _ (OpXdg (XdgToplevelCreated 7 3 100))); [|by vm_compute|]; [cbn; unfold u32; split; [lia|done]|].
  eapply (server_step _ OpDispatch); [done|by vm_compute|].
  eapply (server_step _ OpDispatch); [done|by vm_compute|].
  eapply (server_step _ (OpXdg (XdgToplevelMapped 7 640 480))); [|by vm_compute|]; [cbn; unfold i32; lia|].
  eapply (server_step _ (OpXdg (XdgTitleChanged 7 [104; 105]))); [done|by vm_compute|].
  vm_compute. apply server_done.
Qed.
Lemma run_client_run l r r' : run_client l r = Some (inr tt, r') → client_run ep_received r r'.
Proof.
  revert r. induction l as [|op l IH]; intros r; [by intros [= ->]; apply client_done|]. cbn [run_client].
  unfold try_bind, bind, throw, ret. destruct (client_op op r) as [[[e|[]] r1]|] eqn:E; try done.
  intros E'. eapply client_call; [done|by apply IH].
Qed.
Lemma ex_client_runs : client_run ep_received ex_client_start ex_client_end.
Proof.
  apply (run_client_run ex_client_ops).
  assert (Hb : match run_client ex_client_ops ex_client_start with Some (inr _, _) => true | _ => false end = true)
    by by vm_compute.
  revert Hb. unfold ex_client_end. by destruct (run_client _ _) as [[[e|[]] r]|].
Qed.

(** The client has not seen the size of the window, nor its title. *)
Lemma backend_mirrors_server_witness : ∃ under_way,
  length under_way = 2%nat ∧ known ex_client_end ≠ tables ex_server_end ∧
  replay_packets under_way (known ex_client_end) = tables ex_server_end.
Proof.
  pose proof ex_server_wire. pose proof ex_client_wire.
  exists (drop 8 (eh_sent (host ex_server_end))). split_and!.
  - by vm_compute.
  - intros H'. apply (f_equal (λ t : Tables, sv_title <$> t.1 !! 1)) in H'. by vm_compute in H'.
  - eapply (backend_mirrors_server 5 eh_sent ep_received ex_server_start ex_server_end ex_client_start ex_client_end).
    + split; [intros k v; cbn; by rewrite lookup_empty|intros k o; cbn; by rewrite lookup_empty|cbn; lia].
    + done.
    + exact ex_server_runs.
    + by vm_compute.
    + done.
    + exact ex_client_runs.
    + by vm_compute.
    + apply Exists_exists. exists (send_message (SnapshotBegin 1)). split.
      * apply list_elem_of_lookup. exists 3%nat. by vm_compute.
      * exists 1. by vm_compute.
Defined.

(** ** The witness of safety *)

Definition ex_peer_ok (s : ExPeer) : Prop := Forall packet_ok (ep_inbox s).
Lemma ex_peer_laws : PeerOk ex_peer_ok (λ _, 0%nat) (λ s, length (ep_inbox s)).
Proof.
  split; try done.
  - intros s Hs. cbn. unfold ex_peer_ok, srv_step in *. destruct (ep_inbox s) as [|b l] eqn:E; cbn.
    + by rewrite E.
    + by inversion Hs.
  - intros s bytes fd Hs. cbn. unfold ex_peer_ok in *. destruct (ep_inbox s); cbn; [done|].
    intros [= <- _]. by inversion Hs.
  - intros s b bytes fd. cbn. destruct (ep_inbox s) eqn:E; cbn; [done|]. lia.
Qed.
Definition ex_w_owner (_ : Z) : string := "bar".
Lemma ex_rules_ok : RulesOk ex_peer_ok (λ _ : ExPeer, 0%nat) ex_w_owner.
Proof.
  split.
  - intros p win b. apply tame_ret.
  - intros p win b r r' x [= _ <-] q. done.
Qed.
(** A message of the server, and bytes that are none. *)
Definition ex_inbox : list (list Z) := [send_message (SurfaceMapped 1); [1; 2; 3]].
Lemma ex_w_inv : inv (λ w : WWorld ExPeer, ex_peer_ok (peer w)) ex_w_owner (ex_w ex_inbox []).
Proof.
  split; [exact ex_core_ok| |by intros win p; cbn; rewrite lookup_empty].
  cbn. unfold ex_peer_ok, ex_inbox. cbn [ep_inbox]. repeat constructor; intros p.
  - rewrite read_packet_send; [by intros [= <-]|]. wf_auto.
  - done.
Qed.

Lemma wayland_backend_safe_witness :
  wpf (λ n, pump_events n 8) (λ _ r',
    inv (λ w : WWorld ExPeer, ex_peer_ok (peer w)) ex_w_owner r' ∧
    keeps (λ w : WWorld ExPeer, 0%nat) (ex_w ex_inbox []) r') (ex_w ex_inbox []).
Proof.
  pose proof ex_peer_laws. pose proof ex_rules_ok.
  by apply (wayland_backend_safe ex_peer_ok (λ _, 0%nat) (λ s, length (ep_inbox s)) ex_w_owner (ex_w ex_inbox []) ex_w_inv).
Defined.
