(* ===== verification/DisplayProps.v ===== *)
(** * Claims about the display server

    Hit tests, key intercepts, overlays, and the main loop. *)

From S2P Require Import Prelude Exceptions Geometry Workspace Events Protocol Ipc Runtime.
From S2P Require Import WaylandBackend.
From S2P Require Import DisplayServer WaylandProps.
Local Open Scope Z_scope.

(** ** Hit tests *)

(** The rectangle of a surface with its border, and the surfaces that are hit. *)
Definition covers (px py : Z) (s : DisplaySurface) : Prop :=
  ds_x s - ds_border_width s ≤ px < ds_x s + ds_width s + ds_border_width s ∧
  ds_y s - ds_border_width s ≤ py < ds_y s + ds_height s + ds_border_width s.
Definition hit (px py : Z) (s : DisplaySurface) : Prop :=
  ds_mapped s = true ∧ ds_visible s = true ∧ covers px py s.
(** Its numbers do not overflow. *)
Definition fits32 (s : DisplaySurface) : Prop :=
  let b := ds_border_width s in
  0 ≤ b < 2 ^ 31 ∧
  (-2 ^ 31 ≤ ds_x s - b ∧ -2 ^ 31 ≤ ds_x s + ds_width s < 2 ^ 31 ∧ ds_x s + ds_width s + b < 2 ^ 31) ∧
  (-2 ^ 31 ≤ ds_y s - b ∧ -2 ^ 31 ≤ ds_y s + ds_height s < 2 ^ 31 ∧ ds_y s + ds_height s + b < 2 ^ 31) ∧
  ds_x s < 2 ^ 31 ∧ ds_y s < 2 ^ 31.
#[export] Instance hit_dec px py s : Decision (hit px py s).
Proof. unfold hit, covers. apply _. Defined.

Lemma int32_fits z : -2 ^ 31 ≤ z < 2 ^ 31 → int32 z = Some z.
Proof. intros Hz. unfold int32. by rewrite (proj2 (Z.leb_le _ _)), (proj2 (Z.ltb_lt _ _)) by lia. Qed.
Lemma contains_covers px py s : fits32 s →
  ∃ b, contains s px py = Some b ∧ (b = true ↔ covers px py s).
Proof.
  intros (Hb & (Hx1 & Hx2 & Hx3) & (Hy1 & Hy2 & Hy3) & Hx & Hy). unfold contains, covers, sub32, add32.
  rewrite to_i32_small by lia. cbv zeta. rewrite (int32_fits (ds_x s - _)) by lia. cbn [mbind option_bind].
  destruct (Z.leb_spec (ds_x s - ds_border_width s) px) as [Hl|Hl]; [|eexists; split; [done|]; split; [done|lia]].
  rewrite (int32_fits (ds_x s + _)) by lia. cbn [mbind option_bind].
  rewrite (int32_fits (ds_x s + _ + _)) by lia. cbn [mbind option_bind].
  destruct (Z.ltb_spec px (ds_x s + ds_width s + ds_border_width s)) as [Hr|Hr];
    [|eexists; split; [done|]; split; [done|lia]].
  rewrite (int32_fits (ds_y s - _)) by lia. cbn [mbind option_bind].
  destruct (Z.leb_spec (ds_y s - ds_border_width s) py) as [Ht|Ht]; [|eexists; split; [done|]; split; [done|lia]].
  rewrite (int32_fits (ds_y s + _)) by lia. cbn [mbind option_bind].
  rewrite (int32_fits (ds_y s + _ + _)) by lia. cbn [mbind option_bind].
  eexists. split; [done|]. rewrite Z.ltb_lt. lia.
Qed.
Lemma better_hit px py best e : fits32 e.2 →
  better px py best e =
  Some (if bool_decide (hit px py e.2) && ((best.1 =? 0) || (best.2 <=? ds_stacking e.2))
        then (e.1, ds_stacking e.2) else best).
Proof.
  intros He. unfold better. destruct (ds_mapped e.2 && ds_visible e.2) eqn:Em; cbn [negb].
  - apply andb_prop in Em as [Em Ev]. destruct (contains_covers px py e.2 He) as (b & -> & Hb). cbn [mbind option_bind].
    replace (bool_decide (hit px py e.2)) with b; [done|]. apply eq_true_iff_eq.
    rewrite Hb, bool_decide_eq_true. unfold hit. tauto.
  - rewrite bool_decide_false; [done|]. intros (E1 & E2 & _). by rewrite E1, E2 in Em.
Qed.

Lemma elem_snoc {A} (e a : A) l : e ∈ l ++ [a] ↔ e ∈ l ∨ e = a.
Proof. by rewrite elem_of_app, list_elem_of_singleton. Qed.

(** The best of the entries seen so far. *)
Definition best_of (px py : Z) (l : list (Z * DisplaySurface)) (best : Z * Z) : Prop :=
  (best = (0, 0) ∧ ∀ e, e ∈ l → ¬ hit px py e.2) ∨
  ∃ e, e ∈ l ∧ hit px py e.2 ∧ best = (e.1, ds_stacking e.2) ∧
       ∀ e', e' ∈ l → hit px py e'.2 → ds_stacking e'.2 ≤ ds_stacking e.2.
Lemma fold_best px py l : (∀ e, e ∈ l → e.1 ≠ 0 ∧ fits32 e.2) →
  ∃ best, foldl (λ o e, o ≫= λ best, better px py best e) (Some (0, 0)) l = Some best ∧ best_of px py l best.
Proof.
  induction l as [|a l IH] using rev_ind; intros Hl; [exists (0, 0); split; [done|left; split; [done|by intros e ?%elem_of_nil]]|].
  rewrite foldl_snoc. destruct IH as (best & -> & IH); [intros e He; apply Hl, elem_snoc; by left|].
  cbn [mbind option_bind]. rewrite better_hit by (apply Hl, elem_snoc; by right). eexists. split; [done|].
  destruct IH as [[-> Hno]|(e & He & Hh & -> & Hmax)]; case_bool_decide as Ea; cbn [andb orb fst snd].
  - right. exists a. split_and!; [apply elem_snoc; by right|done|done|].
    intros e' [He'| ->]%elem_snoc Hh; [by apply Hno in Hh|lia].
  - left. split; [done|]. intros e [He| ->]%elem_snoc; auto.
  - assert (Ez : (e.1 =? 0) = false) by (apply Z.eqb_neq, Hl, elem_snoc; by left). rewrite Ez. cbn [orb].
    destruct (Z.leb_spec (ds_stacking e.2) (ds_stacking a.2)).
    + right. exists a. split_and!; [apply elem_snoc; by right|done|done|].
      intros e' [He'| ->]%elem_snoc Hh'; [|lia]. specialize (Hmax e' He' Hh'). lia.
    + right. exists e. split_and!; [apply elem_snoc; by left|done|done|].
      intros e' [He'| ->]%elem_snoc Hh'; [by apply Hmax|lia].
  - right. exists e. split_and!; [apply elem_snoc; by left|done|done|].
    intros e' [He'| ->]%elem_snoc Hh'; [by apply Hmax|done].
Qed.

(** C35: the surface under the pointer.  When no surface is numbered 0 (the server
    counts from 1) or has numbers so large that 32-bit arithmetic overflows, then, whatever the order of the hash table,
    [surface_at] returns a mapped, visible surface whose rectangle with its border
    contains the point, and none such has a higher stacking; it returns 0 exactly
    when there is none.  The border's width is not checked when it arrives, and
    [wide_border_overflows] is one for which the arithmetic does overflow. *)
Theorem surface_at_topmost `{!HashOrder} px py d : ds_surfaces d !! 0 = None →
  map_Forall (λ _, fits32) (ds_surfaces d) →
  ∃ sid, surface_at px py d = Some sid ∧
  (sid = 0 ↔ ∀ k s, ds_surfaces d !! k = Some s → ¬ hit px py s) ∧
  (sid ≠ 0 → ∃ s, ds_surfaces d !! sid = Some s ∧ hit px py s ∧
    ∀ k s', ds_surfaces d !! k = Some s' → hit px py s' → ds_stacking s' ≤ ds_stacking s).
Proof.
  intros Hz Hfit. unfold surface_at.
  assert (Hnz : ∀ e, e ∈ hash_entries (ds_surfaces d) → e.1 ≠ 0 ∧ fits32 e.2).
  { intros [k s] He%hash_entries_elem. split; [intros Hk; cbn in Hk; subst; congruence|by eapply Hfit]. }
  destruct (fold_best px py _ Hnz) as (best & -> & [[-> Hno]|(e & He & Hh & -> & Hmax)]); eexists; (split; [done|]); cbn [fst].
  - split; [split; [|done]|done]. intros _ k s Hs. by apply (Hno (k, s)), hash_entries_elem.
  - split.
    + split; [intros E; by apply Hnz in He as []|]. intros Hno. destruct e as [k s]. apply hash_entries_elem in He.
      by apply Hno in He.
    + intros _. destruct e as [k s]. apply hash_entries_elem in He. exists s. split_and!; [done|done|].
      intros k' s' Hs'. by apply (Hmax (k', s')), hash_entries_elem.
Qed.

Definition ex_surface (sid stacking px : Z) : DisplaySurface :=
  mkDisplaySurface sid sid 0 [] [] 1 true true px 0 100 100 stacking 2 0.
Definition ex_display : DisplayState :=
  new_display_state <| ds_surfaces := <[1 := ex_surface 1 0 0]> (<[2 := ex_surface 2 1 50]> ∅) |>.
Lemma surface_at_topmost_witness :
  surface_at 60 10 ex_display = Some 2 ∧ surface_at (-1) 10 ex_display = Some 1 ∧
  ∃ sid, surface_at 300 10 ex_display = Some sid ∧
    (sid = 0 ↔ ∀ k s, ds_surfaces ex_display !! k = Some s → ¬ hit 300 10 s).
Proof.
  split_and!; [by vm_compute..|]. destruct (surface_at_topmost 300 10 ex_display) as (sid & E & H1 & _).
  - done.
  - repeat (apply map_Forall_insert_2; [by repeat split|]). apply map_Forall_empty.
  - by exists sid.
Defined.

(** A border of 2^31 pixels, which the server takes from a packet as it is. *)
Lemma wide_border_overflows px py :
  surface_at px py (new_display_state <| ds_surfaces := {[ 1 := (ex_surface 1 0 0) <| ds_border_width := 2 ^ 31 |> ]} |>) = None.
Proof. by vm_compute. Qed.

(** ** The main loop *)

Section Loop.
Context {K : Type} `{!Host K} `{!HashOrder} `{!ServerLoop K}.

(** [poll_index] advances past the control client only when that client has
    sent something: with a client that is connected and silent, the events of
    XWayland are not dispatched, and the round is the one without them. *)
Theorem silent_client_blocks_xwayland fuel p (s : Server K) : control_ready p = Some false →
  server_round fuel p s =
  server_round fuel (mkPolled (wl_ready p) (output_ready p) (listener_ready p) (control_ready p) (Some false)) s.
Proof using Type.
  intros Hc. unfold server_round, extra_fds. rewrite Hc. cbn. by destruct (xcb_ready p) as [[]|].
Qed.
End Loop.

Definition ex_polled : Polled := mkPolled false false false (Some false) (Some true).
#[export] Instance ex_loop : ServerLoop ExHost := {
  flush_clients := ret tt;
  dispatch_wayland := ret tt;
  request_repaint := notify;
  pump_output := ret true;
  dispatch_xwayland := call (XActivate 1 true);
  repaint_and_idle := ret tt }.
Lemma silent_client_blocks_xwayland_witness :
  server_round 3 ex_polled ex_server_start = Some (true, ex_server_start).
Proof.
  etrans; [by apply (silent_client_blocks_xwayland 3 ex_polled ex_server_start)|]. reflexivity.
Defined.

(** ** Overlays *)

Section Closes.
Context {K : Type} `{!Host K}.
(** How often a descriptor has been closed. *)
Context (closes : Z → K → nat).
Class CountsCloses : Prop := {
  cc_close fd fd' k : closes fd' (host_close fd k) = ((if decide (fd = fd') then 1 else 0) + closes fd' k)%nat;
  cc_call x fd k : closes fd (host_call x k) = closes fd k;
  cc_mmap fd n fd' k : closes fd' (host_mmap fd n k).2 = closes fd' k }.
Context `{!CountsCloses}.
Local Abbreviation Srv := (Server K).

(** [m] closes [fd] exactly [n] times. *)
Definition closing {A} (fd : Z) (n : nat) (m : M Srv A) : Prop :=
  ∀ s, wp m (λ _ s', closes fd (host s') = (n + closes fd (host s))%nat) s.
Lemma closing_ret {A} fd (a : A) : closing fd 0 (ret a).
Proof using Type. intros s. by wp_step. Qed.
Lemma closing_dget {A B} fd n (f : DisplayState → A) (k : A → M Srv B) :
  (∀ a, closing fd n (k a)) → closing fd n (bind (dget f) k).
Proof using Type. intros Hk s. unfold dget. do 2 wp_step. apply Hk. Qed.
Lemma closing_bind {A B} fd n n' (m : M Srv A) (k : A → M Srv B) :
  closing fd n m → (∀ a, closing fd n' (k a)) → closing fd (n' + n) (bind m k).
Proof using Type.
  intros Hm Hk s. wp_step. eapply wp_mono; [apply Hm|]. cbv beta. intros a s1 E1.
  eapply wp_mono; [apply Hk|]. cbv beta. intros b s2 E2. rewrite E2, E1. lia.
Qed.
Lemma closing_close fd : closing fd 1 (close fd).
Proof using All.
  intros s. unfold close, on_host. do 2 wp_step. cbn. rewrite (cc_close fd fd), decide_True by done. lia.
Qed.
Lemma closing_host {A} fd (m : M K A) : (∀ k, wp m (λ _ k', closes fd k' = closes fd k) k) → closing fd 0 (on_host m).
Proof using Type. intros Hm s. unfold on_host. wp_step. eapply wp_mono; [apply Hm|]. by intros a k. Qed.
Lemma closing_call fd x : closing fd 0 (call x).
Proof using All. apply closing_host. intros k. wp_step. apply cc_call. Qed.
Lemma closing_dset fd f : closing fd 0 (dset f).
Proof using Type. intros s. unfold dset. by wp_step. Qed.

(** [OverlayManager::update] closes the descriptor on every path. *)
Lemma closing_update oid fd size : closing fd 1 (overlay_update oid fd size).
Proof using All.
  assert (Hfail : closing fd 1 (close fd ;; ret false))
    by (apply (closing_bind fd 1 0); [apply closing_close|intros _; apply closing_ret]).
  unfold overlay_update. apply closing_dget. intros [ov|]; [|done]. destruct (_ || _); [done|].
  destruct (negb _); [done|]. apply (closing_bind fd 0 1).
  { apply closing_host. intros k. unfold wp, ask. pose proof (cc_mmap fd (ov_width ov * ov_height ov * 4) fd k) as Hc.
    by destruct (host_mmap _ _ k). }
  intros data. apply (closing_bind fd 1 0); [apply closing_close|]. intros _.
  destruct data as [bytes|]; [|apply closing_ret].
  apply (closing_bind fd 0 0); [apply closing_dset|]. intros _.
  apply (closing_bind fd 0 0); [apply closing_call|]. intros _. apply closing_ret.
Qed.

(** The handler of [UpdateOverlay] closes the descriptor it has received twice,
    whatever the overlay: [OverlayManager::update] closes it on every path, and the
    handler again.  The second call can close a descriptor opened in between. *)
Theorem update_overlay_closes_twice `{!HashOrder} oid bytes fd (s : Srv) :
  wp (on_message (UpdateOverlay oid bytes) (Some fd))
    (λ handled s', handled = true ∧ closes fd (host s') = (2 + closes fd (host s))%nat) s.
Proof using All.
  apply wp_and.
  - cbn [on_message]. unfold update_overlay. wp_step.
    eapply wp_mono; [apply (closing_bind fd 1 0); [apply closing_update|intros _; apply closing_ret]|].
    cbv beta. intros _ s1 _. wp_step. eapply wp_mono; [apply closing_close|]. cbv beta. intros _ s2 _. by wp_step.
  - cbn [on_message]. unfold update_overlay. apply (closing_bind fd 1 1).
    + apply (closing_bind fd 1 0); [apply closing_update|intros _; apply closing_ret].
    + intros _. apply (closing_bind fd 1 0); [apply closing_close|intros _; apply closing_ret].
Qed.
End Closes.

Definition ex_closes (fd : Z) (k : ExHost) : nat := count_occ Z.eq_dec (eh_closed k) fd.
Lemma ex_counts : CountsCloses ex_closes.
Proof.
  split; try done. intros fd fd' k. unfold ex_closes. cbn. rewrite count_occ_app. cbn.
  destruct (Z.eq_dec fd fd'), (decide (fd = fd')); lia.
Qed.
Lemma update_overlay_closes_twice_witness :
  wp (on_message (UpdateOverlay 3 16) (Some 9)) (λ handled s', handled = true ∧ ex_closes 9 (host s') = 2%nat)
    ex_server_start.
Proof. pose proof ex_counts. by apply (update_overlay_closes_twice ex_closes 3 16 9 ex_server_start). Defined.

(** ** Key intercepts *)

Section Intercepts.
Context {K : Type} `{!Host K} {P : Type} `{!WaylandBackend.Peer P} `{!Env (WaylandBackend.WWorld P)} `{!HashOrder}.

(** The message the backend sends for its grabbed keys. *)
Definition intercepts_message (l : list (Z * Z)) : Payload :=
  let count := Nat.min (length l) kMaxKeyIntercepts in
  SetKeyboardIntercepts (Z.of_nat count) (take count l ++ replicate (kMaxKeyIntercepts - count) (0, 0)).
Lemma intercepts_wf l : Forall (λ p, u32 p.1 ∧ u32 p.2) l → wf_payload (intercepts_message l).
Proof.
  intros Hl. pose proof (Nat.le_min_r (length l) kMaxKeyIntercepts) as Hc.
  unfold intercepts_message. set (n := Nat.min _ _) in *. constructor; [|constructor; [|constructor]]; cbn [wf_field].
  - unfold u32, kMaxKeyIntercepts in *. lia.
  - split.
    + rewrite length_app, length_replicate, length_take. unfold kMaxKeyIntercepts in *. lia.
    + apply Forall_app_2; [by apply Forall_take|]. apply Forall_replicate. unfold u32. cbn. lia.
Qed.
(** A message that arrives without a descriptor. *)
Lemma dispatch_received fd p (s : Server K) Q : client_ s = Some fd → wf_payload p →
  (host_recv fd (host s)).1 = WaylandBackend.RecvPacket (send_message p) None →
  wp (handled <- dispatch_message p None ;; if (handled : bool) then ret true else reject None) Q
    (s <| host := (host_recv fd (host s)).2 |>) →
  wp dispatch_one_message Q s.
Proof using Type.
  intros Hc Hw Hrecv HQ. unfold dispatch_one_message. do 2 wp_step. rewrite Hc. wp_step. unfold on_host. wp_step.
  unfold wp at 1, ask. destruct (host_recv fd (host s)) as [rc k]. cbn [fst snd] in *. subst rc.
  pose proof (read_packet_send _ Hw) as Er.
  destruct (send_message p) as [|b bytes] eqn:Em;
    [apply (f_equal length) in Em; by rewrite send_length in Em|]. by rewrite Er.
Qed.
Lemma dispatch_intercepts count keys : dispatch_message (K := K) (SetKeyboardIntercepts count keys) None =
  (set_keyboard_intercepts (take (Nat.min (Z.to_nat count) (length keys)) keys) ;; ret true).
Proof. done. Qed.
Lemma is_intercepted_spec ks mods d : is_intercepted ks mods d = true ↔
  ∃ mods', (ks, mods') ∈ ds_intercepts d ∧ Z.land (significant mods) (significant mods') = significant mods'.
Proof.
  unfold is_intercepted. rewrite existsb_exists. split.
  - intros ([k m] & Hin & Hk). cbn in Hk. apply andb_true_iff in Hk as [Hk Hm].
    apply Z.eqb_eq in Hk as ->, Hm. exists m. by rewrite list_elem_of_In.
  - intros (m & Hin & Hm). exists (ks, m). rewrite <- list_elem_of_In. split; [done|]. cbn.
    by rewrite Z.eqb_refl, Hm, Z.eqb_refl.
Qed.

(** Keys the window manager grabs are intercepted by the display server: the
    packet the backend sends makes the server's list the first 64 of the grabbed
    keys, so that a press of a key is intercepted exactly when one of them has its
    keysym and only modifiers that are down, Caps Lock and Num Lock aside. *)
Theorem grabbed_keys_intercepted (r : Runtime (WaylandBackend.WWorld P)) (s : Server K) fd :
  WaylandBackend.control_ (WaylandBackend.wb (world r)) = true → client_ s = Some fd →
  let grabbed := WaylandBackend.intercepts_ (WaylandBackend.wb (world r)) in
  Forall (λ p, u32 p.1 ∧ u32 p.2) grabbed →
  let b := send_message (intercepts_message grabbed) in
  (∀ res r', WaylandBackend.input_send_intercepts r = Some (res, r') →
    WaylandBackend.peer (world r') = (WaylandBackend.peer_send b None (WaylandBackend.peer (world r))).2) ∧
  ((host_recv fd (host s)).1 = WaylandBackend.RecvPacket b None →
   wp dispatch_one_message (λ handled s', handled = true ∧ ds_intercepts (display s') = take 64 grabbed ∧
     ∀ ks mods, is_intercepted ks mods (display s') = true ↔
       ∃ mods', (ks, mods') ∈ take 64 grabbed ∧
                Z.land (significant mods) (significant mods') = significant mods') s).
Proof using All.
  intros Hopen Hc grabbed Hl b. split.
  - intros res r'. unfold WaylandBackend.input_send_intercepts, WaylandBackend.set_keyboard_intercepts,
      WaylandBackend.send_control, WaylandBackend.wget, bind, gets. rewrite Hopen.
    unfold WaylandBackend.on_peer, zoom, ask. fold (intercepts_message grabbed). fold grabbed.
    destruct (WaylandBackend.peer_send _ _ _) as [[] p']; by intros [= _ <-].
  - intros Hrecv. apply (dispatch_received _ _ _ _ Hc (intercepts_wf grabbed Hl) Hrecv). wp_step.
    unfold intercepts_message. rewrite dispatch_intercepts. set (keys := take (Nat.min _ _) _).
    assert (Ek : keys = take 64 grabbed).
    { unfold keys, kMaxKeyIntercepts. rewrite Nat2Z.id, length_app, length_replicate, length_take.
      rewrite take_app_le by (rewrite length_take; lia). rewrite take_take.
      destruct (Nat.le_ge_cases (length grabbed) 64); [rewrite !take_ge; [done|lia..]|f_equal; lia]. }
    unfold set_keyboard_intercepts, dset. do 4 wp_step. rewrite Ek. split_and!; [done..|].
    intros ks mods. apply is_intercepted_spec.
Qed.
End Intercepts.

Definition ex_grabbed : Runtime (WaylandBackend.WWorld ExPeer) :=
  mkRuntime ∅ CoreProps.ex_core [] [] true Running false false false false [] ∅ EventQueue.empty_queue [] [] None
    (WaylandBackend.mkWWorld
       (WaylandBackend.connected_backend <| WaylandBackend.intercepts_ := [(65, 4); (66, 0)] |>) (mkExPeer [] [] [])).
Definition ex_grabbing : Server ExHost :=
  ex_server_start <| host := mkExHost [send_message (intercepts_message [(65, 4); (66, 0)])] [] [] [] |>.
Lemma grabbed_keys_intercepted_witness :
  wp dispatch_one_message (λ handled s', handled = true ∧ is_intercepted 65 6 (display s') = true) ex_grabbing.
Proof.
  eapply wp_mono.
  - apply (grabbed_keys_intercepted ex_grabbed ex_grabbing 5); [done|done|repeat constructor; cbn; lia|by vm_compute].
  - cbv beta. intros handled s' (-> & _ & Hk). split; [done|]. apply Hk. exists 4. split; [left|done].
Defined.
