(* ===== verification/XWaylandProps.v ===== *)
(** * Claims about X11 applications under the display server

    The surfaces of the display server that belong to no Wayland toplevel mirror
    the mapped windows of XWayland, whatever the two and the clients do. *)

From S2P Require Import Prelude Exceptions TextStream Geometry Events Protocol Ipc X11Server.
From S2P Require Import X11Backend X11Safe.
From S2P Require Import WaylandBackend DisplayServer XWayland WaylandProps.
Local Open Scope Z_scope.

(** ** Windows and surfaces, as values *)

(** The surface that shows the window. *)
Definition shows (xw : XWindow) (v : DisplaySurface) : Prop :=
  toplevel_id v = 0 ∧ ds_mapped v = true ∧ wl_surface_id v = xw_wl xw ∧
  ds_title v = string_bytes (xw_title xw) ∧ ds_app_id v = string_bytes (xw_class xw) ∧ ds_pid v = xw_pid xw.
Local Abbreviation Surfaces := (gmap Z DisplaySurface).

(** A window is shown exactly when it is mapped and its Wayland surface is known;
    every surface without a toplevel shows one window; the managed surfaces are
    those.  The window [open] has no surface but may ask for one. *)
Record mirror (open : option Z) (d : Surfaces) (next : Z) (xm : Xwm) : Prop := {
  mi_ids sid v : d !! sid = Some v → 0 < sid < next;
  mi_next : 0 < next;
  mi_id win xw : windows_ xm !! win = Some xw → xw_id xw = win;
  mi_shown win xw : windows_ xm !! win = Some xw → open ≠ Some win →
    (xw_surface xw ≠ 0 ↔ xw_mapped xw = true ∧ xw_wl xw ≠ 0) ∧
    (xw_surface xw ≠ 0 → ∃ v, d !! xw_surface xw = Some v ∧ shows xw v);
  mi_open win xw : windows_ xm !! win = Some xw → open = Some win → xw_surface xw = 0;
  mi_surface sid v : d !! sid = Some v → toplevel_id v = 0 →
    ∃ win xw, windows_ xm !! win = Some xw ∧ xw_surface xw = sid;
  mi_inj w1 w2 x1 x2 : windows_ xm !! w1 = Some x1 → windows_ xm !! w2 = Some x2 →
    xw_surface x1 = xw_surface x2 → xw_surface x1 ≠ 0 → w1 = w2;
  mi_managed sid : sid ∈ managed_surface_ids_ xm ↔
    sid ≠ 0 ∧ ∃ win xw, windows_ xm !! win = Some xw ∧ xw_surface xw = sid }.

(** What matters of a surface, and that nothing else does. *)
Definition seen (v : DisplaySurface) : Z * bool * Z * list Z * list Z * Z :=
  (toplevel_id v, ds_mapped v, wl_surface_id v, ds_title v, ds_app_id v, ds_pid v).
Lemma shows_seen xw v v' : seen v = seen v' → shows xw v → shows xw v'.
Proof. unfold seen, shows. intros [= E1 E2 E3 E4 E5 E6]. by rewrite E1, E2, E3, E4, E5, E6. Qed.
Lemma seen_toplevel v v' : seen v = seen v' → toplevel_id v = toplevel_id v'.
Proof. by unfold seen; intros [= -> _]. Qed.
Lemma seen_lookup (d d' : Surfaces) sid v : seen <$> d = seen <$> d' → d !! sid = Some v →
  ∃ v', d' !! sid = Some v' ∧ seen v = seen v'.
Proof.
  intros E Hv. assert ((seen <$> d') !! sid = Some (seen v)) as H by by rewrite <- E, lookup_fmap, Hv.
  rewrite lookup_fmap in H. destruct (d' !! sid) as [v'|]; [|done]. apply (inj Some) in H. by exists v'.
Qed.
(** Surfaces that change only as far as [P] allows: those with a toplevel, or in
    what is not seen. *)
Definition same_x (d d' : Surfaces) : Prop := ∀ sid v, d !! sid = Some v → toplevel_id v = 0 →
  ∃ v', d' !! sid = Some v' ∧ seen v = seen v'.
Lemma mirror_same o d d' n n' xm : n ≤ n' → same_x d d' → same_x d' d → (∀ sid v, d' !! sid = Some v → 0 < sid < n') →
  mirror o d n xm → mirror o d' n' xm.
Proof.
  intros Hn H1 H2 Hi [Hids Hnx Hid Hs Ho Hsf Hj Hm]. split; try done.
  - lia.
  - intros win xw Hw Hne. destruct (Hs win xw Hw Hne) as [Hiff Hsh]. split; [done|]. intros Hz.
    destruct (Hsh Hz) as (v & Hv & Hshow). destruct (H1 _ _ Hv) as (v' & Hv' & E); [apply Hshow|].
    exists v'. split; [done|]. by eapply shows_seen.
  - intros sid v' Hv' Ht. destruct (H2 _ _ Hv' Ht) as (v & Hv & E). apply (Hsf sid v Hv). by rewrite <- (seen_toplevel _ _ E).
Qed.
Lemma same_seen d d' : seen <$> d = seen <$> d' → same_x d d'.
Proof. intros E sid v Hv _. by eapply seen_lookup. Qed.

(** ** Changes *)

Section Changes.
Implicit Types (d : Surfaces) (xm : Xwm) (f : XWindow → XWindow).
Local Abbreviation on_window f win xm := (xm <| windows_ ::= alter f win |>).

Lemma on_window_lookup f win xm w xw : windows_ (on_window f win xm) !! w = Some xw →
  (w = win ∧ ∃ xw0, windows_ xm !! win = Some xw0 ∧ xw = f xw0) ∨ (w ≠ win ∧ windows_ xm !! w = Some xw).
Proof.
  cbn. destruct (decide (w = win)) as [->|Hne].
  - rewrite lookup_alter_eq. destruct (windows_ xm !! win) as [xw0|]; [|done]. intros [= <-]. left. split; [done|]. by exists xw0.
  - rewrite lookup_alter_ne by done. auto.
Qed.
Lemma on_window_surface f win xm sid : (∀ xw, xw_surface (f xw) = xw_surface xw) →
  (∃ w xw, windows_ (on_window f win xm) !! w = Some xw ∧ xw_surface xw = sid) ↔
  (∃ w xw, windows_ xm !! w = Some xw ∧ xw_surface xw = sid).
Proof.
  intros Hf. split.
  - intros (w & xw & Hw & E). apply (on_window_lookup f win) in Hw as [(-> & xw0 & H0 & ->)|(_ & Hw)]; [|by exists w, xw].
    exists win, xw0. split; [done|]. by rewrite <- E, Hf.
  - intros (w & xw & Hw & E). cbn. destruct (decide (w = win)) as [->|Hne].
    + exists win, (f xw). rewrite lookup_alter_eq, Hw, Hf. done.
    + exists w, xw. by rewrite lookup_alter_ne.
Qed.
(** A window without a surface may change in everything else. *)
Lemma mirror_open o f win xw d n xm : (∀ xw, xw_surface (f xw) = xw_surface xw ∧ xw_id (f xw) = xw_id xw) →
  windows_ xm !! win = Some xw → xw_surface xw = 0 → o = None ∨ o = Some win →
  mirror o d n xm → mirror (Some win) d n (on_window f win xm).
Proof.
  intros Hf Hw Hz Hor [Hids Hnx Hid Hs Ho Hsf Hj Hm]. split; try done.
  - intros w xw' H. apply (on_window_lookup f win) in H as [(-> & xw0 & H0 & ->)|(_ & H)]; [|by apply Hid].
    destruct (Hf xw0) as [_ ->]. by apply Hid.
  - intros w xw' H Hne. apply (on_window_lookup f win) in H as [(-> & _)|(Hnw & H)]; [done|]. apply (Hs w xw' H). destruct Hor as [->| ->]; congruence.
  - intros w xw' H [= <-]. apply (on_window_lookup f win) in H as [(_ & xw0 & H0 & ->)|(? & _)]; [|done].
    destruct (Hf xw0) as [-> _]. by simplify_eq.
  - intros sid v Hv Ht. apply on_window_surface; [apply Hf|by eapply Hsf].
  - intros w1 w2 x1 x2 H1 H2.
    apply (on_window_lookup f win) in H1 as [(-> & y1 & H1 & ->)|(_ & H1)];
      apply (on_window_lookup f win) in H2 as [(-> & y2 & H2 & ->)|(_ & H2)]; rewrite ?(proj1 (Hf _)); [done|by apply Hj..].
  - intros sid. rewrite (on_window_surface f win) by apply Hf. apply Hm.
Qed.
Lemma mirror_shut win d n xm : (∀ xw, windows_ xm !! win = Some xw → ¬ (xw_mapped xw = true ∧ xw_wl xw ≠ 0)) →
  mirror (Some win) d n xm → mirror None d n xm.
Proof.
  intros Hn [Hids Hnx Hid Hs Ho Hsf Hj Hm]. split; try done. intros w xw H _. destruct (decide (w = win)) as [->|Hne].
  - pose proof (Ho _ _ H eq_refl) as Hz. pose proof (Hn _ H). split; [|done]. split; [done|]. intros H'. by destruct Hn with xw.
  - apply (Hs w xw H); congruence.
Qed.
Lemma mirror_announce win xw v d n xm : windows_ xm !! win = Some xw → xw_mapped xw = true → xw_wl xw ≠ 0 → shows xw v →
  mirror (Some win) d n xm →
  mirror None (<[n := v]> d) (n + 1) (on_window (λ xw, xw <| xw_surface := n |>) win xm <| managed_surface_ids_ ::= union {[n]} |>).
Proof.
  set (to_n := λ xw : XWindow, xw <| xw_surface := n |>).
  intros Hw Hmap Hwl Hsh [Hids Hnx Hid Hs Ho Hsf Hj Hm].
  assert (∀ w xw', windows_ xm !! w = Some xw' → xw_surface xw' ≠ n) as Hfresh.
  { intros w xw' H E. destruct (decide (w = win)) as [->|Hne].
    - pose proof (Ho _ _ H eq_refl). lia.
    - destruct (Hs w xw' H) as [_ Hs']; [congruence|]. destruct Hs' as (v' & Hv' & _); [lia|]. apply Hids in Hv'. lia. }
  split.
  - intros sid v'. rewrite lookup_insert_Some. intros [[<- _]|[_ H]]; [lia|]. apply Hids in H. lia.
  - lia.
  - intros w xw' H. apply (on_window_lookup to_n win) in H as [(-> & xw0 & H0 & ->)|(_ & H)]; [by apply (Hid _ xw0)|by apply Hid].
  - intros w xw' H _. apply (on_window_lookup to_n win) in H as [(-> & xw0 & H0 & ->)|(Hne & H)].
    + cbn in H0. simplify_eq. unfold to_n. cbn. split; [split; [by split|intros _; lia]|]. intros _. exists v. by rewrite lookup_insert_eq.
    + destruct (Hs w xw' H) as [Hiff Hs']; [congruence|]. split; [done|]. intros Hz. destruct (Hs' Hz) as (v' & Hv' & ?).
      exists v'. split; [|done]. rewrite lookup_insert_ne; [done|]. apply Hids in Hv'. lia.
  - done.
  - intros sid v'. rewrite lookup_insert_Some. intros [[<- _]|[Hne H]] Ht.
    + exists win, (xw <| xw_surface := n |>). cbn. by rewrite lookup_alter_eq, Hw.
    + destruct (Hsf _ _ H Ht) as (w & xw' & Hw' & E). exists w, xw'. cbn. rewrite lookup_alter_ne; [done|]. intros <-.
      pose proof (Ho _ _ Hw' eq_refl). apply Hids in H. lia.
  - intros w1 w2 x1 x2 H1 H2.
    apply (on_window_lookup to_n win) in H1 as [(-> & y1 & H1 & ->)|(_ & H1)];
      apply (on_window_lookup to_n win) in H2 as [(-> & y2 & H2 & ->)|(_ & H2)]; cbn; [done|..].
    + intros E. by destruct (Hfresh _ _ H2).
    + intros E. by destruct (Hfresh _ _ H1).
    + by apply Hj.
  - intros sid. cbn. rewrite elem_of_union, elem_of_singleton, Hm. split.
    + intros [->|[Hz (w & xw' & Hw' & E)]].
      * split; [lia|]. exists win, (xw <| xw_surface := n |>). by rewrite lookup_alter_eq, Hw.
      * split; [done|]. exists w, xw'. rewrite lookup_alter_ne; [done|]. intros <-. pose proof (Ho _ _ Hw' eq_refl). lia.
    + intros [Hz (w & xw' & Hw' & E)].
      apply (on_window_lookup to_n win) in Hw' as [(-> & xw0 & H0 & ->)|(Hne & H)]; [by left|].
      right. split; [done|]. by exists w, xw'.
Qed.
(** The surface of a window goes, with whatever else changes of the window. *)
Lemma mirror_drop f win xw d n xm : (∀ xw, xw_surface (f xw) = 0 ∧ xw_id (f xw) = xw_id xw) →
  windows_ xm !! win = Some xw → xw_surface xw ≠ 0 → mirror None d n xm →
  mirror (Some win) (delete (xw_surface xw) d) n
    (on_window f win xm <| managed_surface_ids_ ::= λ m, m ∖ {[xw_surface xw]} |>).
Proof.
  intros Hf Hw Hz [Hids Hnx Hid Hs Ho Hsf Hj Hm].
  assert (∀ w xw', w ≠ win → windows_ xm !! w = Some xw' → xw_surface xw' ≠ xw_surface xw) as Hother.
  { intros w xw' Hne H E. apply Hne. apply (Hj w win xw' xw); [done|done|done|congruence]. }
  split.
  - intros sid v. rewrite lookup_delete_Some. intros [_ H]. by apply Hids in H.
  - done.
  - intros w xw' H. apply (on_window_lookup f win) in H as [(-> & xw0 & H0 & ->)|(_ & H)]; [|by apply Hid].
    destruct (Hf xw0) as [_ ->]. by apply Hid.
  - intros w xw' H Hne. apply (on_window_lookup f win) in H as [(-> & _)|(Hnw & H)]; [done|].
    destruct (Hs w xw' H) as [Hiff Hs']; [done|]. split; [done|]. intros Hz'. destruct (Hs' Hz') as (v & Hv & ?).
    exists v. split; [|done]. rewrite lookup_delete_ne; [done|]. intros E. by apply (Hother w xw').
  - intros w xw' H [= <-]. apply (on_window_lookup f win) in H as [(_ & xw0 & _ & ->)|(? & _)]; [apply Hf|done].
  - intros sid v. rewrite lookup_delete_Some. intros [Hne H] Ht. destruct (Hsf _ _ H Ht) as (w & xw' & Hw' & E).
    exists w, xw'. cbn. rewrite lookup_alter_ne; [done|]. intros <-. by simplify_eq.
  - intros w1 w2 x1 x2 H1 H2.
    apply (on_window_lookup f win) in H1 as [(-> & y1 & H1 & ->)|(_ & H1)];
      apply (on_window_lookup f win) in H2 as [(-> & y2 & H2 & ->)|(_ & H2)]; rewrite ?(proj1 (Hf _)); [done|congruence..|by apply Hj].
  - intros sid. cbn. rewrite elem_of_difference, elem_of_singleton, Hm. split.
    + intros [[Hz' (w & xw' & Hw' & E)] Hne]. split; [done|]. exists w, xw'. rewrite lookup_alter_ne; [done|].
      intros <-. by simplify_eq.
    + intros [Hz' (w & xw' & Hw' & E)]. apply (on_window_lookup f win) in Hw' as [(-> & xw0 & _ & ->)|(Hne & H)].
      * by rewrite (proj1 (Hf xw0)) in E.
      * split; [split; [done|by exists w, xw']|]. rewrite <- E. by apply (Hother w).
Qed.
Lemma mirror_delete win d n xm : mirror (Some win) d n xm → mirror None d n (xm <| windows_ ::= delete win |>).
Proof.
  intros [Hids Hnx Hid Hs Ho Hsf Hj Hm].
  assert (∀ w xw, delete win (windows_ xm) !! w = Some xw → w ≠ win ∧ windows_ xm !! w = Some xw) as Hd.
  { intros w xw. rewrite lookup_delete_Some. intros [? ?]. by split. }
  assert (∀ w xw, windows_ xm !! w = Some xw → xw_surface xw ≠ 0 → delete win (windows_ xm) !! w = Some xw) as Hk.
  { intros w xw H Hz. rewrite lookup_delete_ne; [done|]. intros <-. by apply Hz, (Ho win). }
  split; try done.
  - intros w xw H. apply Hd in H as [_ H]. by apply Hid.
  - intros w xw H _. apply Hd in H as [Hne H]. apply (Hs w xw H). congruence.
  - intros sid v Hv Ht. destruct (Hsf _ _ Hv Ht) as (w & xw & Hw & E). exists w, xw. split; [|done]. apply Hk; [done|].
    apply Hids in Hv. lia.
  - intros w1 w2 x1 x2 H1 H2. apply Hd in H1 as [_ H1], H2 as [_ H2]. by apply Hj.
  - intros sid. cbn. rewrite Hm. split.
    + intros [Hz (w & xw & Hw & E)]. split; [done|]. exists w, xw. split; [|done]. apply Hk; [done|congruence].
    + intros [Hz (w & xw & Hw & E)]. split; [done|]. apply Hd in Hw as [_ Hw]. by exists w, xw.
Qed.
Lemma mirror_create win xw d n xm : windows_ xm !! win = None → xw_id xw = win → xw_surface xw = 0 → xw_mapped xw = false →
  mirror None d n xm → mirror None d n (xm <| windows_ ::= <[win := xw]> |>).
Proof.
  intros Hw Hxi Hz Hmap [Hids Hnx Hid Hs Ho Hsf Hj Hm].
  assert (∀ w xw', <[win:=xw]> (windows_ xm) !! w = Some xw' → xw_surface xw' ≠ 0 → windows_ xm !! w = Some xw') as Hd.
  { intros w xw'. rewrite lookup_insert_Some. intros [[_ <-]|[_ H]]; [done|done]. }
  assert (∀ w xw', windows_ xm !! w = Some xw' → <[win:=xw]> (windows_ xm) !! w = Some xw') as Hk.
  { intros w xw' H. rewrite lookup_insert_ne; [done|]. intros <-. congruence. }
  split; try done.
  - intros w xw'. cbn. rewrite lookup_insert_Some. intros [[<- <-]|[_ H]]; [done|by apply Hid].
  - intros w xw'. cbn. rewrite lookup_insert_Some. intros [[<- <-]|[_ H]] _; [|by apply (Hs w xw' H)].
    rewrite Hz, Hmap. split; [|done]. split; [done|by intros []].
  - intros sid v Hv Ht. destruct (Hsf _ _ Hv Ht) as (w & xw' & H & E). exists w, xw'. split; [by apply Hk|done].
  - intros w1 w2 x1 x2 H1 H2 E Hne. apply Hd in H1; [|done]. apply Hd in H2; [|congruence]. by apply (Hj w1 w2 x1 x2).
  - intros sid. rewrite Hm. split; intros [Hne (w & xw' & H & E)]; (split; [done|]); exists w, xw'; (split; [|done]).
    + by apply Hk.
    + apply Hd; [done|congruence].
Qed.
(** A window and its surface change together. *)
Lemma mirror_both f g win xw d n xm : windows_ xm !! win = Some xw → xw_surface xw ≠ 0 →
  xw_id (f xw) = xw_id xw → xw_surface (f xw) = xw_surface xw → xw_mapped (f xw) = xw_mapped xw → xw_wl (f xw) ≠ 0 →
  (∀ v, shows xw v → shows (f xw) (g v)) → (∀ v, toplevel_id (g v) = toplevel_id v) →
  mirror None d n xm → mirror None (alter g (xw_surface xw) d) n (on_window f win xm).
Proof.
  intros Hw Hz Hfi Hfs Hfm Hfw Hsh Hg [Hids Hnx Hid Hs Ho Hsf Hj Hm]. destruct (Hs win xw Hw) as [Hiff Hv0]; [done|].
  destruct (Hv0 Hz) as (v0 & Hv & Hshow).
  assert (∀ sid, (∃ w xw, windows_ (on_window f win xm) !! w = Some xw ∧ xw_surface xw = sid) ↔
    (∃ w xw, windows_ xm !! w = Some xw ∧ xw_surface xw = sid)) as Hsame.
  { intros sid. split; intros (w & xw' & H & E).
    - apply (on_window_lookup f win) in H as [(-> & xw0 & H0 & ->)|(_ & H)]; [|by exists w, xw'].
      assert (xw0 = xw) as -> by congruence. exists win, xw. split; [done|]. congruence.
    - cbn. destruct (decide (w = win)) as [->|Hne].
      + assert (xw' = xw) as -> by congruence. exists win, (f xw). rewrite lookup_alter_eq, H. split; [done|congruence].
      + exists w, xw'. by rewrite lookup_alter_ne. }
  split; try done.
  - intros sid v. rewrite lookup_alter_Some. intros [(<- & v' & H & _)|[_ H]]; by apply Hids in H.
  - intros w xw' H. apply (on_window_lookup f win) in H as [(-> & xw0 & H0 & ->)|(_ & H)]; [|by apply Hid].
    assert (xw0 = xw) as -> by congruence. rewrite Hfi. by apply Hid.
  - intros w xw' H _. apply (on_window_lookup f win) in H as [(-> & xw0 & H0 & ->)|(Hne & H)].
    + assert (xw0 = xw) as -> by congruence. rewrite Hfs, Hfm. split; [|].
      * split; [|done]. intros _. split; [by apply Hiff|done].
      * intros _. exists (g v0). rewrite lookup_alter_eq, Hv. split; [done|by apply Hsh].
    + destruct (Hs w xw' H) as [Hiff' Hs']; [done|]. split; [done|]. intros Hz'. destruct (Hs' Hz') as (v & Hv' & ?).
      exists v. split; [|done]. rewrite lookup_alter_ne; [done|]. intros E. apply Hne, (Hj w win xw' xw); congruence.
  - intros sid v Hv' Ht. apply Hsame. rewrite lookup_alter_Some in Hv'. destruct Hv' as [(<- & v' & H & ->)|[_ H]].
    + rewrite Hg in Ht. by apply (Hsf _ v').
    + by apply (Hsf _ v).
  - intros w1 w2 x1 x2 H1 H2.
    apply (on_window_lookup f win) in H1 as [(-> & y1 & H1 & ->)|(Hn1 & H1)];
      apply (on_window_lookup f win) in H2 as [(-> & y2 & H2 & ->)|(Hn2 & H2)]; [done|..|by apply Hj].
    + assert (y1 = xw) as -> by congruence. rewrite Hfs. by apply Hj.
    + assert (y2 = xw) as -> by congruence. rewrite Hfs. by apply Hj.
  - intros sid. rewrite Hsame. apply Hm.
Qed.
Lemma mirror_weaken win xw d n xm : windows_ xm !! win = Some xw → xw_surface xw = 0 → mirror None d n xm → mirror (Some win) d n xm.
Proof.
  intros Hw Hz [Hids Hnx Hid Hs Ho Hsf Hj Hm]. split; try done.
  - intros w xw' H _. by apply (Hs w xw' H).
  - intros w xw' H [= <-]. by simplify_eq.
Qed.
End Changes.

(** ** Computations *)

Record View := mkView { vw_d : Surfaces; vw_n : Z; vw_x : Xwm; vw_r : bool }.
#[export] Instance eta_View : Eta View := λ v, mkView (vw_d v) (vw_n v) (vw_x v) (vw_r v).

(** What the X server answers for WM_CLASS is two terminated strings. *)
Class TerminatedClasses (K : Type) `{!XServer K} : Prop :=
  classes_terminated win len (k : K) p k' :
    x_get_property win XCB_ATOM_WM_CLASS XCB_ATOM_STRING len k = (Some p, k') → terminated (prop_bytes p).

Section Runs.
Context {K : Type} `{!XServer K} `{!XwlEnv K} `{!Host K} `{HO : !HashOrder} `{!TerminatedClasses K}.
Local Abbreviation S := (Server (XwlWorld K)).
Implicit Types s : S.

Definition view s : View := mkView (ds_surfaces (display s)) (next_surface_id_ (display s)) (xwm (host s)) (ready_ (host s)).
(** [m] completes and does [g] to what is seen. *)
Definition does_view (g : View → View) {A} (m : M S A) : Prop := ∀ s, wp m (λ _ s', view s' = g (view s)) s.
Local Abbreviation quiet := (does_view (λ v, v)).

Lemma view_does_ret {A} (a : A) : quiet (ret a).
Proof using Type. by intros s. Qed.
Lemma view_does_bind {A B} g h (m : M S A) (k : A → M S B) : does_view g m → (∀ a, does_view h (k a)) → does_view (λ v, h (g v)) (bind m k).
Proof using Type.
  intros Hm Hk s. wp_step. eapply wp_mono; [apply Hm|]. cbv beta. intros a s1 E. rewrite <- E. apply Hk.
Qed.
Lemma quiet_bind {A B} (m : M S A) (k : A → M S B) : quiet m → (∀ a, quiet (k a)) → quiet (bind m k).
Proof using Type. intros Hm Hk. exact (view_does_bind _ _ m k Hm Hk). Qed.
Lemma quiet_gets {A} (f : S → A) : quiet (gets f).
Proof using Type. by intros s. Qed.
Lemma does_modify g f : (∀ s, view (f s) = g (view s)) → does_view g (modify f).
Proof using Type. intros Hf s. apply Hf. Qed.
Lemma quiet_on_x {A} (m : M K A) : (∀ k, is_Some (m k)) → quiet (on_x m).
Proof using Type. intros Hm s. unfold on_x. wp_step. unfold wp. by destruct (Hm (xhost (host s))) as [[a k] ->]. Qed.
Lemma quiet_host {A} (q : XwlWorld K → A * XwlWorld K) :
  (∀ w, xwm (q w).2 = xwm w ∧ ready_ (q w).2 = ready_ w) → quiet (on_host (ask q)).
Proof using Type.
  intros Hq s. unfold on_host. wp_step. unfold ask, wp. destruct (Hq (host s)) as [E1 E2].
  destruct (q (host s)) as [a w]. cbn in *. unfold view. cbn. by rewrite E1, E2.
Qed.
Lemma quiet_call c : quiet (call c).
Proof using Type. intros s. unfold call, on_host. do 2 wp_step. by destruct c. Qed.
Lemma quiet_close fd : quiet (close fd).
Proof using Type. intros s. by unfold close, on_host; do 2 wp_step. Qed.
Lemma quiet_request q : quiet (request q).
Proof using Type. apply quiet_on_x. by intros k. Qed.

Ltac quiet_step :=
  match goal with
  | |- does_view _ (bind _ _) => apply quiet_bind; [|intros ?]
  | |- does_view _ (ret _) => apply view_does_ret
  | |- does_view _ (gets _) => apply quiet_gets
  | |- does_view _ (dget _) => apply quiet_gets
  | |- does_view _ (wget _) => apply quiet_gets
  | |- does_view _ (call _) => apply quiet_call
  | |- does_view _ (close _) => apply quiet_close
  | |- does_view _ (request _) => apply quiet_request
  | |- does_view _ (on_host (ask _)) => apply quiet_host; by intros w
  | |- does_view _ (modify _) => apply does_modify; by intros []
  | |- does_view _ (dset _) => apply does_modify; by intros []
  | |- does_view _ (if ?b then _ else _) => destruct b
  | |- does_view _ (match ?o with Some _ => _ | None => _ end) => destruct o
  end.
Ltac quiet_auto := repeat quiet_step.

Lemma xwl_quiet_command p : quiet (dispatch_command p).
Proof using Type. destruct p; cbn [dispatch_command]; quiet_auto. Qed.
Lemma quiet_disconnect : quiet disconnect_client.
Proof using Type. unfold disconnect_client, set_keyboard_intercepts, ungrab_pointer. quiet_auto. apply xwl_quiet_command. Qed.
Lemma quiet_send p : quiet (send_event p).
Proof using Type. unfold send_event. quiet_auto. apply quiet_disconnect. Qed.
Lemma quiet_emit p : quiet (emit_event p).
Proof using Type. unfold emit_event. quiet_auto. apply quiet_send. Qed.

(** ** The sink: surfaces of the display server *)

Lemma does_update sid f : does_view (λ v, v <| vw_d ::= alter f sid |>) (surface_update sid f).
Proof using Type. by apply does_modify. Qed.
Lemma view_alter_none v sid f : vw_d v !! sid = None → v <| vw_d ::= alter f sid |> = v.
Proof using Type.
  intros E. destruct v as [d n xm r]. cbn in *. f_equal. apply map_eq. intros i. destruct (decide (i = sid)) as [->|Hne].
  - by rewrite lookup_alter_eq, E.
  - by rewrite lookup_alter_ne.
Qed.
(** [with_surface] around a change and a message. *)
Lemma does_with_surface sid f (p : DisplaySurface → Payload) :
  does_view (λ v, v <| vw_d ::= alter f sid |>) (with_surface sid (λ v, surface_update sid f ;; emit_event (p v))).
Proof using Type.
  intros s. unfold with_surface, dget. do 2 wp_step. destruct (ds_surfaces (display s) !! sid) as [v|] eqn:E.
  - apply (view_does_bind _ (λ v, v) _ _ (does_update sid f)). intros []. apply quiet_emit.
  - wp_step. by rewrite view_alter_none.
Qed.
Lemma does_mapped sid : does_view (λ v, v <| vw_d ::= alter (λ w, w <| ds_mapped := true |>) sid |>) (surface_mapped sid).
Proof using Type. apply (does_with_surface sid _ (λ _, SurfaceMapped sid)). Qed.
Lemma does_title sid t : does_view (λ v, v <| vw_d ::= alter (λ w, w <| ds_title := t |>) sid |>) (surface_title_changed sid t).
Proof using Type. apply (does_with_surface sid _ (λ _, SurfaceTitleChanged sid (fixed_string kMaxSurfaceTitleBytes t))). Qed.
Lemma does_app_id sid t : does_view (λ v, v <| vw_d ::= alter (λ w, w <| ds_app_id := t |>) sid |>) (surface_app_id_changed sid t).
Proof using Type. apply (does_with_surface sid _ (λ _, SurfaceAppIdChanged sid (fixed_string kMaxSurfaceAppIdBytes t))). Qed.
Lemma does_committed sid w h : does_view (λ v, v <| vw_d ::= alter (λ c, c <| ds_width := w |> <| ds_height := h |>) sid |>) (surface_committed sid w h).
Proof using Type. apply (does_with_surface sid _ (λ _, SurfaceCommitted sid w h)). Qed.
Lemma does_destroyed sid : does_view (λ v, v <| vw_d ::= delete sid |>) (surface_destroyed sid).
Proof using Type.
  intros s. unfold surface_destroyed, with_surface, dget. do 2 wp_step.
  destruct (ds_surfaces (display s) !! sid) as [v|] eqn:E.
  - apply (view_does_bind (λ v, v) _ _ _ (quiet_emit _)). intros []. by apply does_modify.
  - wp_step. unfold view. cbn. by rewrite delete_id.
Qed.
Lemma add_surface_view app_id t pid tl s :
  let n := next_surface_id_ (display s) in
  0 < n < 2^32 - 1 → ds_surfaces (display s) !! n = None →
  wp (add_surface app_id t pid tl) (λ sid s', sid = n ∧
    view s' = (view s) <| vw_d ::= <[n := mkDisplaySurface n tl 0 app_id t pid false false 0 0 0 0 0 0 0]> |> <| vw_n := n + 1 |>) s.
Proof using Type.
  cbv zeta. intros Hn Hd. unfold add_surface, dget, dset. do 3 wp_step. wp_step. wp_step. wp_step.
  eapply wp_bind. eapply wp_mono; [apply quiet_emit|]. cbv beta. intros [] s1 E. wp_step. split; [done|]. rewrite E.
  unfold view. cbn. rewrite Hd, to_u32_small by lia. done.
Qed.

(** ** Windows of XWayland *)

Local Abbreviation on_window f win := (λ v : View, v <| vw_x ::= λ x, x <| windows_ ::= alter f win |> |>).
Lemma does_set_window win f : does_view (on_window f win) (set_window win f).
Proof using Type. by apply does_modify. Qed.
(** What reading a property may change. *)
Definition retitles (f : XWindow → XWindow) : Prop := ∀ xw, f xw = xw <| xw_title := xw_title (f xw) |>.
Definition reclasses (f : XWindow → XWindow) : Prop := ∀ xw, f xw = xw <| xw_class := xw_class (f xw) |>.
Definition tame (f : XWindow → XWindow) : Prop := ∀ xw,
  xw_surface (f xw) = xw_surface xw ∧ xw_id (f xw) = xw_id xw ∧ xw_wl (f xw) = xw_wl xw ∧ xw_mapped (f xw) = xw_mapped xw.
Lemma on_window_id win v : on_window (λ xw, xw) win v = v.
Proof using Type. destruct v as [d n [c w ws m] r]. cbn. by rewrite alter_id. Qed.
Lemma read_view {A} win (q : M K A) (P : (XWindow → XWindow) → Prop) (k : A → M S unit) :
  (∀ k, is_Some (q k)) → (∀ a, ∃ f, P f ∧ does_view (on_window f win) (k a)) →
  ∀ s, wp (bind (on_x q) k) (λ _ s', ∃ f, P f ∧ view s' = on_window f win (view s)) s.
Proof using Type.
  intros Hq Hk s. wp_step. eapply wp_mono; [by apply quiet_on_x|]. cbv beta. intros a s1 E.
  destruct (Hk a) as (f & Hf & Hd). eapply wp_mono; [apply Hd|]. cbv beta. intros [] s2 E2. exists f. by rewrite E2, E.
Qed.
Lemma kept_window win : does_view (on_window (λ xw, xw) win) (ret tt : M S unit).
Proof using Type. intros s. wp_step. by rewrite on_window_id. Qed.
Lemma text_total win prop type (k : K) : is_Some (get_text_property win prop type k).
Proof using Type. unfold get_text_property, bind, ask. by destruct (x_get_property _ _ _ _ k). Qed.
Lemma class_total win (k : K) : is_Some (get_wm_class win k).
Proof using All.
  unfold get_wm_class, bind, ask. destruct (x_get_property win XCB_ATOM_WM_CLASS XCB_ATOM_STRING 256 k) as [[p|] k'] eqn:E; [|done].
  pose proof (classes_terminated win 256 k p k' E) as Ht. destruct (prop_bytes p) as [|b0 b]; [done|].
  destruct Ht as [?|(i & rest & E1 & Hrest)]; [done|]. unfold checked. rewrite E1. cbn.
  destruct rest as [|c rest]; [done|]. destruct Hrest as [?|[r2 E2]]; [done|]. by rewrite E2.
Qed.
Lemma does_read_title win s : wp (read_title win) (λ _ s', ∃ f, retitles f ∧ view s' = on_window f win (view s)) s.
Proof using Type.
  unfold read_title. wp_step. eapply wp_mono; [apply quiet_on_x, text_total|]. cbv beta. intros t s1 <-.
  wp_step. apply wp_mono with (Q := λ _ s', view s' = view s1).
  { destruct (String.eqb t ""); [apply quiet_on_x, text_total|by wp_step]. }
  intros t' s2 <-. destruct (String.eqb t' "").
  - exists (λ xw, xw). split; [by intros []|]. by rewrite on_window_id.
  - eapply wp_mono; [apply does_set_window|]. cbv beta. intros [] s3 E. by exists (λ xw, xw <| xw_title := t' |>).
Qed.
Lemma does_read_class win s : wp (read_class win) (λ _ s', ∃ f, reclasses f ∧ view s' = on_window f win (view s)) s.
Proof using All.
  unfold read_class. apply read_view; [apply class_total|]. intros c.
  destruct (negb (String.eqb c.2 "")); [|destruct (negb (String.eqb c.1 ""))].
  - exists (λ xw, xw <| xw_class := c.2 |>). split; [done|apply does_set_window].
  - exists (λ xw, xw <| xw_class := c.1 |>). split; [done|apply does_set_window].
  - exists (λ xw, xw). split; [by intros []|apply kept_window].
Qed.
Lemma does_read_pid win s : wp (read_pid win) (λ _ s', ∃ f, tame f ∧ view s' = on_window f win (view s)) s.
Proof using Type.
  unfold read_pid. apply read_view.
  { intros k. unfold get_cardinal_property, bind, ask. by destruct (x_get_property _ _ _ _ k). }
  intros pid. destruct (pid =? 0).
  - exists (λ xw, xw). split; [done|apply kept_window].
  - exists (λ xw, xw <| xw_pid := pid |>). split; [done|apply does_set_window].
Qed.

(** ** Handlers *)

Definition mirrors (open : option Z) (v : View) : Prop := mirror open (vw_d v) (vw_n v) (vw_x v).
Definition window_at (v : View) (win : Z) : option XWindow := windows_ (vw_x v) !! win.
(** Identifiers of surfaces do not wrap around. *)
Definition room (v : View) : Prop := vw_n v < 2^32 - 1.
(** From a view to one that mirrors, with XWayland still up, and at most one surface more. *)
Definition advances (v v' : View) : Prop := mirrors None v' ∧ vw_r v' = vw_r v ∧ vw_n v ≤ vw_n v'.
Lemma window_on_window f win v xw : window_at v win = Some xw → window_at (on_window f win v) win = Some (f xw).
Proof using Type. unfold window_at. cbn. intros E. by rewrite lookup_alter_eq, E. Qed.
Lemma wp_get_window {A} win (k : XWindow → M S A) Q s xw : window_at (view s) win = Some xw → wp (k xw) Q s →
  wp (bind (get_window win) k) Q s.
Proof using Type. intros E Hk. wp_step. by eapply wp_checked. Qed.
Lemma wp_with_window win body Q s : (window_at (view s) win = None → Q tt s) →
  (∀ xw, window_at (view s) win = Some xw → wp (body xw) Q s) → wp (with_window win body) Q s.
Proof using Type.
  intros H1 H2. unfold with_window, wget. do 2 wp_step. change (windows_ _ !! win) with (window_at (view s) win).
  destruct (window_at (view s) win) as [xw|]; [by apply H2|wp_step; by apply H1].
Qed.
Lemma wp_does {A} g (m : M S A) (Q : A → S → Prop) s : does_view g m → (∀ a s', view s' = g (view s) → Q a s') → wp m Q s.
Proof using Type. intros Hm HQ. eapply wp_mono; [apply Hm|]. exact HQ. Qed.
Ltac go H s E := wp_step; eapply wp_does; [apply H|cbv beta; intros [] s E].

Lemma announce_ok win xw s : mirrors (Some win) (view s) → window_at (view s) win = Some xw → xw_mapped xw = true →
  xw_wl xw ≠ 0 → room (view s) →
  wp (announce win (xw_wl xw)) (λ _ s', advances (view s) (view s') ∧
    window_at (view s') win = Some (xw <| xw_surface := vw_n (view s) |>)) s.
Proof using Type.
  intros Hm Hw Hmap Hwl Hroom. pose proof (mi_next _ _ _ _ Hm) as Hn. unfold room in Hroom. cbn in Hn, Hroom.
  unfold announce. eapply wp_get_window; [exact Hw|]. wp_step. eapply wp_mono.
  { apply add_surface_view; [lia|]. destruct (ds_surfaces (display s) !! _) as [v|] eqn:E; [|done].
    pose proof (mi_ids _ _ _ _ Hm _ _ E). cbn in *. lia. }
  cbv beta. intros sid s1 [-> E1]. set (n := next_surface_id_ (display s)) in *.
  go (does_set_window win (λ xw, xw <| xw_surface := n |>)) s2 E2.
  wp_step. apply wp_does with (g := λ v, v <| vw_x ::= λ x, x <| managed_surface_ids_ ::= union {[n]} |> |>); [by apply does_modify|].
  intros [] s3 E3. go (does_update n (λ v, v <| wl_surface_id := xw_wl xw |>)) s4 E4.
  go (does_mapped n) s5 E5. eapply wp_does; [apply does_committed|]. cbv beta. intros [] s6 E6.
  rewrite E6, E5, E4, E3, E2, E1. cbn [view]. unfold advances, mirrors. cbn. rewrite !alter_insert_eq. cbn. split_and!; [|done|lia|].
  - eapply (mirror_announce win xw); try done.
  - unfold window_at in *. cbn in *. by rewrite lookup_alter_eq, Hw.
Qed.

(** Reading leaves a window without a surface as open as it is. *)
Lemma open_reads win f v xw : tame f → window_at v win = Some xw → xw_surface xw = 0 → mirrors (Some win) v →
  mirrors (Some win) (on_window f win v) ∧ window_at (on_window f win v) win = Some (f xw) ∧
  xw_surface (f xw) = 0 ∧ xw_wl (f xw) = xw_wl xw.
Proof using Type.
  intros Hf Hw Hz Hm. split_and!.
  - eapply (mirror_open (Some win)); [|done|done|by right|done]. intros xw'. by destruct (Hf xw') as (? & ? & _).
  - by apply window_on_window.
  - by rewrite (proj1 (Hf xw)).
  - apply Hf.
Qed.
Lemma tame_retitles f : retitles f → tame f.
Proof using Type. intros Hf xw. by rewrite Hf. Qed.
Lemma tame_reclasses f : reclasses f → tame f.
Proof using Type. intros Hf xw. by rewrite Hf. Qed.
Lemma unshown_no_surface v win xw : mirrors None v → window_at v win = Some xw → ¬ (xw_mapped xw = true ∧ xw_wl xw ≠ 0) → xw_surface xw = 0.
Proof using Type.
  intros Hm Hw Hn. destruct (mi_shown _ _ _ _ Hm win xw Hw ltac:(done)) as [Hiff _].
  destruct (decide (xw_surface xw = 0)); [done|]. exfalso. by apply Hn, Hiff.
Qed.

Lemma map_request_ok win s : mirrors None (view s) → room (view s) →
  (∀ xw, window_at (view s) win = Some xw → xw_mapped xw = false) →
  wp (handle_map_request win) (λ _ s', advances (view s) (view s') ∧
    ∀ xw, window_at (view s) win = Some xw → xw_override xw = false →
      ∃ xw', window_at (view s') win = Some xw' ∧ xw_mapped xw' = true ∧ xw_wl xw' = xw_wl xw) s.
Proof using All.
  intros Hm Hroom Hfair. apply wp_with_window.
  { intros E. split; [by split_and!|]. intros xw'. by rewrite E. }
  intros xw Hw. pose proof (Hfair xw Hw) as Hmap. destruct (xw_override xw) eqn:Hov.
  { eapply wp_does; [apply quiet_request|]. intros [] s' ->. split; [by split_and!|]. intros xw'. rewrite Hw. intros [= <-]. congruence. }
  assert (xw_surface xw = 0) as Hz by (eapply unshown_no_surface; [done|done|by rewrite Hmap; intros []]).
  assert (mirrors (Some win) (view s)) as Ho by by eapply mirror_weaken.
  wp_step. eapply wp_mono; [apply does_read_title|]. cbv beta. intros [] s1 (f1 & Hf1 & E1).
  destruct (open_reads win f1 _ xw (tame_retitles _ Hf1) Hw Hz Ho) as (Ho1 & Hw1 & Hz1 & Hl1).
  wp_step. eapply wp_mono; [apply does_read_class|]. cbv beta. intros [] s2 (f2 & Hf2 & E2). rewrite E1 in E2.
  destruct (open_reads win f2 _ _ (tame_reclasses _ Hf2) Hw1 Hz1 Ho1) as (Ho2 & Hw2 & Hz2 & Hl2).
  wp_step. eapply wp_mono; [apply does_read_pid|]. cbv beta. intros [] s3 (f3 & Hf3 & E3). rewrite E2 in E3.
  destruct (open_reads win f3 _ _ Hf3 Hw2 Hz2 Ho2) as (Ho3 & Hw3 & Hz3 & Hl3). rewrite <- E3 in Ho3, Hw3.
  assert (vw_n (view s3) = vw_n (view s) ∧ vw_r (view s3) = vw_r (view s)) as [Hn3 Hr3] by by rewrite E3.
  go quiet_request s4 E4. go quiet_request s5 E5. rewrite E4 in E5.
  go (does_set_window win (λ xw, xw <| xw_mapped := true |>)) s6 E6. rewrite E5 in E6.
  set (xw3 := f3 (f2 (f1 xw))) in *.
  assert (mirrors (Some win) (view s6)) as Ho6.
  { rewrite E6. eapply (mirror_open (Some win)); [|exact Hw3|done|by right|done]. done. }
  assert (window_at (view s6) win = Some (xw3 <| xw_mapped := true |>)) as Hw6.
  { rewrite E6. by apply window_on_window. }
  assert (vw_n (view s6) = vw_n (view s) ∧ vw_r (view s6) = vw_r (view s)) as [Hn6 Hr6] by (rewrite E6; cbn in *; by split).
  assert (xw_wl (xw3 <| xw_mapped := true |>) = xw_wl xw) as Hwl by (cbn; congruence).
  eapply wp_get_window; [exact Hw6|]. destruct (xw_wl (xw3 <| xw_mapped := true |>) =? 0) eqn:Ewl.
  - wp_step. split.
    + split_and!; [|done|lia]. eapply mirror_shut; [|exact Ho6]. intros xw'. unfold window_at in Hw6. rewrite Hw6.
      intros [= <-] [_ Hc]. by apply Hc, Z.eqb_eq.
    + intros xw'. rewrite Hw. intros [= <-] _. eexists. by split_and!.
  - apply Z.eqb_neq in Ewl. eapply wp_mono; [apply announce_ok; try done; unfold room in *; lia|]. cbv beta.
    intros [] s7 [(H1 & H2 & H3) Hw7]. split; [split_and!; [done|congruence|lia]|].
    intros xw'. rewrite Hw. intros [= <-] _. eexists. by split_and!.
Qed.

Lemma create_ok win override p sz s : mirrors None (view s) → window_at (view s) win = None →
  wp (handle_create_notify win override p sz) (λ _ s', advances (view s) (view s')) s.
Proof using Type.
  intros Hm Hw. unfold handle_create_notify, wget. do 2 wp_step. wp_step; [wp_step; by split_and!|]. wp_step.
  set (xw := mkXWindow win 0 0 "" "" 0 override false p sz 0).
  apply wp_does with (g := λ v, v <| vw_x ::= λ x, x <| windows_ ::= <[win := xw]> |> |>); [by apply does_modify|].
  intros [] s1 E1. eapply wp_does; [apply quiet_request|]. intros [] s2 ->. rewrite E1.
  split_and!; [|done|done]. by apply mirror_create.
Qed.

(** A window without a surface that becomes neither mapped nor known. *)
Lemma mirrors_tame win f v xw : tame f → window_at v win = Some xw → xw_surface xw = 0 → mirrors None v →
  mirrors None (on_window f win v).
Proof using Type.
  intros Hf Hw Hz Hm. destruct (mi_shown _ _ _ _ Hm win xw Hw ltac:(done)) as [Hiff _].
  apply (mirror_shut win).
  - intros xw'. cbn. unfold window_at in Hw. rewrite lookup_alter_eq, Hw. intros [= <-]. destruct (Hf xw) as (_ & _ & -> & ->). intros Hc. by apply Hiff in Hc.
  - eapply (mirror_open None); [|exact Hw|done|by left|exact Hm]. intros xw'. by destruct (Hf xw') as (? & ? & _).
Qed.
Lemma mirrors_both f g win v xw : tame f → window_at v win = Some xw → xw_surface xw ≠ 0 →
  (∀ u, shows xw u → shows (f xw) (g u)) → (∀ u, toplevel_id (g u) = toplevel_id u) → mirrors None v →
  mirrors None ((on_window f win v) <| vw_d ::= alter g (xw_surface xw) |>).
Proof using Type.
  intros Hf Hw Hz Hsh Hg Hm. destruct (mi_shown _ _ _ _ Hm win xw Hw ltac:(done)) as [Hiff _].
  destruct (Hf xw) as (E1 & E2 & E3 & E4). apply mirror_both; try done. rewrite E3. by apply Hiff.
Qed.
(** Nothing that is shown changes. *)
Lemma mirrors_hidden win f v xw : tame f → (∀ u, shows xw u → shows (f xw) u) → window_at v win = Some xw → mirrors None v →
  mirrors None (on_window f win v).
Proof using Type.
  intros Hf Hsh Hw Hm. destruct (decide (xw_surface xw = 0)) as [Hz|Hz]; [by eapply mirrors_tame|].
  pose proof (mirrors_both f (λ u, u) win v xw Hf Hw Hz Hsh ltac:(done) Hm) as H.
  unfold mirrors in *. cbn in *. by rewrite alter_id in H.
Qed.

Lemma unmap_ok win s : mirrors None (view s) →
  wp (handle_unmap_notify win) (λ _ s', (advances (view s) (view s') ∧ vw_n (view s') = vw_n (view s)) ∧
    ∀ xw, window_at (view s) win = Some xw → ∃ xw', window_at (view s') win = Some xw' ∧
      xw_mapped xw' = false ∧ xw_wl xw' = xw_wl xw ∧ xw_override xw' = xw_override xw) s.
Proof using Type.
  intros Hm. apply wp_with_window.
  { intros E. split; [split; [by split_and!|done]|]. intros xw'. by rewrite E. }
  intros xw Hw. destruct (xw_mapped xw) eqn:Hmap; cbn [negb].
  2: { wp_step. split; [split; [by split_and!|done]|]. intros xw'. rewrite Hw. intros [= <-]. by exists xw. }
  go (does_set_window win (λ xw, xw <| xw_mapped := false |>)) s1 E1. wp_step.
  set (gone := λ xw : XWindow, xw <| xw_mapped := false |> <| xw_surface := 0 |>).
  apply wp_mono with (Q := λ _ s', mirrors None (view s') ∧ vw_r (view s') = vw_r (view s) ∧ vw_n (view s') = vw_n (view s) ∧
    window_at (view s') win = Some (gone xw)).
  - destruct (xw_surface xw =? 0) eqn:Ez; cbn [negb].
    + apply Z.eqb_eq in Ez. wp_step. rewrite E1. split_and!; [|done|done|].
      * eapply mirror_shut; [|eapply (mirror_open None); [|exact Hw|done|by left|exact Hm]].
        -- intros xw'. unfold window_at in Hw. cbn in *. rewrite lookup_alter_eq, Hw. intros [= <-] []. done.
        -- done.
      * erewrite window_on_window by exact Hw. f_equal. unfold gone. destruct xw; cbn in *. by rewrite Ez.
    + apply Z.eqb_neq in Ez. unfold drop_surface. wp_step. go (does_destroyed (xw_surface xw)) s2 E2.
      apply wp_does with (g := λ v, v <| vw_x ::= λ x, x <| managed_surface_ids_ ::= λ m, m ∖ {[xw_surface xw]} |> |>); [by apply does_modify|].
      intros [] s3 E3. eapply wp_does; [apply does_set_window|]. intros [] s4 E4. rewrite E4, E3, E2, E1.
      pose proof (mirror_drop gone win xw _ _ _ ltac:(done) Hw Ez Hm) as Hd.
      assert (alter (λ xw : XWindow, xw <| xw_surface := 0 |>) win (alter (λ xw, xw <| xw_mapped := false |>) win (windows_ (vw_x (view s)))) =
        alter gone win (windows_ (vw_x (view s)))) as Ea by exact (alter_alter_eq _ _ _ _).
      split_and!; [|done|done|].
      * eapply (mirror_shut win).
        -- intros xw'. cbn. cbn in Ea. rewrite Ea, lookup_alter_eq. unfold window_at in Hw. cbn in Hw. rewrite Hw. intros [= <-] []. done.
        -- unfold mirrors. cbn. cbn in Ea. rewrite Ea. exact Hd.
      * unfold window_at. cbn. cbn in Ea. rewrite Ea, lookup_alter_eq. unfold window_at in Hw. cbn in Hw. by rewrite Hw.
  - cbv beta. intros [] s2 (Hm2 & Hr2 & Hn2 & Hw2). eapply wp_does; [apply quiet_request|]. intros [] s3 ->.
    split; [split; [split_and!; [done|done|lia]|done]|]. intros xw'. rewrite Hw. intros [= <-]. by exists (gone xw).
Qed.
Lemma destroy_ok win s : mirrors None (view s) → wp (handle_destroy_notify win) (λ _ s', advances (view s) (view s')) s.
Proof using Type.
  intros Hm. apply wp_with_window; [intros _; by split_and!|]. intros xw Hw. wp_step.
  apply wp_mono with (Q := λ _ s', ∃ f, (∀ xw, xw_surface (f xw) = 0 ∧ xw_id (f xw) = xw_id xw) ∧
    mirrors (Some win) (on_window f win (view s')) ∧ vw_r (view s') = vw_r (view s) ∧ vw_n (view s') = vw_n (view s)).
  - destruct (xw_surface xw =? 0) eqn:Ez; cbn [negb].
    + apply Z.eqb_eq in Ez. wp_step. exists (λ xw, xw <| xw_surface := 0 |>). split_and!; [done| |done|done].
      assert (on_window (λ xw, xw <| xw_surface := 0 |>) win (view s) = view s) as ->; [|by eapply mirror_weaken].
      unfold view. cbn. f_equal. unfold window_at in Hw. cbn in Hw. destruct (xwm (host s)) as [c w ws m]. cbn in *. f_equal.
      apply map_eq. intros i. destruct (decide (i = win)) as [->|Hne]; [|by rewrite lookup_alter_ne].
      rewrite lookup_alter_eq, Hw. cbn. destruct xw; cbn in *. by rewrite Ez.
    + apply Z.eqb_neq in Ez. unfold drop_surface. go (does_destroyed (xw_surface xw)) s2 E2.
      apply wp_does with (g := λ v, v <| vw_x ::= λ x, x <| managed_surface_ids_ ::= λ m, m ∖ {[xw_surface xw]} |> |>); [by apply does_modify|].
      intros [] s3 E3. exists (λ xw, xw <| xw_surface := 0 |>). rewrite E3, E2. split_and!; [done| |done|done].
      exact (mirror_drop (λ xw, xw <| xw_surface := 0 |>) win xw _ _ _ ltac:(done) Hw Ez Hm).
  - cbv beta. intros [] s2 (f & Hf & Hm2 & Hr2 & Hn2).
    apply wp_does with (g := λ v, v <| vw_x ::= λ x, x <| windows_ ::= delete win |> |>); [by apply does_modify|].
    intros [] s3 E3. rewrite E3. split_and!; [|done|cbn in *; lia]. apply (mirror_delete win) in Hm2. unfold mirrors.
    cbn in Hm2. by rewrite delete_alter_eq in Hm2.
Qed.

Lemma advances_quiet v v' : mirrors None v → v' = v → advances v v'.
Proof using Type. intros Hm ->. by split_and!. Qed.
Lemma property_ok win a s : mirrors None (view s) → wp (handle_property_notify win a) (λ _ s', advances (view s) (view s')) s.
Proof using All.
  intros Hm. apply wp_with_window; [intros _; by split_and!|]. intros xw Hw.
  destruct ((a =? NET_WM_NAME) || (a =? XCB_ATOM_WM_NAME)); [|destruct (a =? x_intern_atom "WM_CLASS"); [|by wp_step; split_and!]].
  - wp_step. eapply wp_mono; [apply does_read_title|]. cbv beta. intros [] s1 (f & Hf & E1).
    assert (window_at (view s1) win = Some (f xw)) as Hw1 by (rewrite E1; by apply window_on_window).
    eapply wp_get_window; [exact Hw1|]. destruct (tame_retitles f Hf xw) as (Es & _). rewrite Es.
    destruct (xw_surface xw =? 0) eqn:Ez; cbn [negb].
    + apply Z.eqb_eq in Ez. wp_step. rewrite E1. split_and!; [|done|done]. eapply mirrors_tame; [by apply tame_retitles|done..].
    + apply Z.eqb_neq in Ez. eapply wp_does; [apply does_title|]. intros [] s2 ->. rewrite E1. split_and!; [|done|done].
      apply (mirrors_both f _ win _ xw); [by apply tame_retitles|done..| |done|done].
      intros u (? & ? & ? & ? & ? & ?). rewrite (Hf xw). by split_and!.
  - wp_step. eapply wp_mono; [apply does_read_class|]. cbv beta. intros [] s1 (f & Hf & E1).
    assert (window_at (view s1) win = Some (f xw)) as Hw1 by (rewrite E1; by apply window_on_window).
    eapply wp_get_window; [exact Hw1|]. destruct (tame_reclasses f Hf xw) as (Es & _). rewrite Es.
    destruct (xw_surface xw =? 0) eqn:Ez; cbn [negb].
    + apply Z.eqb_eq in Ez. wp_step. rewrite E1. split_and!; [|done|done]. eapply mirrors_tame; [by apply tame_reclasses|done..].
    + apply Z.eqb_neq in Ez. eapply wp_does; [apply does_app_id|]. intros [] s2 ->. rewrite E1. split_and!; [|done|done].
      apply (mirrors_both f _ win _ xw); [by apply tame_reclasses|done..| |done|done].
      intros u (? & ? & ? & ? & ? & ?). rewrite (Hf xw). by split_and!.
Qed.

Lemma associate_ok win wl xw s : mirrors None (view s) → window_at (view s) win = Some xw → wl ≠ 0 → room (view s) →
  wp (associate win wl) (λ _ s', advances (view s) (view s')) s.
Proof using Type.
  intros Hm Hw Hwl Hroom. unfold associate. set (f := λ xw : XWindow, xw <| xw_wl := wl |>).
  go (does_set_window win f) s1 E1.
  assert (window_at (view s1) win = Some (f xw)) as Hw1 by (rewrite E1; by apply window_on_window).
  eapply wp_get_window; [exact Hw1|]. change (xw_mapped (f xw)) with (xw_mapped xw). change (xw_surface (f xw)) with (xw_surface xw).
  assert (vw_n (view s1) = vw_n (view s) ∧ vw_r (view s1) = vw_r (view s)) as [Hn1 Hr1] by by rewrite E1.
  destruct (xw_surface xw =? 0) eqn:Ez; cbn [negb].
  - apply Z.eqb_eq in Ez. rewrite andb_true_r.
    assert (mirrors (Some win) (view s1)) as Ho.
    { rewrite E1. by eapply (mirror_open None); [|exact Hw|done|by left|exact Hm]. }
    destruct (xw_mapped xw) eqn:Hmap.
    + change wl with (xw_wl (f xw)) at 1. eapply wp_mono; [apply announce_ok; try done; unfold room in *; lia|]. cbv beta.
      intros [] s2 [(H1 & H2 & H3) _]. split_and!; [done|congruence|lia].
    + wp_step. split_and!; [|done|lia]. eapply mirror_shut; [|exact Ho]. intros xw'. unfold window_at in Hw1. rewrite Hw1.
      intros [= <-] [Hc _]. cbn in Hc. congruence.
  - apply Z.eqb_neq in Ez. rewrite andb_false_r. eapply wp_does; [apply does_update|]. intros [] s2 ->. rewrite E1.
    split_and!; [|done|done]. apply mirror_both; try done. intros u (? & ? & ? & ? & ? & ?). by split_and!.
Qed.
Lemma try_associate_ok win xw s : mirrors None (view s) → window_at (view s) win = Some xw → room (view s) →
  wp (try_associate win) (λ _ s', advances (view s) (view s')) s.
Proof using Type.
  intros Hm Hw Hroom. unfold try_associate, wget. eapply wp_get_window; [exact Hw|].
  assert (advances (view s) (view s)) as Hid by by split_and!.
  destruct (xw_wl xw =? 0) eqn:El; cbn [negb]; [|by wp_step]. apply Z.eqb_eq in El.
  destruct (xw_serial xw =? 0); [by wp_step|]. do 2 wp_step. wp_step; [|by wp_step]. do 2 wp_step.
  destruct (_ =? 0) eqn:Es; [by wp_step|]. apply Z.eqb_neq in Es.
  by eapply associate_ok.
Qed.
Lemma client_message_ok win type data s : mirrors None (view s) → room (view s) →
  wp (handle_client_message win type data) (λ _ s', advances (view s) (view s')) s.
Proof using Type.
  intros Hm Hroom. apply wp_with_window; [intros _; by split_and!|].
  intros xw Hw. destruct (type =? x_intern_atom "WL_SURFACE_SERIAL").
  - set (n := serial_of _ _). go (does_set_window win (λ xw, xw <| xw_serial := n |>)) s1 E1.
    assert (window_at (view s1) win = Some (xw <| xw_serial := n |>)) as Hw1 by (rewrite E1; by apply window_on_window).
    eapply wp_mono; [eapply try_associate_ok; [|exact Hw1|by rewrite E1]|].
    { rewrite E1. by eapply mirrors_hidden. }
    cbv beta. intros [] s2 (H1 & H2 & H3). split_and!; [done|by rewrite H2, E1|by rewrite E1 in H3].
  - destruct (type =? _); [|by wp_step; split_and!]. unfold wget. do 2 wp_step. wp_step; [|by wp_step; split_and!]. do 2 wp_step.
    destruct (_ =? 0) eqn:Es; [by wp_step; split_and!|]. apply Z.eqb_neq in Es. by eapply associate_ok.
Qed.
(** The serial of a window whose Wayland surface is known. *)
Lemma serial_known win xw data s : mirrors None (view s) → window_at (view s) win = Some xw → xw_wl xw ≠ 0 →
  wp (handle_client_message win (x_intern_atom "WL_SURFACE_SERIAL") data) (λ _ s', mirrors None (view s') ∧
    ∃ n, window_at (view s') win = Some (xw <| xw_serial := n |>)) s.
Proof using Type.
  intros Hm Hw Hwl. apply wp_with_window; [congruence|]. intros xw' Hw'. rewrite Hw in Hw'. injection Hw' as <-.
  rewrite Z.eqb_refl. set (n := serial_of _ _). go (does_set_window win (λ xw, xw <| xw_serial := n |>)) s1 E1.
  assert (window_at (view s1) win = Some (xw <| xw_serial := n |>)) as Hw1 by (rewrite E1; by apply window_on_window).
  unfold try_associate. eapply wp_get_window; [exact Hw1|]. cbn [xw_wl]. apply Z.eqb_neq in Hwl. cbn. rewrite Hwl. cbn [negb].
  wp_step. split; [|by exists n]. rewrite E1. by eapply mirrors_hidden.
Qed.

(** A notification the server can send: windows are created once, and asked to be
    mapped when they are not. *)
Definition fair_event (ev : XEvent) s : Prop :=
  match ev with
  | XCreateNotify win _ _ _ => window_at (view s) win = None
  | XMapRequest win => ∀ xw, window_at (view s) win = Some xw → xw_mapped xw = false
  | _ => True
  end.
Lemma event_ok ev s : mirrors None (view s) → room (view s) → fair_event ev s →
  wp (xwm_event ev) (λ _ s', advances (view s) (view s')) s.
Proof using All.
  intros Hm Hroom Hfair. assert (advances (view s) (view s)) as Hid by by split_and!.
  destruct ev; cbn [xwm_event fair_event] in *; try (by wp_step).
  - by apply create_ok.
  - by apply destroy_ok.
  - eapply wp_mono; [by apply unmap_ok|]. by intros [] s' [[H _] _].
  - eapply wp_mono; [by apply map_request_ok|]. by intros [] s' [H _].
  - eapply wp_does; [apply quiet_request|]. intros [] s' E. by apply advances_quiet.
  - by apply property_ok.
  - by apply client_message_ok.
Qed.

(** ** The other parts of the display server *)

(** What is seen of the surfaces, and the rest, stay. *)
Definition sees s := (seen <$> vw_d (view s), vw_n (view s), vw_x (view s), vw_r (view s)).
Definition hidden {A} (m : M S A) : Prop := ∀ s, wp m (λ _ s', sees s' = sees s) s.
Lemma hidden_quiet {A} (m : M S A) : quiet m → hidden m.
Proof using Type. intros Hm s. eapply wp_mono; [apply Hm|]. cbv beta. intros a s' E. unfold sees. by rewrite E. Qed.
Lemma hidden_bind {A B} (m : M S A) (k : A → M S B) : hidden m → (∀ a, hidden (k a)) → hidden (bind m k).
Proof using Type. intros Hm Hk s. wp_step. eapply wp_mono; [apply Hm|]. cbv beta. intros a s1 <-. apply Hk. Qed.
Lemma hidden_update sid f : (∀ v, seen (f v) = seen v) → hidden (surface_update sid f).
Proof using Type.
  intros Hf s. eapply wp_mono; [apply does_update|]. cbv beta. intros [] s' E. unfold sees. rewrite E. cbn.
  f_equal. f_equal. f_equal. apply map_eq. intros i. rewrite !lookup_fmap. destruct (decide (i = sid)) as [->|Hne].
  - rewrite lookup_alter_eq. destruct (ds_surfaces (display s) !! sid) as [v|]; [|done]. cbn. by rewrite Hf.
  - by rewrite lookup_alter_ne.
Qed.
Ltac hidden_step :=
  match goal with
  | |- hidden (surface_update _ _) => apply hidden_update; by intros []
  | |- hidden (dispatch_command _) => apply hidden_quiet, xwl_quiet_command
  | |- hidden (send_event _) => apply hidden_quiet, quiet_send
  | |- hidden (emit_event _) => apply hidden_quiet, quiet_emit
  | |- hidden disconnect_client => apply hidden_quiet, quiet_disconnect
  | |- hidden (bind _ _) => apply hidden_bind; [|intros ?]
  | |- hidden (if ?b then _ else _) => destruct b
  | |- hidden (match ?o with Some _ => _ | None => _ end) => destruct o
  | |- hidden _ => apply hidden_quiet; quiet_step
  end.
Ltac hidden_auto := repeat hidden_step.
Lemma hidden_send_outputs l : hidden (send_outputs l).
Proof using Type. induction l as [|o l IH]; cbn [send_outputs]; hidden_auto. done. Qed.
Lemma hidden_send_surfaces l : hidden (send_surfaces l).
Proof using Type. induction l as [|o l IH]; cbn [send_surfaces]; unfold has_client; hidden_auto. done. Qed.
Lemma hidden_snapshot : hidden send_snapshot.
Proof using Type.
  unfold send_snapshot. hidden_auto; [apply hidden_send_outputs|apply hidden_send_surfaces].
Qed.
Lemma hidden_message p fd : hidden (on_message p fd).
Proof using Type.
  destruct p; cbn [on_message]; try (by hidden_auto);
    unfold configure_surface, set_surface_visible, set_surface_activated, set_surface_stacking, close_surface, warp_pointer,
      set_keyboard_intercepts, grab_pointer, ungrab_pointer, set_surface_border, create_overlay, update_overlay, overlay_update,
      destroy_overlay, notify, with_surface; hidden_auto; apply hidden_snapshot.
Qed.
Lemma hidden_control : hidden dispatch_one_message.
Proof using Type.
  unfold dispatch_one_message, reject, close_opt, dispatch_message. hidden_auto.
  all: try apply hidden_message.
  all: repeat match goal with |- hidden (match ?o with _ => _ end) => destruct o end; hidden_auto; apply hidden_message.
Qed.

(** A surface of a toplevel comes, changes or goes. *)
Lemma mirrors_toplevel v d' n' : vw_n v ≤ n' → (∀ sid u, d' !! sid = Some u → 0 < sid < n') →
  (∀ sid, vw_d v !! sid = d' !! sid ∨
    ((∀ u, vw_d v !! sid = Some u → toplevel_id u ≠ 0) ∧ (∀ u, d' !! sid = Some u → toplevel_id u ≠ 0))) →
  mirrors None v → mirrors None (v <| vw_d := d' |> <| vw_n := n' |>).
Proof using Type.
  intros Hn Hi Hd Hm. apply (mirror_same None (vw_d v) d' (vw_n v) n'); try done.
  - intros sid u Hu Ht. destruct (Hd sid) as [E|[H _]]; [by exists u; rewrite <- E|]. by apply H in Hu.
  - intros sid u Hu Ht. destruct (Hd sid) as [E|[_ H]]; [by exists u; rewrite E|]. by apply H in Hu.
Qed.
Lemma alter_created v f u i n :
  v <| vw_d ::= <[i := u]> |> <| vw_n := n |> <| vw_d ::= alter f i |> = v <| vw_d ::= <[i := f u]> |> <| vw_n := n |>.
Proof using Type. destruct v. cbn. by rewrite alter_insert_eq. Qed.
Lemma mirrors_created v u : toplevel_id u ≠ 0 → mirrors None v →
  mirrors None (v <| vw_d ::= <[vw_n v := u]> |> <| vw_n := vw_n v + 1 |>).
Proof using Type.
  intros Hu Hm. apply (mirrors_toplevel v (<[vw_n v := u]> (vw_d v)) (vw_n v + 1)); [lia| | |done].
  - pose proof (mi_next _ _ _ _ Hm). intros i w. rewrite lookup_insert_Some. intros [[<- _]|[_ H']]; [lia|].
    apply (mi_ids _ _ _ _ Hm) in H'. lia.
  - intros i. destruct (decide (i = vw_n v)) as [->|Hne]; [|left; by rewrite lookup_insert_ne]. right. split.
    + intros w H. apply (mi_ids _ _ _ _ Hm) in H. lia.
    + intros w. rewrite lookup_insert_eq. by intros [= <-].
Qed.
Lemma from_toplevel t (d : DisplayState) sid : surface_id_from_toplevel t d = sid → sid ≠ 0 →
  ∃ u, ds_surfaces d !! sid = Some u ∧ toplevel_id u = t.
Proof using Type.
  unfold surface_id_from_toplevel. destruct (List.find _ _) as [[i u]|] eqn:E; cbn; [|by intros <-].
  intros <- _. apply find_some in E as [Hin E]. apply list_elem_of_In, hash_entries_elem in Hin. exists u.
  split; [done|]. by apply Z.eqb_eq in E.
Qed.
Lemma toplevel_change t g (m : M S unit) sid s : surface_id_from_toplevel t (display s) = sid → sid ≠ 0 → t ≠ 0 →
  (∀ u, toplevel_id (g u) = toplevel_id u) → does_view (λ v, v <| vw_d ::= alter g sid |>) m → mirrors None (view s) →
  wp m (λ _ s', advances (view s) (view s') ∧ vw_x (view s') = vw_x (view s)) s.
Proof using Type.
  intros Es Hsid Ht Hg Hdo Hm. destruct (from_toplevel _ _ _ Es Hsid) as (u & Hu & Hut).
  eapply wp_does; [exact Hdo|]. intros [] s' ->. split; [|done]. split_and!; [|done|done].
  apply (mirrors_toplevel (view s) (alter g sid (vw_d (view s))) (vw_n (view s))); [done| | |done].
  - intros i w. rewrite lookup_alter_Some. intros [(<- & w' & H & _)|[_ H]]; by apply (mi_ids _ _ _ _ Hm) in H.
  - intros i. destruct (decide (i = sid)) as [->|Hne]; [|left; by rewrite lookup_alter_ne]. right. split.
    + intros w Hw. cbn in Hw. rewrite Hu in Hw. injection Hw as <-. congruence.
    + intros w. rewrite lookup_alter_Some. intros [(_ & w' & H & ->)|[? _]]; [|done]. cbn in H. rewrite Hu in H.
      injection H as <-. rewrite Hg. congruence.
Qed.
(** Toplevels are numbered from 1. *)
Definition toplevel_of (e : XdgEvent) : option Z :=
  match e with
  | XdgToplevelCreated t _ _ | XdgToplevelDestroyed t | XdgToplevelMapped t _ _ | XdgToplevelCommitted t _ _
  | XdgTitleChanged t _ | XdgAppIdChanged t _ => Some t
  | _ => None
  end.
Lemma xdg_ok e s : mirrors None (view s) → room (view s) → toplevel_of e ≠ Some 0 →
  wp (on_xdg e) (λ _ s', advances (view s) (view s') ∧ vw_x (view s') = vw_x (view s)) s.
Proof using Type.
  intros Hm Hroom Ht. assert (advances (view s) (view s)) as Hid by by split_and!.
  assert (∀ t body g, t ≠ 0 → (∀ sid, does_view (λ v, v <| vw_d ::= alter (g sid) sid |>) (body sid)) →
    (∀ sid u, toplevel_id (g sid u) = toplevel_id u) →
    wp (with_toplevel t body) (λ _ s', advances (view s) (view s') ∧ vw_x (view s') = vw_x (view s)) s) as Hwith.
  { intros t body g Ht0 Hb Hg. unfold with_toplevel, dget. do 2 wp_step. destruct (_ =? 0) eqn:E; [by wp_step|].
    apply Z.eqb_neq in E. eapply (toplevel_change t (g _)); [done|done|done|apply Hg|apply Hb|done]. }
  destruct e; cbn [on_xdg toplevel_of] in *; try (by wp_step).
  - pose proof (mi_next _ _ _ _ Hm) as Hn. unfold room in Hroom. cbn in Hn, Hroom.
    wp_step. eapply wp_mono.
    { apply add_surface_view; [lia|]. destruct (ds_surfaces (display s) !! _) as [v|] eqn:E; [|done].
      pose proof (mi_ids _ _ _ _ Hm _ _ E). cbn in *. lia. }
    cbv beta. intros sid s1 [-> E1]. eapply wp_does; [apply does_update|]. intros [] s2 E2. rewrite E1 in E2. clear E1.
    set (u := mkDisplaySurface _ _ _ _ _ _ _ _ _ _ _ _ _ _ _) in E2. set (f := λ v : DisplaySurface, _) in E2.
    assert (view s2 = (view s) <| vw_d ::= <[vw_n (view s) := f u]> |> <| vw_n := vw_n (view s) + 1 |>) as ->.
    { rewrite E2. apply alter_created. }
    split; [|done]. split_and!; [|done|cbn; lia]. apply mirrors_created; [cbn; congruence|done].
  - unfold destroy_surface_for_toplevel, dget. do 2 wp_step. destruct (_ =? 0) eqn:E; cbn [negb]; [by wp_step|]. apply Z.eqb_neq in E.
    destruct (from_toplevel _ _ _ eq_refl E) as (u & Hu & Hut).
    eapply wp_does; [apply does_destroyed|]. intros [] s1 ->. split; [|done]. split_and!; [|done|done].
    apply (mirrors_toplevel (view s) (delete (surface_id_from_toplevel toplevel (display s)) (vw_d (view s))) (vw_n (view s))); [done| | |done].
    + intros i w. rewrite lookup_delete_Some. intros [_ H]. by apply (mi_ids _ _ _ _ Hm) in H.
    + intros i. destruct (decide (i = surface_id_from_toplevel toplevel (display s))) as [->|Hne]; [|left; by rewrite lookup_delete_ne].
      right. split; [|intros w; by rewrite lookup_delete_eq]. intros w Hw. cbn in Hw. rewrite Hu in Hw. injection Hw as <-. congruence.
  - apply (Hwith _ _ (λ sid, (λ c, c <| ds_width := w |> <| ds_height := h |>) ∘ (λ u, u <| ds_mapped := true |>))); [congruence| |done].
    intros sid s1. eapply wp_mono; [apply (view_does_bind _ _ _ _ (does_mapped sid) (λ _, does_committed sid w h))|].
    cbv beta. intros [] s2 ->. cbn. by rewrite alter_alter_eq.
  - apply (Hwith _ _ (λ _ c, c <| ds_width := w |> <| ds_height := h |>)); [congruence|intros sid; apply does_committed|done].
  - apply (Hwith _ _ (λ _ c, c <| ds_title := title |>)); [congruence|intros sid; apply does_title|done].
  - apply (Hwith _ _ (λ _ c, c <| ds_app_id := app_id |>)); [congruence|intros sid; apply does_app_id|done].
Qed.

(** ** Runs *)

(** XWayland is ready; it reports an event; its shell objects are called; the
    Wayland shell reports a toplevel; the window manager sends a message. *)
Inductive Step :=
| Ready
| FromX (ev : XEvent)
| ShellCreated (res surface : Z)
| ShellSerial (res lo hi : Z)
| ShellDestroyed (res : Z)
| FromToplevel (e : XdgEvent)
| FromControl.
Definition step (o : Step) : M S unit :=
  match o with
  | Ready => on_ready
  | FromX ev => up <- wget connected ;; if (up : bool) then xwm_event ev else ret tt
  | ShellCreated res surface => get_xwayland_surface res surface
  | ShellSerial res lo hi => set_serial res lo hi
  | ShellDestroyed res => destroy_xwayland_surface res
  | FromToplevel e => on_xdg e
  | FromControl => dispatch_one_message ;; ret tt
  end.
Definition fair (o : Step) s : Prop :=
  room (view s) ∧
  match o with
  | Ready => vw_r (view s) = false
  | FromX ev => fair_event ev s
  | FromToplevel e => toplevel_of e ≠ Some 0
  | _ => True
  end.
Definition run (l : list Step) : M S unit := for_each l step.
Fixpoint fair_run (l : list Step) s : Prop :=
  match l with
  | [] => True
  | o :: l => fair o s ∧ match step o s with Some (_, s') => fair_run l s' | None => True end
  end.
(** A display server just started. *)
Definition start (k : K) : S := mkServer new_display_state None 0 (mkXwl false (mkXwm false 0 ∅ ∅) ∅ k).

(** The windows and surfaces mirror each other; before XWayland is ready there is
    no window. *)
Definition mirrored s : Prop :=
  mirrors None (view s) ∧ (vw_r (view s) = false → windows_ (vw_x (view s)) = ∅).
Lemma ready_ok s : mirrored s → vw_r (view s) = false → wp on_ready (λ _ s', mirrored s') s.
Proof using Type.
  intros [Hm He] Hr. specialize (He Hr). set (P := λ v, vw_d v = vw_d (view s) ∧ vw_n v = vw_n (view s) ∧ vw_r v = true ∧
    windows_ (vw_x v) = ∅ ∧ managed_surface_ids_ (vw_x v) = ∅).
  set (holds := λ A (m : M S A), ∀ s, P (view s) → wp m (λ _ s', P (view s')) s).
  assert (∀ A B (m : M S A) (k : A → M S B), holds A m → (∀ a, holds B (k a)) → holds B (bind m k)) as Hb.
  { intros A B m k H1 H2 s1 HP. wp_step. eapply wp_mono; [by apply H1|]. intros a s2 HP2. by apply H2. }
  assert (∀ A (m : M S A), quiet m → holds A m) as Hq.
  { intros A m Hm1 s1 HP. eapply wp_does; [exact Hm1|]. by intros a s2 ->. }
  assert (∀ f, (∀ xm, windows_ (f xm) = windows_ xm ∧ managed_surface_ids_ (f xm) = managed_surface_ids_ xm) →
    holds _ (wset f)) as Hw.
  { intros f Hf s1 (H1 & H2 & H3 & H4 & H5). unfold wset. wp_step. unfold P, view in *. cbn in *.
    destruct (Hf (xwm (host s1))) as [-> ->]. by split_and!. }
  apply wp_mono with (Q := λ _ s', P (view s')).
  - unfold on_ready. do 2 wp_step. apply Hb; [apply Hq; by apply quiet_on_x| |by unfold P, view; cbn; split_and!].
    intros up. destruct (negb up); [apply Hq, view_does_ret|]. unfold setup_wm, create_wm_window, wget.
    repeat (apply Hb; [|intros ?]).
    all: first [apply Hq, quiet_request|by apply Hw|apply Hq, quiet_gets|by apply Hq, quiet_on_x].
  - cbv beta. intros [] s' (E1 & E2 & E3 & E4 & E5). split; [|congruence]. destruct Hm as [Hids Hnx Hid Hs Ho Hsf Hj Hmg].
    unfold mirrors. rewrite E1, E2. split; try done.
    + intros win xw. by rewrite E4, lookup_empty.
    + intros win xw. by rewrite E4, lookup_empty.
    + intros sid v Hv Ht. destruct (Hsf _ _ Hv Ht) as (win & xw & Hx & _). by rewrite He, lookup_empty in Hx.
    + intros w1 w2 x1 x2. by rewrite E4, lookup_empty.
    + intros sid. rewrite E4, E5. split; [done|]. intros (_ & win & xw & Hx & _). by rewrite lookup_empty in Hx.
Qed.
Lemma mirrored_same v v' : advances v v' → vw_x v' = vw_x v → (vw_r v = false → windows_ (vw_x v) = ∅) →
  mirrors None v' ∧ (vw_r v' = false → windows_ (vw_x v') = ∅).
Proof using Type. intros (H1 & H2 & _) Hx He. split; [done|]. rewrite Hx, H2. exact He. Qed.
Lemma mirrored_hidden s s' : sees s' = sees s → mirrored s → mirrored s'.
Proof using Type.
  unfold sees. intros [[[Ed En]%pair_eq Ex]%pair_eq Er]%pair_eq [Hm He]. split; [|by rewrite Er, Ex]. unfold mirrors. rewrite En, Ex.
  apply (mirror_same None (vw_d (view s)) _ (vw_n (view s))); [done|by apply same_seen|by apply same_seen| |done].
  intros sid v Hv. destruct (seen_lookup _ _ _ _ Ed Hv) as (v0 & Hv0 & _). by apply (mi_ids _ _ _ _ Hm) in Hv0.
Qed.
Lemma step_ok o s : mirrored s → fair o s → wp (step o) (λ _ s', mirrored s') s.
Proof using All.
  intros Hs [Hroom Hfair]. pose proof Hs as [Hm He]. destruct o; cbn [step].
  - by apply ready_ok.
  - unfold wget. do 2 wp_step. destruct (connected (host s)) eqn:Ec; [|by wp_step].
    assert (vw_r (view s) = true) as Hr by by apply andb_true_iff in Ec as [? _].
    eapply wp_mono; [by apply event_ok|]. cbv beta. intros [] s' (H1 & H2 & _). split; [done|congruence].
  - by apply wp_modify.
  - by apply wp_modify.
  - by apply wp_modify.
  - eapply wp_mono; [by apply xdg_ok|]. cbv beta. intros [] s' [Ha Hx]. by eapply mirrored_same.
  - wp_step. eapply wp_mono; [apply hidden_control|]. cbv beta. intros b s' E. wp_step. by eapply mirrored_hidden.
Qed.
Lemma start_mirrored k : mirrored (start k).
Proof using Type.
  split; [|done]. split; try done.
  intros sid. cbn. split; [done|]. intros (_ & win & xw & H & _). by rewrite lookup_empty in H.
Qed.

Lemma mirrored_run l s : mirrored s → fair_run l s → wp (run l) (λ _ s', mirrored s') s.
Proof using All.
  revert s. induction l as [|o l IH]; intros s Hs Hf; [done|].
  destruct Hf as [Ho Hf]. cbn [run for_each]. wp_step. pose proof (step_ok o s Hs Ho) as Hstep. unfold wp in Hstep. unfold wp at 1.
  destruct (step o s) as [[[] s']|]; [|done]. by apply IH.
Qed.

(** C8: the surfaces of X applications mirror their windows.  However the events
    of XWayland, the calls of its shell objects, the toplevels of Wayland clients and
    the messages of the window manager interleave, nothing fails, and at the end, so
    at every moment, a window has a surface exactly when it is mapped and its Wayland surface
    is known; the surface has its title, class, process and Wayland surface; every
    surface without a toplevel is that of one window; and the surfaces that
    XWayland answers for are these.  The events are what a server sends that follows
    the protocol ([fair_run]): it is ready once, creates a window once, asks for a
    map of windows that are not mapped only (a second request for a mapped one would
    add a second surface), its class names are terminated, toplevels are numbered
    from 1, and there are surface numbers left. *)
Theorem xwayland_mirrors_windows l k : fair_run l (start k) → wp (run l) (λ _ s', mirrored s') (start k).
Proof using All. apply mirrored_run, start_mirrored. Qed.

(** C40: a window keeps the Wayland surface of its first mapping.  When it is
    unmapped and mapped again, XWayland gives it a new surface and sends the new
    serial, but a window whose surface is known is not associated again: it is
    announced with the old surface, whatever the serial. *)
Theorem remapped_window_keeps_surface win xw data s : mirrored s → room (view s) →
  window_at (view s) win = Some xw → xw_wl xw ≠ 0 → xw_override xw = false →
  wp (handle_unmap_notify win ;; handle_map_request win ;;
      handle_client_message win (x_intern_atom "WL_SURFACE_SERIAL") data)
    (λ _ s', ∃ xw' v, window_at (view s') win = Some xw' ∧ ds_surfaces (display s') !! xw_surface xw' = Some v ∧
       ds_mapped v = true ∧ wl_surface_id v = xw_wl xw) s.
Proof using All.
  intros [Hm _] Hroom Hw Hwl Hov. wp_step.
  eapply wp_mono; [by apply unmap_ok|]. cbv beta. intros [] s1 [[(Hm1 & Hr1 & _) Hn1] H1].
  destruct (H1 xw Hw) as (xw1 & Hw1 & Hmap1 & Hl1 & Ho1).
  wp_step. eapply wp_mono; [apply map_request_ok; [done|by unfold room in *; rewrite Hn1|]|].
  { intros xw'. rewrite Hw1. by intros [= <-]. }
  cbv beta. intros [] s2 [(Hm2 & Hr2 & _) H2]. destruct (H2 xw1 Hw1) as (xw2 & Hw2 & Hmap2 & Hl2); [congruence|].
  eapply wp_mono; [eapply serial_known; [done|exact Hw2|congruence]|]. cbv beta. intros [] s3 (Hm3 & n & Hw3).
  destruct (mi_shown _ _ _ _ Hm3 win _ Hw3 ltac:(done)) as [Hiff Hsh]. destruct Hsh as (v & Hv & Hshow).
  { apply Hiff. cbn. split; [done|congruence]. }
  exists (xw2 <| xw_serial := n |>), v. destruct Hshow as (_ & Hmv & Hlv & _). split_and!; [done|done|done|].
  cbn in Hlv. congruence.
Qed.
End Runs.

(** ** Witnesses

    One window that is mapped, associated by its serial, renamed, unmapped and
    mapped again, and a toplevel beside it. *)

#[export] Instance xwl_server : XServer ExHost := {
  x_request _ k := k;
  x_poll k := (None, k);
  x_get_property _ prop _ _ k :=
    (Some (mkProperty 8 (if prop =? XCB_ATOM_WM_CLASS then [120; 0; 88; 0] else [104; 105])), k);
  x_get_geometry _ k := (None, k);
  x_get_attributes _ k := (None, k);
  x_query_children _ k := ([], k);
  x_query_tree _ k := (None, k);
  x_get_input_focus k := (0, k);
  x_query_pointer k := (None, k);
  x_intern_atom := fnv1a_tag;
  x_generate_id k := (9, k);
  x_keysym c _ := c;
  x_current_layout _ := [];
  x_xkb_event_type := -1 }.
#[export] Instance xwl_env : XwlEnv ExHost := {
  connect_to_fd k := (true, k);
  xwl_root := 1;
  client_object r _ := Some r;
  id_from_resource r _ := r + 100 }.
#[export] Instance xwl_classes : TerminatedClasses ExHost.
Proof. intros win len k p k' [= <- _]. right. exists [120], [88; 0]. split; [done|right; by exists ([88], [])]. Qed.
Definition ex_xwl_host : ExHost := mkExHost [] [] [] [].
Definition ex_serial (lo : Z) : Step := FromX (XClientMessage 21 (fnv1a_tag "WL_SURFACE_SERIAL") 32 [lo; 0; 0; 0; 0]).
Definition ex_steps : list Step :=
  [Ready; FromX (XCreateNotify 21 false (mkVec2 0 0) (mkVec2 300 200)); FromX (XMapRequest 21);
   ShellCreated 50 7; ShellSerial 50 3 0; ex_serial 3; FromToplevel (XdgToplevelCreated 4 8 77);
   FromX (XPropertyNotify 21 XCB_ATOM_WM_NAME); ShellCreated 51 8; ShellSerial 51 4 0; FromControl].
Definition ex_xwl_state : Server (XwlWorld ExHost) :=
  match run ex_steps (start ex_xwl_host) with Some (_, s) => s | None => start ex_xwl_host end.
Lemma ex_steps_fair : fair_run ex_steps (start ex_xwl_host).
Proof. vm_compute. repeat split; try done; try (by intros ? [= <-]). Qed.

Lemma xwayland_mirrors_windows_witness :
  fair_run ex_steps (start ex_xwl_host) ∧
  (ds_surfaces (display ex_xwl_state) !! 1 : option DisplaySurface) ≠ None ∧
  wp (run ex_steps) (λ _ s', mirrored s') (start ex_xwl_host).
Proof.
  split; [exact ex_steps_fair|]. split; [by vm_compute|]. exact (xwayland_mirrors_windows ex_steps ex_xwl_host ex_steps_fair).
Defined.

(** The second serial is that of another surface, 8, with the identifier 108. *)
Definition ex_xwl_window : XWindow :=
  mkXWindow 21 1 107 "hi" "X" 0 false true (mkVec2 0 0) (mkVec2 300 200) 3.
Lemma wp_last {T} (m : M T unit) (P : T → Prop) t :
  wp m (λ _ t', P t') t → P (match m t with Some (_, t') => t' | None => t end).
Proof. unfold wp. by destruct (m t) as [[[] t']|]. Qed.
Lemma ex_xwl_mirrored : mirrored ex_xwl_state.
Proof. exact (wp_last (run ex_steps) mirrored _ (mirrored_run ex_steps _ (start_mirrored ex_xwl_host) ex_steps_fair)). Qed.
Lemma remapped_window_keeps_surface_witness :
  window_at (view ex_xwl_state) 21 = Some ex_xwl_window ∧
  wp (handle_unmap_notify 21 ;; handle_map_request 21 ;;
      handle_client_message 21 (x_intern_atom "WL_SURFACE_SERIAL") [4; 0])
    (λ _ s', ∃ xw' v, window_at (view s') 21 = Some xw' ∧ ds_surfaces (display s') !! xw_surface xw' = Some v ∧
       ds_mapped v = true ∧ wl_surface_id v = 107) ex_xwl_state.
Proof.
  split; [by vm_compute|].
  apply (remapped_window_keeps_surface 21 ex_xwl_window [4; 0] ex_xwl_state); [exact ex_xwl_mirrored|by vm_compute..].
Defined.
