(* ===== verification/TrayHost.v ===== *)
(** * The system tray of the X11 backend ([backends/x11/src/x11/tray_host.cpp])

    [X11TrayHost]: a window that embeds the icons of other clients (XEMBED), with
    the requests it sends to the server.  A method of the class takes the object
    and returns it; the rest of the state is the server's. *)

From S2P Require Import Prelude TextStream Geometry Events ConfigValue X11Server.
Local Open Scope Z_scope.

(** ** Data *)

Record Icon := mkIcon { ic_win : Z; ic_pos : Vec2; ic_size : Vec2; ic_mapped : bool }.
#[export] Instance eta_Icon : Eta Icon := λ i, mkIcon (ic_win i) (ic_pos i) (ic_size i) (ic_mapped i).
#[export] Instance Icon_eq_dec : EqDecision Icon.
Proof. solve_decision. Defined.

Record TrayHost := mkTray {
  bar_win_ : Z;
  bar_pos_ : Vec2;
  bar_h_ : Z;
  tray_pos_ : Vec2;
  bg_pixel_ : Z;
  tray_win_ : Z;
  tray_w_ : Z;
  selection_owner_ : bool;
  visible_ : bool;
  icons_ : list Icon }.
#[export] Instance eta_TrayHost : Eta TrayHost := λ t,
  mkTray (bar_win_ t) (bar_pos_ t) (bar_h_ t) (tray_pos_ t) (bg_pixel_ t) (tray_win_ t) (tray_w_ t)
    (selection_owner_ t) (visible_ t) (icons_ t).

Definition ICON_SPACING : Z := 2.
Definition XEMBED_EMBEDDED_NOTIFY : Z := 0.
Definition XEMBED_MAPPED : Z := 1.
Definition XEMBED_VERSION : Z := 0.
(** [xcb/xproto.h] *)
Definition XCB_CW_BACK_PIXEL : Z := 2.
Definition XCB_CW_OVERRIDE_REDIRECT : Z := 512.
Definition XCB_EVENT_MASK_BUTTON_PRESS : Z := 4.
Definition XCB_EVENT_MASK_BUTTON_RELEASE : Z := 8.
Definition XCB_EVENT_MASK_SUBSTRUCTURE_NOTIFY : Z := 524288.
Definition XCB_EVENT_MASK_SUBSTRUCTURE_REDIRECT : Z := 1048576.
Definition icon_event_mask : Z := Z.lor XCB_EVENT_MASK_PROPERTY_CHANGE XCB_EVENT_MASK_STRUCTURE_NOTIFY.

(** What [XServer] has no query for: whether the connection is up, the screen,
    and who owns a selection. *)
Class XScreen (Srv : Type) := {
  x_connected : Srv → bool;
  x_root : Z;
  x_screen_number : Z;
  x_selection_owner : Z → Srv → Z * Srv }.

(** [is_icon] and [find_icon]. *)
Definition find_icon (win : Z) (l : list Icon) : option (nat * Icon) := list_find (λ i, ic_win i = win) l.
Definition is_icon (win : Z) (l : list Icon) : bool := existsb (λ i, ic_win i =? win) l.
Definition in_icon (px py : Z) (i : Icon) : bool :=
  (x (ic_pos i) <=? px) && (px <? x (ic_pos i) + x (ic_size i)) &&
  (y (ic_pos i) <=? py) && (py <? y (ic_pos i) + y (ic_size i)).
Definition find_icon_at (px py : Z) (l : list Icon) : option Icon :=
  List.find (λ i, ic_mapped i && in_icon px py i) l.
(** [icons_.erase] of the first icon with the window. *)
Fixpoint erase_icon (win : Z) (l : list Icon) : list Icon :=
  match l with
  | [] => []
  | i :: l => if ic_win i =? win then l else i :: erase_icon win l
  end.

Section Tray.
Context {Srv : Type} `{!XServer Srv} `{!XScreen Srv}.

Definition req (q : XRequest) : M Srv unit := modify (x_request q).
Definition NET_SYSTEM_TRAY_S_ : Z :=
  x_intern_atom ("_NET_SYSTEM_TRAY_S" +:+ String.string_of_list_ascii (show_int x_screen_number)).
Definition NET_SYSTEM_TRAY_OP_ : Z := x_intern_atom "_NET_SYSTEM_TRAY_OPCODE".
Definition NET_SYSTEM_TRAY_ORIENT_ : Z := x_intern_atom "_NET_SYSTEM_TRAY_ORIENTATION".
Definition XEMBED_ : Z := x_intern_atom "_XEMBED".
Definition XEMBED_INFO_ : Z := x_intern_atom "_XEMBED_INFO".
Definition MANAGER_ : Z := x_intern_atom "MANAGER".

Definition xembed_info_mapped (win : Z) : M Srv bool :=
  vals <- get_property_u32 win XEMBED_INFO_ 2 ;;
  ret (match vals with _ :: v :: _ => negb (Z.land v XEMBED_MAPPED =? 0) | _ => false end).
Definition has_xembed_info (win : Z) : M Srv bool := has_property_32 win XEMBED_INFO_ 2.
Definition send_xembed (win message detail data1 data2 : Z) : M Srv unit :=
  req (XSendEvent win XCB_EVENT_MASK_STRUCTURE_NOTIFY
    (SentMessage win XEMBED_ [XCB_CURRENT_TIME; message; detail; data1; data2])).

(** ** Layout *)

(** One mapped icon at [px]: scaled down to the height of the bar, centered. *)
Definition place_icon (bar_h px : Z) (i : Icon) : Icon :=
  let icon_h := Z.min (y (ic_size i)) bar_h in
  let icon_w := Z.quot (x (ic_size i) * icon_h) (Z.max (y (ic_size i)) 1) in
  i <| ic_pos := mkVec2 px (Z.quot (bar_h - icon_h) 2) |> <| ic_size := mkVec2 icon_w icon_h |>.
(** The loop: the next free place, and the icons. *)
Fixpoint layout_icons (bar_h px : Z) (l : list Icon) : M Srv (Z * list Icon) :=
  match l with
  | [] => ret (px, [])
  | i :: l =>
      if negb (ic_mapped i) then
        r <- layout_icons bar_h px l ;; ret (r.1, i :: r.2)
      else
        let i := place_icon bar_h px i in
        req (XConfigureWindow (ic_win i)
          (Z.lor XCB_CONFIG_WINDOW_X (Z.lor XCB_CONFIG_WINDOW_Y (Z.lor XCB_CONFIG_WINDOW_WIDTH XCB_CONFIG_WINDOW_HEIGHT)))
          [to_u32 px; to_u32 (y (ic_pos i)); to_u32 (x (ic_size i)); to_u32 (y (ic_size i))]) ;;
        r <- layout_icons bar_h (px + (x (ic_size i) + ICON_SPACING)) l ;;
        ret (r.1, i :: r.2)
  end.
Definition relayout (t : TrayHost) : M Srv TrayHost :=
  if tray_win_ t =? XCB_NONE then ret t
  else
    r <- layout_icons (bar_h_ t) ICON_SPACING (icons_ t) ;;
    let w := if ICON_SPACING <? r.1 then r.1 else 0 in
    (if 0 <? w then
       req (XConfigureWindow (tray_win_ t) (Z.lor XCB_CONFIG_WINDOW_WIDTH XCB_CONFIG_WINDOW_HEIGHT)
         [to_u32 w; to_u32 (bar_h_ t)]) ;;
       req (XMapWindow (tray_win_ t))
     else req (XUnmapWindow (tray_win_ t))) ;;
    ret (t <| tray_w_ := w |> <| icons_ := r.2 |>).

(** ** Icons *)

Definition add_icon (win : Z) (t : TrayHost) : M Srv TrayHost :=
  if is_icon win (icons_ t) || (tray_win_ t =? XCB_NONE) then ret t
  else
    geo <- ask (x_get_geometry win) ;;
    let oversized := match geo with Some g => (256 <=? g_width g) || (256 <=? g_height g) | None => false end in
    if (oversized : bool) then ret t
    else
      req (XChangeAttributes win XCB_CW_EVENT_MASK [icon_event_mask]) ;;
      req (XChangeSaveSet true win) ;;
      req (XReparentWindow win (tray_win_ t) (mkVec2 0 0)) ;;
      info <- has_xembed_info win ;;
      mapped <- (if (info : bool) then xembed_info_mapped win else ret true) ;;
      geo2 <- ask (x_get_geometry win) ;;
      let sz := match geo2 with
                | Some g => mkVec2 (if 1 <? g_width g then g_width g else bar_h_ t)
                                   (if 1 <? g_height g then g_height g else bar_h_ t)
                | None => mkVec2 (bar_h_ t) (bar_h_ t)
                end in
      let t := t <| icons_ ::= λ l, l ++ [mkIcon win (mkVec2 0 0) sz mapped] |> in
      send_xembed win XEMBED_EMBEDDED_NOTIFY 0 (tray_win_ t) XEMBED_VERSION ;;
      (if (mapped : bool) then req (XMapWindow win) else ret tt) ;;
      relayout t.
Definition remove_icon (win : Z) (t : TrayHost) : M Srv TrayHost :=
  if negb (is_icon win (icons_ t)) then ret t
  else req (XChangeSaveSet false win) ;; relayout (t <| icons_ ::= erase_icon win |>).
Definition adopt_icon (win : Z) (t : TrayHost) : M Srv TrayHost :=
  if negb (selection_owner_ t) || (tray_win_ t =? XCB_NONE) then ret t
  else if is_icon win (icons_ t) then ret t
  else
    info <- has_xembed_info win ;;
    if negb info then ret t else add_icon win t.
Fixpoint adopt_children (l : list Z) (t : TrayHost) : M Srv TrayHost :=
  match l with
  | [] => ret t
  | win :: l =>
      if (win =? tray_win_ t) || is_icon win (icons_ t) then adopt_children l t
      else
        info <- has_xembed_info win ;;
        t <- (if negb info then ret t else add_icon win t) ;;
        adopt_children l t
  end.
Definition adopt_orphaned_icons (t : TrayHost) : M Srv TrayHost :=
  if tray_win_ t =? XCB_NONE then ret t
  else children <- ask (x_query_children x_root) ;; adopt_children children t.

(** To another tray: whether the icon was there, and both trays. *)
Definition transfer_icon_to (t dst : TrayHost) (win : Z) : M Srv (bool * TrayHost * TrayHost) :=
  match find_icon win (icons_ t) with
  | None => ret (false, t, dst)
  | Some (_, i) =>
      if tray_win_ dst =? XCB_NONE then ret (false, t, dst)
      else
        let dst := dst <| icons_ ::= λ l, l ++ [i] |> in
        let t := t <| icons_ ::= erase_icon win |> in
        req (XChangeAttributes win XCB_CW_EVENT_MASK [icon_event_mask]) ;;
        req (XReparentWindow win (tray_win_ dst) (mkVec2 0 0)) ;;
        send_xembed win XEMBED_EMBEDDED_NOTIFY 0 (tray_win_ dst) XEMBED_VERSION ;;
        (if ic_mapped i then req (XMapWindow win) else ret tt) ;;
        t <- relayout t ;;
        dst <- relayout dst ;;
        ret (true, t, dst)
  end.

(** ** Events: whether the event was the tray's, and the tray *)

(** [ev.data[i]] of the five words of a client message. *)
Definition word (data : list Z) (i : nat) : Z := default 0 (data !! i).
Definition handle_client_message (window type : Z) (data : list Z) (t : TrayHost) : M Srv (bool * option Z * TrayHost) :=
  if (tray_win_ t =? XCB_NONE) || negb (selection_owner_ t) then ret (false, None, t)
  else if negb (type =? NET_SYSTEM_TRAY_OP_) then ret (false, None, t)
  else if negb (window =? tray_win_ t) && negb (window =? bar_win_ t) then ret (false, None, t)
  else if negb (word data 1 =? 0) then ret (true, None, t)
  else t <- add_icon (word data 2) t ;; ret (true, Some (word data 2), t).
Definition handle_destroy_notify (win : Z) (t : TrayHost) : M Srv (bool * TrayHost) :=
  if negb (is_icon win (icons_ t)) then ret (false, t)
  else t <- remove_icon win t ;; ret (true, t).
(** The icon at a position of the vector, changed. *)
Definition set_icon (i : nat) (f : Icon → Icon) (t : TrayHost) : TrayHost := t <| icons_ ::= alter f i |>.
Definition handle_unmap_notify (win : Z) (t : TrayHost) : M Srv (bool * TrayHost) :=
  match find_icon win (icons_ t) with
  | None => ret (false, t)
  | Some (i, _) =>
      should_map <- xembed_info_mapped win ;;
      (if (should_map : bool) then req (XMapWindow win) else ret tt) ;;
      t <- relayout (set_icon i (λ ic, ic <| ic_mapped := should_map |>) t) ;;
      ret (true, t)
  end.
Definition handle_configure_notify (win : Z) (t : TrayHost) : M Srv (bool * TrayHost) :=
  match find_icon win (icons_ t) with
  | None => ret (false, t)
  | Some (i, ic) =>
      geo <- ask (x_get_geometry win) ;;
      match geo with
      | None => ret (true, t)
      | Some g =>
          let new := mkVec2 (Z.max (g_width g) 1) (Z.max (g_height g) 1) in
          if (x new =? x (ic_size ic)) && (y new =? y (ic_size ic)) then ret (true, t)
          else t <- relayout (set_icon i (λ ic, ic <| ic_size := new |>) t) ;; ret (true, t)
      end
  end.
Definition handle_property_notify (win atom : Z) (t : TrayHost) : M Srv (bool * TrayHost) :=
  if negb (atom =? XEMBED_INFO_) then ret (false, t)
  else match find_icon win (icons_ t) with
  | None => ret (false, t)
  | Some (i, ic) =>
      should_map <- xembed_info_mapped win ;;
      if should_map && negb (ic_mapped ic) then
        req (XMapWindow win) ;;
        t <- relayout (set_icon i (λ ic, ic <| ic_mapped := true |>) t) ;; ret (true, t)
      else if negb should_map && ic_mapped ic then
        req (XUnmapWindow win) ;;
        t <- relayout (set_icon i (λ ic, ic <| ic_mapped := false |>) t) ;; ret (true, t)
      else ret (true, t)
  end.
(** A button over the tray is sent on to the icon under it. *)
Definition handle_button_event (window : Z) (root_pos event_pos : Vec2) (time button state : Z) (release : bool)
    (t : TrayHost) : M Srv bool :=
  if (tray_win_ t =? XCB_NONE) || (tray_w_ t <=? 0) then ret false
  else
    let on_bar := window =? bar_win_ t in
    if negb on_bar && negb (window =? tray_win_ t) then ret (is_icon window (icons_ t))
    else
      let p := if on_bar then mkVec2 (x root_pos - x (tray_pos_ t)) (y root_pos - y (tray_pos_ t)) else event_pos in
      if (x p <? 0) || (y p <? 0) || (tray_w_ t <=? x p) || (bar_h_ t <=? y p) then ret false
      else match find_icon_at (x p) (y p) (icons_ t) with
      | None => ret false
      | Some ic =>
          req (XSendEvent (ic_win ic) XCB_EVENT_MASK_NO_EVENT
            (SentButton release (ic_win ic) button time x_root root_pos
               (mkVec2 (to_i16 (Z.max 0 (x p - x (ic_pos ic)))) (to_i16 (Z.max 0 (y p - y (ic_pos ic))))) state)) ;;
          ret true
      end.

(** ** The window of the tray *)

Definition move_tray (t : TrayHost) : M Srv unit :=
  req (XConfigureWindow (tray_win_ t) (Z.lor XCB_CONFIG_WINDOW_X XCB_CONFIG_WINDOW_Y)
    [to_u32 (x (tray_pos_ t)); to_u32 (y (tray_pos_ t))]).
Definition reposition (bar_right_x bar_y : Z) (t : TrayHost) : M Srv TrayHost :=
  connected <- gets x_connected ;;
  if negb connected || (tray_win_ t =? XCB_NONE) || (tray_w_ t =? 0) then ret t
  else let t := t <| tray_pos_ := mkVec2 (bar_right_x - tray_w_ t) bar_y |> in move_tray t ;; ret t.
Definition attach_to_bar (new_bar_win bar_x bar_y bar_w : Z) (t : TrayHost) : M Srv TrayHost :=
  connected <- gets x_connected ;;
  if negb connected || (tray_win_ t =? XCB_NONE) then ret t
  else
    let t := t <| bar_win_ := new_bar_win |> <| bar_pos_ := mkVec2 bar_x bar_y |>
               <| tray_pos_ := mkVec2 (bar_x + bar_w - Z.max (tray_w_ t) 1) bar_y |> in
    move_tray t ;; ret t.
Definition set_visible (visible : bool) (t : TrayHost) : M Srv TrayHost :=
  connected <- gets x_connected ;;
  if negb connected || (tray_win_ t =? XCB_NONE) then ret t
  else if Bool.eqb visible (visible_ t) then ret t
  else
    req (if visible then XMapWindow (tray_win_ t) else XUnmapWindow (tray_win_ t)) ;;
    ret (t <| visible_ := visible |>).
Definition raise (t : TrayHost) : M Srv unit :=
  connected <- gets x_connected ;;
  if negb connected || (tray_win_ t =? XCB_NONE) || (bar_win_ t =? XCB_NONE) then ret tt
  else req (XConfigureWindow (tray_win_ t) (Z.lor XCB_CONFIG_WINDOW_SIBLING XCB_CONFIG_WINDOW_STACK_MODE)
         [to_u32 (bar_win_ t); XCB_STACK_MODE_ABOVE]).
Definition lower (t : TrayHost) : M Srv unit :=
  connected <- gets x_connected ;;
  if negb connected || (tray_win_ t =? XCB_NONE) then ret tt
  else req (XConfigureWindow (tray_win_ t) XCB_CONFIG_WINDOW_STACK_MODE [XCB_STACK_MODE_BELOW]).

Definition icon_windows (t : TrayHost) : list Z := ic_win <$> icons_ t.
Definition icon_wm_class (win : Z) (t : TrayHost) : M Srv string :=
  connected <- gets x_connected ;;
  if negb connected || negb (is_icon win (icons_ t)) then ret ""%string
  else c <- get_wm_class win ;; ret (lower_ascii c.2).

(** ** Life *)

Definition try_acquire_selection (t : TrayHost) : M Srv bool :=
  req (XSetSelectionOwner (tray_win_ t) NET_SYSTEM_TRAY_S_) ;;
  owner <- ask (x_selection_owner NET_SYSTEM_TRAY_S_) ;;
  ret (owner =? tray_win_ t).
Definition broadcast_manager (t : TrayHost) : M Srv unit :=
  req (XSendEvent x_root (Z.lor XCB_EVENT_MASK_STRUCTURE_NOTIFY XCB_EVENT_MASK_SUBSTRUCTURE_REDIRECT)
    (SentMessage x_root MANAGER_ [XCB_CURRENT_TIME; NET_SYSTEM_TRAY_S_; tray_win_ t; 0; 0])).
(** The constructor: [create_tray_host]. *)
Definition create_tray_host (bar_win bar_x bar_y bar_h bg_pixel : Z) (own_selection : bool) : M Srv TrayHost :=
  connected <- gets x_connected ;;
  let t := mkTray bar_win (mkVec2 bar_x bar_y) bar_h (mkVec2 0 0) bg_pixel NO_WINDOW 0 false false [] in
  if negb connected then ret t
  else
    win <- ask x_generate_id ;;
    let t := t <| tray_pos_ := bar_pos_ t |> <| tray_win_ := win |> in
    req (XCreateWindowAt win x_root (mkVec2 (to_i16 bar_x) (to_i16 bar_y)) (mkVec2 1 (to_u16 bar_h))
      (Z.lor XCB_CW_BACK_PIXEL (Z.lor XCB_CW_OVERRIDE_REDIRECT XCB_CW_EVENT_MASK))
      [bg_pixel; 1; Z.lor (Z.lor XCB_EVENT_MASK_SUBSTRUCTURE_NOTIFY XCB_EVENT_MASK_BUTTON_PRESS)
         (Z.lor XCB_EVENT_MASK_BUTTON_RELEASE XCB_EVENT_MASK_EXPOSURE)]) ;;
    req (XChangeProperty win NET_SYSTEM_TRAY_ORIENT_ XCB_ATOM_CARDINAL 32 [0]) ;;
    owner <- (if own_selection then try_acquire_selection t else ret false) ;;
    if own_selection && negb owner then
      req (XDestroyWindow win) ;; ret (t <| tray_win_ := XCB_NONE |>)
    else
      let t := t <| selection_owner_ := owner |> <| visible_ := true |> in
      req (XMapWindow win) ;;
      if negb owner then ret t else broadcast_manager t ;; adopt_orphaned_icons t.
(** The destructor gives the icons back to the root window. *)
Definition destroy_tray (t : TrayHost) : M Srv unit :=
  connected <- gets x_connected ;;
  if negb connected then ret tt
  else
    for_each (icons_ t) (λ ic,
      req (XChangeSaveSet false (ic_win ic)) ;;
      req (XReparentWindow (ic_win ic) x_root (mkVec2 0 0)) ;;
      if ic_mapped ic then req (XMapWindow (ic_win ic)) else ret tt) ;;
    if tray_win_ t =? XCB_NONE then ret tt else req (XDestroyWindow (tray_win_ t)).
End Tray.
