(* ===== verification/TrayProps.v ===== *)
(** * The system tray is laid out in a row

    [wf_tray]: the mapped icons stand side by side from the left edge of the
    tray, [ICON_SPACING] apart, within the height of the bar, and the width of
    the tray is theirs.  Every method keeps it; the icons a method adds, removes
    or moves are counted with their windows.  Nothing is assumed of the icons'
    owners: the server only keeps the protocol ([ServerOk], [ScreenOk]). *)

From S2P Require Import Prelude TextStream Geometry Events ConfigValue X11Server X11Backend BackendSafe.
From S2P Require Import X11Safe TrayHost.
Local Open Scope Z_scope.

(** ** The layout as a function *)

Fixpoint lay (bar_h px : Z) (l : list Icon) : Z * list Icon :=
  match l with
  | [] => (px, [])
  | i :: l =>
      if negb (ic_mapped i) then let r := lay bar_h px l in (r.1, i :: r.2)
      else
        let i := place_icon bar_h px i in
        let r := lay bar_h (px + (x (ic_size i) + ICON_SPACING)) l in (r.1, i :: r.2)
  end.
Definition width_of (e : Z) : Z := if ICON_SPACING <? e then e else 0.
Definition relaid (t : TrayHost) : TrayHost :=
  if tray_win_ t =? XCB_NONE then t
  else let r := lay (bar_h_ t) ICON_SPACING (icons_ t) in t <| tray_w_ := width_of r.1 |> <| icons_ := r.2 |>.

(** The mapped icons of [l], from [px] on, end at [e]. *)
Fixpoint row (bar_h px : Z) (l : list Icon) (e : Z) : Prop :=
  match l with
  | [] => px = e
  | i :: l =>
      if ic_mapped i then
        x (ic_pos i) = px ∧ 0 ≤ y (ic_pos i) ∧ y (ic_pos i) + y (ic_size i) ≤ bar_h ∧
        row bar_h (px + (x (ic_size i) + ICON_SPACING)) l e
      else row bar_h px l e
  end.
Definition sized (i : Icon) : Prop := 0 ≤ x (ic_size i) ∧ 0 ≤ y (ic_size i).
Definition in_row (t : TrayHost) : Prop :=
  if tray_win_ t =? XCB_NONE then icons_ t = []
  else ∃ e, row (bar_h_ t) ICON_SPACING (icons_ t) e ∧ tray_w_ t = width_of e.
Definition wf_tray (t : TrayHost) : Prop := 0 ≤ bar_h_ t ∧ Forall sized (icons_ t) ∧ in_row t.

Lemma place_icon_sized h px i : 0 ≤ h → sized i → sized (place_icon h px i).
Proof.
  intros Hh [Hx Hy]. unfold place_icon, sized. cbn. split; [|lia].
  apply Z.quot_pos; [|lia]. apply Z.mul_nonneg_nonneg; lia.
Qed.
Lemma place_icon_row h px i : 0 ≤ h → sized i →
  let i' := place_icon h px i in
  x (ic_pos i') = px ∧ 0 ≤ y (ic_pos i') ∧ y (ic_pos i') + y (ic_size i') ≤ h.
Proof.
  intros Hh [_ Hy]. unfold place_icon. cbn. split; [done|].
  rewrite Z.quot_div_nonneg by lia. split; [apply Z.div_pos; lia|].
  pose proof (Z.mul_div_le (h - Z.min (y (ic_size i)) h) 2). lia.
Qed.
(** A second layout changes nothing. *)
Lemma place_icon_twice h px i : 0 ≤ h → sized i →
  place_icon h px (place_icon h px i) = place_icon h px i.
Proof.
  intros Hh [Hx Hy]. unfold place_icon. cbn. rewrite Z.min_l by lia. f_equal. f_equal.
  set (ih := Z.min (y (ic_size i)) h). assert (0 ≤ ih) by lia.
  destruct (decide (ih = 0)) as [->|]; [by rewrite !Z.mul_0_r|].
  rewrite (Z.max_l ih) by lia. by apply Z.quot_mul.
Qed.
Lemma place_icon_mapped h px i : ic_mapped (place_icon h px i) = ic_mapped i.
Proof. done. Qed.

Lemma lay_windows h px l : ic_win <$> (lay h px l).2 = ic_win <$> l.
Proof.
  revert px. induction l as [|i l IH]; intros px; [done|]. cbn [lay].
  destruct (negb _); cbn; f_equal; apply IH.
Qed.
Lemma lay_sized h px l : 0 ≤ h → Forall sized l → Forall sized (lay h px l).2.
Proof.
  intros Hh. revert px. induction l as [|i l IH]; intros px Hl; [done|].
  apply Forall_cons in Hl as [Hi Hl]. cbn [lay].
  destruct (negb _); cbn; (apply Forall_cons; split; [|by apply IH]); [done|by apply place_icon_sized].
Qed.
Lemma lay_row h px l : 0 ≤ h → Forall sized l → row h px (lay h px l).2 (lay h px l).1.
Proof.
  intros Hh. revert px. induction l as [|i l IH]; intros px Hl; [done|].
  apply Forall_cons in Hl as [Hi Hl]. cbn [lay]. destruct (ic_mapped i) eqn:E.
  - cbn [negb row fst snd]. rewrite place_icon_mapped, E.
    destruct (place_icon_row h px i Hh Hi) as (? & ? & ?). split_and!; [done..|]. by apply IH.
  - cbn [negb row fst snd]. rewrite E. by apply IH.
Qed.
Lemma lay_twice h px l : 0 ≤ h → Forall sized l → lay h px (lay h px l).2 = lay h px l.
Proof.
  intros Hh. revert px. induction l as [|i l IH]; intros px Hl; [done|].
  apply Forall_cons in Hl as [Hi Hl]. cbn [lay]. destruct (ic_mapped i) eqn:E; cbn [negb snd lay].
  - rewrite place_icon_mapped, E, place_icon_twice by done. cbn [negb]. by rewrite IH.
  - rewrite E. cbn [negb]. by rewrite IH.
Qed.

Lemma relaid_wf t : 0 ≤ bar_h_ t → Forall sized (icons_ t) → (tray_win_ t = XCB_NONE → icons_ t = []) →
  wf_tray (relaid t).
Proof.
  intros Hh Hs Hn. unfold relaid, wf_tray, in_row. destruct (tray_win_ t =? XCB_NONE) eqn:E.
  - rewrite E. split_and!; [done..|]. apply Hn. lia.
  - cbn. rewrite E. split_and!; [done|by apply lay_sized|]. eexists. split; [by apply lay_row|done].
Qed.
Lemma relaid_windows t : icon_windows (relaid t) = icon_windows t.
Proof. unfold relaid. destruct (_ =? _); [done|]. apply lay_windows. Qed.
Lemma relaid_twice t : 0 ≤ bar_h_ t → Forall sized (icons_ t) → relaid (relaid t) = relaid t.
Proof.
  intros Hh Hs. unfold relaid. destruct (tray_win_ t =? XCB_NONE) eqn:E; [by rewrite E|].
  cbn. rewrite E, lay_twice by done. by destruct t.
Qed.

(** ** What a row means *)

(** Two mapped icons of a row do not overlap: the first ends before the second starts. *)
Lemma row_right h px l e i a : Forall sized l → row h px l e → l !! i = Some a → ic_mapped a = true →
  px ≤ x (ic_pos a) ∧ x (ic_pos a) + x (ic_size a) + ICON_SPACING ≤ e ∧
  0 ≤ y (ic_pos a) ∧ y (ic_pos a) + y (ic_size a) ≤ h.
Proof.
  assert (∀ l px, Forall sized l → row h px l e → px ≤ e) as Hle.
  { clear. intros l. induction l as [|i l IH]; intros px Hl Hr; [cbn in Hr; lia|].
    apply Forall_cons in Hl as [[Hx _] Hl]. cbn in Hr. destruct (ic_mapped i); [|by apply IH].
    destruct Hr as (_ & _ & _ & Hr). apply IH in Hr; [unfold ICON_SPACING in *; lia|done]. }
  revert px i. induction l as [|b l IH]; intros px i Hl Hr Ha Hm; [done|].
  apply Forall_cons in Hl as [[Hx Hy] Hl]. cbn in Hr. destruct i as [|i].
  - injection Ha as ->. rewrite Hm in Hr. destruct Hr as (Hp & Hy0 & Hyh & Hr).
    apply Hle in Hr; [|done]. lia.
  - cbn in Ha. destruct (ic_mapped b).
    + destruct Hr as (_ & _ & _ & Hr). destruct (IH _ i Hl Hr Ha Hm) as (? & ? & ?). unfold ICON_SPACING in *. lia.
    + by apply (IH px i).
Qed.
Lemma row_apart h px l e i j a b : Forall sized l → row h px l e → l !! i = Some a → l !! j = Some b →
  (i < j)%nat → ic_mapped a = true → ic_mapped b = true →
  x (ic_pos a) + x (ic_size a) + ICON_SPACING ≤ x (ic_pos b).
Proof.
  revert px i j. induction l as [|c l IH]; intros px i j Hl Hr Ha Hb Hij Hma Hmb; [done|].
  apply Forall_cons in Hl as [[Hx Hy] Hl]. cbn in Hr. destruct j as [|j]; [lia|]. cbn in Hb.
  destruct i as [|i].
  - injection Ha as ->. rewrite Hma in Hr. destruct Hr as (Hp & _ & _ & Hr).
    destruct (row_right _ _ _ _ j b Hl Hr Hb Hmb) as (? & _). lia.
  - cbn in Ha. destruct (ic_mapped c).
    + destruct Hr as (_ & _ & _ & Hr). by apply (IH _ i j Hl Hr Ha Hb); [lia|..].
    + by apply (IH _ i j Hl Hr Ha Hb); [lia|..].
Qed.

(** ** The methods *)

Section Methods.
Context {Srv : Type} `{!XServer Srv} `{!XScreen Srv} (J : Srv → Prop) (pat backlog : Srv → nat).

(** The server answers who owns a selection. *)
Class ScreenOk : Prop := { so_selection a s : J s → srv_step J pat s (x_selection_owner a s).2 }.
Context `{!ServerOk J pat backlog} `{!ScreenOk}.

(** From any state of the server [m] returns something that satisfies [P]. *)
Definition gives {A} (m : M Srv A) (P : A → Prop) : Prop :=
  ∀ s, J s → wp m (λ a s', P a ∧ srv_step J pat s s') s.

Lemma gives_ret {A} (a : A) (P : A → Prop) : P a → gives (ret a) P.
Proof using Type. intros Ha s Hs. by split_and!. Qed.
Lemma gives_bind {A B} (m : M Srv A) (k : A → M Srv B) P Q :
  gives m P → (∀ a, P a → gives (k a) Q) → gives (bind m k) Q.
Proof using Type.
  intros Hm Hk s Hs. wp_step. eapply wp_mono; [by apply Hm|]. intros a s1 [Ha H1]. cbv beta.
  eapply wp_mono; [apply (Hk a Ha), H1|]. intros b s2 [Hb H2]. split; [done|by etrans].
Qed.
Lemma gives_mono {A} (m : M Srv A) (P Q : A → Prop) : gives m P → (∀ a, P a → Q a) → gives m Q.
Proof using Type. intros Hm Hi s Hs. eapply wp_mono; [by apply Hm|]. intros a s' [??]. split; [by apply Hi|done]. Qed.
Lemma gives_if {A} (b : bool) (m1 m2 : M Srv A) P :
  (b = true → gives m1 P) → (b = false → gives m2 P) → gives (if b then m1 else m2) P.
Proof using Type. destruct b; auto. Qed.
Lemma gives_safe {A} (m : M Srv A) : srv_safe J pat m → gives m (λ _, True).
Proof using Type. intros Hm s Hs. eapply wp_mono; [by apply Hm|]. by intros a s' ?. Qed.
Lemma gives_req q : wf_request q → gives (req q) (λ _, True).
Proof using ServerOk0. intros Hq s Hs. split; [done|]. by apply (ok_request J pat backlog). Qed.
Lemma gives_gets {A} (f : Srv → A) : gives (gets f) (λ _, True).
Proof using Type. intros s Hs. by split_and!. Qed.
Lemma gives_geometry win : gives (ask (x_get_geometry win)) (λ o, ∃ s, J s ∧ (x_get_geometry win s).1 = o).
Proof using All.
  intros s Hs. unfold ask, wp. pose proof (ok_geometry J pat backlog win s Hs) as Hg.
  destruct (x_get_geometry win s) as [o s'] eqn:E. split; [|done]. exists s. by rewrite E.
Qed.
Lemma gives_for_each {A} (l : list A) (body : A → M Srv unit) :
  (∀ a, gives (body a) (λ _, True)) → gives (for_each l body) (λ _, True).
Proof using Type.
  intros Hb. induction l as [|a l IH]; [by apply gives_ret|]. cbn [for_each].
  eapply gives_bind; [apply Hb|]. by intros [] _.
Qed.
End Methods.

(** One step of [gives m P]: queries and requests give nothing but that they end. *)
Ltac gives_step :=
  lazymatch goal with
  | |- gives _ _ (ret _) _ => apply gives_ret
  | |- gives _ _ (req _) _ => eapply gives_req; [eassumption|by cbn; auto]
  | |- gives _ _ (if _ then _ else _) _ => apply gives_if; intros ?
  | |- gives _ _ (match ?o with Some _ => _ | None => _ end) _ => destruct o eqn:?
  | |- gives _ _ (bind (req _) _) _ =>
      eapply gives_bind; [eapply gives_req; [eassumption|by cbn; auto]|intros [] _]
  | |- gives _ _ (bind (send_xembed _ _ _ _ _) _) _ => unfold send_xembed at 1
  | |- gives _ _ (bind (gets _) _) _ => eapply gives_bind; [apply gives_gets|intros ? _]
  | |- gives _ _ (bind (ask (x_get_geometry _)) _) _ =>
      eapply gives_bind; [eapply gives_geometry; eassumption|intros ? ?]
  end.

Section Trays.
Context {Srv : Type} `{!XServer Srv} `{!XScreen Srv} (J : Srv → Prop) (pat backlog : Srv → nat).
Context `{!ServerOk J pat backlog} `{!ScreenOk J pat}.
Local Abbreviation gives := (gives J pat).

Lemma gives_layout h px l : gives (layout_icons h px l) (λ r, r = lay h px l).
Proof using All.
  revert px. induction l as [|i l IH]; intros px; [by apply gives_ret|]. cbn [layout_icons lay].
  destruct (negb (ic_mapped i)).
  - eapply gives_bind; [apply IH|]. by intros r ->; apply gives_ret.
  - gives_step. eapply gives_bind; [apply IH|]. by intros r ->; apply gives_ret.
Qed.
Lemma gives_relayout t : gives (relayout t) (λ t', t' = relaid t).
Proof using All.
  unfold relayout, relaid. destruct (tray_win_ t =? XCB_NONE); [by apply gives_ret|].
  eapply gives_bind; [apply gives_layout|]. intros r ->. cbv zeta.
  eapply (gives_bind J pat _ _ (λ _, True)); [|intros [] _; by apply gives_ret].
  by repeat gives_step.
Qed.

(** [t'] is the tray [t] with the icons [ws], laid out. *)
Definition becomes (t : TrayHost) (ws : list Z) (t' : TrayHost) : Prop :=
  wf_tray t' ∧ tray_win_ t' = tray_win_ t ∧ selection_owner_ t' = selection_owner_ t ∧ icon_windows t' = ws.

Lemma becomes_self t : wf_tray t → becomes t (icon_windows t) t.
Proof using Type. by intros Ht. Qed.
Lemma becomes_relaid t t1 ws : tray_win_ t1 = tray_win_ t → selection_owner_ t1 = selection_owner_ t →
  0 ≤ bar_h_ t1 → Forall sized (icons_ t1) → (tray_win_ t1 = XCB_NONE → icons_ t1 = []) → icon_windows t1 = ws →
  becomes t ws (relaid t1).
Proof using Type.
  intros Ew Eo Hh Hs Hn Hi. split; [by apply relaid_wf|]. rewrite relaid_windows.
  unfold relaid. destruct (_ =? _); cbn; done.
Qed.
Lemma gives_relaid t t1 ws : tray_win_ t1 = tray_win_ t → selection_owner_ t1 = selection_owner_ t →
  0 ≤ bar_h_ t1 → Forall sized (icons_ t1) → (tray_win_ t1 = XCB_NONE → icons_ t1 = []) → icon_windows t1 = ws →
  gives (relayout t1) (becomes t ws).
Proof using All.
  intros. eapply gives_mono; [by apply gives_relayout|]. cbv beta. intros t' ->. by apply becomes_relaid.
Qed.

Lemma is_icon_elem win (l : list Icon) : is_icon win l = true ↔ win ∈ ic_win <$> l.
Proof using Type.
  unfold is_icon. rewrite existsb_exists, list_elem_of_fmap. split.
  - intros (i & Hi & E). exists i. split; [lia|by apply list_elem_of_In].
  - intros (i & E & Hi). exists i. split; [by apply list_elem_of_In|lia].
Qed.
Lemma not_icon win (l : list Icon) : is_icon win l = false ↔ win ∉ ic_win <$> l.
Proof using Type. rewrite <- is_icon_elem. by destruct (is_icon win l). Qed.

Lemma wf_no_window t : wf_tray t → tray_win_ t = XCB_NONE → icons_ t = [].
Proof using Type. intros (_ & _ & Hr) E. unfold in_row in Hr. by rewrite E in Hr. Qed.

(** A window that the server always answers is small. *)
Definition small (win : Z) : Prop :=
  ∀ s g, J s → (x_get_geometry win s).1 = Some g → g_width g < 256 ∧ g_height g < 256.
(** An icon that docks is new, comes last, and may be refused unless it is small. *)
Lemma gives_add_icon win t : wf_tray t →
  gives (add_icon win t) (λ t', (becomes t (icon_windows t) t' ∧
      ((win ∈ icon_windows t) ∨ tray_win_ t = XCB_NONE ∨ ¬ small win)) ∨
    ((win ∉ icon_windows t) ∧ becomes t (icon_windows t ++ [win]) t')).
Proof using All.
  intros Ht. pose proof (becomes_self t Ht) as Hself.
  unfold add_icon. destruct (is_icon win (icons_ t) || (tray_win_ t =? XCB_NONE)) eqn:E.
  { apply gives_ret. left. split; [done|]. apply orb_true_iff in E as [E|E]; [left; by apply is_icon_elem|right; left; lia]. }
  apply orb_false_iff in E as [Ei Ew]. gives_step. cbv zeta. gives_step.
  { apply gives_ret. left. split; [done|]. do 2 right. intros Hsm. destruct a as [g|]; [|done].
    destruct H as (s & Hs & Eg). specialize (Hsm s g Hs Eg). lia. }
  do 3 gives_step. eapply gives_bind; [apply gives_safe, (srv_property_32 J pat backlog)|intros info _].
  eapply (gives_bind J pat _ _ (λ _, True)).
  { repeat gives_step; [|done]. eapply gives_bind; [apply gives_safe, (srv_u32 J pat backlog)|intros vals _].
    by apply gives_ret. }
  intros mapped _. do 3 gives_step.
  eapply (gives_bind J pat _ _ (λ _, True)); [by repeat gives_step|intros [] _].
  destruct Ht as (Hh & Hs & Hr). eapply gives_mono.
  - apply (gives_relaid t); try done; cbn; [|lia].
    apply Forall_app. split; [done|]. apply Forall_cons. split; [|done]. unfold sized.
    destruct a0 as [g|]; cbn; [|lia]. destruct (1 <? g_width g) eqn:?, (1 <? g_height g) eqn:?; cbn; lia.
  - cbv beta. intros t' Hb. right. split; [by apply not_icon|].
    unfold icon_windows in Hb at 1. cbn in Hb. by rewrite fmap_app in Hb.
Qed.

Lemma erase_icon_perm win l : win ∈ ic_win <$> l → ic_win <$> l ≡ₚ win :: (ic_win <$> erase_icon win l).
Proof using Type.
  induction l as [|i l IH]; [by intros ?%elem_of_nil|]. rewrite fmap_cons. cbn [erase_icon].
  destruct (ic_win i =? win) eqn:E; [by apply Z.eqb_eq in E as ->|].
  intros [->|Hi]%elem_of_cons; [lia|]. rewrite fmap_cons, (IH Hi) at 1. by rewrite Permutation_swap.
Qed.
Lemma erase_icon_sized win l : Forall sized l → Forall sized (erase_icon win l).
Proof using Type.
  induction l as [|i l IH]; [done|]. intros [Hi Hl]%Forall_cons. cbn [erase_icon].
  destruct (_ =? _); [done|]. apply Forall_cons. by auto.
Qed.
Lemma gives_remove_icon win t : wf_tray t → win ∈ icon_windows t →
  gives (remove_icon win t) (λ t', ∃ ws, becomes t ws t' ∧ icon_windows t ≡ₚ win :: ws).
Proof using All.
  intros Ht Hi. unfold remove_icon. rewrite (proj2 (is_icon_elem win (icons_ t)) Hi). cbn [negb].
  gives_step. pose proof (wf_no_window t Ht) as Hn. destruct Ht as (Hh & Hs & Hr). eapply gives_mono.
  - eapply (gives_relaid t); try done; cbn; [by apply erase_icon_sized|by intros ->%Hn].
  - cbv beta. intros t' Hb. eexists. split; [exact Hb|]. by apply erase_icon_perm.
Qed.

(** A tray that has taken some icons, each new. *)
Definition takes (t t' : TrayHost) : Prop :=
  ∃ new, becomes t (icon_windows t ++ new) t' ∧ NoDup new ∧ (∀ w, w ∈ new → w ∉ icon_windows t).
Lemma takes_self t : wf_tray t → takes t t.
Proof using Type.
  intros Ht. exists []. rewrite app_nil_r. split_and!; [by apply becomes_self|constructor|].
  by intros w ?%elem_of_nil.
Qed.
Lemma takes_trans t1 t2 t3 : takes t1 t2 → takes t2 t3 → takes t1 t3.
Proof using Type.
  intros (n1 & (W1 & E1 & O1 & I1) & N1 & D1) (n2 & (W2 & E2 & O2 & I2) & N2 & D2).
  exists (n1 ++ n2). rewrite I1 in D2, I2. split; [|split].
  - unfold becomes. rewrite app_assoc. split_and!; [done|congruence..].
  - apply NoDup_app. split_and!; [done| |done]. intros w H1 H2. apply (D2 w H2), elem_of_app. by right.
  - intros w [H|H]%elem_of_app; [by apply D1|].
    intros Hw. apply (D2 w H), elem_of_app. by left.
Qed.
Lemma gives_add win t : wf_tray t → gives (add_icon win t) (takes t).
Proof using All.
  intros Ht. eapply gives_mono; [by apply gives_add_icon|]. cbv beta. intros t' [[Hb _]|[Hn Hb]].
  - exists []. rewrite app_nil_r. split_and!; [done|constructor|]. by intros w ?%elem_of_nil.
  - exists [win]. split_and!; [done|by apply NoDup_singleton|]. by intros w ->%list_elem_of_singleton.
Qed.
Lemma gives_adopt_children l t : wf_tray t → gives (adopt_children l t) (takes t).
Proof using All.
  revert t. induction l as [|w l IH]; intros t Ht; [by apply gives_ret, takes_self|]. cbn [adopt_children].
  gives_step; [by apply IH|]. eapply gives_bind; [apply gives_safe, (srv_property_32 J pat backlog)|intros info _].
  eapply (gives_bind J pat _ _ (takes t)).
  { repeat gives_step; [by apply takes_self|by apply gives_add]. }
  intros t1 H1. eapply gives_mono; [apply IH; by destruct H1 as (? & (? & _) & _)|]. cbv beta.
  intros t2 H2. by eapply takes_trans.
Qed.
Lemma gives_adopt_orphans t : wf_tray t → gives (adopt_orphaned_icons t) (takes t).
Proof using All.
  intros Ht. unfold adopt_orphaned_icons. gives_step; [by apply gives_ret, takes_self|].
  eapply gives_bind; [apply gives_safe, srv_safe_ask; by apply (ok_children J pat backlog)|intros l _].
  by apply gives_adopt_children.
Qed.

(** ** Events *)

Definition same_icons (t t' : TrayHost) : Prop := becomes t (icon_windows t) t'.
Lemma set_icon_windows i f t : (∀ ic, ic_win (f ic) = ic_win ic) → icon_windows (set_icon i f t) = icon_windows t.
Proof using Type.
  intros Hf. unfold icon_windows, set_icon. cbn. apply list_eq. intros j.
  rewrite !list_lookup_fmap. destruct (decide (j = i)) as [->|Hne].
  - rewrite list_lookup_alter_eq. destruct (icons_ t !! i); cbn; by rewrite ?Hf.
  - by rewrite list_lookup_alter_ne.
Qed.
Lemma gives_set_icon i f t : wf_tray t → (∀ ic, ic_win (f ic) = ic_win ic) → (∀ ic, sized ic → sized (f ic)) →
  gives (relayout (set_icon i f t)) (same_icons t).
Proof using All.
  intros Ht Hw Hf. pose proof (wf_no_window t Ht) as Hn. destruct Ht as (Hh & Hs & Hr).
  apply gives_relaid; try done; cbn.
  - apply Forall_lookup. intros j ic Hj. destruct (decide (j = i)) as [->|Hne].
    + rewrite list_lookup_alter_eq in Hj. destruct (icons_ t !! i) as [ic0|] eqn:E; [|done].
      injection Hj as <-. apply Hf. by eapply Forall_lookup in Hs.
    + rewrite list_lookup_alter_ne in Hj by done. by eapply Forall_lookup in Hs.
  - by intros ->%Hn.
  - by apply set_icon_windows.
Qed.

Lemma find_icon_Some win l i ic : find_icon win l = Some (i, ic) → win ∈ ic_win <$> l.
Proof using Type.
  unfold find_icon. intros (Hl & Hw & _)%list_find_Some. apply list_elem_of_fmap. exists ic. split; [done|].
  by eapply list_elem_of_lookup_2.
Qed.
Lemma find_icon_None win l : find_icon win l = None ↔ win ∉ ic_win <$> l.
Proof using Type.
  unfold find_icon. rewrite list_find_None, Forall_forall, list_elem_of_fmap. split.
  - intros H (ic & -> & Hi). by apply (H ic Hi).
  - intros H ic Hi Hw. apply H. by exists ic.
Qed.

Lemma gives_mapped win : gives (xembed_info_mapped win) (λ _, True).
Proof using All.
  eapply gives_bind; [apply gives_safe, (srv_u32 J pat backlog)|intros vals _]. by apply gives_ret.
Qed.
(** What an event handler leaves: [handled] tells whether the window is an icon. *)
Lemma gives_unmap win t : wf_tray t →
  gives (handle_unmap_notify win t) (λ r, r.1 = is_icon win (icons_ t) ∧ same_icons t r.2).
Proof using All.
  intros Ht. unfold handle_unmap_notify. destruct (find_icon win (icons_ t)) as [[i ic]|] eqn:E.
  - eapply gives_bind; [apply gives_mapped|intros v _].
    eapply (gives_bind J pat _ _ (λ _, True)); [by repeat gives_step|intros [] _].
    eapply gives_bind; [by apply gives_set_icon|]. intros t' Ht'. apply gives_ret. split; [|done].
    symmetry. by apply is_icon_elem, find_icon_Some with i ic.
  - apply gives_ret. split; [symmetry; by apply not_icon, find_icon_None|by apply becomes_self].
Qed.
Lemma gives_configure win t : wf_tray t →
  gives (handle_configure_notify win t) (λ r, r.1 = is_icon win (icons_ t) ∧ same_icons t r.2).
Proof using All.
  intros Ht. unfold handle_configure_notify. destruct (find_icon win (icons_ t)) as [[i ic]|] eqn:E.
  - assert (true = is_icon win (icons_ t)) as Hi by (symmetry; by apply is_icon_elem, find_icon_Some with i ic).
    pose proof (becomes_self t Ht) as Hself.
    gives_step. gives_step; [|by apply gives_ret]. cbv zeta. gives_step; [by apply gives_ret|].
    eapply gives_bind; [|intros t' Ht'; by apply gives_ret].
    apply gives_set_icon; [done|done|]. intros ic' _. split; cbn; lia.
  - apply gives_ret. split; [symmetry; by apply not_icon, find_icon_None|by apply becomes_self].
Qed.
Lemma gives_property win a t : wf_tray t →
  gives (handle_property_notify win a t)
    (λ r, r.1 = (a =? XEMBED_INFO_) && is_icon win (icons_ t) ∧ same_icons t r.2).
Proof using All.
  intros Ht. unfold handle_property_notify. pose proof (becomes_self t Ht) as Hself.
  destruct (a =? XEMBED_INFO_); cbn [negb andb]; [|by apply gives_ret].
  destruct (find_icon win (icons_ t)) as [[i ic]|] eqn:E.
  - assert (true = is_icon win (icons_ t)) as Hi by (symmetry; by apply is_icon_elem, find_icon_Some with i ic).
    eapply gives_bind; [apply gives_mapped|intros v _].
    repeat gives_step; [| |done];
      (eapply gives_bind; [by apply gives_set_icon|]; intros t' Ht'; by apply gives_ret).
  - apply gives_ret. split; [symmetry; by apply not_icon, find_icon_None|done].
Qed.
Lemma gives_destroy_notify win t : wf_tray t →
  gives (handle_destroy_notify win t) (λ r, r.1 = is_icon win (icons_ t) ∧
    ∃ ws, becomes t ws r.2 ∧ icon_windows t ≡ₚ (if r.1 then win :: ws else ws)).
Proof using All.
  intros Ht. unfold handle_destroy_notify. destruct (is_icon win (icons_ t)) eqn:E; cbn [negb].
  - eapply gives_bind; [apply gives_remove_icon; [done|by apply is_icon_elem]|].
    intros t' (ws & Hb & Hp). apply gives_ret. split; [done|]. by exists ws.
  - apply gives_ret. split; [done|]. exists (icon_windows t). by split; [apply becomes_self|].
Qed.
(** The icon a message docks, or none. *)
Definition docks (win : Z) (t t' : TrayHost) : Prop :=
  same_icons t t' ∨ ((win ∉ icon_windows t) ∧ becomes t (icon_windows t ++ [win]) t').
Lemma gives_client_message window type data t : wf_tray t →
  gives (handle_client_message window type data t)
    (λ r, same_icons t r.2 ∨ (word data 1 = 0 ∧ docks (word data 2) t r.2)).
Proof using All.
  intros Ht. unfold handle_client_message. pose proof (becomes_self t Ht) as Hself.
  gives_step; [apply gives_ret; by left|]. gives_step; [apply gives_ret; by left|].
  gives_step; [apply gives_ret; by left|]. gives_step; [apply gives_ret; by left|].
  eapply gives_bind; [by apply gives_add_icon|]. intros t' Ht'. apply gives_ret. right. split; [lia|].
  destruct Ht' as [[Hs _]|Hd]; [by left|by right].
Qed.
(** A window that the server always answers is an XEMBED client. *)
Definition embeddable (win : Z) : Prop := XEMBED_INFO_ ≠ XCB_NONE ∧
  ∀ s, J s → ∃ p, (x_get_property win XEMBED_INFO_ XCB_ATOM_ANY 2 s).1 = Some p ∧ is_32 p 2 = true.
Lemma gives_has_info win : gives (has_xembed_info win) (λ b, embeddable win → b = true).
Proof using All.
  intros s Hs. unfold has_xembed_info, has_property_32. destruct (XEMBED_INFO_ =? XCB_NONE) eqn:E.
  { wp_step. split; [|by split]. intros [? _]. lia. }
  wp_step. unfold ask, wp at 1. pose proof (ok_property J pat backlog win XEMBED_INFO_ XCB_ATOM_ANY 2 s Hs) as Hp.
  destruct (x_get_property win XEMBED_INFO_ XCB_ATOM_ANY 2 s) as [o s'] eqn:Eq. wp_step. split; [|exact Hp].
  intros [_ Hd]. destruct (Hd s Hs) as (p & Ep & Hi). rewrite Eq in Ep. cbn in Ep. by rewrite Ep.
Qed.
Lemma gives_adopt win t : wf_tray t →
  gives (adopt_icon win t) (λ t', docks win t t' ∧
    (selection_owner_ t = true → tray_win_ t ≠ XCB_NONE → (win ∉ icon_windows t) → embeddable win → small win →
     becomes t (icon_windows t ++ [win]) t')).
Proof using All.
  intros Ht. pose proof (becomes_self t Ht) as Hself. unfold adopt_icon. gives_step.
  { apply gives_ret. split; [by left|]. intros Ho Hw. rewrite Ho in H. cbn in H. lia. }
  gives_step. { apply gives_ret. split; [by left|]. intros _ _ Hn. by apply is_icon_elem in H0. }
  eapply gives_bind; [apply gives_has_info|intros info Hinfo]. gives_step.
  { apply gives_ret. split; [by left|]. intros _ _ _ He. by rewrite (Hinfo He) in H1. }
  eapply gives_mono; [by apply gives_add_icon|]. cbv beta. intros t' [[Hs Hwhy]|Hd].
  - split; [by left|]. intros _ Hw Hn _ Hsm. by destruct Hwhy as [?|[?|?]].
  - split; [by right|]. by destruct Hd.
Qed.

(** ** Between two trays, and the window *)

(** An icon that is transferred leaves its tray and comes last in the other. *)
Lemma gives_transfer t dst win : wf_tray t → wf_tray dst →
  gives (transfer_icon_to t dst win) (λ r,
    if r.1.1 then tray_win_ dst ≠ XCB_NONE ∧
      becomes dst (icon_windows dst ++ [win]) r.2 ∧
      ∃ ws, becomes t ws r.1.2 ∧ icon_windows t ≡ₚ win :: ws
    else ((win ∉ icon_windows t) ∨ tray_win_ dst = XCB_NONE) ∧ r.1.2 = t ∧ r.2 = dst).
Proof using All.
  intros Ht Hd. unfold transfer_icon_to. destruct (find_icon win (icons_ t)) as [[i ic]|] eqn:E.
  2: { apply gives_ret. cbn. split_and!; [left; by apply find_icon_None|done..]. }
  destruct (tray_win_ dst =? XCB_NONE) eqn:Ew; [apply gives_ret; cbn; split_and!; [right; lia|done..]|].
  cbv zeta. do 4 gives_step. eapply (gives_bind J pat _ _ (λ _, True)); [by repeat gives_step|intros [] _].
  pose proof (wf_no_window t Ht) as Hn. destruct Ht as (Hh & Hs & Hr). destruct Hd as (Hdh & Hds & Hdr).
  assert (icons_ t !! i = Some ic ∧ ic_win ic = win) as [Hi Hw].
  { unfold find_icon in E. apply list_find_Some in E as (? & ? & _). done. }
  eapply gives_bind; [eapply (gives_relaid t); try done; cbn; [by apply erase_icon_sized|by intros ->%Hn]|].
  intros t' Ht'. eapply gives_bind; [eapply (gives_relaid dst); try done; cbn; [|lia]|].
  { apply Forall_app. split; [done|]. apply Forall_cons. split; [by eapply Forall_lookup in Hs|done]. }
  intros dst' Hd'. apply gives_ret. cbn. split_and!; [lia| |].
  - unfold icon_windows in Hd' at 1. cbn in Hd'. rewrite fmap_app in Hd'. cbn in Hd'. by rewrite Hw in Hd'.
  - eexists. split; [exact Ht'|]. by eapply erase_icon_perm, find_icon_Some.
Qed.

Lemma gives_reposition right top t : wf_tray t → gives (reposition right top t) (same_icons t).
Proof using All.
  intros Ht. unfold reposition, move_tray. do 2 gives_step; [by apply gives_ret, becomes_self|]. cbv zeta.
  gives_step. by apply gives_ret.
Qed.
Lemma gives_raise t : gives (raise t) (λ _, True).
Proof using All. unfold raise. by repeat gives_step. Qed.

(** A new tray owns the selection only if it was asked to, and without it it has no icons. *)
Lemma gives_create bar bx bt bh pixel own : 0 ≤ bh →
  gives (create_tray_host bar bx bt bh pixel own) (λ t, wf_tray t ∧ NoDup (icon_windows t) ∧
    (selection_owner_ t = true → own = true) ∧ (own = false → icons_ t = [])).
Proof using All.
  intros Hh. unfold create_tray_host, try_acquire_selection, broadcast_manager.
  set (Q t := wf_tray t ∧ NoDup (icon_windows t) ∧ (selection_owner_ t = true → own = true) ∧ (own = false → icons_ t = [])).
  assert (∀ t, bar_h_ t = bh → icons_ t = [] → tray_w_ t = 0 → (selection_owner_ t = true → own = true) → Q t) as Hempty.
  { intros t Eh Ei Ew Ho. unfold Q, wf_tray, in_row, icon_windows. rewrite Eh, Ei, Ew.
    split_and!; [done|done| |constructor|done|done]. destruct (_ =? _); [done|]. by exists ICON_SPACING. }
  gives_step. cbv zeta. gives_step; [by apply gives_ret, Hempty|].
  eapply gives_bind; [apply gives_safe, srv_safe_ask; by apply (ok_generate J pat backlog)|intros win _].
  do 2 gives_step. eapply (gives_bind J pat _ _ (λ o, o = true → own = true)).
  { destruct own; [|by apply gives_ret]. gives_step.
    eapply gives_bind; [apply gives_safe, srv_safe_ask; by apply (so_selection J pat)|intros o _]. by apply gives_ret. }
  intros owner Ho. gives_step; [gives_step; by apply gives_ret, Hempty|].
  gives_step. destruct owner; cbn [negb]; [|by apply gives_ret, Hempty].
  gives_step. eapply gives_mono; [by apply gives_adopt_orphans, Hempty|]. cbv beta.
  intros t' (new & (Hwf & _ & _ & Hi) & Hnew & _). cbn in Hi. unfold Q. rewrite Hi. split_and!; [done|done|auto|].
  by rewrite (Ho eq_refl).
Qed.

(** ** A click *)

Lemma point_in_one_icon t a b px py : wf_tray t → tray_win_ t ≠ XCB_NONE → a ∈ icons_ t → b ∈ icons_ t →
  ic_mapped a = true → ic_mapped b = true → in_icon px py a = true → in_icon px py b = true → a = b.
Proof using Type.
  intros (Hh & Hs & Hr) Ew Ha Hb Hma Hmb Hpa Hpb. unfold in_row in Hr.
  destruct (tray_win_ t =? XCB_NONE) eqn:E; [lia|]. destruct Hr as (e & Hr & _).
  apply list_elem_of_lookup in Ha as [i Hi], Hb as [j Hj]. unfold in_icon in *.
  destruct (decide (i = j)) as [->|Hne]; [congruence|].
  destruct (decide (i < j)%nat).
  - pose proof (row_apart _ _ _ _ i j a b Hs Hr Hi Hj ltac:(lia) Hma Hmb). unfold ICON_SPACING in *. lia.
  - pose proof (row_apart _ _ _ _ j i b a Hs Hr Hj Hi ltac:(lia) Hmb Hma). unfold ICON_SPACING in *. lia.
Qed.
End Trays.
