(* ===== verification/BarSetup.v ===== *)
(** * The settings of the bar module ([modules/bar/bar_module_core.cpp])

    From the table a configuration file assigns to [bar.settings] to a
    [BarSetConfig] (its type is in [RuntimeStore]), and the theme's defaults.
    A Lua value is data; what reading a field gives (lua_getfield follows
    metatables) and which reference luaL_ref makes are parameters.  The claims about loading are at the end. *)

From S2P Require Import Prelude Geometry Core ConfigValue ConfigRuntime RuntimeStore.
Local Open Scope Z_scope.
Local Open Scope string_scope.

#[export] Instance eta_BarColors : Eta BarColors := λ c,
  mkBarColors (normal_bg c) (normal_fg c) (focused_bg c) (focused_fg c) (bar_bg c) (status_fg c).
#[export] Instance eta_BarConfig : Eta BarConfig := λ c,
  mkBarConfig (bar_font c) (bar_height c) (bar_colors c) (bar_position c) (bar_left c) (bar_center c) (bar_right c).
#[export] Instance eta_BarSlot : Eta BarSlot := λ s,
  mkBarSlot (slot_kind s) (slot_widget s) (slot_interval s) (slot_has_update s) (slot_cached_text s) (slot_ticks s).
#[export] Instance eta_BarSide : Eta BarSide := λ s, mkBarSide (side_state s) (side_cfg s).
#[export] Instance eta_BarSetConfig : Eta BarSetConfig := λ c, mkBarSet (bar_default c) (per_monitor c).

(** What assigning to [bar.settings] does: a new value, an error that is logged,
    or an error of Lua itself, raised through the assignment. *)
Inductive Loaded := LoadedAs (c : BarSetConfig) | LoadFailed (err : string) | LuaRaised | Unfinished.

Section Setup.
Context (num_to_str : LuaValue → string) (index : LuaValue → string → LuaValue) (ref_value : LuaValue → Z).
Local Abbreviation to_string := (ConfigValue.to_string num_to_str).

Definition is_nil (v : LuaValue) : bool := match v with LNil => true | _ => false end.
Definition is_table (v : LuaValue) : bool := match v with LTable _ _ => true | _ => false end.
Definition is_function (v : LuaValue) : bool := match v with LFunction _ => true | _ => false end.
Definition entries (v : LuaValue) : list (LuaValue * LuaValue) := match v with LTable _ e => e | _ => [] end.
Definition raw_len (v : LuaValue) : Z := match v with LTable n _ => n | _ => 0 end.

Definition builtin_slot (k : BarSlotKind) : BarSlot := mkBarSlot k 0 1 false "" 0.
Definition parse_slot (v : LuaValue) (ctx : string) : result BarSlot :=
  if negb (is_table v) then Err (ctx ++ ": expected Widget object or builtin")
  else
    let b := index v "__builtin" in
    if negb (is_nil b) then
      if negb (is_string b) then Err (ctx ++ ".__builtin: must be a string")
      else
        let name := to_string b in
        if String.eqb name "tags" then Ok (builtin_slot SlotTags)
        else if String.eqb name "title" then Ok (builtin_slot SlotTitle)
        else if String.eqb name "tray" then Ok (builtin_slot SlotTray)
        else Err (ctx ++ ".__builtin: unknown builtin '" ++ name ++ "'")
    else if negb (is_function (index v "render")) then Err (ctx ++ ": expected Widget object with render() method")
    else
      let has_update := is_function (index v "update") in
      let interval := match index v "interval" with LInt i => to_i32 i | _ => 0 end in
      Ok (mkBarSlot SlotLua (ref_value v) (if (interval <? 0)%Z then 0 else interval) has_update "" 0).

(** Entries that are not slots are skipped. *)
Definition parse_zone (v : LuaValue) (ctx : string) : list BarSlot :=
  omap (λ i, match parse_slot (raw_geti (entries v) (i + 1)%Z) (ctx ++ "[" ++ pretty (i + 1)%Z ++ "]") with
             | Ok s => Some s
             | _ => None
             end) (range (raw_len v)).

Definition read_str (v : LuaValue) (key old : string) : string :=
  let f := index v key in if is_string f then to_string f else old.
Definition theme_colors (th : ThemeConfig) : BarColors :=
  mkBarColors (alt_bg th) (fg th) (accent th) (alt_fg th) (bg th) (fg th).
Definition read_colors (v : LuaValue) (c : BarColors) : BarColors :=
  mkBarColors (read_str v "normal_bg" (normal_bg c)) (read_str v "normal_fg" (normal_fg c))
    (read_str v "focused_bg" (focused_bg c)) (read_str v "focused_fg" (focused_fg c))
    (read_str v "bar_bg" (bar_bg c)) (read_str v "status_fg" (status_fg c)).
Definition bar_name (pos : BarPosition) : string := match pos with BarTop => "bar.top" | BarBottom => "bar.bottom" end.
Definition zone_of (v : LuaValue) (pos : BarPosition) (key : string) : result (list BarSlot) :=
  let z := index v key in
  if is_nil z then Ok []
  else if negb (is_table z) then Err (bar_name pos ++ "." ++ key ++ ": must be a table")
  else Ok (parse_zone z (bar_name pos ++ "." ++ key)).
Definition parse_bar_config_from_lua (th : ThemeConfig) (v : LuaValue) (pos : BarPosition) : result BarConfig :=
  if negb (is_table v) then Err "bar config: expected table"
  else
    let font := read_str v "font" "" in
    let font := if String.eqb font "" then Core.font th else font in
    let h := index v "height" in
    ensure (is_nil h || is_integer h) "bar.height: must be an integer" ~;;
    let height := match h with LInt i => to_i32 i | _ => 0 end in
    let c := index v "colors" in
    ensure (is_nil c || is_table c) "bar.colors: must be a table" ~;;
    let colors := if is_table c then read_colors c (theme_colors th) else theme_colors th in
    left <~ zone_of v pos "left" ;;
    center <~ zone_of v pos "center" ;;
    right <~ zone_of v pos "right" ;;
    Ok (mkBarConfig font height colors pos left center right).

(** Absent: no bar; an empty table: the default's; else its own. *)
Definition parse_bar_side (th : ThemeConfig) (v : LuaValue) (key : string) (pos : BarPosition) (ctx : string)
    : result BarSide :=
  let s := index v key in
  if is_nil s then Ok (mkBarSide SideRemove default_bar)
  else if negb (is_table s) then Err (ctx ++ "." ++ key ++ ": must be a table")
  else if (raw_len s =? 0)%Z && bool_decide (entries s = []) then Ok (mkBarSide SideInherit default_bar)
  else cfg <~ parse_bar_config_from_lua th s pos ;; Ok (mkBarSide SideCustom cfg).
Definition parse_monitor_bar_config (th : ThemeConfig) (v : LuaValue) (ctx : string) : result MonitorBarConfig :=
  top <~ parse_bar_side th v "top" BarTop ctx ;;
  bottom <~ parse_bar_side th v "bottom" BarBottom ctx ;;
  Ok (mkMonitorBar top bottom).

Definition is_per_monitor_format (v : LuaValue) : bool :=
  negb (is_nil (index v "default")) ||
  existsb (λ e, is_string e.1 && negb (String.eqb (to_string e.1) "top") && negb (String.eqb (to_string e.1) "bottom"))
    (entries v).

(** lua_next after the string [key]: the position that follows it; an error if the
    table has no such key. *)
Definition after_key (l : list (LuaValue * LuaValue)) (key : string) : option nat :=
  S <$> index_where (λ e, match e.1 with LStr k => String.eqb k key | _ => false end) l.
(** The loop.  A key that is a number is made a string where it lies, and lua_next
    then continues after the string. *)
Definition add_monitor (th : ThemeConfig) (key : string) (v : LuaValue) (cfg : BarSetConfig) : BarSetConfig :=
  if negb (is_table v) then cfg
  else match parse_monitor_bar_config th v ("bar.settings." ++ key) with
       | Ok m => cfg <| per_monitor ::= <[key := m]> |>
       | _ => cfg
       end.
Fixpoint load_monitors (fuel : nat) (th : ThemeConfig) (l : list (LuaValue * LuaValue)) (i : nat) (cfg : BarSetConfig)
    : Loaded :=
  match fuel with
  | O => Unfinished
  | S fuel =>
      match l !! i with
      | None => LoadedAs cfg
      | Some (k, v) =>
          if negb (is_string k) then load_monitors fuel th l (S i) cfg
          else
            let key := to_string k in
            let cfg := if String.eqb key "default" then cfg else add_monitor th key v cfg in
            match after_key l key with
            | None => LuaRaised
            | Some j => load_monitors fuel th l j cfg
            end
      end
  end.
Definition load_bar_set_config (fuel : nat) (th : ThemeConfig) (v : LuaValue) : Loaded :=
  if negb (is_table v) then LoadFailed "bar.settings: expected table"
  else
    let cfg := mkBarSet (mkMonitorBar no_bar no_bar) ∅ in
    if is_per_monitor_format v then
      let d := index v "default" in
      if is_nil d then load_monitors fuel th (entries v) 0 cfg
      else if negb (is_table d) then LoadFailed "bar.settings.default: must be a table"
      else match parse_monitor_bar_config th d "bar.settings.default" with
           | Ok m => load_monitors fuel th (entries v) 0 (cfg <| bar_default := m |>)
           | Err e => LoadFailed e
           | Undefined => Unfinished
           end
    else match parse_monitor_bar_config th v "bar.settings" with
         | Ok m => LoadedAs (cfg <| bar_default := m |>)
         | Err e => LoadFailed e
         | Undefined => Unfinished
         end.
End Setup.

(** ** The theme's defaults *)

Definition or_else (s d : string) : string := if String.eqb s "" then d else s.
Definition apply_theme_to_cfg (th : ThemeConfig) (cfg : BarConfig) : BarConfig :=
  let c := bar_colors cfg in
  cfg <| bar_font := or_else (bar_font cfg) (Core.font th) |>
      <| bar_colors := mkBarColors (or_else (normal_bg c) (alt_bg th)) (or_else (normal_fg c) (fg th))
           (or_else (focused_bg c) (accent th)) (or_else (focused_fg c) (alt_fg th))
           (or_else (bar_bg c) (bg th)) (or_else (status_fg c) (fg th)) |>.
Definition apply_theme_to_side (th : ThemeConfig) (s : BarSide) : BarSide :=
  match side_state s with SideCustom => s <| side_cfg ::= apply_theme_to_cfg th |> | _ => s end.
Definition apply_theme_to_monitor_cfg (th : ThemeConfig) (m : MonitorBarConfig) : MonitorBarConfig :=
  mkMonitorBar (apply_theme_to_side th (bar_top m)) (apply_theme_to_side th (bar_bottom m)).
Definition apply_theme (th : ThemeConfig) (b : BarSetConfig) : BarSetConfig :=
  mkBarSet (apply_theme_to_monitor_cfg th (bar_default b)) (apply_theme_to_monitor_cfg th <$> per_monitor b).

(** ** Claims about the bar settings: what the configuration file's table becomes *)

Section Load.
Context (num_to_str : LuaValue → string) (index : LuaValue → string → LuaValue) (ref_value : LuaValue → Z).
Context (th : ThemeConfig).
Local Abbreviation load_monitors := (load_monitors num_to_str index ref_value).
Local Abbreviation add_monitor := (add_monitor num_to_str index ref_value th).
Local Abbreviation parse_monitor_bar_config := (parse_monitor_bar_config num_to_str index ref_value th).
Local Abbreviation load := (load_bar_set_config num_to_str index ref_value).
Implicit Types l : list (LuaValue * LuaValue).

(** A table has a key once. *)
Definition keys_unique l : Prop := NoDup (fst <$> l).
(** The names of monitors are strings. *)
Definition keys_named l : Prop := ∀ e, e ∈ l → is_string e.1 = true → ∃ k, e.1 = LStr k.

(** The entry for a monitor. *)
Definition entry l (key : string) : option LuaValue :=
  snd <$> List.find (λ e, match e.1 with LStr k => String.eqb k key | _ => false end) l.

Lemma after_key_at l i k v : keys_unique l → l !! i = Some (LStr k, v) → after_key l k = Some (S i).
Proof using Type.
  intros Hu Hi. unfold after_key. rewrite fmap_Some. exists i. split; [|done]. apply index_where_Some. split.
  - exists (LStr k, v). split; [done|]. cbn. apply String.eqb_refl.
  - intros j [key w] Hj Hk. destruct key as [| | | |k'| | |] eqn:Ek; try done. cbn. apply String.eqb_neq. intros ->.
    assert (i = j); [|lia]. apply (NoDup_lookup (fst <$> l) i j (LStr k) Hu); by rewrite list_lookup_fmap, ?Hi, ?Hk.
Qed.

Definition monitor_step (cfg : BarSetConfig) (e : LuaValue * LuaValue) : BarSetConfig :=
  match e.1 with
  | LStr k => if String.eqb k "default" then cfg else add_monitor k e.2 cfg
  | _ => cfg
  end.
Lemma load_monitors_fold fuel l i cfg : keys_unique l → keys_named l → (length l - i < fuel)%nat →
  load_monitors fuel th l i cfg = LoadedAs (foldl monitor_step cfg (drop i l)).
Proof using Type.
  intros Hu Hn. revert i cfg. induction fuel as [|fuel IH]; intros i cfg Hf; [lia|]. cbn [BarSetup.load_monitors].
  destruct (l !! i) as [[k v]|] eqn:Hi.
  - pose proof (lookup_lt_Some _ _ _ Hi). rewrite (drop_S _ _ _ Hi). cbn [foldl].
    destruct (is_string k) eqn:Ek; cbn [negb].
    + destruct (Hn (k, v)) as [k' E]; [by eapply list_elem_of_lookup_2|done|]. cbn in E. subst k.
      cbn [ConfigValue.to_string]. rewrite (after_key_at _ i _ v) by done.
      rewrite IH by lia. done.
    + rewrite IH by lia. by destruct k.
  - apply lookup_ge_None in Hi. by rewrite drop_ge.
Qed.

(** What becomes of the entry of a monitor: a table that parses. *)
Definition monitor_entry (l : list (LuaValue * LuaValue)) (key : string) : option MonitorBarConfig :=
  v ← entry l key;
  if is_table v && negb (String.eqb key "default") then
    match parse_monitor_bar_config v ("bar.settings." ++ key) with Ok m => Some m | _ => None end
  else None.
Lemma entry_cons k v l key : entry ((k, v) :: l) key =
  match k with LStr k' => if String.eqb k' key then Some v else entry l key | _ => entry l key end.
Proof using Type. unfold entry. cbn. destruct k; try done. by destruct (String.eqb _ _). Qed.
Lemma entry_fresh k v l : keys_unique ((LStr k, v) :: l) → entry l k = None.
Proof using Type.
  intros Hu. apply NoDup_cons in Hu as [Hu _]. unfold entry. destruct (List.find _ l) as [[k' w]|] eqn:E; [|done].
  apply find_some in E as [Hin E]. cbn in E. destruct k' as [| | | |k'| | |]; try done. apply String.eqb_eq in E as ->.
  destruct Hu. apply list_elem_of_fmap. exists (LStr k, w). split; [done|]. by apply list_elem_of_In.
Qed.
Lemma fold_lookup l cfg key : keys_unique l →
  let cfg' := foldl monitor_step cfg l in
  bar_default cfg' = bar_default cfg ∧
  per_monitor cfg' !! key = match monitor_entry l key with Some m => Some m | None => per_monitor cfg !! key end.
Proof using Type.
  cbv zeta. revert cfg. induction l as [|[k v] l IH]; intros cfg Hu; [done|]. cbn [foldl].
  assert (keys_unique l) as Hu' by (by apply NoDup_cons in Hu as [_ ?]).
  destruct (IH (monitor_step cfg (k, v)) Hu') as [-> ->]. unfold monitor_entry. rewrite entry_cons.
  destruct k as [| | | |k| | |]; cbn; try done.
  destruct (String.eqb_spec k key) as [->|Hne].
  - rewrite (entry_fresh key v l Hu). cbn [mbind option_bind]. destruct (String.eqb key "default"); cbn [negb].
    + by rewrite andb_false_r.
    + rewrite andb_true_r. unfold BarSetup.add_monitor. destruct (is_table v); cbn [negb]; [|done].
      destruct (BarSetup.parse_monitor_bar_config _ _ _ _ _ _); [|done..]. cbn. split; [done|]. by rewrite lookup_insert_eq.
  - assert (∀ cfg', (cfg' = cfg ∨ ∃ m, cfg' = cfg <| per_monitor ::= <[k := m]> |>) →
      bar_default cfg' = bar_default cfg ∧ per_monitor cfg' !! key = per_monitor cfg !! key) as Hsame.
    { intros cfg' [->|[m ->]]; [done|]. cbn. split; [done|]. by apply lookup_insert_ne. }
    destruct (Hsame (if String.eqb k "default" then cfg else add_monitor k v cfg)) as [-> ->]; [|done].
    destruct (String.eqb k "default"); [by left|]. unfold BarSetup.add_monitor. destruct (negb _); [by left|].
    destruct (BarSetup.parse_monitor_bar_config _ _ _ _ _ _) as [m| |]; [right; by exists m|by left..].
Qed.

(** What the [default] of a table gives all monitors. *)
Definition default_of (d : LuaValue) : result MonitorBarConfig :=
  if is_nil d then Ok (mkMonitorBar no_bar no_bar)
  else if negb (is_table d) then Err "bar.settings.default: must be a table"
  else parse_monitor_bar_config d "bar.settings.default".

(** C24: the settings say what the table says.  A per-monitor table that has each
    key once and no number among them ([numeric_key_raises] is what happens then)
    loads in as many steps as it has entries: the default is what its [default]
    parses to, no bars when there is none, and a monitor has settings of its own
    exactly when the entry of its name is a table that parses; other entries are
    skipped.  A [default] that is no table or does not parse is an error. *)
Theorem bar_settings_load n l fuel :
  let v := LTable n l in
  is_per_monitor_format num_to_str index v = true → keys_unique l → keys_named l → (length l < fuel)%nat →
  match default_of (index v "default") with
  | Ok m => ∃ cfg, load fuel th v = LoadedAs cfg ∧ bar_default cfg = m ∧ ∀ key, per_monitor cfg !! key = monitor_entry l key
  | Err e => load fuel th v = LoadFailed e
  | Undefined => True
  end.
Proof using Type.
  cbv zeta. intros Hp Hu Hn Hf. unfold load_bar_set_config, default_of. cbn [is_table negb]. rewrite Hp.
  assert (∀ m, ∃ cfg, load_monitors fuel th l 0 (mkBarSet m ∅) = LoadedAs cfg ∧ bar_default cfg = m ∧
    ∀ key, per_monitor cfg !! key = monitor_entry l key) as Hl.
  { intros m. eexists. split; [apply load_monitors_fold; [done|done|cbn; lia]|]. cbn [entries]. rewrite drop_0.
    split; [exact (proj1 (fold_lookup l (mkBarSet m ∅) "" Hu))|]. intros key. destruct (fold_lookup l (mkBarSet m ∅) key Hu) as [_ E].
    etrans; [exact E|]. destruct (monitor_entry l key); [done|]. apply lookup_empty. }
  destruct (is_nil _); [apply Hl|]. destruct (is_table _); cbn [negb]; [|done].
  destruct (BarSetup.parse_monitor_bar_config _ _ _ _ _ _) as [m|e|]; [apply Hl|done..].
Qed.

(** The loop does not get past the first number among the keys. *)
Lemma load_monitors_raises l num v i :
  keys_unique l → (∀ j e, (j < i)%nat → l !! j = Some e → is_string e.1 = true → ∃ s, e.1 = LStr s) →
  l !! i = Some (num, v) → is_string num = true → (∀ s, num ≠ LStr s) → after_key l (num_to_str num) = None →
  ∀ fuel j cfg, (j ≤ i)%nat → (length l - j < fuel)%nat → load_monitors fuel th l j cfg = LuaRaised.
Proof using Type.
  intros Hu Hn Hi Hs Hnum Hk fuel. pose proof (lookup_lt_Some _ _ _ Hi).
  induction fuel as [|fuel IH]; intros j cfg Hj Hf; [lia|]. cbn [BarSetup.load_monitors].
  destruct (decide (j = i)) as [->|Hne].
  { rewrite Hi, Hs. cbn [negb]. replace (ConfigValue.to_string num_to_str num) with (num_to_str num); [by rewrite Hk|].
    destruct num; try done. by destruct (Hnum s). }
  destruct (lookup_lt_is_Some_2 l j) as [[key w] Hj']; [lia|]. rewrite Hj'.
  destruct (is_string key) eqn:Ek; cbn [negb]; [|apply IH; lia].
  destruct (Hn j (key, w) ltac:(lia) Hj' Ek) as [s E]. cbn in E. subst key. cbn [ConfigValue.to_string].
  rewrite (after_key_at _ j _ w) by done. apply IH; lia.
Qed.

(** C39: a number among the keys of a per-monitor table makes the assignment fail.
    Once the [default], if there is one, has been read without an error, the loop
    comes to the first number, lua_next is called with it turned into a string where
    it lay on the stack, and raises an error.  The table must not have that string as
    a key too. *)
Theorem numeric_key_raises n l num v fuel i :
  keys_unique l → (∀ j e, (j < i)%nat → l !! j = Some e → is_string e.1 = true → ∃ s, e.1 = LStr s) →
  l !! i = Some (num, v) → is_string num = true → (∀ s, num ≠ LStr s) →
  after_key l (num_to_str num) = None → (length l < fuel)%nat →
  is_per_monitor_format num_to_str index (LTable n l) = true →
  load fuel th (LTable n l) =
  match default_of (index (LTable n l) "default") with
  | Ok _ => LuaRaised
  | Err e => LoadFailed e
  | Undefined => Unfinished
  end.
Proof using Type.
  intros Hu Hn Hi Hs Hnum Hk Hf Hp. unfold default_of. pose proof (load_monitors_raises l num v i Hu Hn Hi Hs Hnum Hk) as H.
  unfold load_bar_set_config. cbn [is_table negb]. rewrite Hp. destruct (is_nil _); [apply H; cbn; lia|].
  destruct (is_table _); cbn [negb]; [|done].
  destruct (BarSetup.parse_monitor_bar_config _ _ _ _ _ _); [|done..]. apply H; cbn; lia.
Qed.
End Load.
