(* ===== verification/BarModule.v ===== *)
(** * The bar module ([modules/bar/bar_module.cpp], [bar_module_core.cpp], [widgets/bar_widgets.cpp])

    The bar windows, each with the tray it owns; what is drawn on them and what
    a click on them means; and the routing of the icons of the system tray to
    the tray of the monitor where their application is.  Trays are objects of
    [TrayHost]; the module's state and the X server are the world of the runtime. *)

From S2P Require Import Prelude TextStream Geometry Workspace WorkspaceManager Events Commands Protocol.
From S2P Require Import Core Dispatch.
From S2P Require Import ConfigValue ConfigRuntime RuntimeStore Runtime X11Server TrayHost BarSetup.
Local Open Scope Z_scope.

(** ** Data *)

Definition kBarDefaultHeight : Z := 18.

Record BarTag := mkBarTag { tag_id : Z; tag_name : string; tag_focused : bool; tag_has_windows : bool; tag_urgent : bool }.
Record BarState := mkBarState { st_tags : list BarTag; st_title : string }.
Record TagHit := mkTagHit { hit_x0 : Z; hit_x1 : Z; hit_ws : Z }.

(** A bar window: the window (its id, the address of its object, its monitor and
    rectangle), its configuration, and its tray. *)
Record BarWindow := mkBarWindow {
  bw_id : Z; bw_ptr : Z; bw_monitor : Z; bw_pos : Vec2; bw_size : Vec2;
  bw_cfg : BarConfig; bw_is_top : bool; bw_tray : option TrayHost }.
#[export] Instance eta_BarWindow : Eta BarWindow := λ b,
  mkBarWindow (bw_id b) (bw_ptr b) (bw_monitor b) (bw_pos b) (bw_size b) (bw_cfg b) (bw_is_top b) (bw_tray b).

Record BarModule := mkBarModule {
  bar_set_setting_ : BarSetConfig;
  bar_set_cfg_ : BarSetConfig;
  all_bars_ : list BarWindow;
  tag_hits : gmap Z (list TagHit);
  state_provider_set : bool }.
#[export] Instance eta_BarModule : Eta BarModule := λ m,
  mkBarModule (bar_set_setting_ m) (bar_set_cfg_ m) (all_bars_ m) (tag_hits m) (state_provider_set m).

(** The module, and the X server with everything else. *)
Record BarWorld (Srv : Type) := mkBarWorld { bar : BarModule; bsrv : Srv }.
Arguments mkBarWorld {Srv}. Arguments bar {Srv}. Arguments bsrv {Srv}.
#[export] Instance eta_BarWorld Srv : Eta (BarWorld Srv) := λ w, mkBarWorld (bar w) (bsrv w).

(** What is drawn: a rectangle, a text, and the frame. *)
Inductive PaintOp :=
| PaintRect (win : Z) (p sz : Vec2) (color : string)
| PaintText (win : Z) (p : Vec2) (font text color : string)
| PaintPresent (win : Z).

Class BarEnv (Srv : Type) := {
  (** the port of the backend's trays, and the render port: cairo may be missing *)
  has_tray_port : bool;
  black_pixel : Z;
  paint_op : PaintOp → Srv → Srv;
  has_cairo : Z → Srv → bool;
  (** the size of a text in a font (Pango) *)
  text_size : string → string → Z * Z;
  (** the methods of a Lua widget; [None] when rendering fails *)
  widget_update : Z → M (Runtime (BarWorld Srv)) unit;
  widget_render : Z → M (Runtime (BarWorld Srv)) (option string) }.

Section Bar.
Context {Srv : Type} `{!XServer Srv} `{!XScreen Srv} `{!Env (BarWorld Srv)} `{!BarEnv Srv}.
Local Abbreviation R := (Runtime (BarWorld Srv)).

Definition bget {A} (f : BarModule → A) : M R A := gets (λ r : R, f (bar (world r))).
Definition bset (f : BarModule → BarModule) : M R unit := modify (λ r : R, r <| world ::= λ w, w <| bar ::= f |> |>).
Definition on_srv {A} (m : M Srv A) : M R A :=
  zoom (λ r : R, bsrv (world r)) (λ s r, r <| world ::= λ w, w <| bsrv := s |> |>) m.
Definition put_bars (l : list BarWindow) : M R unit := bset (λ m, m <| all_bars_ := l |>).
Definition set_tray (i : nat) (t : TrayHost) : M R unit :=
  bset (λ m, m <| all_bars_ ::= alter (λ b, b <| bw_tray := Some t |>) i |>).

(** ** Which tray *)

Definition contains_icon (win : Z) (b : BarWindow) : bool :=
  match bw_tray b with Some t => is_icon win (icons_ t) | None => false end.
(** The first bar that satisfies [P], with its position and its tray. *)
Definition first_tray (P : BarWindow → bool) (l : list BarWindow) : option (nat * TrayHost) :=
  i ← index_where (λ b, bool_decide (is_Some (bw_tray b)) && P b) l;
  t ← l !! i ≫= bw_tray; Some (i, t).
Definition tray_for_monitor (mon : Z) : list BarWindow → option (nat * TrayHost) :=
  first_tray (λ b, bw_is_top b && (bw_monitor b =? mon)).
Definition owner_tray : list BarWindow → option (nat * TrayHost) :=
  first_tray (λ b, match bw_tray b with Some t => selection_owner_ t | None => false end).
Definition tray_with_icon (win : Z) : list BarWindow → option (nat * TrayHost) := first_tray (contains_icon win).

(** ** The monitor of an icon *)

(** Up to the first dot. *)
Fixpoint base_of (s : string) : string :=
  match s with
  | EmptyString => EmptyString
  | String c s => if code c =? 46 then EmptyString else String c (base_of s)
  end.
Definition class_matches (icon_class wm_class_ wm_instance_ : string) : bool :=
  let wc := lower_ascii wm_class_ in
  let wi := lower_ascii wm_instance_ in
  String.eqb wc icon_class || String.eqb wi icon_class ||
  String.eqb (base_of wc) icon_class || String.eqb wc (base_of icon_class) ||
  String.eqb (base_of wi) icon_class || String.eqb wi (base_of icon_class).

(** [ws_owner_mon]: the last monitor that lists the workspace. *)
Definition ws_owner_mon (c : core) : gmap Z Z :=
  foldl (λ acc mon, foldl (λ acc ws, <[ws := mon]> acc) acc (default [] (vget (monitor_pools (wsman c)) mon)))
    ∅ (range (vsize (monitors (wsman c)))).
(** By visibility, active workspace, focused monitor. *)
Definition window_score (c : core) (w : Window) (ws owner_mon : Z) : Z :=
  1 + (if is_visible w then 100 else 0) +
  (if (0 <=? owner_mon) && (active_ws_of_monitor (wsman c) owner_mon =? ws) then 10 else 0) +
  (if owner_mon =? focused_monitor (wsman c) then 1 else 0).
(** The best so far, monitor and score, after the window [win]; [None]: a dangling pointer. *)
Definition score_window (icon_class : string) (c : core) (best : option (Z * Z)) (win : Z) : option (Z * Z) :=
  best ← best;
  match find_window_in_all (wsman c) win with
  | None => Some best
  | Some p =>
      w ← wins (wsman c) !! p;
      if negb (class_matches icon_class (wm_class w) (wm_instance w)) then Some best
      else
        let ws := workspace_of_window (wsman c) win in
        let owner_mon := default NO_MONITOR (ws_owner_mon c !! ws) in
        let score := window_score c w ws owner_mon in
        Some (if (0 <=? owner_mon) && (best.2 <? score) then (owner_mon, score) else best)
  end.
Definition best_monitor (icon_class : string) (c : core) : option Z :=
  fst <$> foldl (score_window icon_class c) (Some (NO_MONITOR, -1)) (all_window_ids c).
Definition fallback_monitor (bars : list BarWindow) : Z :=
  match List.find bw_is_top bars with
  | Some b => if bw_monitor b <? 0 then 0 else bw_monitor b
  | None => 0
  end.
Definition monitor_for_icon (win : Z) : M R Z :=
  bars <- bget all_bars_ ;;
  found <- (match tray_with_icon win bars with
            | Some (i, t) =>
                icon_class <- on_srv (icon_wm_class win t) ;;
                b <- checked (λ _, bars !! i) ;;
                ret (icon_class, bw_monitor b)
            | None => ret (EmptyString, NO_MONITOR)
            end) ;;
  let fallback := if found.2 <? 0 then fallback_monitor bars else found.2 in
  if String.eqb found.1 EmptyString then ret fallback
  else
    best <- checked (λ r : R, best_monitor found.1 (core_ r)) ;;
    ret (if 0 <=? best then best else fallback).

(** ** Routing *)

Definition route_icon_to_monitor (win target : Z) : M R unit :=
  bars <- bget all_bars_ ;;
  match tray_with_icon win bars with
  | None => ret tt
  | Some (i, src) =>
      match tray_for_monitor target bars with
      | None => ret tt
      | Some (j, dst) =>
          if (i =? j)%nat then ret tt
          else r <- on_srv (transfer_icon_to src dst win) ;; set_tray i r.1.2 ;; set_tray j r.2
      end
  end.
(** The icons of the bars that belong elsewhere, with where. *)
Fixpoint misplaced (l : list (Z * Z)) : M R (list (Z * Z)) :=
  match l with
  | [] => ret []
  | (mon, win) :: l =>
      target <- monitor_for_icon win ;;
      rest <- misplaced l ;;
      ret (if target =? mon then rest else (win, target) :: rest)
  end.
Definition icons_of (b : BarWindow) : list (Z * Z) :=
  match bw_tray b with Some t => pair (bw_monitor b) <$> icon_windows t | None => [] end.
Definition rebalance_tray_icons : M R unit :=
  bars <- bget all_bars_ ;;
  if negb (existsb (λ b, bool_decide (is_Some (bw_tray b))) bars) then ret tt
  else
    to_route <- misplaced (flat_map icons_of bars) ;;
    for_each to_route (λ p, route_icon_to_monitor p.1 p.2).

(** ** Building the bars and the trays *)

Definition monitor_alias (mon : Z) (c : core) : string :=
  match vget (monitors (wsman c)) mon with
  | None => EmptyString
  | Some m =>
      match List.find (λ a, String.eqb (output a) (mon_name m)) (monitor_aliases (settings c)) with
      | Some a => alias a
      | None => mon_name m
      end
  end.
Definition create_bar_window (mon : Z) (p sz : Vec2) (cfg : BarConfig) (top : bool) : M R unit :=
  w <- create_render_window ;;
  match w with
  | None => ret tt
  | Some (win, ptr) =>
      bset (λ m, m <| all_bars_ ::= λ l, l ++
        [mkBarWindow win ptr mon p (mkVec2 (Z.max 1 (x sz)) (Z.max 1 (bar_height cfg))) cfg top None] |>)
  end.
Definition destroy_bar (b : BarWindow) : M R unit :=
  (match bw_tray b with Some t => on_srv (destroy_tray t) | None => ret tt end) ;;
  unregister_module_window (bw_id b) (bw_ptr b) ;;
  on_srv (req (XDestroyWindow (bw_id b))).
(** [all_bars_.clear()]. *)
Definition clear_bars : M R unit :=
  bars <- bget all_bars_ ;; for_each bars destroy_bar ;; put_bars [].
(** The height of a side's bar (0 without one), and its configuration. *)
Definition custom_side (s : BarSide) : option BarConfig :=
  match side_state s with
  | SideCustom =>
      let cfg := side_cfg s in
      Some (if bar_height cfg <=? 0 then cfg <| bar_height := kBarDefaultHeight |> else cfg)
  | _ => None
  end.
Definition has_content (cfg : BarConfig) : bool :=
  (0 <? bar_height cfg) || negb (bool_decide (length (bar_left cfg) = 0%nat)) ||
  negb (bool_decide (length (bar_center cfg) = 0%nat)) || negb (bool_decide (length (bar_right cfg) = 0%nat)).
Definition rebuild_monitor (i : Z) : M R unit :=
  al <- cget (monitor_alias i) ;;
  set_cfg <- bget bar_set_cfg_ ;;
  let mcfg := bar_resolve set_cfg al in
  m <- checked (λ r : R, vget (monitors (wsman (core_ r))) i) ;;
  let '(phy_pos, phy_size) := physical m in
  top_h <- (match custom_side (bar_top mcfg) with
            | Some cfg =>
                if has_content cfg then create_bar_window i phy_pos phy_size cfg true ;; ret (bar_height cfg) else ret 0
            | None => ret 0
            end) ;;
  bottom_h <- (match custom_side (bar_bottom mcfg) with
            | Some cfg =>
                if has_content cfg then
                  create_bar_window i (mkVec2 (x phy_pos) (y phy_pos + y phy_size - bar_height cfg)) phy_size cfg false ;;
                  ret (bar_height cfg)
                else ret 0
            | None => ret 0
            end) ;;
  dispatch_ (ReserveMonitorArea i Top top_h) ;;
  dispatch_ (ReserveMonitorArea i Bottom bottom_h).
Definition rebuild_bars : M R unit :=
  clear_bars ;;
  n <- cget (λ c, vsize (monitors (wsman c))) ;;
  for_each (range n) rebuild_monitor.

(** The owner of the selection: the top bar of the focused monitor, or the first top bar. *)
Definition owner_monitor (focused : Z) (bars : list BarWindow) : Z :=
  if existsb (λ b, bw_is_top b && (bw_monitor b =? focused)) bars && (0 <=? focused) then focused
  else match List.find bw_is_top bars with Some b => bw_monitor b | None => NO_MONITOR end.
(** [Runtime::create_tray], [X11TrayHostPort::create]. *)
Definition create_tray (b : BarWindow) (own : bool) : M R (option TrayHost) :=
  if negb has_tray_port then ret None
  else
    bg_str <- cget (λ c, bg (theme (settings c))) ;;
    let pixel := if String.eqb bg_str EmptyString then black_pixel else parse_color_hex bg_str in
    t <- on_srv (create_tray_host (bw_id b) (x (bw_pos b)) (y (bw_pos b)) (y (bw_size b)) pixel own) ;;
    ret (Some t).
Definition build_tray (owner_mon : Z) (i : nat) : M R unit :=
  b <- checked (λ r : R, all_bars_ (bar (world r)) !! i) ;;
  if negb (bw_is_top b) then ret tt
  else
    tray <- create_tray b (bw_monitor b =? owner_mon) ;;
    match tray with
    | None => ret tt
    | Some t => if tray_win_ t =? NO_WINDOW then on_srv (destroy_tray t) else set_tray i t
    end.
Definition rebuild_trays : M R unit :=
  focused <- cget (λ c, focused_monitor (wsman c)) ;;
  bars <- bget all_bars_ ;;
  for_each (seq 0 (length bars)) (build_tray (owner_monitor focused bars)).

(** ** What a bar shows *)

Definition tag_of (c : core) (mon_ws ws : Z) : option BarTag :=
  w ← vget (workspaces (wsman c)) ws;
  Some (mkBarTag ws (ws_name w) (ws =? mon_ws) (negb (bool_decide (length (windows w) = 0%nat)))
    (existsb (λ p, match wins (wsman c) !! p with Some w => urgent w | None => false end) (windows w))).
Definition state_provider (mon : Z) (c : core) : option BarState :=
  let mons := monitors (wsman c) in
  if vsize mons =? 0 then Some (mkBarState [] EmptyString)
  else
    let safe := if is_mon_valid (wsman c) mon then mon else focused_monitor (wsman c) in
    m ← vget mons safe;
    let mon_ws := mon_active_ws m in
    let tags := omap (tag_of c mon_ws) (default [] (vget (monitor_pools (wsman c)) safe)) in
    let title_ :=
      if 0 <=? mon_ws then
        match (ws ← vget (workspaces (wsman c)) mon_ws; p ← ws_focused (wins (wsman c)) ws; wins (wsman c) !! p) with
        | Some w =>
            if id w =? NO_WINDOW then EmptyString
            else match (p ← find_window_in_all (wsman c) (id w); wins (wsman c) !! p) with
                 | Some w => title w
                 | None => EmptyString
                 end
        | None => EmptyString
        end
      else EmptyString in
    Some (mkBarState tags title_).

(** A frame being drawn: the window, its font, whether cairo is there. *)
Record PaintContext := mkPaint { pc_win : Z; pc_width : Z; pc_height : Z; pc_font : string; pc_cairo : bool }.
Definition paint (op : PaintOp) : M R unit := on_srv (modify (paint_op op)).
Definition text_width (pc : PaintContext) (t : string) : Z := if pc_cairo pc then (text_size (pc_font pc) t).1 else 0.
Definition clear (pc : PaintContext) (color : string) : M R unit :=
  if pc_cairo pc then paint (PaintRect (pc_win pc) (mkVec2 0 0) (mkVec2 (pc_width pc) (pc_height pc)) color) else ret tt.
Definition draw_rect (pc : PaintContext) (p sz : Vec2) (color : string) : M R unit :=
  if pc_cairo pc then paint (PaintRect (pc_win pc) p sz color) else ret tt.
Definition text_pad : Z := 8.
Definition draw_text (pc : PaintContext) (px : Z) (t fg_ bg_ : string) : M R Z :=
  if negb (pc_cairo pc) then ret 0
  else
    let '(tw, th) := text_size (pc_font pc) t in
    let total_w := tw + text_pad * 2 in
    paint (PaintRect (pc_win pc) (mkVec2 px 0) (mkVec2 total_w (pc_height pc)) bg_) ;;
    paint (PaintText (pc_win pc) (mkVec2 (px + text_pad) (Z.quot (pc_height pc - th) 2)) (pc_font pc) t fg_) ;;
    ret total_w.

(** [TagsWidget::draw]: where each tag is, and the cursor after them. *)
Definition tag_colors (c : BarColors) (t : BarTag) : string * string :=
  if tag_urgent t && negb (tag_focused t) then (focused_bg c, focused_fg c)
  else if tag_focused t then (focused_fg c, focused_bg c)
  else (normal_fg c, bar_bg c).
Fixpoint draw_tags (pc : PaintContext) (c : BarColors) (l : list BarTag) (cursor : Z) : M R (list TagHit * Z) :=
  match l with
  | [] => ret ([], cursor)
  | t :: l =>
      let '(fg_, bg_) := tag_colors c t in
      tw <- draw_text pc cursor (tag_name t) fg_ bg_ ;;
      (if tag_has_windows t then draw_rect pc (mkVec2 (cursor + 2) 2) (mkVec2 4 4) fg_ else ret tt) ;;
      r <- draw_tags pc c l (cursor + tw) ;;
      ret (mkTagHit cursor (cursor + tw) (tag_id t) :: r.1, r.2)
  end.
Definition tags_draw (pc : PaintContext) (st : BarState) (c : BarColors) (cursor : Z) : M R (list TagHit * Z) :=
  match st_tags st with
  | [] => draw_text pc cursor "No workspaces" (normal_fg c) (bar_bg c) ;; ret ([], cursor)
  | l => draw_tags pc c l cursor
  end.
(** A text centered between two edges, if it fits: the title and a Lua widget. *)
Definition draw_center (pc : PaintContext) (c : BarColors) (t : string) (left right : Z) : M R unit :=
  if String.eqb t EmptyString then ret tt
  else
    let tw := text_width pc t + 16 in
    let cx := left + Z.quot (right - left - tw) 2 in
    let cx := Z.max left (Z.min cx (right - tw)) in
    if cx + tw <=? right then draw_text pc cx t (normal_fg c) (bar_bg c) ;; ret tt else ret tt.
Definition reserved_width (t : option TrayHost) : Z := match t with Some t => tray_w_ t | None => 0 end.

Definition render_left_slot (pc : PaintContext) (st : BarState) (c : BarColors) (tray : option TrayHost)
    (s : BarSlot) (cursor : Z) : M R (list TagHit * Z) :=
  match slot_kind s with
  | SlotTags => tags_draw pc st c cursor
  | SlotTray => ret ([], cursor + reserved_width tray)
  | SlotTitle => ret ([], cursor)
  | SlotLua =>
      if String.eqb (slot_cached_text s) EmptyString then ret ([], cursor)
      else w <- draw_text pc cursor (slot_cached_text s) (status_fg c) (bar_bg c) ;; ret ([], cursor + w)
  end.
Definition render_right_slot (pc : PaintContext) (c : BarColors) (tray : option TrayHost) (s : BarSlot) (right : Z) : M R Z :=
  match slot_kind s with
  | SlotTray => ret (right - reserved_width tray)
  | SlotTags | SlotTitle => ret right
  | SlotLua =>
      if String.eqb (slot_cached_text s) EmptyString then ret right
      else
        let sw := text_width pc (slot_cached_text s) + 16 in
        draw_text pc (right - sw) (slot_cached_text s) (status_fg c) (bar_bg c) ;; ret (right - sw)
  end.
Definition render_center_slot (pc : PaintContext) (st : BarState) (c : BarColors) (s : BarSlot) (left right : Z) : M R unit :=
  match slot_kind s with
  | SlotTitle => draw_center pc c (st_title st) left right
  | SlotTags | SlotTray => ret tt
  | SlotLua => draw_center pc c (slot_cached_text s) left right
  end.
Fixpoint render_left (pc : PaintContext) (st : BarState) (c : BarColors) (tray : option TrayHost)
    (l : list BarSlot) (cursor : Z) : M R (list TagHit * Z) :=
  match l with
  | [] => ret ([], cursor)
  | s :: l =>
      r1 <- render_left_slot pc st c tray s cursor ;;
      r2 <- render_left pc st c tray l r1.2 ;;
      ret (r1.1 ++ r2.1, r2.2)
  end.
Fixpoint render_right (pc : PaintContext) (c : BarColors) (tray : option TrayHost) (l : list BarSlot) (right : Z) : M R Z :=
  match l with
  | [] => ret right
  | s :: l => right <- render_right_slot pc c tray s right ;; render_right pc c tray l right
  end.

(** ** Widgets in Lua *)

Inductive Zone := ZLeft | ZCenter | ZRight.
Definition zones : list Zone := [ZLeft; ZCenter; ZRight].
Definition zone (z : Zone) (cfg : BarConfig) : list BarSlot :=
  match z with ZLeft => bar_left cfg | ZCenter => bar_center cfg | ZRight => bar_right cfg end.
Definition alter_zone (f : list BarSlot → list BarSlot) (z : Zone) (cfg : BarConfig) : BarConfig :=
  match z with
  | ZLeft => cfg <| bar_left ::= f |>
  | ZCenter => cfg <| bar_center ::= f |>
  | ZRight => cfg <| bar_right ::= f |>
  end.
Definition set_slot (i : nat) (z : Zone) (j : nat) (f : BarSlot → BarSlot) : M R unit :=
  bset (λ m, m <| all_bars_ ::= alter (λ b, b <| bw_cfg ::= alter_zone (alter f j) z |>) i |>).
Definition slot_at (i : nat) (z : Zone) (j : nat) : M R BarSlot :=
  checked (λ r : R, b ← all_bars_ (bar (world r)) !! i; zone z (bw_cfg b) !! j).
(** [for (b : all_bars_) { for (s : left) …; for (s : center) …; for (s : right) … }] *)
Definition each_slot (body : nat → Zone → nat → M R unit) : M R unit :=
  bars <- bget all_bars_ ;;
  for_each (seq 0 (length bars)) (λ i,
    for_each zones (λ z,
      b <- checked (λ r : R, all_bars_ (bar (world r)) !! i) ;;
      for_each (seq 0 (length (zone z (bw_cfg b)))) (body i z))).

Definition is_lua (s : BarSlot) : bool := match slot_kind s with SlotLua => true | _ => false end.
Definition update_slot (s : BarSlot) : M R unit :=
  if negb (is_lua s) || negb (slot_has_update s) then ret tt else widget_update (slot_widget s).
Definition render_slot (i : nat) (z : Zone) (j : nat) : M R unit :=
  s <- slot_at i z j ;;
  if negb (is_lua s) then ret tt
  else
    out <- widget_render (slot_widget s) ;;
    match out with
    | Some t => set_slot i z j (λ s, s <| slot_cached_text := t |>)
    | None => ret tt
    end.
Definition tick_slot (i : nat) (z : Zone) (j : nat) : M R unit :=
  s <- slot_at i z j ;;
  if negb (is_lua s) || (slot_interval s <=? 0) then ret tt
  else if slot_ticks s + 1 <? slot_interval s then set_slot i z j (λ s, s <| slot_ticks := slot_ticks s + 1 |>)
  else set_slot i z j (λ s, s <| slot_ticks := 0 |>) ;; update_slot s.
Definition redraw_slot (i : nat) (z : Zone) (j : nat) : M R unit :=
  s <- slot_at i z j ;;
  if negb (is_lua s) then ret tt
  else (if slot_interval s =? 0 then update_slot s else ret tt) ;; render_slot i z j.
Definition prime_slot (i : nat) (z : Zone) (j : nat) : M R unit :=
  s <- slot_at i z j ;; if 0 <? slot_interval s then update_slot s else ret tt.

Definition alive (s : RuntimeState) : bool := match s with Running | Starting => true | _ => false end.
Definition refresh_widgets : M R unit :=
  st <- gets state_ ;; if alive st then each_slot tick_slot else ret tt.
Definition prime_widgets : M R unit := each_slot prime_slot.

(** ** Drawing *)

Definition has_tray_slot (cfg : BarConfig) : bool :=
  existsb (λ s, match slot_kind s with SlotTray => true | _ => false end) (bar_left cfg ++ bar_right cfg ++ bar_center cfg).
(** One frame of the bar [i]. *)
Definition draw_bar (i : nat) : M R unit :=
  bars <- bget all_bars_ ;;
  b <- checked (λ _, bars !! i) ;;
  let cfg := bw_cfg b in
  let bar_tray := if has_tray_slot cfg then tray_for_monitor (bw_monitor b) bars else None in
  st <- checked (λ r : R, state_provider (bw_monitor b) (core_ r)) ;;
  cairo <- on_srv (gets (has_cairo (bw_id b))) ;;
  let pc := mkPaint (bw_id b) (x (bw_size b)) (y (bw_size b)) (bar_font cfg) cairo in
  let c := bar_colors cfg in
  clear pc (bar_bg c) ;;
  left <- render_left pc st c (snd <$> bar_tray) (bar_left cfg) 0 ;;
  right <- render_right pc c (snd <$> bar_tray) (reverse (bar_right cfg)) (pc_width pc) ;;
  for_each (bar_center cfg) (λ s, render_center_slot pc st c s left.2 right) ;;
  paint (PaintPresent (bw_id b)) ;;
  (if bool_decide (length left.1 = 0%nat) then ret tt
   else bset (λ m, m <| tag_hits ::= λ h, match h !! bw_id b with None => <[bw_id b := left.1]> h | Some _ => h end |>)) ;;
  match bar_tray with
  | None => ret tt
  | Some (j, t) =>
      t <- on_srv (reposition (x (bw_pos b) + x (bw_size b)) (y (bw_pos b)) t) ;; set_tray j t
  end.
Definition redraw : M R unit :=
  provider <- bget state_provider_set ;;
  if negb provider then ret tt
  else
    st <- gets state_ ;;
    (if alive st then each_slot redraw_slot else ret tt) ;;
    bset (λ m, m <| tag_hits := ∅ |>) ;;
    bars <- bget all_bars_ ;;
    for_each (seq 0 (length bars)) draw_bar.

(** [X11RenderWindow::raise] and [lower]. *)
Definition raise_window (win : Z) : M R unit :=
  on_srv (req (XConfigureWindow win XCB_CONFIG_WINDOW_STACK_MODE [XCB_STACK_MODE_ABOVE])).
Definition lower_window (win : Z) : M R unit :=
  on_srv (req (XConfigureWindow win XCB_CONFIG_WINDOW_STACK_MODE [XCB_STACK_MODE_BELOW])).
Definition raise_all : M R unit :=
  bars <- bget all_bars_ ;;
  for_each bars (λ b,
    let t := if bw_is_top b then tray_for_monitor (bw_monitor b) bars else None in
    covered <- cget (λ c, monitor_has_visible_covering_window c (bw_monitor b)) ;;
    (if covered then lower_window (bw_id b) else raise_window (bw_id b)) ;;
    match t with Some (_, t) => on_srv (raise t) | None => ret tt end).

(** ** Events *)

Definition tag_at (window click_x : Z) (hits : gmap Z (list TagHit)) : Z :=
  match hits !! window with
  | None => -1
  | Some l =>
      match List.find (λ h, (hit_x0 h <=? click_x) && (click_x <? hit_x1 h)) l with
      | Some h => hit_ws h
      | None => -1
      end
  end.
(** [for (b : all_bars_) if (b.tray && b.tray->f(…)) break;] *)
Fixpoint first_handler (f : TrayHost → M Srv (bool * TrayHost)) (l : list BarWindow) (i : nat) : M R unit :=
  match l with
  | [] => ret tt
  | b :: l =>
      match bw_tray b with
      | None => first_handler f l (S i)
      | Some t =>
          r <- on_srv (f t) ;;
          set_tray i r.2 ;;
          if (r.1 : bool) then ret tt else first_handler f l (S i)
      end
  end.
Definition on_trays (f : TrayHost → M Srv (bool * TrayHost)) : M R unit :=
  bars <- bget all_bars_ ;; first_handler f bars 0 ;; redraw.
(** A button goes to the first tray that takes it. *)
Fixpoint first_click (f : TrayHost → M Srv bool) (l : list BarWindow) : M R unit :=
  match l with
  | [] => ret tt
  | b :: l =>
      match bw_tray b with
      | None => first_click f l
      | Some t => taken <- on_srv (f t) ;; if (taken : bool) then ret tt else first_click f l
      end
  end.
Definition on_button (window : Z) (root_pos event_pos : Vec2) (time button state : Z) (release : bool) : M R unit :=
  bars <- bget all_bars_ ;;
  match List.find (λ b, bw_is_top b && (bw_id b =? window)) bars with
  | Some b =>
      if release then ret tt
      else
        hits <- bget tag_hits ;;
        let ws := tag_at window (x event_pos) hits in
        if 0 <=? ws then dispatch_ (SwitchWorkspace ws (Some (bw_monitor b))) ;; redraw else ret tt
  | None => first_click (handle_button_event window root_pos event_pos time button state release) bars
  end.
(** Whether the module took the message. *)
Definition on_client_message (window type : Z) (data : list Z) : M R bool :=
  bars <- bget all_bars_ ;;
  match owner_tray bars with
  | None => ret false
  | Some (i, t) =>
      if (word data 1 =? 0) && existsb (contains_icon (word data 2)) bars then ret true
      else
        r <- on_srv (handle_client_message window type data t) ;;
        set_tray i r.2 ;;
        (match r.1.2 with
         | Some icon_win => if r.1.1 && negb (icon_win =? NO_WINDOW) then redraw else ret tt
         | None => ret tt
         end) ;;
        ret r.1.1
  end.
(** An icon window came back to the root window. *)
Definition on_icon_docked (win : Z) : M R unit :=
  bars <- bget all_bars_ ;;
  (match owner_tray bars with
   | Some (i, t) =>
       if is_icon win (icons_ t) then ret tt else t <- on_srv (adopt_icon win t) ;; set_tray i t
   | None => ret tt
   end) ;;
  target <- monitor_for_icon win ;;
  route_icon_to_monitor win target ;;
  redraw.
Definition on_expose (window : Z) : M R unit :=
  bars <- bget all_bars_ ;;
  if existsb (λ b, bw_id b =? window) bars then redraw else ret tt.
Definition on_display_change : M R unit :=
  rebuild_bars ;;
  dispatch_ ReconcileNow ;;
  rebuild_trays ;;
  rebalance_tray_icons ;;
  raise_all ;;
  prime_widgets ;;
  redraw.
Definition bar_on (ev : Event) : M R unit :=
  match ev with
  | RuntimeStarted => prime_widgets ;; redraw
  | WindowMapped _ | FocusChanged _ | WorkspaceSwitched _ => redraw
  | WindowUnmapped win _ => on_trays (handle_unmap_notify win)
  | RaiseDocks => raise_all ;; redraw
  | DisplayTopologyChanged => on_display_change
  | ExposeWindow win => on_expose win
  | ButtonEv win _ root_pos event_pos time button state release => on_button win root_pos event_pos time button state release
  | DestroyNotify win => on_trays (handle_destroy_notify win)
  | ConfigureNotify win _ _ => on_trays (handle_configure_notify win)
  | PropertyNotify win a => on_trays (handle_property_notify win a)
  | WindowAssignedToWorkspace _ _ => rebalance_tray_icons ;; redraw
  | CustomEvent msg =>
      match unpack IconDocked msg with
      | Some docked => on_icon_docked (icon docked)
      | None => match unpack LayoutChanged msg with Some _ => redraw | None => ret tt end
      end
  | _ => ret tt
  end.

(** ** Life *)

Definition bar_on_init : M R unit := bset (λ m, m <| state_provider_set := true |>).
Definition absorb_config : M R unit :=
  th <- cget (λ c, theme (settings c)) ;;
  bset (λ m, m <| bar_set_cfg_ := apply_theme th (bar_set_setting_ m) |>).
Definition bar_on_reload : M R unit := absorb_config.
(** Without the pipe and the timer that wake [redraw] and [refresh_widgets]. *)
Definition bar_on_start : M R unit :=
  absorb_config ;;
  rebuild_bars ;;
  dispatch_ ReconcileNow ;;
  rebuild_trays ;;
  prime_widgets ;;
  redraw.
Definition stop_runtime : M R unit :=
  bset (λ m, m <| tag_hits := ∅ |>) ;; clear_bars.
(** An assignment to [bar.settings]. *)
Definition store_settings (l : Loaded) : M R unit :=
  match l with LoadedAs c => bset (λ m, m <| bar_set_setting_ := c |>) | _ => ret tt end.
End Bar.
