(* ===== verification/BarSafe.v ===== *)
(** * Safety of the bar module

    [moves P T m]: with bar windows whose skeletons satisfy [P] and trays that are
    laid out, [m] completes, keeps the core's invariant, the bars and the layout of
    the trays, and relates the trays before and after by the preorder [T].  The judgement first, then the handlers. *)

From S2P Require Import Prelude EventQueue TextStream Geometry Workspace WorkspaceManager WindowIndex.
From S2P Require Import ManagerInv ManagerOps Events Protocol Commands Core ConfigValue ConfigRuntime.
From S2P Require Import RuntimeStore Dispatch Runtime X11Server X11Backend CoreSafe CoreRun LifecycleSafe.
From S2P Require Import BackendSafe X11Safe TrayHost TrayProps BarSetup BarModule.
Local Open Scope Z_scope.

(** ** Trays and their icons *)

(** The same window with as many slots; its tray and their texts may differ. *)
Definition same_skeleton (a b : BarWindow) : Prop :=
  bw_id a = bw_id b ∧ bw_ptr a = bw_ptr b ∧ bw_monitor a = bw_monitor b ∧ bw_pos a = bw_pos b ∧ bw_size a = bw_size b ∧
  bw_is_top a = bw_is_top b ∧ ∀ z, length (zone z (bw_cfg a)) = length (zone z (bw_cfg b)).
#[export] Instance same_skeleton_equiv : Equivalence same_skeleton.
Proof.
  split.
  - intros a. by split_and!.
  - intros a b (? & ? & ? & ? & ? & ? & ?). by split_and!.
  - intros a b c (? & ? & ? & ? & ? & ? & Hz) (? & ? & ? & ? & ? & ? & Hz'). split_and!; [congruence..|].
    intros z. by rewrite Hz.
Qed.
Definition alike : relation (list BarWindow) := Forall2 same_skeleton.
#[export] Instance alike_equiv : Equivalence alike.
Proof. unfold alike. split; apply _. Qed.

(** What a condition on the bars may speak of. *)
Class stable (P : list BarWindow → Prop) : Prop := stable_alike l l' : alike l l' → P l → P l'.

Definition tray_ok (o : option TrayHost) : Prop :=
  match o with Some t => wf_tray t ∧ tray_win_ t ≠ XCB_NONE | None => True end.
Definition tray_icons (o : option TrayHost) : list Z := match o with Some t => icon_windows t | None => [] end.
Definition all_icons (l : list (option TrayHost)) : list Z := flat_map tray_icons l.

(** What the routing reads of a tray. *)
Definition view (o : option TrayHost) : option (list Z * Z * bool) :=
  (λ t, (icon_windows t, tray_win_ t, selection_owner_ t)) <$> o.
Definition same_views (l l' : list (option TrayHost)) : Prop := view <$> l' = view <$> l.
Definition same_all (l l' : list (option TrayHost)) : Prop := all_icons l' ≡ₚ all_icons l.
Definition one_place (l l' : list (option TrayHost)) : Prop := NoDup (all_icons l) → NoDup (all_icons l').
#[export] Instance same_views_preorder : PreOrder same_views.
Proof. unfold same_views. split; [by intros l|]. intros l1 l2 l3 H1 H2. congruence. Qed.
#[export] Instance same_all_preorder : PreOrder same_all.
Proof. unfold same_all. split; [by intros l|]. intros l1 l2 l3 H1 H2. by rewrite H2. Qed.
#[export] Instance one_place_preorder : PreOrder one_place.
Proof. unfold one_place. split; [by intros l|]. intros l1 l2 l3 H1 H2 H. auto. Qed.

Lemma tray_icons_view o : tray_icons o = match view o with Some v => v.1.1 | None => [] end.
Proof. by destruct o. Qed.
Lemma same_views_all l l' : same_views l l' → same_all l l'.
Proof.
  intros H. assert (∀ l, all_icons l = flat_map (λ v : option (list Z * Z * bool),
    match v with Some v => v.1.1 | None => [] end) (view <$> l)) as E.
  { clear. intros l. unfold all_icons. rewrite !flat_map_concat_map. f_equal. rewrite <- list_fmap_compose.
    apply map_ext. apply tray_icons_view. }
  unfold same_all. by rewrite !E, H.
Qed.
Lemma same_all_one l l' : same_all l l' → one_place l l'.
Proof. unfold same_all, one_place. intros H. by rewrite H. Qed.

Lemma all_icons_app l l' : all_icons (l ++ l') = all_icons l ++ all_icons l'.
Proof. apply flat_map_app. Qed.
(** The tray at a position, apart from the others. *)
Lemma all_icons_insert l i o o' : l !! i = Some o → ∃ rest,
  all_icons l ≡ₚ tray_icons o ++ rest ∧ all_icons (<[i := o']> l) ≡ₚ tray_icons o' ++ rest.
Proof.
  intros H. apply list_elem_of_split_length in H as (l1 & l2 & -> & ->).
  exists (all_icons l1 ++ all_icons l2). rewrite insert_app_r_alt, Nat.sub_diag by lia. cbn [list_insert insert].
  rewrite !all_icons_app. cbn [all_icons flat_map]. split; apply Permutation_app_swap_app.
Qed.
Lemma all_icons_elem w l : w ∈ all_icons l ↔ ∃ i o, l !! i = Some o ∧ w ∈ tray_icons o.
Proof.
  unfold all_icons. rewrite list_elem_of_In, in_flat_map. split.
  - intros (o & Ho & Hw). apply list_elem_of_In, list_elem_of_lookup in Ho as [i Hi].
    exists i, o. split; [done|by apply list_elem_of_In].
  - intros (i & o & Hi & Hw). exists o. split; apply list_elem_of_In; [by eapply list_elem_of_lookup_2|done].
Qed.

(** ** The judgement *)

Section Safe.
Context {Srv : Type} `{!XServer Srv} `{!XScreen Srv} `{!Env (BarWorld Srv)} `{!BarEnv Srv}.
Context (J : Srv → Prop) (pat : Srv → nat) (owner : Z → string).
Local Abbreviation R := (Runtime (BarWorld Srv)).
Local Abbreviation inv := (inv (λ w : BarWorld Srv, J (bsrv w)) owner).
Local Abbreviation keeps := (keeps (λ w : BarWorld Srv, pat (bsrv w))).
Local Abbreviation xt := (xt (λ w : BarWorld Srv, J (bsrv w)) (λ w : BarWorld Srv, pat (bsrv w)) owner).
Local Abbreviation gives := (gives J pat).
Implicit Types r : R.

Definition bars r : list BarWindow := all_bars_ (bar (world r)).
Definition trays r : list (option TrayHost) := bw_tray <$> bars r.

Record moved (T : relation (list (option TrayHost))) r r' : Prop := {
  mv_inv : inv r';
  mv_keeps : keeps r r';
  mv_bars : alike (bars r) (bars r');
  mv_ok : Forall tray_ok (trays r');
  mv_trays : T (trays r) (trays r') }.
Definition moves {A} (P : list BarWindow → Prop) (T : relation (list (option TrayHost))) (m : M R A) : Prop :=
  ∀ r, inv r → Forall tray_ok (trays r) → P (bars r) → wp m (λ _ r', moved T r r') r.

Lemma moved_refl T `{!PreOrder T} r : inv r → Forall tray_ok (trays r) → moved T r r.
Proof using Type. by split. Qed.
Lemma moved_trans T `{!PreOrder T} r1 r2 r3 : moved T r1 r2 → moved T r2 r3 → moved T r1 r3.
Proof using Type. intros [] []. split; [done|by etrans..|done|by etrans]. Qed.

Section Rules.
Context (P : list BarWindow → Prop) `{!stable P} (T : relation (list (option TrayHost))) `{!PreOrder T}.

Lemma moves_ret {A} (a : A) : moves P T (ret a).
Proof using All. intros r Hr Ht _. by apply moved_refl. Qed.
Lemma moves_gets {A} (f : R → A) : moves P T (gets f).
Proof using All. intros r Hr Ht _. by apply moved_refl. Qed.
Lemma moves_bind {A B} (m : M R A) (k : A → M R B) : moves P T m → (∀ a, moves P T (k a)) → moves P T (bind m k).
Proof using All.
  intros Hm Hk r Hr Ht HPr. wp_step. eapply wp_mono; [by apply Hm|]. cbv beta. intros a r1 H1.
  eapply wp_mono; [apply Hk; [apply H1|apply H1|eapply stable_alike; [apply H1|done]]|]. intros b r2 H2. by eapply moved_trans.
Qed.
(** A read of a field: its value is known in what follows. *)
Lemma moves_read {A B} (f : R → A) (k : A → M R B) :
  (∀ r, inv r → Forall tray_ok (trays r) → P (bars r) → wp (k (f r)) (λ _ r', moved T r r') r) →
  moves P T (bind (gets f) k).
Proof using All. intros Hk r Hr Ht HPr. do 2 wp_step. by apply Hk. Qed.
Lemma moves_checked {A} (o : R → option A) : (∀ r, inv r → P (bars r) → is_Some (o r)) → moves P T (checked o).
Proof using All. intros Ho r Hr Ht HPr. destruct (Ho r Hr HPr) as [a Ha]. eapply wp_checked; [done|]. by apply moved_refl. Qed.
Lemma moves_if {A} (b : bool) (m1 m2 : M R A) : moves P T m1 → moves P T m2 → moves P T (if b then m1 else m2).
Proof using All. by destruct b. Qed.
Lemma moves_for_each {A} (l : list A) (body : A → M R unit) :
  (∀ a, a ∈ l → moves P T (body a)) → moves P T (for_each l body).
Proof using All.
  induction l as [|a l IH]; intros Hb; [apply moves_ret|]. apply moves_bind; [apply Hb; left|]. intros _.
  apply IH. intros b Hi. apply Hb. by right.
Qed.
End Rules.
Lemma moves_weaken {A} (P P' : list BarWindow → Prop) (T T' : relation (list (option TrayHost))) (m : M R A) :
  (∀ l, P' l → P l) → (∀ l l', T l l' → T' l l') → moves P T m → moves P' T' m.
Proof using Type.
  intros HP HT Hm r Hr Ht HPr. eapply wp_mono; [apply Hm; auto|]. cbv beta. intros a r' []. by split; [..|apply HT].
Qed.

(** Operations of the core and of the runtime leave the module alone. *)
Lemma moves_core {A} P T `{!PreOrder T} (m : M core A) :
  (∀ c, core_ok c → wp m (λ _ c', core_ok c') c) → moves P T (on_core m).
Proof using All.
  intros Hm r Hr Ht _. pose proof (tame_on_core _ (λ w : BarWorld Srv, pat (bsrv w)) owner m Hm r Hr) as Htame.
  assert (wp (on_core m) (λ _ r', world r' = world r) r) as Hw.
  { unfold on_core. do 2 wp_step. eapply wp_mono; [apply Hm, Hr|]. cbv beta. intros a c _. do 3 wp_step.
    unfold flush_sink. cbn. by destruct (event_sink c). }
  eapply wp_mono; [apply (wp_and _ _ _ _ Htame Hw)|]. cbv beta. intros a r' ((H1 & H2) & Ew).
  unfold bars, trays in *. split; [done|done| | |]; unfold trays, bars; by rewrite Ew.
Qed.
Lemma moves_dispatch P T `{!PreOrder T} `{!stable P} cmd : atom_ok cmd → moves P T (dispatch_ cmd).
Proof using All.
  intros Hcmd. apply moves_bind; [done|done| |intros; by apply moves_ret]. apply moves_core; [done|].
  intros c Hc. eapply wp_mono; [by apply safe_dispatch_atom|]. by intros b c' [? _].
Qed.
Lemma moves_cget {A} P T `{!PreOrder T} `{!stable P} (f : core → A) : moves P T (cget f).
Proof using All. by apply moves_gets. Qed.

(** The server, and the trays. *)
Lemma wp_on_srv {A} (m : M Srv A) (Q : A → Prop) (Φ : A → R → Prop) r : inv r → gives m Q →
  (∀ a r', inv r' → keeps r r' → bar (world r') = bar (world r) → core_ r' = core_ r → state_ r' = state_ r →
     Q a → Φ a r') → wp (on_srv m) Φ r.
Proof using All.
  intros [Hc Hw Hm] Hg HΦ. unfold on_srv. apply wp_zoom. eapply wp_mono; [by apply Hg|].
  cbv beta. intros a s [Ha [Hs Hp]]. apply HΦ; [by split|by split|done..].
Qed.
Lemma moves_srv {A} P T `{!PreOrder T} (m : M Srv A) Q : gives m Q → moves P T (on_srv m).
Proof using All.
  intros Hg r Hr Ht _. eapply wp_on_srv; [done..|]. intros a r' Hi Hk Eb _ _ _.
  split; [done|done| | |]; unfold trays, bars in *; by rewrite Eb.
Qed.
Lemma moves_set P T `{!PreOrder T} (f : BarModule → BarModule) :
  (∀ m, alike (all_bars_ m) (all_bars_ (f m))) → (∀ m, bw_tray <$> all_bars_ (f m) = bw_tray <$> all_bars_ m) →
  moves P T (bset f).
Proof using All.
  intros Ha Ht [] [Hc Hw Hm] Hok _. unfold bset. wp_step.
  split; [by split|by split|apply Ha| |]; unfold trays, bars in *; cbn in *; by rewrite Ht.
Qed.

(** ** One tray *)

Lemma same_views_insert l i t t' : l !! i = Some (Some t) → icon_windows t' = icon_windows t →
  tray_win_ t' = tray_win_ t → selection_owner_ t' = selection_owner_ t → same_views l (<[i := Some t']> l).
Proof using Type.
  intros Hi E1 E2 E3. unfold same_views. rewrite list_fmap_insert. apply list_insert_id.
  rewrite list_lookup_fmap, Hi. cbn. by rewrite E1, E2, E3.
Qed.
Lemma wp_put_tray i o t r (Φ : unit → R → Prop) : trays r !! i = Some o →
  (∀ r', alike (bars r) (bars r') → trays r' = <[i := Some t]> (trays r) → (inv r → inv r') → keeps r r' →
     core_ r' = core_ r → Φ tt r') → wp (set_tray i t) Φ r.
Proof using All.
  intros Hi HΦ. unfold set_tray, bset. wp_step.
  apply HΦ; [| |by intros []; split|by split|done]; unfold trays, bars in *; cbn.
  - apply Forall2_same_length_lookup_2; [by rewrite length_alter|]. intros j b b' Hb Hb'.
    destruct (decide (j = i)) as [->|Hne].
    + rewrite list_lookup_alter_eq, Hb in Hb'. injection Hb' as <-. by split_and!.
    + rewrite list_lookup_alter_ne, Hb in Hb' by done. by injection Hb' as <-.
  - apply list_eq. intros j. rewrite list_lookup_fmap. destruct (decide (j = i)) as [->|Hne].
    + rewrite list_lookup_alter_eq, list_lookup_insert_eq; [|by eapply lookup_lt_Some].
      rewrite list_lookup_fmap in Hi. by destruct (all_bars_ (bar (world r)) !! i).
    + by rewrite list_lookup_alter_ne, list_lookup_insert_ne, list_lookup_fmap.
Qed.

(** A method of the tray at [i] whose result is stored back. *)
Lemma wp_tray {A B} (T : relation (list (option TrayHost))) (m : M Srv A) (g : A → TrayHost) (Q : A → Prop) i t
    (k : A → M R B) (Φ : B → R → Prop) r :
  inv r → Forall tray_ok (trays r) → trays r !! i = Some (Some t) → gives m Q →
  (∀ a, Q a → wf_tray (g a) ∧ tray_win_ (g a) = tray_win_ t ∧ T (trays r) (<[i := Some (g a)]> (trays r))) →
  (∀ a r', Q a → moved T r r' → trays r' = <[i := Some (g a)]> (trays r) → core_ r' = core_ r → wp (k a) Φ r') →
  wp (a <- on_srv m ;; set_tray i (g a) ;; k a) Φ r.
Proof using All.
  intros Hr Hok Hi Hg HQ Hk. wp_step. eapply wp_on_srv; [done..|]. intros a r1 Hr1 Hk1 Eb Ec Es Ha. wp_step.
  assert (bars r1 = bars r) as Ebars by (unfold bars; by rewrite Eb).
  assert (trays r1 = trays r) as Et by (unfold trays; by rewrite Ebars).
  apply (wp_put_tray i (Some t)); [by rewrite Et|]. intros r2 Hl E Hi2 Hk2 Ec2. rewrite Et in E. rewrite Ebars in Hl.
  destruct (HQ a Ha) as (Hwf & Hwin & HT). pose proof (proj1 (Forall_lookup _ _) Hok i _ Hi) as [_ Htw].
  apply Hk; [done| |done|congruence]. split; [auto|by etrans|done|rewrite E|by rewrite E].
  apply Forall_insert; [done|]. split; [done|congruence].
Qed.

Lemma first_tray_Some (F : BarWindow → bool) l i t : first_tray F l = Some (i, t) →
  ∃ b, l !! i = Some b ∧ bw_tray b = Some t ∧ F b = true.
Proof using Type.
  unfold first_tray. destruct (index_where _ l) as [j|] eqn:E; [|done]. cbn.
  apply index_where_Some in E as [(b & Hb & Hand) _]. apply andb_true_iff in Hand as [Ht HF].
  rewrite Hb. cbn. destruct (bw_tray b) as [t'|] eqn:Et; [|done]. cbn. intros [= -> ->]. by exists b.
Qed.
Lemma first_tray_None (F : BarWindow → bool) l : first_tray F l = None →
  ∀ b t, b ∈ l → bw_tray b = Some t → F b = false.
Proof using Type.
  unfold first_tray. destruct (index_where _ l) as [j|] eqn:E; cbn.
  - apply index_where_Some in E as [(b & Hb & Hand) _]. apply andb_true_iff in Hand as [Ht HF].
    rewrite Hb. cbn. by destruct (bw_tray b).
  - intros _ b t Hb Ht. pose proof (proj1 (index_where_None _ _) E b Hb) as H.
    cbv beta in H. rewrite Ht in H. by destruct (F b).
Qed.
Lemma first_tray_trays (F : BarWindow → bool) r i t : first_tray F (bars r) = Some (i, t) → trays r !! i = Some (Some t).
Proof using Type.
  intros (b & Hb & Ht & _)%first_tray_Some. unfold trays. by rewrite list_lookup_fmap, Hb, <- Ht.
Qed.
Lemma tray_ok_at r i t : Forall tray_ok (trays r) → trays r !! i = Some (Some t) → wf_tray t ∧ tray_win_ t ≠ XCB_NONE.
Proof using Type. intros Hok Hi. exact (proj1 (Forall_lookup _ _) Hok i _ Hi). Qed.

(** ** Handlers of all trays *)

Lemma moves_first_handler (T : relation (list (option TrayHost))) `{!PreOrder T}
    (f : TrayHost → M Srv (bool * TrayHost)) (Rel : TrayHost → TrayHost → Prop) :
  (∀ t, wf_tray t → gives (f t) (λ a, wf_tray a.2 ∧ tray_win_ a.2 = tray_win_ t ∧ Rel t a.2)) →
  (∀ l i t t', l !! i = Some (Some t) → Rel t t' → T l (<[i := Some t']> l)) →
  ∀ l i r, inv r → Forall tray_ok (trays r) → bw_tray <$> l = drop i (trays r) →
    wp (first_handler f l i) (λ _ r', moved T r r') r.
Proof using All.
  intros Hf HT l. induction l as [|b l IH]; intros i r Hr Hok Hl; [by apply moved_refl|].
  assert (trays r !! i = Some (bw_tray b) ∧ bw_tray <$> l = drop (S i) (trays r)) as [Hi Hl'].
  { rewrite fmap_cons in Hl. split.
    - rewrite <- (Nat.add_0_r i), <- lookup_drop, <- Hl. done.
    - replace (S i) with (i + 1)%nat by lia. by rewrite <- drop_drop, <- Hl. }
  cbn [first_handler]. destruct (bw_tray b) as [t|]; [|by apply IH].
  destruct (tray_ok_at r i t Hok Hi) as [Hwf Hwin].
  eapply (wp_tray T _ snd); [done|done|done|by apply Hf| |].
  - intros a (Ha & Hw & HR). split_and!; [done|done|by eapply HT].
  - intros a r1 (Ha & Hw & HR) H1 Et _. destruct (a.1); [by wp_step|].
    eapply wp_mono; [apply IH; [apply H1|apply H1|]|].
    + rewrite Et, Hl'. rewrite drop_insert_lt by lia. done.
    + cbv beta. intros _ r2 H2. by eapply moved_trans.
Qed.
End Safe.

Create HintDb moves.
(** One step of [moves P T m]. *)
Ltac moves_step :=
  lazymatch goal with
  | |- moves _ _ _ _ _ (ret _) => apply moves_ret; apply _
  | |- moves _ _ _ _ _ (gets _) => apply moves_gets; apply _
  | |- moves _ _ _ _ _ (cget _) => apply moves_cget; apply _
  | |- moves _ _ _ _ _ (bget _) => apply moves_gets; apply _
  | |- moves _ _ _ _ _ (bind _ _) => apply moves_bind; [apply _|apply _| |intros ?]
  | |- moves _ _ _ _ _ (for_each _ _) => apply moves_for_each; [apply _|apply _|intros ? ?]
  | |- moves _ _ _ _ _ (if _ then _ else _) => apply moves_if; [apply _|apply _| |]
  | |- moves _ _ _ _ _ (match ?o with Some _ => _ | None => _ end) => destruct o eqn:?
  | |- moves _ _ _ _ _ _ => solve [eauto with moves typeclass_instances]
  end.

(** ** Runs of the bar module

    What the module relies on of Lua, cairo and the port of render windows
    ([BarOk]); drawing, routing and the handlers complete and keep what
    [BarSafe] speaks of. *)

Section Run.
Context {Srv : Type} `{!XServer Srv} `{!XScreen Srv} `{!Env (BarWorld Srv)} `{!BarEnv Srv}.
Context (J : Srv → Prop) (pat backlog : Srv → nat) (owner : Z → string).
Local Abbreviation R := (Runtime (BarWorld Srv)).
Local Abbreviation inv := (inv (λ w : BarWorld Srv, J (bsrv w)) owner).
Local Abbreviation keeps := (keeps (λ w : BarWorld Srv, pat (bsrv w))).
Local Abbreviation moves := (moves J pat owner).
Local Abbreviation moved := (moved J pat owner).
Local Abbreviation gives := (gives J pat).
Implicit Types r : R.

(** Lua's callbacks leave the bars alone; a new window belongs to a module. *)
Class BarOk : Prop := {
  bo_update w : moves (λ _, True) eq (widget_update w);
  bo_render w : moves (λ _, True) eq (widget_render w);
  bo_paint op s : J s → srv_step J pat s (paint_op op s);
  bo_new_window r : inv r → wp be_new_render_window (λ o r', inv r' ∧ keeps r r' ∧
    bar (world r') = bar (world r) ∧ core_ r' = core_ r ∧ ∀ win p, o = Some (win, p) → owner win ∈ names r') r }.
Context `{!ServerOk J pat backlog} `{!ScreenOk J pat} `{!BarOk}.

(** ** Slots *)

Definition anywhere (_ : list BarWindow) : Prop := True.
Definition has_slot (i : nat) (z : Zone) (j : nat) (l : list BarWindow) : Prop :=
  ∃ b, l !! i = Some b ∧ (j < length (zone z (bw_cfg b)))%nat.
Definition has_bar (i : nat) (l : list BarWindow) : Prop := is_Some (l !! i).
#[export] Instance stable_anywhere : stable anywhere.
Proof using Type. done. Qed.
#[export] Instance stable_slot i z j : stable (has_slot i z j).
Proof using Type.
  intros l l' Hl (b & Hb & Hj). destruct (Forall2_lookup_l _ _ _ _ _ Hl Hb) as (b' & Hb' & (_ & _ & _ & _ & _ & _ & Hz)).
  exists b'. split; [done|]. by rewrite <- Hz.
Qed.
#[export] Instance stable_bar i : stable (has_bar i).
Proof using Type. intros l l' Hl [b Hb]. destruct (Forall2_lookup_l _ _ _ _ _ Hl Hb) as (b' & Hb' & _). by exists b'. Qed.
#[export] Instance stable_like l0 : stable (alike l0).
Proof using Type. intros l l' Hl Hp. by etrans. Qed.

(** A callback of Lua, whatever else is known. *)
Lemma moves_quiet {A} P T `{!PreOrder T} (m : M R A) : moves anywhere eq m → moves P T m.
Proof using Type. apply moves_weaken; [done|]. by intros l l' ->. Qed.
Lemma moves_update P T `{!PreOrder T} `{!stable P} s : moves P T (update_slot s).
Proof using All. unfold update_slot. moves_step; [moves_step|]. apply moves_quiet; [done|]. apply bo_update. Qed.
Lemma alter_zone_length f z z' cfg : (∀ l, length (f l) = length l) →
  length (zone z' (alter_zone f z cfg)) = length (zone z' cfg).
Proof using Type. intros Hf. by destruct z, z'; cbn; rewrite ?Hf. Qed.
Lemma moves_set_slot P T `{!PreOrder T} i z j f : moves P T (set_slot i z j f).
Proof using All.
  apply moves_set; [done| |].
  - intros m. cbn. apply Forall2_same_length_lookup_2; [by rewrite length_alter|]. intros k b b' Hb Hb'.
    destruct (decide (k = i)) as [->|Hne].
    + rewrite list_lookup_alter_eq, Hb in Hb'. injection Hb' as <-. split_and!; [done..|].
      intros z'. cbn. symmetry. apply alter_zone_length. intros l. apply length_alter.
    + rewrite list_lookup_alter_ne, Hb in Hb' by done. by injection Hb' as <-.
  - intros m. cbn. apply list_eq. intros k. rewrite !list_lookup_fmap. destruct (decide (k = i)) as [->|Hne].
    + rewrite list_lookup_alter_eq. by destruct (all_bars_ m !! i).
    + by rewrite list_lookup_alter_ne.
Qed.
Lemma moves_slot_at T `{!PreOrder T} i z j : moves (has_slot i z j) T (slot_at i z j).
Proof using All.
  apply moves_checked; [apply _|apply _|]. intros r _ (b & Hb & Hj). unfold bars in Hb. rewrite Hb. cbn. by apply lookup_lt_is_Some_2.
Qed.
Hint Resolve moves_update moves_set_slot moves_slot_at : moves.
Lemma moves_prime T `{!PreOrder T} i z j : moves (has_slot i z j) T (prime_slot i z j).
Proof using All. unfold prime_slot. repeat moves_step. Qed.
Lemma moves_tick T `{!PreOrder T} i z j : moves (has_slot i z j) T (tick_slot i z j).
Proof using All. unfold tick_slot. repeat moves_step. Qed.
Lemma moves_redraw_slot T `{!PreOrder T} i z j : moves (has_slot i z j) T (redraw_slot i z j).
Proof using All.
  unfold redraw_slot, render_slot. repeat moves_step. apply moves_quiet; [done|]. apply bo_render.
Qed.
Lemma moves_each_slot T `{!PreOrder T} body :
  (∀ i z j, moves (has_slot i z j) T (body i z j)) → moves anywhere T (each_slot body).
Proof using All.
  intros Hb. unfold each_slot. apply moves_read; [apply _|apply _|]. intros r Hr Hok _.
  assert (moves (alike (bars r)) T (for_each (seq 0 (length (bars r))) (λ i,
    for_each zones (λ z, b <- checked (λ r : R, all_bars_ (bar (world r)) !! i) ;;
      for_each (seq 0 (length (zone z (bw_cfg b)))) (body i z))))) as Hm; [|by apply Hm].
  apply moves_for_each; [apply _|apply _|]. intros i Hi. apply elem_of_seq in Hi.
  apply moves_for_each; [apply _|apply _|]. intros z _. intros r1 Hr1 Hok1 Hl. wp_step.
  destruct (lookup_lt_is_Some_2 (bars r1) i) as [b Hbi]; [rewrite <- (Forall2_length _ _ _ Hl); lia|].
  eapply wp_checked; [exact Hbi|].
  assert (moves (alike (bars r1)) T (for_each (seq 0 (length (zone z (bw_cfg b)))) (body i z))) as Hm; [|by apply Hm].
  apply moves_for_each; [apply _|apply _|]. intros j Hj. apply elem_of_seq in Hj.
  eapply moves_weaken; [|by intros l l' ?|apply Hb]. intros l Hl'. eapply stable_alike; [exact Hl'|].
  exists b. split; [done|lia].
Qed.
Lemma moves_prime_widgets T `{!PreOrder T} : moves anywhere T prime_widgets.
Proof using All. apply moves_each_slot; [done|]. intros. by apply moves_prime. Qed.
Lemma moves_refresh T `{!PreOrder T} : moves anywhere T refresh_widgets.
Proof using All. unfold refresh_widgets. repeat moves_step. apply moves_each_slot; [done|]. intros. by apply moves_tick. Qed.

(** ** Drawing *)

Lemma moves_paint P T `{!PreOrder T} `{!stable P} op : moves P T (paint op).
Proof using All.
  unfold paint. eapply (moves_srv _ _ _ _ _ _ (λ _, True)). intros s Hs. wp_step. split; [done|]. by apply bo_paint.
Qed.
Hint Resolve moves_paint : moves.
Lemma moves_draw_text P T `{!PreOrder T} `{!stable P} pc px t f b : moves P T (draw_text pc px t f b).
Proof using All. unfold draw_text. destruct (text_size _ _). repeat moves_step. Qed.
Lemma moves_draw_rect P T `{!PreOrder T} `{!stable P} pc p sz c : moves P T (draw_rect pc p sz c).
Proof using All. unfold draw_rect. repeat moves_step. Qed.
Hint Resolve moves_draw_text moves_draw_rect : moves.
Lemma moves_draw_tags P T `{!PreOrder T} `{!stable P} pc c l cursor : moves P T (draw_tags pc c l cursor).
Proof using All.
  revert cursor. induction l as [|t l IH]; intros cursor; cbn [draw_tags]; [moves_step|].
  destruct (tag_colors c t). repeat moves_step; apply IH.
Qed.
Hint Resolve moves_draw_tags : moves.
Lemma moves_left P T `{!PreOrder T} `{!stable P} pc st c t l cursor : moves P T (render_left pc st c t l cursor).
Proof using All.
  revert cursor. induction l as [|s l IH]; intros cursor; cbn [render_left]; [moves_step|].
  moves_step; [|repeat moves_step; apply IH]. unfold render_left_slot, tags_draw.
  destruct (slot_kind s), (st_tags st); repeat moves_step.
Qed.
Lemma moves_right P T `{!PreOrder T} `{!stable P} pc c t l right : moves P T (render_right pc c t l right).
Proof using All.
  revert right. induction l as [|s l IH]; intros right; cbn [render_right]; [moves_step|].
  moves_step; [|apply IH]. unfold render_right_slot. destruct (slot_kind s); repeat moves_step.
Qed.
Lemma moves_center P T `{!PreOrder T} `{!stable P} pc st c s left right : moves P T (render_center_slot pc st c s left right).
Proof using All. unfold render_center_slot, draw_center. destruct (slot_kind s); repeat moves_step. Qed.
Hint Resolve moves_left moves_right moves_center : moves.

(** With the bars [l] in hand: nothing has moved yet. *)
Definition from {A} (l : list BarWindow) T (m : M R A) : Prop := ∀ r, inv r → Forall tray_ok (trays r) →
  alike l (bars r) → trays r = bw_tray <$> l → wp m (λ _ r', moved T r r') r.
Lemma from_bind {A B} l T `{!PreOrder T} (m : M R A) (k : A → M R B) :
  moves (alike l) eq m → (∀ a, from l T (k a)) → from l T (bind m k).
Proof using All.
  intros Hm Hk r Hr Hok Hl Ht. wp_step. eapply wp_mono; [by apply Hm|]. cbv beta. intros a r1 H1.
  eapply wp_mono; [apply Hk; [apply H1|apply H1|etrans; [exact Hl|apply H1]|]|].
  - rewrite <- Ht. symmetry. apply H1.
  - cbv beta. intros b r2 H2. apply moved_trans with r1; [done| |done]. destruct H1 as [?? ?? E]. split; [done..|by rewrite E].
Qed.
Lemma from_moves {A} l T (m : M R A) : moves (alike l) T m → from l T m.
Proof using Type. intros Hm r Hr Hok Hl _. by apply Hm. Qed.
Lemma from_if {A} l T (b : bool) (m1 m2 : M R A) : from l T m1 → from l T m2 → from l T (if b then m1 else m2).
Proof using Type. by destruct b. Qed.
Lemma moves_from {A} P T `{!stable P} (k : list BarWindow → M R A) :
  (∀ l, P l → from l T (k l)) → moves P T (bind (bget all_bars_) k).
Proof using Type. intros Hk r Hr Hok HPr. unfold bget. do 2 wp_step. by apply Hk. Qed.
(** A method of the tray at [i], the last step. *)
Lemma from_tray {A} l T (m : M Srv A) (g : A → TrayHost) (Q : A → Prop) i t :
  l !! i ≫= bw_tray = Some t → (wf_tray t → gives m Q) →
  (∀ a, Q a → wf_tray (g a) ∧ tray_win_ (g a) = tray_win_ t ∧
    T (bw_tray <$> l) (<[i := Some (g a)]> (bw_tray <$> l))) →
  from l T (a <- on_srv m ;; set_tray i (g a)).
Proof using All.
  intros Hi Hg HQ r Hr Hok Hl Ht.
  assert (trays r !! i = Some (Some t)) as Hti.
  { rewrite Ht, list_lookup_fmap. destruct (l !! i); [|done]. cbn in *. by rewrite Hi. }
  destruct (tray_ok_at r i t Hok Hti) as [Hwf _]. rewrite <- Ht in HQ.
  assert (wp (a <- on_srv m ;; set_tray i (g a) ;; ret tt) (λ _ r', moved T r r') r) as Hwp.
  { eapply (wp_tray J pat owner T _ g Q); [done|done|done|by apply Hg|done|]. intros a r1 _ H1 _ _. by wp_step. }
  revert Hwp. unfold wp, bind. destruct (on_srv m r) as [[a r1]|]; [|done]. by destruct (set_tray i (g a) r1) as [[[] r2]|].
Qed.

Lemma first_tray_at (F : BarWindow → bool) l i t : first_tray F l = Some (i, t) → l !! i ≫= bw_tray = Some t.
Proof using Type. intros (b & Hb & Ht & _)%first_tray_Some. by rewrite Hb. Qed.

Lemma state_provider_defined mon c : core_ok c → is_Some (state_provider mon c).
Proof using Type.
  intros Hc. unfold state_provider. destruct (vsize (monitors (wsman c)) =? 0) eqn:E; [by eexists|].
  assert (is_Some (vget (monitors (wsman c)) (if is_mon_valid (wsman c) mon then mon else focused_monitor (wsman c)))) as [m ->];
    [|by eexists].
  unfold is_mon_valid. destruct ((0 <=? mon) && (mon <? vsize (monitors (wsman c)))) eqn:Ev; apply vget_is_Some; [lia|].
  destruct (ManagerInv.ok_focus _ (co_wm _ Hc)) as [[Em _]|Hf]; [by rewrite Em in E|lia].
Qed.

Lemma gives_same_views (l : list (option TrayHost)) i t t' : l !! i = Some (Some t) → same_icons t t' →
  wf_tray t' ∧ tray_win_ t' = tray_win_ t ∧ same_views l (<[i := Some t']> l).
Proof using Type. intros Hi (Hwf & Hw & Ho & Hi'). split_and!; [done|done|]. by eapply same_views_insert. Qed.

Lemma moves_draw_bar i : moves (has_bar i) same_views (draw_bar i).
Proof using All.
  unfold draw_bar. apply moves_from; [apply _|]. intros l [b Hb]. apply from_bind; [apply _| |intros b'].
  { apply moves_checked; [apply _|apply _|]. intros. by rewrite Hb. }
  cbv zeta. apply from_bind; [apply _| |intros st].
  { apply moves_checked; [apply _|apply _|]. intros r Hr _. apply state_provider_defined, Hr. }
  apply from_bind; [apply _| |intros cairo].
  { eapply moves_srv; [apply _|]. apply gives_gets. }
  do 6 (apply from_bind; [apply _|first [unfold clear; by repeat moves_step|idtac]|intros ?]).
  - apply moves_if; [apply _..|moves_step|]. apply moves_set; [apply _|by intros m|by intros m].
  - destruct (if has_tray_slot (bw_cfg b') then _ else None) as [[j t]|] eqn:E; [|apply from_moves; moves_step].
    destruct (has_tray_slot (bw_cfg b')); [|done]. pose proof (first_tray_at _ _ _ _ E) as Ht.
    apply (from_tray _ _ _ Datatypes.id (same_icons t)) with t; [done|intros; by eapply gives_reposition|].
    intros t' Ht'. apply gives_same_views; [|done]. rewrite list_lookup_fmap.
    destruct (l !! j); [|done]. cbn in *. by rewrite Ht.
Qed.
Lemma moves_redraw : moves anywhere same_views redraw.
Proof using All.
  unfold redraw. moves_step; [moves_step|]. moves_step; [moves_step|]. moves_step; [moves_step|].
  moves_step; [moves_step; [|moves_step]|moves_step].
  - apply moves_each_slot; [apply _|]. intros. apply moves_redraw_slot. apply _.
  - apply moves_set; [apply _|by intros m|by intros m].
  - apply moves_read; [apply _|apply _|]. intros r Hr Hok _.
    assert (moves (alike (bars r)) same_views (for_each (seq 0 (length (bars r))) draw_bar)) as Hm; [|by apply Hm].
    apply moves_for_each; [apply _|apply _|]. intros i Hi. apply elem_of_seq in Hi.
    eapply moves_weaken; [|by intros l l' ?|apply moves_draw_bar]. intros l Hl.
    eapply stable_alike; [exact Hl|]. apply lookup_lt_is_Some_2. lia.
Qed.
Lemma moves_raise_all T `{!PreOrder T} : moves anywhere T raise_all.
Proof using All.
  unfold raise_all. apply moves_read; [apply _|apply _|]. intros r Hr Hok _.
  assert (moves anywhere T (for_each (bars r) (λ b,
    let t := if bw_is_top b then tray_for_monitor (bw_monitor b) (bars r) else None in
    covered <- cget (λ c, monitor_has_visible_covering_window c (bw_monitor b)) ;;
    (if covered then lower_window (bw_id b) else raise_window (bw_id b)) ;;
    match t with Some (_, t) => on_srv (raise t) | None => ret tt end))) as Hm; [|by apply Hm].
  moves_step. cbv zeta. moves_step; [moves_step|]. moves_step.
  - apply moves_if; [apply _..| |]; (eapply moves_srv; [apply _|]); by apply (gives_req J pat backlog).
  - destruct (if bw_is_top a then _ else _) as [[j t]|]; [|moves_step].
    eapply moves_srv; [apply _|]. by apply (gives_raise J pat backlog).
Qed.

(** ** Icons *)

Lemma one_place_insert l i t t' : l !! i = Some (Some t) →
  (∀ rest, NoDup (icon_windows t ++ rest) → all_icons l ≡ₚ icon_windows t ++ rest → NoDup (icon_windows t' ++ rest)) →
  one_place l (<[i := Some t']> l).
Proof using Type.
  intros Hi Hn Hl. destruct (all_icons_insert l i _ (Some t') Hi) as (rest & E1 & ->). rewrite E1 in Hl. by apply Hn.
Qed.
Lemma one_place_docks l i t t' win : l !! i = Some (Some t) → win ∉ all_icons l → docks win t t' →
  wf_tray t' ∧ tray_win_ t' = tray_win_ t ∧ one_place l (<[i := Some t']> l).
Proof using Type.
  intros Hi Hw [Hs|[_ (Hwf & Hwin & Ho & Hic)]].
  - destruct (gives_same_views l i t t' Hi Hs) as (? & ? & Hv). split_and!; [done|done|].
    by apply same_all_one, same_views_all.
  - split_and!; [done|done|]. apply (one_place_insert l i t); [done|]. intros rest Hn E. rewrite Hic.
    rewrite E in Hw. rewrite <- app_assoc. cbn. rewrite <- Permutation_middle. by apply NoDup_cons.
Qed.
Lemma one_place_removed l i t t' win ws : l !! i = Some (Some t) → becomes t ws t' → icon_windows t ≡ₚ win :: ws →
  wf_tray t' ∧ tray_win_ t' = tray_win_ t ∧ one_place l (<[i := Some t']> l).
Proof using Type.
  intros Hi (Hwf & Hwin & Ho & Hic) Hp. split_and!; [done|done|]. apply (one_place_insert l i t); [done|].
  intros rest Hn _. rewrite Hic. rewrite Hp in Hn. by apply NoDup_cons in Hn as [_ Hn].
Qed.

Lemma moves_on_trays (T : relation (list (option TrayHost))) `{!PreOrder T} f (Rel : TrayHost → TrayHost → Prop) :
  (∀ l l', same_views l l' → T l l') →
  (∀ t, wf_tray t → gives (f t) (λ a, wf_tray a.2 ∧ tray_win_ a.2 = tray_win_ t ∧ Rel t a.2)) →
  (∀ l i t t', l !! i = Some (Some t) → Rel t t' → T l (<[i := Some t']> l)) →
  moves anywhere T (on_trays f).
Proof using All.
  intros HT Hf HR. unfold on_trays. apply moves_read; [apply _|apply _|]. intros r Hr Hok _. wp_step.
  eapply wp_mono; [by apply (moves_first_handler J pat owner T f Rel)|]. cbv beta. intros [] r1 H1.
  eapply wp_mono; [apply moves_redraw; [apply H1|apply H1|done]|]. cbv beta. intros [] r2 H2.
  eapply moved_trans; [done|done|]. destruct H2 as [????]. split; try done. by apply HT.
Qed.
Lemma moves_same_event f :
  (∀ t, wf_tray t → gives (f t) (λ a, same_icons t a.2)) → moves anywhere same_views (on_trays f).
Proof using All.
  intros Hf. apply (moves_on_trays same_views f same_icons); [done| |].
  - intros t Ht. eapply gives_mono; [by apply Hf|]. cbv beta. intros a Ha. split_and!; [apply Ha|apply Ha|done].
  - intros l i t t' Hi Ht. by apply (gives_same_views l i t t' Hi Ht).
Qed.
Lemma moves_unmap win : moves anywhere same_views (on_trays (handle_unmap_notify win)).
Proof using All.
  apply moves_same_event. intros t Ht. eapply gives_mono; [by eapply gives_unmap|]. by intros a [_ ?].
Qed.
Lemma moves_configure win : moves anywhere same_views (on_trays (handle_configure_notify win)).
Proof using All.
  apply moves_same_event. intros t Ht. eapply gives_mono; [by eapply gives_configure|]. by intros a [_ ?].
Qed.
Lemma moves_property win a : moves anywhere same_views (on_trays (handle_property_notify win a)).
Proof using All.
  apply moves_same_event. intros t Ht. eapply gives_mono; [by eapply gives_property|]. by intros b [_ ?].
Qed.
Lemma moves_destroy win : moves anywhere one_place (on_trays (handle_destroy_notify win)).
Proof using All.
  apply (moves_on_trays one_place _ (λ t t', ∃ ws b, becomes t ws t' ∧ icon_windows t ≡ₚ (if (b : bool) then win :: ws else ws)));
    [by intros l l' ?%same_views_all%same_all_one| |].
  - intros t Ht. eapply gives_mono; [by eapply gives_destroy_notify|]. cbv beta. intros a (_ & ws & Hb & Hp).
    split_and!; [apply Hb|apply Hb|]. by exists ws, a.1.
  - intros l i t t' Hi (ws & [] & Hb & Hp); [by eapply one_place_removed|].
    apply (one_place_insert l i t); [done|]. intros rest Hn _. destruct Hb as (_ & _ & _ & ->). by rewrite <- Hp.
Qed.

(** ** Routing *)

Lemma best_monitor_defined cls c : core_ok c → is_Some (best_monitor cls c).
Proof using Type.
  intros Hc. unfold best_monitor. rewrite fmap_is_Some.
  assert (∀ l best, is_Some best → is_Some (foldl (score_window cls c) best l)) as Hl; [|by apply Hl; eexists].
  intros l. induction l as [|win l IH]; intros best Hb; [done|]. cbn. apply IH.
  destruct Hb as [b ->]. cbn. destruct (find_window_in_all (wsman c) win) as [p|] eqn:E; [|by eexists].
  assert (is_Some (wins (wsman c) !! p)) as [w ->].
  { destruct (wok_ix _ _ _ _ _ (ok_windows _ (co_wm _ Hc)) _ _ E) as (w & _ & _ & Hw & _). by exists w. }
  cbn. by destruct (negb _); eexists.
Qed.
Lemma moves_wm_class P T `{!PreOrder T} `{!stable P} win t : moves P T (on_srv (icon_wm_class win t)).
Proof using All.
  eapply (moves_srv _ _ _ _ _ _ (λ _, True)). unfold icon_wm_class. gives_step. gives_step; [by apply gives_ret|].
  eapply gives_bind; [apply gives_safe, (srv_wm_class J pat backlog)|intros c _]. by apply gives_ret.
Qed.
Lemma moves_monitor_for_icon P T `{!PreOrder T} `{!stable P} win : moves P T (monitor_for_icon win).
Proof using All.
  unfold monitor_for_icon. moves_step; [moves_step|]. moves_step.
  - destruct (tray_with_icon win a) as [[i t]|] eqn:E; [|moves_step]. moves_step; [by apply moves_wm_class|].
    moves_step; [|moves_step]. apply moves_checked; [apply _|apply _|]. intros _ _ _.
    apply first_tray_Some in E as (b & Hb & _). by rewrite Hb.
  - cbv zeta. moves_step; [moves_step|]. moves_step; [|moves_step].
    apply moves_checked; [apply _|apply _|]. intros r Hr _. apply best_monitor_defined, Hr.
Qed.

(** The two trays of a transfer. *)
Lemma all_icons_move l i j win t dst ws t' dst' : i ≠ j → l !! i = Some (Some t) → l !! j = Some (Some dst) →
  icon_windows t ≡ₚ win :: ws → icon_windows t' = ws → icon_windows dst' = icon_windows dst ++ [win] →
  same_all l (<[j := Some dst']> (<[i := Some t']> l)).
Proof using Type.
  intros Hne Hi Hj Hp Et Ed. destruct (all_icons_insert l i _ (Some t') Hi) as (rest & E1 & E2).
  assert ((<[i := Some t']> l) !! j = Some (Some dst)) as Hj' by by rewrite list_lookup_insert_ne.
  destruct (all_icons_insert _ j _ (Some dst') Hj') as (rest2 & E3 & E4).
  unfold same_all. rewrite E4, E1. cbn [tray_icons] in *. rewrite Hp, Ed. rewrite <- app_assoc. cbn.
  rewrite <- Permutation_middle. constructor. rewrite <- E3, E2. by rewrite Et.
Qed.
Lemma moves_route win target : moves anywhere same_all (route_icon_to_monitor win target).
Proof using All.
  unfold route_icon_to_monitor. apply moves_read; [apply _|apply _|]. intros r Hr Hok _.
  change (all_bars_ (bar (world r))) with (bars r).
  destruct (tray_with_icon win (bars r)) as [[i src]|] eqn:Ei; [|by wp_step; apply moved_refl; [apply _|..]].
  destruct (tray_for_monitor target (bars r)) as [[j dst]|] eqn:Ej; [|by wp_step; apply moved_refl; [apply _|..]].
  destruct (Nat.eqb_spec i j) as [->|Hne]; [by wp_step; apply moved_refl; [apply _|..]|].
  pose proof (first_tray_trays _ _ _ _ Ei) as Hi. pose proof (first_tray_trays _ _ _ _ Ej) as Hj.
  destruct (tray_ok_at r i src Hok Hi) as [Hsrc Hsw]. destruct (tray_ok_at r j dst Hok Hj) as [Hdst Hdw].
  wp_step. eapply wp_on_srv; [done|by eapply (gives_transfer J pat backlog)|].
  intros [[taken t'] d'] r1 Hr1 Hk1 Eb Ec _ Ha. cbn in Ha. assert (bars r1 = bars r) as Ebars by (unfold bars; by rewrite Eb).
  assert (trays r1 = trays r) as Et by (unfold trays; by rewrite Ebars).
  wp_step. eapply (wp_put_tray J pat owner i (Some src)); [by rewrite Et|]. intros r2 Hl2 Et2 Hi2 Hk2 _.
  eapply (wp_put_tray J pat owner j (Some dst)); [by rewrite Et2, Et, list_lookup_insert_ne|]. intros r3 Hl3 Et3 Hi3 Hk3 _.
  rewrite Et in Et2. rewrite Ebars in Hl2. rewrite Et2 in Et3.
  assert (tray_ok (Some t') ∧ tray_ok (Some d') ∧ same_all (trays r) (trays r3)) as (Ho1 & Ho2 & HT).
  { destruct taken.
    - destruct Ha as (_ & (Hw2 & Ew2 & _ & Ei2) & ws & (Hw1 & Ew1 & _ & Ei1) & Hp). unfold tray_ok. rewrite Ew1, Ew2, Et3.
      split_and!; [done..|]. by eapply all_icons_move.
    - destruct Ha as (_ & -> & ->). split_and!; [done..|]. rewrite Et3.
      by rewrite (list_insert_id (trays r) i), (list_insert_id (trays r) j). }
  split; [auto|by do 2 (etrans; [eassumption|])|by etrans| |done].
  rewrite Et3. by do 2 (apply Forall_insert; [|done]).
Qed.
Lemma moves_misplaced P T `{!PreOrder T} `{!stable P} l : moves P T (misplaced l).
Proof using All.
  induction l as [|[mon win] l IH]; cbn [misplaced]; [moves_step|].
  moves_step; [by apply moves_monitor_for_icon|]. moves_step; [done|]. moves_step.
Qed.
Lemma moves_rebalance : moves anywhere same_all rebalance_tray_icons.
Proof using All.
  unfold rebalance_tray_icons. moves_step; [moves_step|]. moves_step; [moves_step|].
  moves_step; [apply moves_misplaced; apply _|]. moves_step. apply moves_route.
Qed.

(** ** The other handlers *)

Lemma moves_lift {A} (T T' : relation (list (option TrayHost))) (m : M R A) :
  (∀ l l', T l l' → T' l l') → moves anywhere T m → moves anywhere T' m.
Proof using Type. intros HT. by apply moves_weaken. Qed.
Lemma moves_redraw_one : moves anywhere one_place redraw.
Proof using All. apply (moves_lift same_views); [by intros l l' ?%same_views_all%same_all_one|apply moves_redraw]. Qed.
Lemma moves_expose win : moves anywhere same_views (on_expose win).
Proof using All. unfold on_expose. moves_step; [moves_step|]. moves_step; [apply moves_redraw|moves_step]. Qed.
Lemma moves_clicks P T `{!PreOrder T} `{!stable P} f l :
  (∀ t, gives (f t) (λ _, True)) → moves P T (first_click f l).
Proof using All.
  intros Hf. induction l as [|b l IH]; cbn [first_click]; [moves_step|]. destruct (bw_tray b); [|done].
  moves_step; [by eapply moves_srv|]. moves_step; [moves_step|done].
Qed.
Lemma moves_button win root_pos p time button state release :
  moves anywhere same_views (on_button win root_pos p time button state release).
Proof using All.
  unfold on_button. moves_step; [moves_step|]. destruct (List.find _ a) as [b|].
  - moves_step; [moves_step|]. moves_step; [moves_step|]. cbv zeta. moves_step; [|moves_step].
    moves_step; [apply moves_dispatch; [apply _|apply _|done]|apply moves_redraw].
  - apply moves_clicks; [apply _|apply _|]. intros t. unfold handle_button_event.
    gives_step; [by apply gives_ret|]. cbv zeta. gives_step; [by apply gives_ret|]. gives_step; [by apply gives_ret|].
    destruct (find_icon_at _ _ _); [|by apply gives_ret]. gives_step. by apply gives_ret.
Qed.

Lemma tray_icon_elsewhere r win : existsb (contains_icon win) (bars r) = false → win ∉ all_icons (trays r).
Proof using Type.
  intros He (i & o & Hi & Hw)%all_icons_elem. unfold trays in Hi. rewrite list_lookup_fmap in Hi.
  destruct (bars r !! i) as [b|] eqn:Hb; [|done]. injection Hi as <-. destruct (bw_tray b) as [t|] eqn:Et; [|by apply elem_of_nil in Hw].
  assert (existsb (contains_icon win) (bars r) = true); [|congruence]. apply existsb_exists. exists b.
  split; [by eapply list_elem_of_In, list_elem_of_lookup_2|]. unfold contains_icon. rewrite Et. by apply is_icon_elem.
Qed.
Lemma moves_client_message win type data : moves anywhere one_place (on_client_message win type data).
Proof using All.
  unfold on_client_message. apply moves_read; [apply _|apply _|]. intros r Hr Hok _.
  change (all_bars_ (bar (world r))) with (bars r).
  destruct (owner_tray (bars r)) as [[i t]|] eqn:Ei; [|by wp_step; apply moved_refl; [apply _|..]].
  destruct ((word data 1 =? 0) && existsb (contains_icon (word data 2)) (bars r)) eqn:Ea;
    [by wp_step; apply moved_refl; [apply _|..]|].
  pose proof (first_tray_trays _ _ _ _ Ei) as Hi. destruct (tray_ok_at r i t Hok Hi) as [Ht Htw].
  eapply (wp_tray J pat owner one_place _ snd); [done|done|done|by eapply (gives_client_message J pat backlog)| |].
  - cbv beta. intros a [Hs|[E Hd]].
    + destruct (gives_same_views _ i t a.2 Hi Hs) as (? & ? & Hv). split_and!; [done|done|].
      by apply same_all_one, same_views_all.
    + apply (one_place_docks _ i t a.2 (word data 2)); [done| |done]. apply tray_icon_elsewhere.
      apply andb_false_iff in Ea as [Ea|Ea]; [lia|done].
  - intros a r1 _ H1 _ _. wp_step. eapply wp_mono with (Q := λ _ r', moved one_place r1 r').
    + destruct (a.1.2) as [w|]; [|wp_step; apply moved_refl; [apply _|apply H1|apply H1]].
      destruct (a.1.1 && negb (w =? NO_WINDOW)); [|wp_step; apply moved_refl; [apply _|apply H1|apply H1]].
      apply moves_redraw_one; [apply H1|apply H1|done].
    + cbv beta. intros [] r2 H2. wp_step. by eapply moved_trans; [apply _|..].
Qed.

(** An icon that came back to the root window while no tray but the owner of the
    selection lists it. *)
Definition unlisted (win : Z) (l : list BarWindow) : Prop :=
  (win ∉ all_icons (bw_tray <$> l)) ∨
  ∃ i t, owner_tray l = Some (i, t) ∧ win ∈ icon_windows t.
Lemma wp_docked win r : inv r → Forall tray_ok (trays r) → unlisted win (bars r) →
  wp (on_icon_docked win) (λ _ r', moved one_place r r') r.
Proof using All.
  intros Hr Hok Hu. unfold on_icon_docked, bget. do 3 wp_step. change (all_bars_ (bar (world r))) with (bars r).
  eapply wp_mono with (Q := λ _ r', moved one_place r r').
  - destruct (owner_tray (bars r)) as [[i t]|] eqn:Ei; [|wp_step; by apply moved_refl; [apply _|..]].
    destruct (is_icon win (icons_ t)) eqn:Ec; [wp_step; by apply moved_refl; [apply _|..]|].
    pose proof (first_tray_trays _ _ _ _ Ei) as Hi.
    assert (win ∉ all_icons (trays r)) as Hn.
    { destruct Hu as [Hu|(i' & t' & E & Hin)]; [done|]. rewrite E in Ei. injection Ei as -> ->.
      apply not_icon in Ec. done. }
    apply (from_tray (bars r) one_place _ Datatypes.id (docks win t) i t); [by eapply first_tray_at| | |done..].
    + intros Ht. eapply gives_mono; [by apply (gives_adopt J pat backlog)|]. by intros t' [Hd _].
    + intros t'. by apply one_place_docks.
  - cbv beta. intros [] r1 H1. apply wp_mono with (Q := λ _ r', moved one_place r1 r').
    2: { intros _ r2 H2. by eapply moved_trans; [apply _|..]. }
    assert (moves anywhere one_place (target <- monitor_for_icon win ;; route_icon_to_monitor win target ;; redraw)) as Hm;
      [|apply Hm; [apply H1|apply H1|done]].
    moves_step; [apply moves_monitor_for_icon; apply _|]. moves_step; [|apply moves_redraw_one].
    apply (moves_lift same_all); [by intros l l' ?%same_all_one|apply moves_route].
Qed.
End Run.
