(* ===== verification/BarBuild.v ===== *)
(** * Building the bars and their trays

    [rebuild_bars] leaves windows without trays, at most one at the top of each
    monitor; [rebuild_trays] gives the tops trays, of which only the owner of the
    selection takes icons. *)

From S2P Require Import Prelude TextStream Geometry Workspace WorkspaceManager WindowIndex ManagerInv ManagerOps.
From S2P Require Import Events Commands Protocol Core Dispatch CoreSafe CoreRun CoreSpecs.
From S2P Require Import EventQueue.
From S2P Require Import ConfigValue ConfigRuntime RuntimeStore Runtime LifecycleSafe BackendSafe.
From S2P Require Import X11Server X11Backend X11Safe TrayHost TrayProps BarSetup BarModule BarSafe.

Local Open Scope Z_scope.

Section Build.
Context {Srv : Type} `{!XServer Srv} `{!XScreen Srv} `{!Env (BarWorld Srv)} `{!BarEnv Srv}.
Context (J : Srv → Prop) (pat backlog : Srv → nat) (owner : Z → string).
Local Abbreviation R := (Runtime (BarWorld Srv)).
Local Abbreviation inv := (inv (λ w : BarWorld Srv, J (bsrv w)) owner).
Local Abbreviation keeps := (keeps (λ w : BarWorld Srv, pat (bsrv w))).
Local Abbreviation gives := (gives J pat).
Implicit Types r : R.
Context `{!ServerOk J pat backlog} `{!ScreenOk J pat} `{!BarOk J pat owner}.

(** ** Destroying *)

Lemma gives_destroy_tray t : gives (destroy_tray t) (λ _, True).
Proof using All.
  unfold destroy_tray. gives_step. gives_step; [by apply gives_ret|]. eapply gives_bind.
  - apply gives_for_each. intros ic. do 2 gives_step. by repeat gives_step.
  - intros [] _. by repeat gives_step.
Qed.
Lemma wp_unregister win p (Φ : unit → R → Prop) r : inv r →
  (∀ r', inv r' → keeps r r' → world r' = world r → core_ r' = core_ r → Φ tt r') →
  wp (unregister_module_window win p) Φ r.
Proof using All.
  intros Hr HΦ. unfold unregister_module_window. do 2 wp_step.
  destruct (module_windows_by_id_ r !! win) as [q|]; [|by wp_step; apply HΦ].
  destruct (q =? p); wp_step; [|by apply HΦ]. destruct Hr as [Hc Hw Hm]. apply HΦ; [|by split|done..].
  split; [done|done|]. cbn. intros w q' [_ Hq]%lookup_delete_Some. by apply (Hm w q').
Qed.
Lemma wp_destroy_bar b r : inv r →
  wp (destroy_bar b) (λ _ r', inv r' ∧ keeps r r' ∧ bar (world r') = bar (world r) ∧ core_ r' = core_ r) r.
Proof using All.
  intros Hr. unfold destroy_bar. wp_step. eapply wp_mono with (Q := λ _ r', inv r' ∧ keeps r r' ∧
    bar (world r') = bar (world r) ∧ core_ r' = core_ r).
  - destruct (bw_tray b) as [t|]; [|by wp_step]. eapply wp_on_srv; [done|by apply gives_destroy_tray|].
    intros [] r' Hr' Hk' Eb Ec _ _. by split_and!.
  - cbv beta. intros [] r1 (Hr1 & Hk1 & Eb1 & Ec1). wp_step. apply wp_unregister; [done|].
    intros r2 Hr2 Hk2 Ew2 Ec2. eapply wp_on_srv; [done|by apply (gives_req J pat backlog)|].
    intros [] r3 Hr3 Hk3 Eb3 Ec3 _ _. split_and!; [done|by do 2 (etrans; [eassumption|])|congruence..].
Qed.
Lemma wp_clear_bars r : inv r →
  wp clear_bars (λ _ r', inv r' ∧ keeps r r' ∧ bars r' = [] ∧ core_ r' = core_ r ∧
    bar (world r') = (bar (world r)) <| all_bars_ := [] |>) r.
Proof using All.
  intros Hr. unfold clear_bars, bget. do 3 wp_step.
  eapply wp_mono; [apply (wp_for_each _ _ (λ r', inv r' ∧ keeps r r' ∧ bar (world r') = bar (world r) ∧ core_ r' = core_ r))|].
  - intros b r1 _ (Hr1 & Hk1 & Eb1 & Ec1). eapply wp_mono; [by apply wp_destroy_bar|]. cbv beta.
    intros [] r2 (Hr2 & Hk2 & Eb2 & Ec2). split_and!; [done|by etrans|congruence..].
  - by split_and!.
  - cbv beta. intros [] r1 ([Hc1 Hw1 Hm1] & [] & Eb1 & Ec1). unfold put_bars, bset. wp_step.
    split_and!; [by split|by split|done|done|]. cbn. by rewrite Eb1.
Qed.

(** ** Bars *)

Definition monitor_count r : Z := vsize (monitors (wsman (core_ r))).
Definition tops (l : list BarWindow) : list Z := bw_monitor <$> filter (λ b, bw_is_top b = true) l.
Lemma tops_app l l' : tops (l ++ l') = tops l ++ tops l'.
Proof using Type. unfold tops. by rewrite filter_app, fmap_app. Qed.
Lemma tops_cons b l : tops (b :: l) = (if bw_is_top b then [bw_monitor b] else []) ++ tops l.
Proof using Type. unfold tops. cbn. by destruct (bw_is_top b). Qed.
Lemma tops_none l : Forall (λ b, bw_is_top b = false) l → tops l = [].
Proof using Type. induction 1 as [|b l E _ IH]; [done|]. by rewrite tops_cons, E, IH. Qed.

Lemma wp_create_bar mon p sz cfg top r : inv r →
  wp (create_bar_window mon p sz cfg top) (λ _ r', inv r' ∧ keeps r r' ∧ core_ r' = core_ r ∧
    bar_set_cfg_ (bar (world r')) = bar_set_cfg_ (bar (world r)) ∧
    (bars r' = bars r ∨ ∃ win ptr, bars r' = bars r ++
       [mkBarWindow win ptr mon p (mkVec2 (Z.max 1 (x sz)) (Z.max 1 (bar_height cfg))) cfg top None])) r.
Proof using All.
  intros Hr. unfold create_bar_window, create_render_window. do 2 wp_step.
  eapply wp_mono; [by apply bo_new_window|]. cbv beta. intros o r1 (Hr1 & Hk1 & Eb1 & Ec1 & Ho).
  assert (bars r1 = bars r) as Ebars by (unfold bars; by rewrite Eb1).
  destruct o as [[win ptr]|]; [|do 2 wp_step; split_and!; [done|done|done|by rewrite Eb1|by left]].
  do 2 wp_step. destruct (bool_decide _); [do 2 wp_step; split_and!; [done|done|done|by rewrite Eb1|by left]|].
  do 3 wp_step. unfold bset. wp_step. destruct Hr1 as [Hc1 Hw1 Hm1], Hk1. split_and!.
  - split; [done|done|]. cbn. intros w q [[<- <-]|[_ Hq]]%lookup_insert_Some; [by eapply Ho|by apply (Hm1 w q)].
  - by split.
  - done.
  - cbn. by rewrite Eb1.
  - right. exists win, ptr. unfold bars. cbn. by rewrite Eb1.
Qed.

(** The area of the edge, exactly [px] wide. *)
Definition reserved (m : Monitor) (e : MonitorEdge) (px : Z) : Monitor :=
  if px - inset m e =? 0 then m else adjust_inset m e (px - inset m e).
Definition put_monitor (i : Z) (m : Monitor) (c : core) : core :=
  c <| wsman ::= λ s, s <| monitors ::= <[Z.to_nat i := m]> |> |>.
Lemma reserve_exact c i e px m : vget (monitors (wsman c)) i = Some m →
  dispatch_ReserveMonitorArea i e px c = Some (true, put_monitor i (reserved m e px) c).
Proof using Type.
  intros Hm. pose proof (vget_Some_range _ _ _ Hm) as Hr. unfold dispatch_ReserveMonitorArea, bind at 1, gets.
  rewrite (proj2 (Z.ltb_ge _ _)), (proj2 (Z.ltb_lt _ _)) by lia. unfold reserve_on, bind, checked. rewrite Hm. cbv zeta.
  unfold reserved, put_monitor. destruct (px - inset m e =? 0) eqn:E; cbn [negb].
  - pose proof (vget_lookup _ _ _ Hm) as (k & -> & Hk). unfold ret. do 2 f_equal.
    destruct c as [[] ? ? ? ? ? ? ? ? ? ? ? ?]. unfold upd. cbn in *. by rewrite Nat2Z.id, list_insert_id.
  - unfold on_wsman, zoom, modify, ret, adjust_monitor_inset. by rewrite Hm, E.
Qed.
Lemma wp_reserve i e px m r (Φ : unit → R → Prop) : inv r → vget (monitors (wsman (core_ r))) i = Some m →
  (∀ r', inv r' → keeps r r' → world r' = world r →
     monitors (wsman (core_ r')) = <[Z.to_nat i := reserved m e px]> (monitors (wsman (core_ r))) →
     settings (core_ r') = settings (core_ r) → Φ tt r') →
  wp (dispatch_ (ReserveMonitorArea i e px)) Φ r.
Proof using All.
  intros Hr Hm HΦ. pose proof (tame_dispatch _ (λ w : BarWorld Srv, pat (bsrv w)) owner (ReserveMonitorArea i e px) I r Hr) as Ht.
  revert Ht. unfold dispatch_, on_core, bind, zoom, wp. cbn [dispatch_atom].
  rewrite (reserve_exact _ _ _ _ _ Hm). unfold modify, ret. intros [Hi Hk]. apply HΦ; [done|done|..];
    unfold flush_sink; cbn; by destruct (event_sink _).
Qed.

Definition side_height (s : BarSide) : Z := match custom_side s with Some cfg => bar_height cfg | None => 0 end.
Lemma custom_side_height s cfg : custom_side s = Some cfg → 0 < bar_height cfg ∧ has_content cfg = true.
Proof using Type.
  unfold custom_side. destruct (side_state s); try done. intros [= <-]. destruct (bar_height _ <=? 0) eqn:E; cbn.
  - split; [unfold kBarDefaultHeight; lia|done].
  - split; [lia|]. unfold has_content. rewrite (proj2 (Z.ltb_lt _ _)) by lia. done.
Qed.
Lemma side_height_nonneg s : 0 ≤ side_height s.
Proof using Type. unfold side_height. destruct (custom_side s) eqn:E; [|done]. apply custom_side_height in E. lia. Qed.

(** A bar of the monitor [i], whose physical rectangle is [pp], [ps]. *)
Definition bar_of (i : Z) (pp ps : Vec2) (top_h bottom_h : Z) (b : BarWindow) : Prop :=
  bw_monitor b = i ∧ bw_tray b = None ∧ 0 < y (bw_size b) ∧ x (bw_size b) = Z.max 1 (x ps) ∧
  (if bw_is_top b then bw_pos b = pp ∧ y (bw_size b) = top_h
   else bw_pos b = mkVec2 (x pp) (y pp + y ps - bottom_h) ∧ y (bw_size b) = bottom_h).
(** What a side leaves: no more than one bar. *)
Lemma wp_side_bar s i p ps top r : inv r →
  wp (match custom_side s with
      | Some cfg => if has_content cfg then create_bar_window i (p (bar_height cfg)) ps cfg top ;; ret (bar_height cfg) else ret 0
      | None => ret 0
      end)
    (λ h r', h = side_height s ∧ inv r' ∧ keeps r r' ∧ core_ r' = core_ r ∧
       bar_set_cfg_ (bar (world r')) = bar_set_cfg_ (bar (world r)) ∧
       ∃ new, bars r' = bars r ++ new ∧ (length new ≤ 1)%nat ∧ Forall (λ b, 0 < h ∧ bw_monitor b = i ∧ bw_tray b = None ∧
         bw_is_top b = top ∧ bw_pos b = p h ∧ bw_size b = mkVec2 (Z.max 1 (x ps)) h) new) r.
Proof using All.
  intros Hr. unfold side_height. destruct (custom_side s) as [cfg|] eqn:E.
  - destruct (custom_side_height s cfg E) as [Hh ->]. wp_step. eapply wp_mono; [by apply wp_create_bar|]. cbv beta.
    intros [] r1 (H1 & K1 & C1 & S1 & Hb). wp_step. split_and!; [done..|]. destruct Hb as [Hb|(win & ptr & Hb)].
    + exists []. rewrite app_nil_r. split_and!; [done|cbn; lia|done].
    + eexists. split_and!; [exact Hb|cbn; lia|]. apply Forall_singleton. cbn. by rewrite (Z.max_r 1 (bar_height cfg)) by lia.
  - wp_step. split_and!; [done..|]. exists []. rewrite app_nil_r. split_and!; [done|cbn; lia|done].
Qed.

(** The sides of the monitor [i], and what becomes of the monitor. *)
Definition sides_of (cfg : BarSetConfig) (i : Z) (c : core) : MonitorBarConfig := bar_resolve cfg (monitor_alias i c).
Definition fitted (s : MonitorBarConfig) (m : Monitor) : Monitor :=
  reserved (reserved m Top (side_height (bar_top s))) Bottom (side_height (bar_bottom s)).
Definition cfg_of r : BarSetConfig := bar_set_cfg_ (bar (world r)).

Lemma wp_rebuild_monitor i m r : inv r → vget (monitors (wsman (core_ r))) i = Some m →
  let s := sides_of (cfg_of r) i (core_ r) in
  wp (rebuild_monitor i) (λ _ r', inv r' ∧ keeps r r' ∧ cfg_of r' = cfg_of r ∧ settings (core_ r') = settings (core_ r) ∧
    monitors (wsman (core_ r')) = <[Z.to_nat i := fitted s m]> (monitors (wsman (core_ r))) ∧
    ∃ new, bars r' = bars r ++ new ∧ (tops new = [] ∨ tops new = [i]) ∧
      Forall (bar_of i (physical m).1 (physical m).2 (side_height (bar_top s)) (side_height (bar_bottom s))) new) r.
Proof using All.
  intros Hr Hm. cbv zeta. unfold rebuild_monitor, cget, bget. do 4 wp_step.
  change (bar_resolve _ _) with (sides_of (cfg_of r) i (core_ r)). set (s := sides_of _ _ _).
  wp_step. eapply wp_checked; [exact Hm|]. destruct (physical m) as [pp ps]. cbn [fst snd].
  wp_step. eapply wp_mono; [apply (wp_side_bar (bar_top s) i (λ _, pp) ps true); exact Hr|]. cbv beta.
  intros top_h r1 (-> & H1 & K1 & C1 & S1 & new1 & B1 & L1 & F1). wp_step.
  eapply wp_mono; [apply (wp_side_bar (bar_bottom s) i (λ h, mkVec2 (x pp) (y pp + y ps - h)) ps false); exact H1|]. cbv beta.
  intros bottom_h r2 (-> & H2 & K2 & C2 & S2 & new2 & B2 & L2 & F2). wp_step.
  apply (wp_reserve _ _ _ m); [done|congruence|]. intros r3 H3 K3 W3 M3 T3.
  pose proof (vget_Some_range _ _ _ Hm) as Hi.
  assert (vget (monitors (wsman (core_ r3))) i = Some (reserved m Top (side_height (bar_top s)))) as Hm3.
  { rewrite M3. apply vget_insert_eq. rewrite C2, C1. exact Hi. }
  apply (wp_reserve _ _ _ (reserved m Top (side_height (bar_top s)))); [done|exact Hm3|]. intros r4 H4 K4 W4 M4 T4.
  split_and!; [done|by do 3 (etrans; [eassumption|])|by unfold cfg_of; rewrite W4, W3, S2|congruence| |].
  - by rewrite M4, M3, list_insert_insert_eq, C2, C1.
  - exists (new1 ++ new2). split_and!.
    + unfold bars in *. by rewrite W4, W3, B2, B1, app_assoc.
    + rewrite tops_app, (tops_none new2), app_nil_r by (eapply Forall_impl; [exact F2|]; by intros b (_ & _ & _ & ? & _)).
      destruct new1 as [|b [|]]; [by left| |cbn in L1; lia]. apply Forall_singleton in F1 as (_ & E & _ & Et & _).
      right. by rewrite tops_cons, Et, E.
    + apply Forall_app. split; eapply Forall_impl; [exact F1| |exact F2|]; intros b (? & ? & ? & Et & Ep & Es);
        unfold bar_of; rewrite Et, Es; cbn; by split_and!.
Qed.

(** The bars of the monitors below [k] are built, from the runtime [r0]. *)
Definition mons r : list Monitor := monitors (wsman (core_ r)).
Definition fitted_at r0 (i : Z) (m : Monitor) : Monitor := fitted (sides_of (cfg_of r0) i (core_ r0)) m.
Definition built_bar r0 (k : Z) (b : BarWindow) : Prop :=
  ∃ i m, i < k ∧ vget (mons r0) i = Some m ∧
    let s := sides_of (cfg_of r0) i (core_ r0) in
    bar_of i (physical m).1 (physical m).2 (side_height (bar_top s)) (side_height (bar_bottom s)) b.
Record built r0 (k : Z) r : Prop := {
  bu_inv : inv r;
  bu_keeps : keeps r0 r;
  bu_cfg : cfg_of r = cfg_of r0;
  bu_settings : settings (core_ r) = settings (core_ r0);
  bu_count : length (mons r) = length (mons r0);
  bu_done : ∀ i m, i < k → vget (mons r0) i = Some m → vget (mons r) i = Some (fitted_at r0 i m);
  bu_rest : ∀ i, k ≤ i → vget (mons r) i = vget (mons r0) i;
  bu_bars : Forall (built_bar r0 k) (bars r);
  bu_tops : NoDup (tops (bars r)) ∧ ∀ m, m ∈ tops (bars r) → m < k }.

Lemma sides_of_same cfg i c c' : vget (monitors (wsman c')) i = vget (monitors (wsman c)) i → settings c' = settings c →
  sides_of cfg i c' = sides_of cfg i c.
Proof using Type. intros Em Es. unfold sides_of, monitor_alias. by rewrite Em, Es. Qed.

Lemma built_step r0 k r : 0 ≤ k < vsize (mons r0) → built r0 k r →
  wp (rebuild_monitor k) (λ _ r', built r0 (k + 1) r') r.
Proof using All.
  intros Hk [Hi Hkeep Hc Hs Hn Hdone Hrest Hb [Ht1 Ht2]].
  destruct (vget_is_Some (mons r0) k Hk) as [m Hm]. pose proof (Hrest k ltac:(lia)) as Hmk. rewrite Hm in Hmk.
  eapply wp_mono; [by apply (wp_rebuild_monitor k m r)|]. cbv beta zeta.
  rewrite (sides_of_same _ _ (core_ r0) (core_ r)), Hc; [|exact (Hrest k ltac:(lia))|done].
  intros [] r' (Hi' & Hk' & Hc' & Hs' & Hm' & new & Hb' & Hnew & Hf).
  assert (Hvk : vget (mons r') k = Some (fitted_at r0 k m)).
  { unfold mons in *. rewrite Hm'. apply vget_insert_eq. exact (vget_Some_range _ _ _ Hmk). }
  assert (Hvo : ∀ i, i ≠ k → vget (mons r') i = vget (mons r) i).
  { intros i Hne. unfold mons in *. rewrite Hm'. apply vget_insert_ne; [lia|congruence]. }
  split.
  - done.
  - by etrans.
  - done.
  - congruence.
  - unfold mons in *. by rewrite Hm', length_insert.
  - intros i m' Hlt Hv. destruct (decide (i = k)) as [->|Hne]; [congruence|].
    rewrite Hvo by done. apply Hdone; [lia|done].
  - intros i Hle. rewrite Hvo by lia. apply Hrest. lia.
  - rewrite Hb'. apply Forall_app. split.
    + eapply Forall_impl; [exact Hb|]. intros b (i & m' & Hlt & H'). exists i, m'. split; [lia|done].
    + eapply Forall_impl; [exact Hf|]. intros b Hbar. exists k, m. split_and!; [lia|done|exact Hbar].
  - rewrite Hb', tops_app. split.
    + apply NoDup_app. split_and!; [done| |destruct Hnew as [->| ->]; [constructor|apply NoDup_singleton]].
      intros i Hin. specialize (Ht2 i Hin). destruct Hnew as [->| ->]; [by apply not_elem_of_nil|].
      intros ->%list_elem_of_singleton. lia.
    + intros i [Hin|Hin]%elem_of_app; [specialize (Ht2 i Hin); lia|].
      destruct Hnew as [E|E]; rewrite E in Hin; [by apply elem_of_nil in Hin|]. apply list_elem_of_singleton in Hin. lia.
Qed.
Lemma wp_rebuild_bars r : inv r → wp rebuild_bars (λ _ r', built r (vsize (mons r)) r') r.
Proof using All.
  intros Hr. unfold rebuild_bars, cget. wp_step. eapply wp_mono; [by apply wp_clear_bars|]. cbv beta.
  intros [] r1 (H1 & K1 & B1 & C1 & W1). do 2 wp_step. rewrite C1.
  assert (built r 0 r1) as Hbuilt.
  { split.
    - done.
    - done.
    - unfold cfg_of. by rewrite W1.
    - by rewrite C1.
    - unfold mons. by rewrite C1.
    - intros i m Hlt Hv. apply vget_Some_range in Hv. lia.
    - intros i _. unfold mons. by rewrite C1.
    - rewrite B1. done.
    - rewrite B1. split; [constructor|by intros m ?%elem_of_nil]. }
  change (monitors (wsman (core_ r))) with (mons r).
  eapply wp_mono; [apply (wp_for_each_prefix _ _ (λ pre r', built r (vsize pre) r'))|].
  - intros pre a post r2 E H2.
    assert (a = vsize pre) as ->.
    { assert (range (vsize (mons r)) !! length pre = Some a) as Hl by (rewrite E, list_lookup_middle; done).
      unfold range in Hl. rewrite list_lookup_fmap, fmap_Some in Hl. destruct Hl as (j & Hj & ->).
      apply lookup_seq in Hj as [-> _]. done. }
    replace (vsize (pre ++ [vsize pre])) with (vsize pre + 1) by (unfold vsize; rewrite length_app; cbn; lia).
    apply built_step; [|exact H2]. pose proof (f_equal length E) as El. unfold range in El.
    rewrite length_fmap, length_seq, length_app in El. cbn in El. pose proof (vsize_nonneg (mons r)).
    unfold vsize in *. lia.
  - exact Hbuilt.
  - cbv beta. intros [] r2 H2. replace (vsize (mons r)) with (vsize (range (vsize (mons r)))); [done|].
    unfold vsize at 1, range. rewrite length_fmap, length_seq. pose proof (vsize_nonneg (mons r)). lia.
Qed.

(** ** Trays *)

(** The trays of the bars below [i] are built; only the owner's has icons. *)
Record trayed r0 (l0 : list BarWindow) (om : Z) (k : nat) r : Prop := {
  ty_inv : inv r;
  ty_keeps : keeps r0 r;
  ty_bars : alike l0 (bars r);
  ty_ok : Forall tray_ok (trays r);
  ty_rest : ∀ j o, (k ≤ j)%nat → trays r !! j = Some o → o = None;
  ty_once : NoDup (all_icons (trays r));
  ty_owner : all_icons (trays r) ≠ [] → ∃ j b, (j < k)%nat ∧ l0 !! j = Some b ∧ bw_is_top b = true ∧ bw_monitor b = om }.

Lemma tops_distinct l i j b b' : NoDup (tops l) → l !! i = Some b → l !! j = Some b' → bw_is_top b = true →
  bw_is_top b' = true → bw_monitor b = bw_monitor b' → i = j.
Proof using Type.
  revert i j. induction l as [|a l IH]; intros i j Hn Hi Hj Hb Hb' E; [done|]. rewrite tops_cons in Hn.
  assert (∀ k c, l !! k = Some c → bw_is_top c = true → bw_monitor c ∈ tops l) as Hin.
  { intros k c Hk Hc. unfold tops. apply list_elem_of_fmap_2, list_elem_of_filter. split; [done|by eapply list_elem_of_lookup_2]. }
  destruct i as [|i], j as [|j]; cbn in Hi, Hj; try done.
  - injection Hi as ->. rewrite Hb in Hn. cbn in Hn. apply NoDup_cons in Hn as [Hn _].
    destruct Hn. rewrite E. by eapply Hin.
  - injection Hj as ->. rewrite Hb' in Hn. cbn in Hn. apply NoDup_cons in Hn as [Hn _].
    destruct Hn. rewrite <- E. by eapply Hin.
  - f_equal. apply (IH i j); [|done..]. by apply NoDup_app in Hn as (_ & _ & Hn).
Qed.

Lemma trayed_more r0 l0 om k r r' : trayed r0 l0 om k r → inv r' → keeps r r' → bar (world r') = bar (world r) →
  trayed r0 l0 om (S k) r'.
Proof using Type.
  intros [] Hi Hk Eb. assert (bars r' = bars r) as Ebars by (unfold bars; by rewrite Eb).
  assert (trays r' = trays r) as Et by (unfold trays; by rewrite Ebars).
  split; rewrite ?Ebars, ?Et; [done|by etrans|done|done| |done|].
  - intros j o Hj. apply ty_rest0. lia.
  - intros (j & b & ? & ?)%ty_owner0. exists j, b. split; [lia|done].
Qed.
Lemma trayed_step r0 l0 om k r b : trayed r0 l0 om k r → NoDup (tops l0) → l0 !! k = Some b → 0 ≤ y (bw_size b) →
  wp (build_tray om k) (λ _ r', trayed r0 l0 om (S k) r') r.
Proof using All.
  intros Ht Hn Hb Hy. pose proof Ht as [Hi Hkp Hal Hok Hrest Honce Hown].
  destruct (Forall2_lookup_l _ _ _ _ _ Hal Hb) as (b' & Hb' & (_ & _ & Em & _ & Es & Et & _)).
  unfold build_tray. wp_step. eapply wp_checked; [exact Hb'|]. rewrite <- Et, <- Em.
  destruct (bw_is_top b) eqn:Etop; cbn [negb]; [|wp_step; by eapply trayed_more].
  unfold create_tray. destruct has_tray_port; cbn [negb]; [|do 2 wp_step; by eapply trayed_more].
  unfold cget. do 3 wp_step. cbv zeta. wp_step. eapply wp_on_srv; [done|apply (gives_create J pat backlog); by rewrite <- Es|].
  intros t r1 Hi1 Hk1 Eb1 _ _ (Hwf & Hnd & _ & Hown1). wp_step.
  assert (trayed r0 l0 om (S k) r1) as H1 by by eapply trayed_more.
  destruct (tray_win_ t =? NO_WINDOW) eqn:Ew.
  { eapply wp_on_srv; [done|by apply gives_destroy_tray|]. intros [] r2 Hi2 Hk2 Eb2 _ _ _.
    assert (bars r2 = bars r1) as Ebars by (unfold bars; by rewrite Eb2).
    assert (trays r2 = trays r1) as Etr by (unfold trays; by rewrite Ebars).
    destruct H1. split; rewrite ?Ebars, ?Etr; [done|by etrans|done..]. }
  assert (bars r1 = bars r) as Ebars by (unfold bars; by rewrite Eb1).
  assert (trays r1 = trays r) as Etr by (unfold trays; by rewrite Ebars).
  assert (trays r !! k = Some None) as Hk0.
  { destruct (trays r !! k) as [o|] eqn:Eo; [by rewrite (Hrest k o) by done|].
    unfold trays in Eo. by rewrite list_lookup_fmap, Hb' in Eo. }
  eapply (wp_put_tray J pat owner k None); [by rewrite Etr|]. intros r2 Hal2 Et2 Hi2 Hk2 _. rewrite Etr in Et2.
  destruct (all_icons_insert _ _ _ (Some t) Hk0) as (rest & P1 & P2). cbn in P1, P2. rewrite <- Et2 in P2.
  assert (bw_monitor b ≠ om → icon_windows t = []) as Hempty.
  { intros Hne. unfold icon_windows. by rewrite Hown1 by (by apply Z.eqb_neq). }
  assert (rest ≠ [] → bw_monitor b ≠ om) as Hother.
  { intros Hne Eq. destruct Hown as (j & b2 & Hj & Hb2 & Etop2 & Em2).
    - intros E0. rewrite E0 in P1. by apply Permutation_nil_l in P1.
    - pose proof (tops_distinct l0 j k b2 b Hn Hb2 Hb Etop2 Etop ltac:(congruence)). lia. }
  destruct H1. split.
  - auto.
  - by etrans.
  - by etrans.
  - rewrite Et2. apply Forall_insert; [done|]. split; [done|]. unfold NO_WINDOW, XCB_NONE in *. lia.
  - intros j o Hj. rewrite Et2, list_lookup_insert_ne by lia. apply Hrest. lia.
  - rewrite P2. destruct (decide (bw_monitor b = om)) as [Eq|Hne].
    + destruct rest as [|w rest]; [by rewrite app_nil_r|]. by destruct (Hother ltac:(done) Eq).
    + rewrite Hempty by done. rewrite P1 in Honce. done.
  - intros Hne. destruct (decide (bw_monitor b = om)) as [Eq|Hneq]; [exists k, b; split_and!; [lia|done..]|].
    destruct Hown as (j & b2 & Hj & H2).
    + intros E0. apply Hne. apply Permutation_nil_r. rewrite P2, Hempty by done. cbn. by rewrite <- P1, E0.
    + exists j, b2. split; [lia|done].
Qed.

(** Bars that wait for their trays. *)
Definition bare (l : list BarWindow) : Prop := Forall (λ b, bw_tray b = None ∧ 0 ≤ y (bw_size b)) l ∧ NoDup (tops l).
Lemma built_bare r0 k r : built r0 k r → bare (bars r).
Proof using Type.
  intros [_ _ _ _ _ _ _ Hb [Ht _]]. split; [|done]. eapply Forall_impl; [exact Hb|].
  intros b (i & m & _ & _ & _ & Hn & Hy & _). split; [done|lia].
Qed.
Lemma wp_rebuild_trays r : inv r → bare (bars r) →
  wp rebuild_trays (λ _ r', inv r' ∧ keeps r r' ∧ alike (bars r) (bars r') ∧ Forall tray_ok (trays r') ∧
    NoDup (all_icons (trays r'))) r.
Proof using All.
  intros Hi [Hb Ht]. unfold rebuild_trays, cget, bget. do 4 wp_step.
  change (all_bars_ (bar (world r))) with (bars r). set (om := owner_monitor _ _).
  assert (Forall (λ o, o = None) (trays r)) as Hnone.
  { apply Forall_fmap. eapply Forall_impl; [exact Hb|]. by intros b [? _]. }
  assert (all_icons (trays r) = []) as Enil.
  { induction Hnone as [|o l Ho _ IH]; [done|]. rewrite Ho. exact IH. }
  assert (trayed r (bars r) om 0 r) as H0.
  { split; [done|done|done| | |rewrite Enil; constructor|by rewrite Enil].
    - eapply Forall_impl; [exact Hnone|]. by intros o ->.
    - intros j o _ Ho. by eapply (proj1 (Forall_lookup _ _) Hnone). }
  eapply wp_mono; [apply (wp_for_each_prefix _ _ (λ pre r', trayed r (bars r) om (length pre) r'))|].
  - intros pre i post r1 E H1.
    assert (i = length pre ∧ (i < length (bars r))%nat) as [-> Hlt].
    { assert (seq 0 (length (bars r)) !! length pre = Some i) as Hl by (rewrite E, list_lookup_middle; done).
      by apply lookup_seq in Hl as [-> ?]. }
    destruct (lookup_lt_is_Some_2 _ _ Hlt) as [b Hbi]. rewrite length_app, Nat.add_1_r.
    apply (trayed_step r (bars r) om (length pre) r1 b); [done|done|done|].
    eapply Forall_lookup in Hb; [|exact Hbi]. apply Hb.
  - exact H0.
  - cbv beta. intros [] r1 []. by split_and!.
Qed.

(** What the module keeps: no icon is listed twice. *)
Definition bar_ok r : Prop := inv r ∧ Forall tray_ok (trays r) ∧ NoDup (all_icons (trays r)).
Definition fine {A} (m : M R A) : Prop := ∀ r, bar_ok r → wp m (λ _ r', bar_ok r' ∧ keeps r r') r.
Lemma fine_moves {A} T (m : M R A) : (∀ l l', T l l' → one_place l l') → moves J pat owner anywhere T m → fine m.
Proof using Type.
  intros HT Hm r (Hi & Ht & Hn). eapply wp_mono; [by apply Hm|]. cbv beta. intros a r' []. split; [|done].
  split_and!; [done|done|]. by eapply HT.
Qed.
Lemma fine_bind {A B} (m : M R A) (k : A → M R B) : fine m → (∀ a, fine (k a)) → fine (bind m k).
Proof using Type.
  intros Hm Hk r Hr. wp_step. eapply wp_mono; [by apply Hm|]. cbv beta. intros a r1 [H1 K1].
  eapply wp_mono; [by apply Hk|]. cbv beta. intros b r2 [H2 K2]. split; [done|by etrans].
Qed.
Lemma wp_dispatch_world cmd r : inv r → atom_ok cmd →
  wp (dispatch_ cmd) (λ _ r', inv r' ∧ keeps r r' ∧ world r' = world r) r.
Proof using All.
  intros Hr Hcmd. pose proof (tame_dispatch _ (λ w : BarWorld Srv, pat (bsrv w)) owner cmd Hcmd r Hr) as Ht.
  revert Ht. unfold dispatch_, on_core, bind, zoom, wp, modify, ret.
  destruct (dispatch_atom cmd (core_ r)) as [[a c]|]; [|done]. intros [? ?]. split_and!; [done|done|].
  unfold flush_sink. cbn. by destruct (event_sink c).
Qed.
Lemma fine_rebuild (k : M R unit) : fine k → fine (rebuild_bars ;; dispatch_ ReconcileNow ;; rebuild_trays ;; k).
Proof using All.
  intros Hk r (Hi & _). wp_step. eapply wp_mono; [by apply wp_rebuild_bars|]. cbv beta. intros [] r1 H1.
  pose proof (built_bare _ _ _ H1) as Hbare. wp_step.
  eapply wp_mono; [apply wp_dispatch_world; [apply H1|done]|]. cbv beta. intros [] r2 (H2 & K2 & W2).
  assert (bare (bars r2)) as Hbare2 by (unfold bars in *; by rewrite W2).
  wp_step. eapply wp_mono; [by apply wp_rebuild_trays|]. cbv beta. intros [] r3 (H3 & K3 & _ & Hok3 & Hn3).
  eapply wp_mono; [apply Hk; by split_and!|]. cbv beta. intros [] r4 [H4 K4]. split; [done|].
  destruct H1. by do 3 (etrans; [eassumption|]).
Qed.
End Build.
