(* ===== verification/BarProps.v ===== *)
(** * Claims about the bars and the system tray *)

From S2P Require Import Prelude TextStream Geometry Workspace WorkspaceManager WindowIndex ManagerInv ManagerOps.
From S2P Require Import Events Commands Protocol Core Dispatch CoreSafe CoreRun CoreSpecs.
From S2P Require Import CoreProps EventQueue.
From S2P Require Import ConfigValue ConfigRuntime RuntimeStore Runtime LifecycleSafe BackendSafe.
From S2P Require Import X11Server X11Backend X11Safe TrayHost TrayProps BarSetup BarModule BarSafe.
From S2P Require Import BarBuild.
Local Open Scope Z_scope.

(** ** Icons *)

(** The mapped icons of a tray stand in a row: inside the tray and the bar, each
    after the one before. *)
Definition laid_out (t : TrayHost) : Prop :=
  (∀ a, a ∈ icons_ t → ic_mapped a = true →
     ICON_SPACING ≤ x (ic_pos a) ∧ x (ic_pos a) + x (ic_size a) + ICON_SPACING ≤ tray_w_ t ∧
     0 ≤ y (ic_pos a) ∧ y (ic_pos a) + y (ic_size a) ≤ bar_h_ t) ∧
  ∀ i j a b, (i < j)%nat → icons_ t !! i = Some a → icons_ t !! j = Some b → ic_mapped a = true → ic_mapped b = true →
    x (ic_pos a) + x (ic_size a) + ICON_SPACING ≤ x (ic_pos b).
Lemma wf_laid_out t : wf_tray t → tray_win_ t ≠ XCB_NONE → laid_out t.
Proof.
  intros (Hh & Hs & Hr) Hw. unfold in_row in Hr. destruct (tray_win_ t =? XCB_NONE) eqn:E; [lia|].
  destruct Hr as (e & Hr & Ew). split.
  - intros a Ha Hm. apply list_elem_of_lookup in Ha as [i Hi].
    destruct (row_right _ _ _ _ i a Hs Hr Hi Hm) as (? & ? & ? & ?).
    assert (sized a) as [Hx _] by (eapply Forall_lookup in Hs; [exact Hs|exact Hi]).
    rewrite Ew. unfold width_of, ICON_SPACING in *. destruct (2 <? e) eqn:?; lia.
  - intros i j a b Hij Hi Hj Ha Hb. by eapply row_apart.
Qed.

(** C23: a button over an icon is that icon's.  In a tray in order, a press or a
    release at a point of the tray's window is sent on to the one mapped icon
    under the point, at the point's place in the icon, and to nobody if there is
    no icon there. *)
Theorem click_reaches_icon {Srv} `{!XServer Srv} `{!XScreen Srv} t root_pos p time button state release (s : Srv) :
  wf_tray t → tray_win_ t ≠ XCB_NONE → tray_win_ t ≠ bar_win_ t →
  let click := handle_button_event (tray_win_ t) root_pos p time button state release t s in
  (∀ a, a ∈ icons_ t → ic_mapped a = true → in_icon (x p) (y p) a = true →
     click = Some (true, x_request (XSendEvent (ic_win a) XCB_EVENT_MASK_NO_EVENT
       (SentButton release (ic_win a) button time x_root root_pos
          (mkVec2 (to_i16 (x p - x (ic_pos a))) (to_i16 (y p - y (ic_pos a)))) state)) s)) ∧
  ((∀ a, a ∈ icons_ t → ic_mapped a = true → in_icon (x p) (y p) a = false) → click = Some (false, s)).
Proof.
  intros Hwf Hw Hb. cbv zeta. unfold handle_button_event.
  rewrite (proj2 (Z.eqb_neq (tray_win_ t) XCB_NONE)), (proj2 (Z.eqb_neq (tray_win_ t) (bar_win_ t))) by done.
  rewrite Z.eqb_refl. cbn [negb orb andb]. split.
  - intros a Ha Hm Hin. destruct (wf_laid_out t Hwf Hw) as [Hl _]. pose proof (Hl a Ha Hm) as Ha'.
    assert (find_icon_at (x p) (y p) (icons_ t) = Some a) as Hf.
    { unfold find_icon_at. destruct (List.find _ _) as [b|] eqn:E.
      - apply find_some in E as [Hb' Hb2]. apply andb_true_iff in Hb2 as [Hmb Hinb].
        apply list_elem_of_In in Hb'. f_equal. symmetry. by apply (point_in_one_icon t a b (x p) (y p)).
      - apply list_elem_of_In in Ha. pose proof (find_none _ _ E a Ha) as Hn. cbv beta in Hn. by rewrite Hm, Hin in Hn. }
    unfold in_icon in Hin. unfold ICON_SPACING in *.
    rewrite (proj2 (Z.leb_gt _ _)) by lia. cbv zeta.
    destruct ((x p <? 0) || (y p <? 0) || (tray_w_ t <=? x p) || (bar_h_ t <=? y p)) eqn:E; [lia|].
    rewrite Hf. unfold req, modify, bind, ret. by rewrite !Z.max_r by lia.
  - intros Hn. destruct (tray_w_ t <=? 0); [done|]. cbv zeta. destruct (_ || _); [done|].
    unfold find_icon_at. destruct (List.find _ _) as [b|] eqn:E; [|done].
    apply find_some in E as [Hb' Hb2]. apply andb_true_iff in Hb2 as [Hmb Hinb].
    apply list_elem_of_In in Hb'. by rewrite (Hn b Hb' Hmb) in Hinb.
Qed.

Section Icons.
Context {Srv : Type} `{!XServer Srv} `{!XScreen Srv} `{!Env (BarWorld Srv)} `{!BarEnv Srv}.
Context (J : Srv → Prop) (pat backlog : Srv → nat) (owner : Z → string).
Local Abbreviation R := (Runtime (BarWorld Srv)).
Local Abbreviation inv := (inv (λ w : BarWorld Srv, J (bsrv w)) owner).
Local Abbreviation keeps := (keeps (λ w : BarWorld Srv, pat (bsrv w))).
Context `{!ServerOk J pat backlog} `{!ScreenOk J pat} `{!BarOk J pat owner}.
Implicit Types r : R.
Local Abbreviation bar_ok := (bar_ok J owner).
Local Abbreviation fine := (fine J pat owner).

(** The invariant, in words of the icons. *)
Definition icons_sorted_out r : Prop :=
  NoDup (all_icons (trays r)) ∧ ∀ t, Some t ∈ trays r → laid_out t.

Lemma bar_ok_icons r : bar_ok r → icons_sorted_out r.
Proof using Type.
  intros (_ & Hok & Hn). split; [done|]. intros t Ht. rewrite Forall_forall in Hok. destruct (Hok _ Ht). by apply wf_laid_out.
Qed.

Lemma one_of_views l l' : same_views l l' → one_place l l'.
Proof using Type. by intros ?%same_views_all%same_all_one. Qed.
Lemma one_of_eq l l' : l = l' → one_place l l'.
Proof using Type. by intros ->. Qed.
Lemma one_of_all l l' : same_all l l' → one_place l l'.
Proof using Type. apply same_all_one. Qed.

Ltac fine_by rel lem := eapply fine_moves; [rel|apply (lem J pat backlog); apply _].
Lemma fine_redraw : fine redraw.
Proof using All. fine_by ltac:(apply one_of_views) moves_redraw. Qed.
Lemma fine_prime : fine prime_widgets.
Proof using All. fine_by ltac:(apply one_of_eq) moves_prime_widgets. Qed.
Lemma fine_raise_all : fine raise_all.
Proof using All. fine_by ltac:(apply one_of_eq) moves_raise_all. Qed.
Lemma fine_rebalance : fine rebalance_tray_icons.
Proof using All. fine_by ltac:(apply one_of_all) moves_rebalance. Qed.
Lemma fine_absorb : fine absorb_config.
Proof using All.
  apply (fine_moves _ _ _ eq); [apply one_of_eq|]. unfold absorb_config. moves_step; [moves_step|].
  apply moves_set; [apply _|by intros m|by intros m].
Qed.
Lemma fine_ret : fine (ret tt).
Proof using All. eapply fine_moves; [apply one_of_eq|]. moves_step. Qed.
Lemma fine_display_change : fine on_display_change.
Proof using All.
  apply fine_rebuild with backlog; try apply _. apply fine_bind; [apply fine_rebalance|intros _].
  apply fine_bind; [apply fine_raise_all|intros _]. apply fine_bind; [apply fine_prime|intros _; apply fine_redraw].
Qed.
Lemma fine_start : fine bar_on_start.
Proof using All.
  apply fine_bind; [apply fine_absorb|intros _]. apply fine_rebuild with backlog; try apply _.
  apply fine_bind; [apply fine_prime|intros _; apply fine_redraw].
Qed.
Lemma fine_stop : fine stop_runtime.
Proof using All.
  apply fine_bind; [|intros _].
  - apply (fine_moves _ _ _ eq); [apply one_of_eq|]. apply moves_set; [apply _|by intros m|by intros m].
  - intros r (Hi & _ & _). eapply wp_mono; [by apply (wp_clear_bars J pat backlog owner)|]. cbv beta.
    intros [] r' (Hi' & Hk & Eb & _). unfold BarBuild.bar_ok, trays. rewrite Eb. split_and!; [done|constructor|constructor|done].
Qed.

(** What the module may be told: an icon that came back to the root window is not
    in a tray other than the selection owner's. *)
Definition fair_event (ev : Event) r : Prop :=
  match ev with
  | CustomEvent msg => ∀ d, unpack IconDocked msg = Some d → unlisted (icon d) (bars r)
  | _ => True
  end.
Lemma fine_event ev r : bar_ok r → fair_event ev r → wp (bar_on ev) (λ _ r', bar_ok r' ∧ keeps r r') r.
Proof using All.
  intros Hr Hf. destruct ev; cbn [bar_on fair_event] in *; try by apply fine_redraw.
  all: try by apply fine_ret.
  - clear Hf. revert r Hr. fine_by ltac:(apply one_of_views) moves_unmap.
  - clear Hf. revert r Hr. fine_by ltac:(apply one_of_views) moves_expose.
  - apply fine_bind; [apply fine_raise_all|intros _; apply fine_redraw|done].
  - by apply fine_display_change.
  - apply fine_bind; [apply fine_prime|intros _; apply fine_redraw|done].
  - clear Hf. revert r Hr. fine_by ltac:(apply one_of_views) moves_button.
  - clear Hf. revert r Hr. fine_by ltac:(done) moves_destroy.
  - clear Hf. revert r Hr. fine_by ltac:(apply one_of_views) moves_configure.
  - clear Hf. revert r Hr. fine_by ltac:(apply one_of_views) moves_property.
  - apply fine_bind; [apply fine_rebalance|intros _; apply fine_redraw|done].
  - destruct (unpack IconDocked msg) as [d|].
    + destruct Hr as (Hi & Hok & Hn). eapply wp_mono; [apply (wp_docked J pat backlog); try apply _; [done|done|by apply Hf]|].
      cbv beta. intros [] r' []. split; [|done]. split_and!; [done|done|auto].
    + destruct (unpack LayoutChanged msg); [by apply fine_redraw|by apply fine_ret].
Qed.

(** C7: the system tray stays in order.  Whatever the X server answers, class names
    being terminated ([ServerOk]), and whatever event arrives, the bar module's start, stop, reload, redraw, event and
    message handlers return without undefined behaviour and keep the core's
    invariant, and afterwards every icon is listed by one tray only and the mapped
    icons of each tray stand side by side without overlap, inside the tray and the
    height of its bar.  This is so provided that an icon that comes back to the root
    window is in no tray but the selection owner's when the module is told
    ([fair_event]; otherwise see [redocked_icon_listed_twice]). *)
Theorem tray_icons_in_order r : bar_ok r →
  let ok {A} (m : M R A) := wp m (λ _ r', bar_ok r' ∧ icons_sorted_out r' ∧ keeps r r') r in
  ok bar_on_start ∧ ok bar_on_reload ∧ ok stop_runtime ∧ ok redraw ∧ ok refresh_widgets ∧
  (∀ win type data, ok (on_client_message win type data)) ∧ ∀ ev, fair_event ev r → ok (bar_on ev).
Proof using All.
  intros Hr. cbv zeta.
  assert (∀ A (m : M R A), wp m (λ _ r', bar_ok r' ∧ keeps r r') r →
    wp m (λ _ r', bar_ok r' ∧ icons_sorted_out r' ∧ keeps r r') r) as Hw.
  { intros A m Hm. eapply wp_mono; [exact Hm|]. intros a r' [H1 H2]. split_and!; [done|by apply bar_ok_icons|done]. }
  split_and!; [apply Hw, fine_start, Hr|apply Hw, fine_absorb, Hr|apply Hw, fine_stop, Hr|apply Hw, fine_redraw, Hr| | |].
  - apply Hw. clear Hw. revert r Hr. fine_by ltac:(apply one_of_eq) moves_refresh.
  - intros win type data. apply Hw. clear Hw. revert r Hr. fine_by ltac:(done) moves_client_message.
  - intros ev Hf. by apply Hw, fine_event.
Qed.

Lemma routed_keeps_icons win target :
  moves J pat owner anywhere same_all (route_icon_to_monitor win target ;; redraw).
Proof using All.
  apply moves_bind; [apply _|apply _|apply (moves_route J pat backlog); apply _|intros _].
  apply (moves_lift _ _ _ same_views); [by intros l l' ?%same_views_all|apply (moves_redraw J pat backlog); apply _].
Qed.

(** C38: an icon that comes back to the root window while a tray other than the
    selection owner's lists it is listed twice from then on: the handler of
    [IconDocked] asks the owner's tray only.  This happens after every change of
    the displays: the old trays give their icons back to the root window, the new
    owner adopts them as it is built, the rebalancing moves some to other trays,
    and only then the notifications of the first step arrive. *)
Theorem redocked_icon_listed_twice r win i t : bar_ok r → owner_tray (bars r) = Some (i, t) →
  (win ∉ icon_windows t) → win ∈ all_icons (trays r) → embeddable J win → small J win →
  wp (on_icon_docked win) (λ _ r', ¬ NoDup (all_icons (trays r')) ∧ all_icons (trays r') ≡ₚ win :: all_icons (trays r)) r.
Proof using All.
  intros (Hr & Hok & _) Ei Hn Hin He Hsm. unfold on_icon_docked, bget. do 3 wp_step.
  change (all_bars_ (bar (world r))) with (bars r). rewrite Ei.
  rewrite (proj2 (not_icon win (icons_ t)) Hn).
  pose proof (first_tray_trays _ _ _ _ Ei) as Hi. destruct (tray_ok_at r i t Hok Hi) as [Hwf Hw].
  assert (selection_owner_ t = true) as Ho.
  { apply first_tray_Some in Ei as (b & _ & Eb & Hs). by rewrite Eb in Hs. }
  eapply wp_mono with (Q := λ _ r', moved J pat owner (λ l l', all_icons l' ≡ₚ win :: all_icons l) r r').
  - apply (from_tray J pat backlog owner (bars r) _ _ Datatypes.id (λ t', becomes t (icon_windows t ++ [win]) t') i t); try done.
    + by eapply first_tray_at.
    + intros _. eapply gives_mono; [by apply (gives_adopt J pat backlog)|]. cbv beta. intros t' [_ Hb]. by apply Hb.
    + intros t' (Hwf' & Hw' & _ & Hic). split_and!; [done|done|].
      destruct (all_icons_insert _ i _ (Some t') Hi) as (rest & E1 & E2). cbn [tray_icons] in *.
      unfold Datatypes.id, trays in *. rewrite E2, E1, Hic, <- app_assoc. cbn. by rewrite <- Permutation_middle.
  - cbv beta. intros [] r1 [Hi1 _ _ Hok1 Ht1]. wp_step.
    eapply wp_mono; [apply (moves_monitor_for_icon J pat backlog owner anywhere eq); done|]. cbv beta. intros target r2 [Hi2 _ _ Hok2 Ht2].
    eapply wp_mono; [by apply routed_keeps_icons|]. cbv beta. intros [] r3 [_ _ _ _ Ht3].
    assert (all_icons (trays r3) ≡ₚ win :: all_icons (trays r)) as E by (etrans; [exact Ht3|]; rewrite <- Ht2; exact Ht1).
    split; [|exact E]. rewrite E. intros Hd. by apply NoDup_cons in Hd as [? _].
Qed.
End Icons.

(** ** The work area *)

(** Room on the monitor for a bar at the top and one at the bottom. *)
Definition roomy (m : Monitor) (top_h bottom_h : Z) : Prop :=
  0 ≤ top_inset m ∧ 0 ≤ bottom_inset m ∧ 0 ≤ left_inset m ∧ 0 ≤ right_inset m ∧ 0 < x (mon_size m) ∧ 0 < y (mon_size m) ∧
  top_h ≤ top_inset m + y (mon_size m) ∧ top_h + bottom_h ≤ top_inset m + y (mon_size m) + bottom_inset m.

Lemma reserved_spec m e px : 0 ≤ x (mon_size m) → 0 ≤ y (mon_size m) → reserved m e px = adjust_inset m e (px - inset m e).
Proof.
  intros Hx Hy. unfold reserved. destruct (Z.eqb_spec (px - inset m e) 0) as [E|E]; [|done].
  by rewrite E, adjust_inset_zero.
Qed.
Lemma fitted_spec s m : let top_h := side_height (bar_top s) in let bottom_h := side_height (bar_bottom s) in
  roomy m top_h bottom_h →
  physical (fitted s m) = physical m ∧
  mon_pos (fitted s m) = mkVec2 (x (mon_pos m)) (y (physical m).1 + top_h) ∧
  mon_size (fitted s m) = mkVec2 (x (mon_size m)) (y (physical m).2 - top_h - bottom_h).
Proof.
  cbv zeta. pose proof (side_height_nonneg (bar_top s)). pose proof (side_height_nonneg (bar_bottom s)).
  intros (H1 & H2 & H3 & H4 & Hx & Hy & Hf & Hf2). unfold fitted.
  rewrite (reserved_spec m Top) by lia. rewrite reserved_spec by (cbn; lia).
  destruct m as [i n [px py] [sx sy] a ti bi li ri]. cbn in *. unfold physical, upd. cbn.
  split_and!; repeat (apply (f_equal2 pair) || apply (f_equal2 mkVec2)); lia.
Qed.

(** Without room: a bar taller than its monitor makes the monitor's physical
    rectangle as tall as the bar, and it stays so when the bar is gone. *)
Lemma tall_bar_stretches_monitor m h :
  top_inset m = 0 → bottom_inset m = 0 → left_inset m = 0 → right_inset m = 0 →
  0 < x (mon_size m) → 0 < y (mon_size m) < h →
  let stretched := (mon_pos m, mkVec2 (x (mon_size m)) h) in
  physical m = (mon_pos m, mon_size m) ∧ physical (reserved m Top h) = stretched ∧
  physical (reserved (reserved m Top h) Top 0) = stretched.
Proof.
  destruct m as [i n [px py] [sx sy] a ti bi li ri]. cbn. intros -> -> -> -> Hx Hy.
  rewrite (reserved_spec _ Top h) by (cbn; lia). rewrite reserved_spec by (cbn; lia). unfold physical, upd. cbn.
  split_and!; repeat (apply (f_equal2 pair) || apply (f_equal2 mkVec2)); lia.
Qed.

Lemma bar_strip i m top_h bottom_h b p : 0 ≤ top_h → 0 ≤ bottom_h → roomy m top_h bottom_h →
  bar_of i (physical m).1 (physical m).2 top_h bottom_h b → rect_contains (bw_pos b) (bw_size b) p = true →
  rect_contains (physical m).1 (physical m).2 p = true ∧
  rect_contains (mkVec2 (x (mon_pos m)) (y (physical m).1 + top_h))
    (mkVec2 (x (mon_size m)) (y (physical m).2 - top_h - bottom_h)) p = false.
Proof.
  intros Ht0 Hb0 (H1 & H2 & H3 & H4 & Hx & Hy & Hf & Hf2) (_ & _ & Hh & Hw & Hside). unfold physical, rect_contains in *.
  cbn [fst snd x y] in *. rewrite Hw.
  destruct (bw_is_top b); destruct Hside as [-> ->]; cbn [x y]; intros Hpt;
    rewrite !andb_true_iff, !Z.leb_le, !Z.ltb_lt in Hpt; destruct Hpt as [[[??]?]?];
    (split; [rewrite !andb_true_iff, !Z.leb_le, !Z.ltb_lt; lia|]).
  - rewrite !andb_false_iff. left. right. apply Z.leb_gt. lia.
  - rewrite !andb_false_iff. right. apply Z.ltb_ge. lia.
Qed.

Section Area.
Context {Srv : Type} `{!XServer Srv} `{!XScreen Srv} `{!Env (BarWorld Srv)} `{!BarEnv Srv}.
Context (J : Srv → Prop) (pat backlog : Srv → nat) (owner : Z → string).
Local Abbreviation R := (Runtime (BarWorld Srv)).
Local Abbreviation inv := (inv (λ w : BarWorld Srv, J (bsrv w)) owner).
Context `{!ServerOk J pat backlog} `{!ScreenOk J pat} `{!BarOk J pat owner}.
Implicit Types r : R.

(** The heights of the bars the configuration asks for on a monitor. *)
Definition top_height r (i : Z) : Z := side_height (bar_top (sides_of (cfg_of r) i (core_ r))).
Definition bottom_height r (i : Z) : Z := side_height (bar_bottom (sides_of (cfg_of r) i (core_ r))).

(** C22: no window is laid out under a bar.  After the bars are rebuilt on monitors
    that have room for them ([roomy]; the height of a bar is not bounded by the
    configuration), the work area of every monitor begins below its top bar and ends
    above its bottom bar, as the physical rectangle does without the bars, and is as
    wide and as far to the right as it was; the physical rectangle is what it was;
    and every point of every bar is on the physical monitor and outside the work
    area. *)
Theorem bars_clear_of_windows r : inv r →
  (∀ i m, vget (mons r) i = Some m → roomy m (top_height r i) (bottom_height r i)) →
  wp rebuild_bars (λ _ r',
    (∀ i m, vget (mons r) i = Some m → ∃ m', vget (mons r') i = Some m' ∧ physical m' = physical m ∧
       mon_pos m' = mkVec2 (x (mon_pos m)) (y (physical m).1 + top_height r i) ∧
       mon_size m' = mkVec2 (x (mon_size m)) (y (physical m).2 - top_height r i - bottom_height r i)) ∧
    ∀ b, b ∈ bars r' → ∃ m', vget (mons r') (bw_monitor b) = Some m' ∧
       ∀ p, rect_contains (bw_pos b) (bw_size b) p = true → physical_contains m' p = true ∧ mon_contains m' p = false) r.
Proof using All.
  intros Hr Hroom. eapply wp_mono; [by apply (wp_rebuild_bars J pat backlog owner)|]. cbv beta.
  intros [] r' [_ _ _ _ _ Hdone _ Hbars _]. split.
  - intros i m Hm. destruct (fitted_spec (sides_of (cfg_of r) i (core_ r)) m) as (Hp & Hpos & Hsz); [by apply Hroom|].
    exists (fitted_at r i m). split_and!; [|exact Hp|exact Hpos|exact Hsz].
    apply Hdone; [|done]. by apply vget_Some_range in Hm as [_ ?].
  - intros b Hb. rewrite Forall_forall in Hbars. destruct (Hbars b Hb) as (i & m & Hi & Hm & Hbar).
    destruct (fitted_spec (sides_of (cfg_of r) i (core_ r)) m) as (Hp & Hpos & Hsz); [by apply Hroom|].
    pose proof (Hroom i m Hm) as Hrm. assert (bw_monitor b = i) as -> by apply Hbar.
    exists (fitted_at r i m). split; [by apply Hdone|]. intros p Hpt.
    destruct (bar_strip i m _ _ b p (side_height_nonneg _) (side_height_nonneg _) Hrm Hbar Hpt) as [Hin Hout].
    unfold physical_contains, mon_contains, fitted_at. rewrite Hp, Hpos, Hsz. by destruct (physical m).
Qed.
End Area.
