(* ===== verification/BarExamples.v ===== *)
(** * Witnesses of the claims about the bars and the tray

    A server that answers, windows numbered as they are made, two bars with trays. *)

From S2P Require Import Prelude TextStream Geometry Workspace WorkspaceManager WindowIndex ManagerInv ManagerOps.
From S2P Require Import Events Commands Protocol Core Dispatch CoreSafe CoreRun CoreSpecs.
From S2P Require Import CoreProps EventQueue.
From S2P Require Import ConfigValue ConfigRuntime RuntimeStore Runtime LifecycleSafe BackendSafe.
From S2P Require Import X11Server X11Backend X11Safe TrayHost TrayProps BarSetup BarModule BarSafe.
From S2P Require Import BarBuild BarProps.

Local Open Scope Z_scope.

(** ** A server *)

(** The requests it has received; every window is a small XEMBED client. *)
Definition TraySrv : Type := list XRequest.
#[export] Instance tray_server : XServer TraySrv := {
  x_request q s := s ++ [q];
  x_poll s := (None, s);
  x_get_property win prop type len s :=
    (if prop =? XCB_ATOM_WM_CLASS then Some (mkProperty 8 [120; 0; 88; 0]) else Some (mkProperty 32 [0; 1]), s);
  x_get_geometry win s := (Some (mkXGeometry 0 0 16 32 0), s);
  x_get_attributes win s := (Some (mkXAttributes false 2 1), s);
  x_query_children win s := ([31; 32], s);
  x_query_tree win s := (None, s);
  x_get_input_focus s := (11, s);
  x_query_pointer s := (Some (mkVec2 5 5), s);
  x_intern_atom := fnv1a_tag;
  x_generate_id s := (1000 + Z.of_nat (length s), s);
  x_keysym k s := k + 1000;
  x_current_layout s := [117; 115];
  x_xkb_event_type := -1 }.
#[export] Instance tray_screen : XScreen TraySrv := {
  x_connected _ := true;
  x_root := 1;
  x_screen_number := 0;
  x_selection_owner a s := (default 0 (head (omap (λ q, match q with XSetSelectionOwner w _ => Some w | _ => None end) (reverse s))), s) }.
#[export] Instance bar_windows : Env (BarWorld TraySrv) :=
  windows_env (gets (λ r : Runtime (BarWorld TraySrv),
    if existsb (λ m, String.eqb (mod_name m) "bar") (modules r)
    then Some (900 + Z.of_nat (base.size (module_windows_by_id_ r)), 1) else None)).
#[export] Instance bar_port : BarEnv TraySrv := {
  has_tray_port := true;
  black_pixel := 0;
  paint_op _ s := s;
  has_cairo _ _ := true;
  text_size _ t := (Z.of_nat (String.length t) * 8, 12);
  widget_update _ := ret tt;
  widget_render _ := ret None }.

Definition any_srv (_ : TraySrv) : Prop := True.
Definition no_pat (_ : TraySrv) : nat := 0.
Definition bar_owner (_ : Z) : string := "bar".
Local Abbreviation R := (Runtime (BarWorld TraySrv)).

Lemma tray_server_ok : ServerOk any_srv no_pat no_pat.
Proof.
  split; try done. intros win len p s _ [= <-]. right. exists [120], [88; 0]. split; [done|right; by exists ([88], [])].
Qed.
Lemma tray_screen_ok : ScreenOk any_srv no_pat.
Proof. by split. Qed.
Lemma bar_port_ok : BarOk any_srv no_pat bar_owner.
Proof.
  split; [intros; apply moves_ret; apply _|intros; apply moves_ret; apply _|done|].
  intros r Hr. unfold wp. cbn. split_and!; [done|done|done|done|]. intros win p.
  destruct (existsb _ (modules r)) eqn:E; [|done]. intros _. apply existsb_exists in E as (m & Hm & E).
  apply String.eqb_eq in E. unfold names, bar_owner. apply list_elem_of_fmap. exists m. split; [done|by apply list_elem_of_In].
Qed.

(** A bar with tags and the tray at the top, one that sets no height at the bottom. *)
Definition ex_slots : list BarSlot := [mkBarSlot SlotTags 0 1 false "" 0; mkBarSlot SlotTray 0 1 false "" 0].
Definition ex_side (pos : BarPosition) (h : Z) : BarSide := mkBarSide SideCustom
  (mkBarConfig "mono" h (mkBarColors "" "" "" "" "" "") pos ex_slots [] []).
Definition ex_bar_cfg : BarSetConfig := mkBarSet (mkMonitorBar (ex_side BarTop 20) (ex_side BarBottom 0)) ∅.
Definition ex_bar_rt (bars : list BarWindow) : R :=
  mkRuntime ∅ ex_core (register_core_config []) [] true Running false false false false [mkModule "bar" true] ∅ empty_queue [] [backend_ptr] None
    (mkBarWorld (mkBarModule ex_bar_cfg ex_bar_cfg bars ∅ true) []).
Lemma ex_bar_inv bars : inv (λ w : BarWorld TraySrv, any_srv (bsrv w)) bar_owner (ex_bar_rt bars).
Proof. split; [exact ex_core_ok|done|by intros win p; cbn; rewrite lookup_empty]. Qed.

(** Two trays: the first owns the selection, the second holds the icon 31. *)
Definition ex_icon (win px : Z) : Icon := mkIcon win (mkVec2 px 0) (mkVec2 10 20) true.
Definition ex_tray (win bar : Z) (own : bool) (icons : list Icon) (w : Z) : TrayHost :=
  mkTray bar (mkVec2 0 0) 20 (mkVec2 0 0) 0 win w own true icons.
Definition ex_owner : TrayHost := ex_tray 1000 901 true [ex_icon 32 2] 14.
Definition ex_other : TrayHost := ex_tray 1001 902 false [ex_icon 31 2] 14.
Definition ex_bar (win mon : Z) (t : TrayHost) : BarWindow :=
  mkBarWindow win 1 mon (mkVec2 0 0) (mkVec2 1920 20) (side_cfg (ex_side BarTop 20)) true (Some t).
Definition ex_bars : list BarWindow := [ex_bar 901 0 ex_owner; ex_bar 902 1 ex_other].
Lemma ex_tray_ok win bar own w px : win ≠ 0 → px = 2 → w = 14 → ∀ i, wf_tray (ex_tray win bar own [ex_icon i px] w).
Proof.
  intros Hw -> -> i. split; [done|]. split; [by apply Forall_singleton|]. unfold in_row. cbn.
  rewrite (proj2 (Z.eqb_neq win XCB_NONE)) by done. exists 14. by split_and!.
Qed.
Lemma ex_bars_ok : bar_ok any_srv bar_owner (ex_bar_rt ex_bars).
Proof.
  split; [apply ex_bar_inv|]. split.
  - repeat constructor; try done; by apply ex_tray_ok.
  - apply (bool_decide_unpack _). by vm_compute.
Qed.

(** ** The claims *)

Lemma tray_icons_in_order_witness :
  bar_ok any_srv bar_owner (ex_bar_rt ex_bars) ∧
  wp bar_on_start (λ _ r', bar_ok any_srv bar_owner r' ∧ icons_sorted_out r' ∧
    keeps (λ _ : BarWorld TraySrv, 0%nat) (ex_bar_rt ex_bars) r') (ex_bar_rt ex_bars).
Proof.
  pose proof tray_server_ok. pose proof tray_screen_ok. pose proof bar_port_ok.
  split; [exact ex_bars_ok|].
  destruct (tray_icons_in_order any_srv no_pat no_pat bar_owner (ex_bar_rt ex_bars) ex_bars_ok) as [Hs _]. exact Hs.
Defined.

Lemma redocked_icon_listed_twice_witness :
  NoDup (all_icons (trays (ex_bar_rt ex_bars))) ∧
  wp (on_icon_docked 31) (λ _ r', ¬ NoDup (all_icons (trays r')) ∧
    all_icons (trays r') ≡ₚ 31 :: all_icons (trays (ex_bar_rt ex_bars))) (ex_bar_rt ex_bars).
Proof.
  pose proof tray_server_ok. pose proof tray_screen_ok. pose proof bar_port_ok.
  split; [apply (bool_decide_unpack _); by vm_compute|].
  apply (redocked_icon_listed_twice any_srv no_pat no_pat bar_owner (ex_bar_rt ex_bars) 31 0%nat ex_owner).
  - exact ex_bars_ok.
  - by vm_compute.
  - apply (bool_decide_unpack _). by vm_compute.
  - apply (bool_decide_unpack _). by vm_compute.
  - split; [by vm_compute|]. intros s _. exists (mkProperty 32 [0; 1]). by vm_compute.
  - by intros s g _ [= <-].
Defined.

(** Two monitors, a bar of 20 at the top of each and one of 18 at the bottom. *)
Lemma bars_clear_of_windows_witness :
  vsize (mons (ex_bar_rt [])) = 2 ∧ top_height (ex_bar_rt []) 0 = 20 ∧ bottom_height (ex_bar_rt []) 1 = 18 ∧
  wp rebuild_bars (λ _ r',
    (∀ i m, vget (mons (ex_bar_rt [])) i = Some m → ∃ m', vget (mons r') i = Some m' ∧ physical m' = physical m ∧
       mon_pos m' = mkVec2 (x (mon_pos m)) (y (physical m).1 + top_height (ex_bar_rt []) i) ∧
       mon_size m' = mkVec2 (x (mon_size m))
         (y (physical m).2 - top_height (ex_bar_rt []) i - bottom_height (ex_bar_rt []) i)) ∧
    ∀ b, b ∈ bars r' → ∃ m', vget (mons r') (bw_monitor b) = Some m' ∧
       ∀ p, rect_contains (bw_pos b) (bw_size b) p = true → physical_contains m' p = true ∧ mon_contains m' p = false)
    (ex_bar_rt []).
Proof.
  pose proof tray_server_ok. pose proof tray_screen_ok. pose proof bar_port_ok.
  split; [by vm_compute|]. split; [by vm_compute|]. split; [by vm_compute|].
  apply (bars_clear_of_windows any_srv no_pat no_pat bar_owner); [apply ex_bar_inv|].
  intros i m Hm. pose proof (vget_Some_range _ _ _ Hm) as Hr.
  assert (vsize (mons (ex_bar_rt [])) = 2) as E by by vm_compute. rewrite E in Hr.
  assert (i = 0 ∨ i = 1) as [-> | ->] by lia; vm_compute in Hm; injection Hm as <-; unfold roomy; vm_compute; by split_and!.
Defined.

Lemma click_reaches_icon_witness :
  handle_button_event 1000 (mkVec2 500 5) (mkVec2 7 4) 9 1 0 false ex_owner ([] : TraySrv) =
    Some (true, [XSendEvent 32 XCB_EVENT_MASK_NO_EVENT
      (SentButton false 32 1 9 1 (mkVec2 500 5) (mkVec2 5 4) 0)]).
Proof.
  destruct (click_reaches_icon ex_owner (mkVec2 500 5) (mkVec2 7 4) 9 1 0 false ([] : TraySrv)) as [Hc _];
    [by apply ex_tray_ok|done|done|]. apply (Hc (ex_icon 32 2)); [left|done|done].
Defined.

(** [bar.settings] with a default and a monitor whose side is inherited. *)
Definition ex_index (v : LuaValue) (k : string) : LuaValue :=
  match v with LTable _ e => default LNil (snd <$> List.find (λ p, match p.1 with LStr s => String.eqb s k | _ => false end) e) | _ => LNil end.
Definition ex_num (_ : LuaValue) : string := "1".
Definition ex_default : LuaValue := LTable 0 [(LStr "top", LTable 0 [(LStr "height", LInt 24)])].
Definition ex_entries : list (LuaValue * LuaValue) :=
  [(LStr "default", ex_default); (LStr "left", LTable 0 [(LStr "bottom", LTable 0 [])]); (LStr "odd", LInt 3)].
Lemma bar_settings_load_witness :
  ∃ cfg, load_bar_set_config ex_num ex_index (λ _, 7) 9 default_theme (LTable 0 ex_entries) = LoadedAs cfg ∧
    (bar_height ∘ side_cfg ∘ bar_top ∘ bar_default) cfg = 24 ∧
    ∀ key, per_monitor cfg !! key = monitor_entry ex_num ex_index (λ _, 7) default_theme ex_entries key.
Proof.
  pose proof (bar_settings_load ex_num ex_index (λ _, 7) default_theme 0 ex_entries 9) as Hl.
  destruct Hl as (cfg & E & Ed & Hp); [by vm_compute| | |cbn; lia|].
  - apply NoDup_ListNoDup. repeat constructor; cbn; intuition congruence.
  - intros e He _. unfold ex_entries in He. repeat (apply elem_of_cons in He as [->|He]; [by eexists|]). by apply elem_of_nil in He.
  - exists cfg. split; [exact E|]. split; [|exact Hp]. cbn. by rewrite Ed.
Defined.

(** [bar.settings = { default = …, { … }, left = … }]: a monitor's settings without
    its name. *)
Definition ex_numbered : list (LuaValue * LuaValue) :=
  [(LStr "default", ex_default); (LInt 1, ex_default); (LStr "left", ex_default)].
Lemma numeric_key_raises_witness :
  load_bar_set_config ex_num ex_index (λ _, 7) 9 default_theme (LTable 1 ex_numbered) = LuaRaised.
Proof.
  etrans; [apply (numeric_key_raises ex_num ex_index (λ _, 7) default_theme 1 ex_numbered (LInt 1) ex_default 9 1%nat)|];
    [|intros [|j] e Hj; [intros [= <-] _; by eexists|lia]|done|done|done|by vm_compute|cbn; lia|by vm_compute|by vm_compute].
  apply NoDup_ListNoDup. repeat constructor; cbn; intuition congruence.
Defined.
