(* ===== verification/ChildRegistry.v ===== *)
(** * Managed child processes ([src/process/child_process_registry.cpp])

    The registry of the processes the program starts (the display server), kept
    in a file so that the program after an exec restart adopts them, and
    [ensure_embedded_display_server] of [src/main.cpp].  Processes, pipes, files
    and the environment are the class [Kernel]. *)

From S2P Require Import Prelude TextStream.
Local Open Scope Z_scope.

(** ** Data *)

Record ManagedChildSpec := mkSpec {
  sp_role : string;
  sp_argv : list string;
  required_env_keys : list string;
  startup_timeout_ms : Z }.
Record ManagedChildInfo := mkInfo { in_pid : Z; in_owned : bool; in_env : gmap string string }.
Record Entry := mkEntry { e_role : string; e_pid : Z; e_owned : bool; e_env : gmap string string }.
#[export] Instance eta_Entry : Eta Entry := λ e, mkEntry (e_role e) (e_pid e) (e_owned e) (e_env e).
#[export] Instance Entry_eq_dec : EqDecision Entry.
Proof. solve_decision. Defined.
Definition new_entry : Entry := mkEntry "" (-1) false ∅.
Definition info_of (e : Entry) : ManagedChildInfo := mkInfo (e_pid e) (e_owned e) (e_env e).

Record ChildProcessRegistry := mkRegistry {
  state_path_ : string;
  lock_path_ : string;
  lock_fd_ : Z;
  entries_ : list Entry }.
#[export] Instance eta_Registry : Eta ChildProcessRegistry := λ r,
  mkRegistry (state_path_ r) (lock_path_ r) (lock_fd_ r) (entries_ r).

(** The order in which a loop visits a table of strings. *)
Class StringOrder := {
  string_order : gmap string string → list (string * string);
  string_order_perm m : string_order m ≡ₚ map_to_list m }.

(** The system calls; a failed call gives the text of the error. *)
Class Kernel (K : Type) := {
  k_getenv : string → K → option string;
  k_setenv : string → option string → K → K;
  k_getuid : K → Z;
  k_mkdir : string → K → K;
  (** the descriptor, negative when the file cannot be opened *)
  k_open_lock : string → K → Z * K;
  (** [flock(fd, LOCK_EX)]: [false] when it never returns; and [LOCK_UN] *)
  k_lock : Z → K → bool * K;
  k_unlock : Z → K → K;
  k_close : Z → K → K;
  k_read_file : string → K → option text;
  (** whether the file could be opened; then the text is written *)
  k_write_file : string → text → K → bool * K;
  k_rename : string → string → K → K;
  k_is_socket : string → K → bool;
  (** [kill(pid, 0) == 0 || errno == EPERM] *)
  k_alive : Z → K → bool * K;
  k_terminate : Z → K → K;
  (** [waitpid]: whether it returned the process *)
  k_waitpid : Z → bool → K → bool * K;
  k_pipe : K → (string + (Z * Z)) * K;
  (** the child has the write end as its output and runs the program *)
  k_fork_exec : list string → Z → K → (string + Z) * K;
  (** is there something to read within so many milliseconds; at most 512 bytes *)
  k_poll : Z → Z → K → bool * K;
  k_read : Z → K → option text * K }.

(** The registry and the rest of the world. *)
Record Reg (K : Type) := mkReg { reg : ChildProcessRegistry; kern : K }.
Arguments mkReg {K}. Arguments reg {K}. Arguments kern {K}.
#[export] Instance eta_Reg K : Eta (Reg K) := λ r, mkReg (reg r) (kern r).

(** ** Text *)

Definition has_all_keys (env : gmap string string) (keys : list string) : bool :=
  forallb (λ k, match env !! k with Some v => negb (String.eqb v "") | None => false end) keys.

Definition equals_sign : Ascii.ascii := Ascii.ascii_of_nat 61.
Definition of_text (s : text) : string := String.string_of_list_ascii s.
(** What follows the first equals sign, and what comes before it. *)
Definition split_equals (s : text) : option (text * text) :=
  if bool_decide (equals_sign ∈ s) then Some (break_at equals_sign s) else None.

Definition env_char (c : Ascii.ascii) : bool :=
  (code c =? 95) || ((65 <=? code c) && (code c <=? 90)) || ((48 <=? code c) && (code c <=? 57)).
Definition parse_env_line (line : text) : option (string * string) :=
  match split_equals line with
  | Some (key, value) =>
      match key with
      | [] => None
      | _ => if forallb env_char key then Some (of_text key, of_text value) else None
      end
  | None => None
  end.

Fixpoint strip_prefix (p s : text) : option text :=
  match p, s with
  | [], _ => Some s
  | c :: p, d :: s => if Ascii.eqb c d then strip_prefix p s else None
  | _ :: _, [] => None
  end.
(** [static_cast<pid_t>(std::strtol(s, nullptr, 10))] *)
Definition strtol_pid (s : text) : Z := to_i32 (read_int (- 2 ^ 63) (2 ^ 63 - 1) s).1.1.

(** One line of the file; the first prefix that fits decides. *)
Definition load_line (line : text) (e : Entry) : Entry :=
  match strip_prefix (txt "role=") line with
  | Some s => mkEntry (of_text s) (e_pid e) (e_owned e) (e_env e)
  | None =>
      match strip_prefix (txt "pid=") line with
      | Some s => e <| e_pid := strtol_pid s |>
      | None =>
          match strip_prefix (txt "owned=") line with
          | Some s => e <| e_owned := bool_decide (s = txt "1") |>
          | None =>
              match strip_prefix (txt "env.") line with
              | Some s =>
                  match split_equals s with
                  | Some (c :: key, value) => e <| e_env ::= <[of_text (c :: key) := of_text value]> |>
                  | _ => e
                  end
              | None => e
              end
          end
      end
  end.
Definition valid (e : Entry) : bool := negb (String.eqb (e_role e) "") && (0 <? e_pid e).
(** The loop of [load_state] over the lines, and what follows it. *)
Fixpoint load_lines (l : list text) (current : Entry) (in_entry : bool) (entries : list Entry) : list Entry :=
  let entries' := if in_entry && valid current then entries ++ [current] else entries in
  match l with
  | [] => entries'
  | line :: l =>
      match line with
      | [] => load_lines l current in_entry entries
      | _ =>
          if bool_decide (line = txt "---") then load_lines l new_entry false entries'
          else load_lines l (load_line line current) true entries
      end
  end.
Definition load_text (s : text) : list Entry := load_lines (lines newline s) new_entry false [].

Definition save_line (name : string) (value : text) : text := txt name ++ value ++ [newline].
Definition save_entry `{!StringOrder} (e : Entry) : text :=
  if valid e then
    save_line "role=" (txt (e_role e)) ++ save_line "pid=" (show_int (e_pid e)) ++
    save_line "owned=" (show_bool (e_owned e)) ++
    concat ((λ kv, save_line "env." (txt kv.1 ++ equals_sign :: txt kv.2)) <$> string_order (e_env e)) ++
    txt "---" ++ [newline]
  else [].
Definition save_text `{!StringOrder} (l : list Entry) : text := concat (save_entry <$> l).

(** ** Operations *)

Section Operations.
Context {K : Type} `{!Kernel K} `{!StringOrder}.
Local Abbreviation R := (Reg K).

Definition rget {A} (f : ChildProcessRegistry → A) : M R A := gets (λ r : R, f (reg r)).
Definition rset (f : ChildProcessRegistry → ChildProcessRegistry) : M R unit := modify (λ r : R, r <| reg ::= f |>).
Definition set_entries (l : list Entry) : M R unit := rset (λ g, g <| entries_ := l |>).
Definition kget {A} (f : K → A) : M R A := gets (λ r : R, f (kern r)).
Definition kdo (f : K → K) : M R unit := modify (λ r : R, r <| kern ::= f |>).
Definition kask {A} (q : K → A * K) : M R A := λ r,
  let '(a, k) := q (kern r) in Some (a, r <| kern := k |>).

(** *** Files *)

Definition runtime_dir : M R string :=
  xdg <- kget (k_getenv "XDG_RUNTIME_DIR") ;;
  match xdg with
  | Some (String _ _ as dir) => ret dir
  | _ =>
      uid <- kget k_getuid ;;
      let dir := ("/tmp/sirenwm-runtime-" +:+ of_text (show_int uid))%string in
      kdo (k_mkdir dir) ;; ret dir
  end.
(** [false]: blocked for ever. *)
Definition lock : M R bool :=
  path <- rget lock_path_ ;;
  fd <- kask (k_open_lock path) ;;
  rset (λ g, g <| lock_fd_ := fd |>) ;;
  if fd <? 0 then ret true else kask (k_lock fd).
Definition unlock : M R unit :=
  fd <- rget lock_fd_ ;;
  if 0 <=? fd then kdo (k_unlock fd) ;; kdo (k_close fd) ;; rset (λ g, g <| lock_fd_ := -1 |>) else ret tt.
Definition load_state : M R unit :=
  path <- rget state_path_ ;;
  file <- kget (k_read_file path) ;;
  set_entries (match file with Some s => load_text s | None => [] end).
Definition save_state : M R unit :=
  path <- rget state_path_ ;;
  l <- rget entries_ ;;
  let tmp := (path +:+ ".tmp")%string in
  written <- kask (k_write_file tmp (save_text l)) ;;
  if (written : bool) then kdo (k_rename tmp path) else ret tt.
(** The constructor, [false] when it never returns, and the destructor. *)
Definition construct (app_name : string) : M R bool :=
  run <- runtime_dir ;;
  rset (λ _, mkRegistry (run +:+ "/" +:+ app_name +:+ "-children.state")
                        (run +:+ "/" +:+ app_name +:+ "-children.lock") (-1) []) ;;
  locked <- lock ;;
  if (locked : bool) then load_state ;; ret true else ret false.
Definition destruct_ : M R unit := unlock.

(** *** Processes *)

Definition is_process_alive (pid : Z) : M R bool :=
  if pid <=? 0 then ret false else kask (k_alive pid).
Definition wayland_socket_exists (display : string) : M R bool :=
  if String.eqb display "" then ret false
  else dir <- runtime_dir ;; kget (k_is_socket (dir +:+ "/" +:+ display)).
Definition entry_ready (e : Entry) (keys : list string) : M R bool :=
  if e_pid e <=? 0 then ret false
  else
    alive <- is_process_alive (e_pid e) ;;
    if negb alive then ret false
    else if negb (has_all_keys (e_env e) keys) then ret false
    else match e_env e !! "WAYLAND_DISPLAY"%string with
         | None => ret true
         | Some display => wayland_socket_exists display
         end.
Definition kill_and_reap (pid : Z) : M R unit :=
  kdo (k_terminate pid) ;; kask (k_waitpid pid false) ;; ret tt.

(** The first entry of a role. *)
Definition find_entry (role : string) (l : list Entry) : option (nat * Entry) :=
  list_find (λ e, e_role e = role) l.
Definition forget_pid (e : Entry) : Entry := e <| e_pid := -1 |> <| e_env := ∅ |>.
Definition running_entries (l : list Entry) : list Entry := List.filter (λ e, negb (e_pid e <=? 0)) l.

Definition adopt (role : string) (keys : list string) : M R (option ManagedChildInfo) :=
  l <- rget entries_ ;;
  match find_entry role l with
  | None => ret None
  | Some (i, existing) =>
      ready <- entry_ready existing keys ;;
      if negb ready then
        set_entries (running_entries (<[i := forget_pid existing]> l)) ;;
        save_state ;;
        ret None
      else ret (Some (info_of existing))
  end.

(** *** Waiting for the child *)

(** The lines of a chunk, with what was left of the chunk before. *)
Definition take_lines (buffer : text) (env : gmap string string) : text * gmap string string :=
  let '(ls, rest) := complete_lines newline buffer in
  (rest, foldl (λ env line, match parse_env_line line with Some (k, v) => <[k := v]> env | None => env end) env ls).

Fixpoint wait_ticks (ticks : nat) (fd pid : Z) (keys : list string) (buffer : text) (env : gmap string string)
    : M R (bool * gmap string string) :=
  match ticks with
  | O => ret (false, env)
  | S n =>
      readable <- kask (k_poll fd 100) ;;
      chunk <- (if (readable : bool) then kask (k_read fd) else ret None) ;;
      let '(buffer, env) := match chunk with
                            | Some ((_ :: _) as c) => take_lines (buffer ++ c) env
                            | _ => (buffer, env)
                            end in
      if has_all_keys env keys then ret (true, env)
      else
        gone <- kask (k_waitpid pid false) ;;
        if (gone : bool) then ret (false, env) else wait_ticks n fd pid keys buffer env
  end.
Definition wait_for_env_lines (fd pid : Z) (keys : list string) (timeout_ms : Z) : M R (bool * gmap string string) :=
  wait_ticks (Z.to_nat (Z.max 1 (Z.quot timeout_ms 100))) fd pid keys [] ∅.

(** [spawn] once there is a pipe. *)
Definition start_child (spec : ManagedChildSpec) (rd wr : Z) : M R (string + Entry) :=
  child <- kask (k_fork_exec (sp_argv spec) wr) ;;
  match child with
  | inl e => kdo (k_close rd) ;; kdo (k_close wr) ;; ret (inl ("fork failed: " +:+ e)%string)
  | inr pid =>
      kdo (k_close wr) ;;
      w <- wait_for_env_lines rd pid (required_env_keys spec) (startup_timeout_ms spec) ;;
      let '(ready, env) := w in
      kdo (k_close rd) ;;
      if negb ready then
        kdo (k_terminate pid) ;; kask (k_waitpid pid true) ;;
        ret (inl "child did not publish required endpoints"%string)
      else ret (inr (mkEntry (sp_role spec) pid true env))
  end.
Definition spawn (spec : ManagedChildSpec) : M R (string + Entry) :=
  p <- kask k_pipe ;;
  match p with
  | inl e => ret (inl ("pipe failed: " +:+ e)%string)
  | inr (rd, wr) => start_child spec rd wr
  end.

(** [spawn_or_adopt] past its two guards. *)
Definition adopt_or_replace (spec : ManagedChildSpec) : M R (string + ManagedChildInfo) :=
  adopted <- adopt (sp_role spec) (required_env_keys spec) ;;
  match adopted with
  | Some info => ret (inr info)
  | None =>
      l <- rget entries_ ;;
      (match find_entry (sp_role spec) l with
       | None => ret tt
       | Some (i, existing) =>
           alive <- (if e_owned existing then is_process_alive (e_pid existing) else ret false) ;;
           (if (alive : bool) then kill_and_reap (e_pid existing) else ret tt) ;;
           set_entries (<[i := forget_pid existing]> l)
       end) ;;
      spawned <- spawn spec ;;
      match spawned with
      | inl err => ret (inl err)
      | inr e =>
          l <- rget entries_ ;;
          set_entries (List.filter (λ e', negb (String.eqb (e_role e') (sp_role spec))) l ++ [e]) ;;
          save_state ;;
          ret (inr (info_of e))
      end
  end.
Definition spawn_or_adopt (spec : ManagedChildSpec) : M R (string + ManagedChildInfo) :=
  if String.eqb (sp_role spec) "" then ret (inl "child role is empty"%string)
  else match sp_argv spec with
       | [] | EmptyString :: _ => ret (inl "child argv is empty"%string)
       | _ => adopt_or_replace spec
       end.

(** One entry at shutdown: what becomes of it, and whether it changed. *)
Definition shutdown_entry (e : Entry) : M R (Entry * bool) :=
  if negb (e_owned e) || (e_pid e <=? 0) then ret (e, false)
  else
    alive <- is_process_alive (e_pid e) ;;
    (if (alive : bool) then kill_and_reap (e_pid e) else ret tt) ;;
    ret (forget_pid e, true).
Fixpoint shutdown_entries (l : list Entry) : M R (list Entry * bool) :=
  match l with
  | [] => ret ([], false)
  | e :: l =>
      r <- shutdown_entry e ;;
      rs <- shutdown_entries l ;;
      ret (r.1 :: rs.1, r.2 || rs.2)
  end.
Definition shutdown_owned : M R unit :=
  l <- rget entries_ ;;
  r <- shutdown_entries l ;;
  set_entries r.1 ;;
  if r.2 then set_entries (running_entries r.1) ;; save_state else ret tt.
End Operations.

(** ** [ensure_embedded_display_server] ([src/main.cpp]) *)

Section Main.
Context {K : Type} `{!Kernel K} `{!StringOrder}.
Local Abbreviation R := (Reg K).

Definition set_env (name : string) (value : option string) : M R unit := kdo (k_setenv name value).
(** [setenv] of a variable the child published, unless it is empty. *)
Definition export_env (env : gmap string string) (name : string) : M R bool :=
  match env !! name with
  | Some (String _ _ as v) => set_env name (Some v) ;; ret true
  | _ => ret false
  end.
Definition display_server_spec (exec_path : string) : ManagedChildSpec :=
  mkSpec "display-server" [exec_path; "--display-server"%string] ["WAYLAND_DISPLAY"; "SIRENWM_IPC_SOCKET"]%string 10000.

Definition ensure_embedded_display_server (exec_path : string) : M R bool :=
  display <- kget (k_getenv "WAYLAND_DISPLAY") ;;
  match display with
  | Some (String _ _ as display) =>
      adopted <- adopt "display-server" ["WAYLAND_DISPLAY"%string] ;;
      match adopted with
      | Some info =>
          if bool_decide (in_env info !! "WAYLAND_DISPLAY"%string = Some display)
          then export_env (in_env info) "SIRENWM_IPC_SOCKET" ;; export_env (in_env info) "DISPLAY" ;; ret true
          else ret true
      | None => ret true
      end
  | _ =>
      child <- spawn_or_adopt (display_server_spec exec_path) ;;
      match child with
      | inl _ => ret false
      | inr info =>
          ok <- export_env (in_env info) "WAYLAND_DISPLAY" ;;
          if negb ok then ret false
          else
            export_env (in_env info) "SIRENWM_IPC_SOCKET" ;;
            shown <- export_env (in_env info) "DISPLAY" ;;
            (if (shown : bool) then ret tt else set_env "DISPLAY" None) ;;
            ret true
      end
  end.
End Main.
