(* ===== verification/ChildProps.v ===== *)
(** * Claims about the registry of child processes

    The state file, the lines of a child, and what happens over a restart. *)

From S2P Require Import Prelude TextStream ChildRegistry.
Local Open Scope Z_scope.

(** ** The state file *)

Definition one_line (s : string) : Prop := newline ∉ txt s.
#[export] Instance one_line_dec s : Decision (one_line s).
Proof. unfold one_line. apply _. Defined.
(** What the program registers. *)
Record entry_wf (e : Entry) : Prop := {
  wf_role : e_role e ≠ ""%string ∧ one_line (e_role e);
  wf_pid : 0 < e_pid e < 2 ^ 31;
  wf_env k v : e_env e !! k = Some v → k ≠ ""%string ∧ (equals_sign ∉ txt k) ∧ one_line k ∧ one_line v }.

Lemma wf_valid e : entry_wf e → valid e = true.
Proof.
  intros [[Hr _] Hp _]. unfold valid. rewrite (proj2 (String.eqb_neq _ _) Hr). cbn [negb andb]. lia.
Qed.

Section File.
Context `{!StringOrder}.

Definition env_line (kv : string * string) : text := txt "env." ++ txt kv.1 ++ equals_sign :: txt kv.2.
Definition entry_lines (e : Entry) : list text :=
  [txt "role=" ++ txt (e_role e); txt "pid=" ++ show_int (e_pid e); txt "owned=" ++ show_bool (e_owned e)] ++
  (env_line <$> string_order (e_env e)) ++ [txt "---"].
Lemma save_lines e : valid e = true → save_entry e = concat ((λ l, l ++ [newline]) <$> entry_lines e).
Proof using Type.
  intros Hv. unfold save_entry, entry_lines, save_line. rewrite Hv. cbn [app fmap list_fmap concat].
  rewrite fmap_app, concat_app, <- list_fmap_compose, <- !app_assoc.
  assert (E : (λ kv, txt "env." ++ (txt kv.1 ++ equals_sign :: txt kv.2) ++ [newline]) <$> string_order (e_env e) =
    ((λ l, l ++ [newline]) ∘ env_line) <$> string_order (e_env e)).
  { apply list_fmap_ext. intros _ kv _. cbn. unfold env_line. by rewrite <- !app_assoc. }
  by rewrite E.
Qed.
Lemma string_order_elem m k v : (k, v) ∈ string_order m ↔ m !! k = Some v.
Proof using Type. rewrite string_order_perm. apply elem_of_map_to_list. Qed.
Lemma newline_digits n : newline ∉ show_int n.
Proof using Type.
  intros Hin. pose proof (show_int_no newline n eq_refl ltac:(done)) as Hno. rewrite Forall_forall in Hno. by apply (Hno _ Hin).
Qed.
Lemma entry_lines_wf e : entry_wf e → Forall (λ l, newline ∉ l) (entry_lines e).
Proof using Type.
  assert (Hp : ∀ p s, newline ∉ txt p → newline ∉ s → newline ∉ txt p ++ s) by (intros p s ? ?; rewrite elem_of_app; tauto).
  assert (Hc : ∀ s, bool_decide (newline ∈ txt s) = false → newline ∉ txt s) by (intros s; apply bool_decide_eq_false).
  intros [[_ Hr] _ He]. unfold entry_lines. apply Forall_app. split; [|apply Forall_app; split].
  - repeat apply Forall_cons_2; [..|apply Forall_nil_2]; (apply Hp; [by apply Hc|]).
    + exact Hr.
    + apply newline_digits.
    + destruct (e_owned e); by apply Hc.
  - apply Forall_fmap, Forall_forall. intros [k v] Hkv%string_order_elem. destruct (He _ _ Hkv) as (_ & _ & Hk & Hv).
    apply (Hp "env."%string); [by apply Hc|]. cbn [fst snd]. rewrite elem_of_app, elem_of_cons. intros [?|[?|?]]; done.
  - repeat constructor. by apply Hc.
Qed.

Lemma strip_prefix_app p s : strip_prefix p (p ++ s) = Some s.
Proof using Type. induction p as [|c p IH]; [done|]. cbn. by rewrite Ascii.eqb_refl. Qed.
Lemma strtol_show n : 0 < n < 2 ^ 31 → strtol_pid (show_int n) = n.
Proof using Type.
  intros Hn. unfold strtol_pid. rewrite <- (app_nil_r (show_int n)), read_show_int; [|lia..|done]. apply to_i32_small. lia.
Qed.
Lemma load_env_line kv e : kv.1 ≠ ""%string → equals_sign ∉ txt kv.1 →
  load_line (env_line kv) e = e <| e_env ::= <[kv.1 := kv.2]> |>.
Proof using Type.
  intros Hne Heq. unfold load_line, env_line. change (strip_prefix (txt "role=") _) with (@None text).
  change (strip_prefix (txt "pid=") _) with (@None text). change (strip_prefix (txt "owned=") _) with (@None text).
  cbv iota. rewrite strip_prefix_app. unfold split_equals.
  rewrite bool_decide_eq_true_2 by (rewrite elem_of_app, elem_of_cons; auto).
  rewrite break_at_app by (apply Forall_forall; by intros c Hc ->).
  destruct (txt kv.1) as [|c l] eqn:E; [by destruct kv.1|]. rewrite <- E. unfold of_text. by rewrite !string_txt.
Qed.
Lemma load_env_lines l more e acc : Forall (λ kv, kv.1 ≠ ""%string ∧ (equals_sign ∉ txt kv.1)) l →
  load_lines ((env_line <$> l) ++ more) e true acc =
  load_lines more (e <| e_env ::= λ m, foldl (λ m kv, <[kv.1 := kv.2]> m) m l |>) true acc.
Proof using Type.
  intros Hl. revert e. induction Hl as [|kv l [Hne Heq] _ IH]; intros e; [by destruct e|].
  cbn [fmap list_fmap app]. assert (E : ∃ c t, env_line kv = c :: t) by (by eexists _, _).
  destruct E as (c & t & E). cbn [load_lines]. rewrite E at 1. rewrite bool_decide_eq_false_2 by done.
  rewrite load_env_line by done. rewrite IH. by destruct e.
Qed.
Lemma foldl_foldr {A B} (f : A → B → A) a l : foldl f a l = foldr (λ b a, f a b) a (reverse l).
Proof using Type. revert a. induction l as [|b l IH]; intros a; [done|]. rewrite reverse_cons, foldr_app. apply IH. Qed.
Lemma foldl_inserts (l : list (string * string)) m : NoDup l.*1 → l ≡ₚ map_to_list m →
  foldl (λ m kv, <[kv.1 := kv.2]> m) ∅ l = m.
Proof using Type.
  intros Hn Hp. rewrite foldl_foldr.
  change (list_to_map (reverse l) = m). rewrite <- (list_to_map_to_list m). apply list_to_map_proper.
  - rewrite fmap_reverse. by rewrite reverse_Permutation.
  - by rewrite reverse_Permutation.
Qed.

Lemma load_step line l e b acc : line ≠ [] → line ≠ txt "---" →
  load_lines (line :: l) e b acc = load_lines l (load_line line e) true acc.
Proof using Type. intros H1 H2. cbn [load_lines]. destruct line; [done|]. by rewrite bool_decide_eq_false_2. Qed.
Lemma load_end l e acc : valid e = true → load_lines (txt "---" :: l) e true acc = load_lines l new_entry false (acc ++ [e]).
Proof using Type. intros Hv. cbn [load_lines]. rewrite Hv. done. Qed.

(** An entry is read back, and what follows is read as if it came first. *)
Lemma load_entry e more acc : entry_wf e →
  load_lines (entry_lines e ++ more) new_entry false acc = load_lines more new_entry false (acc ++ [e]).
Proof using Type.
  intros Hwf. pose proof (wf_valid e Hwf) as Hv. destruct Hwf as [[Hr _] Hp He]. unfold entry_lines.
  rewrite <- !app_assoc. cbn [app]. rewrite !load_step by done.
  assert (E : load_line (txt "owned=" ++ show_bool (e_owned e)) (load_line (txt "pid=" ++ show_int (e_pid e))
    (load_line (txt "role=" ++ txt (e_role e)) new_entry)) = mkEntry (e_role e) (e_pid e) (e_owned e) ∅).
  { unfold load_line. rewrite strip_prefix_app. change (strip_prefix (txt "role=") (txt "pid=" ++ _)) with (@None text).
    cbv iota. rewrite strip_prefix_app. change (strip_prefix (txt "role=") (txt "owned=" ++ _)) with (@None text).
    change (strip_prefix (txt "pid=") (txt "owned=" ++ _)) with (@None text). cbv iota. rewrite strip_prefix_app.
    unfold of_text. rewrite string_txt, strtol_show by done. by destruct (e_owned e). }
  rewrite E, load_env_lines.
  - cbn. rewrite (foldl_inserts _ (e_env e)); [by destruct e; apply load_end| |apply string_order_perm].
    rewrite string_order_perm. apply NoDup_fst_map_to_list.
  - apply Forall_forall. intros [k v] Hkv%string_order_elem. by destruct (He _ _ Hkv) as (? & ? & _).
Qed.

(** What the registry writes it reads back: the processes, in order, with the
    environment each published, in whatever order the tables are walked, provided
    that no name or value has a line break in it (and no name an equals sign). *)
Theorem state_file_roundtrip l : Forall entry_wf l → load_text (save_text l) = l.
Proof using Type.
  intros Hl. unfold load_text, save_text. rewrite (list_fmap_ext _ (λ e, concat ((λ l, l ++ [newline]) <$> entry_lines e))).
  - assert (E : lines newline (concat ((λ e, concat ((λ l, l ++ [newline]) <$> entry_lines e)) <$> l)) = concat (entry_lines <$> l)).
    { rewrite <- (lines_concat newline (concat (entry_lines <$> l))).
      - f_equal. clear. induction l as [|e l IH]; [done|].
        rewrite !fmap_cons. cbn [concat]. rewrite fmap_app, concat_app. f_equal. apply IH.
      - clear -Hl. induction Hl as [|e l He _ IH]; [constructor|].
        rewrite fmap_cons. cbn [concat]. apply Forall_app. split; [by apply entry_lines_wf|done]. }
    rewrite E. clear E. change l with ([] ++ l) at 2. generalize (@nil Entry) as acc.
    induction Hl as [|e l He _ IH]; intros acc; [by rewrite app_nil_r|]. cbn [fmap list_fmap concat].
    rewrite load_entry by done. rewrite IH. by rewrite <- app_assoc.
  - intros i e He. apply save_lines, wf_valid. rewrite Forall_lookup in Hl. by eapply Hl.
Qed.
End File.

(** ** The lines of the child *)

(** What a text publishes: the last value of each name, of the lines that are
    complete. *)
Definition publish (env : gmap string string) (line : text) : gmap string string :=
  match parse_env_line line with Some (k, v) => <[k := v]> env | None => env end.
Definition published (s : text) : gmap string string := foldl publish ∅ (complete_lines newline s).1.

Section Wait.
Context {K : Type} `{!Kernel K}.
Local Abbreviation R := (Reg K).
Implicit Types r : R.

(** All that was read from the child so far. *)
Class Delivers (delivered : K → text) : Prop := {
  dl_read fd k c k' : k_read fd k = (c, k') → delivered k' = delivered k ++ default [] c;
  dl_poll fd ms k : delivered (k_poll fd ms k).2 = delivered k;
  dl_waitpid pid b k : delivered (k_waitpid pid b k).2 = delivered k }.

Lemma wp_kask {A} (q : K → A * K) (Q : A → R → Prop) r :
  Q (q (kern r)).1 (r <| kern := (q (kern r)).2 |>) → wp (kask q) Q r.
Proof using Type. unfold wp, kask. by destruct (q (kern r)) as [a k]. Qed.
Lemma wp_kdo (f : K → K) (Q : unit → R → Prop) r : Q tt (r <| kern ::= f |>) → wp (kdo f) Q r.
Proof using Type. done. Qed.

Lemma take_lines_spec d c buffer env : complete_lines newline d = (buffer.1, buffer.2) →
  env = foldl publish ∅ buffer.1 →
  ∃ ls rest, complete_lines newline (d ++ c) = (ls, rest) ∧ take_lines (buffer.2 ++ c) env = (rest, foldl publish ∅ ls).
Proof using Type.
  intros Hd ->. unfold take_lines. rewrite complete_app, Hd.
  destruct (complete_lines newline (buffer.2 ++ c)) as [lb rb]. eexists _, _. split; [done|]. by rewrite foldl_app.
Qed.
Lemma wait_ticks_spec delivered `{!Delivers delivered} n fd pid keys ls buffer r :
  complete_lines newline (delivered (kern r)) = (ls, buffer) → (n = 0%nat → has_all_keys (foldl publish ∅ ls) keys = false) →
  wp (wait_ticks n fd pid keys buffer (foldl publish ∅ ls)) (λ x r', x.2 = published (delivered (kern r')) ∧
    x.1 = has_all_keys x.2 keys ∧ reg r' = reg r) r.
Proof using Type.
  revert ls buffer r. induction n as [|n IH]; intros ls buffer r Hd Hn.
  - apply wp_ret. cbn. unfold published. rewrite Hd. split_and!; [done|by rewrite Hn|done].
  - cbn [wait_ticks]. wp_step. apply wp_kask. set (r1 := _ <| kern := _ |>).
    assert (H1 : delivered (kern r1) = delivered (kern r)) by apply dl_poll.
    wp_step.
    set (ready := (k_poll fd 100 (kern r)).1). clearbody ready.
    assert (Hchunk : wp (if ready then kask (k_read fd) else ret None)
      (λ c r2, delivered (kern r2) = delivered (kern r) ++ default [] c ∧ reg r2 = reg r) r1).
    { destruct ready.
      - apply wp_kask. split; [|done]. cbn. rewrite <- H1. by apply dl_read with fd, surjective_pairing.
      - apply wp_ret. cbn. by rewrite app_nil_r. }
    eapply wp_mono; [exact Hchunk|]. cbv beta. intros c r2 [H2 Hreg].
    assert (Hnext : ∃ ls' buffer', complete_lines newline (delivered (kern r2)) = (ls', buffer') ∧
      match c with Some ((_ :: _) as c) => take_lines (buffer ++ c) (foldl publish ∅ ls) | _ => (buffer, foldl publish ∅ ls) end
      = (buffer', foldl publish ∅ ls')).
    { rewrite H2. destruct c as [[|b c]|]; cbn [default]; [rewrite app_nil_r; by eauto| |rewrite app_nil_r; by eauto].
      by apply (take_lines_spec (delivered (kern r)) (b :: c) (ls, buffer)). }
    destruct Hnext as (ls' & buffer' & Hd' & ->). destruct (has_all_keys (foldl publish ∅ ls') keys) eqn:Hall.
    { apply wp_ret. cbn. unfold published. by rewrite Hd'. }
    wp_step. apply wp_kask. set (r3 := _ <| kern := _ |>).
    assert (H3 : delivered (kern r3) = delivered (kern r2)) by apply dl_waitpid.
    destruct (k_waitpid pid false (kern r2)).1.
    { apply wp_ret. cbn [fst snd]. unfold published. by rewrite H3, Hd'. }
    eapply wp_mono; [apply IH; [by rewrite H3|done]|]. cbv beta. intros x r' (? & ? & ?). split_and!; [done|done|].
    etrans; [eassumption|]. done.
Qed.

(** C25: waiting for the child reads its output as a whole: however the pipe cuts
    it into pieces, the environment returned is the one the complete lines of all
    that was delivered publish, and the answer is whether it has every key. *)
Theorem wait_reads_lines delivered `{!Delivers delivered} fd pid keys timeout_ms r : delivered (kern r) = [] →
  wp (wait_for_env_lines fd pid keys timeout_ms) (λ x r', x.2 = published (delivered (kern r')) ∧
    x.1 = has_all_keys x.2 keys ∧ reg r' = reg r) r.
Proof using Type.
  intros Hd. unfold wait_for_env_lines. change (∅ : gmap string string) with (foldl publish ∅ []).
  apply wait_ticks_spec; [done|by rewrite Hd|]. lia.
Qed.
End Wait.

(** ** What the file says *)

Lemma equals_not_env l : forallb env_char l = true → (equals_sign ∉ l) ∧ newline ∉ l.
Proof. rewrite forallb_forall. intros H. split; intros Hin%list_elem_of_In%H; done. Qed.
Lemma of_text_nonempty c l : of_text (c :: l) ≠ ""%string.
Proof. done. Qed.
Lemma break_at_elem sep s a b : break_at sep s = (a, b) → (sep ∉ a) ∧ ∀ c, c ∈ a ∨ c ∈ b → c ∈ s.
Proof.
  revert a b. induction s as [|c s IH]; intros a b; cbn; [intros [= <- <-]; split; [by apply not_elem_of_nil|tauto]|].
  destruct (Ascii.eqb_spec c sep) as [->|Hc].
  - intros [= <- <-]. split; [by apply not_elem_of_nil|]. intros x [Hx|Hx]; [by apply not_elem_of_nil in Hx|by right].
  - destruct (break_at sep s) as [a' b']. destruct (IH _ _ eq_refl) as [H1 H2]. intros [= <- <-]. split.
    + by apply not_elem_of_cons.
    + intros x [[->|Hx]%elem_of_cons|Hx]; [left|right; apply H2; by left|right; apply H2; by right].
Qed.
Lemma split_equals_spec s k v : split_equals s = Some (k, v) → newline ∉ s →
  (equals_sign ∉ k) ∧ (newline ∉ k) ∧ newline ∉ v.
Proof.
  unfold split_equals. case_bool_decide; [|done]. intros [= E] Hs. apply break_at_elem in E as [H1 H2].
  split_and!; [done|intros ?; apply Hs, H2; by left|intros ?; apply Hs, H2; by right].
Qed.

(** A table of names and values that a line each can hold. *)
Definition env_wf (env : gmap string string) : Prop :=
  map_Forall (λ k v, k ≠ ""%string ∧ (equals_sign ∉ txt k) ∧ one_line k ∧ one_line v) env.
Lemma publish_wf env line : newline ∉ line → env_wf env → env_wf (publish env line).
Proof.
  intros Hl He. unfold publish, parse_env_line. destruct (split_equals line) as [[[|c k] v]|] eqn:E; [done| |done].
  destruct (forallb _ _) eqn:Hk; [|done]. apply equals_not_env in Hk as [H1 H2].
  apply split_equals_spec in E as (_ & _ & H3); [|done]. apply map_Forall_insert_2; [|done].
  unfold one_line, of_text. rewrite !txt_of_text. done.
Qed.
Lemma publish_all_wf ls env : Forall (λ l, newline ∉ l) ls → env_wf env → env_wf (foldl publish env ls).
Proof. intros Hl. revert env. induction Hl as [|l ls Hl _ IH]; intros env He; [done|]. cbn. by apply IH, publish_wf. Qed.

(** Everything in the table is in the class of [state_file_roundtrip], whatever
    the file holds. *)
Definition partial_wf (e : Entry) : Prop := one_line (e_role e) ∧ - 2 ^ 31 ≤ e_pid e < 2 ^ 31 ∧ env_wf (e_env e).
Lemma partial_full e : partial_wf e → valid e = true → entry_wf e.
Proof.
  intros (H1 & H2 & H3). unfold valid. rewrite andb_true_iff, negb_true_iff. intros [Hr%String.eqb_neq Hp%Z.ltb_lt].
  split; [done|lia|apply H3].
Qed.
Lemma to_i32_range z : - 2 ^ 31 ≤ to_i32 z < 2 ^ 31.
Proof.
  unfold to_i32, to_u32. cbv zeta. change 4294967295 with (Z.ones 32). rewrite Z.land_ones by lia.
  pose proof (Z.mod_pos_bound z (2 ^ 32) ltac:(lia)). destruct (Z.ltb_spec (z mod 2 ^ 32) 2147483648); lia.
Qed.
Lemma strip_prefix_elem p s s' : strip_prefix p s = Some s' → ∀ c, c ∈ s' → c ∈ s.
Proof.
  revert s. induction p as [|a p IH]; intros s; [by intros [= <-]|]. destruct s as [|b s]; [done|]. cbn.
  destruct (Ascii.eqb a b); [|done]. intros E c Hc. right. by eapply IH.
Qed.
Lemma load_line_wf line e : newline ∉ line → partial_wf e → partial_wf (load_line line e).
Proof.
  intros Hl (H1 & H2 & H3). unfold load_line.
  destruct (strip_prefix (txt "role=") line) as [s|] eqn:E.
  { split; [|by split]. unfold one_line, of_text. cbn [e_role]. rewrite txt_of_text.
    intros Hin. apply Hl, (strip_prefix_elem _ _ _ E). exact Hin. }
  destruct (strip_prefix (txt "pid=") line) as [s|]; [split; [done|split; [apply to_i32_range|done]]|].
  destruct (strip_prefix (txt "owned=") line) as [s|]; [done|].
  destruct (strip_prefix (txt "env.") line) as [s|] eqn:E'; [|done].
  assert (Hs : newline ∉ s) by (intros Hin; by apply Hl, (strip_prefix_elem _ _ _ E')).
  destruct (split_equals s) as [[[|c k] v]|] eqn:Es; [done| |done].
  apply split_equals_spec in Es as (Hk & Hk' & Hv); [|done]. split; [done|split; [done|]].
  apply (map_Forall_insert_2 _ (e_env e) (of_text (c :: k)) (of_text v)); [|done]. unfold one_line, of_text. rewrite !txt_of_text. done.
Qed.
Lemma new_entry_wf : partial_wf new_entry.
Proof. split; [by apply not_elem_of_nil|split; [cbn; lia|apply map_Forall_empty]]. Qed.
Lemma load_lines_wf l e b acc : Forall (λ l, newline ∉ l) l → partial_wf e → Forall entry_wf acc →
  Forall entry_wf (load_lines l e b acc).
Proof.
  intros Hl. revert e b acc. assert (Hacc : ∀ e b acc, partial_wf e → Forall entry_wf acc →
    Forall entry_wf (if b && valid e then acc ++ [e] else acc)).
  { intros e b acc He Ha. destruct (b && valid e) eqn:E; [|done]. apply andb_true_iff in E as [_ E].
    apply Forall_app. split; [done|]. apply Forall_singleton. by apply partial_full. }
  induction Hl as [|line l Hline _ IH]; intros e b acc He Ha; cbn [load_lines]; [by apply Hacc|].
  destruct line as [|c line]; [by apply IH|]. case_bool_decide.
  - apply IH; [apply new_entry_wf|by apply Hacc].
  - apply IH; [by apply load_line_wf|done].
Qed.
Lemma load_text_wf s : Forall entry_wf (load_text s).
Proof.
  unfold load_text. apply load_lines_wf; [|apply new_entry_wf|done]. unfold lines.
  destruct (complete_lines newline s) as [ls rest] eqn:E. apply complete_no_sep in E as [H1 H2].
  destruct rest; [done|]. apply Forall_app. split; [done|]. by apply Forall_singleton.
Qed.

(** ** Child processes over a restart

    The state file and the table agree; the next start finds every child; and what
    the lock does when the program executes itself. *)

(** ** The operations *)

Inductive RegOp := OpAdopt (role : string) (keys : list string) | OpSpawnOrAdopt (spec : ManagedChildSpec)
  | OpShutdown | OpEnsure (exec_path : string).
Definition op_wf (op : RegOp) : Prop := match op with OpSpawnOrAdopt spec => one_line (sp_role spec) | _ => True end.

Section Persist.
Context {K : Type} `{!Kernel K} `{!StringOrder}.
Local Abbreviation R := (Reg K).
Implicit Types (r : R) (k : K).

Definition reg_op (op : RegOp) : M R unit :=
  match op with
  | OpAdopt role keys => adopt role keys ;; ret tt
  | OpSpawnOrAdopt spec => spawn_or_adopt spec ;; ret tt
  | OpShutdown => shutdown_owned
  | OpEnsure path => ensure_embedded_display_server path ;; ret tt
  end.
Definition run_ops (ops : list RegOp) : M R unit := for_each ops reg_op.

(** What says where the files are. *)
Definition home k : option string * Z := (k_getenv "XDG_RUNTIME_DIR" k, k_getuid k).
Definition dir_of (h : option string * Z) : string :=
  match h.1 with
  | Some (String _ _ as dir) => dir
  | _ => ("/tmp/sirenwm-runtime-" +:+ of_text (show_int h.2))%string
  end.
Definition state_file (app : string) k : string := (dir_of (home k) +:+ "/" +:+ app +:+ "-children.state")%string.

(** Files keep what is written to them, and nothing else touches them; as long as
    the directory is [writable], a file in it can be opened for writing and takes
    the text; a process has a positive 32-bit number. *)
Context (content : K → gmap string text) (writable : K → Prop).
Definition same k k' : Prop := content k' = content k ∧ home k' = home k ∧ (writable k → writable k').
#[export] Instance same_preorder : PreOrder same.
Proof. split; [done|]. intros k1 k2 k3 (H1 & E1 & W1) (H2 & E2 & W2). split_and!; [congruence..|auto]. Qed.
Class FileLaws : Prop := {
  fw_read path k : k_read_file path k = content k !! path;
  fw_write path s k : writable k → (k_write_file path s k).1 = true ∧
    content (k_write_file path s k).2 = <[path := s]> (content k) ∧ home (k_write_file path s k).2 = home k ∧
    writable (k_write_file path s k).2;
  fw_rename a b s k : content k !! a = Some s → writable k →
    content (k_rename a b k) = <[b := s]> (delete a (content k)) ∧ home (k_rename a b k) = home k ∧
    writable (k_rename a b k);
  fw_setenv n v k : n ≠ "XDG_RUNTIME_DIR"%string → same k (k_setenv n v k);
  fw_mkdir d k : same k (k_mkdir d k);
  fw_open_lock p k : same k (k_open_lock p k).2;
  fw_lock fd k : same k (k_lock fd k).2;
  fw_unlock fd k : same k (k_unlock fd k);
  fw_close fd k : same k (k_close fd k);
  fw_alive pid k : same k (k_alive pid k).2;
  fw_terminate pid k : same k (k_terminate pid k);
  fw_waitpid pid b k : same k (k_waitpid pid b k).2;
  fw_pipe k : same k (k_pipe k).2;
  fw_fork argv fd k : same k (k_fork_exec argv fd k).2 ∧
    ∀ pid, (k_fork_exec argv fd k).1 = inr pid → 0 < pid < 2 ^ 31;
  fw_poll fd ms k : same k (k_poll fd ms k).2;
  fw_read_pipe fd k : same k (k_read fd k).2 }.
Context `{!FileLaws}.

(** *** What leaves table and files alone *)

Definition stays r r' : Prop := reg r' = reg r ∧ same (kern r) (kern r').
#[export] Instance stays_preorder : PreOrder stays.
Proof. split; [done|]. intros r1 r2 r3 [H1 E1] [H2 E2]. split; [congruence|by etrans]. Qed.
(** [m] returns, and leaves them alone. *)
Definition calm {A} (m : M R A) (Q : A → Prop) : Prop := ∀ r, wp m (λ a r', Q a ∧ stays r r') r.
Lemma calm_ret {A} (a : A) (Q : A → Prop) : Q a → calm (ret a) Q.
Proof using Type. intros HQ r. by split. Qed.
Lemma calm_bind {A B} (m : M R A) (k : A → M R B) Q Q' :
  calm m Q → (∀ a, Q a → calm (k a) Q') → calm (bind m k) Q'.
Proof using Type.
  intros Hm Hk r. apply wp_bind. eapply wp_mono; [apply Hm|]. cbv beta. intros a r1 [Ha H1].
  eapply wp_mono; [by apply Hk|]. cbv beta. intros b r2 [Hb H2]. split; [done|by etrans].
Qed.
Lemma calm_weaken {A} (m : M R A) (Q Q' : A → Prop) : (∀ a, Q a → Q' a) → calm m Q → calm m Q'.
Proof using Type. intros HQ Hm r. eapply wp_mono; [apply Hm|]. cbv beta. intros a r' [? ?]. split; [by apply HQ|done]. Qed.
Lemma calm_rget {A} (f : ChildProcessRegistry → A) : calm (rget f) (λ _, True).
Proof using Type. by intros r. Qed.
Lemma calm_kget {A} (f : K → A) : calm (kget f) (λ _, True).
Proof using Type. by intros r. Qed.
Lemma calm_kdo f : (∀ k, same k (f k)) → calm (kdo f) (λ _, True).
Proof using Type. intros Hf r. split; [done|]. split; [done|apply Hf]. Qed.
Lemma calm_kask {A} (q : K → A * K) : (∀ k, same k (q k).2) → calm (kask q) (λ _, True).
Proof using Type. intros Hq r. apply wp_kask. split; [done|]. split; [done|apply Hq]. Qed.
Lemma calm_if {A} (b : bool) (m1 m2 : M R A) Q : calm m1 Q → calm m2 Q → calm (if b then m1 else m2) Q.
Proof using Type. by destruct b. Qed.
End Persist.

Create HintDb calm.
#[export] Hint Resolve fw_mkdir fw_open_lock fw_lock fw_close fw_alive fw_terminate fw_waitpid fw_pipe fw_poll fw_read_pipe : calm.
(** One step by the structure of the program. *)
Ltac calm_step :=
  match goal with
  | |- calm _ _ (bind _ _) _ => apply (calm_bind _ _ _ _ (λ _, True)); [|intros ? _]
  | |- calm _ _ (ret _) _ => apply calm_ret
  | |- calm _ _ (rget _) _ => apply calm_rget
  | |- calm _ _ (kget _) _ => apply calm_kget
  | |- calm _ _ (kdo _) _ => apply calm_kdo
  | |- calm _ _ (kask _) _ => apply calm_kask
  | |- calm _ _ (if _ then _ else _) _ => apply calm_if
  | |- calm _ _ (match ?o with _ => _ end) _ => destruct o
  | |- ∀ _, same _ _ _ _ => intros ?
  | |- _ => solve [eauto with calm]
  | |- True => exact I
  end.
Ltac calm_auto := repeat (cbv zeta; calm_step).

Section Sync.
Context {K : Type} `{!Kernel K} `{!StringOrder} (content : K → gmap string text) (writable : K → Prop)
  `{!FileLaws content writable}.
Local Abbreviation R := (Reg K).
Local Abbreviation stays := (stays content writable).
Local Abbreviation same := (same content writable).
Local Abbreviation calm := (calm content writable).
Implicit Types (r : R) (k : K).

Lemma calm_alive pid : calm (is_process_alive pid) (λ _, True).
Proof using All. unfold is_process_alive. calm_auto. Qed.
Lemma calm_runtime_dir : calm runtime_dir (λ _, True).
Proof using All. unfold runtime_dir. calm_auto. Qed.
Hint Resolve calm_alive calm_runtime_dir : calm.
Lemma calm_ready e keys : calm (entry_ready e keys) (λ _, True).
Proof using All. unfold entry_ready, wayland_socket_exists. calm_auto. Qed.
Lemma calm_reap pid : calm (kill_and_reap pid) (λ _, True).
Proof using All. unfold kill_and_reap. calm_auto. Qed.
Hint Resolve calm_ready calm_reap : calm.

Lemma calm_wait_ticks n fd pid keys buffer env : env_wf env →
  calm (wait_ticks n fd pid keys buffer env) (λ x, env_wf x.2).
Proof using All.
  revert buffer env. induction n as [|n IH]; intros buffer env He; [by apply calm_ret|]. cbn [wait_ticks].
  apply (calm_bind _ _ _ _ (λ _, True)); [calm_auto|intros readable _].
  apply (calm_bind _ _ _ _ (λ _, True)); [calm_auto|intros chunk _].
  assert (Hnext : ∃ buffer' env', match chunk with Some ((_ :: _) as c) => take_lines (buffer ++ c) env | _ => (buffer, env) end
    = (buffer', env') ∧ env_wf env').
  { destruct chunk as [[|b c]|]; [by eauto| |by eauto]. unfold take_lines.
    destruct (complete_lines newline (buffer ++ b :: c)) as [ls rest] eqn:E. apply complete_no_sep in E as [H1 _].
    eexists _, _. split; [done|]. by apply publish_all_wf. }
  destruct Hnext as (buffer' & env' & -> & He'). apply calm_if; [by apply calm_ret|].
  apply (calm_bind _ _ _ _ (λ _, True)); [calm_auto|intros gone _]. apply calm_if; [by apply calm_ret|by apply IH].
Qed.
Lemma calm_spawn spec : one_line (sp_role spec) → sp_role spec ≠ ""%string →
  calm (spawn spec) (λ o, match o with inr e => entry_wf e ∧ e_role e = sp_role spec | inl _ => True end).
Proof using All.
  intros Hr Hn. unfold spawn, start_child. apply (calm_bind _ _ _ _ (λ _, True)); [calm_auto|intros [e|[rd wr]] _]; [by apply calm_ret|].
  apply (calm_bind _ _ _ _ (λ child, ∀ pid, child = inr pid → 0 < pid < 2 ^ 31)).
  { intros r. apply wp_kask. destruct (fw_fork content writable (sp_argv spec) wr (kern r)) as [H1 H2]. split; [done|by split]. }
  intros [e|pid] Hpid.
  - calm_auto.
  - apply (calm_bind _ _ _ _ (λ _, True)); [calm_auto|intros _ _].
    apply (calm_bind _ _ _ _ (λ x, env_wf x.2)); [apply calm_wait_ticks, map_Forall_empty|intros [ready env] He].
    apply (calm_bind _ _ _ _ (λ _, True)); [calm_auto|intros _ _]. apply calm_if; [calm_auto|].
    apply calm_ret. split; [|done]. split; [done|by apply Hpid|apply He].
Qed.

(** *** Table and file agree *)

Definition on_file (path : string) k : list Entry := match content k !! path with Some s => load_text s | None => [] end.
Definition table r : list Entry := entries_ (reg r).
Record synced r : Prop := {
  sy_wf : Forall entry_wf (table r);
  sy_roles : NoDup (e_role <$> table r);
  sy_writable : writable (kern r);
  sy_file : on_file (state_path_ (reg r)) (kern r) = table r }.
(** The files stay where they are. *)
Definition settles r r' : Prop := state_path_ (reg r') = state_path_ (reg r) ∧ home (kern r') = home (kern r).
#[local] Instance settles_preorder : PreOrder settles.
Proof using Type. split; [done|]. intros r1 r2 r3 [H1 E1] [H2 E2]. split; congruence. Qed.
Lemma stays_settles r r' : stays r r' → settles r r'.
Proof using Type. intros [E1 (_ & E2 & _)]. split; [by rewrite E1|done]. Qed.
Lemma stays_synced r r' : stays r r' → synced r → synced r'.
Proof using Type. intros [E1 (E2 & _ & W)] [H1 H2 Hw H3]. unfold table, on_file in *. split; unfold table, on_file; [by rewrite ?E1, ?E2..|by apply W|by rewrite ?E1, ?E2]. Qed.
Lemma stays_table r r' : stays r r' → table r' = table r.
Proof using Type. intros [E _]. unfold table. by rewrite E. Qed.

Lemma save_synced l r : Forall entry_wf l → NoDup (e_role <$> l) → writable (kern r) →
  wp (set_entries l ;; save_state) (λ _ r', synced r' ∧ settles r r' ∧ table r' = l) r.
Proof using All.
  intros Hl Hn Hwr. unfold set_entries, rset, save_state, rget. do 6 wp_step. cbv zeta. wp_step. apply wp_kask.
  set (r1 := r <| reg ::= _ |>). change (kern r1) with (kern r). change (entries_ (reg r1)) with l.
  change (state_path_ (reg r1)) with (state_path_ (reg r)). set (path := state_path_ (reg r)). set (s := save_text l).
  destruct (fw_write content writable (path +:+ ".tmp")%string s (kern r) Hwr) as (Hw & Hc & Hh & Hwr1). rewrite Hw. apply wp_kdo.
  destruct (fw_rename content writable (path +:+ ".tmp")%string path s (k_write_file (path +:+ ".tmp") s (kern r)).2) as (Hc' & Hh' & Hwr2).
  { by rewrite Hc, lookup_insert_eq. }
  { done. }
  set (r2 := _ <| kern ::= _ |>). assert (Ek : kern r2 = k_rename (path +:+ ".tmp") path (k_write_file (path +:+ ".tmp") s (kern r)).2) by done.
  split_and!; [|split; [done|by rewrite Ek, <- Hh]|done]. split; [done|done|by rewrite Ek|]. unfold on_file.
  change (state_path_ (reg r2)) with path. rewrite Ek, Hc', lookup_insert_eq. by apply state_file_roundtrip.
Qed.

Lemma save_then {A} l (m : M R A) Q r : Forall entry_wf l → NoDup (e_role <$> l) → writable (kern r) →
  (∀ r', synced r' → settles r r' → table r' = l → wp m Q r') → wp (set_entries l ;; save_state ;; m) Q r.
Proof using All.
  intros Hl Hn Hwr Hm. pose proof (save_synced l r Hl Hn Hwr) as Hsave. unfold wp, bind in *.
  destruct (set_entries l r) as [[[] r1]|]; [|done]. destruct (save_state r1) as [[[] r2]|]; [|done].
  by apply Hm; apply Hsave.
Qed.

Lemma roles_filter p l : NoDup (e_role <$> l) → NoDup (e_role <$> List.filter p l).
Proof using Type.
  induction l as [|e l IH]; [done|]. intros [Hne Hn]%NoDup_cons. cbn. destruct (p e); [|by apply IH].
  apply NoDup_cons. split; [|by apply IH]. intros Hin. apply Hne. clear -Hin. apply list_elem_of_fmap in Hin as (e' & E & Hin).
  apply list_elem_of_fmap. exists e'. split; [done|]. apply list_elem_of_In in Hin. apply list_elem_of_In.
  by apply filter_In in Hin as [? _].
Qed.
Lemma filter_wf p l : Forall entry_wf l → Forall entry_wf (List.filter p l).
Proof using Type.
  rewrite !Forall_forall. intros Hl e Hin%list_elem_of_In. apply filter_In in Hin as [Hin%list_elem_of_In _]. by apply Hl.
Qed.
Lemma find_entry_some role l i e : find_entry role l = Some (i, e) → l !! i = Some e ∧ e_role e = role.
Proof using Type. unfold find_entry. by intros (H1 & H2 & _)%list_find_Some. Qed.
Lemma find_entry_none role l : find_entry role l = None ↔ ∀ e, e ∈ l → e_role e ≠ role.
Proof using Type. unfold find_entry. rewrite list_find_None, Forall_forall. done. Qed.
(** What is left when the entry of a role is dropped. *)
Lemma dropped_entry l i e : Forall entry_wf l → NoDup (e_role <$> l) → l !! i = Some e →
  let l' := running_entries (<[i := forget_pid e]> l) in
  Forall entry_wf l' ∧ NoDup (e_role <$> l') ∧ ∀ e', e' ∈ l' → e_role e' ≠ e_role e.
Proof using Type.
  cbv zeta. intros Hl Hn Hi. unfold running_entries.
  assert (Hin : ∀ e', e' ∈ List.filter (λ e, negb (e_pid e <=? 0)) (<[i := forget_pid e]> l) →
    ∃ j, j ≠ i ∧ l !! j = Some e').
  { intros e' [Hin Hp]%list_elem_of_In%filter_In. apply list_elem_of_In, list_elem_of_lookup in Hin as (j & Hj).
    apply list_lookup_insert_Some in Hj as [(_ & <- & _)|[Hji Hj]]; [done|]. by exists j. }
  split_and!.
  - apply Forall_forall. intros e' (j & _ & Hj)%Hin. rewrite Forall_lookup in Hl. by eapply Hl.
  - apply roles_filter. rewrite list_fmap_insert. rewrite list_insert_id; [done|]. rewrite list_lookup_fmap, Hi. done.
  - intros e' (j & Hji & Hj)%Hin E. apply Hji. eapply NoDup_lookup; [exact Hn|rewrite list_lookup_fmap, Hj; done|].
    by rewrite list_lookup_fmap, Hi, E.
Qed.

Lemma adopt_synced role keys r : synced r →
  wp (adopt role keys) (λ o r', synced r' ∧ settles r r' ∧ (o = None → find_entry role (table r') = None)) r.
Proof using All.
  intros Hs. unfold adopt, rget. do 2 wp_step. fold (table r). destruct (find_entry role (table r)) as [[i e]|] eqn:E.
  - wp_step. eapply wp_mono; [apply calm_ready|]. cbv beta. intros ready r1 [_ H1]. destruct ready; cbn [negb].
    + apply wp_ret. split_and!; [by eapply stays_synced|by apply stays_settles|done].
    + apply find_entry_some in E as [Hi <-]. pose proof (stays_synced _ _ H1 Hs) as [_ _ Hwr _]. destruct Hs as [H2 H3 _ _].
      destruct (dropped_entry _ _ _ H2 H3 Hi) as (Hw & Hn & Hr).
      apply save_then; [done..|]. intros r2 S1 S2 S3. apply wp_ret.
      split_and!; [done|etrans; [by apply stays_settles|done]|]. intros _. rewrite S3. by apply find_entry_none.
  - apply wp_ret. by split_and!.
Qed.

Lemma adopt_or_replace_synced spec r : synced r → one_line (sp_role spec) → sp_role spec ≠ ""%string →
  wp (adopt_or_replace spec) (λ _ r', synced r' ∧ settles r r') r.
Proof using All.
  intros Hs Hrole Hne. unfold adopt_or_replace.
  wp_step. eapply wp_mono; [by apply adopt_synced|]. cbv beta. intros [info|] r1 (H1 & S1 & Hf); [by apply wp_ret|].
  unfold rget. do 2 wp_step. fold (table r1). rewrite Hf by done. do 2 wp_step. wp_step.
  eapply wp_mono; [by apply calm_spawn|]. cbv beta. intros [err|e] r2 [He S2].
  { apply wp_ret. split; [by eapply stays_synced|]. etrans; [done|by apply stays_settles]. }
  destruct He as [He Hrole']. do 2 wp_step. fold (table r2). rewrite (stays_table _ _ S2).
  pose proof (stays_synced _ _ S2 H1) as [_ _ Hwr _]. destruct H1 as [H1 H2 _ H3]. apply save_then; [..|done|].
  - apply Forall_app. split; [by apply filter_wf|by apply Forall_singleton].
  - rewrite fmap_app. apply NoDup_app. split_and!; [by apply roles_filter| |by apply NoDup_singleton].
    intros x Hx Hx'. cbn in Hx'. apply list_elem_of_singleton in Hx' as ->. apply list_elem_of_fmap in Hx as (e' & E & Hin).
    apply list_elem_of_In, filter_In in Hin as [_ Hin]. rewrite <- E, Hrole', String.eqb_refl in Hin. done.
  - intros r3 S3 S4 _. apply wp_ret. split; [done|]. etrans; [done|]. etrans; [by apply stays_settles|done].
Qed.
Lemma spawn_or_adopt_synced spec r : synced r → one_line (sp_role spec) →
  wp (spawn_or_adopt spec) (λ _ r', synced r' ∧ settles r r') r.
Proof using All.
  intros Hs Hrole. unfold spawn_or_adopt. destruct (String.eqb_spec (sp_role spec) "") as [_|Hne]; [by split|].
  destruct (sp_argv spec) as [|[|c a] argv]; [by split|by split|by apply adopt_or_replace_synced].
Qed.

(** *** Shutdown *)

Definition shut (e : Entry) : Entry := if negb (e_owned e) || (e_pid e <=? 0) then e else forget_pid e.
Lemma calm_shutdown l : calm (shutdown_entries l) (λ x, x.1 = shut <$> l ∧ (x.2 = false → shut <$> l = l)).
Proof using All.
  induction l as [|e l IH]; [by apply calm_ret|]. cbn [shutdown_entries].
  apply (calm_bind _ _ _ _ (λ x, x.1 = shut e ∧ (x.2 = false → shut e = e))).
  { unfold shutdown_entry, shut. destruct (negb (e_owned e) || (e_pid e <=? 0)); [by apply calm_ret|].
    do 2 (apply (calm_bind _ _ _ _ (λ _, True)); [calm_auto|intros ? _]). by apply calm_ret. }
  intros [e' b] [E Eb]. cbn in E. subst e'. eapply calm_bind; [exact IH|]. intros [l' b'] [E Eb']. cbn in E. subst l'.
  apply calm_ret. split; [done|]. cbn. intros [-> ->]%orb_false_iff. rewrite Eb by done. f_equal. by apply Eb'.
Qed.
Lemma running_shut l : Forall entry_wf l → NoDup (e_role <$> l) →
  Forall entry_wf (running_entries (shut <$> l)) ∧ NoDup (e_role <$> running_entries (shut <$> l)).
Proof using Type.
  intros Hl Hn. split.
  - unfold running_entries. apply Forall_forall. intros e [Hin Hp]%list_elem_of_In%filter_In.
    apply list_elem_of_In, list_elem_of_fmap in Hin as (e' & -> & Hin). rewrite Forall_forall in Hl. specialize (Hl _ Hin).
    unfold shut in *. by destruct (negb (e_owned e') || (e_pid e' <=? 0)).
  - apply roles_filter. assert (E : e_role <$> (shut <$> l) = e_role <$> l); [|by rewrite E].
    clear. induction l as [|e l IH]; [done|]. rewrite !fmap_cons, IH. f_equal. unfold shut. by destruct (negb _ || _).
Qed.
Lemma shutdown_synced r : synced r → wp shutdown_owned (λ _ r', synced r' ∧ settles r r') r.
Proof using All.
  intros Hs. unfold shutdown_owned, rget. do 2 wp_step. fold (table r). wp_step. eapply wp_mono; [apply calm_shutdown|].
  cbv beta. intros [l b] r1 [[E Eb] S1]. cbn [fst snd] in *. subst l. wp_step. unfold set_entries, rset at 1. wp_step.
  set (r2 := r1 <| reg ::= _ |>). assert (S2 : settles r r2) by (destruct (stays_settles _ _ S1); by split). destruct b.
  - pose proof (stays_synced _ _ S1 Hs) as [_ _ Hwr _]. destruct Hs as [H1 H2 _ _]. destruct (running_shut _ H1 H2) as [H3 H4].
    eapply wp_mono; [by apply save_synced|]. cbv beta. intros _ r3 (? & ? & _). split; [done|by etrans].
  - apply wp_ret. split; [|done]. assert (E2 : table r2 = table r) by (by apply Eb).
    pose proof (stays_synced _ _ S1 Hs) as [H1 H2 Hwr H3]. split; rewrite ?E2; [apply Hs..|exact Hwr|].
    change (on_file (state_path_ (reg r1)) (kern r1) = table r). by rewrite <- (stays_table _ _ S1).
Qed.

(** *** Runs *)

Lemma calm_export env n : n ≠ "XDG_RUNTIME_DIR"%string → calm (export_env env n) (λ _, True).
Proof using All.
  intros Hn. unfold export_env, set_env. destruct (env !! n) as [[|c v]|]; [by apply calm_ret| |by apply calm_ret].
  apply (calm_bind _ _ _ _ (λ _, True)); [|intros _ _; by apply calm_ret]. apply calm_kdo. intros k. by apply fw_setenv.
Qed.
Lemma calm_unset n v : n ≠ "XDG_RUNTIME_DIR"%string → calm (set_env n v) (λ _, True).
Proof using All. intros Hn. apply calm_kdo. intros k. by apply fw_setenv. Qed.
Lemma synced_then {A} (m : M R A) r0 r : synced r → settles r0 r → calm m (λ _, True) →
  wp m (λ _ r', synced r' ∧ settles r0 r') r.
Proof using Type.
  intros Hs S0 Hm. eapply wp_mono; [apply Hm|]. cbv beta. intros a r' [_ S1].
  split; [by eapply stays_synced|]. etrans; [done|by apply stays_settles].
Qed.
Lemma ensure_synced path r : synced r → wp (ensure_embedded_display_server path) (λ _ r', synced r' ∧ settles r r') r.
Proof using All.
  intros Hs. unfold ensure_embedded_display_server. wp_step. unfold kget at 1. wp_step.
  assert (Hspawn : wp (child <- spawn_or_adopt (display_server_spec path) ;;
    match child with
    | inl _ => ret false
    | inr info =>
        ok <- export_env (in_env info) "WAYLAND_DISPLAY" ;;
        if negb ok then ret false
        else export_env (in_env info) "SIRENWM_IPC_SOCKET" ;;
             shown <- export_env (in_env info) "DISPLAY" ;;
             (if (shown : bool) then ret tt else set_env "DISPLAY" None) ;; ret true
    end) (λ _ r', synced r' ∧ settles r r') r).
  { wp_step. eapply wp_mono; [apply spawn_or_adopt_synced; [done|by apply (bool_decide_unpack _); vm_compute]|].
    cbv beta. intros [err|info] r1 [H1 S1]; [by split|]. apply synced_then; [done|done|].
    pose proof calm_export. pose proof calm_unset. calm_auto. }
  destruct (k_getenv "WAYLAND_DISPLAY" (kern r)) as [[|c d]|]; [done| |done]. clear Hspawn.
  wp_step. eapply wp_mono; [by apply adopt_synced|]. cbv beta. intros [info|] r1 (H1 & S1 & _); [|by apply wp_ret].
  apply synced_then; [done|done|]. pose proof calm_export. calm_auto.
Qed.
Lemma run_ops_synced ops r : Forall op_wf ops → synced r → wp (run_ops ops) (λ _ r', synced r' ∧ settles r r') r.
Proof using All.
  intros Ho. revert r. induction Ho as [|op ops Hop _ IH]; intros r Hs; [by split|].
  unfold run_ops. cbn [for_each]. wp_step.
  assert (H1 : wp (reg_op op) (λ _ r', synced r' ∧ settles r r') r).
  { destruct op; cbn [reg_op].
    - wp_step. eapply wp_mono; [by apply adopt_synced|]. cbv beta. by intros o r' (? & ? & _).
    - wp_step. eapply wp_mono; [by apply spawn_or_adopt_synced|]. done.
    - by apply shutdown_synced.
    - wp_step. eapply wp_mono; [by apply ensure_synced|]. done. }
  eapply wp_mono; [exact H1|]. cbv beta. intros [] r1 [Hs1 S1].
  eapply wp_mono; [by apply IH|]. cbv beta. intros [] r2 [Hs2 S2]. split; [done|by etrans].
Qed.

(** The constructor takes the table from the file. *)
Lemma runtime_dir_spec r : wp runtime_dir (λ d r', d = dir_of (home (kern r)) ∧ stays r r') r.
Proof using All.
  unfold runtime_dir, dir_of, home, kget. do 2 wp_step. cbn [fst snd].
  assert (Hd : ∀ d, stays r (r <| kern ::= k_mkdir d |>)) by (intros d; split; [done|apply (fw_mkdir content writable)]).
  destruct (k_getenv "XDG_RUNTIME_DIR" (kern r)) as [[|c d]|]; [|by apply wp_ret|]; do 2 wp_step; wp_step;
    apply wp_kdo, wp_ret; split; first [done|apply Hd|reflexivity].
Qed.
Lemma lock_spec r : wp lock (λ _ r', state_path_ (reg r') = state_path_ (reg r) ∧ same (kern r) (kern r')) r.
Proof using All.
  unfold lock, rget, rset. do 2 wp_step. wp_step. apply wp_kask. do 2 wp_step.
  apply wp_if; intros _; [apply wp_ret; split; [done|apply (fw_open_lock content writable)]|].
  apply wp_kask. split; [done|]. etrans; [apply (fw_open_lock content writable)|apply (fw_lock content writable)].
Qed.
Lemma construct_spec app r : wp (construct app) (λ b r', same (kern r) (kern r') ∧
  state_path_ (reg r') = state_file app (kern r) ∧ (b = true → table r' = on_file (state_file app (kern r)) (kern r) ∧
    on_file (state_path_ (reg r')) (kern r') = table r')) r.
Proof using All.
  unfold construct. wp_step. eapply wp_mono; [apply runtime_dir_spec|]. cbv beta. intros d r1 [-> [E1 S1]].
  unfold rset at 1. do 2 wp_step. wp_step. eapply wp_mono; [apply lock_spec|]. cbv beta. intros b r3 [P3 S3].
  change (state_path_ _) with (state_file app (kern r)) in P3 at 2.
  assert (S : same (kern r) (kern r3)) by (etrans; [exact S1|exact S3]).
  destruct b; [|by apply wp_ret]. unfold load_state, rget, kget, set_entries, rset. do 4 wp_step. wp_step. apply wp_ret.
  rewrite P3, (fw_read content writable). split; [exact S|]. split; [exact P3|]. intros _. unfold on_file, table. cbn.
  destruct S as [Sc _]. by rewrite P3, Sc.
Qed.

(** The destructor gives the lock back and leaves table and file alone. *)
Lemma destruct_synced r : wp destruct_ (λ _ r', table r' = table r ∧ state_path_ (reg r') = state_path_ (reg r) ∧
  same (kern r) (kern r')) r.
Proof using All.
  unfold destruct_, unlock, rget, rset. do 2 wp_step. apply wp_if; intros _; [|by apply wp_ret].
  wp_step. apply wp_kdo. wp_step. apply wp_kdo. wp_step. split_and!; [done..|].
  etrans; [apply (fw_unlock content writable)|apply (fw_close content writable)].
Qed.
End Sync.
