(* ===== verification/ChildFaults.v ===== *)
(** * What the registry of child processes does not do

    It does not stop a child it replaces; over an exec restart it waits for its own
    lock.  Then a kernel in which the claims apply. *)

From S2P Require Import Prelude Exceptions TextStream ChildRegistry ChildProps.
Local Open Scope Z_scope.

Lemma preserves_kask {K A} (P : Reg K → Reg K → Prop) (q : K → A * K) :
  (∀ r, P r (r <| kern := (q (kern r)).2 |>)) → preserves P (kask q).
Proof. intros Hq r a r'. unfold kask. destruct (q (kern r)) as [b k] eqn:E. intros [= _ <-]. specialize (Hq r). by rewrite E in Hq. Qed.
Ltac reg_step :=
  match goal with
  | |- preserves _ (rget _) => apply preserves_gets, _
  | |- preserves _ (kget _) => apply preserves_gets, _
  | |- preserves _ (rset _) => apply preserves_modify; [apply _|first [done|intros ? Hsame; exact Hsame]]
  | |- preserves _ (set_entries _) => apply preserves_modify; [apply _|first [done|intros ? Hsame; exact Hsame]]
  | |- preserves _ (kdo _) => apply preserves_modify; [apply _|intros ?]
  | |- preserves _ (kask _) => apply preserves_kask; intros ?
  | |- preserves _ (match ?x with _ => _ end) => destruct x
  | |- preserves _ _ => preserves_step
  | |- preserves _ _ => solve [eauto with reg]
  end.
Create HintDb reg.

(** ** Signals *)

Section Signals.
Context {K : Type} `{!Kernel K} `{!StringOrder} (content : K → gmap string text) (writable : K → Prop)
  `{!FileLaws content writable}.
(** The processes that were sent SIGTERM. *)
Context (killed : K → list Z).
Local Abbreviation R := (Reg K).
Implicit Types (r : R) (k : K).
Class Signals : Prop := {
  sg_mkdir d k : killed (k_mkdir d k) = killed k;
  sg_write p s k : killed (k_write_file p s k).2 = killed k;
  sg_rename a b k : killed (k_rename a b k) = killed k;
  sg_close fd k : killed (k_close fd k) = killed k;
  sg_alive pid k : killed (k_alive pid k).2 = killed k;
  sg_terminate pid k : killed (k_terminate pid k) = killed k ++ [pid];
  sg_waitpid pid b k : killed (k_waitpid pid b k).2 = killed k;
  sg_pipe k : killed (k_pipe k).2 = killed k;
  sg_fork argv fd k : killed (k_fork_exec argv fd k).2 = killed k;
  sg_poll fd ms k : killed (k_poll fd ms k).2 = killed k;
  sg_read fd k : killed (k_read fd k).2 = killed k }.
Context `{!Signals}.

Definition spares r r' : Prop := killed (kern r') = killed (kern r).
#[local] Instance spares_preorder : PreOrder spares.
Proof using Type. split; [done|]. intros r1 r2 r3 E1 E2. unfold spares in *. congruence. Qed.
Hint Extern 1 (spares _ _) => first [apply sg_mkdir | apply sg_write | apply sg_rename | apply sg_close
  | apply sg_alive | apply sg_waitpid | apply sg_pipe | apply sg_fork | apply sg_poll | apply sg_read] : reg.
Ltac spares_auto := repeat (cbv zeta; first [reg_step|solve [eauto with reg]]).

Lemma spares_ready e keys : preserves spares (entry_ready e keys).
Proof using All. unfold entry_ready, is_process_alive, wayland_socket_exists, runtime_dir. spares_auto. Qed.
Lemma spares_save : preserves spares save_state.
Proof using All. unfold save_state. spares_auto. Qed.
Lemma spares_adopt role keys : preserves spares (adopt role keys).
Proof using All. pose proof spares_ready. pose proof spares_save. unfold adopt. spares_auto. Qed.
Lemma spares_wait n fd pid keys buffer env : preserves spares (wait_ticks n fd pid keys buffer env).
Proof using All. revert buffer env. induction n as [|n IH]; intros buffer env; cbn [wait_ticks]; spares_auto. Qed.
Lemma wp_save_true r : wp save_state (λ _ _, True) r.
Proof using Type.
  unfold save_state, rget. do 4 wp_step. wp_step. apply wp_kask. apply wp_if; intros _; [by apply wp_kdo|by apply wp_ret].
Qed.
(** A start that succeeds. *)
Lemma spares_spawn spec r : wp (spawn spec) (λ o r', ∀ e, o = inr e → spares r r') r.
Proof using All.
  unfold spawn, start_child. wp_step. apply wp_kask. set (r1 := _ <| kern := _ |>). assert (H1 : spares r r1) by apply sg_pipe.
  destruct (k_pipe (kern r)).1 as [e|[rd wr]]; [by apply wp_ret|]. wp_step. apply wp_kask.
  set (r2 := _ <| kern := _ |>). assert (H2 : spares r1 r2) by apply sg_fork.
  destruct (k_fork_exec _ _ _).1 as [e|pid]; [by do 2 (wp_step; apply wp_kdo); apply wp_ret|].
  wp_step. apply wp_kdo. set (r3 := _ <| kern ::= _ |>). assert (H3 : spares r2 r3) by apply sg_close.
  wp_step. unfold wait_for_env_lines. eapply wp_mono.
  { apply (wp_preserves spares); [apply spares_wait|]. apply (calm_wait_ticks content writable), map_Forall_empty. }
  cbv beta. intros [ready env] r4 [_ H4]. wp_step. apply wp_kdo. set (r5 := _ <| kern ::= _ |>).
  assert (H5 : spares r4 r5) by apply sg_close. destruct ready; cbn [negb].
  - apply wp_ret. intros e _. by etrans; [|etrans; [|etrans; [|etrans]]].
  - wp_step. apply wp_kdo. wp_step. apply wp_kask. by apply wp_ret.
Qed.

(** C37: a child that is replaced is not stopped.  The code means to terminate the
    registered process of a role, if it runs but is of no use, before it starts
    another; but [adopt] has dropped the entry by then.  A start that succeeds
    sends no signal at all. *)
Theorem replaced_child_keeps_running spec r : synced content writable r → one_line (sp_role spec) →
  wp (spawn_or_adopt spec) (λ o r', ∀ info, o = inr info → killed (kern r') = killed (kern r)) r.
Proof using All.
  intros Hs Hrole. unfold spawn_or_adopt. destruct (String.eqb_spec (sp_role spec) "") as [_|Hne]; [by apply wp_ret|].
  assert (Hgo : wp (adopt_or_replace spec) (λ o r', ∀ info, o = inr info → spares r r') r).
  { unfold adopt_or_replace. wp_step. eapply wp_mono.
    { apply (wp_preserves spares); [apply spares_adopt|]. by apply adopt_synced. }
    cbv beta. intros [info|] r1 [(_ & _ & Hf) H1]; [by apply wp_ret|]. unfold rget. do 2 wp_step.
    fold (table r1). rewrite Hf by done. do 2 wp_step. wp_step. eapply wp_mono; [apply spares_spawn|]. cbv beta.
    intros [err|e] r2 H2; [by apply wp_ret|]. specialize (H2 e eq_refl). do 2 wp_step.
    unfold set_entries, rset. do 2 wp_step. set (r3 := r2 <| reg ::= _ |>). wp_step.
    eapply wp_mono; [apply (wp_preserves spares); [apply spares_save|apply wp_save_true]|].
    cbv beta. intros _ r4 [_ H4]. apply wp_ret. intros info _. etrans; [exact H1|]. by etrans; [exact H2|]. }
  destruct (sp_argv spec) as [|[|c a] argv]; [by apply wp_ret|by apply wp_ret|exact Hgo].
Qed.
End Signals.

(** ** The lock *)

Section Lock.
Context {K : Type} `{!Kernel K} `{!StringOrder}.
(** The descriptor through which the lock is held.  It stays open over [execve],
    and a file opened again is another descriptor. *)
Context (holder : K → option Z).
Local Abbreviation R := (Reg K).
Implicit Types (r : R) (k : K).
Class FlockLaws : Prop := {
  fl_setenv n v k : holder (k_setenv n v k) = holder k;
  fl_mkdir d k : holder (k_mkdir d k) = holder k;
  fl_write p s k : holder (k_write_file p s k).2 = holder k;
  fl_rename a b k : holder (k_rename a b k) = holder k;
  fl_alive pid k : holder (k_alive pid k).2 = holder k;
  fl_terminate pid k : holder (k_terminate pid k) = holder k;
  fl_waitpid pid b k : holder (k_waitpid pid b k).2 = holder k;
  fl_fork argv fd k : holder (k_fork_exec argv fd k).2 = holder k;
  fl_poll fd ms k : holder (k_poll fd ms k).2 = holder k;
  fl_read fd k : holder (k_read fd k).2 = holder k;
  fl_pipe k : holder (k_pipe k).2 = holder k ∧
    ∀ rd wr, (k_pipe k).1 = inr (rd, wr) → holder k ≠ Some rd ∧ holder k ≠ Some wr;
  fl_close fd k : holder k ≠ Some fd → holder (k_close fd k) = holder k;
  fl_open p k : holder (k_open_lock p k).2 = holder k ∧ holder k ≠ Some (k_open_lock p k).1;
  fl_unlock fd k : holder k = Some fd → holder (k_unlock fd k) = None;
  (** [flock]: granted when nobody holds it, else the caller waits *)
  fl_lock fd k : match holder k with
                 | None => (k_lock fd k).1 = true ∧ holder (k_lock fd k).2 = Some fd
                 | Some h => h ≠ fd → (k_lock fd k).1 = false
                 end }.
Context `{!FlockLaws}.

(** The lock is held through [h], or by nobody, and stays so; the registry keeps its
    descriptor of the lock file. *)
Context (h : option Z).
Definition holding r r' : Prop :=
  holder (kern r) = h → holder (kern r') = h ∧ lock_fd_ (reg r') = lock_fd_ (reg r).
#[export] Instance holding_preorder : PreOrder holding.
Proof using Type.
  unfold holding. split; [done|]. intros r1 r2 r3 H1 H2 Hr. destruct (H1 Hr) as [Hr2 E1].
  destruct (H2 Hr2) as [Hr3 E2]. split; congruence.
Qed.
Lemma holding_same r r' : holder (kern r') = holder (kern r) → lock_fd_ (reg r') = lock_fd_ (reg r) → holding r r'.
Proof using Type. unfold holding. intros E1 E2 Hr. split; congruence. Qed.
Hint Extern 1 (holding _ _) => apply holding_same; [|done]; first [apply fl_setenv | apply fl_mkdir | apply fl_write
  | apply fl_rename | apply fl_alive | apply fl_terminate | apply fl_waitpid | apply fl_fork | apply fl_poll
  | apply fl_read | apply fl_pipe] : reg.
Ltac holding_auto := repeat (cbv zeta; first [reg_step|solve [eauto with reg]]).

Lemma holding_runtime_dir : preserves holding runtime_dir.
Proof using All. unfold runtime_dir. holding_auto. Qed.
Lemma holding_alive pid : preserves holding (is_process_alive pid).
Proof using All. unfold is_process_alive. holding_auto. Qed.
Hint Resolve holding_runtime_dir holding_alive : reg.
Lemma holding_ready e keys : preserves holding (entry_ready e keys).
Proof using All. unfold entry_ready, wayland_socket_exists. holding_auto. Qed.
Lemma holding_save : preserves holding save_state.
Proof using All. unfold save_state. holding_auto. Qed.
Lemma holding_reap pid : preserves holding (kill_and_reap pid).
Proof using All. unfold kill_and_reap. holding_auto. Qed.
Hint Resolve holding_ready holding_save holding_reap : reg.
Lemma holding_adopt role keys : preserves holding (adopt role keys).
Proof using All. unfold adopt. holding_auto. Qed.
Lemma holding_wait n fd pid keys buffer env : preserves holding (wait_ticks n fd pid keys buffer env).
Proof using All. revert buffer env. induction n as [|n IH]; intros buffer env; cbn [wait_ticks]; holding_auto. Qed.
Lemma holding_close fd : h ≠ Some fd → preserves holding (kdo (k_close fd)).
Proof using All.
  intros Hfd. apply preserves_modify; [apply _|]. intros r Hr. split; [|done]. cbn. rewrite fl_close; [done|]. by rewrite Hr.
Qed.
Hint Resolve holding_adopt holding_wait holding_close : reg.
Lemma holding_start spec rd wr : h ≠ Some rd → h ≠ Some wr → preserves holding (start_child spec rd wr).
Proof using All.
  intros Hrd Hwr. pose proof (holding_close rd Hrd). pose proof (holding_close wr Hwr). unfold start_child, wait_for_env_lines.
  apply preserves_bind; [apply _|holding_auto|]. intros [e|pid].
  - repeat (apply preserves_bind; [apply _|done|intros _]). holding_auto.
  - apply preserves_bind; [apply _|done|intros _]. apply preserves_bind; [apply _|apply holding_wait|intros [ready env]].
    apply preserves_bind; [apply _|done|intros _]. holding_auto.
Qed.
(** The pipe is not the lock, so closing it does not release it. *)
Lemma holding_spawn spec : preserves holding (spawn spec).
Proof using All.
  intros r a r' E Hr. destruct (fl_pipe (kern r)) as [Hp1 Hp2]. unfold spawn, bind, kask in E.
  destruct (k_pipe (kern r)) as [[e|[rd wr]] k1]; cbn in Hp1, Hp2.
  - injection E as _ <-. cbn. by rewrite Hp1.
  - destruct (Hp2 _ _ eq_refl). refine (holding_start spec rd wr _ _ _ _ _ E _); [congruence..|]. cbn. by rewrite Hp1.
Qed.
Hint Resolve holding_spawn : reg.
Lemma holding_spawn_or_adopt spec : preserves holding (spawn_or_adopt spec).
Proof using All. unfold spawn_or_adopt, adopt_or_replace. holding_auto. Qed.
Lemma holding_shutdown : preserves holding shutdown_owned.
Proof using All.
  assert (He : ∀ l, preserves holding (shutdown_entries l)).
  { intros l. induction l as [|e l IH]; cbn [shutdown_entries]; unfold shutdown_entry; holding_auto. }
  unfold shutdown_owned. holding_auto.
Qed.
Hint Resolve holding_spawn_or_adopt holding_shutdown : reg.
Lemma holding_ops ops : preserves holding (run_ops ops).
Proof using All.
  apply preserves_for_each; [apply _|]. intros op. destruct op; cbn [reg_op]; [holding_auto..|].
  unfold ensure_embedded_display_server, export_env, set_env. holding_auto.
Qed.
End Lock.

Section Restart.
Context {K : Type} `{!Kernel K} `{!StringOrder} (holder : K → option Z) `{!FlockLaws holder}.
Local Abbreviation R := (Reg K).
Implicit Types (r : R).

Definition taken r : Prop :=
  holder (kern r) = if lock_fd_ (reg r) <? 0 then None else Some (lock_fd_ (reg r)).
Lemma lock_taken r : wp lock (λ b r',
  (holder (kern r) = None → b = true ∧ taken r') ∧
  (holder (kern r) ≠ None → b = true → lock_fd_ (reg r') < 0)) r.
Proof using All.
  unfold lock, rget, rset. do 2 wp_step. wp_step. apply wp_kask. do 2 wp_step.
  set (fd := (k_open_lock _ _).1). destruct (fl_open holder (lock_path_ (reg r)) (kern r)) as [Ho Hfd]. apply wp_if.
  - intros Hlt. apply wp_ret. unfold taken. cbn. fold fd. rewrite Hlt. split; [by rewrite Ho|lia].
  - intros Hge. apply wp_kask. unfold taken. cbn [kern reg]. set (k1 := (k_open_lock _ _).2) in *.
    pose proof (fl_lock holder fd k1) as Hl. rewrite Ho in Hl. destruct (holder (kern r)) as [h|].
    + split; [done|]. intros _ Hb. change ((k_lock fd k1).1 = true) in Hb. rewrite Hl in Hb; [done|].
      intros ->. by apply Hfd.
    + split; [|done]. intros _. cbn. fold fd. rewrite Hge. split; [exact (proj1 Hl)|exact (proj2 Hl)].
Qed.
Lemma construct_taken app r : wp (construct app) (λ b r',
  (holder (kern r) = None → b = true ∧ taken r') ∧
  (holder (kern r) ≠ None → b = true → lock_fd_ (reg r') < 0)) r.
Proof using All.
  unfold construct. wp_step.
  assert (Hd : wp runtime_dir (λ _ r1, holder (kern r1) = holder (kern r)) r).
  { unfold runtime_dir, kget. do 2 wp_step. destruct (k_getenv _ _) as [[|c d]|]; [|by apply wp_ret|]; do 2 wp_step; wp_step;
      apply wp_kdo, wp_ret, (fl_mkdir holder). }
  eapply wp_mono; [exact Hd|]. cbv beta. intros d r1 E1. unfold rset at 1. do 2 wp_step. wp_step.
  eapply wp_mono; [apply lock_taken|]. cbv beta. set (r2 := r1 <| reg ::= _ |>).
  assert (E2 : holder (kern r2) = holder (kern r)) by exact E1. clearbody r2. rewrite E2. intros b r3 H3.
  destruct b; [|by apply wp_ret].
  unfold load_state, rget, kget, set_entries, rset. do 4 wp_step. wp_step. by apply wp_ret.
Qed.
(** C36: an exec restart waits for itself.  The descriptor of the lock file is not
    closed over [execve], and the lock belongs to it: once a registry has the lock,
    then, whatever it does until the program executes itself (which destroys
    nothing), the constructor in the new image never returns, unless the lock file
    cannot be opened at all. *)
Theorem exec_restart_blocks app ops r r1 r2 g b r3 :
  construct app r = Some (true, r1) → 0 ≤ lock_fd_ (reg r1) → run_ops ops r1 = Some (tt, r2) →
  construct app (mkReg g (kern r2)) = Some (b, r3) → b = false ∨ lock_fd_ (reg r3) < 0.
Proof using All.
  intros E1 Hfd E2 E3. pose proof (construct_taken app r) as H1. unfold wp in H1. rewrite E1 in H1.
  destruct H1 as [H1 H1']. destruct (holder (kern r)) as [h|] eqn:Eh; [specialize (H1' ltac:(done) eq_refl); lia|].
  destruct (H1 eq_refl) as [_ Hh]. unfold taken in Hh. rewrite (proj2 (Z.ltb_ge _ _) Hfd) in Hh.
  destruct (holding_ops holder _ ops _ _ _ E2 Hh) as [Hh2 _].
  pose proof (construct_taken app (mkReg g (kern r2))) as H3. unfold wp in H3. rewrite E3 in H3. cbn [kern] in H3.
  rewrite Hh2 in H3. destruct b; [|by left]. right. by apply H3.
Qed.

(** The destructor gives the lock back. *)
Lemma destruct_free r : taken r → wp destruct_ (λ _ r', holder (kern r') = None) r.
Proof using All.
  intros Ht. unfold destruct_, unlock, rget, rset. do 2 wp_step. unfold taken in Ht. apply wp_if.
  - intros Hfd%Z.leb_le. rewrite (proj2 (Z.ltb_ge _ _) Hfd) in Ht. pose proof (fl_unlock holder _ _ Ht) as Hu.
    wp_step. apply wp_kdo. wp_step. apply wp_kdo. wp_step. cbn. rewrite (fl_close holder); congruence.
  - intros Hfd%Z.leb_gt. apply wp_ret. by rewrite (proj2 (Z.ltb_lt _ _) Hfd) in Ht.
Qed.

Context (content : K → gmap string text) (writable : K → Prop) `{!FileLaws content writable}.

(** A new registry starts, and finds these children. *)
Definition finds app (l : list Entry) k : Prop :=
  ∀ g, wp (construct app) (λ b r, b = true ∧ table r = l) (mkReg g k).

(** C13: no child is lost over a restart.  The lock is free and the state file has
    one entry for a role; then the constructor returns, and so does any sequence of
    adoptions, starts and shutdowns; and once the program has ended, by the
    destructor or however else the lock became free, and as long as the state file
    could be written, the constructor of the next program returns and finds in the
    file exactly the children of the old one, each with its process and with the
    environment it published. *)
Theorem restart_keeps_children app ops r : holder (kern r) = None → writable (kern r) →
  NoDup (e_role <$> on_file content (state_file app (kern r)) (kern r)) → Forall op_wf ops →
  wp (construct app) (λ b r1, b = true ∧ wp (run_ops ops) (λ _ r2,
    wp destruct_ (λ _ r3, finds app (table r2) (kern r3)) r2 ∧
    ∀ k, same content writable (kern r2) k → holder k = None → finds app (table r2) k) r1) r.
Proof using All.
  intros Hfree Hw Hn Ho.
  eapply wp_mono; [apply (wp_and _ _ _ _ (construct_taken app r) (construct_spec content writable app r))|].
  cbv beta. intros b r1 [[H1 _] (S1 & P1 & Hb)]. destruct (H1 Hfree) as [-> Ht1]. split; [done|].
  destruct (Hb eq_refl) as [T1 F1]. assert (Hs : synced content writable r1).
  { destruct S1 as (_ & _ & W1). split; [|by rewrite T1|auto|done]. rewrite T1. unfold on_file.
    destruct (_ !! _); [apply load_text_wf|done]. }
  eapply wp_mono; [by apply (wp_preserves (holding holder (holder (kern r1)))); [apply (holding_ops holder)|apply (run_ops_synced content writable)]|].
  cbv beta. intros _ r2 [[[_ _ _ H2] [P2 S2]] Hh]. destruct (Hh eq_refl) as [Hh2 Hfd2].
  assert (∀ k, same content writable (kern r2) k → holder k = None → finds app (table r2) k) as Hfind.
  { intros k Hk Hfk g.
    eapply wp_mono; [apply (wp_and _ _ _ _ (construct_taken app (mkReg g k)) (construct_spec content writable app (mkReg g k)))|].
    cbv beta. intros b r3 [[H3 _] (_ & _ & Hb')]. destruct (H3 Hfk) as [-> _]. split; [done|].
    destruct (Hb' eq_refl) as [-> _]. rewrite <- H2, P2, P1. destruct Hk as (Ck & Hk & _), S1 as (_ & E1 & _). cbn [kern].
    unfold state_file, on_file. by rewrite Ck, Hk, S2, E1. }
  split; [|done].
  assert (taken r2) as Ht2 by by unfold taken; rewrite Hh2, Hfd2.
  eapply wp_mono; [apply (wp_and _ _ _ _ (destruct_free r2 Ht2) (destruct_synced content writable r2))|].
  cbv beta. intros _ r3 [Hf3 (_ & _ & S3)]. by apply Hfind.
Qed.
End Restart.

(** ** A kernel *)

(** Files, environment, open descriptors with the one that holds the lock, the
    processes that run, those that were signalled, what the child will write in
    how many pieces, and what it has written. *)
Record ExKernel := mkExKernel {
  ek_files : gmap string text; ek_env : gmap string string; ek_next_fd : Z; ek_holder : option Z;
  ek_alive : list Z; ek_killed : list Z; ek_next_pid : Z; ek_output : list text; ek_delivered : text }.
#[export] Instance eta_ExKernel : Eta ExKernel := λ k,
  mkExKernel (ek_files k) (ek_env k) (ek_next_fd k) (ek_holder k) (ek_alive k) (ek_killed k) (ek_next_pid k)
    (ek_output k) (ek_delivered k).
#[export] Instance ex_string_order : StringOrder := {| string_order := map_to_list; string_order_perm _ := reflexivity _ |}.
#[export] Instance ex_kernel : Kernel ExKernel := {
  k_getenv n k := ek_env k !! n;
  k_setenv n v k := if bool_decide (n = "XDG_RUNTIME_DIR"%string) then k
                    else k <| ek_env ::= λ m, match v with Some v => <[n := v]> m | None => delete n m end |>;
  k_getuid _ := 1000;
  k_mkdir _ k := k;
  k_open_lock _ k := (match ek_holder k with Some h => h + 1 | None => ek_next_fd k end, k);
  k_lock fd k := match ek_holder k with
                 | None => (true, k <| ek_holder := Some fd |>)
                 | Some h => (bool_decide (h = fd), k)
                 end;
  k_unlock fd k := k <| ek_holder := None |>;
  k_close fd k := if bool_decide (ek_holder k = Some fd) then k <| ek_holder := None |> else k;
  k_read_file p k := ek_files k !! p;
  k_write_file p s k := (true, k <| ek_files ::= <[p := s]> |>);
  k_rename a b k := k <| ek_files ::= λ m, match m !! a with Some s => <[b := s]> (delete a m) | None => m end |>;
  k_is_socket _ _ := true;
  k_alive pid k := (bool_decide (pid ∈ ek_alive k), k);
  k_terminate pid k := k <| ek_killed ::= λ l, l ++ [pid] |>;
  k_waitpid _ _ k := (false, k);
  k_pipe k := match ek_holder k with
              | Some h => (inr (h + 1, h + 2), k)
              | None => (inr (8, 9), k)
              end;
  k_fork_exec _ _ k := if bool_decide (0 < ek_next_pid k < 2 ^ 31)
                       then (inr (ek_next_pid k), k <| ek_alive ::= cons (ek_next_pid k) |>) else (inl "EAGAIN"%string, k);
  k_poll _ _ k := (true, k);
  k_read _ k := match ek_output k with
                | [] => (None, k)
                | c :: l => (Some c, k <| ek_output := l |> <| ek_delivered ::= λ s, s ++ c |>)
                end }.

#[export] Instance ex_file_laws : FileLaws ek_files (λ _, True).
Proof.
  split; intros; try done.
  - cbn. intros. rewrite H. done.
  - cbn. rewrite bool_decide_eq_false_2 by done. split; [done|]. unfold home. cbn. f_equal.
    destruct v; [by rewrite lookup_insert_ne|by rewrite lookup_delete_ne].
  - cbn. by destruct (ek_holder k).
  - cbn. by destruct (bool_decide _).
  - cbn. by destruct (ek_holder k).
  - cbn. case_bool_decide; [|done]. split; [done|]. by intros pid [= <-].
  - cbn. by destruct (ek_output k).
Qed.
#[export] Instance ex_signals : Signals ek_killed.
Proof.
  split; intros; try done; cbn.
  - by destruct (bool_decide _).
  - by destruct (ek_holder k).
  - by case_bool_decide.
  - by destruct (ek_output k).
Qed.
#[export] Instance ex_flock_laws : FlockLaws ek_holder.
Proof.
  split; intros; try done; cbn.
  - by destruct (bool_decide _).
  - by case_bool_decide.
  - by destruct (ek_output k).
  - destruct (ek_holder k) as [h|] eqn:E; (split; [done|]); intros rd wr [= <- <-]; split; intros [= ?]; lia.
  - by rewrite bool_decide_eq_false_2.
  - destruct (ek_holder k) as [h|] eqn:E; (split; [done|]); intros [= ?]; lia.
  - destruct (ek_holder k) as [h|]; [|done]. intros Hfd. cbn. by apply bool_decide_eq_false_2.
Qed.
#[export] Instance ex_delivers : Delivers ek_delivered.
Proof.
  split; intros; try done. cbn in *. destruct (ek_output k) as [|c' l]; injection H as <- <-; [by rewrite app_nil_r|done].
Qed.

(** The display server of an earlier run, which has published too little; and what
    the next one will write, in three pieces. *)
Definition ex_child : Entry := mkEntry "display-server" 41 true {["WAYLAND_DISPLAY" := "wl-0"]}%string.
Definition ex_other : Entry := mkEntry "portal" 42 false ∅.
Definition ex_output : list text :=
  [txt "WAYLAND_DIS"; txt "PLAY=wl-1" ++ [newline] ++ txt "log: ready" ++ [newline] ++ txt "SIREN";
   txt "WM_IPC_SOCKET=/run/s=1" ++ [newline]].
Definition ex_state_path : string := "/run/user/sirenwm-children.state".
Definition ex_kern : ExKernel :=
  mkExKernel {[ex_state_path := save_text [ex_child; ex_other]]} {["XDG_RUNTIME_DIR" := "/run/user"]}%string
    3 None [41; 42] [] 43 ex_output [].
Definition ex_reg : Reg ExKernel := mkReg (mkRegistry "" "" (-1) []) ex_kern.
Definition ex_spec : ManagedChildSpec := display_server_spec "/usr/bin/sirenwm".
Definition state_of {A} (m : M (Reg ExKernel) A) (r : Reg ExKernel) : Reg ExKernel :=
  match m r with Some (_, r') => r' | None => r end.
Definition ex_built := state_of (construct "sirenwm") ex_reg.
Definition ex_run := state_of (run_ops [OpSpawnOrAdopt ex_spec]) ex_built.

Lemma ex_entries_wf : Forall entry_wf [ex_child; ex_other].
Proof.
  repeat apply Forall_cons_2; [..|apply Forall_nil_2].
  - split; [split; [done|by apply (bool_decide_unpack _); vm_compute]|cbn; lia|].
    unfold ex_child. cbn [e_env]. intros k v [<- <-]%lookup_singleton_Some. split_and!; [done|..]; by apply (bool_decide_unpack _); vm_compute.
  - split; [split; [done|by apply (bool_decide_unpack _); vm_compute]|cbn; lia|].
    unfold ex_other. cbn [e_env]. intros k v Hkv. by apply lookup_empty_Some in Hkv.
Qed.
Lemma state_file_roundtrip_witness : load_text (save_text [ex_child; ex_other]) = [ex_child; ex_other].
Proof. apply state_file_roundtrip, ex_entries_wf. Defined.

Definition ex_waiting : Reg ExKernel := ex_reg.
Lemma wait_reads_lines_witness :
  wp (wait_for_env_lines 8 43 ["SIRENWM_IPC_SOCKET"%string] 1000) (λ x r', x.2 = published (ek_delivered (kern r')) ∧
    x.1 = has_all_keys x.2 ["SIRENWM_IPC_SOCKET"%string] ∧ reg r' = reg ex_waiting) ex_waiting ∧
  published (concat ex_output) = {["WAYLAND_DISPLAY" := "wl-1"; "SIRENWM_IPC_SOCKET" := "/run/s=1"]}%string.
Proof. split; [by apply (wait_reads_lines ek_delivered)|by vm_compute]. Defined.

Lemma restart_keeps_children_witness :
  table ex_run = [ex_other; mkEntry "display-server" 43 true (published (concat ex_output))] ∧
  (fst <$> construct "sirenwm" (mkReg (reg ex_reg) (kern (state_of destruct_ ex_run)))) = Some true ∧
  wp (construct "sirenwm") (λ b r1, b = true ∧ wp (run_ops [OpSpawnOrAdopt ex_spec]) (λ _ r2,
    wp destruct_ (λ _ r3, finds "sirenwm" (table r2) (kern r3)) r2 ∧
    ∀ k, same ek_files (λ _, True) (kern r2) k → ek_holder k = None → finds "sirenwm" (table r2) k) r1) ex_reg.
Proof.
  split; [by vm_compute|]. split; [by vm_compute|].
  apply (restart_keeps_children ek_holder ek_files (λ _, True) "sirenwm" [OpSpawnOrAdopt ex_spec] ex_reg).
  - by vm_compute.
  - done.
  - by apply (bool_decide_unpack _); vm_compute.
  - apply Forall_singleton. by apply (bool_decide_unpack _); vm_compute.
Defined.

Lemma replaced_child_keeps_running_witness :
  wp (spawn_or_adopt ex_spec) (λ o r', ∀ info, o = inr info → ek_killed (kern r') = ek_killed (kern ex_built)) ex_built.
Proof.
  apply (replaced_child_keeps_running ek_files (λ _, True) ek_killed ex_spec ex_built); [|by apply (bool_decide_unpack _); vm_compute].
  split; [exact ex_entries_wf|by apply (bool_decide_unpack _); vm_compute|done|by vm_compute].
Defined.

Lemma exec_restart_blocks_witness : let again := construct "sirenwm" (mkReg (reg ex_reg) (kern ex_run)) in
  (fst <$> again) = Some false ∧
  ∀ b r3, again = Some (b, r3) → b = false ∨ lock_fd_ (reg r3) < 0.
Proof.
  cbv zeta. split; [by vm_compute|]. intros b r3.
  apply (exec_restart_blocks ek_holder "sirenwm" [OpSpawnOrAdopt ex_spec] ex_reg ex_built ex_run); by vm_compute.
Defined.
